(* ===== verification/_CoqProject ===== *)
-Q . S2P
Prelude.v
Cursor.v
Poly.v
Common.v
Hashing.v
Encoding.v
Base58.v
Base58Check.v
Crypto.v
Scalar.v
Key.v
Wallet.v
Burning.v
CoinV2.v
Hybrid.v
CoinV1.v
Schnorr.v
Mlsag.v
Linear.v
Bulletproof.v
Sigma.v
OneOutOfMany.v
ProofV1.v
Payment.v
ProofV2.v
Utxo.v
TxGeneric.v
TxV2.v
Transfer.v
TxCA.v
TokenV2.v
TxConvert.v
Account.v
Cache.v
Client.v
