(* ===== verification/Prelude.v ===== *)
(** * A verification development of the Incognito Go SDK

    The SDK ([src/]) is the client side of Incognito, a chain with private
    transactions: it derives the keys of an account, finds and decrypts the coins of
    an account among those of a full node, chooses inputs, builds the zero-knowledge
    proofs and signatures of a transaction, and writes it as JSON for a node.  This
    library models the parts that compute (everything from bytes to whole
    transactions) as executable definitions, and proves what makes them correct.
    Network calls, files and third-party code are interfaces.

    ** The parts and how they interact

    From the bottom up; a file requires those above it that the code calls.

    - [Prelude.v]: the monads of the development (results with errors, panics and
      fuel; state), bytes, machine integers, Go slices.  [Cursor.v]: parsers that
      read bytes from an offset.  [Encoding.v]: base64 and decimals of Go's library.
    - [Common.v], [Hashing.v], [Base58.v], [Base58Check.v] ([src/common/]): integers
      as bytes, hexadecimal, [Hash], SHA-3, base 58 and its checksum with a cache.
    - [Scalar.v] ([src/crypto/curve25519/edwards_25519_scalar.go]): arithmetic modulo
      the order of the curve on limbs of 21 bits.  [Crypto.v] ([src/crypto/]): scalars,
      points, Pedersen commitments over the interface [CurveOps].  [Linear.v]: the
      tactic [module] for linear combinations of points.
    - [Key.v] ([src/key/]), [Wallet.v] and [Burning.v] ([src/wallet/]), [Account.v]
      ([src/incclient/common.go], [account.go]): key sets, addresses and their strings.
    - [CoinV1.v], [CoinV2.v] ([src/coin/]), [Hybrid.v] ([src/privacy/v1/hybridencryption/],
      [src/common/aes.go]): coins, one-time addresses, concealing and decrypting.
    - The proof systems: [Schnorr.v], [Mlsag.v] (ring signatures, also with asset
      tags), [Bulletproof.v] (range proofs), [Sigma.v] (serial numbers), [Poly.v] and
      [OneOutOfMany.v], each from the file or package of that name in [src/privacy/].
    - Payment proofs: [ProofV1.v] and [Payment.v] ([src/privacy/v1/zkp/]), [ProofV2.v]
      ([src/privacy/v2/proof_v2.go], [src/privacy/conversion/]).
    - Transactions: [TxGeneric.v] ([src/transaction/tx_generic/]), [TxV2.v] (PRV,
      [tx_ver2.go]) with [Transfer.v], [TxCA.v] (confidential assets,
      [tx_ver2_ca.go]), [TokenV2.v] (token transactions, [tx_token_ver2.go]),
      [TxConvert.v] (conversions of coins of version 1, [tx_convert.go]).
    - The client: [Utxo.v] ([src/incclient/coin.go], [tx_utils.go]): listing and
      choosing coins; [Cache.v] ([coin_cache.go]): the cache of coins, which
      goroutines fill; [Client.v] ([tx.go], [txtoken.go], [tx_utils.go]): from the
      strings of keys and addresses to the string of a transaction, which composes
      nearly all of the above.

    A definition has the name of the Go function it models, with the type in front
    for a method ([CoinV2_SetBytes] is the method [SetBytes] of [CoinV2]); a struct is a record; an
    interface with two implementations is an inductive type ([PlainCoin], [Coin],
    [PaymentProof]).  A loop is a [Fixpoint] of its own.  A pointer that may be [nil]
    is an [option], and [deref] panics on [None]; [index] and [slice] panic out of
    range as Go does.  Integers are [Z] with [u8], [u32], [u64], [i64] where the code
    wraps around.  A function that may fail returns [res]: [Ok], [Err], [Panic] or
    [OutOfFuel].  A method that writes into its receiver is in the state monad [st],
    which keeps what was written before an error.  Error texts are abridged; errors
    that only wrap another keep the text of that one.

    Random values are arguments: single scalars, or streams in the order of the calls
    ([TxRandomness] names all that a transaction draws).  The theorems hold for all of
    them, as long as they are reduced scalars.

    ** Interfaces

    - [CurveOps], [CurveLaws] ([Crypto.v]): the operations of the package curve25519 on
      32-byte keys; scalars are residues modulo the order, the points of the group of
      prime order are a module over them, decompression accepts exactly them among
      what the code keeps.  [Scalar.v] proves the laws of scalars of the code itself.
    - [Digests], [DigestLaws]: SHA-2 and SHA-3 return 32 bytes; hashing to a point
      gives a point.  Nothing else is assumed of a hash: no property rests on it being
      collision free.
    - [BlockCipher]: the key stream of AES-CTR.  [HDWallet]: BIP-32 and BIP-39.
    - [LRU] (which entries of the cache of Base58Check survive), [Allocator] (the
      capacity that [append] gives), [SliceSort] ([sort.Slice]), [MapRange] (the order
      of a range over a map).
    - [Node], [CoinNode], [Network], [CacheFiles]: what a full node answers and what
      files hold.
    - [MetadataOps], [TxCodec], [TokenCodec]: metadata and [encoding/json].
    Each comes with an instance ([toy_curve] and the like), for which the witnesses of
    the theorems are computed.

    ** What is proved

    - Whole transactions: [transfer_goes_through] and [received_spendable] (PRV),
      [token_transfer_goes_through] and [token_transaction_goes_through] (tokens):
      from owned coins, covered payments and decoys [Init] builds a transaction that
      balances, whose outputs their receivers can decrypt and spend, whose range proof
      and ring signature satisfy the equations of the verifier, or it fails in one of
      the listed ways.  [conversion_goes_through], [token_conversion_goes_through]: the
      same for conversions, with proofs of serial numbers in place of the ring.
      [token_json]: what is written as JSON is read back.
    - The client as a whole: [raw_transaction_goes_through] states what comes of a
      request by an account, from the node's list of its coins to the string that is
      sent, from which the transaction is read back.
    - Completeness of the proof systems: what a prover returns satisfies the equations
      of its verifier ([range_proof_verifies], [asset_proof_verifies],
      [inner_product_argument], [mlsag_sign_verifies], [mlsag_ca_sign_verifies],
      [schnorr_sign_verifies], [sn_privacy_complete], [one_of_many_complete],
      [payment_accepted], [payment_noPrivacy]).  The verifiers are part of the nodes and
      not of the SDK; their equations are the specification.
    - Coins: [one_time_address] (sender and receiver agree), [conceal_decrypt],
      [hybrid_roundtrip].
    - Refinement: [scalar_arithmetic] (limbs against arithmetic modulo the order),
      [cache_refines_chain] (the cache against the chain), with [scheduler_safe] and
      [scheduler_live] for the goroutines that fill it, [select_coins_v2_correct],
      [output_coins_correct], [choose_correct], [poly_arithmetic].
    - Bytes: round trips of all serializations, and what the parsers do on arbitrary
      bytes: most never panic, some do ([ProofV1_parse_panics], [mlsag_parse_safety]).
    - Amounts: [sent_back_change] (sums wrap around), [estimateNumTxs_terminates].

    ** Fuel and bounds

    [ota_loop] and [NewCoinFromPaymentInfo] get the number of tries for a one-time
    address: [NewCoinFromPaymentInfo] loops in the code until an index fits, so its
    results are stated for any fuel below [2 ^ 32], and running out of it means that
    none of these indices fits; [NewCoinCA] and the OTA receivers stop after
    [MaxTriesOTA = 50000] in the code itself.  The ring loop of MLSAG has as fuel the
    number of rows, [prove_rounds] of the inner-product argument one more than the
    length of the vectors, which are halved, the consolidation estimate one more than
    the number of coins, and [add_loop] of polynomials, which swaps its arguments at
    most once, two: each is proved to be enough.  [math.Ceil(float64(n) / 1024)] is modelled exactly, for [n] below [2 ^ 52].

    ** What is not modelled, and why

    - The arithmetic of the field and of points ([src/crypto/curve25519], ports of ref10
      and generated tables): the interface [CurveOps]; a proof of it is a project of
      its own.
    - RPC requests and their JSON results ([src/rpchandler]), the functions of
      [src/incclient] that mainly make requests (sending, bridge, portal, staking, pDEX,
      history), logging, flags and tutorials: input and output without logic that
      could be stated apart from a node.
    - The metadata types of [src/metadata]: records of data with a hash, behind
      [MetadataOps]; the base metadata with and without a signature are an instance.
    - Transactions of version 1 ([src/transaction/tx_ver1], [tx_token_base.go], and the
      client's calls of them), which nodes have stopped to accept; their proofs are in
      [ProofV1.v] and [Payment.v].
    - JSON wrappers ([MarshalJSON] and the like) of coins and keys.
    - Concurrency elsewhere than in [Cache.v]: the global commitment scheme of the range
      proofs over asset tags is written without a lock; it is a part of the state of
      [proveCA] here, which is run alone. *)

From stdpp Require Import base list gmap strings.
From Stdlib Require Import ZArith Lia.
Open Scope Z_scope.

(** ** Results of Go calls *)

(** A call returns normally, returns a non-nil [error], or panics.  [OutOfFuel]
    is not a behaviour of the code: it is what a fuelled loop of the model gives when
    its fuel is used up; the theorems show that the fuel is enough, or which loop is
    still running. *)
Inductive res (A : Type) : Type :=
| Ok (a : A)
| Err (msg : string)
| Panic
| OutOfFuel.
Arguments Ok {A} a.
Arguments Err {A} msg.
Arguments Panic {A}.
Arguments OutOfFuel {A}.

Definition res_bind {A B} (r : res A) (k : A -> res B) : res B :=
  match r with
  | Ok a => k a
  | Err m => Err m
  | Panic => Panic
  | OutOfFuel => OutOfFuel
  end.

(** Replacing the error, as [fmt.Errorf("...: " + err.Error())] does. *)
Definition res_wrap {A} (m : string) (r : res A) : res A :=
  match r with Err _ => Err m | _ => r end.

(** [if err != nil { return d }]. *)
Definition on_err {A} (d : A) (r : res A) : res A :=
  match r with Err _ => Ok d | r => r end.

(** The results of a loop over a list, in order. *)
Fixpoint res_map {A B} (f : A -> res B) (l : list A) : res (list B) :=
  match l with
  | [] => Ok []
  | a :: l => res_bind (f a) (fun b => res_bind (res_map f l) (fun bs => Ok (b :: bs)))
  end.

(** The use of a pointer that may be [nil]. *)
Definition deref {A} (o : option A) : res A :=
  match o with Some a => Ok a | None => Panic end.

Definition is_ok {A} (r : res A) : bool :=
  match r with Ok _ => true | _ => false end.

(** [res_safe r]: the call returned, with a value or with an error. *)
Definition res_safe {A} (r : res A) : Prop :=
  match r with Ok _ | Err _ => True | Panic | OutOfFuel => False end.

(** Methods with a pointer receiver: the receiver is threaded, and what was
    written before an error is kept. *)
Definition st (S A : Type) : Type := S -> S * res A.

Definition st_ret {S A} (a : A) : st S A := fun s => (s, Ok a).
Definition st_bind {S A B} (m : st S A) (k : A -> st S B) : st S B :=
  fun s => match m s with
           | (s', Ok a) => k a s'
           | (s', Err e) => (s', Err e)
           | (s', Panic) => (s', Panic)
           | (s', OutOfFuel) => (s', OutOfFuel)
           end.
Definition st_lift {S A} (r : res A) : st S A := fun s => (s, r).
Definition st_fail {S A} (m : string) : st S A := fun s => (s, Err m).
Definition st_put {S} (f : S -> S) : st S unit := fun s => (f s, Ok tt).

(** The assignment [c.f, err = parse(b, &offset)] followed by
    [if err != nil { return ... }]: on an error the field receives what the
    parser returns with its error ([dflt]). *)
Definition st_assign {S V} (set : V -> S -> S) (dflt : V) (msg : string)
    (p : res (V * nat)) : st S nat :=
  fun s => match p with
           | Ok (v, off) => (set v s, Ok off)
           | Err _ => (set dflt s, Err msg)
           | Panic => (s, Panic)
           | OutOfFuel => (s, OutOfFuel)
           end.

(** [x.f, err = p; if err != nil { return err }]: on an error the field is [nil]. *)
Definition st_field {S V} (set : option V -> S -> S) (p : res V) : st S unit :=
  fun s => match p with
           | Ok v => (set (Some v) s, Ok tt)
           | Err m => (set None s, Err m)
           | Panic => (s, Panic)
           | OutOfFuel => (s, OutOfFuel)
           end.

Declare Scope go_scope.
Delimit Scope go_scope with go.
Notation "'let*' p := e 'in' k" := (res_bind e (fun p => k))
  (at level 10, p pattern, e at level 100, k at level 200,
   format "'[v' 'let*'  p  :=  e  'in' '/' k ']'") : go_scope.
Notation "'let!' p := e 'in' k" := (st_bind e (fun p => k))
  (at level 10, p pattern, e at level 100, k at level 200,
   format "'[v' 'let!'  p  :=  e  'in' '/' k ']'") : go_scope.
Notation "'guard' b 'else' e ; k" := (if b then k else e)
  (at level 10, b at level 100, e at level 100, k at level 200, only parsing) : go_scope.
Open Scope go_scope.

(** ** Machine integers *)

Definition u8 (z : Z) : Z := z mod 2 ^ 8.
Definition u16 (z : Z) : Z := z mod 2 ^ 16.
Definition u32 (z : Z) : Z := z mod 2 ^ 32.
Definition u64 (z : Z) : Z := z mod 2 ^ 64.

(** Conversion to [int64] (and to [int], which is 64 bits wide). *)
Definition i64 (z : Z) : Z := (z + 2 ^ 63) mod 2 ^ 64 - 2 ^ 63.

Lemma u64_add a b : u64 (u64 a + b) = u64 (a + b).
Proof. unfold u64. by rewrite Zplus_mod_idemp_l. Qed.

Lemma u64_sub_l a b : u64 (u64 a - b) = u64 (a - b).
Proof. unfold u64. by rewrite Zminus_mod_idemp_l. Qed.

Lemma u64_sub_r a b : u64 (a - u64 b) = u64 (a - b).
Proof. unfold u64. by rewrite Zminus_mod_idemp_r. Qed.

(** Numbers without common bits. *)
Lemma lor_disjoint a b k : 0 <= k -> 0 <= a < 2 ^ k -> Z.lor a (Z.shiftl b k) = a + Z.shiftl b k.
Proof.
  intros Hk Ha. rewrite <- Z.add_lor_land. replace (Z.land a (Z.shiftl b k)) with 0; [by rewrite Z.add_0_r|].
  symmetry. apply Z.bits_inj'. intros n Hn. rewrite Z.land_spec, Z.bits_0. destruct (Z_lt_le_dec n k).
  - by rewrite Z.shiftl_spec_low, andb_false_r.
  - rewrite <- (Z.mod_small a (2 ^ k)), Z.mod_pow2_bits_high by lia. done.
Qed.

Lemma i64_u64 z : i64 (u64 z) = i64 z.
Proof. unfold i64, u64. by rewrite Zplus_mod_idemp_l. Qed.

Lemma i64_small z : - 2 ^ 63 <= z < 2 ^ 63 -> i64 z = z.
Proof. intros Hz. unfold i64. rewrite Z.mod_small by lia. lia. Qed.

Lemma i64_bounds z : - 2 ^ 63 <= i64 z < 2 ^ 63.
Proof. unfold i64. pose proof (Z.mod_pos_bound (z + 2 ^ 63) (2 ^ 64) ltac:(lia)). lia. Qed.

Definition is_u32 (z : Z) : Prop := 0 <= z < 2 ^ 32.
Definition is_u64 (z : Z) : Prop := 0 <= z < 2 ^ 64.

(** ** Bytes *)

(** A [byte] is an integer of [0, 256); Go strings and slices of bytes are
    lists of them. *)
Definition is_byte (b : Z) : Prop := 0 <= b < 256.
Definition bytes_ok (l : list Z) : Prop := Forall is_byte l.

Fixpoint str (s : string) : list Z :=
  match s with
  | EmptyString => []
  | String c s' => Z.of_N (Ascii.N_of_ascii c) :: str s'
  end.

(** [b[i]], which panics out of range. *)
Definition index {A} (b : list A) (i : nat) : res A :=
  match b !! i with Some x => Ok x | None => Panic end.

(** [b[lo:hi]].  The bound of a slice expression is the capacity of [b]; the
    slices of this code are used up to their length, so the bound is [len(b)]. *)
Definition slice {A} (b : list A) (lo hi : nat) : res (list A) :=
  if (lo <=? hi)%nat && (hi <=? length b)%nat
  then Ok (take (hi - lo) (drop lo b)) else Panic.

(** [copy(dst[:n], src)] for a fresh zeroed array of [n] bytes. *)
Definition copy_to_array (n : nat) (src : list Z) : list Z :=
  take n src ++ replicate (n - length src) 0.

(** ** Positional notation *)

Definition of_digits (base : Z) (l : list Z) : Z :=
  fold_left (fun acc d => acc * base + d) l 0.

Fixpoint to_digits_aux (fuel : nat) (base z : Z) (acc : list Z) : list Z :=
  match fuel with
  | O => acc
  | S f => if z <=? 0 then acc
           else to_digits_aux f base (z / base) (z mod base :: acc)
  end.

(** Most significant digit first, nothing for zero. *)
Definition to_digits (base z : Z) : list Z :=
  to_digits_aux (S (Z.to_nat (Z.log2 z))) base z [].

(** [new(big.Int).SetBytes(b)] and [x.Bytes()]. *)
Definition bigint_set_bytes (b : list Z) : Z := of_digits 256 b.
Definition bigint_bytes (z : Z) : list Z := to_digits 256 (Z.abs z).

(** Exactly [n] bytes, most significant first ([binary.BigEndian.PutUint32] and
    the like). *)
Fixpoint be_bytes (n : nat) (z : Z) : list Z :=
  match n with
  | O => []
  | S n' => be_bytes n' (z / 256) ++ [z mod 256]
  end.

Definition is_digit (base d : Z) : Prop := 0 <= d < base.

Fixpoint strip_zeros (l : list Z) : list Z :=
  match l with
  | [] => []
  | x :: l' => if x =? 0 then strip_zeros l' else l
  end.

Fixpoint count_zeros (l : list Z) : nat :=
  match l with
  | [] => 0
  | x :: l' => if x =? 0 then S (count_zeros l') else 0
  end.

(** ** Automation *)

Create HintDb bytes.
#[export] Hint Resolve Forall_nil_2 Forall_cons_2 Forall_app_2 : bytes.
#[export] Hint Unfold is_byte bytes_ok : bytes.

(** Case analysis on the boolean test of an [if] in the goal. *)
Ltac case_test :=
  match goal with
  | |- context [if ?b then _ else _] =>
      let E := fresh "E" in destruct b eqn:E
  end.

(** Boolean comparisons to propositions, in the whole context. *)
Ltac to_prop :=
  repeat match goal with
  | H : _ && _ = true |- _ => apply andb_prop in H; destruct H
  | H : _ && _ = false |- _ => apply andb_false_iff in H
  | H : _ || _ = true |- _ => apply orb_prop in H
  | H : _ || _ = false |- _ => apply orb_false_iff in H; destruct H
  | H : negb _ = true |- _ => apply negb_true_iff in H
  | H : negb _ = false |- _ => apply negb_false_iff in H
  | H : (_ <=? _)%nat = true |- _ => apply Nat.leb_le in H
  | H : (_ <=? _)%nat = false |- _ => apply Nat.leb_gt in H
  | H : (_ <? _)%nat = true |- _ => apply Nat.ltb_lt in H
  | H : (_ <? _)%nat = false |- _ => apply Nat.ltb_ge in H
  | H : (_ =? _)%nat = true |- _ => apply Nat.eqb_eq in H
  | H : (_ =? _)%nat = false |- _ => apply Nat.eqb_neq in H
  | H : (_ <=? _) = true |- _ => apply Z.leb_le in H
  | H : (_ <=? _) = false |- _ => apply Z.leb_gt in H
  | H : (_ <? _) = true |- _ => apply Z.ltb_lt in H
  | H : (_ <? _) = false |- _ => apply Z.ltb_ge in H
  | H : (_ =? _) = true |- _ => apply Z.eqb_eq in H
  | H : (_ =? _) = false |- _ => apply Z.eqb_neq in H
  end.

(** Splitting conjunctions of the goal and closing by [lia]. *)
Ltac arith := repeat split; try lia.

(** Decides the bound tests of the goal that linear arithmetic settles. *)
Ltac bounds :=
  repeat match goal with
  | |- context [(?a <? ?b)%nat] =>
      first [ replace (a <? b)%nat with true by (symmetry; apply Nat.ltb_lt; lia)
            | replace (a <? b)%nat with false by (symmetry; apply Nat.ltb_ge; lia) ]
  | |- context [(?a <=? ?b)%nat] =>
      first [ replace (a <=? b)%nat with true by (symmetry; apply Nat.leb_le; lia)
            | replace (a <=? b)%nat with false by (symmetry; apply Nat.leb_gt; lia) ]
  | |- context [(?a =? ?b)%nat] =>
      first [ replace (a =? b)%nat with true by (symmetry; apply Nat.eqb_eq; lia)
            | replace (a =? b)%nat with false by (symmetry; apply Nat.eqb_neq; lia) ]
  end; cbn [negb andb orb].

(** ** Lists *)

Lemma Forall_snoc {A} (P : A -> Prop) l x : Forall P (l ++ [x]) <-> Forall P l /\ P x.
Proof. by rewrite Forall_app, Forall_singleton. Qed.

Lemma slice_ok {A} (b : list A) lo hi :
  (lo <= hi)%nat -> (hi <= length b)%nat ->
  slice b lo hi = Ok (take (hi - lo) (drop lo b)).
Proof.
  intros H1 H2. unfold slice.
  apply Nat.leb_le in H1, H2. by rewrite H1, H2.
Qed.

Lemma slice_app_mid {A} (p m s : list A) lo hi :
  lo = length p -> hi = (length p + length m)%nat ->
  slice (p ++ m ++ s) lo hi = Ok m.
Proof.
  intros -> ->. rewrite slice_ok by (rewrite ?length_app; lia).
  rewrite drop_app_length, Nat.add_comm, Nat.add_sub.
  by rewrite take_app_length.
Qed.

Lemma index_ok {A} (b : list A) i x : b !! i = Some x -> index b i = Ok x.
Proof. unfold index. by intros ->. Qed.

Lemma index_middle {A} (p s : list A) x i :
  i = length p -> index (p ++ x :: s) i = Ok x.
Proof. intros ->. apply index_ok. by rewrite list_lookup_middle. Qed.

Lemma slice_safe {A} (b : list A) lo hi :
  (lo <= hi <= length b)%nat -> exists l, slice b lo hi = Ok l /\ length l = (hi - lo)%nat.
Proof.
  intros H. exists (take (hi - lo) (drop lo b)).
  rewrite slice_ok by lia. split; [done|].
  rewrite length_take, length_drop. lia.
Qed.

Lemma index_safe {A} (b : list A) i :
  (i < length b)%nat -> exists x, index b i = Ok x /\ b !! i = Some x.
Proof.
  intros H. destruct (lookup_lt_is_Some_2 b i H) as [x Hx].
  exists x. split; [by apply index_ok|done].
Qed.

Lemma copy_to_array_exact n l : length l = n -> copy_to_array n l = l.
Proof.
  intros <-. unfold copy_to_array.
  by rewrite firstn_all, Nat.sub_diag, app_nil_r.
Qed.

Lemma length_copy_to_array n l : length (copy_to_array n l) = n.
Proof.
  unfold copy_to_array. rewrite length_app, length_take, length_replicate. lia.
Qed.

Lemma zeros_split l : replicate (count_zeros l) 0 ++ strip_zeros l = l.
Proof.
  induction l as [|x l IH]; simpl; [done|].
  destruct (Z.eqb_spec x 0) as [->|]; simpl; [by rewrite IH|done].
Qed.

Lemma strip_zeros_head l : strip_zeros l = [] \/
  exists x l', strip_zeros l = x :: l' /\ x <> 0.
Proof.
  induction l as [|x l IH]; simpl; [by left|].
  destruct (Z.eqb_spec x 0); [done|right; eauto].
Qed.

Lemma strip_zeros_idemp l : strip_zeros (strip_zeros l) = strip_zeros l.
Proof.
  destruct (strip_zeros_head l) as [->|(x & l' & -> & Hx)]; [done|].
  simpl. by destruct (Z.eqb_spec x 0).
Qed.

Lemma strip_zeros_replicate n l : strip_zeros (replicate n 0 ++ l) = strip_zeros l.
Proof. induction n; simpl; auto. Qed.

Lemma count_zeros_replicate n l :
  count_zeros (replicate n 0 ++ l) = (n + count_zeros l)%nat.
Proof. induction n; simpl; auto. Qed.

Lemma count_zeros_strip l : count_zeros (strip_zeros l) = 0%nat.
Proof.
  destruct (strip_zeros_head l) as [->|(x & l' & -> & Hx)]; [done|].
  simpl. by destruct (Z.eqb_spec x 0).
Qed.

Lemma Forall_strip_zeros P l : Forall P l -> Forall P (strip_zeros l).
Proof.
  induction 1; simpl; [constructor|]. case_test; [done|by constructor].
Qed.

(** ** Positional notation *)

Section digits.
Context (base : Z) (Hbase : 2 <= base).

Lemma of_digits_snoc l d : of_digits base (l ++ [d]) = of_digits base l * base + d.
Proof using Type. unfold of_digits. by rewrite fold_left_app. Qed.

Lemma of_digits_app l1 l2 :
  of_digits base (l1 ++ l2) =
  of_digits base l1 * base ^ Z.of_nat (length l2) + of_digits base l2.
Proof using Type.
  induction l2 as [|d l2 IH] using rev_ind.
  - rewrite app_nil_r. change (of_digits base []) with 0. simpl. lia.
  - rewrite app_assoc, !of_digits_snoc, IH, length_app.
    replace (Z.of_nat (length l2 + length [d])) with (Z.of_nat (length l2) + 1)
      by (simpl; lia).
    rewrite Z.pow_add_r, Z.pow_1_r by lia. ring.
Qed.

Lemma of_digits_cons d l :
  of_digits base (d :: l) = d * base ^ Z.of_nat (length l) + of_digits base l.
Proof using Type.
  change (d :: l) with ([d] ++ l). rewrite of_digits_app.
  change (of_digits base [d]) with (0 * base + d). lia.
Qed.

Lemma of_digits_replicate n l :
  of_digits base (replicate n 0 ++ l) = of_digits base l.
Proof using Type.
  induction n; simpl; [done|]. rewrite of_digits_cons, IHn. lia.
Qed.

Lemma of_digits_strip l : of_digits base (strip_zeros l) = of_digits base l.
Proof using Type. rewrite <- (zeros_split l) at 2. by rewrite of_digits_replicate. Qed.

Lemma of_digits_bound l :
  Forall (is_digit base) l -> 0 <= of_digits base l < base ^ Z.of_nat (length l).
Proof using Hbase.
  induction l as [|d l IH] using rev_ind; intros H.
  - simpl. change (of_digits base []) with 0. lia.
  - apply Forall_snoc in H as [H Hd].
    specialize (IH H). unfold is_digit in Hd.
    rewrite of_digits_snoc, length_app. simpl.
    replace (Z.of_nat (length l + 1)) with (Z.of_nat (length l) + 1) by lia.
    rewrite Z.pow_add_r, Z.pow_1_r by lia.
    set (v := of_digits base l) in *. set (p := base ^ Z.of_nat (length l)) in *.
    assert (0 <= v * base) by (apply Z.mul_nonneg_nonneg; lia).
    assert ((v + 1) * base <= p * base) by (apply Z.mul_le_mono_nonneg_r; lia).
    lia.
Qed.

Lemma of_digits_inj l1 l2 :
  Forall (is_digit base) l1 -> Forall (is_digit base) l2 ->
  length l1 = length l2 -> of_digits base l1 = of_digits base l2 -> l1 = l2.
Proof using Hbase.
  revert l2. induction l1 as [|d1 l1 IH] using rev_ind;
    intros l2 H1 H2 Hlen Hval.
  - by destruct l2.
  - destruct l2 as [|d2 l2 _] using rev_ind.
    { rewrite length_app in Hlen. simpl in Hlen. lia. }
    rewrite !length_app in Hlen. simpl in Hlen.
    apply Forall_snoc in H1 as [H1 Hd1]. apply Forall_snoc in H2 as [H2 Hd2].
    unfold is_digit in Hd1, Hd2.
    rewrite !of_digits_snoc in Hval.
    assert (of_digits base l1 = of_digits base l2 /\ d1 = d2) as [Hl ->].
    { pose proof (Z.div_mod_unique base (of_digits base l1) (of_digits base l2) d1 d2).
      lia. }
    by rewrite (IH l2) by (auto; lia).
Qed.

Lemma of_digits_lower x l :
  Forall (is_digit base) (x :: l) -> x <> 0 ->
  base ^ Z.of_nat (length l) <= of_digits base (x :: l).
Proof using Hbase.
  intros H Hx. apply Forall_cons in H as [Hd H].
  rewrite of_digits_cons. pose proof (of_digits_bound l H).
  unfold is_digit in Hd. nia.
Qed.

(** Two lists of digits with no leading zero and the same value are equal. *)
Lemma of_digits_canonical l1 l2 :
  Forall (is_digit base) l1 -> Forall (is_digit base) l2 ->
  strip_zeros l1 = l1 -> strip_zeros l2 = l2 ->
  of_digits base l1 = of_digits base l2 -> l1 = l2.
Proof using Hbase.
  intros H1 H2 C1 C2 Hv. apply of_digits_inj; [done..| |done].
  pose proof (of_digits_bound l1 H1) as B1.
  pose proof (of_digits_bound l2 H2) as B2.
  assert (forall l, Forall (is_digit base) l -> strip_zeros l = l -> l <> [] ->
            base ^ (Z.of_nat (length l) - 1) <= of_digits base l) as Hlow.
  { intros l Hl Cl Hn. destruct (strip_zeros_head l) as [E|(x & l' & E & Hx)];
      [congruence|]. rewrite Cl in E. subst l. simpl length.
    replace (Z.of_nat (S (length l')) - 1) with (Z.of_nat (length l')) by lia.
    by apply of_digits_lower. }
  assert (forall a b : Z, 0 <= a -> 0 <= b -> base ^ a < base ^ b -> a < b) as Hmono.
  { intros a b Ha Hb Hab. apply (Z.pow_lt_mono_r_iff base a b); lia. }
  destruct (decide (l1 = [])) as [->|N1], (decide (l2 = [])) as [->|N2]; [done| | |].
  - exfalso. specialize (Hlow l2 H2 C2 N2). simpl in *.
    pose proof (Z.pow_pos_nonneg base (Z.of_nat (length l2) - 1)).
    destruct l2; [done|]. simpl length in *. lia.
  - exfalso. specialize (Hlow l1 H1 C1 N1). simpl in *.
    pose proof (Z.pow_pos_nonneg base (Z.of_nat (length l1) - 1)).
    destruct l1; [done|]. simpl length in *. lia.
  - pose proof (Hlow l1 H1 C1 N1). pose proof (Hlow l2 H2 C2 N2).
    destruct l1 as [|x1 l1]; [done|]. destruct l2 as [|x2 l2]; [done|].
    simpl length in *.
    pose proof (Hmono (Z.of_nat (S (length l1)) - 1) (Z.of_nat (S (length l2)))).
    pose proof (Hmono (Z.of_nat (S (length l2)) - 1) (Z.of_nat (S (length l1)))).
    lia.
Qed.

Lemma to_digits_aux_spec fuel : forall z acc,
  0 <= z < 2 ^ Z.of_nat fuel ->
  exists l, to_digits_aux fuel base z acc = l ++ acc /\
    of_digits base l = z /\ Forall (is_digit base) l /\ strip_zeros l = l.
Proof using Hbase.
  induction fuel as [|fuel IH]; intros z acc Hz.
  - exists []. simpl in *. change (of_digits base []) with 0. repeat split; auto; lia.
  - cbn [to_digits_aux]. destruct (z <=? 0) eqn:Ez; to_prop.
    { exists []. simpl. change (of_digits base []) with 0. repeat split; auto; lia. }
    assert (0 <= z / base < 2 ^ Z.of_nat fuel) as Hq.
    { split; [apply Z.div_pos; lia|]. apply Z.div_lt_upper_bound; [lia|].
      rewrite Nat2Z.inj_succ, Z.pow_succ_r in Hz by lia. nia. }
    destruct (IH (z / base) (z mod base :: acc) Hq) as (l & -> & Hv & Hd & Hc).
    pose proof (Z.mod_pos_bound z base). pose proof (Z.div_mod z base).
    exists (l ++ [z mod base]). rewrite <- app_assoc. split; [done|].
    rewrite of_digits_snoc, Hv. split; [lia|]. split.
    + apply Forall_snoc. unfold is_digit. split; [done|lia].
    + destruct (strip_zeros_head l) as [E|(x & l' & E & Hx)]; rewrite Hc in E; subst l.
      * change (of_digits base []) with 0 in Hv. simpl.
        destruct (Z.eqb_spec (z mod base) 0); [lia|done].
      * simpl. by destruct (Z.eqb_spec x 0).
Qed.

Lemma to_digits_spec z : 0 <= z ->
  of_digits base (to_digits base z) = z /\
  Forall (is_digit base) (to_digits base z) /\
  strip_zeros (to_digits base z) = to_digits base z.
Proof using Hbase.
  intros Hz. unfold to_digits.
  destruct (to_digits_aux_spec (S (Z.to_nat (Z.log2 z))) z []) as (l & E & H).
  - split; [done|]. rewrite Nat2Z.inj_succ, Z2Nat.id by apply Z.log2_nonneg.
    destruct (decide (z = 0)) as [->|]; [simpl; lia|].
    apply Z.log2_spec. lia.
  - rewrite E, app_nil_r. done.
Qed.

(** Writing out the value of a list of digits gives the list without its
    leading zeros. *)
Lemma to_digits_of_digits l :
  Forall (is_digit base) l -> to_digits base (of_digits base l) = strip_zeros l.
Proof using Hbase.
  intros H. pose proof (of_digits_bound l H).
  destruct (to_digits_spec (of_digits base l)) as (Hv & Hd & Hc); [lia|].
  apply of_digits_canonical; auto using Forall_strip_zeros, strip_zeros_idemp.
  by rewrite Hv, of_digits_strip.
Qed.

Lemma to_digits_length z n :
  0 <= z < base ^ Z.of_nat n -> (length (to_digits base z) <= n)%nat.
Proof using Hbase.
  intros Hz. destruct (to_digits_spec z) as (Hv & Hd & Hc); [lia|].
  destruct (to_digits base z) as [|x l]; [simpl; lia|].
  destruct (strip_zeros_head (x :: l)) as [E|(y & l' & E & Hy)]; rewrite Hc in E; [done|].
  injection E as <- <-.
  pose proof (of_digits_lower x l Hd Hy). rewrite Hv in *. simpl length.
  assert (Z.of_nat (length l) < Z.of_nat n); [|lia].
  apply (Z.pow_lt_mono_r_iff base); lia.
Qed.
End digits.

Lemma res_map_ok {A B} (f : A -> res B) (g : A -> B) l :
  Forall (fun x => f x = Ok (g x)) l -> res_map f l = Ok (map g l).
Proof. induction 1 as [|x l E Hl IH]; [done|]. cbn [res_map map]. rewrite E. cbn [res_bind]. by rewrite IH. Qed.

Lemma length_be_bytes n z : length (be_bytes n z) = n.
Proof.
  revert z. induction n; intros z; simpl; [done|].
  rewrite length_app, IHn. simpl. lia.
Qed.

Lemma be_bytes_ok n z : bytes_ok (be_bytes n z).
Proof.
  revert z. induction n; intros z; simpl; [constructor|].
  apply Forall_snoc. split; [apply IHn|]. apply Z.mod_pos_bound. lia.
Qed.

Lemma of_digits_be_bytes n z : of_digits 256 (be_bytes n z) = z mod 256 ^ Z.of_nat n.
Proof.
  revert z. induction n; intros z.
  - simpl. change (of_digits 256 []) with 0. by rewrite Z.mod_1_r.
  - cbn [be_bytes]. rewrite of_digits_snoc, IHn.
    rewrite Nat2Z.inj_succ, Z.pow_succ_r by lia.
    rewrite (Z.rem_mul_r z 256) by lia. lia.
Qed.

Lemma be_bytes_of_digits l : bytes_ok l -> be_bytes (length l) (of_digits 256 l) = l.
Proof.
  intros H. apply (of_digits_inj 256); try done.
  - apply be_bytes_ok.
  - apply length_be_bytes.
  - rewrite of_digits_be_bytes. apply Z.mod_small.
    by apply (of_digits_bound 256).
Qed.
