(* ===== verification/Cursor.v ===== *)
(** * Cursor.v: parsers that read a slice of bytes from an offset

    [rest mem off post]: [post] is what [mem] holds from [off] on.  The parsers of
    the proofs are sequences of reads at an increasing offset; each of the
    lemmas below performs one read and moves the cursor. *)

From stdpp Require Import base list.
From Stdlib Require Import ZArith Lia.
From S2P Require Import Prelude.
Open Scope Z_scope.

Definition rest {A} (mem : list A) (off : nat) (post : list A) : Prop :=
  (off <= length mem)%nat /\ drop off mem = post.

Section cursor.
Context {A : Type}.
Implicit Types (mem k post : list A) (off n : nat).

Lemma rest_start mem : rest mem 0 mem.
Proof. split; [lia|by rewrite drop_0]. Qed.

Lemma rest_length mem off post : rest mem off post -> length mem = (off + length post)%nat.
Proof. intros [Hl <-]. rewrite length_drop. lia. Qed.

Lemma rest_move mem off n k post : rest mem off (k ++ post) -> length k = n -> rest mem (off + n) post.
Proof.
  intros Hr <-. pose proof (rest_length _ _ _ Hr) as Hl. destruct Hr as [Ho E]. rewrite length_app in Hl.
  split; [lia|]. rewrite <- drop_drop, E. by rewrite drop_app_length.
Qed.

Lemma rest_move_one mem off a post : rest mem off (a :: post) -> rest mem (off + 1) post.
Proof. intros Hr. by apply (rest_move mem off 1 [a] post). Qed.

Lemma slice_rest mem off n k post : rest mem off (k ++ post) -> length k = n ->
  slice mem off (off + n) = Ok k.
Proof.
  intros Hr <-. pose proof (rest_length _ _ _ Hr) as Hl. destruct Hr as [Ho E]. rewrite length_app in Hl.
  unfold slice. rewrite (proj2 (Nat.leb_le off _)), (proj2 (Nat.leb_le _ (length mem))) by lia.
  cbn [andb]. rewrite E. f_equal. replace (off + length k - off)%nat with (length k) by lia.
  by rewrite take_app_length.
Qed.

Lemma index_rest mem off a post : rest mem off (a :: post) -> index mem off = Ok a.
Proof.
  intros [Ho E]. unfold index. pose proof (lookup_drop mem off 0) as Hd. rewrite E, Nat.add_0_r in Hd.
  cbn in Hd. by rewrite <- Hd.
Qed.

(** The tests of the parsers against the length. *)
Lemma rest_room mem off n k post : rest mem off (k ++ post) -> (n <= length k)%nat ->
  (length mem <? off + n)%nat = false.
Proof. intros Hr Hn. apply rest_length in Hr. rewrite length_app in Hr. apply Nat.ltb_ge. lia. Qed.

Lemma rest_more mem off a post : rest mem off (a :: post) -> (length mem <=? off)%nat = false.
Proof. intros Hr. apply rest_length in Hr. cbn in Hr. apply Nat.leb_gt. lia. Qed.
End cursor.

(** [st_bind] of a computation whose result is known. *)
Lemma st_bind_run {S T B} (m : st S T) (k : T -> st S B) s s' a :
  m s = (s', Ok a) -> st_bind m k s = k a s'.
Proof. intros E. unfold st_bind. by rewrite E. Qed.

Lemma st_bind_put {S B} (f : S -> S) (k : unit -> st S B) s : st_bind (st_put f) k s = k tt (f s).
Proof. done. Qed.

Lemma st_bind_lift {S T B} (r : res T) a (k : T -> st S B) s : r = Ok a -> st_bind (st_lift r) k s = k a s.
Proof. by intros ->. Qed.
