(* ===== verification/Poly.v ===== *)
(** * Poly.v: polynomials over the integers modulo a number (package polynomial)

    [src/privacy/v1/zkp/oneoutofmany/polynomial/polynomials.go].  A polynomial is
    the list of its coefficients, the constant first; the modulus is an argument,
    [None] where the code passes [nil].  The functional specification of each
    operation is in terms of the coefficients and of the values at a point. *)

From stdpp Require Import base list.
From Stdlib Require Import ZArith Lia Ring.
From S2P Require Import Prelude.
Open Scope Z_scope.

(** [x.Mod(x, m)], Go's Euclidean remainder, when there is a modulus. *)
Definition reduce (m : option Z) (x : Z) : Z :=
  match m with None => x | Some m => x mod Z.abs m end.

(** [big.Int.Mod] by zero panics. *)
Definition mod_zero (m : option Z) : bool :=
  match m with Some m => m =? 0 | None => false end.

Definition coef (p : list Z) (i : nat) : Z := nth i p 0.

(** The highest index above 0 with a coefficient that is not zero, or 0. *)
Fixpoint trim_last (p : list Z) (i : nat) : nat :=
  match i with
  | O => O
  | S i' => if negb (coef p i =? 0) then i else trim_last p i'
  end.

(** Slicing to [last+1] panics on the empty slice. *)
Definition Poly_Trim (p : list Z) : res (list Z) := slice p 0 (trim_last p (length p - 1) + 1).

Definition NewPoly (coEffs : list Z) : res (list Z) := Poly_Trim coEffs.

Definition Poly_GetDegree (p : list Z) : Z := Z.of_nat (length p) - 1.

Definition Poly_IsZero (p : list Z) : bool := (Poly_GetDegree p =? 0) && (coef p 0 =? 0).

Fixpoint compare_coefs (p q : list Z) : Z :=
  match p, q with
  | a :: p', b :: q' => if b <? a then 1 else if a <? b then -1 else compare_coefs p' q'
  | _, _ => 0
  end.

Definition Poly_Compare (p q : list Z) : Z :=
  if Poly_GetDegree q <? Poly_GetDegree p then 1
  else if Poly_GetDegree p <? Poly_GetDegree q then -1
  else compare_coefs p q.

(** [p[i] + q[i]] while [q] lasts, then the rest of [p]. *)
Fixpoint add_coefs (p q : list Z) : list Z :=
  match p, q with
  | a :: p', b :: q' => a + b :: add_coefs p' q'
  | _, _ => p
  end.

(** The call with the arguments exchanged is made at most once. *)
Fixpoint add_loop (fuel : nat) (p q : list Z) (m : option Z) : res (list Z) :=
  match fuel with
  | O => OutOfFuel
  | S f =>
      if Poly_Compare p q <? 0 then add_loop f q p m
      else if mod_zero m then Panic
      else Poly_Trim (map (reduce m) (add_coefs p q))
  end.

Definition Poly_Add (p q : list Z) (m : option Z) : res (list Z) := add_loop 2 p q m.

Definition Poly_Neg (p : list Z) : list Z := map Z.opp p.

Definition Poly_Sub (p q : list Z) (m : option Z) : res (list Z) := Poly_Add p (Poly_Neg q) m.

Definition Poly_sanitize (p : list Z) (m : option Z) : res (list Z) :=
  match m with
  | None => Ok p
  | Some _ => if mod_zero m then Panic else Poly_Trim (map (reduce m) p)
  end.

(** [r[k+j] = p_i * q[j] + r[k+j]] for each [j]. *)
Fixpoint mul_row (m : option Z) (a : Z) (q : list Z) (k : nat) (r : list Z) : list Z :=
  match q with
  | [] => r
  | b :: q' => mul_row m a q' (S k) (<[k := reduce m (a * b + coef r k)]> r)
  end.

Fixpoint mul_rows (m : option Z) (p q : list Z) (i : nat) (r : list Z) : list Z :=
  match p with
  | [] => r
  | a :: p' => mul_rows m p' q (S i) (mul_row m a q i r)
  end.

(** [make] panics on the negative length of two empty factors. *)
Definition Poly_Mul (p q : list Z) (m : option Z) : res (list Z) :=
  let* p := Poly_sanitize p m in
  let* q := Poly_sanitize q m in
  if (length p + length q =? 0)%nat then Panic
  else Poly_Trim (mul_rows m p q 0 (replicate (length p + length q - 1) 0)).

Fixpoint eval_loop (p : list Z) (x : Z) (m : option Z) (accumulatedX y : Z) : Z :=
  match p with
  | [] => y
  | c :: p' => eval_loop p' x m (reduce m (accumulatedX * x)) (reduce m (y + accumulatedX * c))
  end.

Definition Poly_Eval (p : list Z) (x : Z) (m : option Z) : res Z :=
  if mod_zero m && negb (length p =? 0)%nat then Panic
  else Ok (eval_loop p x m 1 0).

(** [make] panics on a negative length before the sign of [adjust] is tested. *)
Definition Poly_clone (p : list Z) (adjust : Z) : res (list Z) :=
  if Z.of_nat (length p) + adjust <? 0 then Panic
  else if adjust <? 0 then NewPoly [0]
  else Ok (replicate (Z.to_nat adjust) 0 ++ p).

(** ** Specification *)

(** Equality modulo the modulus. *)
Definition ceq (m : option Z) (a b : Z) : Prop := reduce m a = reduce m b.

Definition modulus_ok (m : option Z) : Prop := match m with Some m => 0 < m | None => True end.

(** The form the operations return: not empty, reduced, and without a leading
    zero but for a constant. *)
Definition poly_ok (m : option Z) (p : list Z) : Prop :=
  p <> [] /\ Forall (fun c => reduce m c = c) p /\ ((1 < length p)%nat -> coef p (length p - 1) <> 0).

(** The coefficient of [x^t] in a product. *)
Fixpoint conv (p q : list Z) (t : nat) : Z :=
  match p with
  | [] => 0
  | a :: p' => a * coef q t + match t with O => 0 | S t' => conv p' q t' end
  end.

(** The value at a point. *)
Fixpoint value (p : list Z) (x : Z) : Z :=
  match p with [] => 0 | c :: p' => c + x * value p' x end.

(** ** Lemmas *)

Section modulus.
Context (m : option Z).

#[export] Instance ceq_equivalence : Equivalence (ceq m).
Proof. split; unfold ceq; [intros ?|intros ??|intros ???]; congruence. Qed.

#[export] Instance ceq_add : Proper (ceq m ==> ceq m ==> ceq m) Z.add.
Proof.
  intros a a' Ha b b' Hb. unfold ceq, reduce in *. destruct m as [n|]; [|congruence].
  by rewrite Zplus_mod, Ha, Hb, <- Zplus_mod.
Qed.

#[export] Instance ceq_mul : Proper (ceq m ==> ceq m ==> ceq m) Z.mul.
Proof.
  intros a a' Ha b b' Hb. unfold ceq, reduce in *. destruct m as [n|]; [|congruence].
  by rewrite Zmult_mod, Ha, Hb, <- Zmult_mod.
Qed.

#[export] Instance ceq_opp : Proper (ceq m ==> ceq m) Z.opp.
Proof. intros a a' Ha. rewrite <- (Z.mul_1_l (- a)), <- (Z.mul_1_l (- a')), <- !Zopp_mult_distr_r, !Zopp_mult_distr_l. by rewrite Ha. Qed.

#[export] Instance ceq_sub : Proper (ceq m ==> ceq m ==> ceq m) Z.sub.
Proof. intros a a' Ha b b' Hb. rewrite <- !Z.add_opp_r. by rewrite Ha, Hb. Qed.

Lemma ceq_eq a b : a = b -> ceq m a b.
Proof. by intros ->. Qed.

Lemma reduce_0 : reduce m 0 = 0.
Proof. unfold reduce. destruct m; [apply Zmod_0_l|done]. Qed.

Lemma reduce_reduce x : reduce m (reduce m x) = reduce m x.
Proof. unfold reduce. destruct m; [apply Zmod_mod|done]. Qed.

Lemma ceq_reduce x : ceq m (reduce m x) x.
Proof. apply reduce_reduce. Qed.

Lemma coef_map (f : Z -> Z) p k : f 0 = 0 -> coef (map f p) k = f (coef p k).
Proof. intros Hf. unfold coef. rewrite <- Hf at 1. apply map_nth. Qed.

Lemma coef_overflow p k : (length p <= k)%nat -> coef p k = 0.
Proof. apply nth_overflow. Qed.

Lemma coef_insert r k v t : (k < length r)%nat ->
  coef (<[k := v]> r) t = if (t =? k)%nat then v else coef r t.
Proof.
  intros Hk. unfold coef. destruct (Nat.eqb_spec t k) as [->|Hne].
  - apply nth_lookup_Some. by rewrite list_lookup_insert_eq.
  - rewrite !nth_lookup. by rewrite list_lookup_insert_ne.
Qed.

Lemma coef_take p n k : coef (take n p) k = if (k <? n)%nat then coef p k else 0.
Proof.
  unfold coef. rewrite !nth_lookup. destruct (Nat.ltb_spec k n).
  - by rewrite lookup_take_lt.
  - by rewrite lookup_take_ge.
Qed.

(** [Trim] keeps the coefficients and removes the leading zeros. *)
Lemma trim_last_spec p i : (trim_last p i <= i)%nat /\
  (forall k, (trim_last p i < k <= i)%nat -> coef p k = 0) /\
  ((0 < trim_last p i)%nat -> coef p (trim_last p i) <> 0).
Proof.
  induction i as [|i (IH1 & IH2 & IH3)]; [cbn; repeat split; intros; lia|]. cbn [trim_last].
  destruct (Z.eqb_spec (coef p (S i)) 0) as [E|E]; cbn [negb].
  - split; [lia|]. split; [|exact IH3]. intros k Hk.
    destruct (decide (k = S i)) as [->|]; [exact E|apply IH2; lia].
  - split; [lia|]. split; [intros; lia|done].
Qed.

Lemma Trim_spec p : p <> [] -> exists r, Poly_Trim p = Ok r /\ r <> [] /\
  (forall k, coef r k = coef p k) /\ (length r <= length p)%nat /\
  ((1 < length r)%nat -> coef r (length r - 1) <> 0) /\ (forall P, Forall P p -> Forall P r).
Proof.
  intros Hp. assert (0 < length p)%nat as Hl by (destruct p; [done|cbn; lia]).
  destruct (trim_last_spec p (length p - 1)) as (H1 & H2 & H3). set (j := trim_last _ _) in *.
  unfold Poly_Trim. fold j. rewrite slice_ok, Nat.sub_0_r, drop_0 by lia. eexists. split; [reflexivity|]. rewrite length_take.
  replace (Nat.min (j + 1) (length p))%nat with (j + 1)%nat by lia.
  split; [|split; [|split; [lia|split]]].
  - intros E. apply (f_equal length) in E. rewrite length_take in E. cbn in E. lia.
  - intros k. rewrite coef_take. destruct (Nat.ltb_spec k (j + 1)); [done|].
    destruct (decide (k <= length p - 1)%nat); [symmetry; apply H2; lia|].
    symmetry. apply coef_overflow. lia.
  - intros Hj. rewrite coef_take. replace (j + 1 - 1)%nat with j by lia.
    rewrite (proj2 (Nat.ltb_lt _ _)) by lia. apply H3. lia.
  - intros P HP. by apply Forall_take.
Qed.
End modulus.

(** *** Sums *)

Lemma compare_coefs_antisym p q : length p = length q -> compare_coefs q p = - compare_coefs p q.
Proof.
  revert q. induction p as [|a p IH]; intros [|b q] Hl; try discriminate Hl; [done|].
  injection Hl as Hl. cbn [compare_coefs].
  destruct (Z.ltb_spec b a), (Z.ltb_spec a b); try lia. by apply IH.
Qed.

Lemma Compare_cases p q : Poly_Compare p q < 0 -> Poly_Compare q p >= 0.
Proof.
  unfold Poly_Compare, Poly_GetDegree.
  destruct (Z.ltb_spec (Z.of_nat (length q) - 1) (Z.of_nat (length p) - 1)),
    (Z.ltb_spec (Z.of_nat (length p) - 1) (Z.of_nat (length q) - 1)); try lia.
  rewrite compare_coefs_antisym by lia. lia.
Qed.

Lemma Compare_length p q : Poly_Compare p q >= 0 -> (length q <= length p)%nat.
Proof.
  unfold Poly_Compare, Poly_GetDegree.
  destruct (Z.ltb_spec (Z.of_nat (length q) - 1) (Z.of_nat (length p) - 1)),
    (Z.ltb_spec (Z.of_nat (length p) - 1) (Z.of_nat (length q) - 1)); lia.
Qed.

Lemma add_coefs_coef p q k : (length q <= length p)%nat -> coef (add_coefs p q) k = coef p k + coef q k.
Proof.
  unfold coef. revert q k. induction p as [|a p IH]; intros [|b q] k Hl; cbn in Hl; try lia.
  - by destruct k.
  - destruct k; cbn; lia.
  - destruct k as [|k]; [done|]. apply (IH q k). lia.
Qed.

Lemma add_coefs_length p q : length (add_coefs p q) = length p.
Proof. revert q. induction p as [|a p IH]; intros [|b q]; cbn; [done..|]. by rewrite IH. Qed.

Section operations.
Context (m : option Z) (Hm : modulus_ok m).

Lemma modulus_not_zero : mod_zero m = false.
Proof. unfold mod_zero. destruct m; [|done]. cbn in Hm. apply Z.eqb_neq. lia. Qed.

(** [Trim] of reduced coefficients is in the form of the operations. *)
Lemma reduced_trim l : l <> [] -> exists r, Poly_Trim (map (reduce m) l) = Ok r /\ poly_ok m r /\
  (length r <= length l)%nat /\ forall k, ceq m (coef r k) (coef l k).
Proof.
  intros Hl. destruct (Trim_spec (map (reduce m) l)) as (r & E & Hne & Hc & Hlen & Hlast & HP).
  { intros E. by apply map_eq_nil in E. }
  exists r. rewrite length_map in Hlen. split; [exact E|]. split; [|split; [exact Hlen|]].
  - split; [exact Hne|]. split; [|exact Hlast]. apply HP, Forall_map, Forall_true. intros c. apply reduce_reduce.
  - intros k. rewrite Hc, (coef_map _ _ _ (reduce_0 m)). apply ceq_reduce.
Qed.

Lemma Add_spec p q : p <> [] -> q <> [] -> exists r, Poly_Add p q m = Ok r /\ poly_ok m r /\
  (length r <= length p `max` length q)%nat /\ forall k, ceq m (coef r k) (coef p k + coef q k).
Proof using Hm.
  intros Hp Hq.
  assert (forall f p q, p <> [] -> Poly_Compare p q >= 0 -> exists r, add_loop (S f) p q m = Ok r /\ poly_ok m r /\
    (length r <= length p)%nat /\ forall k, ceq m (coef r k) (coef p k + coef q k)) as Hadd.
  { clear p q Hp Hq. intros f p q Hp Hc. cbn [add_loop]. rewrite (proj2 (Z.ltb_ge _ _)) by lia.
    rewrite modulus_not_zero. pose proof (Compare_length p q Hc) as Hl.
    destruct (reduced_trim (add_coefs p q)) as (r & E & Hok & Hlen & Hk).
    { intros E. apply (f_equal length) in E. rewrite add_coefs_length in E. by destruct p. }
    rewrite add_coefs_length in Hlen. exists r. split; [exact E|]. split; [exact Hok|]. split; [exact Hlen|].
    intros k. rewrite Hk. by rewrite add_coefs_coef. }
  unfold Poly_Add. destruct (Z.ltb_spec (Poly_Compare p q) 0) as [Hc|Hc].
  - destruct (Hadd 0%nat q p Hq (Compare_cases p q Hc)) as (r & E & Hok & Hlen & Hk).
    exists r. change (add_loop 2 p q m) with
      (if Poly_Compare p q <? 0 then add_loop 1 q p m else if mod_zero m then Panic
       else Poly_Trim (map (reduce m) (add_coefs p q))).
    rewrite (proj2 (Z.ltb_lt _ _)) by lia. split; [exact E|]. split; [exact Hok|]. split; [lia|].
    intros k. by rewrite Hk, Z.add_comm.
  - destruct (Hadd 1%nat p q Hp ltac:(lia)) as (r & E & Hok & Hlen & Hk).
    exists r. split; [exact E|]. split; [exact Hok|]. split; [lia|exact Hk].
Qed.

Lemma Sub_spec p q : p <> [] -> q <> [] -> exists r, Poly_Sub p q m = Ok r /\ poly_ok m r /\
  (length r <= length p `max` length q)%nat /\ forall k, ceq m (coef r k) (coef p k - coef q k).
Proof using Hm.
  intros Hp Hq. destruct (Add_spec p (Poly_Neg q)) as (r & E & Hok & Hlen & Hk); [done| |].
  { intros E. by apply map_eq_nil in E. }
  unfold Poly_Neg in *. rewrite length_map in Hlen. exists r. split; [exact E|]. split; [exact Hok|].
  split; [exact Hlen|]. intros k. rewrite Hk. by rewrite coef_map.
Qed.

(** *** Products *)

Lemma mul_row_length a q k r : length (mul_row m a q k r) = length r.
Proof. revert k r. induction q as [|b q IH]; intros k r; [done|]. cbn. by rewrite IH, length_insert. Qed.

Lemma mul_row_coef a q : forall k r t, (k + length q <= length r)%nat ->
  ceq m (coef (mul_row m a q k r) t) (coef r t + if (k <=? t)%nat then a * coef q (t - k) else 0).
Proof.
  induction q as [|b q IH]; intros k r t Hl.
  - cbn [mul_row]. unfold coef at 3. replace (nth (t - k) [] 0) with 0 by (by destruct (t - k)%nat).
    destruct (k <=? t)%nat; by rewrite ?Z.mul_0_r, Z.add_0_r.
  - cbn [length] in Hl. cbn [mul_row]. rewrite IH by (rewrite length_insert; lia).
    rewrite coef_insert by lia. destruct (Nat.eqb_spec t k) as [->|Hne].
    + rewrite Nat.leb_refl, Nat.sub_diag. rewrite (proj2 (Nat.leb_gt (S k) k)) by lia.
      rewrite ceq_reduce. cbn [coef nth]. apply ceq_eq. lia.
    + destruct (Nat.leb_spec k t) as [Hk|Hk].
      * rewrite (proj2 (Nat.leb_le (S k) t)) by lia. replace (t - k)%nat with (S (t - S k)) by lia. done.
      * rewrite (proj2 (Nat.leb_gt (S k) t)) by lia. done.
Qed.

Lemma mul_rows_length p q : forall i r, length (mul_rows m p q i r) = length r.
Proof. induction p as [|a p IH]; intros i r; [done|]. cbn. by rewrite IH, mul_row_length. Qed.

Lemma mul_rows_coef p q : forall i r t, (i + length p + length q <= length r + 1)%nat -> q <> [] ->
  ceq m (coef (mul_rows m p q i r) t) (coef r t + if (i <=? t)%nat then conv p q (t - i) else 0).
Proof.
  induction p as [|a p IH]; intros i r t Hl Hq.
  - cbn [mul_rows conv]. destruct (i <=? t)%nat; by rewrite Z.add_0_r.
  - cbn [length] in Hl. assert (0 < length q)%nat by (destruct q; [done|cbn; lia]).
    cbn [mul_rows]. rewrite IH by (rewrite ?mul_row_length; (lia || done)).
    rewrite mul_row_coef by lia. destruct (Nat.leb_spec i t) as [Hi|Hi].
    + cbn [conv]. destruct (Nat.leb_spec (S i) t) as [Hsi|Hsi].
      * replace (t - i)%nat with (S (t - S i)) by lia. apply ceq_eq. lia.
      * replace (t - i)%nat with 0%nat by lia. apply ceq_eq. lia.
    + rewrite (proj2 (Nat.leb_gt (S i) t)) by lia. apply ceq_eq. lia.
Qed.

Lemma conv_ceq p p' q q' t : (forall k, ceq m (coef p k) (coef p' k)) -> (forall k, ceq m (coef q k) (coef q' k)) ->
  ceq m (conv p q t) (conv p' q' t).
Proof.
  assert (forall p q t, (forall k, ceq m (coef p k) 0) -> ceq m (conv p q t) 0) as Hz.
  { clear. induction p as [|a p IH]; intros q t Hp; [done|]. cbn [conv].
    rewrite (Hp 0%nat : ceq m a 0). destruct t as [|t]; [by rewrite Z.mul_0_l|].
    rewrite IH; [by rewrite Z.mul_0_l|]. intros k. exact (Hp (S k)). }
  revert p' t. induction p as [|a p IH]; intros [|a' p'] t Hp Hq.
  - done.
  - symmetry. apply (Hz (a' :: p')). intros k. rewrite <- Hp. apply (ceq_eq m). by destruct k.
  - apply (Hz (a :: p)). intros k. rewrite Hp. apply (ceq_eq m). by destruct k.
  - cbn [conv]. rewrite (Hp 0%nat : ceq m a a'), Hq. destruct t as [|t]; [done|].
    rewrite (IH p' t); [done| |done]. intros k. exact (Hp (S k)).
Qed.

Lemma sanitize_spec p : p <> [] -> exists r, Poly_sanitize p m = Ok r /\ r <> [] /\
  (length r <= length p)%nat /\ Forall (fun c => reduce m c = c) r /\ forall k, ceq m (coef r k) (coef p k).
Proof using Hm.
  intros Hp. pose proof modulus_not_zero as Hz. destruct (reduced_trim p Hp) as (r & E & (Hne & Hr & _) & Hl & Hk).
  unfold Poly_sanitize. destruct m as [n|].
  - rewrite Hz. by exists r.
  - exists p. repeat split; try done. by apply Forall_true.
Qed.

Lemma coef_replicate n k : coef (replicate n 0) k = 0.
Proof. unfold coef. rewrite nth_lookup. destruct (replicate n 0 !! k) eqn:E; [|done]. by apply lookup_replicate in E as [-> _]. Qed.

Lemma Forall_mul_rows p q : forall i r, Forall (fun c => reduce m c = c) r ->
  Forall (fun c => reduce m c = c) (mul_rows m p q i r).
Proof.
  induction p as [|a p IH]; intros i r Hr; [done|]. cbn. apply IH. clear IH.
  revert i r Hr. induction q as [|b q IH]; intros i r Hr; [done|]. cbn. apply IH.
  apply Forall_insert; [done|]. apply reduce_reduce.
Qed.

Lemma Mul_spec p q : p <> [] -> q <> [] -> exists r, Poly_Mul p q m = Ok r /\ poly_ok m r /\
  (length r <= length p + length q - 1)%nat /\ forall k, ceq m (coef r k) (conv p q k).
Proof using Hm.
  intros Hp Hq. unfold Poly_Mul.
  destruct (sanitize_spec p Hp) as (p' & -> & Np & Lp & Rp & Cp).
  destruct (sanitize_spec q Hq) as (q' & -> & Nq & Lq & Rq & Cq). cbn [res_bind].
  assert (0 < length p')%nat by (destruct p'; [done|cbn; lia]).
  assert (0 < length q')%nat by (destruct q'; [done|cbn; lia]).
  rewrite (proj2 (Nat.eqb_neq _ 0)) by lia.
  set (l := mul_rows m p' q' 0 _).
  assert (length l = length p' + length q' - 1)%nat as Ll by (unfold l; by rewrite mul_rows_length, length_replicate).
  destruct (Trim_spec l) as (r & E & Hne & Hc & Hlen & Hlast & HP).
  { intros E. apply (f_equal length) in E. cbn in E. lia. }
  exists r. split; [exact E|]. split; [|split; [lia|]].
  - split; [exact Hne|]. split; [|exact Hlast]. apply HP. unfold l. apply Forall_mul_rows.
    apply Forall_replicate, reduce_0.
  - intros k. rewrite Hc. unfold l. rewrite mul_rows_coef by (rewrite ?length_replicate; (lia || done)).
    rewrite coef_replicate, Nat.sub_0_r. cbn [Nat.leb]. rewrite Z.add_0_l. by apply conv_ceq.
Qed.

(** *** Values *)

Lemma value_ceq p p' x : (forall k, ceq m (coef p k) (coef p' k)) -> ceq m (value p x) (value p' x).
Proof.
  assert (forall p, (forall k, ceq m (coef p k) 0) -> ceq m (value p x) 0) as Hz.
  { clear. induction p as [|a p IH]; intros Hp; [done|]. cbn [value]. rewrite (Hp 0%nat : ceq m a 0), IH.
    - by rewrite Z.mul_0_r.
    - intros k. exact (Hp (S k)). }
  revert p'. induction p as [|a p IH]; intros [|a' p'] Hp.
  - done.
  - symmetry. apply (Hz (a' :: p')). intros k. rewrite <- Hp. apply (ceq_eq m). by destruct k.
  - apply (Hz (a :: p)). intros k. rewrite Hp. apply (ceq_eq m). by destruct k.
  - cbn [value]. rewrite (Hp 0%nat : ceq m a a'), (IH p'); [done|]. intros k. exact (Hp (S k)).
Qed.

Lemma eval_loop_spec p x : forall acc y, ceq m (eval_loop p x m acc y) (y + acc * value p x).
Proof.
  induction p as [|c p IH]; intros acc y; cbn [eval_loop value].
  - apply ceq_eq. lia.
  - rewrite IH, !ceq_reduce. apply ceq_eq. ring.
Qed.

Lemma eval_loop_reduced p x : forall acc y, reduce m y = y -> reduce m (eval_loop p x m acc y) = eval_loop p x m acc y.
Proof. induction p as [|c p IH]; intros acc y Hy; [done|]. cbn. apply IH, reduce_reduce. Qed.

Lemma Eval_spec p x : Poly_Eval p x m = Ok (reduce m (value p x)).
Proof using Hm.
  unfold Poly_Eval. rewrite modulus_not_zero. cbn [andb]. f_equal.
  rewrite <- eval_loop_reduced by apply reduce_0. pose proof (eval_loop_spec p x 1 0) as E.
  unfold ceq in E. rewrite E. f_equal. ring.
Qed.
End operations.

(** *** The values of sums and products *)

Fixpoint psum (n : nat) (f : nat -> Z) (x : Z) : Z :=
  match n with O => 0 | S n' => f 0%nat + x * psum n' (fun k => f (S k)) x end.

Lemma psum_value p x : forall n, (length p <= n)%nat -> psum n (coef p) x = value p x.
Proof.
  induction p as [|a p IH]; intros n Hn.
  - clear Hn. cbn [value]. assert (forall n f, (forall k, f k = 0) -> psum n f x = 0) as Hz.
    { clear. induction n as [|n IH]; intros f Hf; [done|]. cbn. rewrite Hf, IH; [ring|]. intros k. apply Hf. }
    apply Hz. intros k. by destruct k.
  - destruct n as [|n]; [cbn in Hn; lia|]. cbn [psum value]. f_equal. f_equal. apply (IH n). cbn in Hn. lia.
Qed.

Lemma psum_ext n : forall f g x, (forall k, f k = g k) -> psum n f x = psum n g x.
Proof. induction n as [|n IH]; intros f g x Hf; [done|]. cbn. rewrite Hf. f_equal. f_equal. by apply IH. Qed.

Lemma psum_ceq m n : forall f g x, (forall k, ceq m (f k) (g k)) -> ceq m (psum n f x) (psum n g x).
Proof. induction n as [|n IH]; intros f g x Hf; [done|]. cbn. rewrite (Hf 0%nat), IH; [done|]. intros k. apply Hf. Qed.

Lemma psum_linear n : forall a b f g x,
  psum n (fun k => a * f k + b * g k) x = a * psum n f x + b * psum n g x.
Proof.
  induction n as [|n IH]; intros a b f g x; cbn; [ring|].
  rewrite (IH a b (fun k => f (S k)) (fun k => g (S k)) x). ring.
Qed.

Lemma psum_conv q x : q <> [] -> forall p n, (length p + length q <= n + 1)%nat ->
  psum n (conv p q) x = value p x * value q x.
Proof.
  intros Hq. assert (0 < length q)%nat by (destruct q; [done|cbn; lia]).
  induction p as [|a p IH]; intros n Hn.
  - cbn [value]. rewrite (psum_ext n _ (fun k => 0 * coef q k + 0 * coef q k)) by done.
    rewrite psum_linear. ring.
  - cbn [length] in Hn. destruct n as [|n]; [lia|].
    rewrite (psum_ext _ _ (fun t => a * coef q t + 1 * match t with O => 0 | S t' => conv p q t' end))
      by (intros t; cbn [conv]; ring).
    rewrite psum_linear, psum_value by lia. cbn [psum value]. rewrite IH by lia. ring.
Qed.

(** *** Coefficients *)

(** A coefficient of the form of the operations is its remainder. *)
Lemma poly_ok_coef m p k : poly_ok m p -> reduce m (coef p k) = coef p k.
Proof.
  intros (_ & Hr & _). unfold coef. rewrite nth_lookup. destruct (p !! k) as [c|] eqn:E; [|apply reduce_0].
  exact (Forall_lookup_1 _ _ _ _ Hr E).
Qed.

Lemma poly_ok_ceq m p k a : poly_ok m p -> ceq m (coef p k) a -> coef p k = reduce m a.
Proof. intros Hp E. unfold ceq in E. by rewrite <- E, poly_ok_coef. Qed.

(** The coefficient of [x^t] in a product: the sum of [p_i * q_(t-i)]. *)
Definition product_coef (p q : list Z) (t : nat) : Z :=
  foldr Z.add 0 (map (fun i => coef p i * coef q (t - i)) (seq 0 (S t))).

Lemma conv_nil q t : conv [] q t = product_coef [] q t.
Proof.
  unfold product_coef. cbn [conv]. symmetry. generalize (seq 0 (S t)). intros l.
  induction l as [|i l IH]; [done|]. cbn [map foldr]. rewrite IH. unfold coef. destruct i; cbn [nth]; lia.
Qed.

Lemma conv_product p q t : conv p q t = product_coef p q t.
Proof.
  revert t. induction p as [|a p IH]; intros t; [apply conv_nil|].
  cbn [conv]. unfold product_coef. cbn [seq map foldr]. change (coef (a :: p) 0) with a. rewrite Nat.sub_0_r. f_equal.
  destruct t as [|t]; [done|]. rewrite IH. unfold product_coef. rewrite <- (seq_shift (S t) 0), map_map. done.
Qed.

(** ** Properties *)

(** C38: the polynomials modulo a positive number, or over the integers, form a ring
    that evaluation respects: sums, differences and products of non-empty
    polynomials are returned in normal form (not empty, reduced, without a leading
    zero); their coefficients are, reduced, the sums and differences of the
    coefficients and, for [x^k] in a product, the sum of the products of the
    coefficients of [x^i] and [x^(k-i)]; their values at each point are the sums,
    differences and products of the values, and [Eval] computes them. *)
Theorem poly_arithmetic m p q : modulus_ok m -> p <> [] -> q <> [] ->
  exists s d r, Poly_Add p q m = Ok s /\ Poly_Sub p q m = Ok d /\ Poly_Mul p q m = Ok r /\
    poly_ok m s /\ poly_ok m d /\ poly_ok m r /\
    (length r <= length p + length q - 1)%nat /\
    (forall k, coef s k = reduce m (coef p k + coef q k) /\ coef d k = reduce m (coef p k - coef q k) /\
       coef r k = reduce m (product_coef p q k)) /\
    forall x, exists v w, Poly_Eval p x m = Ok v /\ Poly_Eval q x m = Ok w /\
      Poly_Eval s x m = Ok (reduce m (v + w)) /\ Poly_Eval d x m = Ok (reduce m (v - w)) /\
      Poly_Eval r x m = Ok (reduce m (v * w)).
Proof.
  intros Hm Hp Hq. destruct (Add_spec m Hm p q Hp Hq) as (s & Es & Hs & Ls & Cs).
  destruct (Sub_spec m Hm p q Hp Hq) as (d & Ed & Hd & Ld & Cd).
  destruct (Mul_spec m Hm p q Hp Hq) as (r & Er & Hr & Lr & Cr).
  exists s, d, r. repeat (split; [assumption|]). split.
  { intros k. split; [by apply poly_ok_ceq|]. split; [by apply poly_ok_ceq|]. rewrite <- conv_product. by apply poly_ok_ceq. }
  intros x. exists (reduce m (value p x)), (reduce m (value q x)).
  rewrite !Eval_spec by done. split; [done|]. split; [done|].
  set (n := (length p + length q)%nat).
  assert (psum n (coef p) x = value p x /\ psum n (coef q) x = value q x) as [Vp Vq]
    by (split; apply psum_value; lia).
  assert (0 < length q)%nat by (destruct q; [done|cbn; lia]).
  repeat split; f_equal; rewrite <- (psum_value _ x n) by lia;
    match goal with |- reduce m ?a = reduce m ?b => change (ceq m a b) end; rewrite !ceq_reduce.
  - rewrite (psum_ceq m n _ (fun k => 1 * coef p k + 1 * coef q k)) by (intros k; rewrite Cs; apply ceq_eq; ring).
    rewrite psum_linear, Vp, Vq. apply ceq_eq. ring.
  - rewrite (psum_ceq m n _ (fun k => 1 * coef p k + -1 * coef q k)) by (intros k; rewrite Cd; apply ceq_eq; ring).
    rewrite psum_linear, Vp, Vq. apply ceq_eq. ring.
  - rewrite (psum_ceq m n _ (conv p q)) by exact Cr. by rewrite psum_conv by (done || lia).
Qed.

Lemma poly_arithmetic_witness : exists r, Poly_Mul [5; -3] [2; 0; 8] (Some 7) = Ok r /\
  coef r 3 = 4 /\ Poly_Eval r 4 (Some 7) = Ok 0.
Proof.
  assert ([5; -3] <> [] /\ [2; 0; 8] <> []) as [Hp Hq] by (split; intros E; discriminate E).
  destruct (poly_arithmetic (Some 7) [5; -3] [2; 0; 8] ltac:(cbn; lia) Hp Hq) as (s & d & r & _ & _ & Er & _ & _ & _ & _ & Hc & Hv).
  exists r. split; [exact Er|]. split; [destruct (Hc 3%nat) as (_ & _ & E); rewrite E; reflexivity|].
  destruct (Hv 4) as (v & w & Ev & Ew & _ & _ & E). rewrite E.
  vm_compute in Ev, Ew. injection Ev as <-. injection Ew as <-. reflexivity.
Defined.
