(* ===== verification/Common.v ===== *)
(** * Package [common]: integers as bytes, hexadecimal, [Hash]

    [src/common/common.go], [src/common/hash.go] and the constants of
    [src/common/constants.go] they use.  [encoding/hex] and
    [encoding/binary] are the standard library's. *)

From stdpp Require Import base list strings.
From Stdlib Require Import ZArith Lia.
From S2P Require Import Prelude.
Open Scope Z_scope.

Definition HashSize : nat := 32.
Definition MaxHashStringSize : nat := HashSize * 2.
Definition CheckSumLen : nat := 4.
Definition Uint32Size : nat := 4.
Definition MaxShardNumber : Z := 8.

(** ** common.go *)

Fixpoint SliceExists {A} (eqb : A -> A -> bool) (s : list A) (item : A) : bool :=
  match s with
  | [] => false
  | tmpItem :: s' => if eqb tmpItem item then true else SliceExists eqb s' item
  end.

Definition GetShardIDFromLastByte (b : Z) : Z := u8 (Z.rem b MaxShardNumber).

(** [n] is an [int]; [big.Int.Bytes] gives the absolute value. *)
Definition IntToBytes (n : Z) : list Z :=
  if n =? 0 then [0; 0]
  else
    let a := bigint_bytes n in
    if (2 <? length a)%nat then []
    else match a with
         | [x] => [0; x]
         | _ => a
         end.

Definition BytesToInt (bytesArr : list Z) : Z :=
  if negb (length bytesArr =? 2)%nat then 0
  else i64 (bigint_set_bytes bytesArr).

Definition BytesToUint32 (b : list Z) : res Z :=
  if negb (length b =? Uint32Size)%nat
  then Err "invalid length of input BytesToUint32"
  else Ok (of_digits 256 b).

Definition Uint32ToBytes (value : Z) : list Z := be_bytes Uint32Size value.

(** [make] panics on a negative length. *)
Definition AddPaddingBigInt (numInt : Z) (fixedSize : Z) : res (list Z) :=
  let numBytes := bigint_bytes numInt in
  let pad := fixedSize - Z.of_nat (length numBytes) in
  if pad <? 0 then Panic
  else Ok (replicate (Z.to_nat pad) 0 ++ numBytes).

(** *** [encoding/hex] *)

Definition hex_digit (d : Z) : Z := if d <? 10 then 48 + d else 87 + d.

(** [hex.EncodeToString] *)
Fixpoint hex_encode (b : list Z) : list Z :=
  match b with
  | [] => []
  | x :: b' => hex_digit (x / 16) :: hex_digit (x mod 16) :: hex_encode b'
  end.

Definition from_hex_char (c : Z) : option Z :=
  if (48 <=? c) && (c <=? 57) then Some (c - 48)
  else if (97 <=? c) && (c <=? 102) then Some (c - 87)
  else if (65 <=? c) && (c <=? 70) then Some (c - 55)
  else None.

(** [hex.Decode]: the bytes decoded before the error, and whether there was
    one. *)
Fixpoint hex_decode (src : list Z) : list Z * bool :=
  match src with
  | [] => ([], true)
  | [_] => ([], false)
  | p :: q :: src' =>
      match from_hex_char p, from_hex_char q with
      | Some a, Some b =>
          let (l, ok) := hex_decode src' in (Z.lor (Z.shiftl a 4) b :: l, ok)
      | _, _ => ([], false)
      end
  end.

Definition Has0xPrefix (s : list Z) : bool :=
  match s with
  | c0 :: c1 :: _ => (c0 =? 48) && ((c1 =? 120) || (c1 =? 88))
  | _ => false
  end.

(** The error of [hex.DecodeString] is dropped. *)
Definition Hex2Bytes (s : list Z) : list Z := fst (hex_decode s).

Definition FromHex (s : list Z) : list Z :=
  let s := if Has0xPrefix s then drop 2 s else s in
  let s := if Nat.odd (length s) then 48 :: s else s in
  Hex2Bytes s.

(** ** hash.go *)

(** A [Hash] is an array of 32 bytes. *)
Definition hash_ok (h : list Z) : Prop := length h = HashSize /\ bytes_ok h.

Definition zero_hash : list Z := replicate HashSize 0.

Definition Hash_SetBytes (newHash : list Z) : st (list Z) unit :=
  if negb (length newHash =? HashSize)%nat then st_fail "invalid hash size"
  else st_put (fun hashObj => copy_to_array HashSize newHash).

Definition Hash_GetBytes (hashObj : list Z) : list Z :=
  copy_to_array (length hashObj) hashObj.

Definition Hash_NewHash (hashObj newHash : list Z) : res (list Z) :=
  match Hash_SetBytes newHash hashObj with
  | (h, Ok _) => Ok h
  | (_, Err m) => Err m
  | (_, Panic) => Panic
  | (_, OutOfFuel) => OutOfFuel
  end.

(** [h[i], h[j] = h[j], h[i]] *)
Definition swap (i j : nat) (h : list Z) : list Z :=
  match h !! i, h !! j with
  | Some x, Some y => <[i := y]> (<[j := x]> h)
  | _, _ => h
  end.

Definition Hash_String (hashObj : list Z) : list Z :=
  hex_encode (fold_left (fun h i => swap i (HashSize - 1 - i) h)
                        (seq 0 (HashSize / 2)) hashObj).

Definition Hash_MarshalText (hashObj : list Z) : list Z := Hash_String hashObj.

(** The receiver is a value: the copy is into a local array. *)
Definition Hash_UnmarshalText (text : list Z) : st (list Z) unit := st_ret tt.

Definition Hash_IsEqual (hashObj target : option (list Z)) : bool :=
  match hashObj, target with
  | None, None => true
  | Some a, Some b => bool_decide (a = b)
  | _, _ => false
  end.

(** The loop that copies the first half, mirrored, into [dst]. *)
Definition reverse_copy (reversedHash dst : list Z) : list Z :=
  fold_left (fun dst i =>
    match reversedHash !! i, reversedHash !! (HashSize - 1 - i)%nat with
    | Some b, Some b' => <[HashSize - 1 - i := b]> (<[i := b']> dst)
    | _, _ => dst
    end)%nat (seq 0 (HashSize / 2)) dst.

Definition Hash_Decode (src : list Z) : st (list Z) unit := fun dst =>
  if (MaxHashStringSize <? length src)%nat then (dst, Err "invalid max hash size")
  else
    let srcBytes := if Nat.even (length src) then src else 48 :: src in
    let decodedLen := (length srcBytes / 2)%nat in
    let (dec, ok) := hex_decode srcBytes in
    if negb ok then (dst, Err "encoding/hex")
    else
      let reversedHash := copy_to_array HashSize
                            (replicate (HashSize - decodedLen) 0 ++ dec) in
      (reverse_copy reversedHash dst, Ok tt).

Definition Hash_NewHashFromStr (hashObj hash : list Z) : res (list Z) :=
  match Hash_Decode hash hashObj with
  | (h, Ok _) => Ok h
  | (_, Err m) => Err m
  | (_, Panic) => Panic
  | (_, OutOfFuel) => OutOfFuel
  end.

Fixpoint hash_cmp_loop (hashObj target : list Z) : Z :=
  match hashObj, target with
  | x :: h, y :: t => if y <? x then 1 else if x <? y then -1 else hash_cmp_loop h t
  | _, _ => 0
  end.

Definition Hash_Cmp (hashObj target : option (list Z)) : res Z :=
  match hashObj, target with
  | Some h, Some t => Ok (hash_cmp_loop h t)
  | _, _ => Err "input hash is nil"
  end.

Definition PRVCoinID : list Z := copy_to_array HashSize [4].
Definition ConfidentialAssetID : list Z := copy_to_array HashSize [5].
Definition PDEXCoinID : list Z := copy_to_array HashSize [6].

(** ** Lemmas *)

Lemma SliceExists_spec {A} (eqb : A -> A -> bool) s item :
  SliceExists eqb s item = existsb (fun x => eqb x item) s.
Proof. induction s as [|x s IH]; simpl; [done|]. rewrite IH. by destruct (eqb x item). Qed.

(** A big integer that fits, padded, is its big-endian bytes. *)
Lemma AddPaddingBigInt_be n z : 0 <= z < 256 ^ Z.of_nat n -> AddPaddingBigInt z (Z.of_nat n) = Ok (be_bytes n z).
Proof.
  intros Hz. destruct (to_digits_spec 256 ltac:(lia) z ltac:(lia)) as (Hv & Hd & _).
  assert (length (to_digits 256 z) <= n)%nat as Hl by (apply to_digits_length; lia).
  unfold AddPaddingBigInt, bigint_bytes. rewrite Z.abs_eq, (proj2 (Z.ltb_ge _ 0)) by lia. f_equal. symmetry.
  apply (of_digits_inj 256); [lia|apply be_bytes_ok| | |].
  - apply Forall_app. split; [|done]. apply Forall_replicate. unfold is_digit. lia.
  - rewrite length_be_bytes, length_app, length_replicate. lia.
  - rewrite of_digits_be_bytes, of_digits_replicate, Hv. by apply Z.mod_small.
Qed.

Lemma IntToBytes_small n : 0 <= n < 65536 -> IntToBytes n = be_bytes 2 n.
Proof.
  intros Hn. unfold IntToBytes. destruct (Z.eqb_spec n 0) as [->|Hz]; [done|].
  unfold bigint_bytes. rewrite Z.abs_eq by lia.
  destruct (to_digits_spec 256 ltac:(lia) n ltac:(lia)) as (Hv & Hd & Hc).
  pose proof (to_digits_length 256 ltac:(lia) n 2 ltac:(simpl; lia)) as Hlen.
  destruct (Nat.ltb_spec 2 (length (to_digits 256 n))); [lia|].
  set (l := to_digits 256 n) in *. clearbody l.
  destruct l as [|x [|y [|z l]]]; simpl in Hlen; [| | |lia].
  - change (of_digits 256 []) with 0 in Hv. lia.
  - rewrite <- Hv, <- (of_digits_replicate 256 1 [x]). symmetry.
    apply (be_bytes_of_digits [0; x]). constructor; [unfold is_byte; lia|done].
  - rewrite <- Hv. symmetry. by apply (be_bytes_of_digits [x; y]).
Qed.

Lemma hex_digit_inv d : 0 <= d < 16 -> from_hex_char (hex_digit d) = Some d.
Proof.
  intros Hd. unfold hex_digit, from_hex_char.
  destruct (Z.ltb_spec d 10).
  - replace (48 <=? 48 + d) with true by (symmetry; apply Z.leb_le; lia).
    replace (48 + d <=? 57) with true by (symmetry; apply Z.leb_le; lia).
    simpl. f_equal. lia.
  - replace (87 + d <=? 57) with false by (symmetry; apply Z.leb_gt; lia).
    rewrite andb_false_r.
    replace (97 <=? 87 + d) with true by (symmetry; apply Z.leb_le; lia).
    replace (87 + d <=? 102) with true by (symmetry; apply Z.leb_le; lia).
    simpl. f_equal. lia.
Qed.

Lemma nibbles x : is_byte x -> Z.lor (Z.shiftl (x / 16) 4) (x mod 16) = x.
Proof.
  intros Hx. change 16 with (2 ^ 4).
  rewrite <- Z.shiftr_div_pow2, <- Z.land_ones by lia.
  apply Z.bits_inj'. intros k Hk. rewrite Z.lor_spec, Z.land_spec.
  destruct (Z.ltb_spec k 4).
  - rewrite Z.shiftl_spec_low, Z.ones_spec_low by lia. simpl. by rewrite andb_true_r.
  - rewrite Z.shiftl_spec_high, Z.shiftr_spec, Z.ones_spec_high by lia.
    rewrite andb_false_r, orb_false_r. f_equal. lia.
Qed.

Lemma hex_roundtrip b : bytes_ok b -> hex_decode (hex_encode b) = (b, true).
Proof.
  induction 1 as [|x b Hx _ IH]; [done|]. cbn [hex_encode hex_decode].
  unfold is_byte in Hx.
  rewrite hex_digit_inv by (split; [apply Z.div_pos|apply Z.div_lt_upper_bound]; lia).
  rewrite hex_digit_inv by (apply Z.mod_pos_bound; lia).
  rewrite IH. by rewrite nibbles.
Qed.

Lemma length_hex_encode b : length (hex_encode b) = (2 * length b)%nat.
Proof. induction b; simpl; lia. Qed.

(** The loops of [Hash.String] and [Hash.Decode] reverse the array. *)
Lemma swap_loop_rev h : length h = HashSize ->
  fold_left (fun h i => swap i (HashSize - 1 - i) h) (seq 0 (HashSize / 2)) h = reverse h.
Proof.
  intros H. do 32 (destruct h as [|? h]; [discriminate H|]).
  destruct h; [reflexivity|discriminate H].
Qed.

Lemma reverse_copy_rev r dst : length r = HashSize -> length dst = HashSize ->
  reverse_copy r dst = reverse r.
Proof.
  intros H H'. do 32 (destruct r as [|? r]; [discriminate H|]).
  destruct r; [|discriminate H].
  do 32 (destruct dst as [|? dst]; [discriminate H'|]).
  destruct dst; [reflexivity|discriminate H'].
Qed.

Lemma Hash_Decode_String h dst :
  hash_ok h -> length dst = HashSize -> Hash_Decode (Hash_String h) dst = (h, Ok tt).
Proof.
  intros [Hl Hb] Hd. unfold Hash_String, Hash_Decode.
  rewrite swap_loop_rev, length_hex_encode, length_reverse, Hl by done.
  change (MaxHashStringSize <? 2 * HashSize)%nat with false.
  change (Nat.even (2 * HashSize)) with true. cbv iota zeta.
  rewrite hex_roundtrip by (unfold bytes_ok; by rewrite Forall_reverse).
  rewrite length_hex_encode, length_reverse, Hl.
  change (HashSize - 2 * HashSize / 2)%nat with 0%nat. cbn [negb replicate app].
  rewrite copy_to_array_exact by (by rewrite length_reverse).
  by rewrite reverse_copy_rev, reverse_involutive by (rewrite ?length_reverse; done).
Qed.

Lemma hash_cmp_loop_spec h t : length h = length t ->
  hash_cmp_loop h t = 0 <-> h = t.
Proof.
  revert t. induction h as [|x h IH]; intros [|y t] Hl; simpl in *; try lia; [done|].
  destruct (Z.ltb_spec y x); [split; [lia|intros [= -> ->]; lia]|].
  destruct (Z.ltb_spec x y); [split; [lia|intros [= -> ->]; lia]|].
  rewrite IH by lia. split; [intros ->; f_equal; lia|congruence].
Qed.

Lemma hash_cmp_loop_antisym h t : hash_cmp_loop t h = - hash_cmp_loop h t.
Proof.
  revert t. induction h as [|x h IH]; intros [|y t]; simpl; try done.
  destruct (Z.ltb_spec y x), (Z.ltb_spec x y); try lia; auto.
Qed.

(** ** Properties *)

(** [IntToBytes] and [BytesToInt] are inverse to each other between the
    integers of [0, 65536) and the 2-byte strings; above that range (up to
    the largest [int]) [IntToBytes] gives the empty string, which [BytesToInt]
    reads back as 0. *)
Theorem IntToBytes_roundtrip :
  (forall n, 0 <= n < 65536 -> length (IntToBytes n) = 2%nat /\ BytesToInt (IntToBytes n) = n) /\
  (forall b, length b = 2%nat -> bytes_ok b -> IntToBytes (BytesToInt b) = b) /\
  (forall n, 65536 <= n -> IntToBytes n = [] /\ BytesToInt (IntToBytes n) = 0).
Proof.
  assert (forall b, length b = 2%nat -> bytes_ok b ->
            BytesToInt b = of_digits 256 b /\ 0 <= of_digits 256 b < 65536) as Hb.
  { intros b Hl Hb. pose proof (of_digits_bound 256 ltac:(lia) b Hb) as B.
    rewrite Hl in B. split; [|done]. unfold BytesToInt. rewrite Hl. simpl negb. cbv iota.
    unfold i64, bigint_set_bytes. simpl in B. rewrite Z.mod_small; lia. }
  split; [|split].
  - intros n Hn. rewrite IntToBytes_small by done. split; [apply length_be_bytes|].
    destruct (Hb (be_bytes 2 n)) as [-> _]; [apply length_be_bytes|apply be_bytes_ok|].
    rewrite of_digits_be_bytes. by apply Z.mod_small.
  - intros b Hl Hbb. destruct (Hb b Hl Hbb) as [-> Hr].
    rewrite IntToBytes_small by done. rewrite <- Hl. by apply be_bytes_of_digits.
  - intros n Hn. assert (IntToBytes n = []) as ->; [|done].
    unfold IntToBytes. destruct (Z.eqb_spec n 0); [lia|].
    unfold bigint_bytes. rewrite Z.abs_eq by lia.
    destruct (to_digits_spec 256 ltac:(lia) n ltac:(lia)) as (Hv & Hd & _).
    pose proof (of_digits_bound 256 ltac:(lia) _ Hd) as B. rewrite Hv in B.
    destruct (Nat.ltb_spec 2 (length (to_digits 256 n))); [done|].
    assert (256 ^ Z.of_nat (length (to_digits 256 n)) <= 256 ^ 2)
      by (apply Z.pow_le_mono_r; lia). simpl in *. lia.
Qed.

Lemma IntToBytes_roundtrip_witness :
  (length (IntToBytes 300) = 2%nat /\ BytesToInt (IntToBytes 300) = 300) /\
  IntToBytes (BytesToInt [1; 2]) = [1; 2] /\ IntToBytes 70000 = [].
Proof.
  destruct IntToBytes_roundtrip as (H1 & H2 & H3).
  split; [apply H1; lia|]. split.
  - apply H2; [reflexivity|]. repeat constructor; unfold is_byte; lia.
  - apply H3. lia.
Defined.

(** The textual form of a hash: [NewHashFromStr] of [String] gives the hash
    back, whatever the receiver held; [Cmp] is 0 exactly on equal hashes and
    antisymmetric, so that it agrees with [IsEqual]. *)
Theorem Hash_roundtrip h dst t :
  hash_ok h -> length dst = HashSize -> length t = HashSize ->
  Hash_NewHashFromStr dst (Hash_String h) = Ok h /\
  length (Hash_String h) = MaxHashStringSize /\
  (Hash_Cmp (Some h) (Some t) = Ok 0 <-> Hash_IsEqual (Some h) (Some t) = true) /\
  (forall c, Hash_Cmp (Some h) (Some t) = Ok c -> Hash_Cmp (Some t) (Some h) = Ok (- c)).
Proof.
  intros Hh Hd Ht. split; [|split; [|split]].
  - unfold Hash_NewHashFromStr. by rewrite Hash_Decode_String.
  - destruct Hh as [Hl _]. unfold Hash_String.
    rewrite length_hex_encode, swap_loop_rev, length_reverse, Hl by done. done.
  - simpl. rewrite bool_decide_eq_true, <- (hash_cmp_loop_spec h t).
    + split; [by intros [= ->]|by intros ->].
    + destruct Hh as [-> _]. done.
  - simpl. intros c [= <-]. by rewrite hash_cmp_loop_antisym.
Qed.

Lemma Hash_roundtrip_witness :
  Hash_NewHashFromStr zero_hash (Hash_String PDEXCoinID) = Ok PDEXCoinID.
Proof.
  apply (Hash_roundtrip PDEXCoinID zero_hash zero_hash); [|reflexivity|reflexivity].
  split; [reflexivity|]. repeat constructor; unfold is_byte; lia.
Defined.
