(* ===== verification/Hashing.v ===== *)
(** * Package [common]: the hash functions

    [src/common/hashfunc.go] and the Keccak functions of
    [src/common/hash.go].  The digests of [crypto/sha256] and
    [golang.org/x/crypto/sha3] are the parameters of the development: an
    instance of [Digests] gives the functions, [DigestLaws] says that they
    return 32 bytes. *)

From stdpp Require Import base list.
From Stdlib Require Import ZArith Lia.
From S2P Require Import Prelude Common.
Open Scope Z_scope.

Class Digests : Type := {
  sha256_Sum256 : list Z -> list Z;
  sha3_Sum256 : list Z -> list Z;
  sha3_LegacyKeccak256 : list Z -> list Z
}.

Class DigestLaws `{Digests} : Prop := {
  sha256_ok : forall b, hash_ok (sha256_Sum256 b);
  sha3_ok : forall b, hash_ok (sha3_Sum256 b);
  keccak_ok : forall b, hash_ok (sha3_LegacyKeccak256 b)
}.

Section hashes.
Context `{Digests}.

(** [hash[:]] of the array the digest returns. *)
Definition SHA256 (b : list Z) : list Z := sha256_Sum256 b.
Definition HashB (b : list Z) : list Z := sha3_Sum256 b.
Definition HashH (b : list Z) : list Z := sha3_Sum256 b.
Definition Hash4Bls (data : list Z) : list Z := sha3_LegacyKeccak256 data.

(** The chunks are written to the state one after the other. *)
Definition Keccak256Hash (data : list (list Z)) : list Z :=
  sha3_LegacyKeccak256 (fold_left (fun d b => d ++ b) data []).
Definition Keccak256 (data : list (list Z)) : list Z :=
  copy_to_array HashSize (sha3_LegacyKeccak256 (fold_left (fun d b => d ++ b) data [])).

Lemma fold_app_concat (data : list (list Z)) acc :
  fold_left (fun d b => d ++ b) data acc = acc ++ concat data.
Proof using Type.
  revert acc. induction data as [|b data IH]; intros acc; simpl; [by rewrite app_nil_r|].
  by rewrite IH, <- app_assoc.
Qed.

Lemma Keccak256_eq `{!DigestLaws} data :
  Keccak256 data = Keccak256Hash data /\
  Keccak256Hash data = sha3_LegacyKeccak256 (concat data).
Proof using Type.
  unfold Keccak256, Keccak256Hash. rewrite !fold_app_concat. simpl.
  split; [|done]. apply copy_to_array_exact. apply keccak_ok.
Qed.
End hashes.

(** ** Digests for the concrete examples

    A function of the length and of the bytes that tells short messages
    apart; the witnesses evaluate the code with it. *)

Definition toy_digest (tag : Z) (b : list Z) : list Z :=
  be_bytes 32 (fold_left (fun acc x => acc * 257 + x + 1) b tag).

#[local] Instance toy_digests : Digests := {
  sha256_Sum256 := toy_digest 1;
  sha3_Sum256 := toy_digest 2;
  sha3_LegacyKeccak256 := toy_digest 3
}.

Lemma toy_digest_ok tag b : hash_ok (toy_digest tag b).
Proof. split; [apply length_be_bytes|apply be_bytes_ok]. Qed.

#[local] Instance toy_digest_laws : DigestLaws.
Proof. split; intros; apply toy_digest_ok. Qed.
