(* ===== verification/Encoding.v ===== *)
(** * Encoding.v: texts of the standard library

    What the transactions use of [encoding/base64] (the standard encoding, with
    padding) and of [strconv] (decimal numbers). *)

From stdpp Require Import base list strings.
From Stdlib Require Import ZArith Lia.
From S2P Require Import Prelude.
Open Scope Z_scope.

(** ** [base64.StdEncoding] *)

(** The letter of six bits, and back. *)
Definition b64_char (v : Z) : Z :=
  if v <? 26 then 65 + v else if v <? 52 then 71 + v else if v <? 62 then v - 4 else if v =? 62 then 43 else 47.

Definition b64_val (c : Z) : option Z :=
  if (65 <=? c) && (c <=? 90) then Some (c - 65)
  else if (97 <=? c) && (c <=? 122) then Some (c - 71)
  else if (48 <=? c) && (c <=? 57) then Some (c + 4)
  else if c =? 43 then Some 62 else if c =? 47 then Some 63 else None.

Definition pad : Z := 61.

(** [EncodeToString] *)
Fixpoint base64_encode (b : list Z) : list Z :=
  match b with
  | x :: y :: z :: b =>
      b64_char (x / 4) :: b64_char (x mod 4 * 16 + y / 16) :: b64_char (y mod 16 * 4 + z / 64) ::
      b64_char (z mod 64) :: base64_encode b
  | [x; y] => [b64_char (x / 4); b64_char (x mod 4 * 16 + y / 16); b64_char (y mod 16 * 4); pad]
  | [x] => [b64_char (x / 4); b64_char (x mod 4 * 16); pad; pad]
  | [] => []
  end.

(** Groups of four letters; padding ends the text. *)
Fixpoint b64_quanta (l : list Z) : option (list Z) :=
  match l with
  | [] => Some []
  | a :: b :: c :: d :: l =>
      match b64_val a, b64_val b, b64_val c, b64_val d with
      | Some a, Some b, Some c, Some d =>
          match b64_quanta l with
          | Some r => Some (a * 4 + b / 16 :: b mod 16 * 16 + c / 4 :: c mod 4 * 64 + d :: r)
          | None => None
          end
      | Some a, Some b, Some c, None =>
          match l with
          | [] => if d =? pad then Some [a * 4 + b / 16; b mod 16 * 16 + c / 4] else None
          | _ => None
          end
      | Some a, Some b, None, None =>
          match l with
          | [] => if (c =? pad) && (d =? pad) then Some [a * 4 + b / 16] else None
          | _ => None
          end
      | _, _, _, _ => None
      end
  | _ => None
  end.

(** [DecodeString] passes over line ends. *)
Definition base64_decode (s : list Z) : res (list Z) :=
  match b64_quanta (List.filter (fun c => negb ((c =? 10) || (c =? 13))) s) with
  | Some b => Ok b
  | None => Err "illegal base64 data"
  end.

(** ** [strconv] *)

(** [FormatUint(z, 10)] for [z] that is not negative. *)
Definition decimal (z : Z) : list Z :=
  if z =? 0 then [48] else map (fun d => 48 + d) (to_digits 10 z).

(** [Itoa], [FormatInt(z, 10)]. *)
Definition format_int (z : Z) : list Z := if z <? 0 then 45 :: decimal (- z) else decimal z.

(** ** Lemmas *)

(** The three-step induction on bytes. *)
Lemma triples_ind (P : list Z -> Prop) :
  P [] -> (forall x, P [x]) -> (forall x y, P [x; y]) ->
  (forall x y z l, P l -> P (x :: y :: z :: l)) -> forall l, P l.
Proof.
  intros H0 H1 H2 H3. fix IH 1. intros [|x [|y [|z l]]]; [exact H0|apply H1|apply H2|apply H3, IH].
Qed.

Definition is_sextet (v : Z) : Prop := 0 <= v < 64.

Lemma b64_val_char v : is_sextet v -> b64_val (b64_char v) = Some v.
Proof.
  intros Hv. unfold is_sextet in Hv.
  assert (forallb (fun n => bool_decide (b64_val (b64_char (Z.of_nat n)) = Some (Z.of_nat n))) (seq 0 64) = true) as E
    by by vm_compute.
  rewrite forallb_forall in E. specialize (E (Z.to_nat v) ltac:(apply in_seq; lia)).
  rewrite Z2Nat.id in E by lia. by apply bool_decide_eq_true in E.
Qed.

Lemma b64_char_range v : is_sextet v -> 43 <= b64_char v <= 122.
Proof.
  unfold is_sextet, b64_char. intros Hv.
  destruct (Z.ltb_spec v 26), (Z.ltb_spec v 52), (Z.ltb_spec v 62), (Z.eqb_spec v 62); lia.
Qed.

Lemma sextets x y z : is_byte x -> is_byte y -> is_byte z ->
  is_sextet (x / 4) /\ is_sextet (x mod 4 * 16 + y / 16) /\ is_sextet (y mod 16 * 4 + z / 64) /\ is_sextet (z mod 64) /\
  is_sextet (x mod 4 * 16) /\ is_sextet (y mod 16 * 4).
Proof. unfold is_byte, is_sextet. intros Hx Hy Hz. Z.to_euclidean_division_equations; lia. Qed.

Lemma encode_chars b : bytes_ok b -> Forall (fun c => 43 <= c <= 122) (base64_encode b).
Proof.
  assert (43 <= pad <= 122) as Hp by (unfold pad; lia).
  induction b as [|x|x y|x y z b IH] using triples_ind; intros Hb; unfold bytes_ok in Hb; rewrite ?Forall_cons in Hb;
    cbn [base64_encode]; [constructor| | |].
  1: destruct (sextets x 0 0) as (? & ? & ? & ? & ? & ?); [apply Hb|unfold is_byte; lia..|].
  2: destruct (sextets x y 0) as (? & ? & ? & ? & ? & ?); [apply Hb|apply Hb|unfold is_byte; lia|].
  3: destruct (sextets x y z) as (? & ? & ? & ? & ? & ?); [apply Hb|apply Hb|apply Hb|].
  all: repeat (apply Forall_cons; split; [by apply b64_char_range || exact Hp|]).
  1,2: constructor. apply IH, Hb.
Qed.

Lemma quanta_encode b : bytes_ok b -> b64_quanta (base64_encode b) = Some b.
Proof.
  induction b as [|x|x y|x y z b IH] using triples_ind; intros Hb; unfold bytes_ok in Hb; rewrite ?Forall_cons in Hb;
    cbn [base64_encode]; [done| | |].
  - destruct Hb as [Hx _]. destruct (sextets x 0 0) as (S1 & _ & _ & _ & S5 & _); [exact Hx|unfold is_byte; lia..|].
    cbn [b64_quanta]. rewrite !b64_val_char by assumption. cbn.
    do 2 f_equal. unfold is_byte in Hx. Z.to_euclidean_division_equations; lia.
  - destruct Hb as (Hx & Hy & _). destruct (sextets x y 0) as (S1 & S2 & _ & _ & _ & S6); [done|done|unfold is_byte; lia|].
    cbn [b64_quanta]. rewrite !b64_val_char by assumption. cbn [b64_val pad Z.leb Z.eqb]. cbn.
    unfold is_byte in *. f_equal. f_equal; [|f_equal]; Z.to_euclidean_division_equations; lia.
  - destruct Hb as (Hx & Hy & Hz & Hb). destruct (sextets x y z) as (S1 & S2 & S3 & S4 & _ & _); [done..|].
    cbn [b64_quanta]. rewrite !b64_val_char, (IH Hb) by assumption.
    unfold is_byte in *. f_equal. f_equal; [|f_equal; [|f_equal]]; Z.to_euclidean_division_equations; lia.
Qed.

Lemma base64_roundtrip b : bytes_ok b -> base64_decode (base64_encode b) = Ok b.
Proof.
  intros Hb. unfold base64_decode.
  assert (List.filter (fun c => negb ((c =? 10) || (c =? 13))) (base64_encode b) = base64_encode b) as ->.
  { induction (encode_chars b Hb) as [|c l Hc Hl IH]; [done|]. cbn [List.filter].
    rewrite (proj2 (Z.eqb_neq c 10)), (proj2 (Z.eqb_neq c 13)) by lia. cbn [orb negb]. by rewrite IH. }
  by rewrite quanta_encode.
Qed.
