(* ===== verification/Base58.v ===== *)
(** * Package [common/base58]: the base-58 codec

    [src/common/base58/alphabet.go], [base58.go] and [base58util.go].  The
    encoder multiplies a big-endian buffer of base-58 digits by 256 for every
    input byte; the decoder multiplies an array of 32-bit limbs by 58 for every
    input digit.  A Go string is given to the decoder as its runes. *)

From stdpp Require Import base list strings.
From Stdlib Require Import ZArith Lia.
From S2P Require Import Prelude.
Open Scope Z_scope.

(** ** alphabet.go *)

Record Alphabet := mkAlphabet { decode : list Z; encode : list Z }.

(** [ret.decode[b] = int8(i)] for the bytes of the alphabet from index [i] on. *)
Fixpoint fill_decode (dec : list Z) (i : Z) (enc : list Z) : res (list Z) :=
  match enc with
  | [] => Ok dec
  | b :: enc' =>
      if (length dec <=? Z.to_nat b)%nat then Panic
      else fill_decode (<[Z.to_nat b := i]> dec) (i + 1) enc'
  end.

Definition NewAlphabet (s : list Z) : res Alphabet :=
  if negb (length s =? 58)%nat then Panic
  else
    let enc := copy_to_array 58 s in
    let* dec := fill_decode (replicate 128 (-1)) 0 enc in
    Ok (mkAlphabet dec enc).

Definition BTCAlphabet : Alphabet :=
  match NewAlphabet (str "123456789ABCDEFGHJKLMNPQRSTUVWXYZabcdefghijkmnopqrstuvwxyz") with
  | Ok al => al
  | _ => mkAlphabet [] []
  end.

Definition FlickrAlphabet : Alphabet :=
  match NewAlphabet (str "123456789abcdefghijkmnopqrstuvwxyzABCDEFGHJKLMNPQRSTUVWXYZ") with
  | Ok al => al
  | _ => mkAlphabet [] []
  end.

(** ** Encoding *)

(** [for carry = ...; j > high || carry != 0; j--].  The fuel is the number of
    values [j] can take. *)
Fixpoint encode_carry (fuel : nat) (buf : list Z) (j high carry : Z) : res (list Z * Z) :=
  match fuel with
  | O => OutOfFuel
  | S f =>
      if (high <? j) || negb (carry =? 0) then
        if j <? 0 then Panic
        else
          let* d := index buf (Z.to_nat j) in
          let carry := u32 (carry + u32 (256 * d)) in
          encode_carry f (<[Z.to_nat j := u8 (carry mod 58)]> buf) (j - 1) high (carry / 58)
      else Ok (buf, j)
  end.

(** [for i = zCount; i < binSize; i++] *)
Fixpoint encode_bytes (size : nat) (buf : list Z) (high : Z) (bin : list Z) : res (list Z) :=
  match bin with
  | [] => Ok buf
  | b :: bin' =>
      let* (buf, j) := encode_carry (size + 2) buf (Z.of_nat size - 1) high (u32 b) in
      encode_bytes size buf j bin'
  end.

(** [b58[i] = alphabet.encode[buf[j]]] *)
Fixpoint encode_digits (enc : list Z) (ds : list Z) : res (list Z) :=
  match ds with
  | [] => Ok []
  | d :: ds' =>
      let* c := index enc (Z.to_nat d) in
      let* cs := encode_digits enc ds' in
      Ok (c :: cs)
  end.

Definition FastBase58EncodingAlphabet (bin : list Z) (alphabet : Alphabet) : res (list Z) :=
  let* zero := index (encode alphabet) 0 in
  let binSize := length bin in
  let zCount := count_zeros bin in
  let size := ((binSize - zCount) * 138 / 100 + 1)%nat in
  let* buf := encode_bytes size (replicate size 0) (Z.of_nat size - 1) (drop zCount bin) in
  let j := count_zeros buf in
  let* cs := encode_digits (encode alphabet) (drop j buf) in
  Ok (replicate zCount zero ++ cs).

Definition FastBase58Encoding (bin : list Z) : res (list Z) :=
  FastBase58EncodingAlphabet bin BTCAlphabet.

Definition Encode (bin : list Z) : res (list Z) := FastBase58Encoding bin.

(** ** Decoding *)

(** [for j := outISize - 1; j >= 0; j--]: the carry enters at the last limb. *)
Fixpoint decode_limbs (outi : list Z) (c : Z) : list Z * Z :=
  match outi with
  | [] => ([], c)
  | x :: outi' =>
      let (outi', c) := decode_limbs outi' c in
      let t := u64 (x * 58 + c) in
      (u32 (Z.land t 0xffffffff) :: outi', Z.land (u32 (Z.shiftr t 32)) 0x3f)
  end.

(** [for _, r := range b58u] *)
Fixpoint decode_runes (dec : list Z) (zMask : Z) (b58u outi : list Z) : res (list Z) :=
  match b58u with
  | [] => Ok outi
  | r :: b58u' =>
      if 127 <? r then Err "high-bit set on invalid digit"
      else
        let* d := index dec (Z.to_nat r) in
        if d =? -1 then Err "invalid base58 digit"
        else
          let (outi, c) := decode_limbs outi (u32 d) in
          if 0 <? c then Err "output number too big (carry to the next int32)"
          else
            let* x := index outi 0 in
            if negb (Z.land x zMask =? 0)
            then Err "output number too big (last int32 filled too far)"
            else decode_runes dec zMask b58u' outi
  end.

(** [for mask := ...; mask <= 0x18; mask, cnt = mask-8, cnt+1]: [mask] is a
    byte, and the subtraction from 0 wraps. *)
Fixpoint limb_bytes (fuel : nat) (x mask : Z) : list Z :=
  match fuel with
  | O => []
  | S f => if mask <=? 0x18
           then u8 (Z.shiftr x mask) :: limb_bytes f x (u8 (mask - 8))
           else []
  end.

Fixpoint out_bytes (bytesLeft : nat) (outi : list Z) : list Z :=
  match outi with
  | [] => []
  | x :: outi' =>
      limb_bytes 5 x (u8 (u8 (Z.of_nat bytesLeft - 1) * 8)) ++ out_bytes 4 outi'
  end.

Fixpoint count_eq (z : Z) (l : list Z) : nat :=
  match l with
  | [] => 0
  | x :: l' => if x =? z then S (count_eq z l') else 0
  end.

Definition FastBase58DecodingAlphabet (b58u : list Z) (alphabet : Alphabet) : res (list Z) :=
  if (length b58u =? 0)%nat then Err "zero length string"
  else
    let b58sz := length b58u in
    let outISize := ((b58sz + 3) / 4)%nat in
    let bytesLeft := (b58sz mod 4)%nat in
    let* zero := index (encode alphabet) 0 in
    let zMask := if (0 <? bytesLeft)%nat
                 then u32 (Z.shiftl 0xffffffff (Z.of_nat bytesLeft * 8)) else 0 in
    let bytesLeft := if (0 <? bytesLeft)%nat then bytesLeft else 4%nat in
    let zCount := count_eq zero b58u in
    let* outi := decode_runes (decode alphabet) zMask b58u (replicate outISize 0) in
    let written := out_bytes bytesLeft outi in
    let cnt := length written in
    if ((b58sz + 3) * 3 <? cnt)%nat then Panic
    else
      let binU := copy_to_array ((b58sz + 3) * 3) written in
      let n := count_zeros binU in
      if (n <? length binU)%nat
      then slice binU (n - zCount) cnt
      else slice binU 0 cnt.

Definition FastBase58Decoding (s : list Z) : res (list Z) :=
  FastBase58DecodingAlphabet s BTCAlphabet.

Definition Decode (s : list Z) : res (list Z) := FastBase58Decoding s.

(** [Base58{}.Decode]: the error is printed and [nil] returned. *)
Definition Base58_Decode (b : list Z) : res (list Z) :=
  match Decode b with Err _ => Ok [] | r => r end.

Definition Base58_Encode (b : list Z) : res (list Z) := Encode b.

(** ** Well-formed alphabets *)

Definition alphabet_ok (al : Alphabet) : bool :=
  (length (encode al) =? 58)%nat && (length (decode al) =? 128)%nat &&
  forallb (fun c => (0 <=? c) && (c <? 128)) (encode al) &&
  forallb (fun i => match encode al !! i with
                    | Some c => bool_decide (decode al !! Z.to_nat c = Some (Z.of_nat i))
                    | None => false end) (seq 0 58) &&
  forallb (fun r => match decode al !! r with
                    | Some d => (d =? -1) ||
                        bool_decide (0 <= d /\ encode al !! Z.to_nat d = Some (Z.of_nat r))
                    | None => false end) (seq 0 128).

(** The digit of a rune, if it has one. *)
Definition digit_of (al : Alphabet) (r : Z) : option Z :=
  if 127 <? r then None
  else match decode al !! Z.to_nat r with
       | Some d => if d =? -1 then None else Some d
       | None => None
       end.

(** What the two functions compute. *)
Definition encode_spec (al : Alphabet) (bin : list Z) : option (list Z) :=
  mapM (fun d => encode al !! Z.to_nat d)
       (replicate (count_zeros bin) 0 ++ to_digits 58 (of_digits 256 bin)).

Definition decode_spec (ds : list Z) : list Z :=
  replicate (count_zeros ds) 0 ++ to_digits 256 (of_digits 58 ds).

(** ** The encoder *)

Lemma pow_size m : 256 ^ Z.of_nat m <= 58 ^ Z.of_nat (m * 138 / 100 + 1).
Proof.
  set (s := (m * 138 / 100 + 1)%nat).
  assert (138 * Z.of_nat m <= 100 * Z.of_nat s).
  { pose proof (Nat.div_mod (m * 138) 100 ltac:(lia)).
    pose proof (Nat.mod_upper_bound (m * 138) 100 ltac:(lia)). lia. }
  destruct (Z.le_gt_cases (256 ^ Z.of_nat m) (58 ^ Z.of_nat s)) as [|Hgt]; [done|exfalso].
  assert ((58 ^ Z.of_nat s) ^ 100 < (256 ^ Z.of_nat m) ^ 100)
    by (apply Z.pow_lt_mono_l; [lia|split; [apply Z.pow_nonneg|]; lia]).
  assert ((256 ^ Z.of_nat m) ^ 100 <= (58 ^ Z.of_nat s) ^ 100); [|lia].
  rewrite <- !Z.pow_mul_r by lia.
  transitivity (58 ^ (138 * Z.of_nat m)).
  - rewrite Z.mul_comm, !Z.pow_mul_r by lia.
    apply Z.pow_le_mono_l. split; [apply Z.pow_nonneg; lia|].
    apply Z.leb_le. by vm_compute.
  - apply Z.pow_le_mono_r; lia.
Qed.

Lemma carry_step c d :
  0 <= c < 256 -> is_digit 58 d ->
  u32 (c + u32 (256 * d)) = c + 256 * d /\
  0 <= (c + 256 * d) / 58 < 256 /\
  u8 ((c + 256 * d) mod 58) = (c + 256 * d) mod 58 /\
  is_digit 58 ((c + 256 * d) mod 58).
Proof.
  unfold u32, u8, is_digit. intros Hc Hd.
  pose proof (Z.mod_pos_bound (c + 256 * d) 58 ltac:(lia)).
  rewrite (Z.mod_small (256 * d)), (Z.mod_small (c + _)), (Z.mod_small (_ mod 58)) by lia.
  repeat split; try lia.
  - apply Z.div_pos; lia.
  - apply Z.div_lt_upper_bound; lia.
Qed.

(** The carry loop: with [pre ++ suf] in the buffer and [j] at the end of
    [pre], what is still to be added is [58^|suf|] times [256 pre + carry]. *)
Lemma encode_carry_ok fuel : forall pre suf high carry,
  Forall (is_digit 58) pre -> Forall (is_digit 58) suf ->
  0 <= carry < 256 -> -1 <= high ->
  (forall i d, Z.of_nat i <= high -> pre !! i = Some d -> d = 0) ->
  (length pre < fuel)%nat ->
  of_digits 58 suf + 58 ^ Z.of_nat (length suf) * (256 * of_digits 58 pre + carry)
    < 58 ^ Z.of_nat (length pre + length suf) ->
  exists buf j,
    encode_carry fuel (pre ++ suf) (Z.of_nat (length pre) - 1) high carry = Ok (buf, j) /\
    length buf = (length pre + length suf)%nat /\ Forall (is_digit 58) buf /\
    of_digits 58 buf =
      of_digits 58 suf + 58 ^ Z.of_nat (length suf) * (256 * of_digits 58 pre + carry) /\
    -1 <= j /\ (forall i d, Z.of_nat i <= j -> buf !! i = Some d -> d = 0).
Proof.
  induction fuel as [|fuel IH]; intros pre suf high carry Hpre Hsuf Hc Hh Hz Hf Hlt; [lia|].
  cbn [encode_carry].
  destruct (Z.ltb_spec high (Z.of_nat (length pre) - 1)) as [Hj|Hj];
    [|destruct (Z.eqb_spec carry 0) as [->|Hc0]]; cbn [orb negb].
  2: { assert (pre = replicate (length pre) 0) as Hp0.
       { symmetry. apply replicate_as_elem_of. split; [done|].
         intros x Hx. apply list_elem_of_lookup_1 in Hx as [i Hi].
         pose proof (lookup_lt_Some _ _ _ Hi). apply (Hz i); [lia|done]. }
       assert (of_digits 58 pre = 0) as Hv0.
       { rewrite Hp0, <- (app_nil_r (replicate _ _)). by rewrite of_digits_replicate. }
       eexists _, _. split; [done|]. rewrite length_app, of_digits_app, Hv0.
       split; [done|]. split; [by apply Forall_app|]. split; [lia|]. split; [lia|].
       intros i d Hi Hl. apply (Hz i d); [lia|].
       rewrite lookup_app_l in Hl; [done|lia]. }
  all: destruct pre as [|d pre _] using rev_ind.
  1: simpl in Hj; lia.
  2: { exfalso. simpl in Hlt. change (of_digits 58 []) with 0 in Hlt.
       pose proof (of_digits_bound 58 ltac:(lia) suf Hsuf). nia. }
  all: rewrite length_app; simpl length; apply Forall_snoc in Hpre as [Hpre Hd].
  all: replace (Z.of_nat (length pre + 1) - 1) with (Z.of_nat (length pre)) by lia.
  all: destruct (Z.ltb_spec (Z.of_nat (length pre)) 0); [lia|].
  all: rewrite Nat2Z.id, <- app_assoc; cbn [app].
  all: rewrite (index_middle pre suf d) by done; cbn [res_bind].
  all: destruct (carry_step carry d Hc Hd) as (-> & Hc' & -> & Hd').
  all: rewrite insert_app_r_alt by lia; rewrite Nat.sub_diag; cbn [list_insert insert].
  all: set (t := carry + 256 * d) in *.
  all: pose proof (Z.div_mod t 58 ltac:(lia)).
  all: destruct (IH pre (t mod 58 :: suf) high (t / 58)) as (buf & j & E & Hl & Hb & Hv & H1 & H2);
    [done|by constructor|done|done| | | |].
  all: rewrite ?of_digits_cons, ?of_digits_snoc in *; rewrite ?length_app in *;
    simpl length in *; try lia.
  1, 4: intros i d' Hi Hl; apply (Hz i d' Hi); by apply lookup_app_l_Some.
  all: try replace (Z.of_nat (length pre + 1 + length suf)) with
         (Z.of_nat (length pre + S (length suf))) in Hlt by lia.
  all: rewrite Nat2Z.inj_succ, Z.pow_succ_r in * by lia.
  1, 3: eapply Z.le_lt_trans; [|exact Hlt]; nia.
  all: exists buf, j; split; [exact E|]; split; [lia|]; split; [done|];
    split; [rewrite Hv; nia|done].
Qed.

Lemma encode_bytes_ok size bin : forall buf high,
  bytes_ok bin -> length buf = size -> Forall (is_digit 58) buf -> -1 <= high ->
  (forall i d, Z.of_nat i <= high -> buf !! i = Some d -> d = 0) ->
  of_digits 58 buf * 256 ^ Z.of_nat (length bin) + of_digits 256 bin < 58 ^ Z.of_nat size ->
  exists buf', encode_bytes size buf high bin = Ok buf' /\
    length buf' = size /\ Forall (is_digit 58) buf' /\
    of_digits 58 buf' = of_digits 58 buf * 256 ^ Z.of_nat (length bin) + of_digits 256 bin.
Proof.
  induction bin as [|b bin IH]; intros buf high Hbin Hl Hd Hh Hz Hlt.
  - exists buf. simpl. change (of_digits 256 []) with 0. repeat split; auto; lia.
  - apply Forall_cons in Hbin as [Hb Hbin]. cbn [encode_bytes].
    unfold is_byte in Hb. unfold u32. rewrite Z.mod_small by lia.
    pose proof (of_digits_bound 256 ltac:(lia) bin Hbin) as Hbb.
    rewrite of_digits_cons in *. simpl length in *.
    rewrite Nat2Z.inj_succ, Z.pow_succ_r in * by lia.
    destruct (encode_carry_ok (size + 2) buf [] high b) as (buf1 & j & E & H1 & H2 & H3 & H4 & H5);
      auto; [lia| |].
    { simpl. change (of_digits 58 []) with 0. rewrite Nat.add_0_r, Hl. nia. }
    rewrite app_nil_r, Hl in E. rewrite E. cbn [res_bind].
    simpl in H1, H3. change (of_digits 58 []) with 0 in H3.
    destruct (IH buf1 j) as (buf2 & E2 & ? & ? & HV); auto; try lia.
    exists buf2. repeat split; auto. rewrite HV, H3. simpl Z.of_nat. rewrite Z.pow_0_r. ring.
Qed.

Lemma encode_digits_spec enc ds :
  (forall d, In d ds -> (Z.to_nat d < length enc)%nat) ->
  exists cs, encode_digits enc ds = Ok cs /\
    mapM (fun d => enc !! Z.to_nat d) ds = Some cs.
Proof.
  induction ds as [|d ds IH]; intros H; [by exists []|].
  destruct IH as (cs & E1 & E2); [intros; apply H; by right|].
  destruct (index_safe enc (Z.to_nat d)) as (c & E & L); [apply H; by left|].
  exists (c :: cs). cbn [encode_digits mapM]. rewrite E, E1, L. simpl. by rewrite E2.
Qed.

Lemma mapM_replicate (enc : list Z) n x cs ds : enc !! 0%nat = Some x ->
  mapM (fun d => enc !! Z.to_nat d) ds = Some cs ->
  mapM (fun d => enc !! Z.to_nat d) (replicate n 0 ++ ds) = Some (replicate n x ++ cs).
Proof.
  intros Hx Hm. induction n; cbn [replicate app mapM]; [done|].
  change (Z.to_nat 0) with 0%nat. rewrite Hx. cbn. by rewrite IHn.
Qed.

Lemma strip_zeros_drop l : drop (count_zeros l) l = strip_zeros l.
Proof.
  rewrite <- (zeros_split l) at 2.
  by rewrite drop_app_length' by (by rewrite length_replicate).
Qed.

(** The encoder is the positional notation of its input, with a zero digit for
    every leading zero byte. *)
Lemma encode_correct al bin : length (encode al) = 58%nat -> bytes_ok bin ->
  exists s, FastBase58EncodingAlphabet bin al = Ok s /\ encode_spec al bin = Some s.
Proof.
  intros Hal Hbin. unfold FastBase58EncodingAlphabet, encode_spec.
  destruct (index_safe (encode al) 0) as (z & E & L); [lia|]. rewrite E. cbn [res_bind].
  set (m := (length bin - count_zeros bin)%nat).
  set (size := (m * 138 / 100 + 1)%nat).
  rewrite strip_zeros_drop.
  assert (length (strip_zeros bin) = m) as Hm.
  { rewrite <- strip_zeros_drop, length_drop. done. }
  pose proof (Forall_strip_zeros _ _ Hbin) as Hsb.
  pose proof (of_digits_bound 256 ltac:(lia) _ Hsb) as Hbound. rewrite Hm in Hbound.
  assert (of_digits 58 (replicate size 0) = 0) as H0.
  { rewrite <- (app_nil_r (replicate _ _)). by rewrite of_digits_replicate. }
  destruct (encode_bytes_ok size (strip_zeros bin) (replicate size 0) (Z.of_nat size - 1))
    as (buf & E1 & Hl & Hd & Hv); auto.
  { by rewrite length_replicate. }
  { apply Forall_replicate. unfold is_digit. lia. }
  { lia. }
  { intros i d _ Hi. by apply lookup_replicate in Hi as [? _]. }
  { rewrite H0. pose proof (pow_size m). unfold size. lia. }
  rewrite E1. cbn [res_bind]. rewrite strip_zeros_drop.
  rewrite H0, Z.mul_0_l, Z.add_0_l, of_digits_strip in Hv.
  rewrite <- Hv, to_digits_of_digits by (try lia; done).
  destruct (encode_digits_spec (encode al) (strip_zeros buf)) as (cs & E2 & M2).
  { intros d Hd'. apply Forall_strip_zeros in Hd. rewrite List.Forall_forall in Hd.
    specialize (Hd d Hd'). unfold is_digit in Hd. lia. }
  rewrite E2. cbn [res_bind]. eexists. split; [done|]. by apply mapM_replicate.
Qed.

(** ** The decoder *)

Definition limb : Z := 2 ^ 32.

Lemma land_low_high x n k : 0 <= x < 2 ^ n -> 0 <= n -> Z.land x (u32 (Z.shiftl k n)) = 0.
Proof.
  intros Hx Hn. apply Z.bits_inj'. intros i Hi.
  rewrite Z.land_spec, Z.bits_0. unfold u32.
  destruct (Z.ltb_spec i n).
  - destruct (Z.ltb_spec i 32).
    + rewrite Z.mod_pow2_bits_low, Z.shiftl_spec_low by lia. apply andb_false_r.
    + rewrite Z.mod_pow2_bits_high by lia. apply andb_false_r.
  - destruct (Z.eq_dec x 0) as [->|]; [by rewrite Z.bits_0|].
    rewrite Z.bits_above_log2; [done|lia|].
    apply Z.log2_lt_pow2; [lia|]. apply Z.lt_le_trans with (2 ^ n); [lia|].
    apply Z.pow_le_mono_r; lia.
Qed.

Lemma decode_limbs_ok outi : forall c, Forall (is_digit limb) outi -> 0 <= c < 64 ->
  exists outi' c', decode_limbs outi c = (outi', c') /\ length outi' = length outi /\
    Forall (is_digit limb) outi' /\ 0 <= c' < 64 /\
    c' * limb ^ Z.of_nat (length outi) + of_digits limb outi' = of_digits limb outi * 58 + c.
Proof.
  induction outi as [|x outi IH]; intros c Ho Hc.
  - exists [], c. cbn. change (of_digits limb []) with 0. repeat split; auto; lia.
  - apply Forall_cons in Ho as [Hx Ho].
    destruct (IH c Ho Hc) as (o1 & c1 & E & Hl & Ho1 & Hc1 & Hv). cbn [decode_limbs].
    rewrite E. unfold is_digit, limb in Hx, Hc1.
    unfold u64. rewrite (Z.mod_small (x * 58 + c1)) by lia. set (t := x * 58 + c1) in *.
    assert (0 <= t < 58 * 2 ^ 32 + 6) by lia.
    assert (u32 (Z.land t 0xffffffff) = t mod limb) as ->.
    { change 0xffffffff with (Z.ones 32). rewrite Z.land_ones by lia. unfold u32, limb.
      by rewrite Z.mod_mod. }
    assert (Z.land (u32 (Z.shiftr t 32)) 0x3f = t / limb /\ 0 <= t / limb < 64) as [-> Hq].
    { rewrite Z.shiftr_div_pow2 by lia. fold limb.
      assert (0 <= t / limb < 64).
      { unfold limb. split; [apply Z.div_pos; lia|apply Z.div_lt_upper_bound; lia]. }
      unfold u32. rewrite (Z.mod_small (t / limb)) by lia.
      change 0x3f with (Z.ones 6). rewrite Z.land_ones, Z.mod_small by lia. done. }
    exists (t mod limb :: o1), (t / limb). split; [done|]. simpl length.
    split; [lia|]. split; [constructor; [|done]; apply Z.mod_pos_bound; unfold limb; lia|].
    split; [done|]. rewrite !of_digits_cons, Hl, Nat2Z.inj_succ, Z.pow_succ_r by lia.
    pose proof (Z.div_mod t limb ltac:(unfold limb; lia)) as Hdm. unfold t in Hdm at 1.
    set (P := limb ^ Z.of_nat (length outi)) in *. nia.
Qed.

Section decoder.
Context (al : Alphabet) (Hal : alphabet_ok al = true).

Lemma alphabet_ok_inv :
  length (encode al) = 58%nat /\ length (decode al) = 128%nat /\
  (forall c, In c (encode al) -> 0 <= c < 128) /\
  (forall i, (i < 58)%nat -> exists c, encode al !! i = Some c /\
     decode al !! Z.to_nat c = Some (Z.of_nat i)) /\
  (forall r, (r < 128)%nat -> exists d, decode al !! r = Some d /\
     (d <> -1 -> 0 <= d /\ encode al !! Z.to_nat d = Some (Z.of_nat r))).
Proof using Hal.
  unfold alphabet_ok in Hal.
  apply andb_prop in Hal as [H H5]. apply andb_prop in H as [H H4].
  apply andb_prop in H as [H H3]. apply andb_prop in H as [H1 H2]. to_prop.
  split; [done|]. split; [done|]. split; [|split].
  - intros c Hc. rewrite forallb_forall in H3. specialize (H3 c Hc). to_prop. lia.
  - intros i Hi. rewrite forallb_forall in H4.
    specialize (H4 i ltac:(apply in_seq; lia)).
    destruct (encode al !! i) as [c|]; [|done]. exists c.
    by apply bool_decide_eq_true in H4.
  - intros r Hr. rewrite forallb_forall in H5.
    specialize (H5 r ltac:(apply in_seq; lia)).
    destruct (decode al !! r) as [d|]; [|done]. exists d. split; [done|].
    intros Hd. destruct (Z.eqb_spec d (-1)); [done|].
    by apply bool_decide_eq_true in H5.
Qed.

Lemma alphabet_encode d : 0 <= d < 58 ->
  exists c, encode al !! Z.to_nat d = Some c /\ digit_of al c = Some d /\ 0 <= c < 128.
Proof using Hal.
  intros Hd. destruct alphabet_ok_inv as (_ & _ & Hc & He & _).
  destruct (He (Z.to_nat d)) as (c & E & D); [lia|].
  specialize (Hc c ltac:(apply list_elem_of_In; by eapply list_elem_of_lookup_2)).
  exists c. split; [done|]. split; [|lia].
  unfold digit_of. destruct (Z.ltb_spec 127 c); [lia|]. rewrite D.
  rewrite Z2Nat.id by lia. by destruct (Z.eqb_spec d (-1)); [lia|].
Qed.

Lemma digit_of_encode r d : 0 <= r -> digit_of al r = Some d ->
  0 <= d < 58 /\ encode al !! Z.to_nat d = Some r.
Proof using Hal.
  intros Hr Hd. destruct alphabet_ok_inv as (Hl & _ & _ & _ & Hdec).
  unfold digit_of in Hd. destruct (Z.ltb_spec 127 r); [done|].
  destruct (Hdec (Z.to_nat r)) as (d' & E & D); [lia|]. rewrite E in Hd.
  destruct (Z.eqb_spec d' (-1)); [done|]. injection Hd as ->.
  destruct (D n) as [H0 Hi]. rewrite Z2Nat.id in Hi by lia.
  split; [|done]. apply lookup_lt_Some in Hi. lia.
Qed.

Lemma rune_ok r d : 0 <= r -> digit_of al r = Some d ->
  (127 <? r) = false /\ index (decode al) (Z.to_nat r) = Ok d /\ (d =? -1) = false.
Proof using Type.
  unfold digit_of, index. intros Hr H. destruct (127 <? r); [done|].
  destruct (decode al !! Z.to_nat r) as [d'|]; [|done].
  destruct (d' =? -1) eqn:E; [done|]. by injection H as ->.
Qed.

Lemma rune_err zMask r rest outi : 0 <= r -> digit_of al r = None ->
  exists m, decode_runes (decode al) zMask (r :: rest) outi = Err m.
Proof using Hal.
  unfold digit_of. intros Hr H. cbn [decode_runes].
  destruct (127 <? r) eqn:E; [by eexists|]. to_prop.
  destruct alphabet_ok_inv as (_ & Hl & _).
  destruct (index_safe (decode al) (Z.to_nat r)) as (d & -> & L); [lia|].
  rewrite L in H. cbn [res_bind]. destruct (d =? -1); [by eexists|done].
Qed.

Lemma decode_runes_ok zMask n k b58u : forall outi,
  (1 <= n)%nat -> (1 <= k <= 4)%nat ->
  zMask = (if (k <? 4)%nat then u32 (Z.shiftl 0xffffffff (Z.of_nat k * 8)) else 0) ->
  Forall (fun r => 0 <= r) b58u ->
  length outi = n -> Forall (is_digit limb) outi ->
  (of_digits limb outi + 1) * 58 ^ Z.of_nat (length b58u) <= 256 ^ Z.of_nat (4 * (n - 1) + k) ->
  match mapM (digit_of al) b58u with
  | Some ds => exists outi', decode_runes (decode al) zMask b58u outi = Ok outi' /\
      length outi' = n /\ Forall (is_digit limb) outi' /\
      of_digits limb outi' = of_digits limb outi * 58 ^ Z.of_nat (length b58u) + of_digits 58 ds
  | None => exists m, decode_runes (decode al) zMask b58u outi = Err m
  end.
Proof using Hal.
  induction b58u as [|r b58u IH]; intros outi Hn Hk Hm Hr Hl Ho Hlt.
  - cbn [mapM]. exists outi. simpl. change (of_digits 58 []) with 0. repeat split; auto; lia.
  - apply Forall_cons in Hr as [Hr0 Hr]. cbn [mapM].
    destruct (digit_of al r) as [d|] eqn:Ed; cbn [mbind option_bind].
    2: by apply rune_err.
    destruct (digit_of_encode r d Hr0 Ed) as [Hd _].
    destruct (rune_ok r d Hr0 Ed) as (R1 & R2 & R3).
    cbn [decode_runes]. rewrite R1, R2. cbn [res_bind]. rewrite R3.
    replace (u32 d) with d by (unfold u32; by rewrite Z.mod_small by lia).
    destruct (decode_limbs_ok outi d Ho ltac:(lia)) as (o1 & c1 & E1 & Hl1 & Ho1 & Hc1 & Hv1).
    rewrite E1. pose proof (of_digits_bound limb ltac:(unfold limb; lia) o1 Ho1) as B1.
    pose proof (of_digits_bound limb ltac:(unfold limb; lia) outi Ho) as B0.
    simpl length in Hlt. rewrite Nat2Z.inj_succ, Z.pow_succ_r in Hlt by lia.
    assert (0 < 58 ^ Z.of_nat (length b58u)) as Hp by (apply Z.pow_pos_nonneg; lia).
    assert ((of_digits limb outi * 58 + d + 1) * 58 ^ Z.of_nat (length b58u)
              <= 256 ^ Z.of_nat (4 * (n - 1) + k)) as Hlt1 by nia.
    assert (limb ^ Z.of_nat n = limb * limb ^ Z.of_nat (n - 1)) as Hln.
    { rewrite <- Z.pow_succ_r by lia. f_equal. lia. }
    assert (256 ^ Z.of_nat (4 * (n - 1) + k) = 256 ^ Z.of_nat k * limb ^ Z.of_nat (n - 1)) as Hpk.
    { change limb with (256 ^ 4). rewrite <- Z.pow_mul_r, <- Z.pow_add_r by lia. f_equal. lia. }
    assert (256 ^ Z.of_nat k <= limb) as Hkl.
    { change limb with (256 ^ 4). apply Z.pow_le_mono_r; lia. }
    assert (0 < limb ^ Z.of_nat (n - 1)) as Hp1
      by (apply Z.pow_pos_nonneg; unfold limb; lia).
    assert (of_digits limb outi * 58 + d + 1 <= 256 ^ Z.of_nat k * limb ^ Z.of_nat (n - 1)) as Hb.
    { rewrite <- Hpk. etransitivity; [|exact Hlt1]. apply Z.le_mul_diag_r; lia. }
    assert (of_digits limb outi * 58 + d < limb ^ Z.of_nat n) as Hfit.
    { pose proof (Z.mul_le_mono_nonneg_r _ _ (limb ^ Z.of_nat (n - 1)) ltac:(lia) Hkl). lia. }
    assert (c1 = 0) as ->.
    { clear Hlt Hlt1 Hpk Hln Hb IH.
      rewrite Hl in Hv1. destruct (Z.eq_dec c1 0) as [|Hne]; [done|].
      pose proof (Z.mul_le_mono_nonneg_r 1 c1 (limb ^ Z.of_nat n) ltac:(lia) ltac:(lia)). lia. }
    cbn [Z.ltb Z.compare]. rewrite Z.mul_0_l, Z.add_0_l in Hv1.
    destruct o1 as [|x o1]; [simpl in Hl1; lia|]. cbn [index lookup list_lookup res_bind].
    assert (Z.land x zMask = 0) as Hmask.
    { subst zMask. destruct (Nat.ltb_spec k 4); [|apply Z.land_0_r].
      apply land_low_high; [|lia]. apply Forall_cons in Ho1 as [Hx Ho1].
      unfold is_digit in Hx. split; [lia|].
      replace (2 ^ (Z.of_nat k * 8)) with (256 ^ Z.of_nat k)
        by (change 256 with (2 ^ 8); rewrite <- Z.pow_mul_r by lia; f_equal; lia).
      rewrite of_digits_cons in Hv1. simpl in Hl1.
      replace (length o1) with (n - 1)%nat in Hv1 by lia.
      pose proof (of_digits_bound limb ltac:(unfold limb; lia) o1 Ho1).
      destruct (Z.lt_ge_cases x (256 ^ Z.of_nat k)) as [|Hge]; [done|].
      pose proof (Z.mul_le_mono_nonneg_r _ _ (limb ^ Z.of_nat (n - 1)) ltac:(lia) Hge). lia. }
    unfold index. cbn [lookup list_lookup res_bind].
    rewrite Hmask. cbn [Z.eqb negb].
    specialize (IH (x :: o1) Hn Hk Hm Hr ltac:(lia) Ho1).
    rewrite Hv1 in IH. specialize (IH Hlt1).
    destruct (mapM (digit_of al) b58u) as [ds|] eqn:Em; cbn [mbind option_bind]; [|done].
    destruct IH as (o2 & E2 & Hl2 & Ho2 & Hv2). exists o2.
    split; [done|]. split; [done|]. split; [done|].
    rewrite Hv2, of_digits_cons. apply length_mapM in Em. rewrite <- Em.
    simpl length. rewrite Nat2Z.inj_succ, Z.pow_succ_r by lia. ring.
Qed.
End decoder.

Lemma limb_bytes_ok k x : (1 <= k <= 4)%nat -> 0 <= x ->
  limb_bytes 5 x (u8 (u8 (Z.of_nat k - 1) * 8)) = be_bytes k x.
Proof.
  intros Hk Hx. assert (k = 1 \/ k = 2 \/ k = 3 \/ k = 4)%nat as Hc by lia.
  assert (forall n, 0 <= n -> u8 (Z.shiftr x (8 * n)) = (x / 256 ^ n) mod 256) as Hs.
  { intros n Hn. unfold u8. rewrite Z.shiftr_div_pow2 by lia.
    change 256 with (2 ^ 8). by rewrite <- Z.pow_mul_r by lia. }
  pose proof (Hs 0 ltac:(lia)) as H0. pose proof (Hs 1 ltac:(lia)) as H1.
  pose proof (Hs 2 ltac:(lia)) as H2. pose proof (Hs 3 ltac:(lia)) as H3.
  change (256 ^ 0) with 1 in H0. change (256 ^ 1) with 256 in H1. rewrite Z.div_1_r in H0.
  change (256 ^ 2) with (256 * 256) in H2. change (256 ^ 3) with (256 * (256 * 256)) in H3.
  rewrite <- Z.div_div in H2 by lia. rewrite <- !Z.div_div in H3 by lia.
    destruct Hc as [-> | [-> | [-> | ->]]]; simpl;
    rewrite <- ?H3, <- ?H2, <- ?H1, <- ?H0; reflexivity.
Qed.

Lemma out_bytes_rest xs : Forall (is_digit limb) xs ->
  length (out_bytes 4 xs) = (4 * length xs)%nat /\ bytes_ok (out_bytes 4 xs) /\
  of_digits 256 (out_bytes 4 xs) = of_digits limb xs.
Proof.
  induction 1 as [|x xs Hx Hxs IH]; [repeat split; constructor|].
  destruct IH as (Hl & Hb & Hv). cbn [out_bytes]. unfold is_digit in Hx.
  rewrite limb_bytes_ok by lia.
  rewrite length_app, length_be_bytes, Hl. simpl length. split; [lia|].
  split; [apply Forall_app; split; [apply be_bytes_ok|done]|].
  rewrite of_digits_app, of_digits_cons, of_digits_be_bytes, Hv, Hl.
  change (256 ^ Z.of_nat 4) with limb. rewrite Z.mod_small by done.
  rewrite Nat2Z.inj_mul, Z.pow_mul_r by lia. done.
Qed.

Lemma out_bytes_ok k x xs : (1 <= k <= 4)%nat -> Forall (is_digit limb) (x :: xs) ->
  x < 256 ^ Z.of_nat k ->
  out_bytes k (x :: xs) = be_bytes (k + 4 * length xs) (of_digits limb (x :: xs)).
Proof.
  intros Hk H Hx. apply Forall_cons in H as [Hx0 H]. unfold is_digit in Hx0.
  destruct (out_bytes_rest xs H) as (Hl & Hb & Hv).
  cbn [out_bytes]. rewrite limb_bytes_ok by lia.
  apply (of_digits_inj 256); [lia| | | |].
  - apply Forall_app. split; [apply be_bytes_ok|done].
  - apply be_bytes_ok.
  - rewrite length_app, !length_be_bytes, Hl. lia.
  - rewrite of_digits_app, !of_digits_be_bytes, Hv, Hl, of_digits_cons, Z.mod_small by lia.
    rewrite Nat2Z.inj_mul, Z.pow_mul_r by lia. change (256 ^ Z.of_nat 4) with limb.
    pose proof (of_digits_bound limb ltac:(unfold limb; lia) xs H).
    symmetry. apply Z.mod_small.
    rewrite Nat2Z.inj_add, Nat2Z.inj_mul, Z.pow_add_r, (Z.pow_mul_r 256 (Z.of_nat 4)) by lia.
    change (256 ^ Z.of_nat 4) with limb. nia.
Qed.

(** Cutting the result out of the zeroed buffer. *)
Lemma cut_result w pad zc : (zc <= count_zeros w)%nat ->
  strip_zeros w = [] \/ (count_zeros w < length w)%nat ->
  let binU := copy_to_array (length w + pad) w in
  (if (count_zeros binU <? length binU)%nat
   then slice binU (count_zeros binU - zc) (length w)
   else slice binU 0 (length w)) =
  Ok (replicate (if decide (strip_zeros w = []) then length w else zc) 0 ++ strip_zeros w).
Proof.
  intros Hz Hne. cbv zeta.
  assert (copy_to_array (length w + pad) w = w ++ replicate pad 0) as ->.
  { unfold copy_to_array. rewrite take_ge by lia. do 2 f_equal. lia. }
  pose proof (zeros_split w) as Hw.
  destruct (decide (strip_zeros w = [])) as [E|E].
  - rewrite E, app_nil_r in Hw. rewrite E, app_nil_r.
    assert (length w = count_zeros w) as Hl by (rewrite <- Hw at 1; apply length_replicate).
    assert (count_zeros (w ++ replicate pad 0) = length (w ++ replicate pad 0)) as ->.
    { rewrite <- Hw at 1. rewrite count_zeros_replicate, length_app, length_replicate, Hl.
      rewrite <- (app_nil_r (replicate pad 0)), count_zeros_replicate. simpl. lia. }
    rewrite Nat.ltb_irrefl. rewrite slice_ok by (rewrite ?length_app; lia).
    rewrite drop_0, Nat.sub_0_r, take_app_length. f_equal. by rewrite <- Hw, Hl at 1.
  - destruct Hne as [|Hlt]; [done|].
    assert (count_zeros (w ++ replicate pad 0) = count_zeros w) as ->.
    { rewrite <- Hw at 1. rewrite <- app_assoc, count_zeros_replicate.
      destruct (strip_zeros_head w) as [|(x & l & -> & Hx)]; [done|]. simpl.
      destruct (Z.eqb_spec x 0); [done|lia]. }
    rewrite length_app.
    replace (count_zeros w <? _)%nat with true by (symmetry; apply Nat.ltb_lt; lia).
    rewrite slice_ok by (rewrite ?length_app; lia).
    rewrite drop_app_le by lia.
    rewrite take_app_le by (rewrite length_drop; lia).
    rewrite take_ge by (rewrite length_drop; lia). f_equal.
    rewrite <- Hw at 2. rewrite drop_app_le by (rewrite length_replicate; lia).
    rewrite drop_replicate. do 2 f_equal. lia.
Qed.

Lemma count_eq_zeros al s ds : alphabet_ok al = true ->
  Forall (fun r => 0 <= r) s -> mapM (digit_of al) s = Some ds ->
  forall z, encode al !! 0%nat = Some z -> count_eq z s = count_zeros ds.
Proof.
  intros Hal Hs. revert ds. induction Hs as [|r s Hr Hs IH]; intros ds Hm z Hz.
  - by injection Hm as <-.
  - cbn [mapM] in Hm. destruct (digit_of al r) as [d|] eqn:Ed; [|done].
    cbn [mbind option_bind] in Hm.
    destruct (mapM (digit_of al) s) as [ds'|]; [|done]. injection Hm as <-.
    destruct (digit_of_encode al Hal r d Hr Ed) as [Hd He]. cbn [count_eq count_zeros].
    destruct (Z.eqb_spec r z) as [->|Hrz], (Z.eqb_spec d 0) as [->|Hd0].
    + f_equal. by apply IH.
    + exfalso. destruct (alphabet_encode al Hal 0 ltac:(lia)) as (c & E & D & _).
      change (Z.to_nat 0) with 0%nat in E. congruence.
    + exfalso. change (Z.to_nat 0) with 0%nat in He. congruence.
    + done.
Qed.

Lemma mapM_digits al s : alphabet_ok al = true -> Forall (fun r => 0 <= r) s ->
  forall ds, mapM (digit_of al) s = Some ds ->
  Forall (is_digit 58) ds /\ mapM (fun d => encode al !! Z.to_nat d) ds = Some s.
Proof.
  intros Hal. induction 1 as [|r s Hr Hs IH]; intros ds Hm.
  - injection Hm as <-. by split.
  - cbn [mapM] in Hm. destruct (digit_of al r) as [d|] eqn:Ed; [|done].
    cbn [mbind option_bind] in Hm.
    destruct (mapM (digit_of al) s) as [ds'|]; [|done]. injection Hm as <-.
    destruct (IH ds' eq_refl) as [H1 H2].
    destruct (digit_of_encode al Hal r d Hr Ed) as [Hd He].
    split; [by constructor|]. cbn [mapM]. rewrite He. cbn. by rewrite H2.
Qed.

Lemma zeros_value base n : of_digits base (replicate n 0) = 0.
Proof. rewrite <- (app_nil_r (replicate _ _)). by rewrite of_digits_replicate. Qed.

Lemma zeros_length l : length l = (count_zeros l + length (strip_zeros l))%nat.
Proof. rewrite <- (zeros_split l) at 1. by rewrite length_app, length_replicate. Qed.

(** The sizes of the limb array: [n] limbs, the first of [k] bytes. *)
Lemma limb_sizes len n k0 k : len <> 0%nat ->
  n = ((len + 3) / 4)%nat -> k0 = (len mod 4)%nat -> k = (if (0 <? k0)%nat then k0 else 4%nat) ->
  (1 <= n)%nat /\ (1 <= k <= 4)%nat /\ (4 * (n - 1) + k = len)%nat /\
  (if (0 <? k0)%nat then u32 (Z.shiftl 0xffffffff (Z.of_nat k0 * 8)) else 0) =
  (if (k <? 4)%nat then u32 (Z.shiftl 0xffffffff (Z.of_nat k * 8)) else 0).
Proof.
  intros Hl Hn Hk0 Hk.
  pose proof (Nat.mod_upper_bound len 4 ltac:(lia)) as B.
  pose proof (Nat.div_mod len 4 ltac:(lia)) as D1.
  pose proof (Nat.div_mod (len + 3) 4 ltac:(lia)) as D2.
  pose proof (Nat.mod_upper_bound (len + 3) 4 ltac:(lia)).
  rewrite <- Hn in D2. rewrite <- Hk0 in D1, B. subst k.
  destruct (Nat.ltb_spec 0 k0); repeat split; try lia.
  destruct (Nat.ltb_spec k0 4); [done|lia].
Qed.

Lemma first_limb_bound k x o n : Forall (is_digit limb) (x :: o) ->
  length o = (n - 1)%nat -> of_digits limb (x :: o) < 256 ^ Z.of_nat (4 * (n - 1) + k) ->
  x < 256 ^ Z.of_nat k.
Proof.
  intros Ho Hlo Hlt. rewrite of_digits_cons, Hlo in Hlt.
  apply Forall_cons in Ho as [_ Ho].
  pose proof (of_digits_bound limb ltac:(unfold limb; lia) o Ho) as Bo.
  assert (256 ^ Z.of_nat (4 * (n - 1) + k) = limb ^ Z.of_nat (n - 1) * 256 ^ Z.of_nat k) as Hp.
  { change limb with (256 ^ 4). rewrite <- Z.pow_mul_r, <- Z.pow_add_r by lia. f_equal. lia. }
  assert (0 < limb ^ Z.of_nat (n - 1)) by (apply Z.pow_pos_nonneg; unfold limb; lia).
  nia.
Qed.

(** The leading zeros of the written bytes against those of the digits. *)
Lemma decode_spec_bytes ds w : Forall (is_digit 58) ds ->
  w = be_bytes (length ds) (of_digits 58 ds) ->
  (count_zeros ds <= count_zeros w)%nat /\
  (strip_zeros w = [] \/ (count_zeros w < length w)%nat) /\
  replicate (if decide (strip_zeros w = []) then length w else count_zeros ds) 0
    ++ strip_zeros w = decode_spec ds.
Proof.
  intros Hds Hw. pose proof (of_digits_bound 58 ltac:(lia) ds Hds) as B.
  assert (58 ^ Z.of_nat (length ds) <= 256 ^ Z.of_nat (length ds))
    by (apply Z.pow_le_mono_l; lia).
  assert (length w = length ds) as Hl by (subst w; apply length_be_bytes).
  assert (of_digits 256 w = of_digits 58 ds) as Hwv.
  { subst w. rewrite of_digits_be_bytes, Z.mod_small; lia. }
  assert (strip_zeros w = to_digits 256 (of_digits 58 ds)) as Hsw.
  { rewrite <- Hwv, to_digits_of_digits; [done|lia|subst w; apply be_bytes_ok]. }
  pose proof (zeros_length ds). pose proof (zeros_length w).
  assert (length (strip_zeros w) <= length (strip_zeros ds))%nat.
  { rewrite Hsw. apply to_digits_length; [lia|].
    pose proof (of_digits_bound 58 ltac:(lia) _ (Forall_strip_zeros _ _ Hds)) as B'.
    rewrite of_digits_strip in B'.
    assert (58 ^ Z.of_nat (length (strip_zeros ds)) <= 256 ^ Z.of_nat (length (strip_zeros ds)))
      by (apply Z.pow_le_mono_l; lia). lia. }
  split; [lia|]. split.
  - destruct (strip_zeros w) eqn:E; [by left|right; simpl in *; lia].
  - unfold decode_spec. rewrite <- Hsw. case_decide as E; [|done].
    do 2 f_equal. rewrite E in *. simpl in *.
    assert (of_digits 58 ds = 0) as Hz0.
    { by rewrite <- Hwv, <- (of_digits_strip 256 w), E. }
    assert (strip_zeros ds = []) as Hsd.
    { by rewrite <- (to_digits_of_digits 58 ltac:(lia) ds Hds), Hz0. }
    rewrite Hsd in *. simpl in *. lia.
Qed.

(** The decoder, on every input: the digits of a string of alphabet
    characters, read as a number and preceded by one zero byte per leading
    zero digit; an error for the empty string and for any other character; it
    never panics, and the "output number too big" errors do not occur. *)
Lemma decode_correct al s : alphabet_ok al = true -> Forall (fun r => 0 <= r) s -> s <> [] ->
  match mapM (digit_of al) s with
  | Some ds => FastBase58DecodingAlphabet s al = Ok (decode_spec ds)
  | None => exists m, FastBase58DecodingAlphabet s al = Err m
  end.
Proof.
  intros Hal Hs Hne. unfold FastBase58DecodingAlphabet.
  destruct (Nat.eqb_spec (length s) 0) as [Hl0|Hl0]; [by destruct s|].
  destruct (alphabet_encode al Hal 0 ltac:(lia)) as (z & Ez & _).
  change (Z.to_nat 0) with 0%nat in Ez.
  rewrite (index_ok _ _ _ Ez). cbn [res_bind].
  set (n := ((length s + 3) / 4)%nat). set (k0 := (length s mod 4)%nat).
  set (k := if (0 <? k0)%nat then k0 else 4%nat).
  destruct (limb_sizes (length s) n k0 k Hl0 eq_refl eq_refl eq_refl) as (Hn & Hk & Hsz & ->).
  pose proof (decode_runes_ok al Hal _ n k s (replicate n 0) Hn Hk eq_refl Hs) as HR.
  rewrite zeros_value, Hsz in HR. specialize (HR ltac:(by rewrite length_replicate)).
  specialize (HR ltac:(apply Forall_replicate; unfold is_digit, limb; lia)).
  specialize (HR ltac:(rewrite Z.mul_1_l; apply Z.pow_le_mono_l; lia)).
  destruct (mapM (digit_of al) s) as [ds|] eqn:Em.
  2: { destruct HR as [m ->]. by exists m. }
  destruct HR as (o & -> & Hlo & Ho & Hv). cbn [res_bind].
  rewrite Z.mul_0_l, Z.add_0_l in Hv.
  destruct (mapM_digits al s Hal Hs ds Em) as [Hds _].
  assert (length s = length ds) as Hlds by (by eapply length_mapM).
  destruct o as [|x o]; [simpl in Hlo; lia|]. simpl in Hlo.
  assert (x < 256 ^ Z.of_nat k) as Hx.
  { apply (first_limb_bound k x o n Ho); [lia|]. rewrite Hv, Hsz, Hlds.
    pose proof (of_digits_bound 58 ltac:(lia) ds Hds).
    assert (58 ^ Z.of_nat (length ds) <= 256 ^ Z.of_nat (length ds))
      by (apply Z.pow_le_mono_l; lia). lia. }
  rewrite (out_bytes_ok k x o Hk Ho Hx), Hv.
  replace (k + 4 * length o)%nat with (length ds) by lia.
  rewrite Hlds, (count_eq_zeros al s ds Hal Hs Em z Ez), length_be_bytes.
  destruct (Nat.ltb_spec ((length ds + 3) * 3) (length ds)); [lia|].
  destruct (decode_spec_bytes ds _ Hds eq_refl) as (H1 & H2 & <-).
  pose proof (cut_result _ (2 * length ds + 9) _ H1 H2) as Hc. cbv zeta in Hc.
  rewrite length_be_bytes in *.
  replace (length ds + (2 * length ds + 9))%nat with ((length ds + 3) * 3)%nat in Hc by lia.
  exact Hc.
Qed.

(** ** The two together *)

Lemma mapM_encode al ds : alphabet_ok al = true -> Forall (is_digit 58) ds ->
  exists s, mapM (fun d => encode al !! Z.to_nat d) ds = Some s /\
    mapM (digit_of al) s = Some ds /\ Forall (fun r => 0 <= r < 128) s.
Proof.
  intros Hal. induction 1 as [|d ds Hd Hds IH]; [by exists []|].
  destruct IH as (s & E1 & E2 & E3).
  destruct (alphabet_encode al Hal d Hd) as (c & Ec & Dc & Bc).
  exists (c :: s). cbn [mapM]. rewrite Ec, Dc. cbn. rewrite E1, E2. cbn.
  repeat split; [done..|by constructor].
Qed.

Lemma spec_digits base base' n l : 2 <= base -> 2 <= base' ->
  Forall (is_digit base) l -> n = count_zeros l ->
  let ds := replicate n 0 ++ to_digits base' (of_digits base l) in
  Forall (is_digit base') ds /\ count_zeros ds = n /\
  of_digits base' ds = of_digits base l.
Proof.
  intros Hb Hb' Hl -> ds. pose proof (of_digits_bound base Hb l Hl).
  destruct (to_digits_spec base' Hb' (of_digits base l)) as (Hv & Hd & Hc); [lia|].
  unfold ds. split; [|split].
  - apply Forall_app. split; [|done]. apply Forall_replicate. unfold is_digit. lia.
  - rewrite count_zeros_replicate, <- Hc, count_zeros_strip. lia.
  - by rewrite of_digits_replicate.
Qed.

Lemma respell base l : 2 <= base -> Forall (is_digit base) l ->
  replicate (count_zeros l) 0 ++ to_digits base (of_digits base l) = l.
Proof. intros. by rewrite to_digits_of_digits, zeros_split. Qed.

Lemma encode_decode al bin : alphabet_ok al = true -> bytes_ok bin -> bin <> [] ->
  exists s, FastBase58EncodingAlphabet bin al = Ok s /\ s <> [] /\
    Forall (fun r => 0 <= r < 128) s /\ FastBase58DecodingAlphabet s al = Ok bin.
Proof.
  intros Hal Hbin Hne.
  destruct (encode_correct al bin) as (s & E & S);
    [by destruct (alphabet_ok_inv al Hal)|done|]. unfold encode_spec in S.
  destruct (spec_digits 256 58 _ bin ltac:(lia) ltac:(lia) Hbin eq_refl) as (Hd & Hz & Hv).
  destruct (mapM_encode al _ Hal Hd) as (s' & E1 & E2 & E3).
  rewrite S in E1. injection E1 as <-. exists s. split; [done|].
  assert (s <> []) as Hs.
  { intros ->. injection E2 as E2. apply Hne.
    rewrite <- (respell 256 bin ltac:(lia) Hbin).
    rewrite <- E2 in Hz, Hv. rewrite <- Hz, <- Hv. done. }
  split; [done|]. split; [done|].
  pose proof (decode_correct al s Hal) as D. rewrite E2 in D. rewrite D; [|by eapply Forall_impl;
    [exact E3|simpl; lia]|done].
  unfold decode_spec. rewrite Hz, Hv. f_equal. apply respell; [lia|done].
Qed.

Lemma decode_encode al s bin : alphabet_ok al = true -> Forall (fun r => 0 <= r) s ->
  FastBase58DecodingAlphabet s al = Ok bin ->
  bytes_ok bin /\ FastBase58EncodingAlphabet bin al = Ok s.
Proof.
  intros Hal Hs HD.
  destruct (decide (s = [])) as [->|Hne]; [discriminate HD|].
  pose proof (decode_correct al s Hal Hs Hne) as D.
  destruct (mapM (digit_of al) s) as [ds|] eqn:Em; [|destruct D as [m D]; congruence].
  rewrite HD in D. injection D as ->.
  destruct (mapM_digits al s Hal Hs ds Em) as [Hds Henc].
  destruct (spec_digits 58 256 _ ds ltac:(lia) ltac:(lia) Hds eq_refl) as (Hb & Hz & Hv).
  fold (decode_spec ds) in Hb, Hz, Hv. split; [done|].
  destruct (encode_correct al (decode_spec ds)) as (s' & E & S);
    [by destruct (alphabet_ok_inv al Hal)|done|].
  unfold encode_spec in S. rewrite Hz, Hv, respell in S by (lia || done).
  congruence.
Qed.

Lemma BTCAlphabet_ok : alphabet_ok BTCAlphabet = true.
Proof. by vm_compute. Qed.

Lemma FlickrAlphabet_ok : alphabet_ok FlickrAlphabet = true.
Proof. by vm_compute. Qed.

(** ** Properties *)

(** Base58 is a bijection between the non-empty byte strings and the
    non-empty strings of its alphabet: [Decode] inverts [Encode] on every
    non-empty byte string, leading zero bytes included, and [Encode] inverts
    [Decode] on every string that decodes. *)
Theorem base58_roundtrip :
  (forall bin, bytes_ok bin -> bin <> [] ->
     exists s, Encode bin = Ok s /\ Forall (fun r => 0 <= r < 128) s /\ Decode s = Ok bin) /\
  (forall s bin, Forall (fun r => 0 <= r) s -> Decode s = Ok bin ->
     bytes_ok bin /\ Encode bin = Ok s).
Proof.
  split.
  - intros bin Hb Hne.
    destruct (encode_decode BTCAlphabet bin BTCAlphabet_ok Hb Hne) as (s & E1 & _ & E2 & E3).
    exists s. split; [exact E1|]. split; [exact E2|exact E3].
  - intros s bin Hs. apply (decode_encode BTCAlphabet s bin BTCAlphabet_ok Hs).
Qed.

Lemma base58_roundtrip_witness :
  (exists s, Encode [0; 0; 255; 1] = Ok s /\ Forall (fun r => 0 <= r < 128) s /\
     Decode s = Ok [0; 0; 255; 1]) /\
  Encode (match Decode (str "1z2Z") with Ok b => b | _ => [] end) = Ok (str "1z2Z").
Proof.
  split.
  - apply base58_roundtrip; [|done]. repeat constructor; unfold is_byte; lia.
  - assert (exists b, Decode (str "1z2Z") = Ok b) as [b E] by (eexists; vm_compute; reflexivity).
    rewrite E. apply base58_roundtrip in E; [apply E|].
    vm_compute. repeat constructor; discriminate.
Defined.

(** What the codec computes.  [Encode] writes the big-endian number of its
    input in base 58, one zero digit more per leading zero byte, and never
    panics: its digit buffer of [n*138/100 + 1] places is large enough for every
    input.  [Decode] reads the number back, for every string of alphabet
    characters, and otherwise returns an error; it never panics either, and
    the errors "output number too big" are unreachable. *)
Theorem base58_functional :
  (forall bin, bytes_ok bin ->
     exists s, Encode bin = Ok s /\ encode_spec BTCAlphabet bin = Some s) /\
  (forall s, Forall (fun r => 0 <= r) s ->
     match mapM (digit_of BTCAlphabet) s with
     | Some (d :: ds) => Decode s = Ok (decode_spec (d :: ds))
     | _ => exists m, Decode s = Err m
     end).
Proof.
  split.
  - intros bin Hb. apply encode_correct; [reflexivity|done].
  - intros s Hs. destruct (decide (s = [])) as [->|Hne]; [by eexists|].
    pose proof (decode_correct BTCAlphabet s BTCAlphabet_ok Hs Hne) as D.
    destruct (mapM (digit_of BTCAlphabet) s) as [[|d ds]|] eqn:Em; [|done|done].
    apply length_mapM in Em. destruct s; [exfalso; apply Hne; reflexivity|discriminate Em].
Qed.

Lemma base58_functional_witness :
  encode_spec BTCAlphabet [0; 97] = Some (str "12g") /\ Decode (str "12g") = Ok [0; 97] /\
  exists m, Decode (str "0OIl") = Err m.
Proof.
  destruct base58_functional as [HE HD].
  split; [|split].
  - destruct (HE [0; 97]) as (s & E & S); [repeat constructor; unfold is_byte; lia|].
    rewrite S. f_equal. assert (Encode [0; 97] = Ok (str "12g")) by (vm_compute; reflexivity).
    congruence.
  - apply (HD (str "12g")). repeat constructor; lia.
  - apply (HD (str "0OIl")). repeat constructor; lia.
Defined.
