(* ===== verification/Base58Check.v ===== *)
(** * Package [common/base58]: checked strings

    [src/common/base58/base58check.go]: a version byte, the payload and a
    4-byte checksum, in base 58, with a process-wide cache of what was encoded.
    The cache is the third-party [golang-lru]: an instance of [LRU] says which
    entries survive an [Add]. *)

From stdpp Require Import base list gmap strings.
From Stdlib Require Import ZArith Lia.
From S2P Require Import Prelude Common Hashing Base58.
Open Scope Z_scope.

(** [base58Cache]: a map from [string(input)] to the encoded string. *)
Definition cache : Type := gmap (list Z) (list Z).

Class LRU : Type := evict : cache -> cache.

(** Adding an entry may drop others; it invents none. *)
Class LRULaws `{LRU} : Prop := evict_subseteq : forall c : cache, evict c ⊆ c.

Section check.
Context `{Digests} `{LRU}.

Definition ChecksumFirst4Bytes (data : list Z) (isNewCheckSum : bool) : list Z :=
  if negb isNewCheckSum
  then copy_to_array CheckSumLen (take 4 (HashB data))
  else copy_to_array CheckSumLen (take 4 (SHA256 (SHA256 data))).

(** The part of [Encode] and [NewEncode] after the cache lookup. *)
Definition check_encode (input : list Z) (version : Z) (isNew : bool) : res (list Z) :=
  let b := version :: input in
  let ckSum := ChecksumFirst4Bytes b isNew in
  Base58_Encode (b ++ ckSum).

Definition cached_encode (input : list Z) (version : Z) (isNew : bool) : st cache (list Z) :=
  fun base58Cache =>
    match base58Cache !! input with
    | Some value => (base58Cache, Ok value)
    | None =>
        match check_encode input version isNew with
        | Ok encodeData => (evict (<[input := encodeData]> base58Cache), Ok encodeData)
        | r => (base58Cache, r)
        end
    end.

Definition Base58Check_Encode (input : list Z) (version : Z) : st cache (list Z) :=
  cached_encode input version (version =? 1).

Definition Base58Check_NewEncode (input : list Z) (version : Z) : st cache (list Z) :=
  cached_encode input version true.

Definition Base58Check_Decode (input : list Z) : res (list Z * Z) :=
  let* decoded := Base58_Decode input in
  if (length decoded <? 5)%nat
  then Err "invalid format: version and/or checksum bytes missing"
  else
    let* version := index decoded 0 in
    let* tail := slice decoded (length decoded - CheckSumLen) (length decoded) in
    let ckSum := copy_to_array CheckSumLen tail in
    let* body := slice decoded 0 (length decoded - CheckSumLen) in
    if negb (bool_decide (ChecksumFirst4Bytes body true = ckSum)) &&
       negb (bool_decide (ChecksumFirst4Bytes body false = ckSum))
    then Err "checksum error"
    else
      let* payload := slice decoded 1 (length decoded - CheckSumLen) in
      Ok (payload, version).

(** Every entry of the cache is an encoding of its key, under some version
    and one of the two checksums. *)
Definition cache_ok (c : cache) : Prop :=
  forall k v, c !! k = Some v ->
    bytes_ok k /\ exists ver isNew, is_byte ver /\ check_encode k ver isNew = Ok v.

(** ** Lemmas *)

Context `{!DigestLaws} `{!LRULaws}.

Lemma checksum_ok data isNew :
  length (ChecksumFirst4Bytes data isNew) = CheckSumLen /\
  bytes_ok (ChecksumFirst4Bytes data isNew).
Proof using Type*.
  unfold ChecksumFirst4Bytes.
  assert (forall h, hash_ok h -> length (copy_to_array CheckSumLen (take 4 h)) = CheckSumLen /\
            bytes_ok (copy_to_array CheckSumLen (take 4 h))) as Hc.
  { intros h [Hl Hb]. rewrite copy_to_array_exact by (rewrite length_take, Hl; done).
    split; [by rewrite length_take, Hl|by apply Forall_take]. }
  destruct isNew; apply Hc; [apply sha256_ok|apply sha3_ok].
Qed.

Lemma check_body input version isNew : bytes_ok input -> is_byte version ->
  bytes_ok ((version :: input) ++ ChecksumFirst4Bytes (version :: input) isNew).
Proof using Type*.
  intros Hi Hv. apply Forall_app. split; [by constructor|apply checksum_ok].
Qed.

Lemma check_encode_ok input version isNew : bytes_ok input -> is_byte version ->
  exists s, check_encode input version isNew = Ok s /\ Forall (fun r => 0 <= r < 128) s /\
    Base58_Decode s = Ok ((version :: input) ++ ChecksumFirst4Bytes (version :: input) isNew).
Proof using Type*.
  intros Hi Hv.
  destruct (encode_decode BTCAlphabet _ BTCAlphabet_ok (check_body input version isNew Hi Hv))
    as (s & E & _ & A & D); [done|].
  exists s. split; [exact E|]. split; [exact A|]. unfold Base58_Decode, Decode, FastBase58Decoding.
  by rewrite D.
Qed.

Lemma ascii_runes s : Forall (fun r => 0 <= r < 128) s -> Forall (fun r => 0 <= r) s.
Proof using Type. intros Hs. eapply Forall_impl; [exact Hs|]. simpl. lia. Qed.

(** [Decode] of a string whose base-58 payload is split as the code does. *)
Lemma decode_split s body ck : Base58_Decode s = Ok (body ++ ck) ->
  length ck = CheckSumLen -> (1 <= length body)%nat ->
  Base58Check_Decode s =
    if bool_decide (ChecksumFirst4Bytes body true = ck) ||
       bool_decide (ChecksumFirst4Bytes body false = ck)
    then match body with version :: payload => Ok (payload, version) | [] => Panic end
    else Err "checksum error".
Proof using Type.
  intros HD Hck Hb. unfold Base58Check_Decode. rewrite HD. cbn [res_bind].
  unfold CheckSumLen in *. rewrite length_app, Hck.
  destruct (Nat.ltb_spec (length body + 4) 5); [lia|].
  destruct body as [|version payload]; [simpl in Hb; lia|].
  cbn [app]. unfold index at 1. cbn [lookup list_lookup res_bind].
  change (version :: payload ++ ck) with ((version :: payload) ++ ck).
  replace (length (version :: payload) + 4 - 4)%nat with (length (version :: payload)) by lia.
  rewrite (slice_ok _ (length (version :: payload))) by (rewrite ?length_app, ?Hck; lia).
  rewrite drop_app_length. cbn [res_bind].
  rewrite take_ge by lia. rewrite copy_to_array_exact by done.
  rewrite (slice_ok _ 0) by (rewrite ?length_app; lia).
  rewrite drop_0, Nat.sub_0_r, take_app_length. cbn [res_bind].
  rewrite (slice_ok _ 1) by (rewrite ?length_app; simpl; lia).
  change (drop 1 ((version :: payload) ++ ck)) with (payload ++ ck).
  replace (length (version :: payload) - 1)%nat with (length payload) by (simpl; lia).
  rewrite take_app_length. cbn [res_bind]. rewrite <- negb_orb.
  by destruct (bool_decide _ || bool_decide _).
Qed.

(** [Decode] accepts exactly the encodings, under either checksum. *)
Lemma check_decode_iff s payload version : Forall (fun r => 0 <= r) s ->
  Base58Check_Decode s = Ok (payload, version) <->
  bytes_ok payload /\ is_byte version /\ exists isNew, check_encode payload version isNew = Ok s.
Proof using Type*.
  intros Hs. split.
  - intros HD. unfold Base58Check_Decode in HD.
    destruct (Base58_Decode s) as [decoded| | |] eqn:E; try discriminate HD.
    cbn [res_bind] in HD. destruct (Nat.ltb_spec (length decoded) 5) as [|Hl]; [discriminate HD|].
    assert (Decode s = Ok decoded) as Ed.
    { unfold Base58_Decode in E. destruct (Decode s); try discriminate E; [done|].
      injection E as <-. simpl in Hl. lia. }
    destruct (decode_encode BTCAlphabet s decoded BTCAlphabet_ok Hs Ed) as [Hb He].
    set (n := (length decoded - CheckSumLen)%nat) in *.
    assert (decoded = take n decoded ++ drop n decoded) as Hsp by (symmetry; apply take_drop).
    assert (length (drop n decoded) = CheckSumLen) as Hck
      by (rewrite length_drop; unfold n, CheckSumLen in *; lia).
    assert (1 <= length (take n decoded))%nat as Hbl
      by (rewrite length_take; unfold n, CheckSumLen in *; lia).
    pose proof (decode_split s (take n decoded) (drop n decoded)) as HS.
    rewrite <- Hsp in HS. specialize (HS E Hck Hbl).
    fold (Base58Check_Decode s) in HD.
    assert (Base58Check_Decode s = Ok (payload, version)) as HD'.
    { unfold Base58Check_Decode. rewrite E. cbn [res_bind].
      destruct (Nat.ltb_spec (length decoded) 5); [lia|exact HD]. }
    rewrite HD' in HS. rewrite Hsp in Hb, He.
    set (ck := drop n decoded) in *. set (body := take n decoded) in *. clearbody ck body.
    destruct (bool_decide (ChecksumFirst4Bytes body true = ck) ||
              bool_decide (ChecksumFirst4Bytes body false = ck)) eqn:Eck; [|discriminate HS].
    destruct body as [|v p]; [discriminate HS|]. injection HS as -> ->.
    apply Forall_app in Hb as [Hb _]. apply Forall_cons in Hb as [Hv Hp].
    split; [exact Hp|]. split; [exact Hv|].
    apply orb_prop in Eck as [Eck|Eck]; apply bool_decide_eq_true in Eck; subst ck.
    + by exists true.
    + by exists false.
  - intros (Hp & Hv & isNew & HE).
    destruct (check_encode_ok payload version isNew Hp Hv) as (s' & E' & _ & D).
    rewrite HE in E'. injection E' as <-.
    rewrite (decode_split s _ _ D); [|apply checksum_ok|simpl; lia].
    match goal with |- (if ?b then _ else _) = _ => replace b with true end; [done|].
    symmetry. apply orb_true_iff.
    destruct isNew; [left|right]; by apply bool_decide_eq_true.
Qed.

Lemma cached_encode_ok input version isNew c :
  cache_ok c -> bytes_ok input -> is_byte version ->
  exists c' s ver' isNew', cached_encode input version isNew c = (c', Ok s) /\ cache_ok c' /\
    is_byte ver' /\ check_encode input ver' isNew' = Ok s /\
    (c !! input = None -> ver' = version /\ isNew' = isNew).
Proof using Type*.
  intros Hc Hi Hv. unfold cached_encode.
  destruct (c !! input) as [v|] eqn:E.
  - destruct (Hc input v E) as (_ & ver & k & Hver & Hk). exists c, v, ver, k.
    split; [reflexivity|]. split; [exact Hc|]. split; [exact Hver|]. split; [exact Hk|].
    intros Hn. congruence.
  - destruct (check_encode_ok input version isNew Hi Hv) as (s & Es & _).
    rewrite Es. exists (evict (<[input:=s]> c)), s, version, isNew.
    split; [reflexivity|]. split; [|split; [exact Hv|split; [exact Es|split; reflexivity]]].
    intros k v Hkv.
    pose proof (lookup_weaken _ _ _ _ Hkv (evict_subseteq (<[input:=s]> c))) as Hl.
    apply lookup_insert_Some in Hl as [[<- <-]|[_ Hl]]; [|by apply Hc].
    split; [exact Hi|]. exists version, isNew. split; [exact Hv|exact Es].
Qed.
Lemma cached_encode_decode c input version isNew :
  cache_ok c -> bytes_ok input -> is_byte version ->
  exists c' s ver', cached_encode input version isNew c = (c', Ok s) /\ cache_ok c' /\
    Base58Check_Decode s = Ok (input, ver') /\
    (c !! input = None -> ver' = version).
Proof using Type*.
  intros Hc Hi Hv.
  destruct (cached_encode_ok input version isNew c Hc Hi Hv)
    as (c' & s & ver' & k & E & Hc' & Hv' & Hk & Hn).
  exists c', s, ver'. split; [done|]. split; [done|]. split; [|intros Hx; apply (Hn Hx)].
  destruct (check_encode_ok input ver' k Hi Hv') as (s' & Es & A & _).
  rewrite Hk in Es. injection Es as <-.
  apply check_decode_iff; [by apply ascii_runes|]. split; [done|]. split; [done|]. by exists k.
Qed.
End check.

#[local] Existing Instances toy_digests toy_digest_laws.

(** A cache that never forgets, for the concrete examples. *)
#[local] Instance keep_all : LRU := fun c => c.
#[local] Instance keep_all_laws : LRULaws.
Proof. intros c. reflexivity. Qed.

(** ** Properties *)

Section properties.
Context `{DigestLaws} `{LRULaws}.

(** C37: what [Encode] and [NewEncode] return decodes to the payload, whatever
    was encoded before: from any cache the two functions can build, the call
    returns a string, keeps the cache invariant, and [Decode] gives the
    input back; when the input was not cached, with the requested version. *)
Theorem base58check_roundtrip c input version isNew :
  cache_ok c -> bytes_ok input -> is_byte version ->
  exists c' s ver', cached_encode input version isNew c = (c', Ok s) /\ cache_ok c' /\
    Base58Check_Decode s = Ok (input, ver') /\
    (c !! input = None -> ver' = version).
Proof using Type*. apply cached_encode_decode. Qed.

(** [Decode] is sound and complete: it returns [(payload, version)]
    exactly for the strings that are the encoding of that payload under that
    version with the new or with the old checksum.  In particular no string is
    read as two different payloads, and what is not such an encoding is an
    error, never a panic. *)
Theorem base58check_decode_iff s payload version :
  Forall (fun r => 0 <= r) s ->
  (Base58Check_Decode s = Ok (payload, version) <->
   bytes_ok payload /\ is_byte version /\
   exists isNew, check_encode payload version isNew = Ok s) /\
  res_safe (Base58Check_Decode s).
Proof using Type*.
  intros Hs. split; [by apply check_decode_iff|].
  assert (exists d, Base58_Decode s = Ok d) as [d E].
  { unfold Base58_Decode, Decode, FastBase58Decoding.
    destruct (decide (s = [])) as [->|Hne]; [by eexists|].
    pose proof (decode_correct BTCAlphabet s BTCAlphabet_ok Hs Hne) as D.
    destruct (mapM _ s) as [ds|]; [rewrite D; by eexists|].
    destruct D as [m D]. rewrite D. by eexists. }
  destruct (Nat.lt_ge_cases (length d) 5) as [Hl|Hl].
  - unfold Base58Check_Decode. rewrite E. cbn [res_bind].
    destruct (Nat.ltb_spec (length d) 5); [done|lia].
  - rewrite <- (take_drop (length d - CheckSumLen) d) in E.
    unfold CheckSumLen in E.
    rewrite (decode_split s _ _ E);
      [|rewrite length_drop; unfold CheckSumLen; lia|rewrite length_take; lia].
    destruct (take (length d - 4) d) as [|v p] eqn:Et.
    { apply (f_equal length) in Et. rewrite length_take in Et. simpl in Et. lia. }
    by destruct (_ || _).
Qed.

(** The cache is keyed by the payload only.  Once a payload has been
    encoded (and not evicted), every later call of [Encode] or [NewEncode]
    for it returns that same string, so asking for another version or for
    another checksum gives a string that decodes to the first version. *)
Theorem base58check_cache_confusion c c' input v1 v2 new1 new2 s :
  c !! input = None -> bytes_ok input -> is_byte v1 ->
  cached_encode input v1 new1 c = (c', Ok s) -> c' !! input = Some s ->
  cached_encode input v2 new2 c' = (c', Ok s) /\
  Base58Check_Decode s = Ok (input, v1).
Proof using Type*.
  intros Hn Hi Hv1 E1 Hc'. split; [unfold cached_encode; by rewrite Hc'|].
  unfold cached_encode in E1. rewrite Hn in E1.
  destruct (check_encode_ok input v1 new1 Hi Hv1) as (s' & E & A & _).
  rewrite E in E1. injection E1 as _ ->.
  apply check_decode_iff; [by apply ascii_runes|]. split; [done|]. split; [done|]. by exists new1.
Qed.
End properties.

Lemma empty_cache_ok `{Digests} : cache_ok ∅.
Proof. intros k v Hk. by apply (lookup_empty_Some (M:=gmap (list Z))) in Hk. Qed.

Lemma base58check_roundtrip_witness :
  exists c' s ver', Base58Check_Encode [1; 2; 3] 0 ∅ = (c', Ok s) /\ cache_ok c' /\
    Base58Check_Decode s = Ok ([1; 2; 3], ver') /\
    ((∅ : cache) !! [1; 2; 3] = None -> ver' = 0).
Proof.
  apply (base58check_roundtrip ∅ [1; 2; 3] 0 false); [apply empty_cache_ok| |].
  - repeat constructor; unfold is_byte; lia.
  - unfold is_byte. lia.
Defined.

Lemma base58check_decode_iff_witness : res_safe (Base58Check_Decode (str "3QJmnh")).
Proof.
  apply (base58check_decode_iff (str "3QJmnh") [] 0). repeat constructor; lia.
Defined.

Lemma base58check_cache_confusion_witness :
  exists c' s, Base58Check_Encode [7] 0 ∅ = (c', Ok s) /\
    Base58Check_NewEncode [7] 1 c' = (c', Ok s) /\ Base58Check_Decode s = Ok ([7], 0).
Proof.
  eexists _, _. split; [vm_compute; reflexivity|].
  eapply (base58check_cache_confusion ∅ _ [7] 0 1 false true).
  - reflexivity.
  - repeat constructor; unfold is_byte; lia.
  - unfold is_byte. lia.
  - vm_compute. reflexivity.
  - vm_compute. reflexivity.
Defined.
