(* ===== verification/Crypto.v ===== *)
(** * Package [crypto]: scalars, points, Pedersen commitments

    [src/crypto/scalar.go], [point.go], [pedersen.go] and the small functions
    of [src/crypto/curve25519] they rest on ([ScValid], [ScIsZero],
    [ScalarmultBase], [HashToScalar]).  The rest of that directory is a port of
    third-party code: its functions are the operations of the class [CurveOps], and
    [CurveLaws] states what they compute: arithmetic modulo the curve order on
    reduced scalars, which [Scalar.v] proves of the limb arithmetic, and the group of
    prime order on the encoded points of that group.

    A key (a scalar or a point) is an array of 32 bytes, little endian. *)

From stdpp Require Import base list strings.
From Stdlib Require Import ZArith Lia.
From S2P Require Import Prelude Common Hashing.
Open Scope Z_scope.

Definition Ed25519KeySize : nat := 32.
Definition key_ok (k : list Z) : Prop := length k = Ed25519KeySize /\ bytes_ok k.

(** The integer a key stands for, and the key of an integer. *)
Definition key_val (k : list Z) : Z := of_digits 256 (reverse k).
Definition key_of (z : Z) : list Z := reverse (be_bytes Ed25519KeySize z).

Definition Identity : list Z := 1 :: replicate 31 0.
Definition L : list Z :=
  [0xed; 0xd3; 0xf5; 0x5c; 0x1a; 0x63; 0x12; 0x58; 0xd6; 0x9c; 0xf7; 0xa2; 0xde; 0xf9;
   0xde; 0x14; 0; 0; 0; 0; 0; 0; 0; 0; 0; 0; 0; 0; 0; 0; 0; 0x10].
Definition order : Z := 2 ^ 252 + 27742317777372353535851937790883648493.
Definition GBASE : list Z := 0x58 :: replicate 31 0x66.

Definition CStringBulletProof : list Z := str "bulletproof".
Definition CStringAssetTag : list Z := str "blindedassettag".
Definition CStringOTA : list Z := str "onetimeaddress".

(** ** The curve *)

Class CurveOps : Type := {
  ScAdd : list Z -> list Z -> list Z;
  ScSub : list Z -> list Z -> list Z;
  ScMul : list Z -> list Z -> list Z;
  ScMulAdd : list Z -> list Z -> list Z -> list Z;
  ScReduce32 : list Z -> list Z;
  (** [ExtendedGroupElement.FromBytes]: is it the encoding of a point? *)
  ge_frombytes : list Z -> bool;
  GeScalarMultBase : list Z -> list Z;
  ScalarMultKey : list Z -> list Z -> list Z;
  AddKeys : list Z -> list Z -> list Z;
  SubKeys : list Z -> list Z -> list Z;
  AddKeys3_3 : list Z -> list Z -> list Z -> list Z -> list Z;
  MultiScalarMultKey : list (list Z) -> list (list Z) -> list Z;
  key_HashToPoint : list Z -> list Z;
  (** the encodings of the points of the subgroup of order [order] *)
  pt_ok : list Z -> Prop
}.

Definition sc_ok (k : list Z) : Prop := key_ok k /\ key_val k < order.

Class CurveLaws `{CurveOps} : Prop := {
  ScAdd_spec : forall a b, sc_ok a -> sc_ok b ->
    ScAdd a b = key_of ((key_val a + key_val b) mod order);
  ScSub_spec : forall a b, sc_ok a -> sc_ok b ->
    ScSub a b = key_of ((key_val a - key_val b) mod order);
  ScMul_spec : forall a b, sc_ok a -> sc_ok b ->
    ScMul a b = key_of ((key_val a * key_val b) mod order);
  ScMulAdd_spec : forall a b c, sc_ok a -> sc_ok b -> sc_ok c ->
    ScMulAdd a b c = key_of ((key_val a * key_val b + key_val c) mod order);
  ScReduce32_spec : forall a, key_ok a -> ScReduce32 a = key_of (key_val a mod order);
  pt_key : forall p, pt_ok p -> key_ok p /\ ge_frombytes p = true;
  pt_identity : pt_ok Identity;
  pt_base : pt_ok GBASE;
  pt_hash : forall k, key_ok k -> pt_ok (key_HashToPoint k);
  pt_add : forall p q, pt_ok p -> pt_ok q -> pt_ok (AddKeys p q);
  pt_mult : forall p a, pt_ok p -> sc_ok a -> pt_ok (ScalarMultKey p a);
  add_comm : forall p q, pt_ok p -> pt_ok q -> AddKeys p q = AddKeys q p;
  add_assoc : forall p q r, pt_ok p -> pt_ok q -> pt_ok r ->
    AddKeys p (AddKeys q r) = AddKeys (AddKeys p q) r;
  add_identity : forall p, pt_ok p -> AddKeys p Identity = p;
  sub_pt : forall p q, pt_ok p -> pt_ok q -> pt_ok (SubKeys p q);
  sub_add : forall p q, pt_ok p -> pt_ok q -> AddKeys (SubKeys p q) q = p;
  mult_zero : forall p, pt_ok p -> ScalarMultKey p (key_of 0) = Identity;
  mult_one : forall p, pt_ok p -> ScalarMultKey p (key_of 1) = p;
  mult_add : forall p a b, pt_ok p -> sc_ok a -> sc_ok b ->
    ScalarMultKey p (ScAdd a b) = AddKeys (ScalarMultKey p a) (ScalarMultKey p b);
  mult_mul : forall p a b, pt_ok p -> sc_ok a -> sc_ok b ->
    ScalarMultKey (ScalarMultKey p a) b = ScalarMultKey p (ScMul a b);
  mult_add_pt : forall p q a, pt_ok p -> pt_ok q -> sc_ok a ->
    ScalarMultKey (AddKeys p q) a = AddKeys (ScalarMultKey p a) (ScalarMultKey q a);
  mult_base : forall a, sc_ok a -> GeScalarMultBase a = ScalarMultKey GBASE a;
  add_pedersen : forall a p b q, sc_ok a -> pt_ok p -> sc_ok b -> pt_ok q ->
    AddKeys3_3 a p b q = AddKeys (ScalarMultKey p a) (ScalarMultKey q b);
  multi_mult : forall ps ss, length ps = length ss -> Forall pt_ok ps -> Forall sc_ok ss ->
    MultiScalarMultKey ps ss =
    foldr (fun pa acc => AddKeys (ScalarMultKey (fst pa) (snd pa)) acc) Identity (zip ps ss)
}.

(** ** curve25519: validity tests *)

(** Little-endian load of 4 bytes into an [int64]. *)
Definition load4 (b : list Z) : Z :=
  match b with
  | b0 :: b1 :: b2 :: b3 :: _ => b0 + 256 * b1 + 65536 * b2 + 16777216 * b3
  | _ => 0
  end.

Definition signum (a : Z) : Z := Z.shiftr a 63 - Z.shiftr (- a) 63.

Definition ScValid (s : list Z) : bool :=
  let s0 := load4 s in
  let s1 := load4 (drop 4 s) in
  let s2 := load4 (drop 8 s) in
  let s3 := load4 (drop 12 s) in
  let s4 := load4 (drop 16 s) in
  let s5 := load4 (drop 20 s) in
  let s6 := load4 (drop 24 s) in
  let s7 := load4 (drop 28 s) in
  Z.shiftr (signum (1559614444 - s0) + Z.shiftl (signum (1477600026 - s1)) 1 +
            Z.shiftl (signum (2734136534 - s2)) 2 + Z.shiftl (signum (350157278 - s3)) 3 +
            Z.shiftl (signum (- s4)) 4 + Z.shiftl (signum (- s5)) 5 +
            Z.shiftl (signum (- s6)) 6 + Z.shiftl (signum (268435456 - s7)) 7) 8 =? 0.

(** The bitwise or of the bytes. *)
Definition or_bytes (s : list Z) : Z := fold_left Z.lor s 0.

Definition ScIsZero (s : list Z) : bool := Z.shiftr (or_bytes s - 1) 8 + 1 =? 0.

(** ** crypto/scalar.go *)

Definition Scalar_FromBytesS (b : list Z) : list Z := copy_to_array Ed25519KeySize b.

(** [SetKey]: the receiver is written before the test; [nil] is returned with
    the error. *)
Definition Scalar_SetKey (v : list Z) : st (list Z) (list Z) := fun sc =>
  if ScValid v then (v, Ok v) else (v, Err "invalid key value").

Fixpoint d2h_loop (fuel : nat) (i : nat) (val : Z) (key : list Z) : res (list Z) :=
  match fuel with
  | O => OutOfFuel
  | S f =>
      if 0 <? val then
        if (length key <=? i)%nat then Panic
        else d2h_loop f (S i) (val / 256) (<[i := Z.land val 0xff]> key)
      else Ok key
  end.

(** A [uint64] has at most 8 bytes. *)
Definition d2h (val : Z) : res (list Z) := d2h_loop 9 0 val (replicate 32 0).

Definition Scalar_FromUint64 (v : Z) : res (list Z) :=
  let* k := d2h v in
  match Scalar_SetKey k [] with (_, r) => r end.

(** The swapping loop, over an array of 32 bytes. *)
Definition Reverse (x : list Z) : list Z :=
  fold_left (fun r i => swap i (length x - 1 - i) r) (seq 0 (length x / 2)) x.

Definition Scalar_ToUint64Little (sc : list Z) : Z := u64 (bigint_set_bytes (Reverse sc)).

Definition Scalar_IsOne (s : list Z) : bool := Z.shiftr (or_bytes s - 1) 8 + 1 =? 1.

Definition Scalar_IsZero (sc : option (list Z)) : bool :=
  match sc with None => false | Some s => ScIsZero s end.

Definition IsScalarEqual (sc1 sc2 : list Z) : bool := bool_decide (sc1 = sc2).

(** From the most significant byte down. *)
Fixpoint compare_loop (i : nat) (a b : list Z) : res Z :=
  match i with
  | O => Ok 0
  | S i' =>
      let* x := index a i' in
      let* y := index b i' in
      if y <? x then Ok 1 else if x <? y then Ok (-1) else compare_loop i' a b
  end.

Definition Compare (a b : list Z) : res Z := compare_loop Ed25519KeySize a b.

(** [math/big]'s [ModInverse] by the extended Euclidean algorithm: [u] and [v]
    are the coefficients of [x] in [a] and [b].  Each two steps halve [b]. *)
Fixpoint egcd (fuel : nat) (a b u v : Z) : option (Z * Z) :=
  match fuel with
  | O => None
  | S f => if b =? 0 then Some (a, u) else egcd f b (a mod b) v (u - a / b * v)
  end.

Definition egcd_fuel (n : Z) : nat := 2 * S (Z.to_nat (Z.log2 n)) + 1.

Definition mod_inverse (x n : Z) : option Z :=
  match egcd (egcd_fuel n) n (x mod n) 0 1 with
  | Some (g, u) => if g =? 1 then Some (u mod n) else None
  | None => None
  end.

(** When there is no inverse [ModInverse] leaves its (zero) receiver alone. *)
Definition Scalar_Invert (x : list Z) : res (list Z) :=
  let bigX := bigint_set_bytes (Reverse x) in
  let bigL := bigint_set_bytes (Reverse L) in
  let inverse := match mod_inverse bigX bigL with Some z => z | None => 0 end in
  let inverseBytes := bigint_bytes inverse in
  if (Ed25519KeySize <? length inverseBytes)%nat then Panic
  else Ok (copy_to_array Ed25519KeySize (reverse inverseBytes)).

Section scalar.
Context `{CO : CurveOps} `{DG : Digests}.

Definition Scalar_Add (a b : list Z) : list Z := ScAdd a b.
Definition Scalar_Sub (a b : list Z) : list Z := ScSub a b.
Definition Scalar_Mul (a b : list Z) : list Z := ScMul a b.
Definition Scalar_MulAdd (a b c : list Z) : list Z := ScMulAdd a b c.

Fixpoint exp_loop (n : nat) (r a : list Z) : list Z :=
  match n with O => r | S n' => exp_loop n' (ScMul r a) a end.

(** [int(v) - 2] iterations, none when that is negative. *)
Definition Scalar_Exp (a : list Z) (v : Z) : list Z :=
  exp_loop (Z.to_nat (i64 (i64 v - 2))) (ScMul a a) a.

Definition key_HashToScalar (msg : list Z) : list Z := ScReduce32 (Keccak256Hash [msg]).

(** [nil] when the hash is not a valid scalar. *)
Definition HashToScalar (msg : list Z) : option (list Z) :=
  match Scalar_SetKey (key_HashToScalar msg) [] with
  | (_, Ok sc) => Some sc
  | _ => None
  end.
End scalar.

(** ** crypto/point.go *)

(** [string(r)] of an integer: the UTF-8 encoding of the code point, U+FFFD
    when it is not one. *)
Definition string_of_rune (r : Z) : list Z :=
  let r := if ((0 <=? r) && (r <? 0xD800)) || ((0xDFFF <? r) && (r <=? 0x10FFFF))
           then r else 0xFFFD in
  if r <? 0x80 then [r]
  else if r <? 0x800 then [0xC0 + r / 64; 0x80 + r mod 64]
  else if r <? 0x10000 then [0xE0 + r / 4096; 0x80 + r / 64 mod 64; 0x80 + r mod 64]
  else [0xF0 + r / 262144; 0x80 + r / 4096 mod 64; 0x80 + r / 64 mod 64; 0x80 + r mod 64].

Section point.
Context `{CO : CurveOps} `{DG : Digests}.

Definition PointValid (p : list Z) : bool := ge_frombytes p.

Definition Point_SetKey (v : list Z) : st (list Z) (list Z) := fun p =>
  if ge_frombytes v then (v, Ok v) else (v, Err "invalid point value").

(** The receiver takes the bytes before the point is tested. *)
Definition Point_FromBytesS_st (b : list Z) : st (list Z) (list Z) := fun p =>
  if negb (length b =? Ed25519KeySize)%nat then (p, Err "invalid Ed25519 Key Size")
  else
    let array := copy_to_array Ed25519KeySize b in
    if ge_frombytes array then (array, Ok array) else (array, Err "invalid point value").

(** [new(Point).FromBytesS(b)]: [nil] with the error. *)
Definition Point_FromBytesS (b : list Z) : res (list Z) := snd (Point_FromBytesS_st b []).

Definition Point_IsIdentity (p : list Z) : bool := bool_decide (p = Identity).

(** [reduce32copy := a] copies the pointer: the argument itself is reduced.
    The argument after the call, and the product. *)
Definition ScalarmultBase (a : list Z) : list Z * list Z :=
  let a := ScReduce32 a in (a, GeScalarMultBase a).

Definition Point_ScalarMultBase (a : list Z) : list Z := snd (ScalarmultBase a).
Definition Point_ScalarMult (pa a : list Z) : list Z := ScalarMultKey pa a.

(** The error of [SetKey] is dropped and its [nil] returned. *)
Definition Point_MultiScalarMult (sList pList : list (list Z)) : res (option (list Z)) :=
  if negb (length sList =? length pList)%nat then Panic
  else
    let key := MultiScalarMultKey pList sList in
    match Point_SetKey key [] with
    | (_, Ok p) => Ok (Some p)
    | _ => Ok None
    end.

Definition Point_InvertScalarMultBase (a : list Z) : res (list Z) :=
  let* inv := Scalar_Invert a in Ok (Point_ScalarMultBase inv).

Definition Point_InvertScalarMult (pa a : list Z) : res (list Z) :=
  let* inv := Scalar_Invert a in Ok (Point_ScalarMult pa inv).

Definition Point_Derive (pa a b : list Z) : res (list Z) :=
  Point_InvertScalarMult pa (Scalar_Add a b).

Definition Point_Add (pa pb : list Z) : list Z := AddKeys pa pb.
Definition Point_Sub (pa pb : list Z) : list Z := SubKeys pa pb.
Definition Point_AddPedersen (a A b B : list Z) : list Z := AddKeys3_3 a A b B.

Definition IsPointEqual (pa pb : list Z) : bool := bool_decide (pa = pb).

Definition HashToPoint (b : list Z) : option (list Z) :=
  match Point_SetKey (key_HashToPoint (Keccak256Hash [b])) [] with
  | (_, Ok p) => Some p
  | _ => None
  end.

Definition HashToPointFromIndex (i : Z) (padStr : list Z) : option (list Z) :=
  HashToPoint (GBASE ++ padStr ++ string_of_rune i).

(** ** crypto/pedersen.go *)

Definition PedersenPrivateKeyIndex : nat := 0.
Definition PedersenValueIndex : nat := 1.
Definition PedersenSndIndex : nat := 2.
Definition PedersenShardIDIndex : nat := 3.
Definition PedersenRandomnessIndex : nat := 4.

(** The five generators; a [nil] one would panic at its first use. *)
Definition NewPedersenParams : res (list (list Z)) :=
  let* one := Scalar_FromUint64 1 in
  match mapM (fun i => HashToPointFromIndex i CStringBulletProof) [1; 2; 3; 4] with
  | Some gs => Ok (Point_ScalarMultBase one :: gs)
  | None => Panic
  end.

Definition CommitAll (G openings : list (list Z)) : res (list Z) :=
  if negb (length openings =? length G)%nat
  then Err "invalid length of openings to commit"
  else
    let* g0 := index G 0 in
    let* o0 := index openings 0 in
    Ok (fold_left (fun commitment go => Point_Add commitment (Point_ScalarMult (fst go) (snd go)))
                  (zip (drop 1 G) (drop 1 openings)) (Point_ScalarMult g0 o0)).

Definition CommitAtIndex (G : list (list Z)) (value rand : list Z) (i : nat) : res (list Z) :=
  let* g := index G i in
  let* h := index G PedersenRandomnessIndex in
  Ok (Point_AddPedersen value g rand h).
End point.

(** ** Keys as integers *)

Lemma key_of_ok z : key_ok (key_of z).
Proof.
  unfold key_ok, key_of. rewrite length_reverse, length_be_bytes. split; [done|].
  unfold bytes_ok. rewrite Forall_reverse. apply be_bytes_ok.
Qed.

Lemma key_val_bound k : key_ok k -> 0 <= key_val k < 2 ^ 256.
Proof.
  intros [Hl Hb]. unfold key_val.
  pose proof (of_digits_bound 256 ltac:(lia) (reverse k)) as B.
  rewrite Forall_reverse, length_reverse, Hl in B. by apply B.
Qed.

Lemma key_val_of z : 0 <= z < 2 ^ 256 -> key_val (key_of z) = z.
Proof.
  intros Hz. unfold key_val, key_of. rewrite reverse_involutive, of_digits_be_bytes.
  by apply Z.mod_small.
Qed.

Lemma key_of_val k : key_ok k -> key_of (key_val k) = k.
Proof.
  intros [Hl Hb]. unfold key_of, key_val. rewrite <- Hl, <- length_reverse.
  rewrite be_bytes_of_digits by (unfold bytes_ok; by rewrite Forall_reverse).
  apply reverse_involutive.
Qed.

Lemma key_val_inj a b : key_ok a -> key_ok b -> key_val a = key_val b -> a = b.
Proof. intros Ha Hb E. by rewrite <- (key_of_val a Ha), E, (key_of_val b Hb). Qed.

Lemma order_pos : 0 < order < 2 ^ 253.
Proof. by vm_compute. Qed.

Lemma sc_ok_of z : 0 <= z < order -> sc_ok (key_of z).
Proof.
  intros Hz. pose proof order_pos. split; [apply key_of_ok|].
  rewrite key_val_of; lia.
Qed.

Lemma sc_ok_mod z : sc_ok (key_of (z mod order)).
Proof. apply sc_ok_of, Z.mod_pos_bound, order_pos. Qed.

Lemma key_val_mod z : key_val (key_of (z mod order)) = z mod order.
Proof.
  pose proof order_pos. pose proof (Z.mod_pos_bound z order). apply key_val_of. lia.
Qed.

Lemma sc_ok_bound a : sc_ok a -> 0 <= key_val a < order.
Proof. intros [Hk Hv]. pose proof (key_val_bound a Hk). lia. Qed.

Lemma key_val_L : key_val L = order.
Proof. by vm_compute. Qed.

Lemma Reverse_reverse k : length k = 32%nat -> Reverse k = reverse k.
Proof.
  intros Hl. unfold Reverse. rewrite Hl. exact (swap_loop_rev k Hl).
Qed.

Lemma Reverse_val k : key_ok k -> bigint_set_bytes (Reverse k) = key_val k.
Proof. intros [Hl _]. by rewrite Reverse_reverse. Qed.

#[export] Hint Resolve key_of_ok sc_ok_mod : bytes.

(** ** Validity of scalars *)

Fixpoint le_val (base : Z) (l : list Z) : Z :=
  match l with [] => 0 | x :: l' => x + base * le_val base l' end.

Fixpoint sign_sum (c s : list Z) : Z :=
  match c, s with
  | x :: c', y :: s' => Z.sgn (x - y) + 2 * sign_sum c' s'
  | _, _ => 0
  end.

Lemma sign_sum_spec base c : forall s, 2 <= base ->
  Forall (is_digit base) c -> Forall (is_digit base) s -> length c = length s ->
  Z.sgn (sign_sum c s) = Z.sgn (le_val base c - le_val base s) /\
  - 2 ^ Z.of_nat (length c) < sign_sum c s < 2 ^ Z.of_nat (length c).
Proof.
  induction c as [|x c IH]; intros [|y s] Hb Hc Hs Hl; try discriminate Hl; [done|].
  apply Forall_cons in Hc as [Hx Hc]. apply Forall_cons in Hs as [Hy Hs].
  injection Hl as Hl. destruct (IH s Hb Hc Hs Hl) as [E B].
  unfold is_digit in Hx, Hy. cbn [sign_sum le_val length].
  rewrite Nat2Z.inj_succ, Z.pow_succ_r by lia.
  set (t := sign_sum c s) in *. set (u := le_val base c) in *. set (v := le_val base s) in *.
  destruct (Z.sgn_spec (x - y)) as [[? ->]|[[? ->]|[? ->]]]; (split; [|lia]);
  destruct (Z.sgn_spec t) as [[? E1]|[[? E1]|[? E1]]]; rewrite E1 in E;
  destruct (Z.sgn_spec (u - v)) as [[? E2]|[[? E2]|[? E2]]]; rewrite E2 in E; try discriminate E;
  match goal with |- Z.sgn ?a = Z.sgn ?b =>
    assert ((0 < a /\ 0 < b) \/ (a = 0 /\ b = 0) \/ (a < 0 /\ b < 0)) as [[]|[[]|[]]] by nia;
    [by rewrite !Z.sgn_pos by lia|by replace a with 0; replace b with 0|by rewrite !Z.sgn_neg by lia]
  end.
Qed.

Lemma signum_sgn a : - 2 ^ 62 <= a <= 2 ^ 62 -> signum a = Z.sgn a.
Proof.
  intros Ha. unfold signum. rewrite !Z.shiftr_div_pow2 by lia.
  destruct (Z.sgn_spec a) as [[? ->]|[[? ->]|[? ->]]].
  - rewrite (Z.div_small a) by lia. 
    replace (- a / 2 ^ 63) with (-1); [done|]. apply (Z.div_unique (-a) (2^63) (-1) (2^63 - a)); lia.
  - subst a. done.
  - rewrite (Z.div_small (- a)) by lia.
    replace (a / 2 ^ 63) with (-1); [done|]. apply (Z.div_unique a (2^63) (-1) (2^63 + a)); lia.
Qed.

Definition limbs32 (k : list Z) : list Z :=
  map (fun i => load4 (drop (4 * i) k)) (seq 0 8).

Lemma key_limbs k : key_ok k ->
  Forall (is_digit (2 ^ 32)) (limbs32 k) /\ le_val (2 ^ 32) (limbs32 k) = key_val k.
Proof.
  intros [Hl Hb]. unfold limbs32, key_val, Ed25519KeySize in *.
  do 32 (destruct k as [|? k]; [discriminate Hl|]). destruct k; [|discriminate Hl].
  unfold bytes_ok in Hb. rewrite !Forall_cons in Hb. unfold is_byte in Hb. split.
  - repeat constructor; cbn [load4 drop Nat.mul Nat.add]; lia.
  - change (reverse ?l) with (rev_append l []). cbn [rev_append]. unfold of_digits.
    cbn [fold_left map seq le_val drop load4 Nat.mul Nat.add]. lia.
Qed.

(** The constants of [ScValid] are the limbs of the order minus one. *)
Definition Lm1 : list Z := key_of (order - 1).

Lemma Lm1_ok : key_ok Lm1 /\ key_val Lm1 = order - 1.
Proof. split; [apply key_of_ok|by vm_compute]. Qed.

Lemma Lm1_limbs : limbs32 Lm1 =
  [1559614444; 1477600026; 2734136534; 350157278; 0; 0; 0; 268435456].
Proof. by vm_compute. Qed.

(** [ScValid] accepts exactly the integers below the curve order. *)
Lemma ScValid_spec k : key_ok k -> ScValid k = (key_val k <? order).
Proof.
  intros Hk. destruct (key_limbs k Hk) as [Hd Hv].
  destruct Lm1_ok as [HL HvL0]. destruct (key_limbs Lm1 HL) as [HdL HvL].
  assert (ScValid k = (Z.shiftr (sign_sum (limbs32 Lm1) (limbs32 k)) 8 =? 0)) as ->.
  { rewrite Lm1_limbs. unfold ScValid. f_equal. f_equal.
    unfold limbs32 in *. cbn [map seq Nat.mul Nat.add] in *.
    rewrite !Forall_cons in Hd. unfold is_digit in Hd.
    destruct Hd as (H0 & H1 & H2 & H3 & H4 & H5 & H6 & H7 & _).
    change (drop 0 k) with k in *. rewrite !signum_sgn by lia.
    rewrite !Z.shiftl_mul_pow2 by lia. cbn [sign_sum].
    repeat match goal with |- context [0 - ?x] => replace (0 - x) with (- x) by lia end.
    ring. }
  destruct (sign_sum_spec (2 ^ 32) (limbs32 Lm1) (limbs32 k) ltac:(lia) HdL Hd eq_refl) as [E B].
  rewrite Hv, HvL, HvL0 in E. change (2 ^ Z.of_nat (length (limbs32 Lm1))) with 256 in B.
  set (t := sign_sum (limbs32 Lm1) (limbs32 k)) in *. clearbody t.
  rewrite Z.shiftr_div_pow2 by lia. change (2 ^ 8) with 256.
  destruct (Z.ltb_spec (key_val k) order) as [Hle|Hgt].
  - apply Z.eqb_eq. apply Z.div_small. split; [|lia].
    destruct (Z.sgn_spec t) as [[? E1]|[[? E1]|[? E1]]]; [lia..|].
    rewrite E1 in E. symmetry in E. apply Z.sgn_neg_iff in E. lia.
  - apply Z.eqb_neq. intros H0. rewrite (Z.sgn_neg (_ - _)) in E by lia. apply Z.sgn_neg_iff in E.
    assert (t / 256 < 0) by (apply Z.div_lt_upper_bound; lia). lia.
Qed.

Lemma sc_ok_valid k : sc_ok k -> ScValid k = true.
Proof. intros [Hk Hv]. rewrite ScValid_spec by done. by apply Z.ltb_lt. Qed.

Lemma or_bytes_spec_aux s : forall acc, is_byte acc -> bytes_ok s ->
  is_byte (fold_left Z.lor s acc) /\
  (fold_left Z.lor s acc = 0 <-> acc = 0 /\ Forall (fun x => x = 0) s).
Proof.
  induction s as [|x s IH]; intros acc Ha Hs; simpl.
  - split; [done|]. split; [by intros ->|by intros []].
  - apply Forall_cons in Hs as [Hx Hs].
    assert (is_byte (Z.lor acc x)) as Hor.
    { unfold is_byte in *. split; [by apply Z.lor_nonneg; lia|].
      destruct (Z.eq_dec (Z.lor acc x) 0) as [->|]; [lia|].
      apply Z.log2_lt_pow2 with (b := 8); [|rewrite Z.log2_lor by lia].
      - assert (0 <= Z.lor acc x) by (apply Z.lor_nonneg; lia). lia.
      - assert (forall y, 0 <= y < 256 -> Z.log2 y < 8) as Hlog.
        { intros y Hy. destruct (Z.eq_dec y 0) as [->|]; [done|].
          apply Z.log2_lt_pow2; lia. }
        apply Z.max_lub_lt; by apply Hlog. }
    destruct (IH (Z.lor acc x) Hor Hs) as [H1 H2]. split; [done|].
    rewrite H2, Forall_cons, Z.lor_eq_0_iff. tauto.
Qed.

Lemma or_bytes_zero s : bytes_ok s ->
  0 <= or_bytes s < 256 /\ (or_bytes s = 0 <-> s = replicate (length s) 0).
Proof.
  intros Hs. destruct (or_bytes_spec_aux s 0 ltac:(unfold is_byte; lia) Hs) as [H1 H2].
  split; [done|]. unfold or_bytes. rewrite H2. split.
  - intros [_ H]. symmetry. apply replicate_as_elem_of. split; [done|].
    intros x Hx. rewrite Forall_forall in H. auto.
  - intros ->. split; [done|]. by apply Forall_replicate.
Qed.

Lemma ScIsZero_spec s : bytes_ok s ->
  ScIsZero s = bool_decide (s = replicate (length s) 0) /\ Scalar_IsOne s = negb (ScIsZero s).
Proof.
  intros Hs. destruct (or_bytes_zero s Hs) as [Hb H0]. unfold ScIsZero, Scalar_IsOne.
  rewrite Z.shiftr_div_pow2 by lia. change (2 ^ 8) with 256.
  destruct (Z.eq_dec (or_bytes s) 0) as [E|E].
  - rewrite E. rewrite bool_decide_true by by apply H0. done.
  - rewrite Z.div_small by lia. rewrite bool_decide_false by (by intros ?%H0). done.
Qed.

(** ** Conversions to and from [uint64] *)

Lemma land_255 v : Z.land v 0xff = v mod 256.
Proof. change 0xff with (Z.ones 8). by rewrite Z.land_ones. Qed.

Lemma d2h_loop_ok fuel : forall i v pre,
  (i = length pre)%nat -> 0 <= v < 256 ^ Z.of_nat (fuel - 1) -> (1 <= fuel)%nat ->
  (i + fuel <= 33)%nat ->
  d2h_loop fuel i v (pre ++ replicate (32 - i) 0) =
  Ok (pre ++ reverse (be_bytes (32 - i) v)).
Proof.
  induction fuel as [|fuel IH]; intros i v pre Hi Hv Hf Hs; [lia|]. cbn [d2h_loop].
  assert (forall n, reverse (be_bytes n 0) = replicate n 0) as Hz.
  { induction n as [|n IHn]; [done|]. cbn [be_bytes]. rewrite reverse_snoc.
    simpl. f_equal. exact IHn. }
  destruct (Z.ltb_spec 0 v) as [Hpos|Hneg].
  2: { replace v with 0 by lia. by rewrite Hz. }
  replace (S fuel - 1)%nat with fuel in Hv by lia.
  destruct fuel as [|fuel]; [simpl in Hv; lia|].
  rewrite length_app, length_replicate.
  destruct (Nat.leb_spec (length pre + (32 - i)) i); [lia|].
  destruct (32 - i)%nat as [|m] eqn:Em; [lia|]. cbn [replicate].
  rewrite insert_app_r_alt by lia. rewrite Hi, Nat.sub_diag. cbn [list_insert insert].
  change (pre ++ Z.land v 255 :: replicate m 0) with (pre ++ [Z.land v 255] ++ replicate m 0).
  rewrite app_assoc. replace m with (32 - S i)%nat by lia. subst i.
  rewrite (IH (S (length pre))); [|rewrite length_app; simpl; lia| |lia|lia].
  - rewrite <- app_assoc. do 2 f_equal.
    replace (S (32 - S (length pre))) with (S m) by lia.
    cbn [be_bytes]. rewrite reverse_snoc, land_255. simpl. do 2 f_equal. f_equal. lia.
  - rewrite Nat2Z.inj_succ, Z.pow_succ_r in Hv by lia.
    replace (S fuel - 1)%nat with fuel by lia.
    split; [apply Z.div_pos; lia|apply Z.div_lt_upper_bound; lia].
Qed.

Lemma d2h_ok v : is_u64 v -> d2h v = Ok (key_of v).
Proof. intros Hv. apply (d2h_loop_ok 9 0 v []); [done| |lia..]. exact Hv. Qed.

Lemma FromUint64_ok v : is_u64 v -> Scalar_FromUint64 v = Ok (key_of v) /\ sc_ok (key_of v).
Proof.
  intros Hv. assert (0 <= v < order) as Ho.
  { unfold is_u64 in Hv. assert (2 ^ 64 < order) by by vm_compute. lia. }
  pose proof (sc_ok_of v Ho) as Hs. split; [|done].
  unfold Scalar_FromUint64. rewrite d2h_ok by done. cbn [res_bind].
  unfold Scalar_SetKey. by rewrite sc_ok_valid.
Qed.

Lemma ToUint64Little_ok k : key_ok k -> Scalar_ToUint64Little k = key_val k mod 2 ^ 64.
Proof. intros Hk. unfold Scalar_ToUint64Little. by rewrite Reverse_val. Qed.

(** ** Comparison *)

Lemma compare_loop_ok i a b : key_ok a -> key_ok b -> (i <= 32)%nat ->
  compare_loop i a b =
  Ok (Z.sgn (of_digits 256 (reverse (take i a)) - of_digits 256 (reverse (take i b)))).
Proof.
  intros [Ha Ba] [Hb Bb]. unfold Ed25519KeySize in *. induction i as [|i IH]; intros Hi; [done|].
  cbn [compare_loop].
  destruct (index_safe a i) as (x & -> & Lx); [lia|].
  destruct (index_safe b i) as (y & -> & Ly); [lia|]. cbn [res_bind].
  rewrite (take_S_r a i x Lx), (take_S_r b i y Ly), !reverse_snoc, !of_digits_cons.
  rewrite !length_reverse, !length_take, Ha, Hb.
  assert (forall l, bytes_ok l -> length l = 32%nat ->
    0 <= of_digits 256 (reverse (take i l)) < 256 ^ Z.of_nat i) as Hbd.
  { intros l Hl Hll. pose proof (of_digits_bound 256 ltac:(lia) (reverse (take i l))) as B.
    rewrite Forall_reverse, length_reverse, length_take, Hll in B.
    rewrite Nat.min_l in B by lia. apply B. by apply Forall_take. }
  pose proof (Hbd a Ba Ha). pose proof (Hbd b Bb Hb). rewrite Nat.min_l by lia.
  set (u := of_digits 256 (reverse (take i a))) in *.
  set (v := of_digits 256 (reverse (take i b))) in *.
  set (p := 256 ^ Z.of_nat i) in *.
  destruct (Z.ltb_spec y x); [rewrite Z.sgn_pos by nia; done|].
  destruct (Z.ltb_spec x y); [rewrite Z.sgn_neg by nia; done|].
  rewrite IH by lia. replace y with x by lia. do 2 f_equal. lia.
Qed.

Lemma Compare_ok a b : key_ok a -> key_ok b ->
  Compare a b = Ok (Z.sgn (key_val a - key_val b)).
Proof.
  intros Ha Hb. unfold Compare, key_val.
  rewrite compare_loop_ok by (try done; unfold Ed25519KeySize; lia).
  destruct Ha as [Ha _], Hb as [Hb _]. by rewrite !take_ge by lia.
Qed.

(** ** Modular inverse *)

Lemma egcd_ok fuel : forall a b u v x n, 0 <= b -> 0 <= a ->
  b < 2 ^ Z.of_nat (fuel / 2) -> (1 <= fuel)%nat -> b <= a ->
  (n | u * x - a) -> (n | v * x - b) ->
  exists u', egcd fuel a b u v = Some (Z.gcd a b, u') /\ (n | u' * x - Z.gcd a b).
Proof.
  induction fuel as [fuel IH] using lt_wf_ind. intros a b u v x n Hb Ha Hlt Hf Hba Hu Hv.
  destruct fuel as [|fuel]; [lia|]. cbn [egcd].
  destruct (Z.eqb_spec b 0) as [->|Hb0].
  { exists u. by rewrite Z.gcd_0_r, Z.abs_eq. }
  destruct fuel as [|fuel]; [simpl in Hlt; lia|]. cbn [egcd].
  assert (forall a b u v, (n | u * x - a) -> (n | v * x - b) ->
            (n | (u - a / b * v) * x - a mod b)) as Hstep.
  { intros a' b' u' v' Hu' Hv'. destruct (Z.eq_dec b' 0) as [->|].
    { rewrite Z.div_0_r, Z.mod_0_r. by replace ((u' - 0 * v') * x - a') with (u' * x - a') by lia. }
    rewrite Z.mod_eq by done.
    replace ((u' - a' / b' * v') * x - (a' - b' * (a' / b')))
      with ((u' * x - a') + (- (a' / b')) * (v' * x - b')) by ring.
    apply Z.divide_add_r; [done|]. by apply Z.divide_mul_r. }
  pose proof (Hstep a b u v Hu Hv) as H1.
  pose proof (Z.mod_pos_bound a b ltac:(lia)) as Hm1.
  rewrite (Z.gcd_comm a b), <- (Z.gcd_mod a b) by done.
  destruct (Z.eqb_spec (a mod b) 0) as [E|E].
  { exists v. rewrite E, Z.gcd_0_l, Z.abs_eq by lia. done. }
  set (r := a mod b) in *. pose proof (Hstep b r v _ Hv H1) as H2.
  pose proof (Z.mod_pos_bound b r ltac:(lia)) as Hm2.
  assert (2 * (b mod r) < b) as Hhalf.
  { pose proof (Z.div_mod b r ltac:(lia)). pose proof (Z.div_pos b r ltac:(lia) ltac:(lia)).
    assert (1 <= b / r) by (apply Z.div_le_lower_bound; lia). nia. }
  destruct fuel as [|fuel].
  { simpl in Hlt. lia. }
  change (S (S (S fuel))) with (1 * 2 + S fuel)%nat in Hlt.
  rewrite Nat.div_add_l, Nat2Z.inj_add, Z.pow_add_r in Hlt by lia.
  destruct (IH (S fuel) ltac:(lia) r (b mod r) (u - a / b * v)
    (v - b / r * (u - a / b * v)) x n) as (u' & Eu & Du);
    [lia|lia|lia|lia|lia|exact H1|exact H2|].
  rewrite (Z.gcd_comm r), Z.gcd_mod in Eu, Du by lia. by exists u'.
Qed.

Lemma mod_inverse_ok x n : 1 < n ->
  match mod_inverse x n with
  | Some i => 0 <= i < n /\ (i * x) mod n = 1
  | None => Z.gcd x n <> 1
  end.
Proof.
  intros Hn. unfold mod_inverse.
  pose proof (Z.mod_pos_bound x n ltac:(lia)) as Hm.
  destruct (egcd_ok (egcd_fuel n) n (x mod n) 0 1 x n) as (u & E & D); try lia.
  - unfold egcd_fuel. rewrite Nat.mul_comm, Nat.div_add_l by lia. simpl (1 / 2)%nat.
    rewrite Nat.add_0_r, Nat2Z.inj_succ, Z2Nat.id by apply Z.log2_nonneg.
    pose proof (Z.log2_spec n ltac:(lia)). lia.
  - unfold egcd_fuel. lia.
  - exists (-1). lia.
  - exists (x / n). rewrite Z.mod_eq by lia. ring.
  - assert (Z.gcd n (x mod n) = Z.gcd x n) as Eg
      by (rewrite (Z.gcd_comm n), Z.gcd_mod by lia; apply Z.gcd_comm).
    rewrite Eg in E, D. rewrite E.
    destruct (Z.eqb_spec (Z.gcd x n) 1) as [Hg|]; [|done]. rewrite Hg in D.
    split; [apply Z.mod_pos_bound; lia|]. rewrite Z.mul_mod_idemp_l by lia.
    destruct D as [k D]. replace (u * x) with (1 + k * n) by lia.
    rewrite Z.mod_add by lia. apply Z.mod_small. lia.
Qed.

Lemma Scalar_Invert_ok k : key_ok k ->
  Scalar_Invert k = Ok (key_of (match mod_inverse (key_val k) order with Some i => i | None => 0 end)).
Proof.
  intros Hk. unfold Scalar_Invert. rewrite Reverse_val by done.
  replace (bigint_set_bytes (Reverse L)) with order by by vm_compute.
  pose proof order_pos as Ho.
  pose proof (mod_inverse_ok (key_val k) order) as Hi.
  set (z := match mod_inverse (key_val k) order with Some z => z | None => 0 end).
  assert (0 <= z < order) as Hz.
  { unfold z. destruct (mod_inverse (key_val k) order); [|lia]. apply Hi.
    assert (1 < order) by by vm_compute. lia. }
  unfold bigint_bytes. rewrite Z.abs_eq by lia.
  destruct (to_digits_spec 256 ltac:(lia) z ltac:(lia)) as (Hv & Hd & Hc).
  assert (length (to_digits 256 z) <= 32)%nat as Hl.
  { apply to_digits_length; [lia|]. change (256 ^ Z.of_nat 32) with (2 ^ 256). lia. }
  destruct (Nat.ltb_spec Ed25519KeySize (length (to_digits 256 z)));
    [unfold Ed25519KeySize in *; lia|]. f_equal.
  unfold copy_to_array, key_of, Ed25519KeySize. rewrite length_reverse.
  rewrite take_ge by (rewrite length_reverse; lia).
  apply (inj reverse). rewrite reverse_app, !reverse_involutive, reverse_replicate.
  apply (of_digits_inj 256); [lia| |apply be_bytes_ok| |].
  - apply Forall_app. split; [|done]. apply Forall_replicate. unfold is_digit. lia.
  - rewrite length_app, length_replicate, length_be_bytes. lia.
  - rewrite of_digits_replicate, of_digits_be_bytes, Hv, Z.mod_small; [done|].
    change (256 ^ Z.of_nat 32) with (2 ^ 256). lia.
Qed.

(** ** Arithmetic and commitments, from the laws of the curve *)

Section laws.
Context `{CL : CurveLaws} `{DL : DigestLaws}.

Lemma ScAdd_ok a b : sc_ok a -> sc_ok b ->
  sc_ok (ScAdd a b) /\ key_val (ScAdd a b) = (key_val a + key_val b) mod order.
Proof using Type*. intros. rewrite ScAdd_spec by done. split; [apply sc_ok_mod|apply key_val_mod]. Qed.

Lemma ScSub_ok a b : sc_ok a -> sc_ok b ->
  sc_ok (ScSub a b) /\ key_val (ScSub a b) = (key_val a - key_val b) mod order.
Proof using Type*. intros. rewrite ScSub_spec by done. split; [apply sc_ok_mod|apply key_val_mod]. Qed.

Lemma ScMul_ok a b : sc_ok a -> sc_ok b ->
  sc_ok (ScMul a b) /\ key_val (ScMul a b) = (key_val a * key_val b) mod order.
Proof using Type*. intros. rewrite ScMul_spec by done. split; [apply sc_ok_mod|apply key_val_mod]. Qed.

Lemma ScReduce32_ok a : key_ok a ->
  sc_ok (ScReduce32 a) /\ key_val (ScReduce32 a) = key_val a mod order.
Proof using Type*. intros. rewrite ScReduce32_spec by done. split; [apply sc_ok_mod|apply key_val_mod]. Qed.

Lemma sc_eq a b : sc_ok a -> sc_ok b -> key_val a = key_val b -> a = b.
Proof using Type. intros [Ha _] [Hb _]. by apply key_val_inj. Qed.

Lemma ScAdd_ScSub a b : sc_ok a -> sc_ok b -> ScAdd (ScSub a b) b = a.
Proof using Type*.
  intros Ha Hb. destruct (ScSub_ok a b Ha Hb) as [Hs Vs].
  destruct (ScAdd_ok _ b Hs Hb) as [Hr Vr].
  apply sc_eq; [done..|]. rewrite Vr, Vs. pose proof order_pos.
  rewrite Z.add_mod_idemp_l by lia. rewrite Z.sub_add. by apply Z.mod_small, sc_ok_bound.
Qed.

Lemma ScSub_ScAdd a b : sc_ok a -> sc_ok b -> ScSub (ScAdd a b) b = a.
Proof using Type*.
  intros Ha Hb. destruct (ScAdd_ok a b Ha Hb) as [Hs Vs].
  destruct (ScSub_ok _ b Hs Hb) as [Hr Vr].
  apply sc_eq; [done..|]. rewrite Vr, Vs. pose proof order_pos.
  rewrite Zminus_mod_idemp_l, Z.add_simpl_r. by apply Z.mod_small, sc_ok_bound.
Qed.

Lemma HashToScalar_ok msg : bytes_ok msg ->
  exists s, HashToScalar msg = Some s /\ s = key_HashToScalar msg /\ sc_ok s.
Proof using Type*.
  intros _. unfold HashToScalar, key_HashToScalar, Scalar_SetKey.
  assert (sc_ok (ScReduce32 (Keccak256Hash [msg]))) as Hs.
  { apply ScReduce32_ok. destruct (keccak_ok (fold_left (fun d b => d ++ b) [msg] [])). done. }
  rewrite sc_ok_valid by done. eauto.
Qed.

Lemma HashToPoint_ok b : exists p, HashToPoint b = Some p /\ pt_ok p.
Proof using Type*.
  unfold HashToPoint, Point_SetKey.
  assert (pt_ok (key_HashToPoint (Keccak256Hash [b]))) as Hp.
  { apply pt_hash. destruct (keccak_ok (fold_left (fun d b => d ++ b) [b] [])). done. }
  rewrite (proj2 (pt_key _ Hp)). eauto.
Qed.

Lemma exp_loop_ok n : forall r a, sc_ok r -> sc_ok a ->
  sc_ok (exp_loop n r a) /\
  key_val (exp_loop n r a) = (key_val r * key_val a ^ Z.of_nat n) mod order.
Proof using Type*.
  induction n as [|n IH]; intros r a Hr Ha.
  - simpl. split; [done|]. rewrite Z.mul_1_r. symmetry. by apply Z.mod_small, sc_ok_bound.
  - destruct (ScMul_ok r a Hr Ha) as [H1 H2]. destruct (IH _ a H1 Ha) as [H3 H4].
    cbn [exp_loop]. split; [done|]. rewrite H4, H2, Z.mul_mod_idemp_l by (pose proof order_pos; lia).
    rewrite Nat2Z.inj_succ, Z.pow_succ_r by lia. f_equal. ring.
Qed.

Lemma add_swap p q r s : pt_ok p -> pt_ok q -> pt_ok r -> pt_ok s ->
  AddKeys (AddKeys p q) (AddKeys r s) = AddKeys (AddKeys p r) (AddKeys q s).
Proof using Type*.
  intros. rewrite <- !add_assoc by auto using pt_add. f_equal.
  rewrite !add_assoc by auto using pt_add. f_equal. by apply add_comm.
Qed.

Lemma pedersen_pt a p b q : sc_ok a -> pt_ok p -> sc_ok b -> pt_ok q ->
  pt_ok (AddKeys3_3 a p b q).
Proof using Type*. intros. rewrite add_pedersen by done. auto using pt_add, pt_mult. Qed.

(** Adding commitments adds the values and the randomness. *)
Lemma pedersen_add a a' b b' p q :
  sc_ok a -> sc_ok a' -> sc_ok b -> sc_ok b' -> pt_ok p -> pt_ok q ->
  AddKeys3_3 (ScAdd a a') p (ScAdd b b') q = AddKeys (AddKeys3_3 a p b q) (AddKeys3_3 a' p b' q).
Proof using Type*.
  intros. rewrite !add_pedersen by (try done; by apply ScAdd_ok).
  rewrite !mult_add by done. apply add_swap; by apply pt_mult.
Qed.

Lemma commit_fold_add gs : forall os os' acc acc',
  Forall pt_ok gs -> Forall sc_ok os -> Forall sc_ok os' ->
  length os = length gs -> length os' = length gs -> pt_ok acc -> pt_ok acc' ->
  let f := fun c (go : list Z * list Z) => Point_Add c (Point_ScalarMult (fst go) (snd go)) in
  fold_left f (zip gs (zip_with ScAdd os os')) (AddKeys acc acc') =
  AddKeys (fold_left f (zip gs os) acc) (fold_left f (zip gs os') acc').
Proof using Type*.
  induction gs as [|g gs IH]; intros os os' acc acc' Hg Ho Ho' Hl Hl' Ha Ha' f.
  - destruct os, os'; try done.
  - destruct os as [|o os], os' as [|o' os']; try done.
    apply Forall_cons in Hg as [Hg Hgs]. apply Forall_cons in Ho as [Ho Hos].
    apply Forall_cons in Ho' as [Ho' Hos']. injection Hl as Hl. injection Hl' as Hl'.
    simpl. unfold f at 2 4 6. unfold Point_Add, Point_ScalarMult. simpl.
    rewrite mult_add, add_swap by auto using pt_mult.
    apply IH; auto using pt_add, pt_mult.
Qed.

Lemma CommitAll_add G os os' : Forall pt_ok G -> (1 <= length G)%nat ->
  Forall sc_ok os -> Forall sc_ok os' -> length os = length G -> length os' = length G ->
  exists c c', CommitAll G os = Ok c /\ CommitAll G os' = Ok c' /\
    CommitAll G (zip_with ScAdd os os') = Ok (AddKeys c c').
Proof using Type*.
  intros HG Hn Ho Ho' Hl Hl'. unfold CommitAll.
  rewrite length_zip_with, Hl, Hl', Nat.min_id, Nat.eqb_refl. cbn [negb].
  destruct G as [|g G]; [simpl in Hn; lia|].
  destruct os as [|o os], os' as [|o' os']; try done.
  apply Forall_cons in HG as [Hg HG]. apply Forall_cons in Ho as [Ho Hos].
  apply Forall_cons in Ho' as [Ho' Hos']. injection Hl as Hl. injection Hl' as Hl'.
  unfold index. cbn [lookup list_lookup res_bind zip_with drop].
  eexists _, _. split; [done|]. split; [done|]. f_equal.
  unfold Point_ScalarMult at 2. rewrite mult_add by done. rewrite !drop_0.
  apply commit_fold_add; auto using pt_mult.
Qed.
End laws.

#[local] Existing Instances toy_digests toy_digest_laws.

(** ** A curve for the concrete examples

    The additive group of integers modulo [order], the integer [n] being
    encoded as the key of [n + 1], so that the identity is encoded as the code
    expects. *)

Definition toy_enc (n : Z) : list Z := key_of (n mod order + 1).
Definition toy_dec (p : list Z) : Z := key_val p - 1.
Definition toy_ok (p : list Z) : Prop := key_ok p /\ 0 <= toy_dec p < order.
Definition toy_gbase : Z := (key_val GBASE - 1) mod order.

(** The base point is reduced into the group: its encoding is the one of the
    code, which is above [order]; [toy_read] undoes that. *)
Definition toy_read (p : list Z) : Z :=
  if bool_decide (p = GBASE) then toy_gbase else toy_dec p.
Definition toy_write (n : Z) : list Z :=
  if n mod order =? toy_gbase then GBASE else toy_enc n.
Definition toy_pt (p : list Z) : Prop := exists n, p = toy_write n.

#[local] Instance toy_curve : CurveOps := {
  ScAdd a b := key_of ((key_val a + key_val b) mod order);
  ScSub a b := key_of ((key_val a - key_val b) mod order);
  ScMul a b := key_of ((key_val a * key_val b) mod order);
  ScMulAdd a b c := key_of ((key_val a * key_val b + key_val c) mod order);
  ScReduce32 a := key_of (key_val a mod order);
  ge_frombytes p := bool_decide (length p = 32%nat) &&
    (bool_decide (p = GBASE) || ((0 <=? toy_dec p) && (toy_dec p <? order)));
  GeScalarMultBase a := toy_write (toy_gbase * key_val a);
  ScalarMultKey p a := toy_write (toy_read p * key_val a);
  AddKeys p q := toy_write (toy_read p + toy_read q);
  SubKeys p q := toy_write (toy_read p - toy_read q);
  AddKeys3_3 a p b q := toy_write (toy_read p * key_val a + toy_read q * key_val b);
  MultiScalarMultKey ps ss :=
    toy_write (foldr (fun pa acc => toy_read (fst pa) * key_val (snd pa) + acc) 0 (zip ps ss));
  key_HashToPoint k := toy_write (key_val k);
  pt_ok := toy_pt
}.

Lemma toy_read_write n : toy_read (toy_write n) = n mod order.
Proof.
  unfold toy_read, toy_write. destruct (Z.eqb_spec (n mod order) toy_gbase) as [E|E].
  - by rewrite bool_decide_true.
  - rewrite bool_decide_false.
    + unfold toy_dec, toy_enc. pose proof order_pos.
      pose proof (Z.mod_pos_bound n order). rewrite key_val_of by lia. lia.
    + intros Hg. apply (f_equal key_val) in Hg. unfold toy_enc in Hg.
      pose proof order_pos. pose proof (Z.mod_pos_bound n order).
      rewrite key_val_of in Hg by lia.
      assert (order + 1 < key_val GBASE) by by vm_compute. lia.
Qed.

Lemma toy_write_mod n m : n mod order = m mod order -> toy_write n = toy_write m.
Proof. unfold toy_write, toy_enc. by intros ->. Qed.

Lemma toy_write_read n : toy_write (n mod order) = toy_write n.
Proof. apply toy_write_mod. by rewrite Z.mod_mod by (pose proof order_pos; lia). Qed.

Lemma toy_write_ok n : key_ok (toy_write n) /\ ge_frombytes (toy_write n) = true.
Proof.
  assert (key_ok (toy_write n)) as Hk.
  { unfold toy_write. case_match; [|apply key_of_ok]. split; [done|].
    unfold GBASE. constructor; [unfold is_byte; lia|].
    apply Forall_replicate. unfold is_byte. lia. }
  split; [done|]. simpl. rewrite bool_decide_true by apply Hk. simpl.
  unfold toy_write. case_match; [by rewrite bool_decide_true|].
  apply orb_true_iff. right. unfold toy_dec, toy_enc. pose proof order_pos.
  pose proof (Z.mod_pos_bound n order). rewrite key_val_of by lia.
  apply andb_true_iff. split; [apply Z.leb_le|apply Z.ltb_lt]; lia.
Qed.

Lemma toy_write_zero : toy_write 0 = Identity.
Proof. by vm_compute. Qed.

Lemma toy_write_gbase : toy_write toy_gbase = GBASE.
Proof. by vm_compute. Qed.

Lemma toy_mult_add x a b :
  toy_write (x mod order * ((a + b) mod order)) =
  toy_write ((x mod order * a) mod order + (x mod order * b) mod order).
Proof.
  apply toy_write_mod. pose proof order_pos.
  rewrite Z.mul_mod_idemp_r, <- Z.add_mod by lia. f_equal. ring.
Qed.

Lemma toy_mult_mul x a b :
  toy_write ((x mod order * a) mod order * b) = toy_write (x mod order * ((a * b) mod order)).
Proof.
  apply toy_write_mod. pose proof order_pos.
  rewrite Z.mul_mod_idemp_r, Z.mul_mod_idemp_l by lia. f_equal. ring.
Qed.

Lemma toy_multi ps ss :
  Forall toy_pt ps ->
  toy_write (foldr (fun pa acc => toy_read (fst pa) * key_val (snd pa) + acc) 0 (zip ps ss)) =
  foldr (fun pa acc => AddKeys (ScalarMultKey (fst pa) (snd pa)) acc) Identity (zip ps ss).
Proof.
  intros Hp. revert ss. induction Hp as [|p ps Hp Hps IH]; intros [|s ss]; try apply toy_write_zero.
  cbn [zip zip_with foldr fst snd]. rewrite <- IH. simpl. rewrite !toy_read_write.
  apply toy_write_mod. by rewrite <- Z.add_mod by (pose proof order_pos; lia).
Qed.

#[local] Instance toy_curve_laws : CurveLaws.
Proof.
  pose proof order_pos as Ho. constructor; intros; try done.
  - destruct H as [n ->]. apply toy_write_ok.
  - exists 0. by rewrite toy_write_zero.
  - exists toy_gbase. by rewrite toy_write_gbase.
  - by eexists.
  - by eexists.
  - by eexists.
  - simpl. f_equal. lia.
  - simpl. rewrite !toy_read_write. apply toy_write_mod.
    rewrite Z.add_mod_idemp_r, Z.add_mod_idemp_l by lia. f_equal. lia.
  - destruct H as [n ->]. rewrite <- toy_write_zero. simpl. rewrite !toy_read_write.
    rewrite (Z.mod_small 0), Z.add_0_r by lia. apply toy_write_read.
  - by eexists.
  - destruct H as [n ->], H0 as [m ->]. simpl. rewrite !toy_read_write. apply toy_write_mod.
    rewrite Z.add_mod_idemp_l by lia. by rewrite Z.sub_add, Z.mod_mod by lia.
  - destruct H as [n ->]. simpl. rewrite key_val_of by lia. by rewrite Z.mul_0_r, toy_write_zero.
  - destruct H as [n ->]. simpl. rewrite key_val_of, Z.mul_1_r, toy_read_write by lia.
    apply toy_write_read.
  - destruct H as [n ->]. simpl. rewrite !toy_read_write, key_val_mod. apply toy_mult_add.
  - destruct H as [n ->]. simpl. rewrite !toy_read_write, key_val_mod. apply toy_mult_mul.
  - destruct H as [n ->], H0 as [m ->]. simpl. rewrite !toy_read_write. apply toy_write_mod.
    rewrite <- (Z.add_mod (_ * _)), Z.mul_mod_idemp_l by lia. f_equal. ring.
  - destruct H0 as [n ->], H2 as [m ->]. simpl. rewrite !toy_read_write. apply toy_write_mod.
    by rewrite <- Z.add_mod by lia.
  - by apply toy_multi.
Qed.

Lemma IsZero_val k : key_ok k -> Scalar_IsZero (Some k) = (key_val k =? 0).
Proof.
  intros Hk. pose proof Hk as [Hl Hb]. simpl. rewrite (proj1 (ScIsZero_spec k Hb)), Hl.
  apply eq_true_iff_eq. rewrite bool_decide_eq_true, Z.eqb_eq. split; [by intros ->|].
  intros E. rewrite <- (key_of_val k) by done. by rewrite E.
Qed.

(** ** Properties *)

(** The tests on scalars: on every 32-byte key [ScalarValid] accepts exactly
    the integers below the curve order, [Compare] is the comparison of the
    integers and returns 0 exactly on equal keys, [IsZero] accepts exactly 0,
    and [SetKey] succeeds exactly on valid keys (the receiver being written in
    both cases). *)
Theorem scalar_tests k k' r : key_ok k -> key_ok k' ->
  ScValid k = (key_val k <? order) /\
  Compare k k' = Ok (Z.sgn (key_val k - key_val k')) /\
  (Compare k k' = Ok 0 <-> IsScalarEqual k k' = true) /\
  Scalar_IsZero (Some k) = (key_val k =? 0) /\
  Scalar_SetKey k r = (k, if key_val k <? order then Ok k else Err "invalid key value").
Proof.
  intros Hk Hk'. rewrite Compare_ok by done. split; [by apply ScValid_spec|].
  split; [done|]. split; [|split].
  - unfold IsScalarEqual. rewrite bool_decide_eq_true. split.
    + intros [= E%Z.sgn_null_iff]. apply key_val_inj; [done..|lia].
    + intros ->. by rewrite Z.sub_diag.
  - by apply IsZero_val.
  - unfold Scalar_SetKey. rewrite ScValid_spec by done. by destruct (_ <? _).
Qed.

Lemma scalar_tests_witness :
  ScValid L = false /\ Compare (key_of 256) (key_of 255) = Ok 1.
Proof.
  assert (key_ok L) as HL by (split; [done|repeat constructor; unfold is_byte; lia]).
  split.
  - apply (scalar_tests L L []); done.
  - apply (scalar_tests (key_of 256) (key_of 255) []); apply key_of_ok.
Defined.

(** [IsOne] does not test for 1: it answers [true] on every non-zero scalar
    (it repeats the body of [IsZero] with the test negated). *)
Theorem IsOne_is_nonzero k : key_ok k -> Scalar_IsOne k = negb (key_val k =? 0).
Proof.
  intros Hk. pose proof Hk as [Hl Hb]. destruct (ScIsZero_spec k Hb) as [Hz ->].
  rewrite Hz, Hl. f_equal. apply eq_true_iff_eq.
  rewrite bool_decide_eq_true, Z.eqb_eq. split; [by intros ->|].
  intros E. rewrite <- (key_of_val k) by done. by rewrite E.
Qed.

Lemma IsOne_is_nonzero_witness : Scalar_IsOne (key_of 2) = true.
Proof. apply (IsOne_is_nonzero (key_of 2)). apply key_of_ok. Defined.

(** [FromUint64] never fails, gives the reduced scalar of its argument, and
    [ToUint64Little] reads it back; of a larger scalar [ToUint64Little] gives
    the 64 low bits. *)
Theorem scalar_uint64_roundtrip v : is_u64 v ->
  exists k, Scalar_FromUint64 v = Ok k /\ sc_ok k /\ key_val k = v /\
    Scalar_ToUint64Little k = v /\
    (forall k', key_ok k' -> Scalar_ToUint64Little k' = key_val k' mod 2 ^ 64).
Proof.
  intros Hv. destruct (FromUint64_ok v Hv) as [E Hs]. unfold is_u64 in Hv.
  exists (key_of v). assert (key_val (key_of v) = v) as Hkv by (apply key_val_of; lia).
  split; [done|]. split; [done|]. split; [done|].
  split; [|by apply ToUint64Little_ok].
  rewrite ToUint64Little_ok by apply key_of_ok. rewrite Hkv. by apply Z.mod_small.
Qed.

Lemma scalar_uint64_roundtrip_witness : exists k,
  Scalar_FromUint64 18446744073709551615 = Ok k /\
  Scalar_ToUint64Little k = 18446744073709551615.
Proof.
  destruct (scalar_uint64_roundtrip 18446744073709551615) as (k & E & _ & _ & R & _).
  - unfold is_u64. lia.
  - exists k. split; assumption.
Defined.

Section curve_properties.
Context `{CL : CurveLaws} `{DL : DigestLaws}.

(** [Exp] computes the power for the exponents of [2, 2^63 + 2); for the
    exponents 0 and 1, and for the larger ones (negative as an [int]), it
    returns the square. *)
Theorem Exp_functional a v : sc_ok a -> is_u64 v ->
  sc_ok (Scalar_Exp a v) /\
  key_val (Scalar_Exp a v) =
    (if (2 <=? v) && (v <? 2 ^ 63 + 2) then key_val a ^ v else key_val a ^ 2) mod order.
Proof using Type*.
  intros Ha Hv. unfold is_u64 in Hv. unfold Scalar_Exp.
  destruct (ScMul_ok a a Ha Ha) as [Hsq Vsq].
  destruct (exp_loop_ok (Z.to_nat (i64 (i64 v - 2))) _ a Hsq Ha) as [Hr Vr].
  split; [done|]. rewrite Vr, Vsq, Z.mul_mod_idemp_l by (pose proof order_pos; lia).
  assert (i64 (i64 v - 2) = i64 (v - 2)) as ->.
  { unfold i64. f_equal.
    replace ((v + 2 ^ 63) mod 2 ^ 64 - 2 ^ 63 - 2 + 2 ^ 63)
      with ((v + 2 ^ 63) mod 2 ^ 64 - 2) by lia.
    rewrite Zminus_mod_idemp_l. f_equal. lia. }
  f_equal. unfold i64.
  destruct (Z.leb_spec 2 v); [destruct (Z.ltb_spec v (2 ^ 63 + 2))|]; cbn [andb].
  - rewrite Z.mod_small by lia. replace (v - 2 + 2 ^ 63 - 2 ^ 63) with (v - 2) by lia.
    rewrite Z2Nat.id by lia. replace v with (2 + (v - 2)) at 2 by lia.
    rewrite Z.pow_add_r by lia. ring.
  - rewrite <- (Z.mod_unique (v - 2 + 2 ^ 63) (2 ^ 64) 1 (v - 2 - 2 ^ 63)) by lia.
    replace (Z.to_nat (v - 2 - 2 ^ 63 - 2 ^ 63)) with 0%nat by lia. simpl Z.of_nat. lia.
  - rewrite Z.mod_small by lia.
    replace (Z.to_nat (v - 2 + 2 ^ 63 - 2 ^ 63)) with 0%nat by lia. simpl Z.of_nat. lia.
Qed.

(** [Invert] never panics; the inverse it returns is reduced, and its product
    with the argument is 1 when the argument is coprime to the curve order; of
    any other argument, 0 among them, the inverse is 0. *)
Theorem Invert_functional x : sc_ok x ->
  exists y, Scalar_Invert x = Ok y /\ sc_ok y /\
    (Z.gcd (key_val x) order = 1 -> ScMul y x = key_of 1) /\
    (Z.gcd (key_val x) order <> 1 -> y = key_of 0).
Proof using Type*.
  intros Hx. pose proof (Scalar_Invert_ok x (proj1 Hx)) as E.
  pose proof (mod_inverse_ok (key_val x) order ltac:(by vm_compute)) as Hi.
  destruct (mod_inverse (key_val x) order) as [i|].
  - destruct Hi as [Hb Hm]. eexists. split; [exact E|]. split; [by apply sc_ok_of|].
    split; [|intros Hg; exfalso; apply Hg].
    + intros _. rewrite ScMul_spec by (try done; by apply sc_ok_of).
      rewrite key_val_of by (pose proof order_pos; lia). by rewrite Hm.
    + apply Z.bezout_1_gcd. exists i, (- (i * key_val x / order)).
      pose proof (Z.div_mod (i * key_val x) order). pose proof order_pos. lia.
  - exists (key_of 0). split; [done|]. split; [apply sc_ok_of; pose proof order_pos; lia|].
    split; [by intros Hg|done].
Qed.

(** The commitments are homomorphic: committing to the sums of the openings,
    with [CommitAll] or with [CommitAtIndex], gives the sum of the
    commitments; [CommitAll] fails exactly on a wrong number of openings. *)
Theorem pedersen_homomorphic G os os' v v' r r' i :
  Forall pt_ok G -> length G = 5%nat -> (i < 5)%nat ->
  Forall sc_ok os -> Forall sc_ok os' -> length os = 5%nat -> length os' = 5%nat ->
  sc_ok v -> sc_ok v' -> sc_ok r -> sc_ok r' ->
  (exists c c', CommitAll G os = Ok c /\ CommitAll G os' = Ok c' /\
     CommitAll G (zip_with Scalar_Add os os') = Ok (Point_Add c c')) /\
  (exists c c', CommitAtIndex G v r i = Ok c /\ CommitAtIndex G v' r' i = Ok c' /\
     CommitAtIndex G (Scalar_Add v v') (Scalar_Add r r') i = Ok (Point_Add c c')) /\
  (forall ws, length ws <> 5%nat -> CommitAll G ws = Err "invalid length of openings to commit").
Proof using Type*.
  intros HG Hl Hi Hos Hos' Ho Ho' Hv Hv' Hr Hr'. split; [|split].
  - apply CommitAll_add; try done; lia.
  - unfold CommitAtIndex, PedersenRandomnessIndex.
    destruct (index_safe G i) as (g & -> & Lg); [lia|].
    destruct (index_safe G 4) as (h & -> & Lh); [lia|]. cbn [res_bind].
    eexists _, _. split; [done|]. split; [done|]. f_equal.
    apply pedersen_add; try done; by eapply Forall_lookup_1.
  - intros ws Hw. unfold CommitAll. rewrite Hl. by destruct (Nat.eqb_spec (length ws) 5).
Qed.
End curve_properties.

Lemma Exp_functional_witness :
  key_val (Scalar_Exp (key_of 3) 5) = 243 /\ key_val (Scalar_Exp (key_of 3) 1) = 9.
Proof.
  assert (sc_ok (key_of 3)) as H3 by (apply sc_ok_of; pose proof order_pos; split; [lia|by vm_compute]).
  split.
  - rewrite (proj2 (Exp_functional (key_of 3) 5 H3 ltac:(unfold is_u64; lia))). reflexivity.
  - rewrite (proj2 (Exp_functional (key_of 3) 1 H3 ltac:(unfold is_u64; lia))). reflexivity.
Defined.

Lemma Invert_functional_witness :
  exists y, Scalar_Invert (key_of 3) = Ok y /\ ScMul y (key_of 3) = key_of 1.
Proof.
  destruct (Invert_functional (key_of 3)) as (y & E & _ & H1 & _).
  - apply sc_ok_of. split; [lia|by vm_compute].
  - exists y. split; [done|]. apply H1. vm_compute. reflexivity.
Defined.

Lemma toy_generators : Forall pt_ok (map toy_write [1; 2; 3; 4; 5]).
Proof. repeat constructor; by eexists. Qed.

Lemma toy_scalars l : Forall (fun z => 0 <= z < 1000) l -> Forall sc_ok (map key_of l).
Proof.
  intros Hl. rewrite Forall_map. eapply Forall_impl; [exact Hl|]. intros z Hz. simpl in *.
  apply sc_ok_of. assert (1000 < order) by by vm_compute. lia.
Qed.

Lemma toy_scalar z : 0 <= z < 1000 -> sc_ok (key_of z).
Proof. intros Hz. apply sc_ok_of. assert (1000 < order) by by vm_compute. lia. Qed.

Lemma pedersen_homomorphic_witness :
  let G := map toy_write [1; 2; 3; 4; 5] in
  exists c c', CommitAtIndex G (key_of 7) (key_of 8) 1 = Ok c /\
    CommitAtIndex G (key_of 9) (key_of 10) 1 = Ok c' /\
    CommitAtIndex G (Scalar_Add (key_of 7) (key_of 9)) (Scalar_Add (key_of 8) (key_of 10)) 1
      = Ok (Point_Add c c').
Proof.
  intros G.
  refine (proj1 (proj2 (pedersen_homomorphic G (map key_of [1; 1; 1; 1; 1])
           (map key_of [1; 2; 3; 4; 5]) (key_of 7) (key_of 9) (key_of 8) (key_of 10) 1
           toy_generators eq_refl _ _ _ eq_refl eq_refl _ _ _ _))).
  - lia.
  - apply toy_scalars. repeat constructor; lia.
  - apply toy_scalars. repeat constructor; lia.
  - apply toy_scalar. lia.
  - apply toy_scalar. lia.
  - apply toy_scalar. lia.
  - apply toy_scalar. lia.
Defined.
