(* ===== verification/Scalar.v ===== *)
(** * Scalar.v: arithmetic modulo the order of the curve

    [src/crypto/curve25519/edwards_25519_scalar.go]: the 32 bytes of a scalar are
    loaded into twelve limbs of 21 bits, sums and products are computed limb by
    limb in [int64], and a fixed sequence of carries and of foldings of high
    limbs reduces the result modulo the order.  The sequence is a list of
    instructions, which the code has unrolled; a limb is the element [i] of a
    list.  All arithmetic wraps around to 64 bits; an interval analysis, which
    is run by [vm_compute], shows that none ever does. *)

From stdpp Require Import base list.
From Stdlib Require Import ZArith Lia.
From S2P Require Import Prelude Crypto.
Open Scope Z_scope.

(** ** Loading and storing *)

(** The limb [i]; those that are not there are zero. *)
Definition limb (s : list Z) (i : nat) : Z := nth i s 0.

Definition load3 (b : list Z) : Z :=
  match b with b0 :: b1 :: b2 :: _ => b0 + 256 * b1 + 65536 * b2 | _ => 0 end.

Definition mask21 (x : Z) : Z := Z.land 2097151 x.

(** The limbs of 32 bytes; the last one has 25 bits. *)
Definition load_limbs (k : list Z) : list Z :=
  [mask21 (load3 k); mask21 (Z.shiftr (load4 (drop 2 k)) 5); mask21 (Z.shiftr (load3 (drop 5 k)) 2);
   mask21 (Z.shiftr (load4 (drop 7 k)) 7); mask21 (Z.shiftr (load4 (drop 10 k)) 4); mask21 (Z.shiftr (load3 (drop 13 k)) 1);
   mask21 (Z.shiftr (load4 (drop 15 k)) 6); mask21 (Z.shiftr (load3 (drop 18 k)) 3); mask21 (load3 (drop 21 k));
   mask21 (Z.shiftr (load4 (drop 23 k)) 5); mask21 (Z.shiftr (load3 (drop 26 k)) 2); Z.shiftr (load4 (drop 28 k)) 7].

(** The limbs of 64 bytes; the last one has 29 bits. *)
Definition load_limbs64 (k : list Z) : list Z :=
  [mask21 (load3 k); mask21 (Z.shiftr (load4 (drop 2 k)) 5); mask21 (Z.shiftr (load3 (drop 5 k)) 2);
   mask21 (Z.shiftr (load4 (drop 7 k)) 7); mask21 (Z.shiftr (load4 (drop 10 k)) 4); mask21 (Z.shiftr (load3 (drop 13 k)) 1);
   mask21 (Z.shiftr (load4 (drop 15 k)) 6); mask21 (Z.shiftr (load3 (drop 18 k)) 3); mask21 (load3 (drop 21 k));
   mask21 (Z.shiftr (load4 (drop 23 k)) 5); mask21 (Z.shiftr (load3 (drop 26 k)) 2); mask21 (Z.shiftr (load4 (drop 28 k)) 7);
   mask21 (Z.shiftr (load4 (drop 31 k)) 4); mask21 (Z.shiftr (load3 (drop 34 k)) 1); mask21 (Z.shiftr (load4 (drop 36 k)) 6);
   mask21 (Z.shiftr (load3 (drop 39 k)) 3); mask21 (load3 (drop 42 k)); mask21 (Z.shiftr (load4 (drop 44 k)) 5);
   mask21 (Z.shiftr (load3 (drop 47 k)) 2); mask21 (Z.shiftr (load4 (drop 49 k)) 7); mask21 (Z.shiftr (load4 (drop 52 k)) 4);
   mask21 (Z.shiftr (load3 (drop 55 k)) 1); mask21 (Z.shiftr (load4 (drop 57 k)) 6); Z.shiftr (load4 (drop 60 k)) 3].

Definition store_limbs (s : list Z) : list Z :=
  [u8 (Z.shiftr (limb s 0) 0); u8 (Z.shiftr (limb s 0) 8);
   u8 (Z.lor (Z.shiftr (limb s 0) 16) (Z.shiftl (limb s 1) 5)); u8 (Z.shiftr (limb s 1) 3);
   u8 (Z.shiftr (limb s 1) 11); u8 (Z.lor (Z.shiftr (limb s 1) 19) (Z.shiftl (limb s 2) 2));
   u8 (Z.shiftr (limb s 2) 6); u8 (Z.lor (Z.shiftr (limb s 2) 14) (Z.shiftl (limb s 3) 7));
   u8 (Z.shiftr (limb s 3) 1); u8 (Z.shiftr (limb s 3) 9);
   u8 (Z.lor (Z.shiftr (limb s 3) 17) (Z.shiftl (limb s 4) 4)); u8 (Z.shiftr (limb s 4) 4);
   u8 (Z.shiftr (limb s 4) 12); u8 (Z.lor (Z.shiftr (limb s 4) 20) (Z.shiftl (limb s 5) 1));
   u8 (Z.shiftr (limb s 5) 7); u8 (Z.lor (Z.shiftr (limb s 5) 15) (Z.shiftl (limb s 6) 6));
   u8 (Z.shiftr (limb s 6) 2); u8 (Z.shiftr (limb s 6) 10);
   u8 (Z.lor (Z.shiftr (limb s 6) 18) (Z.shiftl (limb s 7) 3)); u8 (Z.shiftr (limb s 7) 5);
   u8 (Z.shiftr (limb s 7) 13); u8 (Z.shiftr (limb s 8) 0); u8 (Z.shiftr (limb s 8) 8);
   u8 (Z.lor (Z.shiftr (limb s 8) 16) (Z.shiftl (limb s 9) 5)); u8 (Z.shiftr (limb s 9) 3);
   u8 (Z.shiftr (limb s 9) 11); u8 (Z.lor (Z.shiftr (limb s 9) 19) (Z.shiftl (limb s 10) 2));
   u8 (Z.shiftr (limb s 10) 6); u8 (Z.lor (Z.shiftr (limb s 10) 14) (Z.shiftl (limb s 11) 7));
   u8 (Z.shiftr (limb s 11) 1); u8 (Z.shiftr (limb s 11) 9); u8 (Z.shiftr (limb s 11) 17)].

(** ** Instructions *)

(** [s_i += x] *)
Definition add_at (i : nat) (x : Z) (s : list Z) : list Z := <[i := i64 (limb s i + x)]> s.

(** 2^252 is minus the number with these limbs, modulo the order. *)
Definition fold_constants : list Z := [666643; 470296; 654183; -997805; 136657; -683901].

(** [s_i += x * k] for the constants [k], from [i] on. *)
Fixpoint add_multiples (x : Z) (i : nat) (ks : list Z) (s : list Z) : list Z :=
  match ks with
  | [] => s
  | k :: ks => add_multiples x (S i) ks (add_at i (i64 (x * k)) s)
  end.

(** [Round i] and [Carry i] move a carry from the limb [i] to the next one, rounded
    to the nearest or down; [Fold j] replaces the limb [j] by its multiples of the
    constants, twelve limbs below, and [FoldLast j] does not clear the limb. *)
Inductive instr :=
| Round (i : nat)
| Carry (i : nat)
| Fold (j : nat)
| FoldLast (j : nat).

(** [s_(i+1) += c; s_i -= c << 21] *)
Definition move_carry (i : nat) (c : Z) (s : list Z) : list Z :=
  add_at i (- i64 (Z.shiftl c 21)) (add_at (S i) c s).

Definition exec (op : instr) (s : list Z) : list Z :=
  match op with
  | Round i => move_carry i (Z.shiftr (i64 (limb s i + 2 ^ 20)) 21) s
  | Carry i => move_carry i (Z.shiftr (limb s i) 21) s
  | Fold j => <[j := 0]> (add_multiples (limb s j) (j - 12) fold_constants s)
  | FoldLast j => add_multiples (limb s j) (j - 12) fold_constants s
  end.

Definition run (p : list instr) (s : list Z) : list Z := fold_left (fun s op => exec op s) p s.

(** The carries of the 23 limbs of a product. *)
Definition product_carries : list instr :=
  map Round [0; 2; 4; 6; 8; 10; 12; 14; 16; 18; 20; 22]%nat ++ map Round [1; 3; 5; 7; 9; 11; 13; 15; 17; 19; 21]%nat.

(** From 24 limbs to twelve. *)
Definition high_folds : list instr :=
  map Fold [23; 22; 21; 20; 19; 18]%nat ++ map Round [6; 8; 10; 12; 14; 16]%nat ++ map Round [7; 9; 11; 13; 15]%nat ++
  map Fold [17; 16; 15; 14; 13; 12]%nat.

Definition low_rounds : list instr :=
  map Round [0; 2; 4; 6; 8; 10]%nat ++ map Round [1; 3; 5; 7; 9; 11]%nat ++ [Fold 12].

Definition first_chain : list instr := map Carry [0; 1; 2; 3; 4; 5; 6; 7; 8; 9; 10; 11]%nat.
Definition last_chain : list instr := map Carry [0; 1; 2; 3; 4; 5; 6; 7; 8; 9; 10]%nat.

(** The end of every function; the last limb is cleared or not. *)
Definition finish (last : instr) : list instr := first_chain ++ last :: last_chain.

(** ** The functions *)

(** The limb [k] of a product. *)
Definition product_limb (a b : list Z) (k : nat) : Z :=
  foldr (fun j acc => limb a j * limb b (k - j) + acc) 0 (seq 0 (S k)).

(** The limbs of the product are added to those of [c], in [int64]. *)
Definition product_limbs (f : Z -> Z) (c a b : list Z) : list Z :=
  map (fun k => i64 (limb c k + f (product_limb a b k))) (seq 0 23) ++ [0].

Definition ScMulAdd (a b c : list Z) : list Z :=
  store_limbs (run (product_carries ++ high_folds ++ low_rounds ++ finish (Fold 12))
    (product_limbs (fun p => p) (load_limbs c) (load_limbs a) (load_limbs b))).

Definition ScMulSub (a b c : list Z) : list Z :=
  store_limbs (run (product_carries ++ high_folds ++ low_rounds ++ finish (Fold 12))
    (product_limbs Z.opp (load_limbs c) (load_limbs a) (load_limbs b))).

Definition ScMul (a b : list Z) : list Z :=
  store_limbs (run (product_carries ++ high_folds ++ low_rounds ++ finish (Fold 12))
    (product_limbs (fun p => p) [] (load_limbs a) (load_limbs b))).

Definition ScReduce (s : list Z) : list Z :=
  store_limbs (run (high_folds ++ low_rounds ++ finish (Fold 12)) (load_limbs64 s)).

Definition ScReduce32 (s : list Z) : list Z :=
  store_limbs (run (low_rounds ++ finish (FoldLast 12)) (load_limbs s ++ [0])).

Definition ScAdd (a b : list Z) : list Z :=
  store_limbs (run (low_rounds ++ finish (FoldLast 12)) (zip_with (fun x y => i64 (x + y)) (load_limbs a) (load_limbs b) ++ [0])).

Definition ScSub (a b : list Z) : list Z :=
  store_limbs (run (low_rounds ++ finish (FoldLast 12)) (zip_with (fun x y => i64 (x - y)) (load_limbs a) (load_limbs b) ++ [0])).

(** ** The value of limbs *)

Definition val (s : list Z) : Z := le_val (2 ^ 21) s.

(** The weight of the limb [i]. *)
Definition weight (i : nat) : Z := 2 ^ (21 * Z.of_nat i).

Lemma weight_S i : weight (S i) = 2 ^ 21 * weight i.
Proof. unfold weight. rewrite Nat2Z.inj_succ, <- Z.pow_add_r by lia. f_equal. lia. Qed.

Lemma weight_pos i : 0 < weight i.
Proof. unfold weight. apply Z.pow_pos_nonneg; lia. Qed.

Lemma weight_add i j : weight (i + j) = weight i * weight j.
Proof. unfold weight. rewrite <- Z.pow_add_r by lia. f_equal. lia. Qed.

Lemma val_cons x s : val (x :: s) = x + 2 ^ 21 * val s.
Proof. reflexivity. Qed.

Lemma val_app s1 s2 : val (s1 ++ s2) = val s1 + weight (length s1) * val s2.
Proof.
  induction s1 as [|x s1 IH]; cbn [app length]; [change (weight 0) with 1; change (val []) with 0; lia|].
  rewrite !val_cons, IH, weight_S. lia.
Qed.

Lemma limb_lookup s i x : s !! i = Some x -> limb s i = x.
Proof. unfold limb. revert i. induction s as [|y s IH]; intros [|i] E; try done; [by injection E|]. by apply IH. Qed.

Lemma val_insert s i x : (i < length s)%nat -> val (<[i := x]> s) = val s + (x - limb s i) * weight i.
Proof.
  revert i. induction s as [|y s IH]; intros [|i] Hi; cbn [length] in Hi; try lia.
  - cbn [insert list_insert]. rewrite !val_cons. unfold limb. cbn [nth]. change (weight 0) with 1. lia.
  - change (<[S i := x]> (y :: s)) with (y :: <[i := x]> s). rewrite !val_cons, IH, weight_S by lia.
    change (limb (y :: s) (S i)) with (limb s i). lia.
Qed.

Lemma limb_insert s i x : (i < length s)%nat -> limb (<[i := x]> s) i = x.
Proof. intros Hi. apply limb_lookup. by apply list_lookup_insert_eq. Qed.

Lemma limb_insert_ne s i j x : i <> j -> limb (<[i := x]> s) j = limb s j.
Proof.
  intros Hne. unfold limb. revert i j Hne. induction s as [|y s IH]; intros [|i] [|j] Hne; try done. cbn [insert list_insert nth] in *.
  apply IH. lia.
Qed.

(** ** Intervals *)

(** The interval of each limb. *)
Definition within (r : Z * Z) (x : Z) : Prop := fst r <= x <= snd r.
Definition holds (rs : list (Z * Z)) (s : list Z) : Prop := Forall2 within rs s.

Definition fits (r : Z * Z) : bool := (- 2 ^ 63 <=? fst r) && (snd r <? 2 ^ 63).

Lemma fits_i64 r x : fits r = true -> within r x -> i64 x = x.
Proof. unfold fits, within. intros [H1%Z.leb_le H2%Z.ltb_lt]%andb_true_iff Hx. apply i64_small. lia. Qed.

(** The interval of a limb to which a number is added, and of a multiple. *)
Definition plus (r q : Z * Z) : Z * Z := (fst r + fst q, snd r + snd q).
Definition times (k : Z) (r : Z * Z) : Z * Z := if 0 <=? k then (fst r * k, snd r * k) else (snd r * k, fst r * k).

Lemma plus_within r q x y : within r x -> within q y -> within (plus r q) (x + y).
Proof. unfold within, plus. cbn [fst snd]. lia. Qed.

Lemma times_within k r x : within r x -> within (times k r) (x * k).
Proof. unfold within, times. intros Hx. destruct (Z.leb_spec 0 k); cbn [fst snd]; nia. Qed.

(** The analysis of an instruction: [None] when a number could leave [int64]. *)
Definition checked (r : Z * Z) : option (Z * Z) := if fits r then Some r else None.

Definition add_range (i : nat) (q : Z * Z) (rs : list (Z * Z)) : option (list (Z * Z)) :=
  r ← rs !! i; r ← checked (plus r q); Some (<[i := r]> rs).

Fixpoint add_multiple_ranges (q : Z * Z) (i : nat) (ks : list Z) (rs : list (Z * Z)) : option (list (Z * Z)) :=
  match ks with
  | [] => Some rs
  | k :: ks => q' ← checked (times k q); rs ← add_range i q' rs; add_multiple_ranges q (S i) ks rs
  end.

(** A carry of the limb [i] after [b] is added to it. *)
Definition carry_range (b : Z) (i : nat) (rs : list (Z * Z)) : option (list (Z * Z)) :=
  r ← rs !! i; r ← checked (plus r (b, b));
  c ← checked (fst r / 2 ^ 21 * 2 ^ 21, snd r / 2 ^ 21 * 2 ^ 21);
  rs ← add_range (S i) (fst r / 2 ^ 21, snd r / 2 ^ 21) rs;
  Some (<[i := (- b, 2 ^ 21 - 1 - b)]> rs).

Definition fold_range (j : nat) (rs : list (Z * Z)) : option (list (Z * Z)) :=
  if (j <? 12)%nat then None else r ← rs !! j; add_multiple_ranges r (j - 12) fold_constants rs.

Definition range (op : instr) (rs : list (Z * Z)) : option (list (Z * Z)) :=
  match op with
  | Round i => carry_range (2 ^ 20) i rs
  | Carry i => carry_range 0 i rs
  | FoldLast j => fold_range j rs
  | Fold j => rs ← fold_range j rs; Some (<[j := (0, 0)]> rs)
  end.

Fixpoint ranges (p : list instr) (rs : list (Z * Z)) : option (list (Z * Z)) :=
  match p with [] => Some rs | op :: p => rs ← range op rs; ranges p rs end.

Lemma holds_limb rs s i r : holds rs s -> rs !! i = Some r -> (i < length s)%nat /\ s !! i = Some (limb s i) /\ within r (limb s i).
Proof.
  intros Hs E. destruct (Forall2_lookup_l _ _ _ _ _ Hs E) as (x & Ex & Hx). split; [by apply lookup_lt_Some in Ex|].
  by rewrite (limb_lookup s i x Ex).
Qed.

Lemma checked_Some r r' : checked r = Some r' -> r' = r /\ fits r = true.
Proof. unfold checked. destruct (fits r); [|done]. intros E. by injection E. Qed.

Lemma holds_insert rs s i r x : holds rs s -> within r x -> holds (<[i := r]> rs) (<[i := x]> s).
Proof. intros Hs Hx. by apply Forall2_insert. Qed.

Lemma add_at_sound rs s i q x rs' : holds rs s -> within q x -> add_range i q rs = Some rs' ->
  holds rs' (add_at i x s) /\ val (add_at i x s) = val s + x * weight i /\ limb (add_at i x s) i = limb s i + x /\
  forall j, j <> i -> limb (add_at i x s) j = limb s j.
Proof.
  intros Hs Hx E. unfold add_range in E. destruct (rs !! i) as [r|] eqn:Er; [|done]. cbn [mbind option_bind] in E.
  destruct (checked (plus r q)) as [r'|] eqn:Ec; [|done]. cbn [mbind option_bind] in E. injection E as <-.
  apply checked_Some in Ec as [-> Hf]. destruct (holds_limb rs s i r Hs Er) as (Hi & _ & Hw).
  pose proof (plus_within r q _ _ Hw Hx) as Hp. unfold add_at. rewrite (fits_i64 _ _ Hf Hp).
  split; [by apply holds_insert|]. split; [rewrite val_insert by done; lia|]. split; [by apply limb_insert|].
  intros j Hj. by apply limb_insert_ne.
Qed.

Lemma add_multiples_sound q x ks : within q x -> forall i rs s rs', holds rs s -> add_multiple_ranges q i ks rs = Some rs' ->
  holds rs' (add_multiples x i ks s) /\ val (add_multiples x i ks s) = val s + x * val ks * weight i /\
  forall j, (i + length ks <= j)%nat -> limb (add_multiples x i ks s) j = limb s j.
Proof.
  intros Hx. induction ks as [|k ks IH]; intros i rs s rs' Hs E; cbn [add_multiple_ranges add_multiples length] in *.
  - injection E as <-. split; [done|]. split; [change (val []) with 0; lia|done].
  - destruct (checked (times k q)) as [q'|] eqn:Ec; [|done]. cbn [mbind option_bind] in E. apply checked_Some in Ec as [-> Hf].
    destruct (add_range i _ rs) as [rs1|] eqn:E1; [|done]. cbn [mbind option_bind] in E.
    pose proof (times_within k q x Hx) as Hk. rewrite (fits_i64 _ _ Hf Hk).
    destruct (add_at_sound rs s i _ _ rs1 Hs Hk E1) as (Hs1 & Ev & _ & Ej). destruct (IH (S i) rs1 _ rs' Hs1 E) as (Hs2 & Ev2 & Ej2).
    split; [exact Hs2|]. split; [rewrite Ev2, Ev, val_cons, weight_S; ring|].
    intros j Hj. rewrite Ej2 by lia. apply Ej. lia.
Qed.

(** A carry keeps the value. *)
Lemma carry_sound b c rs s i rs' : 0 <= b < 2 ^ 21 -> holds rs s -> carry_range b i rs = Some rs' ->
  c = Z.shiftr (limb s i + b) 21 -> i64 (limb s i + b) = limb s i + b /\ holds rs' (move_carry i c s) /\ val (move_carry i c s) = val s.
Proof.
  intros Hb Hs E ->. unfold carry_range in E. destruct (rs !! i) as [r|] eqn:Er; [|done]. cbn [mbind option_bind] in E.
  destruct (checked (plus r (b, b))) as [r'|] eqn:Ec; [|done]. cbn [mbind option_bind] in E. apply checked_Some in Ec as [-> Hf].
  set (r1 := plus r (b, b)) in *. destruct (holds_limb rs s i r Hs Er) as (Hi & _ & Hw).
  assert (within r1 (limb s i + b)) as Hw1 by (apply plus_within; [done|unfold within; cbn [fst snd]; lia]).
  split; [by apply (fits_i64 r1)|]. set (x := limb s i + b) in *.
  destruct (checked (_, _)) as [r2|] eqn:Ec; [|done]. cbn [mbind option_bind] in E. apply checked_Some in Ec as [-> Hf2].
  destruct (add_range (S i) _ rs) as [rs1|] eqn:E1; [|done]. cbn [mbind option_bind] in E. injection E as <-.
  rewrite Z.shiftr_div_pow2 by lia. set (c := x / 2 ^ 21).
  assert (within (fst r1 / 2 ^ 21, snd r1 / 2 ^ 21) c) as Hc.
  { unfold within, c in *. cbn [fst snd]. split; apply Z.div_le_mono; lia. }
  destruct (add_at_sound rs s (S i) _ c rs1 Hs Hc E1) as (Hs1 & Ev & _ & Ej).
  unfold move_carry. rewrite Z.shiftl_mul_pow2 by lia.
  assert (i64 (c * 2 ^ 21) = c * 2 ^ 21) as ->.
  { apply (fits_i64 _ _ Hf2). unfold within in *. cbn [fst snd] in *. lia. }
  assert (limb s i + - (c * 2 ^ 21) = x mod 2 ^ 21 - b) as El by (unfold c; rewrite Z.mod_eq by lia; unfold x; lia).
  pose proof (Z.mod_pos_bound x (2 ^ 21) ltac:(lia)) as Hm. unfold add_at at 1 3. rewrite Ej by lia. rewrite El, i64_small by lia.
  split; [apply holds_insert; [done|unfold within; cbn [fst snd]; lia]|].
  assert (length (add_at (S i) c s) = length s) as Ll by apply length_insert.
  rewrite val_insert by lia. rewrite Ej, Ev, weight_S, <- El by lia. lia.
Qed.

Lemma fold_constants_val : val fold_constants = 2 ^ 252 - order.
Proof. by vm_compute. Qed.

(** A folding changes the value by a multiple of the order, if the limb is cleared. *)
Lemma fold_sound rs s j rs' : holds rs s -> fold_range j rs = Some rs' ->
  let s' := add_multiples (limb s j) (j - 12) fold_constants s in
  holds rs' s' /\ (12 <= j < length s)%nat /\ limb s' j = limb s j /\ val s' = val s + limb s j * (2 ^ 252 - order) * weight (j - 12).
Proof.
  intros Hs E s'. unfold fold_range in E. destruct (Nat.ltb_spec j 12) as [|Hj]; [done|].
  destruct (rs !! j) as [r|] eqn:Er; [|done]. cbn [mbind option_bind] in E. destruct (holds_limb rs s j r Hs Er) as (Hl & _ & Hw).
  destruct (add_multiples_sound r _ fold_constants Hw (j - 12) rs s rs' Hs E) as (Hs' & Ev & Ej).
  split; [exact Hs'|]. split; [lia|]. split; [apply Ej; cbn; lia|]. unfold s'. by rewrite Ev, fold_constants_val.
Qed.

Definition is_carry (op : instr) : bool := match op with Round _ | Carry _ => true | _ => false end.

Lemma length_add_multiples x ks : forall i s, length (add_multiples x i ks s) = length s.
Proof. induction ks as [|k ks IH]; intros i s; cbn [add_multiples]; [done|]. rewrite IH. apply length_insert. Qed.

Lemma length_exec op s : length (exec op s) = length s.
Proof. destruct op; cbn [exec]; unfold move_carry, add_at; by rewrite ?length_insert, ?length_add_multiples, ?length_insert. Qed.

(** Every instruction but [FoldLast] keeps the value modulo the order; carries keep it. *)
Lemma exec_sound op rs s rs' : holds rs s -> range op rs = Some rs' -> (forall j, op <> FoldLast j) ->
  holds rs' (exec op s) /\ exists q, val (exec op s) = val s + q * order /\ (is_carry op = true -> q = 0).
Proof.
  intros Hs E Hop. destruct op as [i|i|j|j]; cbn [range exec is_carry] in *; [| | |by destruct (Hop j)].
  - destruct (carry_sound (2 ^ 20) _ rs s i rs' ltac:(lia) Hs E eq_refl) as (-> & Hs' & Ev). split; [exact Hs'|].
    exists 0. split; [lia|done].
  - destruct (carry_sound 0 _ rs s i rs' ltac:(lia) Hs E eq_refl) as (_ & Hs' & Ev). rewrite Z.add_0_r in *.
    split; [exact Hs'|]. exists 0. split; [lia|done].
  - destruct (fold_range j rs) as [rs1|] eqn:E1; [|done]. cbn [mbind option_bind] in E. injection E as <-.
    destruct (fold_sound rs s j rs1 Hs E1) as (Hs1 & Hj & El & Ev). set (s' := add_multiples _ _ _ _) in *.
    split; [apply holds_insert; [done|unfold within; cbn [fst snd]; lia]|].
    assert (length s' = length s) as Ll by apply length_add_multiples.
    exists (- (limb s j * weight (j - 12))). split; [|done]. rewrite val_insert by lia. rewrite El, Ev.
    assert (weight j = 2 ^ 252 * weight (j - 12)) as ->.
    { replace j with (12 + (j - 12))%nat at 1 by lia. rewrite weight_add. reflexivity. }
    ring.
Qed.

Definition no_last (op : instr) : bool := match op with FoldLast _ => false | _ => true end.

Lemma run_sound p : forallb no_last p = true -> forall rs s rs', holds rs s -> ranges p rs = Some rs' ->
  holds rs' (run p s) /\ exists q, val (run p s) = val s + q * order /\ (forallb is_carry p = true -> q = 0).
Proof.
  induction p as [|op p IH]; intros Hp rs s rs' Hs E; cbn [ranges forallb] in *.
  - injection E as <-. split; [done|]. exists 0. change (run [] s) with s. split; [lia|done].
  - apply andb_true_iff in Hp as [Hop Hp]. destruct (range op rs) as [rs1|] eqn:E1; [|done]. cbn [mbind option_bind] in E.
    destruct (exec_sound op rs s rs1 Hs E1) as (Hs1 & q1 & Ev1 & Hq1); [by destruct op|].
    destruct (IH Hp rs1 _ rs' Hs1 E) as (Hs2 & q2 & Ev2 & Hq2). split; [exact Hs2|].
    exists (q1 + q2). change (run (op :: p) s) with (run p (exec op s)). split; [rewrite Ev2, Ev1; ring|].
    intros [Hc1 Hc2]%andb_true_iff. by rewrite Hq1, Hq2.
Qed.

Lemma run_cons op p s : run (op :: p) s = run p (exec op s).
Proof. reflexivity. Qed.

Lemma run_app p1 p2 s : run (p1 ++ p2) s = run p2 (run p1 s).
Proof. apply fold_left_app. Qed.

Lemma ranges_app p1 p2 rs : ranges (p1 ++ p2) rs = ranges p1 rs ≫= ranges p2.
Proof. revert rs. induction p1 as [|op p1 IH]; intros rs; [done|]. cbn [app ranges]. destruct (range op rs); [apply IH|done]. Qed.

(** The value lies between those of the bounds. *)
Lemma holds_val rs s : holds rs s -> val (map fst rs) <= val s <= val (map snd rs).
Proof. induction 1 as [|r x rs s Hx Hs IH]; [cbn; lia|]. cbn [map]. rewrite !val_cons. unfold within in Hx. lia. Qed.

(** ** Twelve limbs *)

Lemma limb_take n s i : (i < n)%nat -> limb (take n s) i = limb s i.
Proof. unfold limb. revert s i. induction n as [|n IH]; intros [|x s] [|i] Hi; try lia; cbn [take nth]; try done. apply IH. lia. Qed.

Lemma add_at_take n i x s : (i < n)%nat -> take n (add_at i x s) = add_at i x (take n s).
Proof. intros Hi. unfold add_at. by rewrite take_insert_lt, limb_take by lia. Qed.

Lemma exec_take i s : (S i < 12)%nat -> take 12 (exec (Carry i) s) = exec (Carry i) (take 12 s).
Proof. intros Hi. cbn [exec]. unfold move_carry. by rewrite limb_take, !add_at_take by lia. Qed.

Lemma add_multiples_take x ks : forall i s, (i + length ks <= 12)%nat ->
  take 12 (add_multiples x i ks s) = add_multiples x i ks (take 12 s).
Proof.
  induction ks as [|k ks IH]; intros i s Hi; cbn [add_multiples length] in *; [done|]. rewrite IH by lia. f_equal.
  by rewrite add_at_take by lia.
Qed.

Lemma run_take s : take 12 (run last_chain s) = run last_chain (take 12 s).
Proof. unfold last_chain, run. cbn [map fold_left]. by rewrite !exec_take by lia. Qed.

(** Both forms of the last folding do the same to the first twelve limbs. *)
Lemma fold_last_take op s : op = Fold 12 \/ op = FoldLast 12 ->
  take 12 (exec op s) = add_multiples (limb s 12) 0 fold_constants (take 12 s).
Proof.
  intros [->| ->]; cbn [exec].
  - rewrite take_insert_ge by lia. by apply add_multiples_take; cbn; lia.
  - by apply add_multiples_take; cbn; lia.
Qed.

Lemma store_take s : store_limbs (take 12 s) = store_limbs s.
Proof. unfold store_limbs. by rewrite !limb_take by lia. Qed.

(** ** Storing *)

Lemma val_drop t i : Forall (fun x => 0 <= x < 2 ^ 21) (take i t) -> val t / weight i = val (drop i t).
Proof.
  revert t. induction i as [|i IH]; intros t Ht; [change (weight 0) with 1; by rewrite Z.div_1_r, drop_0|].
  destruct t as [|x t]; [change (val []) with 0; by rewrite Z.div_0_l by (pose proof (weight_pos (S i)); lia)|].
  cbn [take drop] in *. apply Forall_cons in Ht as [Hx Ht]. rewrite <- (IH t Ht), weight_S, val_cons.
  rewrite <- Z.div_div by (pose proof (weight_pos i); lia). f_equal. rewrite Z.mul_comm, Z.div_add by lia. by rewrite Z.div_small by lia.
Qed.

Lemma key_of_digits z : key_of z = map (fun j => z / 256 ^ Z.of_nat j mod 256) (seq 0 32).
Proof.
  unfold key_of, Ed25519KeySize. generalize 32%nat. intros n. revert z. induction n as [|n IH]; intros z; [done|].
  cbn [be_bytes]. rewrite reverse_app. cbn [reverse rev_append app]. change (reverse [z mod 256]) with [z mod 256]. cbn [app seq map].
  rewrite IH. f_equal; [by rewrite Z.div_1_r|]. rewrite <- seq_shift, map_map. apply map_ext. intros j.
  rewrite Nat2Z.inj_succ, Z.pow_succ_r, Z.div_div by lia. done.
Qed.

Lemma length_run p s : length (run p s) = length s.
Proof. revert s. induction p as [|op p IH]; intros s; [done|]. change (run (op :: p) s) with (run p (exec op s)). by rewrite IH, length_exec. Qed.

(** A byte of the number inside a limb, and one across two limbs. *)
Lemma byte_inside t i sh j : Forall (fun x => 0 <= x < 2 ^ 21) (take i t) -> 8 * Z.of_nat j = 21 * Z.of_nat i + sh ->
  0 <= sh -> sh + 8 <= 21 -> (i < length t)%nat -> val t / 256 ^ Z.of_nat j mod 256 = u8 (Z.shiftr (limb t i) sh).
Proof.
  intros Ht Hj H0 H1 Hi. replace (256 ^ Z.of_nat j) with (weight i * 2 ^ sh).
  2: { change 256 with (2 ^ 8). unfold weight. rewrite <- Z.pow_mul_r, <- Z.pow_add_r by lia. f_equal. lia. }
  rewrite <- Z.div_div, val_drop by (try done; pose proof (weight_pos i); lia).
  destruct (lookup_lt_is_Some_2 t i Hi) as [x Ex]. rewrite (drop_S t x i Ex), val_cons, (limb_lookup t i x Ex).
  unfold u8. rewrite Z.shiftr_div_pow2 by lia. set (T := val (drop (S i) t)).
  replace (2 ^ 21 * T) with (2 ^ (13 - sh) * T * 2 ^ 8 * 2 ^ sh).
  2: { replace (2 ^ 21) with (2 ^ (13 - sh) * 2 ^ 8 * 2 ^ sh) by (rewrite <- !Z.pow_add_r by lia; f_equal; lia). ring. }
  rewrite Z.div_add by lia. change (2 ^ 8) with 256. by rewrite Z.mod_add by lia.
Qed.

Lemma byte_across t i sh j : Forall (fun x => 0 <= x < 2 ^ 21) (take (S i) t) -> 8 * Z.of_nat j = 21 * Z.of_nat i + sh ->
  13 < sh <= 21 -> (S i < length t)%nat ->
  val t / 256 ^ Z.of_nat j mod 256 = u8 (Z.lor (Z.shiftr (limb t i) sh) (Z.shiftl (limb t (S i)) (21 - sh))).
Proof.
  intros Ht Hj Hsh Hi. replace (256 ^ Z.of_nat j) with (weight i * 2 ^ sh).
  2: { change 256 with (2 ^ 8). unfold weight. rewrite <- Z.pow_mul_r, <- Z.pow_add_r by lia. f_equal. lia. }
  destruct (lookup_lt_is_Some_2 t i ltac:(lia)) as [x Ex]. destruct (lookup_lt_is_Some_2 t (S i) Hi) as [y Ey].
  rewrite (take_S_r t i x Ex), Forall_app, Forall_singleton in Ht. destruct Ht as [Ht Hx].
  rewrite <- Z.div_div, val_drop by (try done; pose proof (weight_pos i); lia).
  rewrite (drop_S t x i Ex), (drop_S t y (S i) Ey), !val_cons, (limb_lookup t i x Ex), (limb_lookup t (S i) y Ey).
  set (T := val (drop (S (S i)) t)). unfold u8. rewrite Z.shiftr_div_pow2, Z.shiftl_mul_pow2 by lia.
  assert (0 <= x / 2 ^ sh < 2 ^ (21 - sh)) as Hq.
  { split; [apply Z.div_pos; lia|]. apply Z.div_lt_upper_bound; [lia|]. rewrite <- Z.pow_add_r by lia.
    replace (sh + (21 - sh)) with 21 by lia. lia. }
  rewrite <- Z.shiftl_mul_pow2, lor_disjoint, Z.shiftl_mul_pow2 by lia.
  replace (2 ^ 21 * (y + 2 ^ 21 * T)) with ((y + 2 ^ 21 * T) * 2 ^ (21 - sh) * 2 ^ sh).
  2: { rewrite <- Z.mul_assoc, <- Z.pow_add_r by lia. replace (21 - sh + sh) with 21 by lia. ring. }
  rewrite Z.div_add by lia. change (2 ^ 8) with 256.
  replace ((y + 2 ^ 21 * T) * 2 ^ (21 - sh)) with (y * 2 ^ (21 - sh) + 2 ^ 13 * T * 2 ^ (21 - sh) * 256) by (change (2 ^ 21) with (2 ^ 13 * 256); ring).
  by rewrite Z.add_assoc, Z.mod_add.
Qed.

Lemma cons_eq {A} (x y : A) l k : x = y -> l = k -> x :: l = y :: k.
Proof. by intros -> ->. Qed.

(** The bytes of twelve limbs are those of their value. *)
Lemma store_limbs_ok t : length t = 12%nat -> Forall (fun x => 0 <= x < 2 ^ 21) (take 11 t) -> store_limbs t = key_of (val t).
Proof.
  intros Hl Ht. rewrite key_of_digits. cbn [map seq]. unfold store_limbs.
  assert (forall i, (i <= 11)%nat -> Forall (fun x => 0 <= x < 2 ^ 21) (take i t)) as Hi.
  { intros i Hi. rewrite <- (Nat.min_l i 11 Hi), <- take_take. by apply Forall_take. }
  assert (val t / 256 ^ Z.of_nat 31 mod 256 = u8 (Z.shiftr (limb t 11) 17)) as E31.
  { replace (256 ^ Z.of_nat 31) with (weight 11 * 2 ^ 17) by reflexivity.
    pose proof (weight_pos 11). rewrite <- Z.div_div, val_drop by (lia || (apply Hi; lia)).
    destruct (lookup_lt_is_Some_2 t 11 ltac:(lia)) as [x Ex]. rewrite (drop_S t x 11 Ex), drop_ge, (limb_lookup t 11 x Ex) by lia.
    unfold u8. rewrite Z.shiftr_div_pow2 by lia. change (val [x]) with (x + 2 ^ 21 * 0). by rewrite Z.add_0_r. }
  repeat (apply cons_eq; [symmetry; first [exact E31 | apply byte_inside; [apply Hi; lia|reflexivity|lia|lia|lia]
                                          |apply byte_across; [apply Hi; lia|reflexivity|lia|lia]]|]).
  reflexivity.
Qed.

(** ** The end of the functions *)

(** The bounds under which the end gives the value modulo the order. *)
Definition full : Z * Z := (0, 2 ^ 21 - 1).

Definition finish_ok (rs : list (Z * Z)) : bool :=
  (- 2 ^ 252 <=? val (map fst rs)) && (val (map snd rs) <? 2 ^ 252) &&
  match ranges first_chain rs with
  | None => false
  | Some rs1 =>
      bool_decide (take 12 rs1 = replicate 12 full) && bool_decide (drop 13 rs1 = replicate (length rs1 - 13) (0, 0)) &&
      match (r ← rs1 !! 12%nat; rs2 ← add_multiple_ranges r 0 fold_constants (take 12 rs1); ranges last_chain rs2) with
      | None => false
      | Some rs2 => bool_decide (take 11 rs2 = replicate 11 full)
      end
  end.

Lemma holds_replicate n r s : holds (replicate n r) s -> Forall (within r) s.
Proof.
  intros Hs. apply Forall_lookup_2. intros i x Ex. destruct (Forall2_lookup_r _ _ _ _ _ Hs Ex) as (r' & [-> _]%lookup_replicate & Hx). exact Hx.
Qed.

Lemma holds_full n s : holds (replicate n full) s -> Forall (fun x => 0 <= x < 2 ^ 21) s.
Proof. intros Hs%holds_replicate. eapply Forall_impl; [exact Hs|]. intros x Hx. unfold within, full in Hx. cbn [fst snd] in Hx. lia. Qed.

Lemma holds_zero n s : holds (replicate n (0, 0)) s -> val s = 0.
Proof.
  intros Hs%holds_replicate. induction Hs as [|x s Hx Hs IH]; [done|]. rewrite val_cons, IH. unfold within in Hx. cbn [fst snd] in Hx. lia.
Qed.

Lemma val_full s : Forall (fun x => 0 <= x < 2 ^ 21) s -> 0 <= val s < weight (length s).
Proof.
  induction 1 as [|x s Hx Hs IH]; [by split|]. cbn [length]. rewrite val_cons, weight_S. change (2 ^ 21) with 2097152 in *. lia.
Qed.

Lemma finish_value rs s op : op = Fold 12 \/ op = FoldLast 12 -> holds rs s -> finish_ok rs = true ->
  store_limbs (run (finish op) s) = key_of (val s mod order).
Proof.
  intros Hop Hs Hok. unfold finish_ok in Hok. destruct (ranges first_chain rs) as [rs1|] eqn:E1; [|by rewrite andb_false_r in Hok].
  rewrite !andb_true_iff in Hok. destruct Hok as [[Hlo%Z.leb_le Hhi%Z.ltb_lt] [[Hfull%bool_decide_eq_true Hzero%bool_decide_eq_true] Hlast]].
  destruct (rs1 !! 12%nat) as [r|] eqn:Er; [|done]. cbn [mbind option_bind] in Hlast.
  destruct (add_multiple_ranges _ _ _ _) as [rs2|] eqn:E2; [|done]. cbn [mbind option_bind] in Hlast.
  destruct (ranges last_chain rs2) as [rs3|] eqn:E3; [|done]. apply bool_decide_eq_true in Hlast.
  destruct (run_sound first_chain eq_refl rs s rs1 Hs E1) as (Hs1 & q & Ev1 & Hq). rewrite (Hq eq_refl) in Ev1.
  pose proof (holds_val rs s Hs) as Hv. unfold finish. rewrite run_app. set (s1 := run first_chain s) in *.
  rewrite run_cons, <- store_take, run_take, (fold_last_take op s1 Hop).
  destruct (holds_limb rs1 s1 12 r Hs1 Er) as (Hl1 & Ex & Hw). set (x := limb s1 12) in *.
  assert (Forall (fun x => 0 <= x < 2 ^ 21) (take 12 s1)) as Hlow by (apply (holds_full 12); rewrite <- Hfull; by apply Forall2_take).
  assert (val (drop 13 s1) = 0) as Hhigh by (apply (holds_zero (length rs1 - 13)); rewrite <- Hzero; by apply Forall2_drop).
  pose proof (val_full _ Hlow) as Hbound. rewrite length_take_le in Hbound by lia.
  assert (val s1 = val (take 12 s1) + weight 12 * x) as Esplit.
  { rewrite <- (take_drop 12 s1) at 1. rewrite val_app, length_take_le by lia. rewrite (drop_S s1 x 12 Ex), val_cons, Hhigh. lia. }
  destruct (add_multiples_sound r x fold_constants Hw 0 (take 12 rs1) (take 12 s1) rs2 (Forall2_take _ _ _ 12 Hs1) E2) as (Hs2 & Ev2 & _).
  rewrite fold_constants_val in Ev2. change (weight 0) with 1 in Ev2. change (weight 12) with (2 ^ 252) in *.
  set (t := add_multiples x 0 fold_constants (take 12 s1)) in *.
  assert (val t = val s mod order) as Et.
  { assert (val t = val s - x * order) as -> by lia. assert (2 ^ 252 < order < 2 ^ 253) as Ho by by vm_compute.
    assert (x = 0 \/ x = -1) as [->| ->] by lia; [rewrite Z.mod_small; lia|].
    rewrite <- (Z.mod_small (val s - -1 * order) order) by lia.
    replace (val s - -1 * order) with (val s + 1 * order) by lia. by rewrite Z.mod_add by lia. }
  destruct (run_sound last_chain eq_refl rs2 t rs3 Hs2 E3) as (Hs3 & q3 & Ev3 & Hq3). rewrite (Hq3 eq_refl), Z.mul_0_l, Z.add_0_r in Ev3.
  rewrite store_limbs_ok, Ev3, Et; [done| |].
  - rewrite <- (Forall2_length _ _ _ Hs3). assert (length rs3 = length t) as -> by (rewrite (Forall2_length _ _ _ Hs3); apply length_run).
    unfold t. rewrite length_add_multiples, length_take_le by lia. done.
  - apply (holds_full 11). rewrite <- Hlast. by apply Forall2_take.
Qed.

(** The whole of a function: the checks are evaluated for the bounds of its limbs. *)
Lemma reduced p rs rs' s op : op = Fold 12 \/ op = FoldLast 12 -> forallb no_last p = true -> holds rs s -> ranges p rs = Some rs' ->
  finish_ok rs' = true -> store_limbs (run (p ++ finish op) s) = key_of (val s mod order).
Proof.
  intros Hop Hp Hs E Hok. destruct (run_sound p Hp rs s rs' Hs E) as (Hs' & q & Ev & _).
  rewrite run_app, (finish_value rs' _ op Hop Hs' Hok), Ev. f_equal. apply Z.mod_add. by vm_compute.
Qed.

(** ** Limbs of bytes *)

(** The number of bytes, the least significant first. *)
Definition bytes_val (k : list Z) : Z := le_val 256 k.

Lemma bytes_val_cons x k : bytes_val (x :: k) = x + 256 * bytes_val k.
Proof. reflexivity. Qed.

Lemma key_val_bytes k : key_val k = bytes_val k.
Proof. unfold key_val. induction k as [|x k IH]; [done|]. rewrite reverse_cons, of_digits_snoc, IH, bytes_val_cons. lia. Qed.

Lemma bytes_val_bound k : bytes_ok k -> 0 <= bytes_val k < 256 ^ Z.of_nat (length k).
Proof.
  induction 1 as [|x k Hx Hk IH]; [by split|]. cbn [length]. rewrite bytes_val_cons, Nat2Z.inj_succ, Z.pow_succ_r by lia.
  unfold is_byte in Hx. lia.
Qed.

Lemma bytes_val_drop k p : bytes_ok k -> bytes_val k / 256 ^ Z.of_nat p = bytes_val (drop p k).
Proof.
  revert k. induction p as [|p IH]; intros k Hk; [by rewrite Z.div_1_r, drop_0|].
  destruct k as [|x k]; [by rewrite Z.div_0_l by lia|]. apply Forall_cons in Hk as [Hx Hk]. cbn [drop]. rewrite <- (IH k Hk).
  rewrite Nat2Z.inj_succ, Z.pow_succ_r, bytes_val_cons, <- Z.div_div by lia. f_equal.
  rewrite Z.mul_comm, Z.div_add by lia. unfold is_byte in Hx. by rewrite Z.div_small by lia.
Qed.

Lemma load3_val k : bytes_ok k -> (3 <= length k)%nat -> load3 k = bytes_val k mod 2 ^ 24.
Proof.
  intros Hk Hl. destruct k as [|b0 [|b1 [|b2 k]]]; cbn [length] in Hl; try lia. rewrite !bytes_val_cons. cbn [load3].
  unfold bytes_ok in Hk. rewrite !Forall_cons in Hk. destruct Hk as (H0 & H1 & H2 & Hk). unfold is_byte in *. generalize (bytes_val k). intros r. apply (Z.mod_unique _ _ r); [left|]; lia.
Qed.

Lemma load4_val k : bytes_ok k -> (4 <= length k)%nat -> load4 k = bytes_val k mod 2 ^ 32.
Proof.
  intros Hk Hl. destruct k as [|b0 [|b1 [|b2 [|b3 k]]]]; cbn [length] in Hl; try lia. rewrite !bytes_val_cons. cbn [load4].
  unfold bytes_ok in Hk. rewrite !Forall_cons in Hk. destruct Hk as (H0 & H1 & H2 & H3 & Hk). unfold is_byte in *. generalize (bytes_val k). intros r. apply (Z.mod_unique _ _ r); [left|]; lia.
Qed.

Lemma mask21_mod x : mask21 x = x mod 2 ^ 21.
Proof. unfold mask21. rewrite Z.land_comm. change 2097151 with (Z.ones 21). by rewrite Z.land_ones. Qed.

(** Bits inside a longer window. *)
Lemma window v m sh : 0 <= sh -> sh + 21 <= m -> v mod 2 ^ m / 2 ^ sh mod 2 ^ 21 = v / 2 ^ sh mod 2 ^ 21.
Proof.
  intros H0 H1. rewrite (Z.div_mod v (2 ^ m)) at 2 by lia.
  replace (2 ^ m) with (2 ^ (m - sh - 21) * 2 ^ 21 * 2 ^ sh) at 2 by (rewrite <- !Z.pow_add_r by lia; f_equal; lia).
  replace (2 ^ (m - sh - 21) * 2 ^ 21 * 2 ^ sh * (v / 2 ^ m) + v mod 2 ^ m)
    with (v mod 2 ^ m + 2 ^ (m - sh - 21) * (v / 2 ^ m) * 2 ^ 21 * 2 ^ sh) by ring.
  by rewrite Z.div_add, Z.mod_add by lia.
Qed.

Lemma load_shift k p sh : bytes_ok k -> 0 <= sh -> bytes_val (drop p k) / 2 ^ sh = bytes_val k / 2 ^ (8 * Z.of_nat p + sh).
Proof.
  intros Hk Hsh. rewrite <- bytes_val_drop, Z.div_div by (done || lia). f_equal. change 256 with (2 ^ 8).
  rewrite <- Z.pow_mul_r, <- Z.pow_add_r by lia. done.
Qed.

Lemma load3_bits k p sh i : bytes_ok k -> (p + 3 <= length k)%nat -> 0 <= sh <= 3 -> 8 * Z.of_nat p + sh = 21 * Z.of_nat i ->
  mask21 (Z.shiftr (load3 (drop p k)) sh) = bytes_val k / weight i mod 2 ^ 21.
Proof.
  intros Hk Hl Hsh E. rewrite mask21_mod, load3_val, Z.shiftr_div_pow2, window by (try rewrite length_drop; try apply Forall_drop; done || lia).
  rewrite load_shift by (done || lia). unfold weight. by rewrite E.
Qed.

Lemma load4_bits k p sh i : bytes_ok k -> (p + 4 <= length k)%nat -> 0 <= sh <= 11 -> 8 * Z.of_nat p + sh = 21 * Z.of_nat i ->
  mask21 (Z.shiftr (load4 (drop p k)) sh) = bytes_val k / weight i mod 2 ^ 21.
Proof.
  intros Hk Hl Hsh E. rewrite mask21_mod, load4_val, Z.shiftr_div_pow2, window by (try rewrite length_drop; try apply Forall_drop; done || lia).
  rewrite load_shift by (done || lia). unfold weight. by rewrite E.
Qed.

Lemma load_last k p sh i : bytes_ok k -> (p + 4 = length k)%nat -> 0 <= sh -> 8 * Z.of_nat p + sh = 21 * Z.of_nat i ->
  Z.shiftr (load4 (drop p k)) sh = bytes_val k / weight i.
Proof.
  intros Hk Hl Hsh E. assert (bytes_ok (drop p k)) as Hd by by apply Forall_drop. pose proof (bytes_val_bound _ Hd) as B.
  rewrite length_drop in B. replace (length k - p)%nat with 4%nat in B by lia.
  rewrite load4_val, Z.shiftr_div_pow2, Z.mod_small by (rewrite ?length_drop; done || lia).
  rewrite load_shift by (done || lia). unfold weight. by rewrite E.
Qed.

(** The limbs of a number: [n] of 21 bits and what is left. *)
Definition limbs_of (n : nat) (v : Z) : list Z := map (fun i => v / weight i mod 2 ^ 21) (seq 0 n) ++ [v / weight n].

Lemma limbs_of_val n v : val (limbs_of n v) = v.
Proof.
  unfold limbs_of. revert v. induction n as [|n IH]; intros v.
  - cbn [seq map app]. rewrite val_cons. change (weight 0) with 1. change (val []) with 0. rewrite Z.div_1_r. lia.
  - cbn [seq map app]. rewrite val_cons. change (weight 0) with 1. rewrite Z.div_1_r.
    rewrite <- seq_shift, map_map, weight_S, <- Z.div_div by (pose proof (weight_pos n); lia).
    rewrite (map_ext _ (fun i => v / 2 ^ 21 / weight i mod 2 ^ 21)).
    2: { intros i. by rewrite weight_S, Z.div_div by (pose proof (weight_pos i); lia). }
    rewrite IH. pose proof (Z.div_mod v (2 ^ 21)). lia.
Qed.

Lemma limbs_of_holds n v h : 0 <= v < weight n * h -> holds (replicate n full ++ [(0, h - 1)]) (limbs_of n v).
Proof.
  intros Hv. pose proof (weight_pos n). apply Forall2_app.
  - apply Forall2_same_length_lookup_2; [by rewrite length_replicate, length_map, length_seq|].
    intros i r x [-> _]%lookup_replicate Ex. apply list_lookup_fmap_Some in Ex as (j & -> & _). unfold within, full. cbn [fst snd].
    pose proof (Z.mod_pos_bound (v / weight j) (2 ^ 21)). lia.
  - constructor; [|constructor]. unfold within. cbn [fst snd]. split; [apply Z.div_pos; lia|].
    assert (v / weight n < h); [apply Z.div_lt_upper_bound; lia|lia].
Qed.

Ltac load_limb :=
  match goal with
  | |- mask21 (load3 (drop ?p ?k)) = _ => rewrite <- (Z.shiftr_0_r (load3 (drop p k))); load_limb
  | |- mask21 (load3 ?k) = _ => change (load3 k) with (load3 (drop 0 k)); load_limb
  | |- mask21 (Z.shiftr (load3 _) _) = _ => apply load3_bits; [done|lia|lia|reflexivity]
  | |- mask21 (Z.shiftr (load4 _) _) = _ => apply load4_bits; [done|lia|lia|reflexivity]
  | |- Z.shiftr (load4 _) _ = _ => apply load_last; [done|lia|lia|reflexivity]
  end.

Lemma load_limbs_ok k : key_ok k -> load_limbs k = limbs_of 11 (bytes_val k).
Proof.
  intros [Hl Hk]. unfold Ed25519KeySize in Hl. unfold load_limbs, limbs_of. cbn [seq map app].
  repeat (apply cons_eq; [load_limb|]). reflexivity.
Qed.

Lemma load_limbs64_ok k : bytes_ok k -> length k = 64%nat -> load_limbs64 k = limbs_of 23 (bytes_val k).
Proof.
  intros Hk Hl. unfold load_limbs64, limbs_of. cbn [seq map app]. repeat (apply cons_eq; [load_limb|]). reflexivity.
Qed.

Definition key_ranges : list (Z * Z) := replicate 11 full ++ [(0, 2 ^ 25 - 1)].

Lemma load_limbs_spec k : key_ok k -> val (load_limbs k) = key_val k /\ holds key_ranges (load_limbs k).
Proof.
  intros Hk. rewrite (load_limbs_ok k Hk), limbs_of_val, key_val_bytes. split; [done|]. apply limbs_of_holds.
  rewrite <- key_val_bytes. pose proof (key_val_bound k Hk). change (weight 11 * 2 ^ 25) with (2 ^ 256). lia.
Qed.

(** ** Products *)

Lemma val_limbs c n : (length c <= n)%nat -> val (map (limb c) (seq 0 n)) = val c.
Proof.
  revert c. induction n as [|n IH]; intros [|x c] Hn; cbn [length] in Hn; try lia; [done| |]; cbn [seq map]; rewrite val_cons, <- seq_shift, map_map.
  - rewrite (map_ext _ (limb [])) by (intros i; by destruct i). rewrite IH by (cbn; lia). done.
  - rewrite (map_ext _ (limb c)) by done. rewrite IH by lia. done.
Qed.

Lemma val_add (g h : nat -> Z) l : val (map (fun k => g k + h k) l) = val (map g l) + val (map h l).
Proof. induction l as [|k l IH]; [done|]. cbn [map]. rewrite !val_cons, IH. ring. Qed.

Lemma val_opp (g : nat -> Z) l : val (map (fun k => - g k) l) = - val (map g l).
Proof. induction l as [|k l IH]; [done|]. cbn [map]. rewrite !val_cons, IH. ring. Qed.

(** The limbs of the product have its value. *)
Lemma product_value a b : length a = 12%nat -> length b = 12%nat -> val (map (product_limb a b) (seq 0 23)) = val a * val b.
Proof.
  intros Ha Hb. do 12 (destruct a as [|? a]; [discriminate|]). destruct a; [|discriminate].
  do 12 (destruct b as [|? b]; [discriminate|]). destruct b; [|discriminate]. clear Ha Hb.
  unfold val, product_limb, limb. cbn [le_val map seq foldr nth Nat.sub]. ring.
Qed.

Lemma limb_range s i h : 0 <= h -> Forall (fun x => 0 <= x <= h) s -> 0 <= limb s i <= h.
Proof.
  intros Hh Hs. unfold limb. revert i. induction Hs as [|x s Hx Hs IH]; intros [|i]; cbn [nth]; try lia. apply IH.
Qed.

Lemma product_limb_bound a b k : (k < 23)%nat -> Forall (fun x => 0 <= x <= 2 ^ 25) a -> Forall (fun x => 0 <= x <= 2 ^ 25) b ->
  0 <= product_limb a b k <= 23 * 2 ^ 50.
Proof.
  intros Hk Ha Hb. unfold product_limb. assert (forall l, 0 <= foldr (fun j acc => limb a j * limb b (k - j) + acc) 0 l <= Z.of_nat (length l) * 2 ^ 50) as Hl.
  { induction l as [|j l IH]; [by split|]. cbn [foldr length]. pose proof (limb_range a j (2 ^ 25) ltac:(lia) Ha) as H1.
    pose proof (limb_range b (k - j) (2 ^ 25) ltac:(lia) Hb) as H2.
    assert (0 <= limb a j * limb b (k - j) <= 2 ^ 25 * 2 ^ 25) as H3 by (split; [|apply Z.mul_le_mono_nonneg]; lia). lia. }
  specialize (Hl (seq 0 (S k))). rewrite length_seq in Hl. lia.
Qed.

Lemma key_ranges_bound s : holds key_ranges s -> length s = 12%nat /\ Forall (fun x => 0 <= x <= 2 ^ 25) s.
Proof.
  intros Hs. split; [by rewrite <- (Forall2_length _ _ _ Hs)|]. apply Forall_lookup_2. intros i x Ex.
  destruct (Forall2_lookup_r _ _ _ _ _ Hs Ex) as (r & Er & Hx).
  assert (Forall (fun r => 0 <= fst r /\ snd r <= 2 ^ 25) key_ranges) as Hk by (unfold key_ranges, full; repeat constructor; cbn [fst snd]; lia).
  pose proof (Forall_lookup_1 _ _ _ _ Hk Er) as Hb. unfold within in Hx. cbn beta in Hb. lia.
Qed.

(** The bounds of the limbs to which a product is added, or from which it is subtracted. *)
Definition product_ranges (lo hi : Z) : list (Z * Z) := replicate 23 (lo, hi) ++ [(0, 0)].

Lemma product_limbs_holds f c a b lo hi :
  (forall k, (k < 23)%nat -> lo <= limb c k + f (product_limb a b k) <= hi) -> - 2 ^ 63 <= lo -> hi < 2 ^ 63 ->
  holds (product_ranges lo hi) (product_limbs f c a b) /\
  val (product_limbs f c a b) = val (map (fun k => limb c k + f (product_limb a b k)) (seq 0 23)).
Proof.
  intros Hb Hlo Hhi. unfold product_limbs.
  assert (map (fun k => i64 (limb c k + f (product_limb a b k))) (seq 0 23) = map (fun k => limb c k + f (product_limb a b k)) (seq 0 23)) as ->.
  { apply map_ext_in. intros k [_ Hk]%in_seq. apply i64_small. specialize (Hb k ltac:(lia)). lia. }
  split.
  - apply Forall2_app; [|repeat constructor; unfold within; cbn [fst snd]; lia].
    apply Forall2_same_length_lookup_2; [by rewrite length_replicate, length_map, length_seq|].
    intros i r x [-> _]%lookup_replicate Ex. apply list_lookup_fmap_Some in Ex as (j & -> & Ej). apply lookup_seq in Ej as [-> Hj].
    unfold within. cbn [fst snd]. apply Hb. lia.
  - rewrite val_app. change (val [0]) with 0. lia.
Qed.

(** [c + a * b] and [c - a * b]; without [c] its limbs are zero. *)
Lemma product_added c a b : key_ok a -> key_ok b -> c = [] \/ holds key_ranges c ->
  let s := product_limbs (fun p => p) c (load_limbs a) (load_limbs b) in
  holds (product_ranges 0 (2 ^ 25 + 23 * 2 ^ 50)) s /\ val s = val c + key_val a * key_val b.
Proof.
  intros Ha Hb Hc s. destruct (load_limbs_spec a Ha) as [<- [La Ra]%key_ranges_bound], (load_limbs_spec b Hb) as [<- [Lb Rb]%key_ranges_bound].
  assert ((length c <= 23)%nat /\ Forall (fun x => 0 <= x <= 2 ^ 25) c) as [Lc Rc].
  { destruct Hc as [->|[-> Rc]%key_ranges_bound]; [split; [cbn; lia|constructor]|split; [lia|done]]. }
  destruct (product_limbs_holds (fun p => p) c (load_limbs a) (load_limbs b) 0 (2 ^ 25 + 23 * 2 ^ 50)) as [Hh Hv]; [|lia|lia|].
  { intros k Hk. pose proof (limb_range c k (2 ^ 25) ltac:(lia) Rc). pose proof (product_limb_bound _ _ k Hk Ra Rb). lia. }
  split; [exact Hh|]. unfold s. rewrite Hv, val_add, val_limbs, product_value by done. done.
Qed.

Lemma product_subtracted c a b : key_ok a -> key_ok b -> holds key_ranges c ->
  let s := product_limbs Z.opp c (load_limbs a) (load_limbs b) in
  holds (product_ranges (- (23 * 2 ^ 50)) (2 ^ 25)) s /\ val s = val c - key_val a * key_val b.
Proof.
  intros Ha Hb [Lc Rc]%key_ranges_bound s.
  destruct (load_limbs_spec a Ha) as [<- [La Ra]%key_ranges_bound], (load_limbs_spec b Hb) as [<- [Lb Rb]%key_ranges_bound].
  destruct (product_limbs_holds Z.opp c (load_limbs a) (load_limbs b) (- (23 * 2 ^ 50)) (2 ^ 25)) as [Hh Hv]; [|lia|lia|].
  { intros k Hk. pose proof (limb_range c k (2 ^ 25) ltac:(lia) Rc). pose proof (product_limb_bound _ _ k Hk Ra Rb). lia. }
  split; [exact Hh|]. unfold s. rewrite Hv, val_add, val_opp, val_limbs, product_value by lia. lia.
Qed.

(** ** Sums *)

Lemma zip_limbs (op : Z -> Z -> Z) lo hi a b :
  (forall x y, 0 <= x < 2 ^ 21 -> 0 <= y < 2 ^ 21 -> lo <= op x y <= hi) ->
  (forall x y, 0 <= x < 2 ^ 25 -> 0 <= y < 2 ^ 25 -> 16 * lo <= op x y <= 16 * hi) -> - 2 ^ 58 <= lo -> hi < 2 ^ 58 ->
  (forall x y t u m, op (x + m * t) (y + m * u) = op x y + m * op t u) -> op 0 0 = 0 ->
  holds key_ranges a -> holds key_ranges b ->
  let s := zip_with (fun x y => i64 (op x y)) a b ++ [0] in
  holds (replicate 11 (lo, hi) ++ [(16 * lo, 16 * hi); (0, 0)]) s /\ val s = op (val a) (val b).
Proof.
  intros H1 H2 Hlo Hhi Hlin H0 Ha Hb s. unfold key_ranges in Ha, Hb.
  assert (lo <= 0 <= hi) as Hz by (rewrite <- H0; apply H1; lia).
  assert (forall n a b, holds (replicate n full ++ [(0, 2 ^ 25 - 1)]) a -> holds (replicate n full ++ [(0, 2 ^ 25 - 1)]) b ->
    let s := zip_with (fun x y => i64 (op x y)) a b ++ [0] in
    holds (replicate n (lo, hi) ++ [(16 * lo, 16 * hi); (0, 0)]) s /\ val s = op (val a) (val b)) as Hn; [|by apply Hn].
  clear s Ha Hb a b. induction n as [|n IH]; intros a b Ha Hb; inversion_clear Ha as [|? x ? a' Hx Ha']; inversion_clear Hb as [|? y ? b' Hy Hb'];
    unfold within, full in Hx, Hy; cbn [fst snd] in Hx, Hy.
  - inversion Ha'. inversion Hb'. subst. cbn [zip_with app replicate]. specialize (H2 x y ltac:(lia) ltac:(lia)). rewrite i64_small by lia.
    split; [repeat constructor; unfold within; cbn [fst snd]; lia|]. rewrite !val_cons. change (val []) with 0.
    rewrite Hlin, H0. lia.
  - destruct (IH a' b' Ha' Hb') as [Hh Hv]. specialize (H1 x y ltac:(lia) ltac:(lia)). cbn [zip_with app replicate]. rewrite i64_small by lia.
    split; [constructor; [unfold within; cbn [fst snd]; lia|exact Hh]|]. rewrite !val_cons, Hv, Hlin. done.
Qed.

(** ** The functions compute modulo the order *)

(** The checks of a sequence of carries and foldings, for bounds of its limbs. *)
Definition reduces (p : list instr) (rs : list (Z * Z)) : bool :=
  forallb no_last p && match ranges p rs with Some rs' => finish_ok rs' | None => false end.

Lemma reduces_sound p rs s op : reduces p rs = true -> op = Fold 12 \/ op = FoldLast 12 -> holds rs s ->
  store_limbs (run (p ++ finish op) s) = key_of (val s mod order).
Proof.
  unfold reduces. intros [Hp H]%andb_true_iff Hop Hs. destruct (ranges p rs) as [rs'|] eqn:E; [|done]. by apply (reduced p rs rs').
Qed.

Lemma product_reduced s lo hi : reduces (product_carries ++ high_folds ++ low_rounds) (product_ranges lo hi) = true ->
  holds (product_ranges lo hi) s ->
  store_limbs (run (product_carries ++ high_folds ++ low_rounds ++ finish (Fold 12)) s) = key_of (val s mod order).
Proof. intros Hr Hs. rewrite (app_assoc high_folds), app_assoc. apply (reduces_sound _ _ _ _ Hr); auto. Qed.

Lemma sum_reduced s rs : reduces low_rounds rs = true -> holds rs s ->
  store_limbs (run (low_rounds ++ finish (FoldLast 12)) s) = key_of (val s mod order).
Proof. intros Hr Hs. apply (reduces_sound _ _ _ _ Hr); auto. Qed.

Lemma reduces_add : reduces low_rounds (replicate 11 (0, 2 ^ 22) ++ [(16 * 0, 16 * 2 ^ 22); (0, 0)]) = true.
Proof. vm_compute. reflexivity. Qed.

Lemma reduces_sub : reduces low_rounds (replicate 11 (- 2 ^ 21, 2 ^ 21) ++ [(16 * - 2 ^ 21, 16 * 2 ^ 21); (0, 0)]) = true.
Proof. vm_compute. reflexivity. Qed.

Lemma reduces_product_added : reduces (product_carries ++ high_folds ++ low_rounds) (product_ranges 0 (2 ^ 25 + 23 * 2 ^ 50)) = true.
Proof. vm_compute. reflexivity. Qed.

Lemma reduces_product_subtracted : reduces (product_carries ++ high_folds ++ low_rounds) (product_ranges (- (23 * 2 ^ 50)) (2 ^ 25)) = true.
Proof. vm_compute. reflexivity. Qed.

Lemma reduces_32 : reduces low_rounds (key_ranges ++ [(0, 0)]) = true.
Proof. vm_compute. reflexivity. Qed.

Lemma reduces_64 : reduces (high_folds ++ low_rounds) (replicate 23 full ++ [(0, 2 ^ 29 - 1)]) = true.
Proof. vm_compute. reflexivity. Qed.

(** C8: the arithmetic of scalars, on twelve limbs of 21 bits in [int64], is that of
    the integers modulo the order of the curve, for all 32 bytes and not only for
    reduced ones: sums, differences, products and their combinations, and the
    reductions of 32 and of 64 bytes.  No intermediate number leaves [int64], and the
    result is the canonical one.  These are the laws of scalars that the class of the
    curve's operations promises to the rest of the library. *)
Theorem scalar_arithmetic a b c s : key_ok a -> key_ok b -> key_ok c -> bytes_ok s -> length s = 64%nat ->
  ScAdd a b = key_of ((key_val a + key_val b) mod order) /\
  ScSub a b = key_of ((key_val a - key_val b) mod order) /\
  ScMul a b = key_of ((key_val a * key_val b) mod order) /\
  ScMulAdd a b c = key_of ((key_val a * key_val b + key_val c) mod order) /\
  ScMulSub a b c = key_of ((key_val c - key_val a * key_val b) mod order) /\
  ScReduce32 a = key_of (key_val a mod order) /\
  ScReduce s = key_of (bytes_val s mod order).
Proof.
  intros Ha Hb Hc Hs Hl. destruct (load_limbs_spec a Ha) as [Va Ra], (load_limbs_spec b Hb) as [Vb Rb], (load_limbs_spec c Hc) as [Vc Rc].
  repeat match goal with |- _ /\ _ => split end.
  - destruct (zip_limbs Z.add 0 (2 ^ 22) (load_limbs a) (load_limbs b)) as [Hh Hv]; [lia|lia|lia|lia|intros; ring|reflexivity|exact Ra|exact Rb|].
    unfold ScAdd. rewrite (sum_reduced _ _ reduces_add Hh), Hv, Va, Vb. reflexivity.
  - destruct (zip_limbs Z.sub (- 2 ^ 21) (2 ^ 21) (load_limbs a) (load_limbs b)) as [Hh Hv]; [lia|lia|lia|lia|intros; ring|reflexivity|exact Ra|exact Rb|].
    unfold ScSub. rewrite (sum_reduced _ _ reduces_sub Hh), Hv, Va, Vb. reflexivity.
  - destruct (product_added [] a b Ha Hb (or_introl eq_refl)) as [Hh Hv]. unfold ScMul. rewrite (product_reduced _ _ _ reduces_product_added Hh), Hv. reflexivity.
  - destruct (product_added (load_limbs c) a b Ha Hb (or_intror Rc)) as [Hh Hv]. unfold ScMulAdd.
    rewrite (product_reduced _ _ _ reduces_product_added Hh), Hv, Vc. do 2 f_equal. lia.
  - destruct (product_subtracted (load_limbs c) a b Ha Hb Rc) as [Hh Hv]. unfold ScMulSub.
    rewrite (product_reduced _ _ _ reduces_product_subtracted Hh), Hv, Vc. reflexivity.
  - assert (holds (key_ranges ++ [(0, 0)]) (load_limbs a ++ [0])) as Hh.
    { apply Forall2_app; [exact Ra|]. repeat constructor; unfold within; cbn [fst snd]; lia. }
    unfold ScReduce32. rewrite (sum_reduced _ _ reduces_32 Hh), val_app, Va. change (val [0]) with 0. by rewrite Z.mul_0_r, Z.add_0_r.
  - assert (holds (replicate 23 full ++ [(0, 2 ^ 29 - 1)]) (limbs_of 23 (bytes_val s))) as Hh.
    { apply limbs_of_holds. pose proof (bytes_val_bound s Hs) as B. rewrite Hl in B. change (weight 23 * 2 ^ 29) with (256 ^ Z.of_nat 64). lia. }
    unfold ScReduce. rewrite load_limbs64_ok, app_assoc, (reduces_sound _ _ _ _ reduces_64 (or_introl eq_refl) Hh), limbs_of_val by done. reflexivity.
Qed.

(** One less than the order, and 64 bytes of 255. *)
Lemma scalar_arithmetic_witness : ScMulAdd (key_of (order - 1)) (key_of (order - 1)) (key_of 5) = key_of 6 /\
  ScReduce (replicate 64 255) = key_of ((2 ^ 512 - 1) mod order).
Proof.
  pose proof (scalar_arithmetic (key_of (order - 1)) (key_of (order - 1)) (key_of 5) (replicate 64 255)
    (key_of_ok _) (key_of_ok _) (key_of_ok _) ltac:(by apply Forall_replicate) eq_refl) as H.
  destruct H as (_ & _ & _ & H4 & _ & _ & H7). split; [rewrite H4|rewrite H7]; vm_compute; reflexivity.
Defined.
