(* ===== verification/Key.v ===== *)
(** * Package [key]: the keys of an account

    [src/key/key.go], [keyset.go], and from [committee.go] and [bridge.go] the
    operations that are not JSON or third-party elliptic curves.  Keys are byte
    strings; a [nil] slice is the empty string. *)

From stdpp Require Import base list gmap strings.
From Stdlib Require Import ZArith Lia.
From S2P Require Import Prelude Common Hashing Crypto.
Open Scope Z_scope.

(** ** key.go *)

Record ViewingKey := mkViewingKey { vk_Pk : list Z; vk_Rk : list Z }.
Record OTAKey := mkOTAKey { ota_pk : list Z; ota_otaSecret : list Z }.
Record PaymentAddress := mkPaymentAddress {
  pa_Pk : list Z; pa_Tk : list Z; pa_OTAPublic : list Z }.
Record PaymentInfo := mkPaymentInfo {
  pi_PaymentAddress : PaymentAddress; pi_Amount : Z; pi_Message : list Z }.
Record KeySet := mkKeySet {
  ks_PrivateKey : list Z; ks_PaymentAddress : PaymentAddress;
  ks_ReadonlyKey : ViewingKey; ks_OTAKey : OTAKey }.

Definition emptyAddress : PaymentAddress := mkPaymentAddress [] [] [].
Definition emptyViewingKey : ViewingKey := mkViewingKey [] [].
Definition emptyOTAKey : OTAKey := mkOTAKey [] [].
Definition emptyKeySet : KeySet := mkKeySet [] emptyAddress emptyViewingKey emptyOTAKey.

Definition OTAKey_SetOTASecretKey (v : list Z) (k : OTAKey) : OTAKey :=
  if (length (ota_otaSecret k) =? 0)%nat then mkOTAKey (ota_pk k) v else k.
Definition OTAKey_SetPublicSpend (v : list Z) (k : OTAKey) : OTAKey :=
  if (length (ota_pk k) =? 0)%nat then mkOTAKey v (ota_otaSecret k) else k.
Definition OTAKey_GetOTASecretKey (k : OTAKey) : option (list Z) :=
  let otaSecret := Scalar_FromBytesS (ota_otaSecret k) in
  if ScValid otaSecret then Some otaSecret else None.

Definition ViewingKey_GetPrivateView (k : ViewingKey) : list Z := Scalar_FromBytesS (vk_Rk k).

Definition PaymentAddress_Bytes (addr : PaymentAddress) : list Z :=
  let res := pa_Pk addr ++ pa_Tk addr in
  if bool_decide (pa_OTAPublic addr = []) then res else res ++ pa_OTAPublic addr.

Definition PaymentAddress_SetBytes (b : list Z) : st PaymentAddress unit := fun addr =>
  if negb (length b =? 2 * Ed25519KeySize)%nat && negb (length b =? 3 * Ed25519KeySize)%nat
  then (addr, Err "length of payment address not valid")
  else
    let pk := take Ed25519KeySize b in
    let tk := take Ed25519KeySize (drop Ed25519KeySize b) in
    let ota := if (length b =? 3 * Ed25519KeySize)%nat then drop (2 * Ed25519KeySize) b else [] in
    (mkPaymentAddress pk tk ota, Ok tt).

Definition PaymentAddress_String (addr : PaymentAddress) : list Z :=
  hex_encode (PaymentAddress_Bytes addr).

Definition InitPaymentInfo (addr : PaymentAddress) (amount : Z) (message : list Z) : PaymentInfo :=
  mkPaymentInfo addr amount message.

Section keys.
Context `{CO : CurveOps} `{DG : Digests}.

(** A dropped error: the [nil] point. *)
Definition point_or_nil (r : res (list Z)) : option (list Z) :=
  match r with Ok p => Some p | _ => None end.

Definition ViewingKey_GetPublicSpend (k : ViewingKey) : option (list Z) :=
  point_or_nil (Point_FromBytesS (vk_Pk k)).

Definition OTAKey_GetPublicSpend (k : OTAKey) : option (list Z) :=
  match Point_FromBytesS (ota_pk k) with
  | Ok pubSpend => if PointValid pubSpend then Some pubSpend else None
  | _ => None
  end.

Definition PaymentAddress_GetPublicSpend (addr : PaymentAddress) : option (list Z) :=
  point_or_nil (Point_FromBytesS (pa_Pk addr)).
Definition PaymentAddress_GetPublicView (addr : PaymentAddress) : option (list Z) :=
  point_or_nil (Point_FromBytesS (pa_Tk addr)).
Definition PaymentAddress_GetOTAPublicKey (addr : PaymentAddress) : option (list Z) :=
  if (length (pa_OTAPublic addr) =? 0)%nat then None
  else point_or_nil (Point_FromBytesS (pa_OTAPublic addr)).

(** [HashToScalar(b).ToBytesS()]: a [nil] scalar would be dereferenced. *)
Definition hash_scalar_bytes (b : list Z) : res (list Z) :=
  match HashToScalar b with Some s => Ok s | None => Panic end.

Definition GeneratePrivateKey (seed : list Z) : res (list Z) := hash_scalar_bytes seed.

Definition GeneratePublicKey (privateKey : list Z) : list Z :=
  Point_ScalarMultBase (Scalar_FromBytesS privateKey).

Definition GenerateReceivingKey (privateKey : list Z) : res (list Z) :=
  hash_scalar_bytes privateKey.

Definition GenerateTransmissionKey (receivingKey : list Z) : list Z :=
  Point_ScalarMultBase (Scalar_FromBytesS receivingKey).

Definition GenerateViewingKey (privateKey : list Z) : res ViewingKey :=
  let* rk := GenerateReceivingKey privateKey in
  Ok (mkViewingKey (GeneratePublicKey privateKey) rk).

Definition GeneratePrivateOTAKey (privateKey : list Z) : res (list Z) :=
  hash_scalar_bytes (privateKey ++ CStringOTA).

Definition GeneratePublicOTAKey (privateOTAKey : list Z) : list Z :=
  Point_ScalarMultBase (Scalar_FromBytesS privateOTAKey).

Definition GenerateOTAKey (privateKey : list Z) : res OTAKey :=
  let* otaSecret := GeneratePrivateOTAKey privateKey in
  Ok (mkOTAKey (GeneratePublicKey privateKey) otaSecret).

Definition GeneratePaymentAddress (privateKey : list Z) : res PaymentAddress :=
  let* rk := GenerateReceivingKey privateKey in
  let* ota := GeneratePrivateOTAKey privateKey in
  Ok (mkPaymentAddress (GeneratePublicKey privateKey) (GenerateTransmissionKey rk)
        (GeneratePublicOTAKey ota)).

(** ** keyset.go *)

Definition keyset_of (privateKey : list Z) : res KeySet :=
  let* addr := GeneratePaymentAddress privateKey in
  let* vk := GenerateViewingKey privateKey in
  let* ota := GenerateOTAKey privateKey in
  Ok (mkKeySet privateKey addr vk ota).

Definition KeySet_GenerateKey (seed : list Z) : res KeySet :=
  let* sk := GeneratePrivateKey seed in keyset_of sk.

Definition PrivateKeySize : nat := 32.

Definition KeySet_InitFromPrivateKeyByte (privateKey : list Z) : res KeySet :=
  if negb (length privateKey =? PrivateKeySize)%nat then Err "InvalidPrivateKeyErr"
  else keyset_of privateKey.

Definition KeySet_InitFromPrivateKey (privateKey : option (list Z)) : res KeySet :=
  match privateKey with
  | None => Err "InvalidPrivateKeyErr"
  | Some sk => if negb (length sk =? PrivateKeySize)%nat then Err "InvalidPrivateKeyErr"
               else keyset_of sk
  end.
End keys.

(** ** bridge.go and committee.go *)

Definition CBridgeSigSz : nat := 65.

(** [sig[64] + 27] is a byte. *)
Definition DecodeECDSASig (sigStr : list Z) : res (Z * list Z * list Z) :=
  let (sig, ok) := hex_decode sigStr in
  if negb (length sig =? CBridgeSigSz)%nat || negb ok then Err "signature size is invalid"
  else
    let* v := index sig 64 in
    let* r := slice sig 0 32 in
    let* s := slice sig 32 64 in
    Ok (u8 (v + 27), r, s).

Record CommitteePublicKey := mkCommittee {
  cpk_IncPubKey : list Z; cpk_MiningPubKey : gmap string (list Z) }.

Definition NewCommitteePublicKey : CommitteePublicKey := mkCommittee [] ∅.

(** The value of a missing key is [nil], of length 0. *)
Definition mining_len (k : CommitteePublicKey) (name : string) : nat :=
  match cpk_MiningPubKey k !! name with Some b => length b | None => 0 end.

Definition CheckSanityData (k : CommitteePublicKey) : bool :=
  negb (negb (length (cpk_IncPubKey k) =? 32)%nat || negb (mining_len k "bls" =? 128)%nat ||
        negb (mining_len k "dsa" =? 33)%nat).

(** The values in the order of the sorted keys, [sorted] being the result of
    [sort.Strings] on the keys. *)
Definition RawBytes (k : CommitteePublicKey) (sorted : list string) : list Z :=
  fold_left (fun r name => r ++ match cpk_MiningPubKey k !! name with Some b => b | None => [] end)
            sorted (cpk_IncPubKey k).

(** The loop over the receiver's map; its order does not matter, the result
    being [false] as soon as one entry differs. *)
Definition CommitteePublicKey_IsEqual (k target : CommitteePublicKey) : bool :=
  if negb (bool_decide (cpk_IncPubKey k = cpk_IncPubKey target)) then false
  else forallb (fun kv => match cpk_MiningPubKey target !! fst kv with
                          | None => false
                          | Some v => bool_decide (v = snd kv)
                          end) (map_to_list (cpk_MiningPubKey k)).

(** ** Lemmas *)

Definition address_ok (a : PaymentAddress) : Prop :=
  key_ok (pa_Pk a) /\ key_ok (pa_Tk a) /\ (pa_OTAPublic a = [] \/ key_ok (pa_OTAPublic a)).

Lemma PaymentAddress_roundtrip a a0 : address_ok a ->
  PaymentAddress_SetBytes (PaymentAddress_Bytes a) a0 = (a, Ok tt).
Proof.
  destruct a as [pk tk ota]. unfold address_ok, key_ok. simpl.
  intros ((Hp & _) & (Ht & _) & Ho). unfold PaymentAddress_SetBytes, PaymentAddress_Bytes.
  simpl pa_Pk. simpl pa_Tk. simpl pa_OTAPublic.
  destruct Ho as [->|[Ho _]].
  - rewrite bool_decide_true by done. rewrite length_app, Hp, Ht. simpl.
    rewrite take_app_length', drop_app_length' by done.
    by rewrite take_ge by (rewrite Ht; done).
  - rewrite bool_decide_false by (intros ->; done).
    rewrite !length_app, Hp, Ht, Ho. simpl. rewrite <- app_assoc.
    rewrite take_app_length', drop_app_length' by done. rewrite take_app_length' by done.
    rewrite app_assoc, drop_app_length' by (rewrite length_app, Hp, Ht; done). done.
Qed.

Section laws.
Context `{CL : CurveLaws} `{DL : DigestLaws}.

Lemma FromBytesS_key_ok l : bytes_ok l -> key_ok (Scalar_FromBytesS l).
Proof using Type.
  intros Hl. unfold Scalar_FromBytesS. split; [apply length_copy_to_array|].
  unfold copy_to_array. apply Forall_app. split; [by apply Forall_take|].
  apply Forall_replicate. unfold is_byte. lia.
Qed.

Lemma FromBytesS_exact k : key_ok k -> Scalar_FromBytesS k = k.
Proof using Type. intros [Hl _]. unfold Scalar_FromBytesS. by apply copy_to_array_exact. Qed.

Lemma ScalarMultBase_pt a : key_ok a -> pt_ok (Point_ScalarMultBase a) /\
  Point_ScalarMultBase a = ScalarMultKey GBASE (ScReduce32 a).
Proof using Type*.
  intros Ha. unfold Point_ScalarMultBase, ScalarmultBase. simpl.
  destruct (ScReduce32_ok a Ha) as [Hs _]. rewrite mult_base by done.
  split; [|done]. apply pt_mult; [apply pt_base|done].
Qed.

Lemma ScReduce32_sc a : sc_ok a -> ScReduce32 a = a.
Proof using Type*.
  intros Ha. destruct (ScReduce32_ok a (proj1 Ha)) as [Hs Vs]. apply sc_eq; [done..|].
  rewrite Vs. by apply Z.mod_small, sc_ok_bound.
Qed.

Lemma ScalarMultBase_sc a : sc_ok a -> Point_ScalarMultBase a = ScalarMultKey GBASE a.
Proof using Type*.
  intros Ha. destruct (ScalarMultBase_pt a (proj1 Ha)) as [_ ->]. by rewrite ScReduce32_sc.
Qed.

Lemma hash_scalar_bytes_ok b : bytes_ok b ->
  hash_scalar_bytes b = Ok (key_HashToScalar b) /\ sc_ok (key_HashToScalar b).
Proof using Type*.
  intros Hb. destruct (HashToScalar_ok b Hb) as (s & E & -> & Hs).
  unfold hash_scalar_bytes. by rewrite E.
Qed.

Lemma CStringOTA_ok : bytes_ok CStringOTA.
Proof using Type. repeat constructor; unfold is_byte; lia. Qed.

Lemma keyset_of_ok sk : bytes_ok sk ->
  let vk := key_HashToScalar sk in
  let ota := key_HashToScalar (sk ++ CStringOTA) in
  sc_ok vk /\ sc_ok ota /\
  keyset_of sk = Ok (mkKeySet sk
    (mkPaymentAddress (Point_ScalarMultBase (Scalar_FromBytesS sk))
       (ScalarMultKey GBASE vk) (ScalarMultKey GBASE ota))
    (mkViewingKey (Point_ScalarMultBase (Scalar_FromBytesS sk)) vk)
    (mkOTAKey (Point_ScalarMultBase (Scalar_FromBytesS sk)) ota)).
Proof using Type*.
  intros Hsk vk ota.
  destruct (hash_scalar_bytes_ok sk Hsk) as [E1 H1].
  destruct (hash_scalar_bytes_ok (sk ++ CStringOTA)) as [E2 H2];
    [apply Forall_app; split; [done|apply CStringOTA_ok]|].
  split; [done|]. split; [done|].
  unfold keyset_of, GeneratePaymentAddress, GenerateViewingKey, GenerateOTAKey,
    GenerateReceivingKey, GeneratePrivateOTAKey, GeneratePublicKey, GenerateTransmissionKey,
    GeneratePublicOTAKey. rewrite E1, E2. cbn [res_bind].
  rewrite (FromBytesS_exact _ (proj1 H1)), (FromBytesS_exact _ (proj1 H2)).
  by rewrite (ScalarMultBase_sc _ H1), (ScalarMultBase_sc _ H2).
Qed.

(** ** Properties *)

(** The keys of an account.  From every 32-byte private key (and every
    seed) [InitFromPrivateKey] ([GenerateKey]) builds a key set without an error,
    in which each public key is the secret one times the base point (the
    public OTA and transmission keys of the address belong to the secrets of
    the OTA and viewing keys), every point parses, and the address survives
    [Bytes]/[SetBytes]; any other length of private key is an error. *)
Theorem keyset_functional sk : bytes_ok sk ->
  (length sk <> 32%nat -> KeySet_InitFromPrivateKey (Some sk) = Err "InvalidPrivateKeyErr") /\
  (exists ks', KeySet_GenerateKey sk = Ok ks') /\
  (length sk = 32%nat -> exists ks, KeySet_InitFromPrivateKey (Some sk) = Ok ks /\
     KeySet_InitFromPrivateKeyByte sk = Ok ks /\ ks_PrivateKey ks = sk /\
     PaymentAddress_GetPublicSpend (ks_PaymentAddress ks)
       = Some (ScalarMultKey GBASE (ScReduce32 sk)) /\
     OTAKey_GetPublicSpend (ks_OTAKey ks) = PaymentAddress_GetPublicSpend (ks_PaymentAddress ks) /\
     ViewingKey_GetPublicSpend (ks_ReadonlyKey ks)
       = PaymentAddress_GetPublicSpend (ks_PaymentAddress ks) /\
     PaymentAddress_GetPublicView (ks_PaymentAddress ks)
       = Some (ScalarMultKey GBASE (ViewingKey_GetPrivateView (ks_ReadonlyKey ks))) /\
     (exists ota, OTAKey_GetOTASecretKey (ks_OTAKey ks) = Some ota /\
        PaymentAddress_GetOTAPublicKey (ks_PaymentAddress ks) = Some (ScalarMultKey GBASE ota)) /\
     (forall a0, PaymentAddress_SetBytes (PaymentAddress_Bytes (ks_PaymentAddress ks)) a0
        = (ks_PaymentAddress ks, Ok tt))).
Proof using Type*.
  intros Hsk. split; [|split].
  - intros Hl. unfold KeySet_InitFromPrivateKey, PrivateKeySize.
    by destruct (Nat.eqb_spec (length sk) 32).
  - unfold KeySet_GenerateKey, GeneratePrivateKey.
    destruct (hash_scalar_bytes_ok sk Hsk) as [-> Hs]. cbn [res_bind].
    destruct (keyset_of_ok (key_HashToScalar sk)) as (_ & _ & ->); [apply Hs|]. by eexists.
  - intros Hl. destruct (keyset_of_ok sk Hsk) as (Hvk & Hota & E).
    set (vk := key_HashToScalar sk) in *. set (ota := key_HashToScalar (sk ++ CStringOTA)) in *.
    assert (key_ok sk) as Hk by done. rewrite (FromBytesS_exact sk Hk) in E.
    destruct (ScalarMultBase_pt sk Hk) as [Hpk Epk].
    assert (pt_ok (ScalarMultKey GBASE vk)) as Hvp by (apply pt_mult; [apply pt_base|done]).
    assert (pt_ok (ScalarMultKey GBASE ota)) as Hop by (apply pt_mult; [apply pt_base|done]).
    assert (forall p, pt_ok p -> Point_FromBytesS p = Ok p /\ PointValid p = true) as HP.
    { intros p Hp. destruct (pt_key p Hp) as [[Hlp _] Hv]. split; [|exact Hv].
      unfold Point_FromBytesS, Point_FromBytesS_st. rewrite Hlp. cbn [negb Nat.eqb Ed25519KeySize].
      rewrite copy_to_array_exact by done. by rewrite Hv. }
    unfold KeySet_InitFromPrivateKey, KeySet_InitFromPrivateKeyByte, PrivateKeySize.
    rewrite Hl. simpl negb. cbv iota. rewrite E. eexists. split; [done|]. split; [done|].
    split; [done|]. unfold PaymentAddress_GetPublicSpend, OTAKey_GetPublicSpend,
      ViewingKey_GetPublicSpend, PaymentAddress_GetPublicView, PaymentAddress_GetOTAPublicKey,
      OTAKey_GetOTASecretKey, ViewingKey_GetPrivateView.
    cbn [ks_PaymentAddress ks_ReadonlyKey ks_OTAKey pa_Pk pa_Tk pa_OTAPublic vk_Pk vk_Rk
         ota_pk ota_otaSecret].
    destruct (HP _ Hpk) as [-> ->]. destruct (HP _ Hvp) as [-> _]. destruct (HP _ Hop) as [-> _].
    rewrite (FromBytesS_exact _ (proj1 Hvk)), (FromBytesS_exact _ (proj1 Hota)).
    rewrite Epk. split; [done|]. split; [done|]. split; [done|]. split; [done|]. split.
    + exists ota. rewrite sc_ok_valid by done. split; [done|].
      destruct (pt_key _ Hop) as [[Hlo _] _]. by rewrite Hlo.
    + intros a0. apply PaymentAddress_roundtrip. unfold address_ok. simpl.
      split; [by apply pt_key; rewrite <- Epk|].
      split; [by apply pt_key|]. right. by apply pt_key.
Qed.
End laws.

#[local] Existing Instances toy_curve toy_curve_laws toy_digests toy_digest_laws.

Lemma keyset_functional_witness :
  exists ks, KeySet_InitFromPrivateKey (Some (key_of 5)) = Ok ks /\
    PaymentAddress_GetPublicSpend (ks_PaymentAddress ks)
      = Some (ScalarMultKey GBASE (ScReduce32 (key_of 5))).
Proof.
  destruct (keyset_functional (key_of 5)) as (_ & _ & H).
  - apply key_of_ok.
  - destruct H as (ks & E & _ & _ & S & _).
    + apply key_of_ok.
    + exists ks. split; assumption.
Defined.
