(* ===== verification/Wallet.v ===== *)
(** * Package [wallet]: serialized keys and addresses

    [src/wallet/hdwallet.go], [utils.go] and [common.go].  BIP-32 derivation
    and BIP-39 mnemonics are third-party ([HDWallet]); the slices of
    [deserialize] may reach past the length of the data, up to the capacity that
    [append] gave it ([Allocator]). *)

From stdpp Require Import base list gmap strings.
From Stdlib Require Import ZArith Lia.
From S2P Require Import Prelude Common Hashing Crypto Key Base58 Base58Check.
Open Scope Z_scope.

Definition privateKeySerializedBytesLen : nat := 75.
Definition paymentAddrSerializedBytesLen : nat := 71.
Definition readOnlyKeySerializedBytesLen : nat := 71.
Definition otaKeySerializedBytesLen : nat := 71.

Definition PrivateKeyType : Z := 0.
Definition PaymentAddressType : Z := 1.
Definition ReadonlyKeyType : Z := 2.
Definition OTAKeyType : Z := 3.
Definition PrivateReceivingAddressType : Z := 4.

Definition HardenedKeyZeroIndex : Z := 0x80000000.
Definition BIP44Purpose : Z := 44.
Definition Bip44CoinType : Z := 587.
Definition MinSeedBytes : nat := 16.
Definition MaxSeedBytes : nat := 64.

Definition burnAddress1BytesDecode : list Z :=
  [1; 32; 99; 183; 246; 161; 68; 172; 228; 222; 153; 9; 172; 39; 208; 245; 167; 79; 11; 2; 114;
   65; 241; 69; 85; 40; 193; 104; 199; 79; 70; 4; 53; 0; 0; 163; 228; 236; 208].

Definition AddressVersion : Z := 1.
Definition BurningAddress : list Z :=
  str "15pABFiJVeh9D5uiQEhQX4SVibGGbdAVipQxBdxkmDqAJaoG1EdFKHBrNfs".
Definition BurningAddress2 : list Z :=
  str "12RxahVABnAVCGP3LGwCn8jkQxgw7z1x14wztHzn455TTVpi1wBq9YGwkRMQg3J4e657AbAnCvYCJSdA9czBUNuCKwGSRQt55Xwz8WA".

(** The capacity [append] gives to a fresh slice of a length. *)
Class Allocator : Type := append_cap : nat -> nat.
Class AllocatorLaws `{Allocator} : Prop := append_cap_ge : forall n, (n <= append_cap n)%nat.

(** The third-party HD wallet: keys, the child derivation, and the mnemonic
    codec. *)
Class HDWallet : Type := {
  hdkey : Type;
  hd_Key : hdkey -> list Z;
  hd_Chaincode : hdkey -> list Z;
  hd_MasterKey : list Z -> hdkey;
  hd_Child : hdkey -> Z -> res hdkey;
  bip39_IsMnemonicValid : list Z -> bool;
  bip39_NewSeed : list Z -> list Z
}.

(** [b[lo:hi]] with its bounds checked against the capacity; what lies between
    the length and the capacity of a fresh slice is zero. *)
Definition slice_cap (cap : nat) (b : list Z) (lo hi : nat) : res (list Z) :=
  if (lo <=? hi)%nat && (hi <=? cap)%nat
  then Ok (take (hi - lo) (drop lo (b ++ replicate (cap - length b) 0))) else Panic.

Section wallet.
Context `{CO : CurveOps} `{DG : Digests} `{LR : LRU} `{AL : Allocator} `{HD : HDWallet}.

Record KeyWallet := mkKeyWallet {
  kw_Depth : Z; kw_ChildNumber : list Z; kw_ChainCode : list Z;
  kw_HDKey : option hdkey; kw_KeySet : KeySet }.

Definition kw_setKeySet (ks : KeySet) (w : KeyWallet) : KeyWallet :=
  mkKeyWallet (kw_Depth w) (kw_ChildNumber w) (kw_ChainCode w) (kw_HDKey w) ks.

Definition emptyWallet : KeyWallet := mkKeyWallet 0 [] [] None emptyKeySet.

Definition NewMasterKeyFromSeed (seed : list Z) : res KeyWallet :=
  if (length seed <? MinSeedBytes)%nat || (MaxSeedBytes <? length seed)%nat
  then Err "invalid seed length"
  else
    let k := hd_MasterKey seed in
    let* keySet := KeySet_GenerateKey (hd_Key k) in
    Ok (mkKeyWallet 0 [0; 0; 0; 0] (hd_Chaincode k) (Some k) keySet).

Definition NewSeedFromMnemonic (mnemonic : list Z) : res (list Z) :=
  if negb (bip39_IsMnemonicValid mnemonic) then Err "mnemonic is invalid"
  else Ok (bip39_NewSeed mnemonic).

Definition NewMasterKeyFromMnemonic (mnemonic : list Z) : res KeyWallet :=
  let* seed := NewSeedFromMnemonic mnemonic in NewMasterKeyFromSeed seed.

Definition DeriveChild (i : Z) (w : KeyWallet) : res KeyWallet :=
  match kw_HDKey w with
  | None => Err "cannot dereive child key: HDKey not found"
  | Some hd =>
      let* purposeKey := hd_Child hd (HardenedKeyZeroIndex + BIP44Purpose) in
      let* coinTypeKey := hd_Child purposeKey (HardenedKeyZeroIndex + Bip44CoinType) in
      let* accountKey := hd_Child coinTypeKey HardenedKeyZeroIndex in
      let* changeKey := hd_Child accountKey 0 in
      let* childKey := hd_Child changeKey i in
      let* seed := slice (hd_Key childKey) 1 (length (hd_Key childKey)) in
      let* childKeySet := KeySet_GenerateKey seed in
      Ok (mkKeyWallet (u8 (kw_Depth w + 1)) (Uint32ToBytes i) (hd_Chaincode childKey)
            (Some childKey) childKeySet)
  end.

(** A length byte and the bytes. *)
Definition len_prefixed (b : list Z) : list Z := u8 (Z.of_nat (length b)) :: b.

Definition Serialize (keyType : Z) (isNewCheckSum : bool) (w : KeyWallet) : res (list Z) :=
  let ks := kw_KeySet w in
  let* body :=
    if keyType =? PrivateKeyType then
      Ok (kw_Depth w :: kw_ChildNumber w ++ kw_ChainCode w ++ len_prefixed (ks_PrivateKey ks))
    else if keyType =? PaymentAddressType then
      let addr := ks_PaymentAddress ks in
      Ok (len_prefixed (pa_Pk addr) ++ len_prefixed (pa_Tk addr) ++
          (if isNewCheckSum && (0 <? length (pa_OTAPublic addr))%nat
           then len_prefixed (pa_OTAPublic addr) else []))
    else if keyType =? ReadonlyKeyType then
      Ok (len_prefixed (vk_Pk (ks_ReadonlyKey ks)) ++ len_prefixed (vk_Rk (ks_ReadonlyKey ks)))
    else if keyType =? OTAKeyType then
      let* pk := deref (OTAKey_GetPublicSpend (ks_OTAKey ks)) in
      let* sk := deref (OTAKey_GetOTASecretKey (ks_OTAKey ks)) in
      Ok (len_prefixed pk ++ len_prefixed sk)
    else Err "InvalidKeyTypeErr" in
  let buffer := keyType :: body in
  Ok (buffer ++ ChecksumFirst4Bytes buffer isNewCheckSum).

Definition Base58CheckSerialize (keyType : Z) (w : KeyWallet) : st cache (list Z) :=
  let isNewEncoding := AddressVersion =? 1 in
  match Serialize keyType isNewEncoding w with
  | Ok serializedKey =>
      if isNewEncoding then Base58Check_NewEncode serializedKey 0
      else Base58Check_Encode serializedKey 0
  | Err _ => st_ret []
  | Panic => st_lift Panic
  | OutOfFuel => st_lift OutOfFuel
  end.

Definition deserialize_private (cap : nat) (data : list Z) : res KeyWallet :=
  if negb (length data =? privateKeySerializedBytesLen)%nat then Err "InvalidSeserializedKey"
  else
    let* depth := index data 1 in
    let* childNumber := slice_cap cap data 2 6 in
    let* chainCode := slice_cap cap data 6 38 in
    let* kl := index data 38 in
    let keyLength := Z.to_nat kl in
    let* sk := slice_cap cap data 39 (39 + keyLength) in
    let* ks := KeySet_InitFromPrivateKey (Some sk) in
    Ok (mkKeyWallet depth childNumber chainCode None ks).

Definition deserialize_address (cap : nat) (data : list Z) : res KeyWallet :=
  if negb (bool_decide (burnAddress1BytesDecode = data)) &&
     negb (length data =? paymentAddrSerializedBytesLen)%nat &&
     negb (length data =? paymentAddrSerializedBytesLen + 1 + Ed25519KeySize)%nat
  then Err "InvalidSeserializedKey"
  else
    let* l1 := index data 1 in
    let apkKeyLength := Z.to_nat l1 in
    let* l2 := index data (apkKeyLength + 2) in
    let publicViewKeyLength := Z.to_nat l2 in
    let* pk := slice_cap cap data 2 (2 + apkKeyLength) in
    let* tk := slice_cap cap data (3 + apkKeyLength) (3 + apkKeyLength + publicViewKeyLength) in
    let* ota :=
      if (paymentAddrSerializedBytesLen <? length data)%nat then
        let* l3 := index data (apkKeyLength + publicViewKeyLength + 3) in
        let publicOTALength := Z.to_nat l3 in
        if negb (publicOTALength =? Ed25519KeySize)%nat then Err "InvalidSeserializedKey"
        else slice_cap cap data (apkKeyLength + publicViewKeyLength + 4)
               (apkKeyLength + publicViewKeyLength + publicOTALength + 4)
      else Ok [] in
    Ok (kw_setKeySet (mkKeySet [] (mkPaymentAddress pk tk ota) emptyViewingKey emptyOTAKey)
                     emptyWallet).

(** The two other kinds: a public and a secret part. *)
Definition deserialize_pair (cap : nat) (data : list Z) : res (list Z * list Z) :=
  let* l1 := index data 1 in
  let pkKeyLength := Z.to_nat l1 in
  if (length data <? pkKeyLength + 3)%nat then Err "InvalidKeyTypeErr"
  else
    let* l2 := index data (pkKeyLength + 2) in
    let skKeyLength := Z.to_nat l2 in
    let* pk := slice_cap cap data 2 (2 + pkKeyLength) in
    let* sk := slice_cap cap data (3 + pkKeyLength) (3 + pkKeyLength + skKeyLength) in
    Ok (pk, sk).

Definition deserialize (cap : nat) (data : list Z) : res KeyWallet :=
  if (length data <? 2)%nat then Err "InvalidKeyTypeErr"
  else
    let* keyType := index data 0 in
    let* k :=
      if keyType =? PrivateKeyType then deserialize_private cap data
      else if keyType =? PaymentAddressType then deserialize_address cap data
      else if keyType =? ReadonlyKeyType then
        if negb (length data =? readOnlyKeySerializedBytesLen)%nat
        then Err "InvalidSeserializedKey"
        else
          let* (pk, rk) := deserialize_pair cap data in
          Ok (kw_setKeySet (mkKeySet [] emptyAddress (mkViewingKey pk rk) emptyOTAKey) emptyWallet)
      else if keyType =? OTAKeyType then
        if negb (length data =? otaKeySerializedBytesLen)%nat
        then Err "InvalidSeserializedKey"
        else
          let* (pk, sk) := deserialize_pair cap data in
          let k := OTAKey_SetOTASecretKey sk (OTAKey_SetPublicSpend pk emptyOTAKey) in
          Ok (kw_setKeySet (mkKeySet [] emptyAddress emptyViewingKey k) emptyWallet)
      else Err "InvalidKeyTypeErr" in
    let* body := slice_cap cap data 0 (length data - 4) in
    let* cs2 := slice data (length data - 4) (length data) in
    if negb (bool_decide (ChecksumFirst4Bytes body true = cs2)) &&
       negb (bool_decide (ChecksumFirst4Bytes body false = cs2))
    then Err "InvalidChecksumErr"
    else Ok k.

Definition Base58CheckDeserialize (data : list Z) : res KeyWallet :=
  let* (b, _) := Base58Check_Decode data in
  deserialize (append_cap (length b)) b.

Definition GetPrivateKey (w : KeyWallet) : st cache (list Z) :=
  if (length (ks_PrivateKey (kw_KeySet w)) =? 0)%nat then st_fail "private key not found"
  else Base58CheckSerialize PrivateKeyType w.

Definition GetPublicKey (w : KeyWallet) : st cache (list Z) :=
  if (length (pa_Pk (ks_PaymentAddress (kw_KeySet w))) =? 0)%nat
  then st_fail "public key not found"
  else Base58Check_NewEncode (pa_Pk (ks_PaymentAddress (kw_KeySet w))) 0.

Definition GetPaymentAddress (w : KeyWallet) : st cache (list Z) :=
  if (length (PaymentAddress_Bytes (ks_PaymentAddress (kw_KeySet w))) =? 0)%nat
  then st_fail "payment address not found"
  else Base58CheckSerialize PaymentAddressType w.

(** [GetPrivateView] never returns [nil]. *)
Definition GetReadonlyKey (w : KeyWallet) : st cache (list Z) :=
  if bool_decide (ViewingKey_GetPublicSpend (ks_ReadonlyKey (kw_KeySet w)) = None)
  then st_fail "read-only key not found"
  else Base58CheckSerialize ReadonlyKeyType w.

Definition GetOTAPrivateKey (w : KeyWallet) : st cache (list Z) :=
  if bool_decide (OTAKey_GetOTASecretKey (ks_OTAKey (kw_KeySet w)) = None) ||
     bool_decide (OTAKey_GetPublicSpend (ks_OTAKey (kw_KeySet w)) = None)
  then st_fail "privateOTA key not found"
  else Base58CheckSerialize OTAKeyType w.

(** ** utils.go *)

Definition GetBurningPublicKey : res (list Z) :=
  on_err [] (let* w := Base58CheckDeserialize BurningAddress2 in
             Ok (pa_Pk (ks_PaymentAddress (kw_KeySet w)))).

Definition IsPublicKeyBurningAddress (publicKey : list Z) : res bool :=
  on_err false
    (let* w1 := Base58CheckDeserialize BurningAddress in
     if bool_decide (publicKey = pa_Pk (ks_PaymentAddress (kw_KeySet w1))) then Ok true
     else
       let* w2 := Base58CheckDeserialize BurningAddress2 in
       Ok (bool_decide (publicKey = pa_Pk (ks_PaymentAddress (kw_KeySet w2))))).

Definition drop_ota (w : KeyWallet) : KeyWallet :=
  let ks := kw_KeySet w in
  let addr := ks_PaymentAddress ks in
  kw_setKeySet (mkKeySet (ks_PrivateKey ks) (mkPaymentAddress (pa_Pk addr) (pa_Tk addr) [])
                  (ks_ReadonlyKey ks) (ks_OTAKey ks)) w.

Definition GetPaymentAddressV1 (addr : list Z) (isNewEncoding : bool) : st cache (list Z) :=
  let! newWallet := st_lift (Base58CheckDeserialize addr) in
  let pk := pa_Pk (ks_PaymentAddress (kw_KeySet newWallet)) in
  if (length pk =? 0)%nat || (length pk =? 0)%nat
  then st_fail "something must be wrong with the provided payment address"
  else
    let newWallet := drop_ota newWallet in
    if isNewEncoding then
      let! addrV1 := Base58CheckSerialize PaymentAddressType newWallet in
      if (length addrV1 =? 0)%nat then st_fail "cannot decode new payment address"
      else st_ret addrV1
    else
      match Serialize PaymentAddressType false newWallet with
      | Ok addr1InBytes =>
          let! addrV1 := Base58Check_Encode addr1InBytes 0 in
          if (length addrV1 =? 0)%nat then st_fail "cannot decode new payment address"
          else st_ret addrV1
      | Err _ => st_fail "cannot decode new payment address"
      | Panic => st_lift Panic
      | OutOfFuel => st_lift OutOfFuel
      end.

Definition ComparePaymentAddresses (addr1 addr2 : list Z) : res bool :=
  if bool_decide (addr1 = addr2) then
    let* _ := Base58CheckDeserialize addr1 in Ok true
  else
    let* keyWallet1 := Base58CheckDeserialize addr1 in
    let* keyWallet2 := Base58CheckDeserialize addr2 in
    let a1 := ks_PaymentAddress (kw_KeySet keyWallet1) in
    let a2 := ks_PaymentAddress (kw_KeySet keyWallet2) in
    if negb (bool_decide (pa_Pk a1 = pa_Pk a2)) then Err "public keys mismatch"
    else if negb (bool_decide (pa_Tk a1 = pa_Tk a2)) then Err "transmission keys mismatch"
    else Ok true.

(** [seeds] are the successive results of [common.RandBytes(32)]; the loop
    makes [numTries] tries and compares the last byte itself. *)
Fixpoint gen_wallet_loop (numTries : nat) (seeds : nat -> list Z) (shardID : Z) : res KeyWallet :=
  match numTries with
  | O => Err "failed after 0 tries"
  | S n =>
      let* tmpWallet := NewMasterKeyFromSeed (seeds 0%nat) in
      let pk := pa_Pk (ks_PaymentAddress (kw_KeySet tmpWallet)) in
      let* lastByte := (if (length pk =? 0)%nat then Panic else index pk (length pk - 1)) in
      if lastByte =? shardID then Ok tmpWallet
      else gen_wallet_loop n (fun i => seeds (S i)) shardID
  end.

Definition GenRandomWalletForShardID (seeds : nat -> list Z) (shardID : Z) : res KeyWallet :=
  gen_wallet_loop (Z.to_nat 100000) seeds shardID.
End wallet.

(** ** Lemmas *)

Lemma slice_cap_mid cap data p m s lo hi :
  data = p ++ m ++ s -> lo = length p -> hi = (length p + length m)%nat ->
  (length data <= cap)%nat -> slice_cap cap data lo hi = Ok m.
Proof.
  intros -> -> -> Hc. rewrite !length_app in Hc. unfold slice_cap.
  destruct (Nat.leb_spec (length p) (length p + length m)); [|lia].
  destruct (Nat.leb_spec (length p + length m) cap); [|lia]. cbn [andb].
  rewrite <- !app_assoc, drop_app_length, Nat.add_comm, Nat.add_sub.
  by rewrite take_app_length.
Qed.

Lemma index_mid {A} (data p s : list A) x i :
  data = p ++ x :: s -> i = length p -> index data i = Ok x.
Proof. intros -> ->. by apply index_middle. Qed.

Lemma len_prefixed_32 k : key_ok k -> len_prefixed k = 32 :: k.
Proof. intros [Hl _]. unfold len_prefixed. by rewrite Hl. Qed.

Ltac keytypes :=
  unfold PrivateKeyType, PaymentAddressType, ReadonlyKeyType, OTAKeyType; cbn [Z.eqb Pos.eqb].

(** Equalities between concatenations. *)
Ltac apps := cbn [app]; rewrite <- ?app_assoc; cbn [app]; rewrite <- ?app_assoc; reflexivity.

(** Lengths of concatenations of parts of known length. *)
Ltac lens := repeat (progress (cbn [length app]; rewrite ?length_app)); lia.

Section wallet_lemmas.
Context `{CL : CurveLaws} `{DL : DigestLaws} `{LL : LRULaws} `{AA : AllocatorLaws} `{HD : HDWallet}.

(** The checksum at the end of a serialized key. *)
Lemma checksum_tail (cap : nat) buffer isNew (k : KeyWallet) :
  (length (buffer ++ ChecksumFirst4Bytes buffer isNew) <= cap)%nat ->
  (let data := buffer ++ ChecksumFirst4Bytes buffer isNew in
   let* body := slice_cap cap data 0 (length data - 4) in
   let* cs2 := slice data (length data - 4) (length data) in
   if negb (bool_decide (ChecksumFirst4Bytes body true = cs2)) &&
      negb (bool_decide (ChecksumFirst4Bytes body false = cs2))
   then Err "InvalidChecksumErr" else Ok k) = Ok k.
Proof using CL DL.
  intros Hc. cbv zeta. destruct (checksum_ok buffer isNew) as [Hl _]. unfold CheckSumLen in Hl.
  set (ck := ChecksumFirst4Bytes buffer isNew) in *.
  assert (length (buffer ++ ck) - 4 = length buffer)%nat as ->
    by (rewrite length_app, Hl; lia).
  rewrite (slice_cap_mid cap _ [] buffer ck) by done. cbn [res_bind].
  rewrite slice_ok by (rewrite ?length_app; lia). rewrite drop_app_length. cbn [res_bind].
  rewrite take_ge by (rewrite length_app; lia).
  destruct isNew; rewrite (bool_decide_eq_true_2 (ck = ck)) by done;
    rewrite ?andb_false_r; done.
Qed.

Lemma tail_at n (cap : nat) buffer isNew (k : KeyWallet) :
  length (buffer ++ ChecksumFirst4Bytes buffer isNew) = n ->
  (length (buffer ++ ChecksumFirst4Bytes buffer isNew) <= cap)%nat ->
  (let* body := slice_cap cap (buffer ++ ChecksumFirst4Bytes buffer isNew) 0 (n - 4) in
   let* cs2 := slice (buffer ++ ChecksumFirst4Bytes buffer isNew) (n - 4) n in
   if negb (bool_decide (ChecksumFirst4Bytes body true = cs2)) &&
      negb (bool_decide (ChecksumFirst4Bytes body false = cs2))
   then Err "InvalidChecksumErr" else Ok k) = Ok k.
Proof using CL DL. intros <-. apply checksum_tail. Qed.

Definition wallet_ok (w : KeyWallet) : Prop :=
  is_byte (kw_Depth w) /\ (length (kw_ChildNumber w) = 4%nat /\ bytes_ok (kw_ChildNumber w)) /\
  (length (kw_ChainCode w) = 32%nat /\ bytes_ok (kw_ChainCode w)) /\
  key_ok (ks_PrivateKey (kw_KeySet w)) /\ address_ok (ks_PaymentAddress (kw_KeySet w)) /\
  (key_ok (vk_Pk (ks_ReadonlyKey (kw_KeySet w))) /\ key_ok (vk_Rk (ks_ReadonlyKey (kw_KeySet w)))) /\
  (pt_ok (ota_pk (ks_OTAKey (kw_KeySet w))) /\ sc_ok (ota_otaSecret (ks_OTAKey (kw_KeySet w)))).

(** What [deserialize] is expected to give back for each kind of key. *)
Definition serialized_part (keyType : Z) (isNew : bool) (w : KeyWallet) : res KeyWallet :=
  let ks := kw_KeySet w in
  if keyType =? PrivateKeyType then
    let* ks' := keyset_of (ks_PrivateKey ks) in
    Ok (mkKeyWallet (kw_Depth w) (kw_ChildNumber w) (kw_ChainCode w) None ks')
  else if keyType =? PaymentAddressType then
    let a := ks_PaymentAddress ks in
    Ok (kw_setKeySet (mkKeySet [] (mkPaymentAddress (pa_Pk a) (pa_Tk a)
          (if isNew then pa_OTAPublic a else [])) emptyViewingKey emptyOTAKey) emptyWallet)
  else if keyType =? ReadonlyKeyType then
    Ok (kw_setKeySet (mkKeySet [] emptyAddress (ks_ReadonlyKey ks) emptyOTAKey) emptyWallet)
  else if keyType =? OTAKeyType then
    Ok (kw_setKeySet (mkKeySet [] emptyAddress emptyViewingKey (ks_OTAKey ks)) emptyWallet)
  else Err "InvalidKeyTypeErr".

Lemma deserialize_pair_ok cap t pk sk ck :
  key_ok pk -> key_ok sk -> length ck = 4%nat ->
  let data := (t :: len_prefixed pk ++ len_prefixed sk) ++ ck in
  (length data <= cap)%nat -> length data = 71%nat /\ deserialize_pair cap data = Ok (pk, sk).
Proof using Type.
  intros Hpk Hsk Hck data Hc.
  assert (data = t :: 32 :: pk ++ 32 :: sk ++ ck) as Hdata
    by (unfold data; rewrite !len_prefixed_32 by done; apps).
  clearbody data. destruct Hpk as [Hp _], Hsk as [Hs _]. unfold Ed25519KeySize in *.
  assert (length data = 71)%nat as Hl by (rewrite Hdata; lens). split; [done|].
  unfold deserialize_pair.
  rewrite (index_mid data [t] (pk ++ 32 :: sk ++ ck) 32) by done. cbn [res_bind].
  rewrite Hl. change (Z.to_nat 32) with 32%nat. cbn [Nat.ltb Nat.leb Nat.add].
  rewrite (index_mid data (t :: 32 :: pk) (sk ++ ck) 32); [|done|cbn [length]; lia].
  cbn [res_bind]. change (Z.to_nat 32) with 32%nat.
  rewrite (slice_cap_mid cap data [t; 32] pk (32 :: sk ++ ck));
    [|done|done|cbn [length]; lia|done].
  cbn [res_bind].
  rewrite (slice_cap_mid cap data (t :: 32 :: pk ++ [32]) sk ck);
    [done|rewrite Hdata; apps|lens|lens|done].
Qed.

Lemma OTA_parts k : pt_ok (ota_pk k) -> sc_ok (ota_otaSecret k) ->
  OTAKey_GetPublicSpend k = Some (ota_pk k) /\ OTAKey_GetOTASecretKey k = Some (ota_otaSecret k).
Proof using Type*.
  intros Hp Hs. destruct (pt_key _ Hp) as [[Hl _] Hv].
  unfold OTAKey_GetPublicSpend, OTAKey_GetOTASecretKey, Point_FromBytesS, Point_FromBytesS_st.
  rewrite Hl. cbn [negb Nat.eqb Ed25519KeySize]. rewrite copy_to_array_exact by done.
  rewrite Hv. cbn [snd]. unfold PointValid. rewrite Hv.
  rewrite FromBytesS_exact by apply Hs. by rewrite sc_ok_valid.
Qed.

Lemma serialize_private cap isNew w : wallet_ok w ->
  exists b, Serialize PrivateKeyType isNew w = Ok b /\ bytes_ok b /\
    ((length b <= cap)%nat -> deserialize cap b = serialized_part PrivateKeyType isNew w).
Proof using CL DL.
  intros (Hd & [Hcn Hcnb] & [Hcc Hccb] & Hsk & _).
  unfold Serialize. keytypes. rewrite len_prefixed_32 by done.
  cbn [res_bind]. set (d := kw_Depth w) in *. set (cn := kw_ChildNumber w) in *.
  set (cc := kw_ChainCode w) in *. set (sk := ks_PrivateKey (kw_KeySet w)) in *.
  set (buffer := 0 :: d :: cn ++ cc ++ 32 :: sk).
  destruct (checksum_ok buffer isNew) as [Hck Hckb]. unfold CheckSumLen in Hck.
  eexists. split; [done|]. split.
  { apply Forall_app. split; [|done]. unfold buffer. unfold is_byte in *.
    constructor; [unfold is_byte; lia|]. constructor; [done|]. repeat (apply Forall_app; split; [done|]).
    apply Forall_cons. split; [unfold is_byte; lia|apply Hsk]. }
  intros Hc. destruct Hsk as [Hskl Hskb]. unfold Ed25519KeySize in Hskl.
  set (ck := ChecksumFirst4Bytes buffer isNew) in *.
  assert (length (buffer ++ ck) = 75)%nat as Hl by (unfold buffer; lens).
  unfold deserialize. rewrite Hl. cbn [Nat.ltb Nat.leb].
  rewrite (index_mid _ [] (d :: cn ++ cc ++ 32 :: sk ++ ck) 0) by (unfold buffer; apps || done).
  keytypes. cbn [res_bind]. unfold deserialize_private. rewrite Hl. cbn [negb Nat.eqb].
  rewrite (index_mid _ [0] (cn ++ cc ++ 32 :: sk ++ ck) d) by (unfold buffer; apps || done).
  cbn [res_bind].
  rewrite (slice_cap_mid cap _ [0; d] cn (cc ++ 32 :: sk ++ ck));
    [|unfold buffer; apps|done|lens|done]. cbn [res_bind].
  rewrite (slice_cap_mid cap _ (0 :: d :: cn) cc (32 :: sk ++ ck));
    [|unfold buffer; apps|lens|lens|done]. cbn [res_bind].
  rewrite (index_mid _ (0 :: d :: cn ++ cc) (sk ++ ck) 32); [|unfold buffer; apps|lens].
  cbn [res_bind]. change (Z.to_nat 32) with 32%nat.
  rewrite (slice_cap_mid cap _ (0 :: d :: cn ++ cc ++ [32]) sk ck);
    [|unfold buffer; apps|lens|lens|done]. cbn [res_bind].
  unfold KeySet_InitFromPrivateKey, PrivateKeySize. rewrite Hskl. cbn [negb Nat.eqb].
  unfold serialized_part. keytypes. fold sk.
  destruct (keyset_of_ok sk Hskb) as (_ & _ & E). rewrite E. cbn [res_bind].
  by apply tail_at.
Qed.

Lemma serialize_address cap isNew w : address_ok (ks_PaymentAddress (kw_KeySet w)) ->
  exists b, Serialize PaymentAddressType isNew w = Ok b /\ bytes_ok b /\
    ((length b <= cap)%nat -> deserialize cap b = serialized_part PaymentAddressType isNew w).
Proof using CL DL.
  intros (Hpk & Htk & Hota). unfold Serialize. keytypes.
  set (a := ks_PaymentAddress (kw_KeySet w)) in *. rewrite !len_prefixed_32 by done.
  cbn [res_bind]. set (pk := pa_Pk a) in *. set (tk := pa_Tk a) in *. set (ota := pa_OTAPublic a) in *.
  set (tl := if isNew && (0 <? length ota)%nat then len_prefixed ota else []).
  assert (tl = [] /\ (if isNew then ota else []) = [] \/
          key_ok ota /\ tl = 32 :: ota /\ (if isNew then ota else []) = ota) as Htl.
  { unfold tl. destruct isNew; [|by left]. destruct Hota as [->|Hk]; [by left|]. right.
    rewrite len_prefixed_32 by done. destruct Hk as [Hl Hb]. by rewrite Hl. }
  clearbody tl. set (buffer := 1 :: (32 :: pk) ++ (32 :: tk) ++ tl).
  destruct (checksum_ok buffer isNew) as [Hck Hckb]. unfold CheckSumLen in Hck.
  eexists. split; [done|].
  destruct Hpk as [Hpl Hpb], Htk as [Htl' Htb]. unfold Ed25519KeySize in *. split.
  { apply Forall_app. split; [|done]. unfold buffer.
    apply Forall_cons. split; [unfold is_byte; lia|].
    apply Forall_app. split; [constructor; [unfold is_byte; lia|done]|].
    apply Forall_app. split; [constructor; [unfold is_byte; lia|done]|].
    destruct Htl as [[-> _]|([_ Hb] & -> & _)]; constructor; [unfold is_byte; lia|done]. }
  intros Hc. set (ck := ChecksumFirst4Bytes buffer isNew) in *.
  assert (length (buffer ++ ck) = 71 + length tl)%nat as Hl by (unfold buffer; lens).
  unfold deserialize. rewrite Hl.
  replace (71 + length tl <? 2)%nat with false by (symmetry; apply Nat.ltb_ge; lia).
  rewrite (index_mid _ [] (32 :: pk ++ 32 :: tk ++ tl ++ ck) 1) by (unfold buffer; apps || done).
  keytypes. cbn [res_bind].
  unfold deserialize_address. rewrite Hl. unfold paymentAddrSerializedBytesLen, Ed25519KeySize.
  match goal with |- context [if ?g then Err "InvalidSeserializedKey" else _] =>
    replace g with false end.
  2: { symmetry. rewrite <- andb_assoc. apply andb_false_intro2.
       destruct Htl as [[-> _]|([Ho _] & -> & _)]; [done|].
       cbn [length]. rewrite Ho. done. }
  rewrite (index_mid _ [1] (pk ++ 32 :: tk ++ tl ++ ck) 32) by (unfold buffer; apps || done).
  cbn [res_bind]. change (Z.to_nat 32) with 32%nat.
  rewrite (index_mid _ (1 :: 32 :: pk) (tk ++ tl ++ ck) 32); [|unfold buffer; apps|lens].
  cbn [res_bind]. change (Z.to_nat 32) with 32%nat.
  rewrite (slice_cap_mid cap _ [1; 32] pk (32 :: tk ++ tl ++ ck));
    [|unfold buffer; apps|done|lens|done]. cbn [res_bind].
  rewrite (slice_cap_mid cap _ (1 :: 32 :: pk ++ [32]) tk (tl ++ ck));
    [|unfold buffer; apps|lens|lens|done]. cbn [res_bind].
  unfold serialized_part. keytypes.
  fold a. fold pk tk ota.
  match goal with |- context [res_bind (if _ then _ else Ok []) _] =>
    match goal with |- context [res_bind ?o _] =>
      assert (o = Ok (if isNew then ota else [])) as Eo end end.
  { destruct Htl as [[Et ->]|(Hk & Et & ->)]; subst tl.
    - done.
    - destruct Hk as [Ho _]. unfold Ed25519KeySize in Ho.
      replace (71 <? _)%nat with true by (symmetry; apply Nat.ltb_lt; cbn [length]; lia).
      rewrite (index_mid _ (1 :: 32 :: pk ++ 32 :: tk) (ota ++ ck) 32); [|unfold buffer; apps|lens].
      cbn [res_bind]. change (Z.to_nat 32) with 32%nat. cbn [negb Nat.eqb].
      apply (slice_cap_mid cap _ (1 :: 32 :: pk ++ 32 :: tk ++ [32]) ota ck);
        [unfold buffer; apps|lens|lens|done]. }
  rewrite Eo. cbn [res_bind]. by apply tail_at.
Qed.

Lemma serialize_pair cap t pk sk isNew (mk : list Z -> list Z -> KeyWallet) :
  key_ok pk -> key_ok sk -> is_byte t ->
  let buffer := t :: len_prefixed pk ++ len_prefixed sk in
  let b := buffer ++ ChecksumFirst4Bytes buffer isNew in
  bytes_ok b /\ length b = 71%nat /\ index b 0 = Ok t /\
  ((length b <= cap)%nat -> deserialize_pair cap b = Ok (pk, sk)).
Proof using CL DL.
  intros Hpk Hsk Ht buffer b. destruct (checksum_ok buffer isNew) as [Hck Hckb].
  assert (length b = 71)%nat as Hl.
  { unfold b. rewrite length_app, Hck. unfold buffer. rewrite !len_prefixed_32 by done.
    destruct Hpk as [Hp _], Hsk as [Hs _]. unfold Ed25519KeySize, CheckSumLen in *. lens. }
  split; [|split; [done|split]].
  - apply Forall_app. split; [|done]. unfold buffer. constructor; [done|].
    rewrite !len_prefixed_32 by done. apply Forall_app.
    split; (constructor; [unfold is_byte; lia|]); [apply Hpk|apply Hsk].
  - done.
  - intros Hc. by apply deserialize_pair_ok.
Qed.

Lemma serialize_any cap keyType isNew w : wallet_ok w ->
  In keyType [PrivateKeyType; PaymentAddressType; ReadonlyKeyType; OTAKeyType] ->
  exists b, Serialize keyType isNew w = Ok b /\ bytes_ok b /\
    ((length b <= cap)%nat -> deserialize cap b = serialized_part keyType isNew w).
Proof using CL DL.
  intros Hw [<-|[<-|[<-|[<-|[]]]]].
  - by apply serialize_private.
  - apply serialize_address, Hw.
  - destruct Hw as (_ & _ & _ & _ & _ & [Hp Hr] & _).
    destruct (serialize_pair cap 2 _ _ isNew (fun _ _ => emptyWallet) Hp Hr ltac:(unfold is_byte; lia))
      as (Hb & Hl & Hi & Hd).
    unfold Serialize. keytypes. cbn [res_bind].
    eexists. split; [done|]. split; [done|]. intros Hc. unfold deserialize. rewrite Hl, Hi.
    cbn [Nat.ltb Nat.leb res_bind]. keytypes.
    cbn [negb Nat.eqb readOnlyKeySerializedBytesLen]. rewrite (Hd Hc). cbn [res_bind].
    unfold serialized_part. keytypes.
    destruct (ks_ReadonlyKey (kw_KeySet w)). by apply tail_at.
  - destruct Hw as (_ & _ & _ & _ & _ & _ & [Hp Hs]).
    destruct (OTA_parts (ks_OTAKey (kw_KeySet w)) Hp Hs) as [E1 E2].
    unfold Serialize. keytypes.
    rewrite E1, E2. cbn [deref res_bind].
    destruct (pt_key _ Hp) as [Hpk _].
    destruct (serialize_pair cap 3 _ _ isNew (fun _ _ => emptyWallet) Hpk (proj1 Hs)
                ltac:(unfold is_byte; lia)) as (Hb & Hl & Hi & Hd).
    eexists. split; [done|]. split; [done|]. intros Hc. unfold deserialize. rewrite Hl, Hi.
    cbn [Nat.ltb Nat.leb res_bind]. keytypes.
    cbn [negb Nat.eqb otaKeySerializedBytesLen]. rewrite (Hd Hc). cbn [res_bind].
    unfold serialized_part. keytypes.
    destruct (ks_OTAKey (kw_KeySet w)) as [pk sk] eqn:Ek. cbn [ota_pk ota_otaSecret] in *.
    assert (OTAKey_SetOTASecretKey sk (OTAKey_SetPublicSpend pk emptyOTAKey) = mkOTAKey pk sk) as -> by done.
    by apply tail_at.
Qed.
End wallet_lemmas.

(** ** Properties *)

Section properties.
Context `{CL : CurveLaws} `{DL : DigestLaws} `{LL : LRULaws} `{AA : AllocatorLaws} `{HD : HDWallet}.

Lemma encode_serialized c b isNew w :
  cache_ok c -> bytes_ok b ->
  (forall cap, (length b <= cap)%nat -> deserialize cap b = Ok w) ->
  exists c' s, cached_encode b 0 isNew c = (c', Ok s) /\ cache_ok c' /\
    (1 <= length s)%nat /\ Base58CheckDeserialize s = Ok w /\ exists v, Base58Check_Decode s = Ok (b, v).
Proof using CL DL LL AA.
  intros Hc Hb Hd.
  destruct (cached_encode_decode c b 0 isNew Hc Hb) as (c' & s & v & E & Hc' & D & _);
    [unfold is_byte; lia|].
  exists c', s. split; [done|]. split; [done|]. split.
  - destruct s; [|simpl; lia]. discriminate D.
  - split; [|by exists v]. unfold Base58CheckDeserialize. rewrite D. cbn [res_bind]. apply Hd, append_cap_ge.
Qed.

Lemma serialized_part_ok keyType isNew w : wallet_ok w ->
  In keyType [PrivateKeyType; PaymentAddressType; ReadonlyKeyType; OTAKeyType] ->
  exists w', serialized_part keyType isNew w = Ok w'.
Proof using CL DL.
  intros (_ & _ & _ & [_ Hsk] & _) Hin.
  destruct Hin as [<-|[<-|[<-|[<-|[]]]]]; unfold serialized_part; keytypes; [|by eexists..].
  destruct (keyset_of_ok _ Hsk) as (_ & _ & E). rewrite E. by eexists.
Qed.

(** The string of a key, whatever was encoded before, is read back. *)
Lemma wallet_string w keyType c : wallet_ok w -> cache_ok c ->
  In keyType [PrivateKeyType; PaymentAddressType; ReadonlyKeyType; OTAKeyType] ->
  exists c' s w', Base58CheckSerialize keyType w c = (c', Ok s) /\ cache_ok c' /\
    Base58CheckDeserialize s = Ok w' /\ serialized_part keyType true w = Ok w'.
Proof using CL DL LL AA.
  intros Hw Hc Hin.
  destruct (serialized_part_ok keyType true w Hw Hin) as [w' Ew].
  destruct (serialize_any 0 keyType true w Hw Hin) as (b & Eb & Hb & _).
  destruct (encode_serialized c b true w' Hc Hb) as (c' & s & E & Hc' & _ & D & _).
  { intros cap Hcap. destruct (serialize_any cap keyType true w Hw Hin) as (b' & Eb' & _ & Hd).
    rewrite Eb in Eb'. injection Eb' as <-. by rewrite Hd. }
  exists c', s, w'. unfold Base58CheckSerialize, AddressVersion. cbn [Z.eqb Pos.eqb].
  by rewrite Eb.
Qed.

(** Wallet keys round trip as strings: [Base58CheckSerialize] of each of the
    four kinds of key returns a string from which [Base58CheckDeserialize]
    rebuilds exactly that part of the wallet (for a private key, the whole key
    set), whatever was encoded before; [Serialize] with either checksum is read
    back in the same way; any other kind of key is an error. *)
Theorem wallet_roundtrip w keyType c : wallet_ok w -> cache_ok c ->
  In keyType [PrivateKeyType; PaymentAddressType; ReadonlyKeyType; OTAKeyType] ->
  (exists c' s w', Base58CheckSerialize keyType w c = (c', Ok s) /\ cache_ok c' /\
     Base58CheckDeserialize s = Ok w' /\ serialized_part keyType true w = Ok w') /\
  (forall isNew cap, exists b, Serialize keyType isNew w = Ok b /\
     ((length b <= cap)%nat -> deserialize cap b = serialized_part keyType isNew w)) /\
  (forall t, 4 <= t -> Serialize t true w = Err "InvalidKeyTypeErr" /\
     Base58CheckSerialize t w c = (c, Ok [])).
Proof using CL DL LL AA.
  intros Hw Hc Hin. split; [by apply wallet_string|split].
  - intros isNew cap. destruct (serialize_any cap keyType isNew w Hw Hin) as (b & Eb & _ & Hd).
    by exists b.
  - intros t Ht. assert (Serialize t true w = Err "InvalidKeyTypeErr") as E.
    { unfold Serialize, PrivateKeyType, PaymentAddressType, ReadonlyKeyType, OTAKeyType.
      destruct (Z.eqb_spec t 0), (Z.eqb_spec t 1), (Z.eqb_spec t 2), (Z.eqb_spec t 3); try lia.
      done. }
    split; [done|]. unfold Base58CheckSerialize, AddressVersion. cbn [Z.eqb Pos.eqb]. by rewrite E.
Qed.

(** [deserialize] reads the length bytes of its input before it has verified
    the checksum.  For payment addresses of the right total length it does not
    return on a public-key length that points past the end: it panics, whatever
    the other bytes and the capacity of the slice. *)
Theorem deserialize_address_panics cap data l :
  length data = paymentAddrSerializedBytesLen \/ length data = 104%nat ->
  data !! 0%nat = Some PaymentAddressType -> data !! 1%nat = Some l ->
  Z.of_nat (length data) <= l + 2 ->
  deserialize cap data = Panic.
Proof using Type.
  intros Hl Ht Hlb Hb. unfold paymentAddrSerializedBytesLen in *.
  unfold deserialize. destruct (Nat.ltb_spec (length data) 2); [lia|].
  rewrite (index_ok _ _ _ Ht). cbn [res_bind]. keytypes.
  unfold deserialize_address, paymentAddrSerializedBytesLen.
  match goal with |- context [if ?g then Err "InvalidSeserializedKey" else _] =>
    replace g with false end.
  2: { symmetry. unfold Ed25519KeySize.
       destruct Hl as [-> | ->]; by destruct (bool_decide _). }
  rewrite (index_ok _ _ _ Hlb). cbn [res_bind].
  replace (index data (Z.to_nat l + 2)) with (@Panic Z); [done|].
  unfold index. by rewrite lookup_ge_None_2 by lia.
Qed.

(** Version-1 addresses.  For every string that decodes to a wallet with the
    public and transmission keys of an address, [GetPaymentAddressV1] returns,
    under both encodings, a string that decodes to the address with the same
    two keys and no OTA key, in that encoding, and [ComparePaymentAddresses] finds the two
    strings equal; two addresses with different keys are reported as errors. *)
Theorem payment_address_v1 addr w isNew c :
  cache_ok c -> Base58CheckDeserialize addr = Ok w ->
  key_ok (pa_Pk (ks_PaymentAddress (kw_KeySet w))) ->
  key_ok (pa_Tk (ks_PaymentAddress (kw_KeySet w))) ->
  exists c' s w', GetPaymentAddressV1 addr isNew c = (c', Ok s) /\ cache_ok c' /\
    Base58CheckDeserialize s = Ok w' /\
    ks_PaymentAddress (kw_KeySet w') =
      mkPaymentAddress (pa_Pk (ks_PaymentAddress (kw_KeySet w)))
                       (pa_Tk (ks_PaymentAddress (kw_KeySet w))) [] /\
    (exists b v, Serialize PaymentAddressType isNew (drop_ota w) = Ok b /\ Base58Check_Decode s = Ok (b, v)) /\
    ComparePaymentAddresses addr s = Ok true /\
    (forall addr2 w2, Base58CheckDeserialize addr2 = Ok w2 ->
       (ComparePaymentAddresses addr addr2 = Ok true <->
        pa_Pk (ks_PaymentAddress (kw_KeySet w2)) = pa_Pk (ks_PaymentAddress (kw_KeySet w)) /\
        pa_Tk (ks_PaymentAddress (kw_KeySet w2)) = pa_Tk (ks_PaymentAddress (kw_KeySet w)))).
Proof using CL DL LL AA.
  intros Hc Hw Hpk Htk.
  assert (forall addr2 w2, Base58CheckDeserialize addr2 = Ok w2 ->
       (ComparePaymentAddresses addr addr2 = Ok true <->
        pa_Pk (ks_PaymentAddress (kw_KeySet w2)) = pa_Pk (ks_PaymentAddress (kw_KeySet w)) /\
        pa_Tk (ks_PaymentAddress (kw_KeySet w2)) = pa_Tk (ks_PaymentAddress (kw_KeySet w)))) as Hcmp.
  { intros addr2 w2 Hw2. unfold ComparePaymentAddresses.
    destruct (bool_decide_reflect (addr = addr2)) as [<-|_].
    { rewrite Hw. rewrite Hw in Hw2. injection Hw2 as <-. by cbn. }
    rewrite Hw, Hw2. cbn [res_bind]. case_bool_decide as E1; cbn [negb].
    - case_bool_decide as E2; cbn [negb]; [by split|]. split; [done|].
      intros [_ E]. congruence.
    - split; [done|]. intros [E _]. congruence. }
  set (a := ks_PaymentAddress (kw_KeySet w)) in *.
  assert (address_ok (ks_PaymentAddress (kw_KeySet (drop_ota w)))) as Ha
    by (split; [done|split; [done|by left]]).
  destruct (serialize_address 0 isNew (drop_ota w) Ha) as (b & Eb & Hb & _).
  set (w' := kw_setKeySet (mkKeySet [] (mkPaymentAddress (pa_Pk a) (pa_Tk a) [])
                             emptyViewingKey emptyOTAKey) emptyWallet).
  destruct (encode_serialized c b isNew w' Hc Hb) as (c' & s & E & Hc' & Hs & D & Hdec).
  { intros cap Hcap. destruct (serialize_address cap isNew (drop_ota w) Ha) as (b' & Eb' & _ & Hd).
    rewrite Eb in Eb'. injection Eb' as <-. rewrite Hd by done.
    unfold serialized_part. keytypes. by destruct isNew. }
  assert (GetPaymentAddressV1 addr isNew c = (c', Ok s)) as EG.
  { unfold GetPaymentAddressV1, st_bind, st_lift. rewrite Hw. fold a.
    destruct Hpk as [Hpl _]. rewrite Hpl. cbn [Nat.eqb Ed25519KeySize orb].
    unfold Base58CheckSerialize, Base58Check_NewEncode, Base58Check_Encode, AddressVersion.
    cbn [Z.eqb Pos.eqb]. destruct isNew; rewrite Eb, E;
      (destruct (Nat.eqb_spec (length s) 0); [lia|done]). }
  exists c', s, w'. split; [done|]. split; [done|]. split; [done|]. split; [done|].
  split; [destruct Hdec as [v Hv]; by exists b, v|]. split; [|done]. by apply (Hcmp s w').
Qed.
End properties.

(** ** Concrete instances *)

#[local] Existing Instances toy_curve toy_curve_laws toy_digests toy_digest_laws keep_all keep_all_laws.

#[local] Instance exact_cap : Allocator := fun n => n.
#[local] Instance exact_cap_laws : AllocatorLaws.
Proof. intros n. reflexivity. Qed.

#[local] Instance toy_hdwallet : HDWallet := {
  hdkey := list Z;
  hd_Key k := k;
  hd_Chaincode k := key_of (key_val (take 32 k));
  hd_MasterKey seed := 0 :: toy_digest 5 seed;
  hd_Child k i := Ok (0 :: toy_digest (6 + i) k);
  bip39_IsMnemonicValid m := (12 <=? length m)%nat;
  bip39_NewSeed m := toy_digest 7 m
}.

Definition toy_wallet : KeyWallet :=
  mkKeyWallet 0 [0; 0; 0; 0] (key_of 9) None
    (mkKeySet (key_of 5)
       (mkPaymentAddress (ScalarMultKey GBASE (key_of 5)) (ScalarMultKey GBASE (key_of 6))
          (ScalarMultKey GBASE (key_of 7)))
       (mkViewingKey (ScalarMultKey GBASE (key_of 5)) (key_of 6))
       (mkOTAKey (ScalarMultKey GBASE (key_of 5)) (key_of 7))).

Lemma toy_wallet_ok : wallet_ok toy_wallet.
Proof.
  assert (forall z, 0 <= z < 1000 -> pt_ok (ScalarMultKey GBASE (key_of z))) as Hp.
  { intros z Hz. apply pt_mult; [apply pt_base|by apply toy_scalar]. }
  assert (forall z, 0 <= z < 1000 -> key_ok (ScalarMultKey GBASE (key_of z))) as Hk.
  { intros z Hz. by apply pt_key, Hp. }
  assert (is_byte 0) by (unfold is_byte; lia).
  unfold wallet_ok. cbn [toy_wallet kw_Depth kw_ChildNumber kw_ChainCode kw_KeySet ks_PrivateKey
    ks_PaymentAddress ks_ReadonlyKey ks_OTAKey vk_Pk vk_Rk ota_pk ota_otaSecret].
  split; [done|]. split; [split; [done|repeat constructor; lia]|].
  split; [apply key_of_ok|]. split; [apply key_of_ok|].
  split; [split; [apply Hk; lia|split; [apply Hk; lia|right; apply Hk; lia]]|].
  split; [split; [apply Hk; lia|apply key_of_ok]|].
  split; [apply Hp; lia|apply toy_scalar; lia].
Qed.

Lemma wallet_roundtrip_witness :
  exists c' s w', Base58CheckSerialize PaymentAddressType toy_wallet ∅ = (c', Ok s) /\
    cache_ok c' /\ Base58CheckDeserialize s = Ok w' /\
    serialized_part PaymentAddressType true toy_wallet = Ok w'.
Proof.
  apply (wallet_roundtrip toy_wallet PaymentAddressType ∅).
  - apply toy_wallet_ok.
  - apply empty_cache_ok.
  - right. left. reflexivity.
Defined.

Lemma deserialize_address_panics_witness :
  deserialize 80 (1 :: 200 :: replicate 69 0) = Panic.
Proof.
  apply (deserialize_address_panics 80 (1 :: 200 :: replicate 69 0) 200).
  - left. reflexivity.
  - reflexivity.
  - reflexivity.
  - simpl. lia.
Defined.

Lemma payment_address_v1_witness : exists s w,
  Base58CheckDeserialize s = Ok w /\
  exists c' s' w', GetPaymentAddressV1 s false ∅ = (c', Ok s') /\ cache_ok c' /\
    Base58CheckDeserialize s' = Ok w' /\ ComparePaymentAddresses s s' = Ok true.
Proof.
  pose proof toy_wallet_ok as (_ & _ & _ & _ & Ha & _).
  destruct (serialize_address 0 true toy_wallet Ha) as (b & Eb & Hb & _).
  destruct (encode_serialized ∅ b true
              (match serialized_part PaymentAddressType true toy_wallet with
               | Ok w => w | _ => emptyWallet end) empty_cache_ok Hb)
    as (c & s & _ & _ & _ & D & _).
  { intros cap Hcap. destruct (serialize_address cap true toy_wallet Ha) as (b' & Eb' & _ & Hd).
    rewrite Eb in Eb'. injection Eb' as <-. by rewrite Hd. }
  eexists s, _. split; [exact D|].
  edestruct (payment_address_v1 s _ false ∅ empty_cache_ok D (proj1 Ha) (proj1 (proj2 Ha)))
    as (c' & s' & w' & E1 & E2 & E3 & _ & _ & E5 & _).
  exists c', s', w'. split; [exact E1|]. split; [exact E2|]. split; [exact E3|exact E5].
Defined.
