(* ===== verification/Burning.v ===== *)
(** * Burning.v: the test for the burning addresses always answers

    [IsPublicKeyBurningAddress] of [src/wallet/utils.go] decodes two
    fixed strings.  Their bytes are known, whatever the digest, so only the
    checksums are left open, and a failing checksum is an answer, too. *)

From stdpp Require Import base list gmap strings.
From Stdlib Require Import ZArith Lia.
From S2P Require Import Prelude Common Hashing Crypto Key Base58 Base58Check Wallet.
Open Scope Z_scope.

Section burning.
Context `{CO : CurveOps} `{DG : Digests} `{AA : AllocatorLaws} `{HD : HDWallet}.

(** What follows the version in a burning address. *)
Definition burning_payload (addr : list Z) : list Z :=
  match Base58_Decode addr with Ok d => take (length d - 5) (drop 1 d) | _ => [] end.

(** Its bytes are known, and only the checksums depend on the digest. *)
Lemma deserialize_burning addr : addr = BurningAddress \/ addr = BurningAddress2 ->
  let data := burning_payload addr in res_safe (deserialize (append_cap (length data)) data).
Proof using All.
  intros Ha data. pose proof (append_cap_ge (length data)) as Hc.
  assert (exists k, append_cap (length data) = (length data + k)%nat) as [k ->] by (exists (append_cap (length data) - length data)%nat; lia).
  clear Hc. destruct Ha as [-> | ->]; subst data.
  all: match goal with |- context [burning_payload ?a] => let d := eval vm_compute in (burning_payload a) in replace (burning_payload a) with d by (vm_compute; reflexivity) end.
  all: cbv -[ChecksumFirst4Bytes bool_decide res_safe]; repeat case_match; (exact I || discriminate).
Qed.

Lemma Decode_burning addr : addr = BurningAddress \/ addr = BurningAddress2 ->
  (exists v, Base58Check_Decode addr = Ok (burning_payload addr, v)) \/ (exists m, Base58Check_Decode addr = Err m).
Proof using All.
  intros [-> | ->]; unfold Base58Check_Decode, burning_payload.
  all: match goal with |- context [Base58_Decode ?a] => let d := eval vm_compute in (Base58_Decode a) in replace (Base58_Decode a) with d by (vm_compute; reflexivity) end.
  all: cbv -[ChecksumFirst4Bytes bool_decide res_safe]; repeat case_match; first [discriminate|left; eexists; reflexivity|right; eexists; reflexivity].
Qed.

Lemma burning_safe addr : addr = BurningAddress \/ addr = BurningAddress2 -> res_safe (Base58CheckDeserialize addr).
Proof using All.
  intros Ha. unfold Base58CheckDeserialize. destruct (Decode_burning addr Ha) as [[v ->]|[m ->]]; [|exact I].
  cbn [res_bind]. exact (deserialize_burning addr Ha).
Qed.

Lemma burning_answer (r1 r2 : res KeyWallet) pk : res_safe r1 -> res_safe r2 ->
  exists b, on_err false
    (let* w1 := r1 in
     if bool_decide (pk = pa_Pk (ks_PaymentAddress (kw_KeySet w1))) then Ok true
     else let* w2 := r2 in Ok (bool_decide (pk = pa_Pk (ks_PaymentAddress (kw_KeySet w2))))) = Ok b.
Proof using Type.
  intros H1' H2'. destruct r1 as [w1|m1| |]; [| |destruct H1'..]; cbn [res_bind on_err]; [|by exists false].
  destruct (bool_decide _); [by exists true|].
  destruct r2 as [w2|m2| |]; [| |destruct H2'..]; cbn [res_bind on_err]; [by eexists|by exists false].
Qed.

(** [IsPublicKeyBurningAddress] always answers. *)
Lemma burning_total pk : exists b, IsPublicKeyBurningAddress pk = Ok b.
Proof using All.
  exact (burning_answer _ _ pk (burning_safe BurningAddress (or_introl eq_refl)) (burning_safe BurningAddress2 (or_intror eq_refl))).
Qed.
End burning.
