(* ===== verification/CoinV2.v ===== *)
(** * Package [coin]: coins of version 2 and one-time addresses

    [src/coin/utils.go], [coin_v2.go], [coin_v2_ca.go] and [receiver.go], but
    for the JSON wrappers.  A coin is a record of optional points and scalars
    (a [nil] pointer is [None]); methods with a pointer receiver are in the
    state monad, and what they write before an error stays written.  Random
    scalars are arguments. *)

From stdpp Require Import base list gmap strings.
From Stdlib Require Import ZArith Lia.
From S2P Require Import Prelude Common Hashing Crypto Key Base58 Base58Check Wallet.
Open Scope Z_scope.

Definition MaxSizeInfoCoin : nat := 255.
Definition TxRandomGroupSize : nat := 68.
Definition MaxTriesOTA : Z := 50000.
Definition AssetTagString : list Z := str "assettag".
Definition PrivacyTypeTransfer : Z := 0.
Definition PrivacyTypeMint : Z := 1.

(** ** utils.go: parsing *)

Definition getMin (a b : nat) : nat := if (a <? b)%nat then a else b.

(** The value and the offset after it; [nil] for a length byte of 0. *)
Definition parseScalarForSetBytes (b : list Z) (offset : nat) : res (option (list Z) * nat) :=
  if (length b <=? offset)%nat then Err "offset is larger than len(bytes), cannot parse scalar"
  else
    let* l := index b offset in
    let offset := (offset + 1)%nat in
    let lenField := Z.to_nat l in
    if negb (l =? 0) then
      if (length b <? offset + lenField)%nat
      then Err "Offset+curLen is larger than len(bytes), cannot parse scalar for set bytes"
      else
        let* data := slice b offset (offset + lenField) in
        Ok (Some (Scalar_FromBytesS data), (offset + lenField)%nat)
    else Ok (None, offset).

Definition parseInfoForSetBytes (b : list Z) (offset : nat) : res (list Z * nat) :=
  if (length b <=? offset)%nat then Err "offset is larger than len(bytes), cannot parse info"
  else
    let* l := index b offset in
    let offset := (offset + 1)%nat in
    let lenField := Z.to_nat l in
    if negb (l =? 0) then
      if (length b <? offset + lenField)%nat
      then Err "offset+curLen is larger than len(bytes), cannot parse info for set bytes"
      else
        let* info := slice b offset (offset + lenField) in
        Ok (info, (offset + lenField)%nat)
    else Ok ([], offset).

(** The last byte of a slice. *)
Definition last_byte (b : list Z) : res Z :=
  if (length b =? 0)%nat then Panic else index b (length b - 1).

(** The sender shard, the receiver shard and the privacy type. *)
Definition DeriveShardInfoFromCoin (coinPubKey : list Z) : res (Z * Z * Z) :=
  if 8 <? MaxShardNumber then Err "cannot derive shardID"
  else
    let numShards := MaxShardNumber in
    let* b := last_byte coinPubKey in
    let n := Z.rem b 128 in
    let receiverShardID := Z.rem n numShards in
    let n := Z.quot n numShards in
    let senderShardID := Z.rem n numShards in
    let coinPrivacyType := Z.quot n numShards in
    if PrivacyTypeMint <? coinPrivacyType then Err "coin has unsupported PrivacyType"
    else Ok (senderShardID, receiverShardID, coinPrivacyType).

(** The three results when the error is dropped. *)
Definition shard_info (r : res (Z * Z * Z)) : Z * Z * Z :=
  match r with Ok t => t | _ => (-1, -1, -1) end.

Record CoinParams := mkCoinParams {
  cp_PaymentInfo : PaymentInfo; cp_SenderShardID : Z; cp_CoinPrivacyType : Z }.

Definition NewTransferCoinParams (paymentInfo : PaymentInfo) (senderShardParams : list Z)
  : res CoinParams :=
  let* senderShard :=
    match senderShardParams with
    | s :: _ => Ok s
    | [] => let* b := last_byte (pa_Pk (pi_PaymentAddress paymentInfo)) in
            Ok (GetShardIDFromLastByte b)
    end in
  Ok (mkCoinParams paymentInfo senderShard PrivacyTypeTransfer).

Definition NewMintCoinParams (paymentInfo : PaymentInfo) : res CoinParams :=
  let* b := last_byte (pa_Pk (pi_PaymentAddress paymentInfo)) in
  Ok (mkCoinParams paymentInfo (GetShardIDFromLastByte b) PrivacyTypeMint).

(** ** TxRandom: an array of 68 bytes *)

(** [copy(t[off:off+n], src)] *)
Definition copy_into (off n : nat) (src t : list Z) : list Z :=
  let k := Nat.min n (length src) in
  take off t ++ take k src ++ drop (off + k) t.

Definition SetTxConcealRandomPoint (v t : list Z) : list Z :=
  copy_into (Ed25519KeySize + 4) (TxRandomGroupSize - (Ed25519KeySize + 4)) v t.
Definition SetTxOTARandomPoint (v t : list Z) : list Z := copy_into 0 Ed25519KeySize v t.
Definition TxRandom_SetIndex (v : Z) (t : list Z) : list Z :=
  copy_into Ed25519KeySize (TxRandomGroupSize - Ed25519KeySize) (Uint32ToBytes v) t.

Definition NewTxRandom : list Z :=
  TxRandom_SetIndex 0 (SetTxConcealRandomPoint Identity (replicate TxRandomGroupSize 0)).

Definition TxRandom_Bytes (t : list Z) : list Z := t.

Section txrandom.
Context `{CO : CurveOps}.

Definition GetTxConcealRandomPoint (t : list Z) : res (list Z) :=
  let* b := slice t (Ed25519KeySize + 4) (length t) in Point_FromBytesS b.
Definition GetTxOTARandomPoint (t : list Z) : res (list Z) :=
  let* b := slice t 0 Ed25519KeySize in Point_FromBytesS b.
Definition TxRandom_GetIndex (t : list Z) : res Z :=
  let* b := slice t Ed25519KeySize (Ed25519KeySize + 4) in BytesToUint32 b.

(** The tests of [SetBytes]; the array is only written after them. *)
Definition TxRandom_check (v : list Z) : res unit :=
  if negb (length v =? TxRandomGroupSize)%nat
  then Err "cannot SetByte to TxRandom. Input is invalid"
  else
    let* b1 := slice v 0 Ed25519KeySize in
    let* _ := res_wrap "cannot TxRandomGroupSize.SetBytes" (Point_FromBytesS b1) in
    let* b2 := slice v (Ed25519KeySize + 4) (length v) in
    let* _ := res_wrap "cannot TxRandomGroupSize.SetBytes" (Point_FromBytesS b2) in
    Ok tt.

Definition TxRandom_SetBytes (v : list Z) : st (list Z) unit := fun t =>
  match TxRandom_check v with
  | Ok _ => (copy_to_array TxRandomGroupSize v, Ok tt)
  | r => (t, r)
  end.

Definition parsePointForSetBytes (b : list Z) (offset : nat) : res (option (list Z) * nat) :=
  if (length b <=? offset)%nat then Err "offset is larger than len(bytes), cannot parse point"
  else
    let* l := index b offset in
    let offset := (offset + 1)%nat in
    let lenField := Z.to_nat l in
    if negb (l =? 0) then
      if (length b <? offset + lenField)%nat
      then Err "offset+curLen is larger than len(bytes), cannot parse point for set bytes"
      else
        let* data := slice b offset (offset + lenField) in
        let* point := Point_FromBytesS data in
        Ok (Some point, (offset + lenField)%nat)
    else Ok (None, offset).
End txrandom.

(** ** coin_v2.go *)

Record CoinV2 := mkCoinV2 {
  c2_version : Z;
  c2_info : list Z;
  c2_publicKey : option (list Z);
  c2_commitment : option (list Z);
  c2_keyImage : option (list Z);
  c2_sharedConcealRandom : option (list Z);
  c2_sharedRandom : option (list Z);
  c2_txRandom : option (list Z);
  c2_mask : option (list Z);
  c2_amount : option (list Z);
  c2_assetTag : option (list Z);
  c2_rawAssetTag : option (list Z) }.

(** [new(CoinV2)] *)
Definition newCoinV2 : CoinV2 := mkCoinV2 0 [] None None None None None None None None None None.

Definition c2_SetVersion (_ : Z) (c : CoinV2) : CoinV2 :=
  mkCoinV2 2 (c2_info c) (c2_publicKey c) (c2_commitment c) (c2_keyImage c)
    (c2_sharedConcealRandom c) (c2_sharedRandom c) (c2_txRandom c) (c2_mask c) (c2_amount c)
    (c2_assetTag c) (c2_rawAssetTag c).
Definition c2_SetInfo (v : list Z) (c : CoinV2) : CoinV2 :=
  mkCoinV2 (c2_version c) v (c2_publicKey c) (c2_commitment c) (c2_keyImage c)
    (c2_sharedConcealRandom c) (c2_sharedRandom c) (c2_txRandom c) (c2_mask c) (c2_amount c)
    (c2_assetTag c) (c2_rawAssetTag c).
Definition c2_SetPublicKey (v : option (list Z)) (c : CoinV2) : CoinV2 :=
  mkCoinV2 (c2_version c) (c2_info c) v (c2_commitment c) (c2_keyImage c)
    (c2_sharedConcealRandom c) (c2_sharedRandom c) (c2_txRandom c) (c2_mask c) (c2_amount c)
    (c2_assetTag c) (c2_rawAssetTag c).
Definition c2_SetCommitment (v : option (list Z)) (c : CoinV2) : CoinV2 :=
  mkCoinV2 (c2_version c) (c2_info c) (c2_publicKey c) v (c2_keyImage c)
    (c2_sharedConcealRandom c) (c2_sharedRandom c) (c2_txRandom c) (c2_mask c) (c2_amount c)
    (c2_assetTag c) (c2_rawAssetTag c).
Definition c2_SetKeyImage (v : option (list Z)) (c : CoinV2) : CoinV2 :=
  mkCoinV2 (c2_version c) (c2_info c) (c2_publicKey c) (c2_commitment c) v
    (c2_sharedConcealRandom c) (c2_sharedRandom c) (c2_txRandom c) (c2_mask c) (c2_amount c)
    (c2_assetTag c) (c2_rawAssetTag c).
Definition c2_SetSharedConcealRandom (v : option (list Z)) (c : CoinV2) : CoinV2 :=
  mkCoinV2 (c2_version c) (c2_info c) (c2_publicKey c) (c2_commitment c) (c2_keyImage c)
    v (c2_sharedRandom c) (c2_txRandom c) (c2_mask c) (c2_amount c)
    (c2_assetTag c) (c2_rawAssetTag c).
Definition c2_SetSharedRandom (v : option (list Z)) (c : CoinV2) : CoinV2 :=
  mkCoinV2 (c2_version c) (c2_info c) (c2_publicKey c) (c2_commitment c) (c2_keyImage c)
    (c2_sharedConcealRandom c) v (c2_txRandom c) (c2_mask c) (c2_amount c)
    (c2_assetTag c) (c2_rawAssetTag c).
Definition c2_putTxRandom (v : option (list Z)) (c : CoinV2) : CoinV2 :=
  mkCoinV2 (c2_version c) (c2_info c) (c2_publicKey c) (c2_commitment c) (c2_keyImage c)
    (c2_sharedConcealRandom c) (c2_sharedRandom c) v (c2_mask c) (c2_amount c)
    (c2_assetTag c) (c2_rawAssetTag c).
Definition c2_SetRandomness (v : option (list Z)) (c : CoinV2) : CoinV2 :=
  mkCoinV2 (c2_version c) (c2_info c) (c2_publicKey c) (c2_commitment c) (c2_keyImage c)
    (c2_sharedConcealRandom c) (c2_sharedRandom c) (c2_txRandom c) v (c2_amount c)
    (c2_assetTag c) (c2_rawAssetTag c).
Definition c2_SetAmount (v : option (list Z)) (c : CoinV2) : CoinV2 :=
  mkCoinV2 (c2_version c) (c2_info c) (c2_publicKey c) (c2_commitment c) (c2_keyImage c)
    (c2_sharedConcealRandom c) (c2_sharedRandom c) (c2_txRandom c) (c2_mask c) v
    (c2_assetTag c) (c2_rawAssetTag c).
Definition c2_SetAssetTag (v : option (list Z)) (c : CoinV2) : CoinV2 :=
  mkCoinV2 (c2_version c) (c2_info c) (c2_publicKey c) (c2_commitment c) (c2_keyImage c)
    (c2_sharedConcealRandom c) (c2_sharedRandom c) (c2_txRandom c) (c2_mask c) (c2_amount c)
    v (c2_rawAssetTag c).
Definition c2_putRawAssetTag (v : option (list Z)) (c : CoinV2) : CoinV2 :=
  mkCoinV2 (c2_version c) (c2_info c) (c2_publicKey c) (c2_commitment c) (c2_keyImage c)
    (c2_sharedConcealRandom c) (c2_sharedRandom c) (c2_txRandom c) (c2_mask c) (c2_amount c)
    (c2_assetTag c) v.

Definition zero_scalar : list Z := replicate Ed25519KeySize 0.

(** [Init] does not touch [sharedConcealRandom] and the asset tags. *)
Definition CoinV2_Init (c : CoinV2) : CoinV2 :=
  mkCoinV2 2 [] (Some Identity) (Some Identity) (Some Identity) (c2_sharedConcealRandom c)
    (Some zero_scalar) (Some NewTxRandom) (Some zero_scalar) (Some zero_scalar)
    (c2_assetTag c) (c2_rawAssetTag c).

(** A length byte of 32 and the key, or a zero byte. *)
Definition opt_field (o : option (list Z)) : list Z :=
  match o with Some k => Z.of_nat Ed25519KeySize :: k | None => [0] end.

Definition CoinV2_Bytes (c : CoinV2) : list Z :=
  let byteLengthInfo := getMin (length (c2_info c)) MaxSizeInfoCoin in
  2 :: u8 (Z.of_nat byteLengthInfo) :: take byteLengthInfo (c2_info c) ++
  opt_field (c2_publicKey c) ++ opt_field (c2_commitment c) ++ opt_field (c2_keyImage c) ++
  opt_field (c2_sharedRandom c) ++ opt_field (c2_sharedConcealRandom c) ++
  match c2_txRandom c with
  | Some t => Z.of_nat TxRandomGroupSize :: TxRandom_Bytes t
  | None => [0]
  end ++
  opt_field (c2_mask c) ++ opt_field (c2_amount c) ++ opt_field (c2_assetTag c).

Section coin.
Context `{CO : CurveOps} `{DG : Digests} `{LR : LRU} `{AL : Allocator} `{HD : HDWallet}.

(** [if offset >= len(b) { return err }; ...; offset += 68] *)
Definition parse_txRandom (b : list Z) (offset : nat) : st CoinV2 nat :=
  if (length b <=? offset)%nat then st_fail "offset is larger than len(bytes), cannot parse txRandom"
  else
    let! l := st_lift (index b offset) in
    if negb (l =? Z.of_nat TxRandomGroupSize)
    then st_fail "SetBytes CoinV2 TxRandomGroup error: length of TxRandomGroup is not correct"
    else
      let offset := (offset + 1)%nat in
      if (length b <? offset + TxRandomGroupSize)%nat
      then st_fail "SetBytes CoinV2 TxRandomGroup error: length of coinBytes is too small"
      else
        let! _ := st_put (c2_putTxRandom (Some NewTxRandom)) in
        let! data := st_lift (slice b offset (offset + TxRandomGroupSize)) in
        match TxRandom_SetBytes data NewTxRandom with
        | (t, Ok _) =>
            let! _ := st_put (c2_putTxRandom (Some t)) in
            st_ret (offset + TxRandomGroupSize)%nat
        | (_, r) => st_lift (let* _ := res_wrap "SetBytes CoinV2 TxRandomGroup error" r in Ok offset)
        end.

Definition CoinV2_SetBytes (b : list Z) : st CoinV2 unit :=
  if (length b =? 0)%nat then st_fail "coinBytes is empty"
  else
    let! v := st_lift (index b 0) in
    if negb (v =? 2) then st_fail "coinBytes version is not 2"
    else
      let! _ := st_put (c2_SetVersion v) in
      let! off := st_assign c2_SetInfo [] "SetBytes CoinV2 info error" (parseInfoForSetBytes b 1) in
      let! off := st_assign c2_SetPublicKey None "SetBytes CoinV2 publicKey error"
                    (parsePointForSetBytes b off) in
      let! off := st_assign c2_SetCommitment None "SetBytes CoinV2 commitment error"
                    (parsePointForSetBytes b off) in
      let! off := st_assign c2_SetKeyImage None "SetBytes CoinV2 keyImage error"
                    (parsePointForSetBytes b off) in
      let! off := st_assign c2_SetSharedRandom None "SetBytes CoinV2 mask error"
                    (parseScalarForSetBytes b off) in
      let! off := st_assign c2_SetSharedConcealRandom None "SetBytes CoinV2 mask error"
                    (parseScalarForSetBytes b off) in
      let! off := parse_txRandom b off in
      let! off := st_assign c2_SetRandomness None "SetBytes CoinV2 mask error"
                    (parseScalarForSetBytes b off) in
      let! off := st_assign c2_SetAmount None "SetBytes CoinV2 amount error"
                    (parseScalarForSetBytes b off) in
      if (length b <=? off)%nat then st_put (c2_SetAssetTag None)
      else
        let! _ := st_assign c2_SetAssetTag None "SetBytes CoinV2 assetTag error"
                    (parsePointForSetBytes b off) in
        st_ret tt.

Definition CoinV2_HashH (c : CoinV2) : list Z := HashH (CoinV2_Bytes c).

(** The global [PedCom]; it is initialised once. *)
Definition PedG : list (list Z) :=
  match NewPedersenParams with Ok G => G | _ => [] end.

(** [c.SetTxRandom(v)]: the error of [SetBytes] is dropped. *)
Definition c2_SetTxRandom (v : option (list Z)) (c : CoinV2) : CoinV2 :=
  match v with
  | None => c2_putTxRandom None c
  | Some t => c2_putTxRandom (Some (fst (TxRandom_SetBytes (TxRandom_Bytes t) NewTxRandom))) c
  end.

Definition make_TxRandom (concealPoint otaPoint : list Z) (i : Z) : list Z :=
  TxRandom_SetIndex i (SetTxOTARandomPoint otaPoint
    (SetTxConcealRandomPoint concealPoint (replicate TxRandomGroupSize 0))).

Definition c2_SetTxRandomDetail (concealPoint otaPoint : list Z) (i : Z) (c : CoinV2) : CoinV2 :=
  c2_putTxRandom (Some (make_TxRandom concealPoint otaPoint i)) c.

(** The conceal point, the OTA point and the index. *)
Definition GetTxRandomDetail (c : CoinV2) : res (list Z * list Z * Z) :=
  let* t := deref (c2_txRandom c) in
  match GetTxOTARandomPoint t, GetTxConcealRandomPoint t, TxRandom_GetIndex t with
  | Ok ota, Ok conceal, Ok i => Ok (conceal, ota, i)
  | Panic, _, _ | _, Panic, _ | _, _, Panic => Panic
  | _, _, _ => Err "cannot Get TxRandom: point or index is wrong"
  end.

Definition c2_SetValue (value : Z) (c : CoinV2) : res CoinV2 :=
  let* a := Scalar_FromUint64 value in Ok (c2_SetAmount (Some a) c).

(** ** coin_v2_ca.go: commitments with an asset tag *)

Definition ComputeCommitmentCA (assetTag r v : option (list Z)) : res (list Z) :=
  match assetTag, r, v with
  | Some tag, Some r, Some v =>
      let* randomnessBasePoint := index PedG PedersenRandomnessIndex in
      Ok (Point_Add (Point_ScalarMult tag v) (Point_ScalarMult randomnessBasePoint r))
  | _, _, _ => Err "missing arguments for committing to CA coin"
  end.

(** The method: a [nil] asset tag is dereferenced. *)
Definition CoinV2_ComputeCommitmentCA (c : CoinV2) : res (list Z) :=
  match c2_mask c, c2_amount c with
  | Some r, Some v =>
      let* randomnessBasePoint := index PedG PedersenRandomnessIndex in
      let* tag := deref (c2_assetTag c) in
      Ok (Point_Add (Point_ScalarMult tag v) (Point_ScalarMult randomnessBasePoint r))
  | _, _ => Err "missing arguments for committing"
  end.

Definition ComputeAssetTagBlinder (sharedSecret : option (list Z)) : res (list Z) :=
  match sharedSecret with
  | None => Err "missing arguments for asset tag blinder"
  | Some s => deref (HashToScalar (s ++ AssetTagString))
  end.

Definition RecomputeSharedSecret (privateKey : list Z) (c : CoinV2) : res (list Z) :=
  let* privateOTA := GeneratePrivateOTAKey privateKey in
  let sk := Scalar_FromBytesS privateOTA in
  let* t := deref (c2_txRandom c) in
  let* p := res_wrap "cannot retrieve tx random detail" (GetTxOTARandomPoint t) in
  Ok (Point_ScalarMult p sk).

Definition is_prv (tokenID : option (list Z)) : bool :=
  match tokenID with None => true | Some t => bool_decide (t = PRVCoinID) end.

Definition ValidateAssetTag (sharedSecret tokenID : option (list Z)) (c : CoinV2) : res bool :=
  match c2_assetTag c with
  | None => if is_prv tokenID then Ok true else Err "CA coin must have asset tag"
  | Some tag =>
      if is_prv tokenID then Err "PRV coin cannot have asset tag"
      else
        let* t := deref tokenID in
        let* recomputed := deref (HashToPoint t) in
        if IsPointEqual recomputed tag then Ok true
        else
          let* blinder := ComputeAssetTagBlinder sharedSecret in
          let* g := index PedG PedersenRandomnessIndex in
          Ok (IsPointEqual (Point_Add recomputed (Point_ScalarMult g blinder)) tag)
  end.

(** The asset tag is set before the commitment is computed. *)
Definition SetPlainTokenID (tokenID : list Z) : st CoinV2 unit := fun c =>
  let c := c2_SetAssetTag (HashToPoint tokenID) c in
  match CoinV2_ComputeCommitmentCA c with
  | Ok com => (c2_SetCommitment (Some com) c, Ok tt)
  | Err m => (c, Err m)
  | Panic => (c, Panic)
  | OutOfFuel => (c, OutOfFuel)
  end.

(** ** Encryption of the amount *)

Definition CoinV2_IsEncrypted (c : CoinV2) : res bool :=
  match c2_mask c, c2_amount c with
  | Some mask, Some amount =>
      let* tempCommitment :=
        match c2_assetTag c with
        | None => CommitAtIndex PedG amount mask PedersenValueIndex
        | Some _ => CoinV2_ComputeCommitmentCA c
        end in
      let* commitment := deref (c2_commitment c) in
      Ok (negb (IsPointEqual tempCommitment commitment))
  | _, _ => Ok true
  end.

Definition CoinV2_GetValue (c : CoinV2) : res Z :=
  let* enc := CoinV2_IsEncrypted c in
  if enc then Ok 0
  else let* a := deref (c2_amount c) in Ok (Scalar_ToUint64Little a).

Definition CoinV2_GetShardID (c : CoinV2) : res Z :=
  match c2_publicKey c with
  | None => Err "cannot get GetShardID because GetPublicKey of PlainCoin is concealed"
  | Some pk => let* b := index pk (Ed25519KeySize - 1) in Ok (GetShardIDFromLastByte b)
  end.

(** The two hashes that blind the randomness and the amount. *)
Definition conceal_hashes (rK : list Z) : res (list Z * list Z) :=
  let* h1 := deref (HashToScalar rK) in
  let* h2 := deref (HashToScalar h1) in
  let* h3 := deref (HashToScalar h2) in
  Ok (h2, h3).

(** [additionalData.( *crypto.Point)], [None] when it is not a point. *)
Definition CoinV2_ConcealOutputCoin (additionalData : option (list Z)) : st CoinV2 unit := fun c =>
  match CoinV2_IsEncrypted c with
  | Ok enc =>
      match enc, c2_sharedConcealRandom c with
      | false, Some r =>
          match additionalData with
          | None => (c, Err "cannot conceal CoinV2 without receiver view key")
          | Some publicView =>
              match
                let rK := Point_ScalarMult publicView r in
                let* (h2, h3) := conceal_hashes rK in
                let* mask := deref (c2_mask c) in
                let* amount := deref (c2_amount c) in
                Ok (Scalar_Add mask h2, Scalar_Add amount h3)
              with
              | Ok (mask, amount) =>
                  (c2_SetSharedRandom None (c2_SetSharedConcealRandom None
                     (c2_SetAmount (Some amount) (c2_SetRandomness (Some mask) c))), Ok tt)
              | Err m => (c, Err m)
              | Panic => (c, Panic)
              | OutOfFuel => (c, OutOfFuel)
              end
          end
      | _, _ => (c, Ok tt)
      end
  | Err m => (c, Err m)
  | Panic => (c, Panic)
  | OutOfFuel => (c, OutOfFuel)
  end.

Definition CoinV2_ConcealInputCoin (c : CoinV2) : res CoinV2 :=
  let* c := c2_SetValue 0 c in
  Ok (c2_SetTxRandomDetail Identity Identity 0
        (c2_SetCommitment None (c2_SetPublicKey None (c2_SetRandomness None c)))).

(** ** One-time keys *)

Definition CoinV2_ParsePrivateKeyOfCoin (privateKey : list Z) (c : CoinV2) : res (list Z) :=
  let* keySet := res_wrap "cannot init keyset from privateKey"
                   (KeySet_InitFromPrivateKey (Some privateKey)) in
  let* (_, txRandomOTAPoint, i) := GetTxRandomDetail c in
  let* ota := deref (OTAKey_GetOTASecretKey (ks_OTAKey keySet)) in
  let rK := Point_ScalarMult txRandomOTAPoint ota in
  let* H := deref (HashToScalar (rK ++ Uint32ToBytes i)) in
  let k := Scalar_FromBytesS privateKey in
  Ok (Scalar_Add H k).

Definition CoinV2_ParseKeyImageWithPrivateKey (privateKey : list Z) (c : CoinV2) : res (list Z) :=
  let* k := CoinV2_ParsePrivateKeyOfCoin privateKey c in
  let* pk := deref (c2_publicKey c) in
  let* Hp := deref (HashToPoint pk) in
  Ok (Point_ScalarMult Hp k).

Definition commitment_of (c : CoinV2) (value randomness : list Z) : res (list Z) :=
  match c2_assetTag c with
  | None => CommitAtIndex PedG value randomness PedersenValueIndex
  | Some tag => res_wrap "cannot recompute commitment when decrypting"
                  (ComputeCommitmentCA (Some tag) (Some randomness) (Some value))
  end.

(** [c.GetRandomness().Sub(c.GetRandomness(), hash)] writes into the scalar of
    the coin, so the coin keeps the new mask and amount when the commitments
    differ. *)
Definition decrypt_amount (viewKey : ViewingKey) : st CoinV2 unit := fun c =>
  match
    let* t := deref (c2_txRandom c) in
    let* txConcealRandomPoint := GetTxConcealRandomPoint t in
    let rK := Point_ScalarMult txConcealRandomPoint (ViewingKey_GetPrivateView viewKey) in
    let* (h2, h3) := conceal_hashes rK in
    let* mask := deref (c2_mask c) in
    let* amount := deref (c2_amount c) in
    Ok (Scalar_Sub mask h2, Scalar_Sub amount h3)
  with
  | Ok (randomness, value) =>
      let c := c2_SetAmount (Some value) (c2_SetRandomness (Some randomness) c) in
      match
        let* commitment := commitment_of c value randomness in
        let* com := deref (c2_commitment c) in
        if negb (IsPointEqual commitment com)
        then Err "cannot Decrypt CoinV2: Commitment is not the same after decrypt"
        else Ok tt
      with
      | r => (c, r)
      end
  | Err m => (c, Err m)
  | Panic => (c, Panic)
  | OutOfFuel => (c, OutOfFuel)
  end.

Definition CoinV2_Decrypt (keySet : option KeySet) : st CoinV2 unit :=
  match keySet with
  | None => st_fail "cannot Decrypt CoinV2: Keyset is empty"
  | Some ks =>
      let! _ := (if (0 <? length (ks_PrivateKey ks))%nat then
                   fun c => match CoinV2_ParseKeyImageWithPrivateKey (ks_PrivateKey ks) c with
                            | Ok keyImage => (c2_SetKeyImage (Some keyImage) c, Ok tt)
                            | Err _ => (c, Err "cannot parse key image with privateKey CoinV2")
                            | Panic => (c, Panic)
                            | OutOfFuel => (c, OutOfFuel)
                            end
                 else st_ret tt) in
      fun c => match CoinV2_IsEncrypted c with
               | Ok false => (c, Ok tt)
               | Ok true =>
                   if (length (vk_Rk (ks_ReadonlyKey ks)) =? 0)%nat &&
                      (length (ks_PrivateKey ks) =? 0)%nat
                   then (c, Err "cannot Decrypt CoinV2: Keyset does not contain viewkey or privatekey")
                   else decrypt_amount (ks_ReadonlyKey ks) c
               | Err m => (c, Err m)
               | Panic => (c, Panic)
               | OutOfFuel => (c, OutOfFuel)
               end
  end.

Definition CheckCoinValid (paymentAdd : PaymentAddress) (sharedRandom : list Z) (amount : Z)
    (c : CoinV2) : res bool :=
  let* v := CoinV2_GetValue c in
  if negb (v =? amount) then Ok false
  else
    let r := Scalar_FromBytesS sharedRandom in
    if negb (ScValid r) then Ok false
    else
      match PaymentAddress_GetOTAPublicKey paymentAdd with
      | None => Ok false
      | Some publicOTA =>
          let rK := Point_ScalarMult publicOTA r in
          on_err false
            (let* (_, txOTARandomPoint, i) := GetTxRandomDetail c in
             if negb (IsPointEqual (Point_ScalarMultBase r) txOTARandomPoint) then Ok false
             else
               let* hash := deref (HashToScalar (rK ++ Uint32ToBytes i)) in
               let HrKG := Point_ScalarMultBase hash in
               let* publicSpend := deref (PaymentAddress_GetPublicSpend paymentAdd) in
               let* pk := deref (c2_publicKey c) in
               Ok (bool_decide (Point_Add HrKG publicSpend = pk)))
      end.

(** The flag and the shared secret; the raw asset tag may be stored in the
    coin. *)
Definition DoesCoinBelongToKeySet (keySet : KeySet) (c : CoinV2)
  : res (CoinV2 * bool * option (list Z)) :=
  match GetTxRandomDetail c with
  | Err _ => Ok (c, false, None)
  | Panic => Panic
  | OutOfFuel => OutOfFuel
  | Ok (_, txOTARandomPoint, i) =>
      let* ota := deref (OTAKey_GetOTASecretKey (ks_OTAKey keySet)) in
      let rK := Point_ScalarMult txOTARandomPoint ota in
      let* hashed := deref (HashToScalar (rK ++ Uint32ToBytes i)) in
      let HnG := Point_ScalarMultBase hashed in
      let* pk := deref (c2_publicKey c) in
      let KCheck := Point_Sub pk HnG in
      let* spend := deref (OTAKey_GetPublicSpend (ks_OTAKey keySet)) in
      if negb (IsPointEqual KCheck spend) then Ok (c, false, None)
      else
        match c2_assetTag c, c2_rawAssetTag c with
        | Some tag, None =>
            let* blinder := deref (HashToScalar (rK ++ AssetTagString)) in
            let* g := index PedG PedersenRandomnessIndex in
            let raw := Point_Sub tag (Point_ScalarMult g blinder) in
            Ok (c2_putRawAssetTag (Some raw) c, true, Some rK)
        | _, _ => Ok (c, true, Some rK)
        end
  end.

Definition GetTokenId (keySet : KeySet) (rawAssetTags : gmap (list Z) (list Z)) (c : CoinV2)
  : res (CoinV2 * list Z) :=
  match (match c2_rawAssetTag c with Some raw => rawAssetTags !! hex_encode raw | None => None end) with
  | Some asset => Ok (c, asset)
  | None =>
      match c2_assetTag c with
      | None => Ok (c, PRVCoinID)
      | Some tag =>
          match rawAssetTags !! hex_encode tag with
          | Some asset => Ok (c, asset)
          | None =>
              let* (c, belong, _) := DoesCoinBelongToKeySet keySet c in
              if negb belong then Err "coin does not belong to the keyset"
              else
                match c2_rawAssetTag c with
                | None => Err "cannot calculate the raw asset tag"
                | Some raw =>
                    match rawAssetTags !! hex_encode raw with
                    | Some asset => Ok (c, asset)
                    | None => Err "cannot find the tokenId"
                    end
                end
          end
      end
  end.

(** ** Creating one-time addresses *)

(** The loop of the constructors: the first index whose public key is accepted,
    with that key; [None] when the tries are used up. *)
Fixpoint ota_loop (fuel : nat) (i : Z) (rK publicSpend : list Z) (accept : list Z -> res bool)
  : res (option (Z * list Z)) :=
  match fuel with
  | O => Ok None
  | S f =>
      let i := u32 (i + 1) in
      let* hash := deref (HashToScalar (rK ++ Uint32ToBytes i)) in
      let HrKG := Point_ScalarMultBase hash in
      let publicKey := Point_Add HrKG publicSpend in
      let* ok := accept publicKey in
      if ok then Ok (Some (i, publicKey)) else ota_loop f i rK publicSpend accept
  end.

Definition accept_params (targetShardID : Z) (p : CoinParams) (publicKey : list Z) : res bool :=
  match DeriveShardInfoFromCoin publicKey with
  | Panic => Panic
  | OutOfFuel => OutOfFuel
  | r => let '(s, d, t) := shard_info r in
         Ok ((d =? targetShardID) && (s =? cp_SenderShardID p) && (t =? cp_CoinPrivacyType p))
  end.

(** The loop has no bound in the code: [fuel] is the number of turns the model
    gives it.  The scalars are the results of the three [RandomScalar]. *)
Definition NewCoinFromPaymentInfo (fuel : nat) (rMask rShared rConceal : list Z) (p : CoinParams)
  : res CoinV2 :=
  let addr := pi_PaymentAddress (cp_PaymentInfo p) in
  let* receiverPublicKey := res_wrap "Cannot parse outputCoinV2 from PaymentInfo"
                              (Point_FromBytesS (pa_Pk addr)) in
  let* b := last_byte receiverPublicKey in
  let targetShardID := GetShardIDFromLastByte b in
  let c := CoinV2_Init newCoinV2 in
  let* amount := Scalar_FromUint64 (pi_Amount (cp_PaymentInfo p)) in
  let c := c2_SetInfo (pi_Message (cp_PaymentInfo p))
             (c2_SetSharedConcealRandom (Some rConceal) (c2_SetSharedRandom (Some rShared)
             (c2_SetRandomness (Some rMask) (c2_SetAmount (Some amount) c)))) in
  let* com := CommitAtIndex PedG amount rMask PedersenValueIndex in
  let c := c2_SetCommitment (Some com) c in
  let* burning := IsPublicKeyBurningAddress (pa_Pk addr) in
  if burning then Ok (c2_SetPublicKey (Some receiverPublicKey) c)
  else
    match PaymentAddress_GetOTAPublicKey addr with
    | None => Err "public OTA from payment address is nil"
    | Some publicOTA =>
        let* publicSpend := deref (PaymentAddress_GetPublicSpend addr) in
        let rK := Point_ScalarMult publicOTA rShared in
        let* found := ota_loop fuel 0 rK publicSpend (accept_params targetShardID p) in
        match found with
        | None => OutOfFuel
        | Some (i, publicKey) =>
            let (rShared, otaRandomPoint) := ScalarmultBase rShared in
            let (rConceal, concealRandomPoint) := ScalarmultBase rConceal in
            Ok (c2_SetTxRandomDetail concealRandomPoint otaRandomPoint i
                  (c2_SetSharedConcealRandom (Some rConceal) (c2_SetSharedRandom (Some rShared)
                  (c2_SetPublicKey (Some publicKey) c))))
        end
    end.

(** The commitment is not set before [SetPlainTokenID] or the asset tag. *)
Definition NewCoinCA (rMask rShared rConceal : list Z) (p : CoinParams) (tokenID : option (list Z))
  : res (CoinV2 * option (list Z)) :=
  let addr := pi_PaymentAddress (cp_PaymentInfo p) in
  let* receiverPublicKey := res_wrap "Cannot parse outputCoinV2 from PaymentInfo"
                              (Point_FromBytesS (pa_Pk addr)) in
  let* b := last_byte receiverPublicKey in
  let targetShardID := GetShardIDFromLastByte b in
  let c := CoinV2_Init newCoinV2 in
  let* amount := Scalar_FromUint64 (pi_Amount (cp_PaymentInfo p)) in
  let c := c2_SetInfo (pi_Message (cp_PaymentInfo p))
             (c2_SetSharedConcealRandom (Some rConceal) (c2_SetSharedRandom (Some rShared)
             (c2_SetRandomness (Some rMask) (c2_SetAmount (Some amount) c)))) in
  let* burning := IsPublicKeyBurningAddress (pa_Pk addr) in
  if burning then
    let c := c2_SetPublicKey (Some receiverPublicKey) c in
    let* t := deref tokenID in
    match SetPlainTokenID t c with
    | (c, Ok _) => Ok (c, None)
    | (_, Err m) => Err m
    | (_, Panic) => Panic
    | (_, OutOfFuel) => OutOfFuel
    end
  else
    match PaymentAddress_GetOTAPublicKey addr with
    | None => Err "public OTA from payment address is nil"
    | Some publicOTA =>
        let* publicSpend := deref (PaymentAddress_GetPublicSpend addr) in
        let rK := Point_ScalarMult publicOTA rShared in
        let* found := ota_loop (Z.to_nat MaxTriesOTA) 0 rK publicSpend (accept_params targetShardID p) in
        match found with
        | None => Err "cannot create OTA"
        | Some (i, publicKey) =>
            let (rShared, otaRandomPoint) := ScalarmultBase rShared in
            let (rConceal, concealRandomPoint) := ScalarmultBase rConceal in
            let c := c2_SetTxRandomDetail concealRandomPoint otaRandomPoint i
                       (c2_SetSharedConcealRandom (Some rConceal) (c2_SetSharedRandom (Some rShared)
                       (c2_SetPublicKey (Some publicKey) c))) in
            let rAsset := Point_ScalarMult publicOTA rShared in
            let* blinder := ComputeAssetTagBlinder (Some rAsset) in
            match tokenID with
            | None => Err "cannot create coin without tokenID"
            | Some t =>
                let* raw := deref (HashToPoint t) in
                let* g := index PedG PedersenRandomnessIndex in
                let c := c2_SetAssetTag (Some (Point_Add raw (Point_ScalarMult g blinder))) c in
                let* com := res_wrap "cannot compute commitment for confidential asset"
                              (CoinV2_ComputeCommitmentCA c) in
                Ok (c2_SetCommitment (Some com) c, Some rAsset)
            end
        end
    end.

(** ** receiver.go *)

Record OTAReceiver := mkOTAReceiver { or_PublicKey : list Z; or_TxRandom : list Z }.

Definition OTAReceiver_IsValid (r : OTAReceiver) : bool :=
  is_ok (GetTxConcealRandomPoint (or_TxRandom r)) &&
  is_ok (GetTxOTARandomPoint (or_TxRandom r)) && PointValid (or_PublicKey r).

Definition receiver_loop (otaRand concealRand : list Z) (addr : PaymentAddress)
    (accept : list Z -> res bool) : res OTAReceiver :=
  match PaymentAddress_GetOTAPublicKey addr with
  | None => Err "missing public OTA in payment address"
  | Some publicOTA =>
      let* publicSpend := deref (PaymentAddress_GetPublicSpend addr) in
      let rK := Point_ScalarMult publicOTA otaRand in
      let* found := ota_loop (Z.to_nat MaxTriesOTA) 0 rK publicSpend accept in
      match found with
      | None => Err "cannot generate OTAReceiver"
      | Some (i, publicKey) =>
          let otaRandomPoint := Point_ScalarMultBase otaRand in
          let concealRandomPoint := Point_ScalarMultBase concealRand in
          Ok (mkOTAReceiver publicKey
                (TxRandom_SetIndex i (SetTxConcealRandomPoint concealRandomPoint
                   (SetTxOTARandomPoint otaRandomPoint NewTxRandom))))
      end
  end.

Definition OTAReceiver_FromAddress (otaRand concealRand : list Z) (addr : PaymentAddress)
  : res OTAReceiver :=
  let* b := last_byte (pa_Pk addr) in
  let targetShardID := GetShardIDFromLastByte b in
  receiver_loop otaRand concealRand addr
    (fun pk => let* b := last_byte pk in Ok (GetShardIDFromLastByte b =? targetShardID)).

Definition OTAReceiver_FromCoinParams (otaRand concealRand : list Z) (p : CoinParams)
  : res OTAReceiver :=
  let addr := pi_PaymentAddress (cp_PaymentInfo p) in
  let* b := last_byte (pa_Pk addr) in
  let receiverShardID := GetShardIDFromLastByte b in
  receiver_loop otaRand concealRand addr (accept_params receiverShardID p).

Definition OTAReceiver_Bytes (r : OTAReceiver) : list Z :=
  PrivateReceivingAddressType :: or_PublicKey r ++ TxRandom_Bytes (or_TxRandom r).

(** [cap] is the capacity of [b].  The public key is stored before the random
    part is parsed. *)
Definition OTAReceiver_SetBytes (cap : nat) (b : list Z) : st OTAReceiver unit :=
  if (length b =? 0)%nat then st_fail "Not enough bytes to parse ReceivingAddress"
  else
    let! keyType := st_lift (index b 0) in
    if negb (keyType =? PrivateReceivingAddressType)
    then st_fail "unrecognized prefix for ReceivingAddress"
    else
      let! buf := st_lift (slice_cap cap b 1 33) in
      let! pk := st_lift (Point_FromBytesS buf) in
      let! _ := st_put (fun r => mkOTAReceiver pk (or_TxRandom r)) in
      let! rest := st_lift (if (length b <? 33)%nat then Panic else slice b 33 (length b)) in
      fun r => match TxRandom_SetBytes rest NewTxRandom with
               | (txr, Ok _) => (mkOTAReceiver (or_PublicKey r) txr, Ok tt)
               | (_, Err m) => (r, Err m)
               | (_, Panic) => (r, Panic)
               | (_, OutOfFuel) => (r, OutOfFuel)
               end.

Definition OTAReceiver_String (r : OTAReceiver) : st cache (list Z) :=
  Base58Check_NewEncode (OTAReceiver_Bytes r) 0.

Definition OTAReceiver_FromString (data : list Z) : st OTAReceiver unit :=
  let! (raw, _) := st_lift (Base58Check_Decode data) in
  OTAReceiver_SetBytes (append_cap (length raw)) raw.

Definition OTAReceiver_DeriveShardID (r : OTAReceiver) : res (Z * Z * Z) :=
  DeriveShardInfoFromCoin (or_PublicKey r).
End coin.

(** ** Parsing lemmas *)

Lemma getMin_min a b : getMin a b = Nat.min a b.
Proof. unfold getMin. destruct (Nat.ltb_spec a b); lia. Qed.

Lemma parseScalar_safe b off : res_safe (parseScalarForSetBytes b off).
Proof.
  unfold parseScalarForSetBytes. destruct (Nat.leb_spec (length b) off); [done|].
  destruct (index_safe b off) as (l & -> & _); [lia|]. cbn [res_bind].
  destruct (l =? 0); cbn [negb]; [done|].
  destruct (Nat.ltb_spec (length b) (off + 1 + Z.to_nat l)); [done|].
  destruct (slice_safe b (off + 1) (off + 1 + Z.to_nat l)) as (d & -> & _); [lia|]. done.
Qed.

Lemma parseInfo_safe b off : res_safe (parseInfoForSetBytes b off).
Proof.
  unfold parseInfoForSetBytes. destruct (Nat.leb_spec (length b) off); [done|].
  destruct (index_safe b off) as (l & -> & _); [lia|]. cbn [res_bind].
  destruct (l =? 0); cbn [negb]; [done|].
  destruct (Nat.ltb_spec (length b) (off + 1 + Z.to_nat l)); [done|].
  destruct (slice_safe b (off + 1) (off + 1 + Z.to_nat l)) as (d & -> & _); [lia|]. done.
Qed.

(** The state monad: safety of a sequence. *)
Definition st_safe {S A} (m : st S A) : Prop := forall s, res_safe (snd (m s)).

Lemma st_bind_safe {S A B} (m : st S A) (k : A -> st S B) :
  st_safe m -> (forall a, st_safe (k a)) -> st_safe (st_bind m k).
Proof.
  intros Hm Hk s. unfold st_bind. specialize (Hm s).
  destruct (m s) as [s' [a| | |]]; try done. apply Hk.
Qed.

Lemma st_assign_safe {S V} (set : V -> S -> S) d msg (p : res (V * nat)) :
  res_safe p -> st_safe (st_assign set d msg p).
Proof. intros Hp s. unfold st_assign. by destruct p as [[v off]| | |]. Qed.

Lemma st_lift_safe {S A} (r : res A) : res_safe r -> st_safe (S := S) (st_lift r).
Proof. intros Hr s. exact Hr. Qed.

Lemma st_fail_safe {S A} m : st_safe (S := S) (A := A) (st_fail m).
Proof. done. Qed.

Lemma st_put_safe {S} (f : S -> S) : st_safe (st_put f).
Proof. done. Qed.

Create HintDb safe.
#[export] Hint Resolve parseScalar_safe parseInfo_safe st_bind_safe st_assign_safe st_lift_safe
  st_fail_safe st_put_safe : safe.

(** A state computation that succeeds, for the round trips. *)
Lemma st_bind_ok {S A B} (m : st S A) (k : A -> st S B) s s' a :
  m s = (s', Ok a) -> st_bind m k s = k a s'.
Proof. unfold st_bind. by intros ->. Qed.

Lemma st_assign_ok {S V} (set : V -> S -> S) d msg (p : res (V * nat)) s v off :
  p = Ok (v, off) -> st_assign set d msg p s = (set v s, Ok off).
Proof. unfold st_assign. by intros ->. Qed.

Section parse.
Context `{CO : CurveOps}.

Lemma Point_FromBytesS_ok p : length p = 32%nat -> ge_frombytes p = true -> Point_FromBytesS p = Ok p.
Proof using Type.
  intros Hl Hv. unfold Point_FromBytesS, Point_FromBytesS_st. rewrite Hl.
  cbn [negb Nat.eqb Ed25519KeySize]. rewrite copy_to_array_exact by done. by rewrite Hv.
Qed.

Lemma Point_FromBytesS_safe b : res_safe (Point_FromBytesS b).
Proof using Type.
  unfold Point_FromBytesS, Point_FromBytesS_st.
  destruct (negb _); [done|]. by destruct (ge_frombytes _).
Qed.

Lemma parsePoint_safe b off : res_safe (parsePointForSetBytes b off).
Proof using Type.
  unfold parsePointForSetBytes. destruct (Nat.leb_spec (length b) off); [done|].
  destruct (index_safe b off) as (l & -> & _); [lia|]. cbn [res_bind].
  destruct (l =? 0); cbn [negb]; [done|].
  destruct (Nat.ltb_spec (length b) (off + 1 + Z.to_nat l)); [done|].
  destruct (slice_safe b (off + 1) (off + 1 + Z.to_nat l)) as (d & -> & _); [lia|].
  cbn [res_bind]. pose proof (Point_FromBytesS_safe d) as Hs.
  by destruct (Point_FromBytesS d).
Qed.

(** What a field of a coin may hold. *)
Definition opt_scalar (o : option (list Z)) : Prop :=
  match o with Some k => key_ok k | None => True end.
Definition opt_point (o : option (list Z)) : Prop :=
  match o with Some k => key_ok k /\ ge_frombytes k = true | None => True end.

Lemma field_at b pre o suf off : b = pre ++ opt_field o ++ suf -> off = length pre ->
  opt_scalar o ->
  (off < length b)%nat /\
  match o with
  | None => index b off = Ok 0
  | Some k => index b off = Ok 32 /\ (off + 1 + 32 <= length b)%nat /\
              slice b (off + 1) (off + 1 + 32) = Ok k
  end.
Proof using Type.
  intros -> -> Ho. rewrite !length_app. destruct o as [k|]; cbn [opt_field app].
  - destruct Ho as [Hl _]. unfold Ed25519KeySize in *. cbn [length].
    split; [lia|]. split; [by apply index_middle|]. rewrite Hl. split; [lia|].
    replace (pre ++ Z.of_nat 32 :: k ++ suf) with ((pre ++ [32]) ++ k ++ suf)
      by (by rewrite <- app_assoc).
    apply slice_app_mid; rewrite length_app; cbn [length]; lia.
  - cbn [length]. split; [lia|]. by apply index_middle.
Qed.

Lemma parseScalar_field b pre o suf off : b = pre ++ opt_field o ++ suf -> off = length pre ->
  opt_scalar o ->
  parseScalarForSetBytes b off = Ok (o, (off + length (opt_field o))%nat).
Proof using Type.
  intros Hb Hoff Ho. destruct (field_at b pre o suf off Hb Hoff Ho) as [Hlt H].
  unfold parseScalarForSetBytes. destruct (Nat.leb_spec (length b) off); [lia|].
  destruct o as [k|].
  - destruct H as (-> & Hle & Hs). cbn [res_bind]. change (32 =? 0) with false. cbn [negb].
    change (Z.to_nat 32) with 32%nat.
    destruct (Nat.ltb_spec (length b) (off + 1 + 32)); [lia|]. rewrite Hs. cbn [res_bind].
    destruct Ho as [Hl _]. unfold Ed25519KeySize in Hl.
    cbn [opt_field length]. rewrite Hl. unfold Scalar_FromBytesS.
    rewrite copy_to_array_exact by done. do 2 f_equal. lia.
  - rewrite H. cbn. do 2 f_equal.
Qed.

Lemma parsePoint_field b pre o suf off : b = pre ++ opt_field o ++ suf -> off = length pre ->
  opt_point o ->
  parsePointForSetBytes b off = Ok (o, (off + length (opt_field o))%nat).
Proof using Type.
  intros Hb Hoff Ho.
  destruct (field_at b pre o suf off Hb Hoff) as [Hlt H]; [by destruct o; [apply Ho|]|].
  unfold parsePointForSetBytes. destruct (Nat.leb_spec (length b) off); [lia|].
  destruct o as [k|].
  - destruct H as (-> & Hle & Hs). cbn [res_bind]. change (32 =? 0) with false. cbn [negb].
    change (Z.to_nat 32) with 32%nat.
    destruct (Nat.ltb_spec (length b) (off + 1 + 32)); [lia|]. rewrite Hs. cbn [res_bind].
    destruct Ho as [[Hl _] Hv]. rewrite Point_FromBytesS_ok by done. cbn [res_bind].
    cbn [opt_field length]. unfold Ed25519KeySize in Hl. rewrite Hl. do 2 f_equal. lia.
  - rewrite H. cbn. do 2 f_equal.
Qed.

Lemma parseInfo_field b pre info suf off :
  b = pre ++ (Z.of_nat (length info) :: info) ++ suf -> off = length pre ->
  parseInfoForSetBytes b off = Ok (info, (off + S (length info))%nat).
Proof using Type.
  intros -> ->. unfold parseInfoForSetBytes. rewrite !length_app. cbn [length app].
  destruct (Nat.leb_spec (length pre + (S (length info) + length suf)) (length pre)); [lia|].
  rewrite index_middle by done. cbn [res_bind].
  destruct (Z.eqb_spec (Z.of_nat (length info)) 0) as [E|E]; cbn [negb].
  - destruct info; [|simpl in E; lia]. cbn. do 2 f_equal.
  - rewrite Nat2Z.id.
    match goal with |- context [(?a <? ?c)%nat] => destruct (Nat.ltb_spec a c); [lia|] end.
    replace (pre ++ Z.of_nat (length info) :: info ++ suf)
      with ((pre ++ [Z.of_nat (length info)]) ++ info ++ suf) by (by rewrite <- app_assoc).
    rewrite slice_app_mid by (rewrite length_app; cbn [length]; lia). cbn [res_bind].
    do 2 f_equal. lia.
Qed.
End parse.

#[export] Hint Resolve parsePoint_safe Point_FromBytesS_safe : safe.

(** ** TxRandom *)

Section txrandom_lemmas.
Context `{CO : CurveOps}.

Definition txRandom_ok (t : list Z) : Prop :=
  length t = TxRandomGroupSize /\ bytes_ok t /\
  ge_frombytes (take 32 t) = true /\ ge_frombytes (drop 36 t) = true.

Lemma TxRandom_check_ok t : txRandom_ok t -> TxRandom_check t = Ok tt.
Proof using Type.
  intros (Hl & _ & H1 & H2). unfold TxRandom_check. rewrite Hl. cbn [negb Nat.eqb TxRandomGroupSize].
  unfold Ed25519KeySize, TxRandomGroupSize in *.
  rewrite slice_ok by lia. rewrite drop_0. cbn [res_bind Nat.sub].
  rewrite Point_FromBytesS_ok by (rewrite ?length_take; lia || done). cbn [res_wrap res_bind].
  rewrite slice_ok by lia. cbn [res_bind Nat.add].
  rewrite take_ge by (rewrite length_drop; lia).
  by rewrite Point_FromBytesS_ok by (rewrite ?length_drop; lia || done).
Qed.

Lemma TxRandom_SetBytes_ok t t0 : txRandom_ok t -> TxRandom_SetBytes t t0 = (t, Ok tt).
Proof using Type.
  intros Ht. unfold TxRandom_SetBytes. rewrite TxRandom_check_ok by done.
  by rewrite copy_to_array_exact by apply Ht.
Qed.

Lemma TxRandom_check_safe v : res_safe (TxRandom_check v).
Proof using Type.
  unfold TxRandom_check. destruct (Nat.eqb_spec (length v) TxRandomGroupSize) as [Hl|]; [|done].
  unfold TxRandomGroupSize, Ed25519KeySize in *. cbn [negb].
  destruct (slice_safe v 0 32) as (b1 & -> & _); [lia|]. cbn [res_bind].
  pose proof (Point_FromBytesS_safe b1). destruct (Point_FromBytesS b1); try done. cbn [res_wrap res_bind].
  destruct (slice_safe v (32 + 4) (length v)) as (b2 & -> & _); [lia|]. cbn [res_bind].
  pose proof (Point_FromBytesS_safe b2). by destruct (Point_FromBytesS b2).
Qed.

Lemma TxRandom_SetBytes_safe v t : res_safe (snd (TxRandom_SetBytes v t)).
Proof using Type.
  unfold TxRandom_SetBytes. pose proof (TxRandom_check_safe v). by destruct (TxRandom_check v).
Qed.

(** The three parts of a fresh array. *)
Lemma make_TxRandom_eq conceal ota i : length conceal = 32%nat -> length ota = 32%nat ->
  make_TxRandom conceal ota i = ota ++ Uint32ToBytes i ++ conceal.
Proof using Type.
  intros Hc Ho. unfold make_TxRandom, TxRandom_SetIndex, SetTxOTARandomPoint,
    SetTxConcealRandomPoint, copy_into, TxRandomGroupSize, Ed25519KeySize.
  assert (length (Uint32ToBytes i) = 4%nat) as Hi by apply length_be_bytes.
  rewrite Hc, Ho, Hi. cbn [Nat.min Nat.sub Nat.add].
  rewrite (take_ge conceal), (take_ge ota), (take_ge (Uint32ToBytes i)) by lia.
  change (drop 68 (replicate 68 0)) with (@nil Z). rewrite app_nil_r, take_0. cbn [app].
  rewrite take_app_length' by done.
  rewrite (drop_app_ge ota) by lia. rewrite Ho. cbn [Nat.sub].
  rewrite drop_drop. cbn [Nat.add]. rewrite drop_app_length' by (by rewrite length_take, length_replicate).
  done.
Qed.

Lemma make_TxRandom_ok conceal ota i :
  key_ok conceal -> ge_frombytes conceal = true -> key_ok ota -> ge_frombytes ota = true ->
  txRandom_ok (make_TxRandom conceal ota i) /\
  GetTxConcealRandomPoint (make_TxRandom conceal ota i) = Ok conceal /\
  GetTxOTARandomPoint (make_TxRandom conceal ota i) = Ok ota /\
  (is_u32 i -> TxRandom_GetIndex (make_TxRandom conceal ota i) = Ok i).
Proof using Type.
  intros [Hcl Hcb] Hcv [Hol Hob] Hov. unfold Ed25519KeySize in *.
  rewrite make_TxRandom_eq by done.
  assert (length (Uint32ToBytes i) = 4%nat) as Hi by apply length_be_bytes.
  assert (length (ota ++ Uint32ToBytes i ++ conceal) = 68)%nat as Hl
    by (rewrite !length_app; lia).
  split; [|split; [|split]].
  - split; [done|]. split.
    + apply Forall_app. split; [done|]. apply Forall_app. split; [apply be_bytes_ok|done].
    + rewrite take_app_length' by done. split; [done|].
      rewrite app_assoc, drop_app_length' by (rewrite length_app; lia). done.
  - unfold GetTxConcealRandomPoint. rewrite Hl. unfold Ed25519KeySize.
    replace (ota ++ Uint32ToBytes i ++ conceal) with ((ota ++ Uint32ToBytes i) ++ conceal ++ [])
      by (by rewrite app_nil_r, app_assoc).
    rewrite (slice_app_mid (ota ++ Uint32ToBytes i) conceal [])
      by (rewrite ?length_app; lia). cbn [res_bind].
    by apply Point_FromBytesS_ok.
  - unfold GetTxOTARandomPoint, Ed25519KeySize.
    change (ota ++ ?r) with ([] ++ ota ++ r).
    rewrite slice_app_mid by (simpl; lia). cbn [res_bind]. by apply Point_FromBytesS_ok.
  - intros Hu. unfold TxRandom_GetIndex, Ed25519KeySize.
    rewrite slice_app_mid by lia. cbn [res_bind]. unfold BytesToUint32. rewrite Hi.
    cbn [negb Nat.eqb Uint32Size]. unfold Uint32ToBytes. rewrite of_digits_be_bytes.
    f_equal. by apply Z.mod_small.
Qed.
End txrandom_lemmas.

(** ** The serialized coin *)

Section coin_lemmas.
Context `{CO : CurveOps} `{DG : Digests}.

Definition coinV2_ok (c : CoinV2) : Prop :=
  bytes_ok (c2_info c) /\ opt_point (c2_publicKey c) /\ opt_point (c2_commitment c) /\
  opt_point (c2_keyImage c) /\ opt_scalar (c2_sharedConcealRandom c) /\
  opt_scalar (c2_sharedRandom c) /\
  (exists t, c2_txRandom c = Some t /\ txRandom_ok t) /\
  opt_scalar (c2_mask c) /\ opt_scalar (c2_amount c) /\ opt_point (c2_assetTag c).

(** What [SetBytes] stores of a coin: the info is cut at 255 bytes, the raw asset
    tag is not serialized. *)
Definition stored_coin (c c0 : CoinV2) : CoinV2 :=
  mkCoinV2 2 (take MaxSizeInfoCoin (c2_info c)) (c2_publicKey c) (c2_commitment c) (c2_keyImage c)
    (c2_sharedConcealRandom c) (c2_sharedRandom c) (c2_txRandom c) (c2_mask c) (c2_amount c)
    (c2_assetTag c) (c2_rawAssetTag c0).

Lemma parsePoint_at b pre o suf : b = pre ++ opt_field o ++ suf -> opt_point o ->
  parsePointForSetBytes b (length pre) = Ok (o, length (pre ++ opt_field o)).
Proof using Type. intros Hb Ho. rewrite length_app. by apply (parsePoint_field b pre o suf). Qed.

Lemma parseScalar_at b pre o suf : b = pre ++ opt_field o ++ suf -> opt_scalar o ->
  parseScalarForSetBytes b (length pre) = Ok (o, length (pre ++ opt_field o)).
Proof using Type. intros Hb Ho. rewrite length_app. by apply (parseScalar_field b pre o suf). Qed.

Lemma parse_txRandom_at b pre t suf c :
  b = pre ++ (Z.of_nat TxRandomGroupSize :: t) ++ suf -> txRandom_ok t ->
  parse_txRandom b (length pre) c =
  (c2_putTxRandom (Some t) c, Ok (length (pre ++ Z.of_nat TxRandomGroupSize :: t))).
Proof using Type.
  intros Hb Ht. pose proof Ht as (Hl & _). unfold TxRandomGroupSize in *.
  assert (length b = length pre + 1 + 68 + length suf)%nat as Hlb.
  { rewrite Hb, !length_app. cbn [length]. lia. }
  unfold parse_txRandom, TxRandomGroupSize. destruct (Nat.leb_spec (length b) (length pre)); [lia|].
  assert (index b (length pre) = Ok 68) as Ei by (rewrite Hb; by apply index_middle).
  assert (slice b (length pre + 1) (length pre + 1 + 68) = Ok t) as Es.
  { rewrite Hb. change (pre ++ (Z.of_nat 68 :: t) ++ suf) with (pre ++ [Z.of_nat 68] ++ t ++ suf).
    rewrite app_assoc. apply slice_app_mid; rewrite length_app; cbn [length]; lia. }
  unfold st_bind at 1, st_lift at 1. rewrite Ei. change (68 =? Z.of_nat 68) with true. cbn [negb].
  destruct (Nat.ltb_spec (length b) (length pre + 1 + 68)); [lia|].
  unfold st_bind, st_put, st_lift. rewrite Es, TxRandom_SetBytes_ok by done.
  unfold st_ret. f_equal. f_equal. rewrite length_app. cbn [length]. lia.
Qed.

Lemma info_field c : bytes_ok (c2_info c) ->
  let info := take MaxSizeInfoCoin (c2_info c) in
  u8 (Z.of_nat (getMin (length (c2_info c)) MaxSizeInfoCoin)) = Z.of_nat (length info) /\
  take (getMin (length (c2_info c)) MaxSizeInfoCoin) (c2_info c) = info.
Proof using Type.
  intros _ info. unfold info. rewrite getMin_min, length_take. unfold MaxSizeInfoCoin, u8.
  rewrite Z.mod_small by lia. split; [f_equal; lia|].
  destruct (Nat.le_gt_cases (length (c2_info c)) 255).
  - rewrite Nat.min_l by lia. by rewrite !take_ge by lia.
  - by rewrite Nat.min_r by lia.
Qed.

Lemma CoinV2_bytes_split c : bytes_ok (c2_info c) ->
  forall t, c2_txRandom c = Some t ->
  CoinV2_Bytes c =
    [2] ++ (Z.of_nat (length (take MaxSizeInfoCoin (c2_info c))) :: take MaxSizeInfoCoin (c2_info c)) ++
    opt_field (c2_publicKey c) ++ opt_field (c2_commitment c) ++ opt_field (c2_keyImage c) ++
    opt_field (c2_sharedRandom c) ++ opt_field (c2_sharedConcealRandom c) ++
    (Z.of_nat TxRandomGroupSize :: t) ++ opt_field (c2_mask c) ++ opt_field (c2_amount c) ++
    opt_field (c2_assetTag c).
Proof using Type.
  intros Hi t Ht. destruct (info_field c Hi) as [E1 E2]. unfold CoinV2_Bytes. rewrite E1, E2, Ht.
  reflexivity.
Qed.

Lemma CoinV2_SetBytes_Bytes c c0 : coinV2_ok c ->
  CoinV2_SetBytes (CoinV2_Bytes c) c0 = (stored_coin c c0, Ok tt).
Proof using Type.
  intros (Hi & Hpk & Hcom & Hki & Hsc & Hsr & (t & Et & Ht) & Hm & Ha & Htag).
  pose proof (CoinV2_bytes_split c Hi t Et) as Hb.
  set (b := CoinV2_Bytes c) in *. clearbody b.
  unfold stored_coin. rewrite Et.
  destruct c as [ver info pk com ki sc sr tx m a tag raw].
  cbn [c2_info c2_publicKey c2_commitment c2_keyImage c2_sharedConcealRandom c2_sharedRandom
       c2_txRandom c2_mask c2_amount c2_assetTag] in *.
  set (inf := take MaxSizeInfoCoin info) in *. clearbody inf.
  set (F0 := Z.of_nat (length inf) :: inf) in *.
  set (FT := Z.of_nat TxRandomGroupSize :: t) in *.
  assert (1 <= length b)%nat as Hlen by (rewrite Hb; cbn [app length]; lia).
  unfold CoinV2_SetBytes. destruct (Nat.eqb_spec (length b) 0); [lia|].
  assert (index b 0 = Ok 2) as Ei by (by rewrite Hb).
  unfold st_bind at 1, st_lift at 1. rewrite Ei. cbn [Z.eqb Pos.eqb negb].
  unfold st_bind at 1, st_put at 1.
  erewrite st_bind_ok.
  2: { eapply st_assign_ok, (parseInfo_field b [2] inf _ 1 Hb). done. }
  replace (1 + S (length inf))%nat with (length ([2] ++ F0)) by (unfold F0; cbn [app length]; lia).
  set (P1 := [2] ++ F0). rewrite app_assoc in Hb. fold P1 in Hb. clearbody P1.
  erewrite st_bind_ok; [|apply st_assign_ok, (parsePoint_at b P1 pk _ Hb Hpk)].
  rewrite app_assoc in Hb. set (P2 := P1 ++ opt_field pk) in *. clearbody P2.
  erewrite st_bind_ok; [|apply st_assign_ok, (parsePoint_at b P2 com _ Hb Hcom)].
  rewrite app_assoc in Hb. set (P3 := P2 ++ opt_field com) in *. clearbody P3.
  erewrite st_bind_ok; [|apply st_assign_ok, (parsePoint_at b P3 ki _ Hb Hki)].
  rewrite app_assoc in Hb. set (P4 := P3 ++ opt_field ki) in *. clearbody P4.
  erewrite st_bind_ok; [|apply st_assign_ok, (parseScalar_at b P4 sr _ Hb Hsr)].
  rewrite app_assoc in Hb. set (P5 := P4 ++ opt_field sr) in *. clearbody P5.
  erewrite st_bind_ok; [|apply st_assign_ok, (parseScalar_at b P5 sc _ Hb Hsc)].
  rewrite app_assoc in Hb. set (P6 := P5 ++ opt_field sc) in *. clearbody P6.
  erewrite st_bind_ok; [|apply (parse_txRandom_at b P6 t _ _ Hb Ht)].
  rewrite app_assoc in Hb. fold FT. set (P7 := P6 ++ FT) in *. clearbody P7.
  erewrite st_bind_ok; [|apply st_assign_ok, (parseScalar_at b P7 m _ Hb Hm)].
  rewrite app_assoc in Hb. set (P8 := P7 ++ opt_field m) in *. clearbody P8.
  erewrite st_bind_ok; [|apply st_assign_ok, (parseScalar_at b P8 a _ Hb Ha)].
  rewrite app_assoc in Hb. set (P9 := P8 ++ opt_field a) in *. clearbody P9.
  assert (length P9 < length b)%nat as Hend.
  { rewrite Hb, length_app. destruct tag; cbn [opt_field length]; lia. }
  destruct (Nat.leb_spec (length b) (length P9)); [lia|].
  erewrite st_bind_ok.
  2: { apply st_assign_ok, (parsePoint_at b P9 tag []); [by rewrite app_nil_r|done]. }
  reflexivity.
Qed.

Lemma parse_txRandom_safe b off : st_safe (parse_txRandom b off).
Proof using Type.
  unfold parse_txRandom. destruct (Nat.leb_spec (length b) off); [apply st_fail_safe|].
  apply st_bind_safe.
  { apply st_lift_safe. destruct (index_safe b off) as (x & -> & _); [lia|done]. }
  intros l. destruct (negb _); [apply st_fail_safe|].
  destruct (Nat.ltb_spec (length b) (off + 1 + TxRandomGroupSize)); [apply st_fail_safe|].
  apply st_bind_safe; [apply st_put_safe|intros []]. apply st_bind_safe.
  { apply st_lift_safe. destruct (slice_safe b (off + 1) (off + 1 + TxRandomGroupSize))
      as (d & -> & _); [lia|done]. }
  intros d. pose proof (TxRandom_SetBytes_safe d NewTxRandom) as Hs.
  destruct (TxRandom_SetBytes d NewTxRandom) as [t [[]| | |]]; try done.
Qed.

Lemma CoinV2_SetBytes_safe b : st_safe (CoinV2_SetBytes b).
Proof using Type.
  unfold CoinV2_SetBytes. destruct (Nat.eqb_spec (length b) 0); [apply st_fail_safe|].
  apply st_bind_safe.
  { apply st_lift_safe. destruct (index_safe b 0) as (x & -> & _); [lia|done]. }
  intros v. destruct (negb _); [apply st_fail_safe|].
  repeat (apply st_bind_safe; [auto using parse_txRandom_safe with safe|intros ?]).
  destruct (_ <=? _)%nat; [apply st_put_safe|].
  apply st_bind_safe; [auto with safe|done].
Qed.
End coin_lemmas.

(** ** The group behind the one-time keys *)

Section group.
Context `{CL : CurveLaws} `{DL : DigestLaws} `{LL : LRULaws} `{AA : AllocatorLaws} `{HD : HDWallet}.

Lemma mult_swap p a b : pt_ok p -> sc_ok a -> sc_ok b ->
  ScalarMultKey (ScalarMultKey p a) b = ScalarMultKey (ScalarMultKey p b) a.
Proof using CL.
  intros. rewrite !mult_mul by done. f_equal. rewrite !ScMul_spec by done. f_equal.
  by rewrite Z.mul_comm.
Qed.

Lemma add_cancel p q r : pt_ok p -> pt_ok q -> pt_ok r -> AddKeys p r = AddKeys q r -> p = q.
Proof using CL.
  intros Hp Hq Hr E. set (n := SubKeys Identity r).
  assert (pt_ok n) as Hn by (apply sub_pt; [apply pt_identity|done]).
  assert (AddKeys r n = Identity) as Er.
  { rewrite add_comm by done. apply sub_add; [apply pt_identity|done]. }
  rewrite <- (add_identity p), <- (add_identity q), <- Er by done.
  rewrite !add_assoc by done. by rewrite E.
Qed.

Lemma add_sub p q : pt_ok p -> pt_ok q -> SubKeys (AddKeys q p) q = p.
Proof using CL.
  intros Hp Hq. apply (add_cancel _ _ q); [apply sub_pt; [by apply pt_add|done]|done|done|].
  rewrite sub_add by (try done; by apply pt_add). by apply add_comm.
Qed.

Lemma FromBytesS_pt p : pt_ok p -> Point_FromBytesS p = Ok p.
Proof using CL. intros Hp. destruct (pt_key p Hp) as [[Hl _] Hv]. by apply Point_FromBytesS_ok. Qed.

Lemma mapM_hash_points l : exists gs,
  mapM (fun i => HashToPointFromIndex i CStringBulletProof) l = Some gs /\
  Forall pt_ok gs /\ length gs = length l.
Proof using CL DL.
  induction l as [|i l IH]; [by exists []|]. destruct IH as (gs & E & Hg & Hl).
  destruct (HashToPoint_ok (GBASE ++ CStringBulletProof ++ string_of_rune i)) as (p & Ep & Hp).
  fold (HashToPointFromIndex i CStringBulletProof) in Ep.
  exists (p :: gs). cbn [mapM]. rewrite Ep.
  cbn [mbind option_bind]. rewrite E. cbn [mbind option_bind].
  split; [done|]. split; [by constructor|]. simpl. by rewrite Hl.
Qed.

Lemma PedG_ok : Forall pt_ok PedG /\ length PedG = 5%nat.
Proof using CL DL.
  unfold PedG, NewPedersenParams.
  destruct (FromUint64_ok 1) as [E Hs]; [unfold is_u64; lia|]. rewrite E. cbn [res_bind].
  destruct (mapM_hash_points [1; 2; 3; 4]) as (gs & Eg & Hg & Hl). rewrite Eg.
  split; [|simpl; by rewrite Hl]. constructor; [|done].
  rewrite ScalarMultBase_sc by done. apply pt_mult; [apply pt_base|done].
Qed.

Lemma PedG_index i : (i < 5)%nat -> exists g, index PedG i = Ok g /\ pt_ok g.
Proof using CL DL.
  intros Hi. destruct PedG_ok as [Hg Hl].
  destruct (index_safe PedG i) as (g & E & L); [lia|]. exists g. split; [done|].
  by eapply Forall_lookup_1.
Qed.

(** The commitment a coin should have, with or without an asset tag. *)
Lemma commitment_of_ok c v r : sc_ok v -> sc_ok r ->
  (forall tag, c2_assetTag c = Some tag -> pt_ok tag) ->
  exists com, commitment_of c v r = Ok com /\ pt_ok com.
Proof using CL DL.
  intros Hv Hr Htag. unfold commitment_of.
  destruct (PedG_index PedersenRandomnessIndex) as (h & Eh & Hh); [by apply Nat.ltb_lt|].
  destruct (c2_assetTag c) as [tag|].
  - unfold ComputeCommitmentCA. rewrite Eh. cbn [res_bind res_wrap].
    eexists. split; [done|]. apply pt_add; apply pt_mult; auto.
  - unfold CommitAtIndex.
    destruct (PedG_index PedersenValueIndex) as (g & Eg & Hg); [by apply Nat.ltb_lt|].
    rewrite Eg. cbn [res_bind]. rewrite Eh. cbn [res_bind].
    eexists. split; [done|]. by apply pedersen_pt.
Qed.

Lemma IsEncrypted_eq c v r com : c2_amount c = Some v -> c2_mask c = Some r ->
  c2_commitment c = Some com ->
  CoinV2_IsEncrypted c = let* t := commitment_of c v r in Ok (negb (bool_decide (t = com))).
Proof using CL DL.
  intros Hv Hr Hc. unfold CoinV2_IsEncrypted, commitment_of. rewrite Hv, Hr, Hc.
  cbn [deref res_bind]. destruct (c2_assetTag c) as [tag|] eqn:Et; [|done].
  unfold CoinV2_ComputeCommitmentCA, ComputeCommitmentCA. rewrite Hv, Hr, Et.
  destruct (PedG_index PedersenRandomnessIndex) as (h & Eh & Hh); [by apply Nat.ltb_lt|].
  by rewrite Eh.
Qed.

Lemma conceal_hashes_ok rK : bytes_ok rK ->
  exists h2 h3, conceal_hashes rK = Ok (h2, h3) /\ sc_ok h2 /\ sc_ok h3.
Proof using CL DL.
  intros Hr. unfold conceal_hashes.
  destruct (HashToScalar_ok rK Hr) as (h1 & E1 & _ & Hh1). rewrite E1. cbn [deref res_bind].
  destruct (HashToScalar_ok h1) as (h2 & E2 & _ & Hh2); [apply Hh1|]. rewrite E2. cbn [deref res_bind].
  destruct (HashToScalar_ok h2) as (h3 & E3 & _ & Hh3); [apply Hh2|]. rewrite E3. cbn [deref res_bind].
  eauto.
Qed.

(** *** The derivation loop *)

Definition ota_key (rK publicSpend : list Z) (i : Z) : list Z :=
  AddKeys (Point_ScalarMultBase (key_HashToScalar (rK ++ Uint32ToBytes i))) publicSpend.

Lemma ota_hash rK i : bytes_ok rK ->
  HashToScalar (rK ++ Uint32ToBytes i) = Some (key_HashToScalar (rK ++ Uint32ToBytes i)) /\
  sc_ok (key_HashToScalar (rK ++ Uint32ToBytes i)).
Proof using CL DL.
  intros Hr. destruct (HashToScalar_ok (rK ++ Uint32ToBytes i)) as (s & E & Es & Hs);
    [apply Forall_app; split; [done|apply be_bytes_ok]|]. by rewrite E, <- Es.
Qed.

Lemma ota_key_ok rK spend i : bytes_ok rK -> pt_ok spend -> pt_ok (ota_key rK spend i).
Proof using CL DL.
  intros Hr Hs. destruct (ota_hash rK i Hr) as [_ Hh]. unfold ota_key. apply pt_add; [|done].
  rewrite ScalarMultBase_sc by done. apply pt_mult; [apply pt_base|done].
Qed.

(** The loop stops at the first accepted index, if there is one in reach. *)
Lemma ota_loop_spec accept rK spend : bytes_ok rK ->
  (forall i, exists b, accept (ota_key rK spend i) = Ok b) ->
  forall fuel i0, 0 <= i0 -> i0 + Z.of_nat fuel < 2 ^ 32 ->
  (exists i, i0 < i <= i0 + Z.of_nat fuel /\
     ota_loop fuel i0 rK spend accept = Ok (Some (i, ota_key rK spend i)) /\
     accept (ota_key rK spend i) = Ok true /\
     (forall j, i0 < j < i -> accept (ota_key rK spend j) = Ok false)) \/
  (ota_loop fuel i0 rK spend accept = Ok None /\
     (forall j, i0 < j <= i0 + Z.of_nat fuel -> accept (ota_key rK spend j) = Ok false)).
Proof using CL DL.
  intros Hr Htot. induction fuel as [|fuel IH]; intros i0 Hi Hlt.
  - right. split; [done|]. intros j Hj. lia.
  - cbn [ota_loop]. replace (u32 (i0 + 1)) with (i0 + 1) by (unfold u32; by rewrite Z.mod_small by lia).
    destruct (ota_hash rK (i0 + 1) Hr) as [-> _]. cbn [deref res_bind]. unfold Point_Add.
    fold (ota_key rK spend (i0 + 1)). destruct (Htot (i0 + 1)) as [[] E]; rewrite E; cbn [res_bind].
    + left. exists (i0 + 1). split; [lia|]. split; [done|]. split; [done|]. intros j Hj. lia.
    + assert (forall j, i0 < j -> j = i0 + 1 \/ i0 + 1 < j) as Hs by (intros; lia).
      destruct (IH (i0 + 1)) as [(i & Hi1 & El & Ea & Hrej)|[El Hrej]]; [lia..| |].
      * left. exists i. split; [lia|]. split; [done|]. split; [done|]. intros j Hj.
        destruct (Hs j) as [->|Hj1]; [lia|done|]. apply Hrej. lia.
      * right. split; [done|]. intros j Hj. destruct (Hs j) as [->|Hj1]; [lia|done|]. apply Hrej. lia.
Qed.

(** *** Shard information *)

Lemma last_byte_key k : key_ok k -> exists b, last_byte k = Ok b /\ is_byte b /\ k !! 31%nat = Some b.
Proof using Type.
  intros [Hl Hb]. unfold last_byte, Ed25519KeySize in *. rewrite Hl. cbn [Nat.eqb Nat.sub].
  destruct (index_safe k 31) as (x & E & L); [lia|]. exists x. split; [done|]. split; [|done].
  by eapply Forall_lookup_1.
Qed.

Lemma DeriveShardInfo_ok k b : key_ok k -> k !! 31%nat = Some b ->
  DeriveShardInfoFromCoin k = Ok (b mod 128 / 8 mod 8, b mod 8, b mod 128 / 64).
Proof using Type.
  intros Hk Hb. destruct (last_byte_key k Hk) as (b' & E & Hbb & L).
  rewrite Hb in L. injection L as <-. unfold is_byte in Hbb.
  unfold DeriveShardInfoFromCoin, MaxShardNumber. rewrite E. cbn [Z.ltb Z.compare res_bind].
  rewrite (Z.rem_mod_nonneg b) by lia. pose proof (Z.mod_pos_bound b 128 ltac:(lia)).
  rewrite (Z.quot_div_nonneg (b mod 128)) by lia.
  pose proof (Z.div_pos (b mod 128) 8 ltac:(lia) ltac:(lia)).
  rewrite (Z.quot_div_nonneg (b mod 128 / 8)) by lia.
  rewrite (Z.rem_mod_nonneg (b mod 128 / 8)) by lia. rewrite Z.div_div by lia.
  assert (b mod 128 / (8 * 8) < 2) by (apply Z.div_lt_upper_bound; lia).
  destruct (Z.ltb_spec PrivacyTypeMint (b mod 128 / (8 * 8))); [unfold PrivacyTypeMint in *; lia|].
  do 3 f_equal. rewrite Z.rem_mod_nonneg by lia. change 128 with (8 * 16).
  rewrite Z.rem_mul_r by lia. rewrite Z.mul_comm, Z.mod_add by lia. by rewrite Z.mod_mod by lia.
Qed.

Lemma accept_params_total shard p rK spend i : bytes_ok rK -> pt_ok spend ->
  exists b, accept_params shard p (ota_key rK spend i) = Ok b.
Proof using CL DL.
  intros Hr Hs. destruct (pt_key _ (ota_key_ok rK spend i Hr Hs)) as [Hk _].
  destruct (last_byte_key _ Hk) as (b & _ & _ & Hb). unfold accept_params.
  rewrite (DeriveShardInfo_ok _ b Hk Hb). by eexists.
Qed.

(** What an accepted key says about itself. *)
Lemma accept_params_true shard p k : key_ok k -> accept_params shard p k = Ok true ->
  DeriveShardInfoFromCoin k = Ok (cp_SenderShardID p, shard, cp_CoinPrivacyType p).
Proof using Type.
  intros Hk E. destruct (last_byte_key k Hk) as (b & _ & _ & Hb). unfold accept_params in E.
  rewrite (DeriveShardInfo_ok k b Hk Hb) in *. unfold shard_info in E. injection E as E.
  apply andb_true_iff in E as [[E1 E2]%andb_true_iff E3].
  by rewrite (proj1 (Z.eqb_eq _ _) E1), (proj1 (Z.eqb_eq _ _) E2), (proj1 (Z.eqb_eq _ _) E3).
Qed.

Lemma ScalarmultBase_sc a : sc_ok a -> ScalarmultBase a = (a, ScalarMultKey GBASE a).
Proof using CL.
  intros Ha. pose proof (ScalarMultBase_sc a Ha) as E. unfold Point_ScalarMultBase in E.
  unfold ScalarmultBase in *. cbn [snd] in E. rewrite (ScReduce32_sc a Ha) in *. by f_equal.
Qed.

Lemma CommitAtIndex_value v r : sc_ok v -> sc_ok r ->
  exists com, CommitAtIndex PedG v r PedersenValueIndex = Ok com /\ pt_ok com.
Proof using CL DL.
  intros Hv Hr. apply (commitment_of_ok newCoinV2 v r); try done.
Qed.
End group.

(** ** Properties *)

Section properties.
Context `{CL : CurveLaws} `{DL : DigestLaws} `{LL : LRULaws} `{AA : AllocatorLaws} `{HD : HDWallet}.

(** C29: the wire format of a coin.  [SetBytes] reads back, in any receiver, what
    [Bytes] wrote for a well-formed coin: every field but the raw asset tag,
    which is not serialized, and the info, which is cut at 255 bytes; two
    coins with the same bytes have the same fields. *)
Theorem CoinV2_roundtrip c d c0 : coinV2_ok c -> coinV2_ok d ->
  CoinV2_SetBytes (CoinV2_Bytes c) c0 = (stored_coin c c0, Ok tt) /\
  ((length (c2_info c) <= 255)%nat -> c2_version c = 2 ->
   stored_coin c c0 = c2_putRawAssetTag (c2_rawAssetTag c0) c) /\
  (CoinV2_Bytes c = CoinV2_Bytes d -> stored_coin c c0 = stored_coin d c0).
Proof using Type.
  intros Hc Hd. split; [by apply CoinV2_SetBytes_Bytes|]. split.
  - intros Hl Hv. unfold stored_coin, c2_putRawAssetTag, MaxSizeInfoCoin.
    rewrite take_ge by exact Hl. by rewrite Hv.
  - intros E. pose proof (CoinV2_SetBytes_Bytes c c0 Hc) as E1.
    rewrite E, (CoinV2_SetBytes_Bytes d c0 Hd) in E1. symmetry. exact (f_equal fst E1).
Qed.

(** C30: [SetBytes] never panics: on every byte string, in every receiver, it
    returns with success or with an error. *)
Theorem CoinV2_SetBytes_no_panic b c : res_safe (snd (CoinV2_SetBytes b c)).
Proof using Type. apply CoinV2_SetBytes_safe. Qed.

(** The shard data in a public key.  Of a 32-byte key [DeriveShardInfoFromCoin]
    never fails; the receiver shard is the last byte mod 8, the one
    [GetShardIDFromLastByte] gives, the sender shard the next three bits, the
    privacy type the next bit; it panics on an empty key. *)
Theorem DeriveShardInfo_functional k b : key_ok k -> last_byte k = Ok b ->
  exists s t, DeriveShardInfoFromCoin k = Ok (s, GetShardIDFromLastByte b, t) /\
    b mod 128 = 64 * t + 8 * s + GetShardIDFromLastByte b /\
    0 <= s < 8 /\ (t = PrivacyTypeTransfer \/ t = PrivacyTypeMint) /\
    DeriveShardInfoFromCoin [] = Panic.
Proof using Type.
  intros Hk Hb. destruct (last_byte_key k Hk) as (b' & E & Hbb & L).
  rewrite E in Hb. injection Hb as ->. rewrite (DeriveShardInfo_ok k b Hk L).
  unfold is_byte in Hbb. assert (GetShardIDFromLastByte b = b mod 8) as ->.
  { unfold GetShardIDFromLastByte, u8, MaxShardNumber. rewrite Z.rem_mod_nonneg by lia.
    pose proof (Z.mod_pos_bound b 8). by rewrite Z.mod_small by lia. }
  eexists _, _. split; [done|]. unfold PrivacyTypeTransfer, PrivacyTypeMint.
  assert (b mod 128 mod 8 = b mod 8) as Em.
  { change 128 with (8 * 16). rewrite Z.rem_mul_r by lia.
    rewrite (Z.mul_comm 8), Z.mod_add by lia. by rewrite Z.mod_mod by lia. }
  pose proof (Z.mod_pos_bound b 128 ltac:(lia)). generalize dependent (b mod 128). intros m Em Hm.
  rewrite <- Em. pose proof (Z.mod_pos_bound (m / 8) 8 ltac:(lia)).
  assert (m / 64 = m / 8 / 8) as Eq by (by rewrite Z.div_div by lia).
  pose proof (Z.div_mod m 8 ltac:(lia)). pose proof (Z.div_mod (m / 8) 8 ltac:(lia)).
  assert (0 <= m / 64 < 2) by (split; [apply Z.div_pos|apply Z.div_lt_upper_bound]; lia).
  split; [lia|]. split; [lia|]. split; [lia|done].
Qed.

(** *** One-time addresses *)

(** The coin the constructor builds once it has a key. *)
Definition paid_coin (rMask rShared rConceal : list Z) (msg amount com publicKey : list Z) (i : Z)
  : CoinV2 :=
  mkCoinV2 2 msg (Some publicKey) (Some com) (Some Identity) (Some rConceal) (Some rShared)
    (Some (make_TxRandom (ScalarMultKey GBASE rConceal) (ScalarMultKey GBASE rShared) i))
    (Some rMask) (Some amount) None None.

Lemma paid_coin_detail rMask rShared rConceal msg amount com pk i :
  sc_ok rShared -> sc_ok rConceal -> is_u32 i ->
  GetTxRandomDetail (paid_coin rMask rShared rConceal msg amount com pk i) =
  Ok (ScalarMultKey GBASE rConceal, ScalarMultKey GBASE rShared, i).
Proof using CL.
  intros Hs Hc Hi. unfold GetTxRandomDetail, paid_coin. cbn [c2_txRandom deref res_bind].
  destruct (pt_key (ScalarMultKey GBASE rConceal)) as [K1 V1]; [apply pt_mult; [apply pt_base|done]|].
  destruct (pt_key (ScalarMultKey GBASE rShared)) as [K2 V2]; [apply pt_mult; [apply pt_base|done]|].
  destruct (make_TxRandom_ok _ _ i K1 V1 K2 V2) as (_ & -> & -> & E). by rewrite E.
Qed.

Lemma paid_coin_value rMask rShared rConceal msg v com pk i :
  is_u64 v -> sc_ok rMask -> CommitAtIndex PedG (key_of v) rMask PedersenValueIndex = Ok com ->
  CoinV2_GetValue (paid_coin rMask rShared rConceal msg (key_of v) com pk i) = Ok v.
Proof using CL DL.
  intros Hv Hm Hc. destruct (FromUint64_ok v Hv) as [_ Hs].
  unfold CoinV2_GetValue. rewrite (IsEncrypted_eq _ (key_of v) rMask com) by done.
  unfold commitment_of. cbn [paid_coin c2_assetTag]. rewrite Hc. cbn [res_bind].
  rewrite bool_decide_true by done. cbn [negb paid_coin c2_amount deref res_bind].
  unfold is_u64 in Hv. rewrite ToUint64Little_ok by apply key_of_ok.
  rewrite key_val_of by lia. rewrite Z.mod_small by lia. done.
Qed.

Lemma NewCoin_eq fuel rMask rShared rConceal p b :
  let addr := pi_PaymentAddress (cp_PaymentInfo p) in
  let v := pi_Amount (cp_PaymentInfo p) in
  sc_ok rMask -> sc_ok rShared -> sc_ok rConceal -> is_u64 v ->
  pt_ok (pa_Pk addr) -> pt_ok (pa_OTAPublic addr) -> last_byte (pa_Pk addr) = Ok b ->
  IsPublicKeyBurningAddress (pa_Pk addr) = Ok false ->
  exists com, CommitAtIndex PedG (key_of v) rMask PedersenValueIndex = Ok com /\
    NewCoinFromPaymentInfo fuel rMask rShared rConceal p =
    let* found := ota_loop fuel 0 (ScalarMultKey (pa_OTAPublic addr) rShared) (pa_Pk addr)
                    (accept_params (GetShardIDFromLastByte b) p) in
    match found with
    | None => OutOfFuel
    | Some (i, k) => Ok (paid_coin rMask rShared rConceal (pi_Message (cp_PaymentInfo p))
                           (key_of v) com k i)
    end.
Proof using CL DL.
  intros addr v Hm Hs Hc Hv Hpk Hota Hb Hburn. destruct (FromUint64_ok v Hv) as [Ev Hsv].
  destruct (CommitAtIndex_value (key_of v) rMask Hsv Hm) as (com & Ecom & _).
  exists com. split; [done|]. unfold NewCoinFromPaymentInfo. fold addr. fold v.
  rewrite (FromBytesS_pt _ Hpk). cbn [res_wrap res_bind]. rewrite Hb. cbn [res_bind].
  rewrite Ev. cbn [res_bind]. rewrite Ecom. cbn [res_bind]. rewrite Hburn. cbn [res_bind].
  unfold PaymentAddress_GetOTAPublicKey, PaymentAddress_GetPublicSpend.
  rewrite (FromBytesS_pt _ Hpk), (FromBytesS_pt _ Hota). cbn [point_or_nil deref res_bind].
  destruct (pt_key _ Hota) as [[Hl _] _]. rewrite Hl. cbn [Nat.eqb Ed25519KeySize].
  unfold Point_ScalarMult. rewrite (ScalarmultBase_sc rShared Hs), (ScalarmultBase_sc rConceal Hc).
  destruct (ota_loop _ _ _ _ _) as [[[i k]|]| | |]; reflexivity.
Qed.

(** The coin belongs to the owner of the address, who can compute its key. *)
Lemma paid_coin_owner sk ks rMask rShared rConceal msg v com i :
  sc_ok sk -> sc_ok rShared -> sc_ok rConceal -> is_u32 i ->
  KeySet_InitFromPrivateKey (Some sk) = Ok ks ->
  let addr := ks_PaymentAddress ks in
  let rK := ScalarMultKey (pa_OTAPublic addr) rShared in
  let c := paid_coin rMask rShared rConceal msg v com (ota_key rK (pa_Pk addr) i) i in
  DoesCoinBelongToKeySet ks c = Ok (c, true, Some rK) /\
  exists x, CoinV2_ParsePrivateKeyOfCoin sk c = Ok x /\ sc_ok x /\
            c2_publicKey c = Some (ScalarMultKey GBASE x).
Proof using CL DL.
  intros Hsk Hs Hc Hi Eks. pose proof (proj1 (proj1 Hsk)) as Hlsk.
  destruct (keyset_of_ok sk (proj2 (proj1 Hsk))) as (Hvk & Hota & E).
  rewrite (FromBytesS_exact sk (proj1 Hsk)), (ScalarMultBase_sc sk Hsk) in E.
  pose proof Eks as Eks2. unfold KeySet_InitFromPrivateKey, PrivateKeySize in Eks2.
  unfold Ed25519KeySize in Hlsk. rewrite Hlsk in Eks2. cbn [Nat.eqb negb] in Eks2.
  rewrite E in Eks2. injection Eks2 as <-. set (ota := key_HashToScalar (sk ++ CStringOTA)) in *.
  intros addr rK c. subst addr. cbn [ks_PaymentAddress pa_OTAPublic pa_Pk ks_OTAKey] in rK, c.
  set (spend := ScalarMultKey GBASE sk) in *.
  assert (pt_ok spend) as Hsp by (apply pt_mult; [apply pt_base|done]).
  assert (pt_ok rK) as HrK by (apply pt_mult; [apply pt_mult; [apply pt_base|done]|done]).
  assert (bytes_ok rK) as HrKb by exact (proj2 (proj1 (pt_key _ HrK))).
  destruct (ota_hash rK i HrKb) as [Eh Hh]. set (h := key_HashToScalar (rK ++ Uint32ToBytes i)) in *.
  assert (ScalarMultKey (ScalarMultKey GBASE rShared) ota = rK) as Eswap
    by (apply mult_swap; [apply pt_base|done|done]).
  assert (OTAKey_GetOTASecretKey (mkOTAKey spend ota) = Some ota) as Eota.
  { unfold OTAKey_GetOTASecretKey. cbn [ota_otaSecret].
    rewrite (FromBytesS_exact _ (proj1 Hota)). by rewrite sc_ok_valid. }
  assert (pt_ok (ScalarMultKey GBASE h)) as Hhp by (apply pt_mult; [apply pt_base|done]).
  split.
  - unfold DoesCoinBelongToKeySet. unfold c at 1. rewrite paid_coin_detail by done.
    cbn [ks_OTAKey]. rewrite Eota. cbn [deref res_bind]. unfold Point_ScalarMult. rewrite Eswap, Eh.
    cbn [deref res_bind]. unfold c at 1, paid_coin at 1. cbn [c2_publicKey deref res_bind].
    unfold OTAKey_GetPublicSpend. cbn [ota_pk]. rewrite (FromBytesS_pt spend Hsp).
    destruct (pt_key spend Hsp) as [_ Hval]. unfold PointValid. rewrite Hval. cbn [deref res_bind].
    unfold Point_Sub, ota_key. fold h. rewrite (ScalarMultBase_sc h Hh).
    rewrite (add_sub spend _ Hsp Hhp). unfold IsPointEqual. by rewrite bool_decide_true by done.
  - destruct (ScAdd_ok h sk Hh Hsk) as [Hx _]. exists (ScAdd h sk).
    split; [|split; [done|]].
    + unfold CoinV2_ParsePrivateKeyOfCoin. rewrite Eks. cbn [res_wrap res_bind].
      unfold c. rewrite paid_coin_detail by done. cbn [res_bind ks_OTAKey]. rewrite Eota.
      cbn [deref res_bind]. unfold Point_ScalarMult. rewrite Eswap, Eh. cbn [deref res_bind].
      by rewrite (FromBytesS_exact sk (proj1 Hsk)).
    + unfold c, paid_coin. cbn [c2_publicKey]. f_equal. unfold ota_key. fold h.
      rewrite (ScalarMultBase_sc h Hh). symmetry. apply mult_add; [apply pt_base|done|done].
Qed.

(** Every account has its points. *)
Lemma account_points sk ks : sc_ok sk -> KeySet_InitFromPrivateKey (Some sk) = Ok ks ->
  pt_ok (pa_Pk (ks_PaymentAddress ks)) /\ pt_ok (pa_OTAPublic (ks_PaymentAddress ks)).
Proof using CL DL.
  intros Hsk Eks. pose proof (proj1 (proj1 Hsk)) as Hlsk. unfold Ed25519KeySize in Hlsk.
  destruct (keyset_of_ok sk (proj2 (proj1 Hsk))) as (Hvk & Hota & E).
  unfold KeySet_InitFromPrivateKey, PrivateKeySize in Eks. rewrite Hlsk in Eks.
  cbn [Nat.eqb negb] in Eks. rewrite E in Eks. injection Eks as <-.
  cbn [ks_PaymentAddress pa_Pk pa_OTAPublic]. rewrite (FromBytesS_exact sk (proj1 Hsk)).
  rewrite (ScalarMultBase_sc sk Hsk). split; (apply pt_mult; [apply pt_base|done]).
Qed.

Lemma paid_coin_checks addr rMask rShared rConceal msg v com i :
  let rK := ScalarMultKey (pa_OTAPublic addr) rShared in
  sc_ok rMask -> sc_ok rShared -> sc_ok rConceal -> is_u64 v -> is_u32 i ->
  pt_ok (pa_Pk addr) -> pt_ok (pa_OTAPublic addr) ->
  CommitAtIndex PedG (key_of v) rMask PedersenValueIndex = Ok com ->
  CheckCoinValid addr rShared v
    (paid_coin rMask rShared rConceal msg (key_of v) com (ota_key rK (pa_Pk addr) i) i) = Ok true.
Proof using CL DL.
  intros rK Hm Hs Hc Hv Hi Hpk Hota Ecom. unfold CheckCoinValid.
  rewrite (paid_coin_value rMask rShared rConceal msg v com _ i Hv Hm Ecom). cbn [res_bind].
  rewrite Z.eqb_refl. cbn [negb]. rewrite (FromBytesS_exact _ (proj1 Hs)), (sc_ok_valid _ Hs).
  cbn [negb]. unfold PaymentAddress_GetOTAPublicKey, PaymentAddress_GetPublicSpend.
  destruct (pt_key _ Hota) as [[Hl _] _]. rewrite Hl. cbn [Nat.eqb Ed25519KeySize].
  rewrite (FromBytesS_pt _ Hpk), (FromBytesS_pt _ Hota). cbn [point_or_nil].
  rewrite paid_coin_detail by done. cbn [res_bind]. rewrite (ScalarMultBase_sc rShared Hs).
  unfold IsPointEqual. rewrite bool_decide_true by done. cbn [negb]. unfold Point_ScalarMult. fold rK.
  assert (pt_ok rK) as HrK by (by apply pt_mult).
  destruct (ota_hash rK i (proj2 (proj1 (pt_key _ HrK)))) as [Eh _]. rewrite Eh.
  cbn [deref res_bind paid_coin c2_publicKey on_err]. unfold Point_Add. fold (ota_key rK (pa_Pk addr) i).
  by rewrite bool_decide_true by done.
Qed.

(** C10: payments to one-time addresses.  For a payment to the address of the
    key set of a private key (not the burning address), with any reduced
    random scalars, either no index up to [fuel] gives a key with the wanted
    shards and type, and the loop of the code is still running, or the coin is
    built from the first such index and: its key carries the sender shard, the
    receiver's shard and the privacy type; the receiver recognises the coin; the
    auditor who knows the shared randomness can check it against address and
    amount; and the receiver computes from its private key the private key
    of the coin's public key. *)
Theorem one_time_address fuel sk ks rMask rShared rConceal v msg sender ty b :
  let addr := ks_PaymentAddress ks in
  let p := mkCoinParams (mkPaymentInfo addr v msg) sender ty in
  let shard := GetShardIDFromLastByte b in
  let rK := ScalarMultKey (pa_OTAPublic addr) rShared in
  sc_ok sk -> sc_ok rMask -> sc_ok rShared -> sc_ok rConceal -> is_u64 v ->
  KeySet_InitFromPrivateKey (Some sk) = Ok ks -> last_byte (pa_Pk addr) = Ok b ->
  IsPublicKeyBurningAddress (pa_Pk addr) = Ok false -> Z.of_nat fuel < 2 ^ 32 ->
  (NewCoinFromPaymentInfo fuel rMask rShared rConceal p = OutOfFuel /\
   forall j, 0 < j <= Z.of_nat fuel ->
     accept_params shard p (ota_key rK (pa_Pk addr) j) = Ok false) \/
  (exists c i x, NewCoinFromPaymentInfo fuel rMask rShared rConceal p = Ok c /\
     c2_publicKey c = Some (ota_key rK (pa_Pk addr) i) /\
     (forall j, 0 < j < i -> accept_params shard p (ota_key rK (pa_Pk addr) j) = Ok false) /\
     DeriveShardInfoFromCoin (ota_key rK (pa_Pk addr) i) = Ok (sender, shard, ty) /\
     DoesCoinBelongToKeySet ks c = Ok (c, true, Some rK) /\
     CheckCoinValid addr rShared v c = Ok true /\
     CoinV2_ParsePrivateKeyOfCoin sk c = Ok x /\ sc_ok x /\
     c2_publicKey c = Some (ScalarMultKey GBASE x)).
Proof using CL DL.
  intros addr p shard rK Hsk Hm Hs Hc Hv Eks Hb Hburn Hfuel.
  destruct (account_points sk ks Hsk Eks) as [Hpk Hota]. fold addr in Hpk, Hota.
  assert (pt_ok rK) as HrK by (by apply pt_mult).
  assert (bytes_ok rK) as HrKb by exact (proj2 (proj1 (pt_key _ HrK))).
  destruct (NewCoin_eq fuel rMask rShared rConceal p b Hm Hs Hc Hv Hpk Hota Hb Hburn)
    as (com & Ecom & Enew). cbn [p cp_PaymentInfo pi_PaymentAddress pi_Message pi_Amount] in Enew, Ecom.
  fold rK in Enew. fold shard in Enew.
  destruct (ota_loop_spec (accept_params shard p) rK (pa_Pk addr) HrKb
              (fun i => accept_params_total shard p rK (pa_Pk addr) i HrKb Hpk) fuel 0 ltac:(lia) Hfuel)
    as [(i & Hi & El & Ea & Hrej)|[El Hrej]]; rewrite El in Enew; cbn [res_bind] in Enew.
  2: { left. split; [exact Enew|exact Hrej]. }
  right. assert (is_u32 i) as Hiu by (unfold is_u32; lia).
  destruct (paid_coin_owner sk ks rMask rShared rConceal msg (key_of v) com i Hsk Hs Hc Hiu Eks)
    as (Hown & x & Ex & Hx & Epk). fold addr in Hown, Ex, Epk. fold rK in Hown, Ex, Epk.
  eexists _, i, x. split; [exact Enew|]. split; [reflexivity|]. split; [exact Hrej|].
  split; [exact (accept_params_true shard p _ (proj1 (pt_key _ (ota_key_ok rK _ i HrKb Hpk))) Ea)|].
  split; [exact Hown|]. split; [|split; [exact Ex|split; [exact Hx|exact Epk]]].
  by apply paid_coin_checks.
Qed.

(** *** Concealing and decrypting *)

(** A key set that can see but not spend. *)
Definition view_only (rk : list Z) (ks : KeySet) : Prop :=
  ks_PrivateKey ks = [] /\ vk_Rk (ks_ReadonlyKey ks) = rk /\ sc_ok rk.

(** The coin with its mask and its amount replaced. *)
Definition with_opening (m a : list Z) (c : CoinV2) : CoinV2 :=
  c2_SetAmount (Some a) (c2_SetRandomness (Some m) c).

Lemma Decrypt_eq rk ks c t P m a com : view_only rk ks ->
  c2_txRandom c = Some t -> GetTxConcealRandomPoint t = Ok P -> pt_ok P ->
  c2_mask c = Some m -> c2_amount c = Some a -> c2_commitment c = Some com ->
  CoinV2_IsEncrypted c = Ok true ->
  exists h2 h3, conceal_hashes (ScalarMultKey P rk) = Ok (h2, h3) /\ sc_ok h2 /\ sc_ok h3 /\
    CoinV2_Decrypt (Some ks) c =
    (with_opening (ScSub m h2) (ScSub a h3) c,
     let* com' := commitment_of c (ScSub a h3) (ScSub m h2) in
     if bool_decide (com' = com) then Ok tt
     else Err "cannot Decrypt CoinV2: Commitment is not the same after decrypt").
Proof using CL DL.
  intros (Hsk & Hrk & Hs) Ht HP HPok Hm Ha Hc Henc.
  assert (pt_ok (ScalarMultKey P rk)) as HrK by (by apply pt_mult).
  destruct (conceal_hashes_ok _ (proj2 (proj1 (pt_key _ HrK)))) as (h2 & h3 & Eh & Hh2 & Hh3).
  exists h2, h3. split; [done|]. split; [done|]. split; [done|].
  unfold CoinV2_Decrypt. rewrite Hsk. cbn [length Nat.ltb Nat.leb]. unfold st_bind, st_ret.
  rewrite Henc, Hrk, (proj1 (proj1 Hs)). cbn [Nat.eqb Ed25519KeySize andb].
  unfold decrypt_amount. rewrite Ht. cbn [deref res_bind]. rewrite HP. cbn [res_bind].
  unfold ViewingKey_GetPrivateView. rewrite Hrk, (FromBytesS_exact rk (proj1 Hs)).
  unfold Point_ScalarMult. rewrite Eh. cbn [res_bind]. rewrite Hm, Ha. cbn [deref res_bind].
  unfold Scalar_Sub. cbn [c2_SetAmount c2_SetRandomness c2_commitment].
  rewrite Hc. cbn [deref res_bind].
  replace (commitment_of (c2_SetAmount _ _)) with (commitment_of c) by reflexivity.
  unfold with_opening. f_equal. destruct (commitment_of c _ _) as [com'| | |]; try reflexivity.
  cbn [res_bind]. unfold IsPointEqual. by destruct (bool_decide _).
Qed.

(** The coin after [ConcealOutputCoin], for the two hashes. *)
Definition concealed (h2 h3 m a : list Z) (c : CoinV2) : CoinV2 :=
  c2_SetSharedRandom None (c2_SetSharedConcealRandom None (with_opening (ScAdd m h2) (ScAdd a h3) c)).

Lemma conceal_ok c r rk m a com : sc_ok rk -> sc_ok r ->
  c2_sharedConcealRandom c = Some r -> c2_mask c = Some m -> c2_amount c = Some a -> c2_commitment c = Some com ->
  commitment_of c a m = Ok com ->
  exists h2 h3, conceal_hashes (ScalarMultKey (ScalarMultKey GBASE r) rk) = Ok (h2, h3) /\ sc_ok h2 /\ sc_ok h3 /\
    CoinV2_ConcealOutputCoin (Some (ScalarMultKey GBASE rk)) c = (concealed h2 h3 m a c, Ok tt).
Proof using CL DL.
  intros Hrk Hr Er Em Ea Ec Ecom.
  assert (pt_ok (ScalarMultKey GBASE r)) as HP by (apply pt_mult; [apply pt_base|done]).
  assert (ScalarMultKey (ScalarMultKey GBASE rk) r = ScalarMultKey (ScalarMultKey GBASE r) rk) as Esw
    by (apply mult_swap; [apply pt_base|done|done]).
  assert (pt_ok (ScalarMultKey (ScalarMultKey GBASE r) rk)) as HrK by (by apply pt_mult).
  destruct (conceal_hashes_ok _ (proj2 (proj1 (pt_key _ HrK)))) as (h2 & h3 & Eh & Hh2 & Hh3).
  exists h2, h3. split; [exact Eh|]. split; [done|]. split; [done|].
  unfold CoinV2_ConcealOutputCoin. rewrite (IsEncrypted_eq c a m com Ea Em Ec), Ecom.
  cbn [res_bind]. rewrite bool_decide_true by done. cbn [negb]. rewrite Er.
  unfold Point_ScalarMult. rewrite Esw, Eh. cbn [res_bind]. rewrite Em, Ea. reflexivity.
Qed.

Lemma decrypt_concealed c r rk ks t m a com h2 h3 :
  view_only rk ks -> sc_ok r -> sc_ok m -> sc_ok a -> sc_ok h2 -> sc_ok h3 ->
  c2_txRandom c = Some t -> GetTxConcealRandomPoint t = Ok (ScalarMultKey GBASE r) ->
  c2_mask c = Some m -> c2_amount c = Some a -> c2_commitment c = Some com -> commitment_of c a m = Ok com ->
  conceal_hashes (ScalarMultKey (ScalarMultKey GBASE r) rk) = Ok (h2, h3) ->
  CoinV2_IsEncrypted (concealed h2 h3 m a c) = Ok true ->
  CoinV2_Decrypt (Some ks) (concealed h2 h3 m a c) = (c2_SetSharedRandom None (c2_SetSharedConcealRandom None c), Ok tt) /\
  CoinV2_GetValue (c2_SetSharedRandom None (c2_SetSharedConcealRandom None c)) = Ok (key_val a mod 2 ^ 64).
Proof using CL DL.
  intros Hks Hr Hm Ha Hh2 Hh3 Et EP Em Ea Ec Ecom Eh Henc. set (c' := concealed h2 h3 m a c) in *.
  assert (pt_ok (ScalarMultKey GBASE r)) as HP by (apply pt_mult; [apply pt_base|done]).
  destruct (Decrypt_eq rk ks c' t _ (ScAdd m h2) (ScAdd a h3) com Hks Et EP HP
    eq_refl eq_refl Ec Henc) as (k2 & k3 & Ek & _ & _ & Ed).
  rewrite Eh in Ek. injection Ek as <- <-.
  rewrite (ScSub_ScAdd m h2 Hm Hh2), (ScSub_ScAdd a h3 Ha Hh3) in Ed.
  replace (commitment_of c') with (commitment_of c) in Ed by reflexivity.
  rewrite Ecom in Ed. cbn [res_bind] in Ed. rewrite bool_decide_true in Ed by done.
  assert (with_opening m a c' = c2_SetSharedRandom None (c2_SetSharedConcealRandom None c)) as E'.
  { unfold with_opening, c', concealed, with_opening, c2_SetSharedRandom, c2_SetSharedConcealRandom,
      c2_SetAmount, c2_SetRandomness. cbn. by rewrite Em, Ea. }
  rewrite E' in Ed. split; [exact Ed|]. unfold CoinV2_GetValue. rewrite (IsEncrypted_eq _ a m com) by done.
  replace (commitment_of (c2_SetSharedRandom _ _)) with (commitment_of c) by reflexivity.
  rewrite Ecom. cbn [res_bind]. rewrite bool_decide_true by done. cbn [negb].
  cbn [c2_SetSharedRandom c2_SetSharedConcealRandom c2_amount]. rewrite Ea. cbn [deref res_bind].
  f_equal. apply ToUint64Little_ok. apply Ha.
Qed.

(** C17: concealing an output coin and decrypting it are inverse.  For a coin whose
    commitment opens to its amount and mask, [ConcealOutputCoin] with the
    receiver's public view key adds a hash of the shared secret to both and
    erases the sender's secrets; if the result is then an encrypted coin (its
    commitment no longer opens), a key set with the receiver's view key decrypts
    it to the coin with the same mask and amount, whose value can be read. *)
Theorem conceal_decrypt c r rk ks t m a com :
  view_only rk ks -> sc_ok r -> sc_ok m -> sc_ok a ->
  c2_sharedConcealRandom c = Some r -> c2_txRandom c = Some t ->
  GetTxConcealRandomPoint t = Ok (ScalarMultKey GBASE r) ->
  c2_mask c = Some m -> c2_amount c = Some a -> c2_commitment c = Some com ->
  commitment_of c a m = Ok com ->
  exists c' h2 h3,
    CoinV2_ConcealOutputCoin (Some (ScalarMultKey GBASE rk)) c = (c', Ok tt) /\
    c2_mask c' = Some (ScAdd m h2) /\ c2_amount c' = Some (ScAdd a h3) /\
    c2_sharedRandom c' = None /\ c2_sharedConcealRandom c' = None /\
    (CoinV2_IsEncrypted c' = Ok true ->
     exists d, CoinV2_Decrypt (Some ks) c' = (d, Ok tt) /\
       d = c2_SetSharedRandom None (c2_SetSharedConcealRandom None c) /\
       CoinV2_GetValue d = Ok (key_val a mod 2 ^ 64)).
Proof using CL DL.
  intros Hks Hr Hm Ha Er Et EP Em Ea Ec Ecom. pose proof Hks as (_ & _ & Hrk).
  destruct (conceal_ok c r rk m a com Hrk Hr Er Em Ea Ec Ecom) as (h2 & h3 & Eh & Hh2 & Hh3 & E).
  exists (concealed h2 h3 m a c), h2, h3. split; [exact E|]. split; [done|]. split; [done|]. split; [done|]. split; [done|].
  intros Henc. destruct (decrypt_concealed c r rk ks t m a com h2 h3 Hks Hr Hm Ha Hh2 Hh3 Et EP Em Ea Ec Ecom Eh Henc) as [Ed Ev].
  by eexists.
Qed.

(** Decrypting with a view key.  [Decrypt] of an encrypted coin subtracts the
    hashes of the shared secret from mask and amount in place and then tests the
    commitment; when the test fails, as it does with the view key of somebody
    else, the error leaves the coin with the wrong mask and the wrong amount. *)
Theorem decrypt_in_place rk ks c t P m a com :
  view_only rk ks -> c2_txRandom c = Some t -> GetTxConcealRandomPoint t = Ok P -> pt_ok P ->
  sc_ok m -> sc_ok a -> (forall tag, c2_assetTag c = Some tag -> pt_ok tag) ->
  c2_mask c = Some m -> c2_amount c = Some a -> c2_commitment c = Some com ->
  CoinV2_IsEncrypted c = Ok true ->
  exists h2 h3 com', conceal_hashes (ScalarMultKey P rk) = Ok (h2, h3) /\
    commitment_of c (ScSub a h3) (ScSub m h2) = Ok com' /\
    (com' = com -> CoinV2_Decrypt (Some ks) c = (with_opening (ScSub m h2) (ScSub a h3) c, Ok tt)) /\
    (com' <> com -> exists msg d, CoinV2_Decrypt (Some ks) c = (d, Err msg) /\
       c2_mask d = Some (ScSub m h2) /\ c2_amount d = Some (ScSub a h3) /\
       (key_val h2 <> 0 -> d <> c)).
Proof using CL DL.
  intros Hks Et EP HP Hm Ha Htag Em Ea Ec Henc.
  destruct (Decrypt_eq rk ks c t P m a com Hks Et EP HP Em Ea Ec Henc)
    as (h2 & h3 & Eh & Hh2 & Hh3 & Ed).
  destruct (ScSub_ok m h2 Hm Hh2) as [Hm' Vm]. destruct (ScSub_ok a h3 Ha Hh3) as [Ha' _].
  destruct (commitment_of_ok c _ _ Ha' Hm' Htag) as (com' & Ecom & _).
  exists h2, h3, com'. split; [done|]. split; [done|]. rewrite Ecom in Ed. cbn [res_bind] in Ed.
  split; intros Hcom.
  - by rewrite bool_decide_true in Ed by done.
  - rewrite bool_decide_false in Ed by done. eexists _, _. split; [exact Ed|].
    split; [done|]. split; [done|]. intros Hne E. apply (f_equal c2_mask) in E.
    cbn [with_opening c2_SetAmount c2_SetRandomness c2_mask] in E. rewrite Em in E.
    injection E as E. rewrite E in Vm. pose proof (sc_ok_bound _ Hm). pose proof (sc_ok_bound _ Hh2).
    destruct (Z.leb_spec (key_val h2) (key_val m)).
    + rewrite Z.mod_small in Vm by lia. lia.
    + rewrite <- (Z.mod_unique _ _ (-1) (key_val m - key_val h2 + order)) in Vm by lia. lia.
Qed.

(** *** OTA receivers *)

Definition receiver_ok (r : OTAReceiver) : Prop :=
  key_ok (or_PublicKey r) /\ ge_frombytes (or_PublicKey r) = true /\ txRandom_ok (or_TxRandom r).

Lemma receiver_bytes_ok r : receiver_ok r -> bytes_ok (OTAReceiver_Bytes r).
Proof using Type.
  intros ((_ & Hk) & _ & (_ & Ht & _)). unfold OTAReceiver_Bytes. constructor.
  - unfold is_byte, PrivateReceivingAddressType. lia.
  - by apply Forall_app.
Qed.

Lemma OTAReceiver_SetBytes_Bytes cap r r0 : receiver_ok r ->
  (length (OTAReceiver_Bytes r) <= cap)%nat ->
  OTAReceiver_SetBytes cap (OTAReceiver_Bytes r) r0 = (r, Ok tt).
Proof using Type.
  intros ((Hk & _) & Hv & Ht) Hcap. pose proof (proj1 Ht) as Hl.
  unfold Ed25519KeySize, TxRandomGroupSize in *. unfold OTAReceiver_SetBytes.
  set (b := OTAReceiver_Bytes r) in *.
  assert (length b = 101)%nat as Hb
    by (unfold b, OTAReceiver_Bytes, TxRandom_Bytes; cbn [length]; rewrite length_app; lia).
  rewrite Hb. cbn [Nat.eqb]. unfold st_bind, st_lift.
  assert (index b 0 = Ok PrivateReceivingAddressType) as -> by reflexivity.
  rewrite Z.eqb_refl. cbn [negb].
  rewrite (slice_cap_mid cap b [PrivateReceivingAddressType] (or_PublicKey r) (or_TxRandom r))
    by (try reflexivity; cbn [length]; lia).
  rewrite Point_FromBytesS_ok by done. cbn [Nat.ltb Nat.leb]. unfold st_put.
  assert (slice b 33 101 = Ok (or_TxRandom r)) as ->.
  { replace b with ((PrivateReceivingAddressType :: or_PublicKey r) ++ or_TxRandom r ++ [])
      by (by rewrite app_nil_r).
    apply slice_app_mid; cbn [length]; lia. }
  rewrite TxRandom_SetBytes_ok by done. by destruct r.
Qed.

(** Addresses for one payment.  An OTA receiver survives [Bytes]/[SetBytes], and
    [String]/[FromString] whatever the state of the cache of the encoder (its
    version byte is not compared); but [SetBytes] panics on every string that
    has the right prefix and a capacity below 33 bytes. *)
Theorem OTAReceiver_roundtrip r r0 c : receiver_ok r -> cache_ok c ->
  OTAReceiver_IsValid r = true /\
  (forall cap, (length (OTAReceiver_Bytes r) <= cap)%nat ->
     OTAReceiver_SetBytes cap (OTAReceiver_Bytes r) r0 = (r, Ok tt)) /\
  (exists c' s, OTAReceiver_String r c = (c', Ok s) /\ cache_ok c' /\
     OTAReceiver_FromString s r0 = (r, Ok tt)) /\
  (forall cap rest, (S (length rest) <= cap < 33)%nat ->
     snd (OTAReceiver_SetBytes cap (PrivateReceivingAddressType :: rest) r0) = Panic).
Proof using DL LL AA.
  intros Hr Hc. split; [|split; [|split]].
  - destruct Hr as (_ & Hv & (Hl & Hb & H1' & H2')). unfold OTAReceiver_IsValid.
    unfold GetTxConcealRandomPoint, GetTxOTARandomPoint, Ed25519KeySize, TxRandomGroupSize in *.
    rewrite Hl, !slice_ok by lia. cbn [res_bind Nat.add Nat.sub]. rewrite drop_0.
    rewrite (take_ge (drop 36 _)) by (rewrite length_drop; lia).
    rewrite !Point_FromBytesS_ok by (rewrite ?length_drop, ?length_take; lia || done). done.
  - intros cap. by apply OTAReceiver_SetBytes_Bytes.
  - destruct (cached_encode_decode c (OTAReceiver_Bytes r) 0 true Hc (receiver_bytes_ok r Hr))
      as (c' & s & ver & E & Hc' & Hd & _); [unfold is_byte; lia|].
    exists c', s. split; [exact E|]. split; [done|]. unfold OTAReceiver_FromString, st_bind, st_lift.
    rewrite Hd. apply OTAReceiver_SetBytes_Bytes; [done|apply append_cap_ge].
  - intros cap rest Hcap. unfold OTAReceiver_SetBytes. cbn [length Nat.eqb].
    unfold st_bind, st_lift. cbn [index lookup list_lookup]. rewrite Z.eqb_refl. cbn [negb].
    unfold slice_cap. destruct (Nat.leb_spec 33 cap); [lia|]. by rewrite andb_false_r.
Qed.
End properties.

(** ** Witnesses *)

#[local] Existing Instances keep_all keep_all_laws toy_curve toy_curve_laws toy_digests toy_digest_laws exact_cap exact_cap_laws toy_hdwallet.

Definition toy_txRandom : list Z := make_TxRandom GBASE GBASE 7.

Lemma GBASE_key : key_ok GBASE /\ ge_frombytes GBASE = true.
Proof. rewrite <- toy_write_gbase. apply toy_write_ok. Qed.

Lemma toy_txRandom_ok : txRandom_ok toy_txRandom.
Proof. destruct GBASE_key as [K V]. exact (proj1 (make_TxRandom_ok GBASE GBASE 7 K V K V)). Qed.

Definition toy_coin : CoinV2 :=
  mkCoinV2 2 [1; 2; 3] (Some (toy_write 5)) (Some (toy_write 6)) None (Some (key_of 8)) None
    (Some toy_txRandom) (Some (key_of 9)) (Some (key_of 10)) (Some (toy_write 11)) None.

Lemma toy_coin_ok : coinV2_ok toy_coin.
Proof.
  split; [repeat constructor; unfold is_byte; lia|].
  split; [apply toy_write_ok|]. split; [apply toy_write_ok|]. split; [exact I|].
  split; [apply key_of_ok|]. split; [exact I|].
  split; [exists toy_txRandom; split; [reflexivity|apply toy_txRandom_ok]|].
  split; [apply key_of_ok|]. split; [apply key_of_ok|apply toy_write_ok].
Qed.

Lemma CoinV2_roundtrip_witness :
  CoinV2_SetBytes (CoinV2_Bytes toy_coin) newCoinV2 = (stored_coin toy_coin newCoinV2, Ok tt).
Proof. apply (CoinV2_roundtrip toy_coin toy_coin newCoinV2); apply toy_coin_ok. Defined.

Lemma DeriveShardInfo_functional_witness :
  exists s t, DeriveShardInfoFromCoin (replicate 31 0 ++ [93]) = Ok (s, 5, t).
Proof.
  destruct (DeriveShardInfo_functional (replicate 31 0 ++ [93]) 93) as (s & t & E & _).
  - split; [reflexivity|]. apply Forall_app. split; [|repeat constructor; unfold is_byte; lia].
    apply Forall_replicate. unfold is_byte. lia.
  - reflexivity.
  - exists s, t. exact E.
Defined.

Lemma OTAReceiver_roundtrip_witness :
  let r := mkOTAReceiver (toy_write 5) toy_txRandom in
  OTAReceiver_IsValid r = true /\
  OTAReceiver_SetBytes 101 (OTAReceiver_Bytes r) (mkOTAReceiver [] []) = (r, Ok tt).
Proof.
  intros r. destruct (OTAReceiver_roundtrip r (mkOTAReceiver [] []) ∅) as (Hv & Hb & _).
  - split; [apply toy_write_ok|]. split; [apply toy_write_ok|apply toy_txRandom_ok].
  - apply empty_cache_ok.
  - split; [exact Hv|]. apply Hb. apply Nat.leb_le. vm_compute. reflexivity.
Defined.

Lemma toy_burning pk : IsPublicKeyBurningAddress pk = Ok false.
Proof.
  unfold IsPublicKeyBurningAddress.
  assert (Base58Check_Decode BurningAddress = Err "checksum error") as E
    by (vm_compute; reflexivity).
  unfold Base58CheckDeserialize. rewrite E. reflexivity.
Qed.

Definition toy_keys : KeySet :=
  match KeySet_InitFromPrivateKey (Some (key_of 5)) with Ok ks => ks | _ => emptyKeySet end.

Lemma one_time_address_witness :
  let addr := ks_PaymentAddress toy_keys in
  exists c x, NewCoinFromPaymentInfo 8 (key_of 6) (key_of 7) (key_of 8)
      (mkCoinParams (mkPaymentInfo addr 42 []) 0 PrivacyTypeTransfer) = Ok c /\
    DoesCoinBelongToKeySet toy_keys c
      = Ok (c, true, Some (ScalarMultKey (pa_OTAPublic addr) (key_of 7))) /\
    CoinV2_ParsePrivateKeyOfCoin (key_of 5) c = Ok x /\
    c2_publicKey c = Some (ScalarMultKey GBASE x).
Proof.
  intros addr.
  assert (forall z, 0 <= z < 1000 -> sc_ok (key_of z)) as Hs by exact toy_scalar.
  destruct (one_time_address 8 (key_of 5) toy_keys (key_of 6) (key_of 7) (key_of 8) 42 [] 0
              PrivacyTypeTransfer 15) as [[_ Hrej]|(c & i & x & En & _ & _ & _ & Eo & _ & Ex & _ & Ep)].
  - apply Hs; lia.
  - apply Hs; lia.
  - apply Hs; lia.
  - apply Hs; lia.
  - unfold is_u64; lia.
  - vm_compute. reflexivity.
  - vm_compute. reflexivity.
  - apply toy_burning.
  - lia.
  - assert (Some (Ok true) = Some (Ok false)) as E; [|discriminate E].
    rewrite <- (Hrej 2 ltac:(lia)). vm_compute. reflexivity.
  - exists c, x. split; [exact En|]. split; [exact Eo|]. split; [exact Ex|exact Ep].
Defined.

(** A view-only key set and a coin of value 5 sent to it. *)
Definition toy_viewer : KeySet :=
  mkKeySet [] emptyAddress (mkViewingKey [] (key_of 11)) emptyOTAKey.

Lemma toy_view_only : view_only (key_of 11) toy_viewer.
Proof. split; [reflexivity|]. split; [reflexivity|]. apply toy_scalar. lia. Qed.

Definition toy_commitment : list Z :=
  match CommitAtIndex PedG (key_of 5) (key_of 3) PedersenValueIndex with Ok c => c | _ => [] end.

Definition toy_output : CoinV2 :=
  mkCoinV2 2 [] (Some GBASE) (Some toy_commitment) None (Some (key_of 4)) (Some (key_of 4))
    (Some (make_TxRandom (ScalarMultKey GBASE (key_of 4)) GBASE 1))
    (Some (key_of 3)) (Some (key_of 5)) None None.

Lemma toy_conceal_point :
  pt_ok (ScalarMultKey GBASE (key_of 4)) /\
  GetTxConcealRandomPoint (make_TxRandom (ScalarMultKey GBASE (key_of 4)) GBASE 1)
  = Ok (ScalarMultKey GBASE (key_of 4)).
Proof.
  assert (pt_ok (ScalarMultKey GBASE (key_of 4))) as Hp
    by (apply pt_mult; [apply pt_base|apply toy_scalar; lia]).
  split; [exact Hp|]. destruct (pt_key _ Hp) as [K1 V1]. destruct GBASE_key as [K2 V2].
  exact (proj1 (proj2 (make_TxRandom_ok _ GBASE 1 K1 V1 K2 V2))).
Qed.

Lemma conceal_decrypt_witness :
  exists c' d, CoinV2_ConcealOutputCoin (Some (ScalarMultKey GBASE (key_of 11))) toy_output = (c', Ok tt) /\
    CoinV2_GetValue c' = Ok 0 /\
    CoinV2_Decrypt (Some toy_viewer) c' = (d, Ok tt) /\
    CoinV2_GetValue d = Ok (key_val (key_of 5) mod 2 ^ 64).
Proof.
  destruct (conceal_decrypt toy_output (key_of 4) (key_of 11) toy_viewer
              (make_TxRandom (ScalarMultKey GBASE (key_of 4)) GBASE 1) (key_of 3) (key_of 5)
              toy_commitment) as (c' & h2 & h3 & E & _ & _ & _ & _ & Hd).
  - apply toy_view_only.
  - apply toy_scalar; lia.
  - apply toy_scalar; lia.
  - apply toy_scalar; lia.
  - reflexivity.
  - reflexivity.
  - apply toy_conceal_point.
  - reflexivity.
  - reflexivity.
  - reflexivity.
  - vm_compute. reflexivity.
  - assert (CoinV2_IsEncrypted (fst (CoinV2_ConcealOutputCoin
              (Some (ScalarMultKey GBASE (key_of 11))) toy_output)) = Ok true) as He
      by (vm_compute; reflexivity).
    rewrite E in He. cbn [fst] in He. destruct (Hd He) as (d & Ed & _ & Ev).
    exists c', d. split; [exact E|]. split; [|split; [exact Ed|exact Ev]].
    unfold CoinV2_GetValue. rewrite He. reflexivity.
Defined.

(** An encrypted coin of somebody else. *)
Definition toy_foreign : CoinV2 := c2_SetCommitment (Some GBASE) toy_output.

Lemma decrypt_in_place_witness :
  exists msg d, CoinV2_Decrypt (Some toy_viewer) toy_foreign = (d, Err msg) /\ d <> toy_foreign.
Proof.
  destruct (decrypt_in_place (key_of 11) toy_viewer toy_foreign
              (make_TxRandom (ScalarMultKey GBASE (key_of 4)) GBASE 1)
              (ScalarMultKey GBASE (key_of 4)) (key_of 3) (key_of 5) GBASE)
    as (h2 & h3 & com' & Eh & Ec & _ & Hbad).
  - apply toy_view_only.
  - reflexivity.
  - apply toy_conceal_point.
  - apply toy_conceal_point.
  - apply toy_scalar; lia.
  - apply toy_scalar; lia.
  - intros tag E. discriminate E.
  - reflexivity.
  - reflexivity.
  - reflexivity.
  - vm_compute. reflexivity.
  - vm_compute in Eh. injection Eh as <- <-. vm_compute in Ec. injection Ec as <-.
    destruct Hbad as (msg & d & Ed & _ & _ & Hd).
    + apply (bool_decide_unpack _). vm_compute. exact I.
    + exists msg, d. split; [exact Ed|]. apply Hd.
      apply (bool_decide_unpack _). vm_compute. exact I.
Defined.
