(* ===== verification/Hybrid.v ===== *)
(** * Package [hybridencryption] and the AES wrapper of package [common]

    [src/common/aes.go], [src/privacy/v1/hybridencryption/elgamal.go] and
    [hybridencryption.go], but for the JSON wrappers: the ElGamal key
    encapsulation and the AES-CTR data encapsulation by which a coin of
    version 1 carries its opening to its receiver.  The initialization vector,
    the random key and the ElGamal nonce are arguments. *)

From stdpp Require Import base list gmap strings.
From Stdlib Require Import ZArith Lia.
From S2P Require Import Prelude Common Hashing Crypto Key Base58 Base58Check Wallet CoinV2.
Open Scope Z_scope.

(** ** The block cipher *)

(** [cipher.NewCTR(aes.NewCipher(key), iv)]: the key stream of a length. *)
Class BlockCipher : Type := ctr_stream : list Z -> list Z -> nat -> list Z.
Class BlockCipherLaws `{BlockCipher} : Prop := {
  ctr_stream_length : forall key iv n, length (ctr_stream key iv n) = n;
  ctr_stream_bytes : forall key iv n, bytes_ok (ctr_stream key iv n)
}.

Definition BlockSize : nat := 16.

(** [aes.NewCipher] takes keys of 16, 24 or 32 bytes. *)
Definition aes_key_ok (key : list Z) : bool :=
  (length key =? 16)%nat || (length key =? 24)%nat || (length key =? 32)%nat.

Section aes.
Context `{BC : BlockCipher}.

Definition XORKeyStream (key iv src : list Z) : list Z :=
  zip_with Z.lxor src (ctr_stream key iv (length src)).

Definition AES_Encrypt (iv key plaintext : list Z) : res (list Z) :=
  if (length plaintext =? 0)%nat then Err "plaintext is empty"
  else if negb (aes_key_ok key) then Err "aes key is invalid"
  else Ok (iv ++ XORKeyStream key iv plaintext).

Definition AES_Decrypt (key ciphertext : list Z) : res (list Z) :=
  if (length ciphertext =? 0)%nat then Err "ciphertext is empty"
  else
    let* body := slice ciphertext BlockSize (length ciphertext) in
    if negb (aes_key_ok key) then Err "invalid key size"
    else
      let* iv := slice ciphertext 0 BlockSize in
      Ok (XORKeyStream key iv body).
End aes.

(** ** elgamal.go *)

Record elGamalCipherText := mkElGamal { eg_c1 : list Z; eg_c2 : list Z }.

Section hybrid.
Context `{CO : CurveOps} `{BC : BlockCipher}.

(** [Point.FromBytes] of an array. *)
Definition Point_FromBytes (b : list Z) : res (list Z) :=
  if ge_frombytes b then Ok b else Err "invalid point value".

(** The point at infinity has no bytes. *)
Definition elGamal_Bytes (c : elGamalCipherText) : list Z :=
  if Point_IsIdentity (eg_c1 c) then [] else eg_c1 c ++ eg_c2 c.

(** [cap] is the capacity of [b].  The array [tmp] is used for both points: the
    second copy leaves what it does not overwrite. *)
Definition elGamal_SetBytes (cap : nat) (b : list Z) : res elGamalCipherText :=
  if (length b =? 0)%nat then Err "InvalidInputToSetBytesErr"
  else
    let* b1 := slice_cap cap b 0 Ed25519KeySize in
    let tmp := b1 in
    let* c1 := Point_FromBytes tmp in
    let* b2 := slice b Ed25519KeySize (length b) in
    let tmp := copy_into 0 Ed25519KeySize b2 tmp in
    let* c2 := Point_FromBytes tmp in
    Ok (mkElGamal c1 c2).

Definition elGamal_encrypt (r h plaintext : list Z) : elGamalCipherText :=
  let S := Point_ScalarMult h r in
  mkElGamal (Point_ScalarMultBase r) (Point_Add plaintext S).

Definition elGamal_decrypt (x : list Z) (c : elGamalCipherText) : list Z :=
  let S := Point_ScalarMult (eg_c1 c) x in
  Point_Sub (eg_c2 c) S.

(** ** hybridencryption.go *)

Definition elGamalCiphertextSize : nat := 64.

Record HybridCipherText := mkHybrid { hy_msg : list Z; hy_symKey : list Z }.

Definition Hybrid_IsNil (c : HybridCipherText) : bool :=
  if (length (hy_msg c) =? 0)%nat then true else (length (hy_symKey c) =? 0)%nat.

Definition Hybrid_Bytes (c : HybridCipherText) : list Z :=
  if Hybrid_IsNil c then [] else hy_symKey c ++ hy_msg c.

Definition Hybrid_SetBytes (b : list Z) : st HybridCipherText unit := fun c =>
  if (length b =? 0)%nat then (c, Err "InvalidInputToSetBytesErr")
  else if (length b <? elGamalCiphertextSize)%nat then (c, Err "out of range Parse c")
  else (mkHybrid (drop elGamalCiphertextSize b) (take elGamalCiphertextSize b), Ok tt).

(** [sKey] is the result of [RandomPoint]. *)
Definition HybridEncrypt (sKey iv r msg publicKey : list Z) : res HybridCipherText :=
  let* msgEncrypted := AES_Encrypt iv sKey msg in
  Ok (mkHybrid msgEncrypted (elGamal_Bytes (elGamal_encrypt r publicKey sKey))).

Definition HybridDecrypt (c : HybridCipherText) (privateKey : list Z) : res (list Z) :=
  if Hybrid_IsNil c then Err "ciphertext must not be nil"
  else
    let* encryptedAESKey := elGamal_SetBytes (length (hy_symKey c)) (hy_symKey c) in
    AES_Decrypt (elGamal_decrypt privateKey encryptedAESKey) (hy_msg c).
End hybrid.

(** ** Lemmas *)

Section laws.
Context `{CL : CurveLaws} `{BL : BlockCipherLaws}.

Lemma xor_stream_involutive (l ks : list Z) : length ks = length l ->
  zip_with Z.lxor (zip_with Z.lxor l ks) ks = l.
Proof using Type.
  revert ks. induction l as [|x l IH]; intros [|k ks] Hl; try done. cbn [zip_with].
  f_equal; [by rewrite Z.lxor_assoc, Z.lxor_nilpotent, Z.lxor_0_r|]. apply IH. simpl in Hl. lia.
Qed.

Lemma length_XORKeyStream key iv src : length (XORKeyStream key iv src) = length src.
Proof using BL.
  unfold XORKeyStream. rewrite length_zip_with_l; [done|]. by rewrite ctr_stream_length.
Qed.

Lemma XORKeyStream_involutive key iv src :
  XORKeyStream key iv (XORKeyStream key iv src) = src.
Proof using BL.
  unfold XORKeyStream at 1. rewrite length_XORKeyStream.
  apply xor_stream_involutive. apply ctr_stream_length.
Qed.

Lemma AES_roundtrip iv key msg c : length iv = BlockSize ->
  AES_Encrypt iv key msg = Ok c -> AES_Decrypt key c = Ok msg.
Proof using BL.
  intros Hiv. unfold AES_Encrypt, BlockSize in *.
  destruct (Nat.eqb_spec (length msg) 0); [done|]. destruct (aes_key_ok key) eqn:Hk; [|done].
  cbn [negb]. intros [= <-]. unfold AES_Decrypt, BlockSize. rewrite length_app, Hiv.
  destruct (Nat.eqb_spec (16 + length (XORKeyStream key iv msg)) 0); [lia|].
  rewrite <- (app_nil_r (XORKeyStream key iv msg)) at 1.
  rewrite slice_app_mid by (try done; lia). cbn [res_bind]. rewrite Hk. cbn [negb].
  change (iv ++ XORKeyStream key iv msg) with ([] ++ iv ++ XORKeyStream key iv msg).
  rewrite slice_app_mid by (cbn [length]; lia). cbn [res_bind].
  by rewrite XORKeyStream_involutive.
Qed.

Lemma Point_FromBytes_pt p : pt_ok p -> Point_FromBytes p = Ok p.
Proof using CL. intros Hp. unfold Point_FromBytes. by rewrite (proj2 (pt_key p Hp)). Qed.

Lemma elGamal_SetBytes_app cap p q : pt_ok p -> pt_ok q -> (64 <= cap)%nat ->
  elGamal_SetBytes cap (p ++ q) = Ok (mkElGamal p q).
Proof using CL.
  intros Hp Hq Hcap. destruct (pt_key p Hp) as [[Hpl _] _]. destruct (pt_key q Hq) as [[Hql _] _].
  unfold Ed25519KeySize in *. unfold elGamal_SetBytes, Ed25519KeySize.
  rewrite length_app, Hpl, Hql. cbn [Nat.add Nat.eqb].
  rewrite (slice_cap_mid cap (p ++ q) [] p q) by (rewrite ?length_app; simpl; lia || done).
  cbn [res_bind]. rewrite (Point_FromBytes_pt p Hp). cbn [res_bind].
  rewrite <- (app_nil_r q), (slice_app_mid p q []) by lia. cbn [res_bind]. rewrite app_nil_r.
  assert (copy_into 0 32 q p = q) as ->.
  { unfold copy_into. rewrite Hql. cbn [Nat.min Nat.add]. rewrite (take_ge q) by lia.
    rewrite (drop_ge p) by lia. by rewrite app_nil_r. }
  by rewrite (Point_FromBytes_pt q Hq).
Qed.

Lemma elGamal_roundtrip r x m : sc_ok r -> sc_ok x -> pt_ok m ->
  pt_ok (eg_c1 (elGamal_encrypt r (ScalarMultKey GBASE x) m)) /\
  pt_ok (eg_c2 (elGamal_encrypt r (ScalarMultKey GBASE x) m)) /\
  eg_c1 (elGamal_encrypt r (ScalarMultKey GBASE x) m) = ScalarMultKey GBASE r /\
  elGamal_decrypt x (elGamal_encrypt r (ScalarMultKey GBASE x) m) = m.
Proof using CL.
  intros Hr Hx Hm. unfold elGamal_encrypt, elGamal_decrypt, Point_Add, Point_Sub, Point_ScalarMult.
  cbn [eg_c1 eg_c2]. pose proof (ScalarMultBase_sc r Hr) as ->.
  assert (pt_ok (ScalarMultKey GBASE x)) as Hgx by (apply pt_mult; [apply pt_base|done]).
  assert (pt_ok (ScalarMultKey (ScalarMultKey GBASE x) r)) as Hs by (by apply pt_mult).
  split; [apply pt_mult; [apply pt_base|done]|]. split; [by apply pt_add|]. split; [done|].
  rewrite (mult_swap GBASE r x) by (try apply pt_base; done). rewrite (add_comm m) by done.
  by apply add_sub.
Qed.

(** A ciphertext for the key [x] decrypts, after a trip through its bytes too. *)
Lemma hybrid_decrypt_encrypt sKey iv r msg x :
  pt_ok sKey -> length iv = BlockSize -> sc_ok r -> sc_ok x -> msg <> [] ->
  ScalarMultKey GBASE r <> Identity ->
  exists c, HybridEncrypt sKey iv r msg (ScalarMultKey GBASE x) = Ok c /\
    Hybrid_IsNil c = false /\ length (Hybrid_Bytes c) = (80 + length msg)%nat /\
    (forall c0, Hybrid_SetBytes (Hybrid_Bytes c) c0 = (c, Ok tt)) /\
    HybridDecrypt c x = Ok msg.
Proof using CL BL.
  intros Hk Hiv Hr Hx Hmsg Hid. destruct (elGamal_roundtrip r x sKey Hr Hx Hk) as (P1 & P2 & E1 & Ed).
  set (eg := elGamal_encrypt r (ScalarMultKey GBASE x) sKey) in *.
  destruct (pt_key _ P1) as [[L1 _] _]. destruct (pt_key _ P2) as [[L2 _] _].
  destruct (pt_key _ Hk) as [[Lk _] _]. unfold Ed25519KeySize in *.
  assert (length msg <> 0%nat) as Hml by (by intros ?%nil_length_inv).
  assert (exists e, AES_Encrypt iv sKey msg = Ok e /\ length e = (16 + length msg)%nat) as (e & Ee & Le).
  { unfold AES_Encrypt, aes_key_ok, BlockSize in *. rewrite Lk. cbn [Nat.eqb orb negb].
    destruct (Nat.eqb_spec (length msg) 0); [lia|]. eexists. split; [done|].
    rewrite length_app, length_XORKeyStream. lia. }
  assert (elGamal_Bytes eg = eg_c1 eg ++ eg_c2 eg) as Eb.
  { unfold elGamal_Bytes, Point_IsIdentity. rewrite E1. by rewrite bool_decide_false. }
  assert (length (elGamal_Bytes eg) = 64%nat) as Lb by (rewrite Eb, length_app; lia).
  assert (Hybrid_IsNil (mkHybrid e (elGamal_Bytes eg)) = false) as Hnil.
  { unfold Hybrid_IsNil. cbn [hy_msg hy_symKey]. rewrite Lb, Le. by destruct (Nat.eqb_spec (16 + length msg) 0); [lia|]. }
  eexists. unfold HybridEncrypt. rewrite Ee. cbn [res_bind]. fold eg. split; [done|].
  split; [done|]. unfold Hybrid_Bytes. rewrite Hnil. cbn [hy_msg hy_symKey].
  split; [rewrite length_app, Lb; lia|]. split.
  - intros c0. unfold Hybrid_SetBytes, elGamalCiphertextSize. rewrite length_app, Lb.
    destruct (Nat.eqb_spec (64 + length e) 0); [lia|]. destruct (Nat.ltb_spec (64 + length e) 64); [lia|].
    by rewrite drop_app_length', take_app_length' by done.
  - unfold HybridDecrypt. rewrite Hnil. cbn [hy_msg hy_symKey]. rewrite Eb.
    rewrite elGamal_SetBytes_app by (try done; rewrite length_app; lia). cbn [res_bind].
    replace (mkElGamal (eg_c1 eg) (eg_c2 eg)) with eg by (by destruct eg). rewrite Ed.
    by apply (AES_roundtrip iv).
Qed.

(** ** Properties *)

(** C35: the hybrid encryption.  What is encrypted under the public key of [x] is
    decrypted by [x], also after a trip through the bytes of the ciphertext;
    with a nonce that gives the point at infinity the ciphertext is lost: it
    has no bytes and its decryption is an error.  The AES wrapper panics on a
    ciphertext shorter than its initialization vector. *)
Theorem hybrid_roundtrip sKey iv r msg x :
  pt_ok sKey -> length iv = BlockSize -> sc_ok r -> sc_ok x -> msg <> [] ->
  (ScalarMultKey GBASE r <> Identity ->
   exists c, HybridEncrypt sKey iv r msg (ScalarMultKey GBASE x) = Ok c /\
     (forall c0, Hybrid_SetBytes (Hybrid_Bytes c) c0 = (c, Ok tt)) /\
     HybridDecrypt c x = Ok msg) /\
  (ScalarMultKey GBASE r = Identity ->
   exists c m, HybridEncrypt sKey iv r msg (ScalarMultKey GBASE x) = Ok c /\
     Hybrid_Bytes c = [] /\ HybridDecrypt c x = Err m) /\
  (forall key c, (0 < length c < 16)%nat -> AES_Decrypt key c = Panic).
Proof using CL BL.
  intros Hk Hiv Hr Hx Hmsg. split; [|split].
  - intros Hid. destruct (hybrid_decrypt_encrypt sKey iv r msg x Hk Hiv Hr Hx Hmsg Hid)
      as (c & E & _ & _ & Hb & Hd). by exists c.
  - intros Hid. destruct (elGamal_roundtrip r x sKey Hr Hx Hk) as (_ & _ & E1 & _).
    assert (elGamal_Bytes (elGamal_encrypt r (ScalarMultKey GBASE x) sKey) = []) as Eb.
    { unfold elGamal_Bytes, Point_IsIdentity. rewrite E1. by rewrite bool_decide_true. }
    destruct (pt_key _ Hk) as [[Lk _] _]. unfold Ed25519KeySize in Lk.
    assert (Hybrid_IsNil (mkHybrid (iv ++ XORKeyStream sKey iv msg) []) = true) as Hnil
      by (unfold Hybrid_IsNil; by destruct (_ =? 0)%nat).
    exists (mkHybrid (iv ++ XORKeyStream sKey iv msg) []), "ciphertext must not be nil"%string.
    unfold HybridEncrypt, AES_Encrypt, aes_key_ok. rewrite Lk, Eb. cbn [Nat.eqb orb negb].
    destruct (Nat.eqb_spec (length msg) 0) as [Hl|_]; [by apply nil_length_inv in Hl|].
    split; [done|]. unfold Hybrid_Bytes, HybridDecrypt. by rewrite Hnil.
  - intros key c Hc. unfold AES_Decrypt, BlockSize. destruct (Nat.eqb_spec (length c) 0); [lia|].
    unfold slice. destruct (Nat.leb_spec 16 (length c)); [lia|]. done.
Qed.
End laws.

(** ** A toy cipher for the examples *)

#[local] Existing Instances toy_curve toy_curve_laws toy_digests toy_digest_laws.

#[local] Instance toy_cipher : BlockCipher := fun key iv n => replicate n (key_val iv mod 256).
#[local] Instance toy_cipher_laws : BlockCipherLaws.
Proof.
  split; intros key iv n; unfold ctr_stream, toy_cipher; [apply length_replicate|].
  apply Forall_replicate. pose proof (Z.mod_pos_bound (key_val iv) 256). unfold is_byte. lia.
Qed.

Lemma hybrid_roundtrip_witness :
  exists c, HybridEncrypt (toy_write 5) (replicate 16 7) (key_of 3) [1; 2; 3]
      (ScalarMultKey GBASE (key_of 11)) = Ok c /\
    HybridDecrypt c (key_of 11) = Ok [1; 2; 3].
Proof.
  destruct (hybrid_roundtrip (toy_write 5) (replicate 16 7) (key_of 3) [1; 2; 3] (key_of 11))
    as (Hok & _ & _).
  - exists 5. reflexivity.
  - reflexivity.
  - apply toy_scalar. lia.
  - apply toy_scalar. lia.
  - discriminate.
  - destruct Hok as (c & E & _ & Ed).
    + apply (bool_decide_unpack _). vm_compute. exact I.
    + exists c. split; [exact E|exact Ed].
Defined.
