(* ===== verification/CoinV1.v ===== *)
(** * Package [coin]: coins of version 1

    [src/coin/coin_v1.go] and the dispatch on versions of [coin.go], but for the
    JSON wrappers.  The details of a coin are shared by pointer: [Decrypt]
    writes into the details of its receiver, so it is in the state monad. *)

From stdpp Require Import base list gmap strings.
From Stdlib Require Import ZArith Lia.
From S2P Require Import Prelude Common Hashing Crypto Key Base58 Base58Check Wallet CoinV2 Hybrid.
Open Scope Z_scope.

(** ** PlainCoinV1 *)

Record PlainCoinV1 := mkPlainCoinV1 {
  p1_publicKey : option (list Z);
  p1_commitment : option (list Z);
  p1_snDerivator : option (list Z);
  p1_serialNumber : option (list Z);
  p1_randomness : option (list Z);
  p1_value : Z;
  p1_info : list Z }.

(** [new(PlainCoinV1)] *)
Definition newPlainCoinV1 : PlainCoinV1 := mkPlainCoinV1 None None None None None 0 [].

Definition PlainCoinV1_Init (c : PlainCoinV1) : res PlainCoinV1 :=
  let* sn := Scalar_FromUint64 0 in
  Ok (mkPlainCoinV1 (Some Identity) None (Some sn) (Some Identity) (Some zero_scalar) 0 (p1_info c)).

Definition p1_SetPublicKey (v : option (list Z)) (c : PlainCoinV1) : PlainCoinV1 :=
  mkPlainCoinV1 v (p1_commitment c) (p1_snDerivator c) (p1_serialNumber c) (p1_randomness c)
    (p1_value c) (p1_info c).
Definition p1_SetCommitment (v : option (list Z)) (c : PlainCoinV1) : PlainCoinV1 :=
  mkPlainCoinV1 (p1_publicKey c) v (p1_snDerivator c) (p1_serialNumber c) (p1_randomness c)
    (p1_value c) (p1_info c).
Definition p1_SetSNDerivator (v : option (list Z)) (c : PlainCoinV1) : PlainCoinV1 :=
  mkPlainCoinV1 (p1_publicKey c) (p1_commitment c) v (p1_serialNumber c) (p1_randomness c)
    (p1_value c) (p1_info c).
Definition p1_SetKeyImage (v : option (list Z)) (c : PlainCoinV1) : PlainCoinV1 :=
  mkPlainCoinV1 (p1_publicKey c) (p1_commitment c) (p1_snDerivator c) v (p1_randomness c)
    (p1_value c) (p1_info c).
Definition p1_SetRandomness (v : option (list Z)) (c : PlainCoinV1) : PlainCoinV1 :=
  mkPlainCoinV1 (p1_publicKey c) (p1_commitment c) (p1_snDerivator c) (p1_serialNumber c) v
    (p1_value c) (p1_info c).
Definition p1_SetValue (v : Z) (c : PlainCoinV1) : PlainCoinV1 :=
  mkPlainCoinV1 (p1_publicKey c) (p1_commitment c) (p1_snDerivator c) (p1_serialNumber c)
    (p1_randomness c) v (p1_info c).
Definition p1_SetInfo (v : list Z) (c : PlainCoinV1) : PlainCoinV1 :=
  mkPlainCoinV1 (p1_publicKey c) (p1_commitment c) (p1_snDerivator c) (p1_serialNumber c)
    (p1_randomness c) (p1_value c) v.

Definition PlainCoinV1_GetShardID (c : PlainCoinV1) : res Z :=
  match p1_publicKey c with
  | None => Err "cannot get ShardID because PublicKey of PlainCoinV1 is concealed"
  | Some pk => let* b := index pk (Ed25519KeySize - 1) in Ok (GetShardIDFromLastByte b)
  end.

Definition PlainCoinV1_ConcealOutputCoin (c : PlainCoinV1) : PlainCoinV1 :=
  p1_SetRandomness None (p1_SetPublicKey None (p1_SetSNDerivator None
    (p1_SetValue 0 (p1_SetCommitment None c)))).

(** A length byte and the bytes of the value, the empty string for 0. *)
Definition value_field (v : Z) : list Z :=
  if 0 <? v then let value := bigint_bytes v in u8 (Z.of_nat (length value)) :: value else [0].

Definition info_bytes (info : list Z) : list Z :=
  if (0 <? length info)%nat then
    let byteLengthInfo := getMin (length info) MaxSizeInfoCoin in
    u8 (Z.of_nat byteLengthInfo) :: take byteLengthInfo info
  else [0].

Definition PlainCoinV1_Bytes (c : PlainCoinV1) : list Z :=
  opt_field (p1_publicKey c) ++ opt_field (p1_commitment c) ++ opt_field (p1_snDerivator c) ++
  opt_field (p1_serialNumber c) ++ opt_field (p1_randomness c) ++
  value_field (p1_value c) ++ info_bytes (p1_info c).

Section coin1.
Context `{CO : CurveOps} `{DG : Digests} `{BC : BlockCipher}.

Definition PlainCoinV1_ParsePrivateKeyOfCoin (privateKey : list Z) : list Z :=
  Scalar_FromBytesS privateKey.

(** The receiver is a copy. *)
Definition PlainCoinV1_ParseKeyImageWithPrivateKey (privateKey : list Z) (c : PlainCoinV1)
  : res (list Z) :=
  let k := PlainCoinV1_ParsePrivateKeyOfCoin privateKey in
  let* g := index PedG PedersenPrivateKeyIndex in
  let* sn := deref (p1_snDerivator c) in
  Point_Derive g k sn.

Definition PlainCoinV1_HashH (c : PlainCoinV1) : list Z := HashH (PlainCoinV1_Bytes c).

(** On the error of [CommitAll] the commitment is [nil]. *)
Definition PlainCoinV1_CommitAll (c : PlainCoinV1) : res PlainCoinV1 :=
  let* shardID := PlainCoinV1_GetShardID c in
  let* s0 := Scalar_FromUint64 0 in
  let* s1 := Scalar_FromUint64 (p1_value c) in
  let* s3 := Scalar_FromUint64 shardID in
  let* sn := deref (p1_snDerivator c) in
  let* rand := deref (p1_randomness c) in
  let* com := CommitAll PedG [s0; s1; sn; s3; rand] in
  let* pk := deref (p1_publicKey c) in
  Ok (p1_SetCommitment (Some (Point_Add com pk)) c).

(** The value keeps its old contents when its length byte is 0. *)
Definition parse_value (b : list Z) (offset : nat) : st PlainCoinV1 nat :=
  if (length b <=? offset)%nat then st_fail "SetBytes CoinV1: out of range Parse value"
  else
    let! l := st_lift (index b offset) in
    let offset := (offset + 1)%nat in
    let lenField := Z.to_nat l in
    if negb (l =? 0) then
      if (length b <? offset + lenField)%nat then st_fail "out of range Parse PublicKey"
      else
        let! data := st_lift (slice b offset (offset + lenField)) in
        let! _ := st_put (p1_SetValue (u64 (bigint_set_bytes data))) in
        st_ret (offset + lenField)%nat
    else st_ret offset.

Definition PlainCoinV1_SetBytes (b : list Z) : st PlainCoinV1 unit :=
  if (length b =? 0)%nat then st_fail "coinBytes is empty"
  else
    let! off := st_assign p1_SetPublicKey None "SetBytes CoinV1 publicKey error"
                  (parsePointForSetBytes b 0) in
    let! off := st_assign p1_SetCommitment None "SetBytes CoinV1 commitment error"
                  (parsePointForSetBytes b off) in
    let! off := st_assign p1_SetSNDerivator None "SetBytes CoinV1 snDerivator error"
                  (parseScalarForSetBytes b off) in
    let! off := st_assign p1_SetKeyImage None "SetBytes CoinV1 serialNumber error"
                  (parsePointForSetBytes b off) in
    let! off := st_assign p1_SetRandomness None "SetBytes CoinV1 serialNumber error"
                  (parseScalarForSetBytes b off) in
    let! off := parse_value b off in
    let! _ := st_assign p1_SetInfo [] "SetBytes CoinV1 info error" (parseInfoForSetBytes b off) in
    st_ret tt.

Definition PlainCoinV1_DoesCoinBelongToKeySet (keySet : KeySet) (c : PlainCoinV1) : res bool :=
  let* spend := deref (PaymentAddress_GetPublicSpend (ks_PaymentAddress keySet)) in
  let* pk := deref (p1_publicKey c) in
  Ok (IsPointEqual spend pk).

(** ** CoinV1 *)

Record CoinV1 := mkCoinV1 {
  c1_CoinDetails : PlainCoinV1;
  c1_CoinDetailsEncrypted : option HybridCipherText }.

Definition CoinV1_Init (c : CoinV1) : res CoinV1 :=
  let* d := PlainCoinV1_Init newPlainCoinV1 in Ok (mkCoinV1 d (Some (mkHybrid [] []))).

Definition CoinV1_IsEncrypted (c : CoinV1) : bool :=
  match c1_CoinDetailsEncrypted c with Some _ => true | None => false end.

Definition CoinV1_GetCoinDetailEncrypted (c : CoinV1) : list Z :=
  match c1_CoinDetailsEncrypted c with Some e => Hybrid_Bytes e | None => [] end.

(** The lengths: one byte for the ciphertext, one or two for the details. *)
Definition CoinV1_Bytes (c : CoinV1) : list Z :=
  let enc := match c1_CoinDetailsEncrypted c with
             | Some e => u8 (Z.of_nat (length (Hybrid_Bytes e))) :: Hybrid_Bytes e
             | None => [0]
             end in
  let coinDetailBytes := PlainCoinV1_Bytes (c1_CoinDetails c) in
  let lenCoinDetailBytes :=
    if (length coinDetailBytes <=? 255)%nat then [u8 (Z.of_nat (length coinDetailBytes))]
    else IntToBytes (Z.of_nat (length coinDetailBytes)) in
  enc ++ lenCoinDetailBytes ++ coinDetailBytes.

(** [b[lo:hi]] of the length found in [b[lo-2:lo]]. *)
Definition parse_details2 (b : list Z) (off : nat) (msg1 msg2 : string) : st PlainCoinV1 unit :=
  if (length b <? off + 2)%nat then st_fail msg1
  else
    let! lb := st_lift (slice b off (off + 2)) in
    let lenOutputCoin := Z.to_nat (BytesToInt lb) in
    let offset := (off + 2)%nat in
    if (length b <? offset + lenOutputCoin)%nat then st_fail msg2
    else
      let! data := st_lift (slice b offset (offset + lenOutputCoin)) in
      PlainCoinV1_SetBytes data.

(** One byte of length is tried first, then two. *)
Definition parse_details (b : list Z) (offset : nat) : st PlainCoinV1 unit := fun d =>
  match index b offset with
  | Ok l =>
      let lenOutputCoin := Z.to_nat l in
      if negb (l =? 0) then
        let offset := (offset + 1)%nat in
        if (length b <? offset + lenOutputCoin)%nat
        then (d, Err "out of range Parse output coin details 1")
        else
          match slice b offset (offset + lenOutputCoin) with
          | Ok data =>
              match PlainCoinV1_SetBytes data d with
              | (d, Err _) =>
                  parse_details2 b (offset - 1) "out of range Parse output coin details 2 "
                    "out of range Parse output coin details 3 " d
              | r => r
              end
          | _ => (d, Panic)
          end
      else parse_details2 b offset "out of range Parse output coin details 4"
             "out of range Parse output coin details 5" d
  | _ => (d, Panic)
  end.

Definition CoinV1_SetBytes (b : list Z) : st CoinV1 unit :=
  if (length b =? 0)%nat then st_fail "coinBytes is empty"
  else
    let! l := st_lift (index b 0) in
    let lenCoinDetailEncrypted := Z.to_nat l in
    let! offset :=
      if (0 <? lenCoinDetailEncrypted)%nat then
        if (length b <? 1 + lenCoinDetailEncrypted)%nat
        then st_fail "out of range Parse CoinDetailsEncrypted"
        else
          let! data := st_lift (slice b 1 (1 + lenCoinDetailEncrypted)) in
          fun c => match Hybrid_SetBytes data (mkHybrid [] []) with
                   | (e, r) => (mkCoinV1 (c1_CoinDetails c) (Some e),
                                let* _ := r in Ok (1 + lenCoinDetailEncrypted)%nat)
                   end
      else st_ret 1%nat in
    if (length b <=? offset)%nat then st_fail "out of range Parse CoinDetails"
    else
      let! _ := st_put (fun c => mkCoinV1 newPlainCoinV1 (c1_CoinDetailsEncrypted c)) in
      fun c => match parse_details b offset (c1_CoinDetails c) with
               | (d, r) => (mkCoinV1 d (c1_CoinDetailsEncrypted c), r)
               end.

(** [sKey], [iv] and [r] are the random values of [HybridEncrypt]; its result is
    stored with its error. *)
Definition CoinV1_Encrypt (sKey iv r recipientTK : list Z) : st CoinV1 unit := fun c =>
  match
    let* rand := deref (p1_randomness (c1_CoinDetails c)) in
    let msg := rand ++ bigint_bytes (p1_value (c1_CoinDetails c)) in
    let* pubKeyPoint := Point_FromBytesS recipientTK in
    Ok (HybridEncrypt sKey iv r msg pubKeyPoint)
  with
  | Ok (Ok e) => (mkCoinV1 (c1_CoinDetails c) (Some e), Ok tt)
  | Ok (Err m) => (mkCoinV1 (c1_CoinDetails c) None, Err m)
  | Ok Panic | Panic => (c, Panic)
  | Ok OutOfFuel | OutOfFuel => (c, OutOfFuel)
  | Err m => (c, Err m)
  end.

(** The commitment a decrypted coin should have, summed up in the order of the
    code. *)
Definition expected_commitment (d : PlainCoinV1) : res (list Z) :=
  let* shardID := res_wrap "cannot get shardID of coin" (PlainCoinV1_GetShardID d) in
  let* g1 := index PedG PedersenValueIndex in
  let* v := Scalar_FromUint64 (p1_value d) in
  let tmpCmt := Point_ScalarMult g1 v in
  let* g2 := index PedG PedersenSndIndex in
  let* sn := deref (p1_snDerivator d) in
  let tmpCmt := Point_Add tmpCmt (Point_ScalarMult g2 sn) in
  let* g3 := index PedG PedersenShardIDIndex in
  let* sh := Scalar_FromUint64 shardID in
  let tmpCmt := Point_Add tmpCmt (Point_ScalarMult g3 sh) in
  let* g4 := index PedG PedersenRandomnessIndex in
  let* rand := deref (p1_randomness d) in
  let tmpCmt := Point_Add tmpCmt (Point_ScalarMult g4 rand) in
  let* pk := deref (p1_publicKey d) in
  Ok (Point_Add tmpCmt pk).

(** Randomness and value are written before the commitment is tested. *)
Definition decrypt_details (viewKey : ViewingKey) (e : HybridCipherText) : st PlainCoinV1 unit :=
  let! msg := st_lift (HybridDecrypt e (Scalar_FromBytesS (vk_Rk viewKey))) in
  let! head := st_lift (slice msg 0 Ed25519KeySize) in
  let! _ := st_put (p1_SetRandomness (Some (Scalar_FromBytesS head))) in
  let! tail := st_lift (slice msg Ed25519KeySize (length msg)) in
  let! _ := st_put (p1_SetValue (u64 (bigint_set_bytes tail))) in
  fun d => (d, let* tmpCmt := expected_commitment d in
               let* com := deref (p1_commitment d) in
               if negb (IsPointEqual tmpCmt com) then Err "expected commitment" else Ok tt).

Definition CoinV1_Decrypt (keySet : option KeySet) (c : CoinV1) : PlainCoinV1 * res PlainCoinV1 :=
  let d := c1_CoinDetails c in
  match keySet with
  | None => (d, Err "cannot decrypt coinv1 with empty key")
  | Some ks =>
      if (length (vk_Rk (ks_ReadonlyKey ks)) =? 0)%nat && (length (ks_PrivateKey ks) =? 0)%nat
      then (d, Err "cannot Decrypt CoinV1: Keyset does not contain viewkey or privatekey")
      else
        match p1_publicKey d with
        | None => (d, Panic)
        | Some pk =>
            if bool_decide (pk = pa_Pk (ks_PaymentAddress ks)) then
              (let! _ :=
                 match c1_CoinDetailsEncrypted c with
                 | Some e =>
                     if negb (Hybrid_IsNil e) && (0 <? length (vk_Rk (ks_ReadonlyKey ks)))%nat
                     then decrypt_details (ks_ReadonlyKey ks) e
                     else st_ret tt
                 | None => st_ret tt
                 end in
               let! _ :=
                 if (0 <? length (ks_PrivateKey ks))%nat then
                   fun d => match PlainCoinV1_ParseKeyImageWithPrivateKey (ks_PrivateKey ks) d with
                            | Ok keyImage => (p1_SetKeyImage (Some keyImage) d, Ok tt)
                            | Err m => (d, Err m)
                            | Panic => (d, Panic)
                            | OutOfFuel => (d, OutOfFuel)
                            end
                 else st_ret tt in
               fun d => (d, Ok d)) d
            else (d, Err "coin publicKey does not equal keyset paymentAddress")
        end
  end.

Definition CoinV1_CheckCoinValid (paymentAdd : PaymentAddress) (amount : Z) (c : CoinV1) : res bool :=
  let* pk := deref (p1_publicKey (c1_CoinDetails c)) in
  let* spend := deref (PaymentAddress_GetPublicSpend paymentAdd) in
  Ok (bool_decide (pk = spend) && (amount =? p1_value (c1_CoinDetails c))).

Definition CoinV1_DoesCoinBelongToKeySet (keySet : KeySet) (c : CoinV1) : res bool :=
  PlainCoinV1_DoesCoinBelongToKeySet keySet (c1_CoinDetails c).

(** ** coin.go: the dispatch on the version byte *)

Inductive PlainCoin :=
| PlainV1 (c : PlainCoinV1)
| PlainV2 (c : CoinV2).

(** The methods of the interface. *)
Definition PlainCoin_GetVersion (c : PlainCoin) : Z :=
  match c with PlainV1 _ => 1 | PlainV2 _ => 2 end.
Definition PlainCoin_GetPublicKey (c : PlainCoin) : option (list Z) :=
  match c with PlainV1 c => p1_publicKey c | PlainV2 c => c2_publicKey c end.
Definition PlainCoin_GetKeyImage (c : PlainCoin) : option (list Z) :=
  match c with PlainV1 c => p1_serialNumber c | PlainV2 c => c2_keyImage c end.
Definition PlainCoin_GetSNDerivator (c : PlainCoin) : option (list Z) :=
  match c with PlainV1 c => p1_snDerivator c | PlainV2 _ => None end.
Definition PlainCoin_GetRandomness (c : PlainCoin) : option (list Z) :=
  match c with PlainV1 c => p1_randomness c | PlainV2 c => c2_mask c end.
Definition PlainCoin_GetValue (c : PlainCoin) : res Z :=
  match c with PlainV1 c => Ok (p1_value c) | PlainV2 c => CoinV2_GetValue c end.
Definition PlainCoin_Bytes (c : PlainCoin) : list Z :=
  match c with PlainV1 c => PlainCoinV1_Bytes c | PlainV2 c => CoinV2_Bytes c end.

(** [ConcealOutputCoin(nil)] *)
Definition PlainCoin_Conceal (c : PlainCoin) : res PlainCoin :=
  match c with
  | PlainV1 c => Ok (PlainV1 (PlainCoinV1_ConcealOutputCoin c))
  | PlainV2 c => let '(c, r) := CoinV2_ConcealOutputCoin None c in let* _ := r in Ok (PlainV2 c)
  end.

Definition CoinVersion2 : Z := 2.

(** The coin is returned with the error. *)
Definition NewPlainCoinFromByte (b : list Z) : PlainCoin * res unit :=
  let version := match b with v :: _ => v | [] => CoinVersion2 end in
  if version =? CoinVersion2
  then let '(c, r) := CoinV2_SetBytes b newCoinV2 in (PlainV2 c, r)
  else let '(c, r) := PlainCoinV1_SetBytes b newPlainCoinV1 in (PlainV1 c, r).
End coin1.

(** ** Lemmas on the serialization *)

Section plain.
Context `{CO : CurveOps} `{DG : Digests} `{BC : BlockCipher}.

Definition plain1_ok (c : PlainCoinV1) : Prop :=
  opt_point (p1_publicKey c) /\ opt_point (p1_commitment c) /\ opt_scalar (p1_snDerivator c) /\
  opt_point (p1_serialNumber c) /\ opt_scalar (p1_randomness c) /\ is_u64 (p1_value c) /\
  bytes_ok (p1_info c).

(** What [SetBytes] stores in the receiver [c0]: a value of 0 is not written. *)
Definition stored_plain (c c0 : PlainCoinV1) : PlainCoinV1 :=
  mkPlainCoinV1 (p1_publicKey c) (p1_commitment c) (p1_snDerivator c) (p1_serialNumber c)
    (p1_randomness c) (if 0 <? p1_value c then p1_value c else p1_value c0)
    (take MaxSizeInfoCoin (p1_info c)).

Lemma bigint_bytes_u64 v : is_u64 v -> 0 < v ->
  (1 <= length (bigint_bytes v) <= 8)%nat /\ u64 (bigint_set_bytes (bigint_bytes v)) = v.
Proof using Type.
  unfold is_u64. intros Hv Hpos. unfold bigint_bytes, bigint_set_bytes, u64. rewrite Z.abs_eq by lia.
  destruct (to_digits_spec 256 ltac:(lia) v ltac:(lia)) as (E & _ & _). rewrite E.
  rewrite Z.mod_small by lia. split; [|done]. split.
  - destruct (to_digits 256 v); [unfold of_digits in E; simpl in E; lia|simpl; lia].
  - apply (to_digits_length 256); [lia|]. change (256 ^ Z.of_nat 8) with (2 ^ 64). lia.
Qed.

Lemma parse_value_at b pre v suf c : b = pre ++ value_field v ++ suf -> is_u64 v ->
  parse_value b (length pre) c =
  (p1_SetValue (if 0 <? v then v else p1_value c) c, Ok (length (pre ++ value_field v))).
Proof using Type.
  intros -> Hv. unfold parse_value, value_field.
  destruct (Z.ltb_spec 0 v) as [Hpos|Hneg].
  - destruct (bigint_bytes_u64 v Hv Hpos) as [Hl Eb]. set (w := bigint_bytes v) in *.
    assert (u8 (Z.of_nat (length w)) = Z.of_nat (length w)) as -> by (unfold u8; apply Z.mod_small; lia).
    rewrite !length_app. cbn [length app].
    bounds. unfold st_bind, st_lift, st_put, st_ret. rewrite index_middle by done.
    destruct (Z.eqb_spec (Z.of_nat (length w)) 0); [lia|]. cbn [negb]. rewrite Nat2Z.id. bounds.
    replace (pre ++ Z.of_nat (length w) :: w ++ suf) with ((pre ++ [Z.of_nat (length w)]) ++ w ++ suf)
      by (by rewrite <- app_assoc).
    rewrite slice_app_mid by (rewrite length_app; cbn [length]; lia). rewrite Eb.
    do 2 f_equal. lia.
  - rewrite !length_app. cbn [length app].
    bounds.
    unfold st_bind, st_lift, st_ret. rewrite index_middle by done. cbn [Z.eqb negb].
    by destruct c.
Qed.

Lemma info_bytes_eq info :
  info_bytes info = Z.of_nat (length (take MaxSizeInfoCoin info)) :: take MaxSizeInfoCoin info.
Proof using Type.
  unfold info_bytes. destruct info as [|x info]; [reflexivity|]. set (l := x :: info).
  change (0 <? length l)%nat with true. cbv iota zeta. rewrite getMin_min, length_take. unfold MaxSizeInfoCoin, u8.
  rewrite Z.mod_small by lia. f_equal; [f_equal; lia|].
  destruct (Nat.le_gt_cases (length l) 255).
  - rewrite Nat.min_l by lia. by rewrite !take_ge by lia.
  - by rewrite Nat.min_r by lia.
Qed.

Lemma opt_field_length o : opt_scalar o -> (1 <= length (opt_field o) <= 33)%nat.
Proof using Type. destruct o as [k|]; cbn; [|lia]. intros [Hl _]. unfold Ed25519KeySize in Hl. lia. Qed.

Lemma opt_point_scalar o : opt_point o -> opt_scalar o.
Proof using Type. destruct o; [|done]. apply proj1. Qed.

Lemma value_field_length v : is_u64 v -> (1 <= length (value_field v) <= 9)%nat.
Proof using Type.
  intros Hv. unfold value_field. destruct (Z.ltb_spec 0 v); [|cbn; lia].
  destruct (bigint_bytes_u64 v) as [Hl _]; [done..|]. cbn [length]. lia.
Qed.

Lemma PlainCoinV1_Bytes_length c : plain1_ok c -> (7 <= length (PlainCoinV1_Bytes c) <= 430)%nat.
Proof using Type.
  intros (Hp & Hc & Hs & Hn & Hr & Hv & _). unfold PlainCoinV1_Bytes.
  rewrite info_bytes_eq, !length_app. cbn [length]. rewrite length_take. unfold MaxSizeInfoCoin.
  apply opt_point_scalar in Hp, Hc, Hn.
  pose proof (opt_field_length _ Hp). pose proof (opt_field_length _ Hc).
  pose proof (opt_field_length _ Hs). pose proof (opt_field_length _ Hn).
  pose proof (opt_field_length _ Hr). pose proof (value_field_length _ Hv). lia.
Qed.

Lemma PlainCoinV1_SetBytes_Bytes c c0 : plain1_ok c ->
  PlainCoinV1_SetBytes (PlainCoinV1_Bytes c) c0 = (stored_plain c c0, Ok tt).
Proof using Type.
  intros Hok. pose proof (PlainCoinV1_Bytes_length c Hok) as Hlen.
  destruct Hok as (Hpk & Hcom & Hsn & Hki & Hr & Hv & Hi).
  assert (PlainCoinV1_Bytes c = [] ++ opt_field (p1_publicKey c) ++ opt_field (p1_commitment c) ++
    opt_field (p1_snDerivator c) ++ opt_field (p1_serialNumber c) ++ opt_field (p1_randomness c) ++
    value_field (p1_value c) ++ info_bytes (p1_info c)) as Hb by reflexivity.
  rewrite info_bytes_eq in Hb. unfold stored_plain.
  set (b := PlainCoinV1_Bytes c) in *. clearbody b.
  destruct c as [pk com sn ki r v info].
  cbn [p1_publicKey p1_commitment p1_snDerivator p1_serialNumber p1_randomness p1_value p1_info] in *.
  set (inf := take MaxSizeInfoCoin info) in *. clearbody inf.
  unfold PlainCoinV1_SetBytes. destruct (Nat.eqb_spec (length b) 0); [lia|].
  change 0%nat with (length (@nil Z)).
  erewrite st_bind_ok; [|apply st_assign_ok, (parsePoint_at b [] pk _ Hb Hpk)].
  rewrite app_assoc in Hb. set (P1 := [] ++ opt_field pk) in *. clearbody P1.
  erewrite st_bind_ok; [|apply st_assign_ok, (parsePoint_at b P1 com _ Hb Hcom)].
  rewrite app_assoc in Hb. set (P2 := P1 ++ opt_field com) in *. clearbody P2.
  erewrite st_bind_ok; [|apply st_assign_ok, (parseScalar_at b P2 sn _ Hb Hsn)].
  rewrite app_assoc in Hb. set (P3 := P2 ++ opt_field sn) in *. clearbody P3.
  erewrite st_bind_ok; [|apply st_assign_ok, (parsePoint_at b P3 ki _ Hb Hki)].
  rewrite app_assoc in Hb. set (P4 := P3 ++ opt_field ki) in *. clearbody P4.
  erewrite st_bind_ok; [|apply st_assign_ok, (parseScalar_at b P4 r _ Hb Hr)].
  rewrite app_assoc in Hb. set (P5 := P4 ++ opt_field r) in *. clearbody P5.
  erewrite st_bind_ok; [|apply (parse_value_at b P5 v _ _ Hb Hv)].
  rewrite app_assoc in Hb. set (P6 := P5 ++ value_field v) in *. clearbody P6.
  erewrite st_bind_ok.
  2: { apply st_assign_ok, (parseInfo_field b P6 inf []); [by rewrite app_nil_r|done]. }
  reflexivity.
Qed.

Lemma parse_value_safe b off : st_safe (parse_value b off).
Proof using Type.
  unfold parse_value. destruct (Nat.leb_spec (length b) off); [apply st_fail_safe|].
  apply st_bind_safe.
  { apply st_lift_safe. destruct (index_safe b off) as (x & -> & _); [lia|done]. }
  intros l. destruct (negb _); [|done].
  destruct (Nat.ltb_spec (length b) (off + 1 + Z.to_nat l)); [apply st_fail_safe|].
  apply st_bind_safe; [|auto with safe].
  - apply st_lift_safe. destruct (slice_safe b (off + 1) (off + 1 + Z.to_nat l)) as (d & -> & _); [lia|done].
  - intros d. apply st_bind_safe; [auto with safe|done].
Qed.

Lemma PlainCoinV1_SetBytes_safe b : st_safe (PlainCoinV1_SetBytes b).
Proof using Type.
  unfold PlainCoinV1_SetBytes. destruct (_ =? _)%nat; [apply st_fail_safe|].
  repeat (apply st_bind_safe; [auto using parse_value_safe with safe|intros ?]). done.
Qed.

Lemma parse_details2_safe b off m1 m2 : st_safe (parse_details2 b off m1 m2).
Proof using Type.
  unfold parse_details2. destruct (Nat.ltb_spec (length b) (off + 2)); [apply st_fail_safe|].
  destruct (slice_safe b off (off + 2)) as (lb & -> & _); [lia|].
  apply st_bind_safe; [done|]. intros l.
  destruct (Nat.ltb_spec (length b) (off + 2 + Z.to_nat (BytesToInt l))); [apply st_fail_safe|].
  destruct (slice_safe b (off + 2) (off + 2 + Z.to_nat (BytesToInt l))) as (d & -> & _); [lia|].
  apply st_bind_safe; [done|]. intros ?. apply PlainCoinV1_SetBytes_safe.
Qed.

Lemma parse_details_safe b off : (off < length b)%nat -> st_safe (parse_details b off).
Proof using Type.
  intros Hoff d. unfold parse_details. destruct (index_safe b off) as (l & -> & _); [lia|].
  destruct (negb _); [|apply parse_details2_safe].
  destruct (Nat.ltb_spec (length b) (off + 1 + Z.to_nat l)); [done|].
  destruct (slice_safe b (off + 1) (off + 1 + Z.to_nat l)) as (x & -> & _); [lia|].
  pose proof (PlainCoinV1_SetBytes_safe x d) as Hs.
  destruct (PlainCoinV1_SetBytes x d) as [d' [[]| | |]]; try done. apply parse_details2_safe.
Qed.

(** The first guess of the length fails: one byte is not the details. *)
Lemma PlainCoinV1_SetBytes_one x : is_byte x ->
  exists m, PlainCoinV1_SetBytes [x] newPlainCoinV1 = (newPlainCoinV1, Err m).
Proof using Type.
  intros Hx. unfold PlainCoinV1_SetBytes. cbn [length Nat.eqb].
  unfold parsePointForSetBytes at 1. cbn [length Nat.leb index lookup list_lookup res_bind].
  destruct (Z.eqb_spec x 0) as [->|Hn]; cbn [negb].
  - eexists. reflexivity.
  - destruct (Nat.ltb_spec 1 (0 + 1 + Z.to_nat x)) as [_|Hle]; [|unfold is_byte in Hx; lia].
    eexists. reflexivity.
Qed.

Lemma two_byte_length n : 256 <= n < 512 ->
  IntToBytes n = [1; n - 256] /\ BytesToInt [1; n - 256] = n.
Proof using Type.
  intros Hn. split.
  - rewrite IntToBytes_small by lia. cbn [be_bytes app].
    assert (n / 256 = 1) as -> by (symmetry; apply (Z.div_unique _ _ _ (n - 256)); lia).
    f_equal. f_equal. symmetry. apply (Z.mod_unique _ _ 1); lia.
  - unfold BytesToInt. cbn [length Nat.eqb negb]. unfold bigint_set_bytes, of_digits.
    cbn [fold_left]. unfold i64. rewrite Z.mod_small by lia. lia.
Qed.

Lemma parse_details_at b pre c : b = pre ++
    (if (length (PlainCoinV1_Bytes c) <=? 255)%nat
     then [u8 (Z.of_nat (length (PlainCoinV1_Bytes c)))]
     else IntToBytes (Z.of_nat (length (PlainCoinV1_Bytes c)))) ++ PlainCoinV1_Bytes c ->
  plain1_ok c ->
  parse_details b (length pre) newPlainCoinV1 = (stored_plain c newPlainCoinV1, Ok tt).
Proof using Type.
  intros Hb Hok. pose proof (PlainCoinV1_Bytes_length c Hok) as Hlen.
  pose proof (PlainCoinV1_SetBytes_Bytes c newPlainCoinV1 Hok) as Hset.
  set (w := PlainCoinV1_Bytes c) in *. clearbody w. unfold parse_details.
  destruct (Nat.leb_spec (length w) 255) as [Hs|Hs].
  - assert (u8 (Z.of_nat (length w)) = Z.of_nat (length w)) as E by (unfold u8; apply Z.mod_small; lia).
    rewrite E in Hb. cbn [app] in Hb.
    assert (length b = length pre + 1 + length w)%nat as Hlb
      by (rewrite Hb, length_app; cbn [length]; lia).
    assert (index b (length pre) = Ok (Z.of_nat (length w))) as -> by (rewrite Hb; by apply index_middle).
    destruct (Z.eqb_spec (Z.of_nat (length w)) 0); [lia|]. cbn [negb]. rewrite Nat2Z.id.
    destruct (Nat.ltb_spec (length b) (length pre + 1 + length w)); [lia|].
    assert (slice b (length pre + 1) (length pre + 1 + length w) = Ok w) as ->.
    { rewrite Hb. replace (pre ++ Z.of_nat (length w) :: w)
        with ((pre ++ [Z.of_nat (length w)]) ++ w ++ []) by (by rewrite app_nil_r, <- app_assoc).
      apply slice_app_mid; rewrite length_app; cbn [length]; lia. }
    by rewrite Hset.
  - destruct (two_byte_length (Z.of_nat (length w)) ltac:(lia)) as [E1 E2].
    rewrite E1 in Hb. set (x := Z.of_nat (length w) - 256) in *. cbn [app] in Hb.
    assert (length b = length pre + 2 + length w)%nat as Hlb
      by (rewrite Hb, length_app; cbn [length]; lia).
    assert (index b (length pre) = Ok 1) as -> by (rewrite Hb; by apply index_middle).
    cbn [Z.eqb negb]. change (Z.to_nat 1) with 1%nat.
    destruct (Nat.ltb_spec (length b) (length pre + 1 + 1)); [lia|].
    assert (slice b (length pre + 1) (length pre + 1 + 1) = Ok [x]) as ->.
    { rewrite Hb. replace (pre ++ 1 :: x :: w) with ((pre ++ [1]) ++ [x] ++ w)
        by (by rewrite <- app_assoc).
      apply slice_app_mid; rewrite length_app; cbn [length]; lia. }
    destruct (PlainCoinV1_SetBytes_one x) as [m ->]; [unfold is_byte, x; lia|].
    replace (length pre + 1 - 1)%nat with (length pre) by lia.
    unfold parse_details2. destruct (Nat.ltb_spec (length b) (length pre + 2)); [lia|].
    assert (slice b (length pre) (length pre + 2) = Ok [1; x]) as ->.
    { rewrite Hb. change (pre ++ 1 :: x :: w) with (pre ++ [1; x] ++ w).
      apply slice_app_mid; cbn [length]; lia. }
    unfold st_bind, st_lift. rewrite E2, Nat2Z.id.
    destruct (Nat.ltb_spec (length b) (length pre + 2 + length w)); [lia|].
    assert (slice b (length pre + 2) (length pre + 2 + length w) = Ok w) as ->.
    { rewrite Hb. replace (pre ++ 1 :: x :: w) with ((pre ++ [1; x]) ++ w ++ [])
        by (by rewrite app_nil_r, <- app_assoc).
      apply slice_app_mid; rewrite length_app; cbn [length]; lia. }
    exact Hset.
Qed.
End plain.

(** ** Properties *)

Section properties.
Context `{CL : CurveLaws} `{DL : DigestLaws} `{BL : BlockCipherLaws}.

(** A ciphertext that [Bytes] can write with one byte of length. *)
Definition enc_ok (o : option HybridCipherText) : Prop :=
  match o with
  | Some e => Hybrid_IsNil e = true \/
              (length (hy_symKey e) = 64%nat /\ (length (Hybrid_Bytes e) <= 255)%nat)
  | None => True
  end.

(** An empty ciphertext is not written, and then the receiver keeps its own. *)
Definition stored_enc (o o0 : option HybridCipherText) : option HybridCipherText :=
  match o with
  | Some e => if Hybrid_IsNil e then o0 else Some e
  | None => o0
  end.

Lemma CoinV1_SetBytes_Bytes c c0 : plain1_ok (c1_CoinDetails c) ->
  enc_ok (c1_CoinDetailsEncrypted c) ->
  CoinV1_SetBytes (CoinV1_Bytes c) c0 =
  (mkCoinV1 (stored_plain (c1_CoinDetails c) newPlainCoinV1)
     (stored_enc (c1_CoinDetailsEncrypted c) (c1_CoinDetailsEncrypted c0)), Ok tt).
Proof using Type.
  intros Hd He. destruct c as [d enc]. cbn [c1_CoinDetails c1_CoinDetailsEncrypted] in *.
  pose proof (PlainCoinV1_Bytes_length d Hd) as Hlen.
  unfold CoinV1_Bytes. cbn [c1_CoinDetails c1_CoinDetailsEncrypted].
  set (E := match enc with Some e => Hybrid_Bytes e | None => [] end).
  assert (match enc with Some e => u8 (Z.of_nat (length (Hybrid_Bytes e))) :: Hybrid_Bytes e
          | None => [0] end = Z.of_nat (length E) :: E /\ (length E <= 255)%nat) as [-> HE].
  { unfold E. destruct enc as [e|]; [|simpl; split; [done|lia]].
    assert (length (Hybrid_Bytes e) <= 255)%nat.
    { destruct He as [Hnil|[_ Hl]]; [|done]. unfold Hybrid_Bytes. rewrite Hnil. simpl. lia. }
    split; [|done]. f_equal. unfold u8. by rewrite Z.mod_small by lia. }
  set (Ld := if (length (PlainCoinV1_Bytes d) <=? 255)%nat
             then [u8 (Z.of_nat (length (PlainCoinV1_Bytes d)))]
             else IntToBytes (Z.of_nat (length (PlainCoinV1_Bytes d)))).
  set (b := (Z.of_nat (length E) :: E) ++ Ld ++ PlainCoinV1_Bytes d).
  pose proof (parse_details_at b (Z.of_nat (length E) :: E) d eq_refl Hd) as Hp.
  assert (S (length E) + 7 <= length b)%nat as Hb
    by (unfold b; rewrite !length_app; cbn [length]; lia).
  cbn [length] in Hp. unfold CoinV1_SetBytes. bounds.
  assert (index b 0 = Ok (Z.of_nat (length E))) as Ei by reflexivity.
  unfold st_bind at 1, st_lift at 1. rewrite Ei, Nat2Z.id.
  assert (slice b 1 (1 + length E) = Ok E) as Es.
  { unfold b. change ((Z.of_nat (length E) :: E) ++ Ld ++ PlainCoinV1_Bytes d)
      with ([Z.of_nat (length E)] ++ E ++ (Ld ++ PlainCoinV1_Bytes d)).
    apply slice_app_mid; cbn [length]; lia. }
  destruct (Nat.ltb_spec 0 (length E)) as [Hpos|Hz].
  - destruct enc as [e|]; [|simpl in Hpos; lia]. unfold E in Hpos.
    assert (Hybrid_IsNil e = false) as Hnil.
    { unfold Hybrid_Bytes in Hpos. destruct (Hybrid_IsNil e); [simpl in Hpos; lia|done]. }
    destruct He as [Hnil'|[Hsym _]]; [by rewrite Hnil in Hnil'|].
    assert (E = hy_symKey e ++ hy_msg e) as HeE by (unfold E, Hybrid_Bytes; by rewrite Hnil).
    assert (Hybrid_SetBytes E (mkHybrid [] []) = (e, Ok tt)) as Hset.
    { rewrite HeE. unfold Hybrid_SetBytes, elGamalCiphertextSize. rewrite length_app, Hsym. bounds.
      rewrite drop_app_length', take_app_length' by done. by destruct e. }
    bounds. unfold st_bind, st_lift, st_put. rewrite Es, Hset. cbn [res_bind].
    bounds. cbn [c1_CoinDetails]. cbn [Nat.add] in *. rewrite Hp. unfold stored_enc. by rewrite Hnil.
  - assert (stored_enc enc (c1_CoinDetailsEncrypted c0) = c1_CoinDetailsEncrypted c0) as ->.
    { destruct enc as [e|]; [|done]. unfold stored_enc. unfold E, Hybrid_Bytes in Hz.
      destruct (Hybrid_IsNil e) eqn:Hnil; [done|]. destruct He as [?|[Hsym _]]; [congruence|].
      rewrite length_app in Hz. lia. }
    assert (length E = 0)%nat as HE0 by lia. rewrite HE0 in Hp.
    unfold st_bind, st_ret, st_put. bounds. cbn [c1_CoinDetails c1_CoinDetailsEncrypted].
    by rewrite Hp.
Qed.

Lemma CoinV1_SetBytes_safe b : st_safe (CoinV1_SetBytes b).
Proof using Type.
  unfold CoinV1_SetBytes. destruct (Nat.eqb_spec (length b) 0); [apply st_fail_safe|].
  apply st_bind_safe.
  { apply st_lift_safe. destruct (index_safe b 0) as (x & -> & _); [lia|done]. }
  intros l. apply st_bind_safe.
  - destruct (0 <? Z.to_nat l)%nat; [|done].
    destruct (Nat.ltb_spec (length b) (1 + Z.to_nat l)); [apply st_fail_safe|].
    destruct (slice_safe b 1 (1 + Z.to_nat l)) as (x & -> & _); [lia|].
    apply st_bind_safe; [done|]. intros data c. unfold Hybrid_SetBytes.
    destruct (_ =? _)%nat; [done|]. by destruct (_ <? _)%nat.
  - intros off. destruct (Nat.leb_spec (length b) off); [apply st_fail_safe|].
    apply st_bind_safe; [apply st_put_safe|]. intros _ c.
    pose proof (parse_details_safe b off ltac:(lia) (c1_CoinDetails c)) as Hs.
    by destruct (parse_details b off (c1_CoinDetails c)).
Qed.

(** The wire format of a coin of version 1.  [SetBytes] reads back, in any
    receiver, what [Bytes] wrote, the details being longer than 255 bytes (two
    bytes of length) or not: the first guess of a one-byte length always fails
    on the two-byte form.  An empty ciphertext and a value of 0 leave what the
    receiver had.  The bytes of plain coins of both versions are told apart by
    their first byte. *)
Theorem CoinV1_roundtrip c c0 d2 :
  plain1_ok (c1_CoinDetails c) -> enc_ok (c1_CoinDetailsEncrypted c) -> coinV2_ok d2 ->
  CoinV1_SetBytes (CoinV1_Bytes c) c0 =
    (mkCoinV1 (stored_plain (c1_CoinDetails c) newPlainCoinV1)
       (stored_enc (c1_CoinDetailsEncrypted c) (c1_CoinDetailsEncrypted c0)), Ok tt) /\
  ((length (p1_info (c1_CoinDetails c)) <= 255)%nat ->
   stored_plain (c1_CoinDetails c) newPlainCoinV1 = c1_CoinDetails c) /\
  NewPlainCoinFromByte (PlainCoinV1_Bytes (c1_CoinDetails c)) =
    (PlainV1 (stored_plain (c1_CoinDetails c) newPlainCoinV1), Ok tt) /\
  NewPlainCoinFromByte (CoinV2_Bytes d2) = (PlainV2 (stored_coin d2 newCoinV2), Ok tt).
Proof using Type.
  intros Hd He H2'. split; [by apply CoinV1_SetBytes_Bytes|]. split; [|split].
  - intros Hl. destruct Hd as (_ & _ & _ & _ & _ & Hv & _). unfold stored_plain, MaxSizeInfoCoin.
    rewrite take_ge by exact Hl. destruct (c1_CoinDetails c) as [a b e f g v i].
    cbn [p1_publicKey p1_commitment p1_snDerivator p1_serialNumber p1_randomness p1_value p1_info
         newPlainCoinV1] in *. f_equal. unfold is_u64 in Hv. destruct (Z.ltb_spec 0 v); lia.
  - unfold NewPlainCoinFromByte. rewrite (PlainCoinV1_SetBytes_Bytes _ _ Hd).
    unfold PlainCoinV1_Bytes. by destruct (p1_publicKey (c1_CoinDetails c)).
  - unfold NewPlainCoinFromByte. by rewrite (CoinV2_SetBytes_Bytes d2 newCoinV2 H2').
Qed.

(** Parsing a coin of version 1 never panics, whatever the bytes. *)
Theorem CoinV1_SetBytes_no_panic b c p :
  res_safe (snd (CoinV1_SetBytes b c)) /\ res_safe (snd (PlainCoinV1_SetBytes b p)) /\
  res_safe (snd (NewPlainCoinFromByte b)).
Proof using Type.
  split; [apply CoinV1_SetBytes_safe|]. split; [apply PlainCoinV1_SetBytes_safe|].
  unfold NewPlainCoinFromByte. destruct (_ =? _).
  - pose proof (CoinV2_SetBytes_safe b newCoinV2) as Hs. by destruct (CoinV2_SetBytes b newCoinV2).
  - pose proof (PlainCoinV1_SetBytes_safe b newPlainCoinV1) as Hs.
    by destruct (PlainCoinV1_SetBytes b newPlainCoinV1).
Qed.

(** *** Encrypting and decrypting *)

Lemma PedG_list : exists g0 g1 g2 g3 g4, PedG = [g0; g1; g2; g3; g4] /\ Forall pt_ok [g0; g1; g2; g3; g4].
Proof using CL DL.
  destruct PedG_ok as [Hg Hl]. destruct PedG as [|g0 [|g1 [|g2 [|g3 [|g4 [|]]]]]]; try discriminate Hl.
  by exists g0, g1, g2, g3, g4.
Qed.

(** The two ways to sum a commitment up agree. *)
Lemma commit_expected d d1 pk sn r :
  p1_publicKey d = Some pk -> p1_snDerivator d = Some sn -> p1_randomness d = Some r ->
  pt_ok pk -> sc_ok sn -> sc_ok r -> is_u64 (p1_value d) ->
  PlainCoinV1_CommitAll d = Ok d1 ->
  exists com, d1 = p1_SetCommitment (Some com) d /\ expected_commitment d1 = Ok com.
Proof using CL DL.
  intros Epk Esn Er Hpk Hsn Hr Hv. destruct PedG_list as (g0 & g1 & g2 & g3 & g4 & EG & HG).
  inversion_clear HG as [|? ? G0 HG1]. inversion_clear HG1 as [|? ? G1 HG2].
  inversion_clear HG2 as [|? ? G2 HG3]. inversion_clear HG3 as [|? ? G3 HG4].
  inversion_clear HG4 as [|? ? G4 _].
  destruct (FromUint64_ok 0) as [E0 S0]; [unfold is_u64; lia|].
  destruct (FromUint64_ok (p1_value d) Hv) as [E1 S1].
  unfold PlainCoinV1_CommitAll. rewrite Esn, Er.
  unfold PlainCoinV1_GetShardID at 1. rewrite Epk.
  destruct (index pk (Ed25519KeySize - 1)) as [b| | |] eqn:Eb; try discriminate.
  cbn [res_bind]. rewrite E0. cbn [res_bind]. rewrite E1. cbn [res_bind].
  set (sh := GetShardIDFromLastByte b).
  assert (is_u64 sh) as Hsh.
  { unfold sh, GetShardIDFromLastByte, u8, is_u64. pose proof (Z.mod_pos_bound (Z.rem b MaxShardNumber) (2 ^ 8)). lia. }
  destruct (FromUint64_ok sh Hsh) as [E3 S3]. rewrite E3. cbn [deref res_bind].
  unfold CommitAll. rewrite EG. cbn [length Nat.eqb negb].
  unfold index. cbn [lookup list_lookup res_bind drop zip zip_with fold_left fst snd].
  intros [= <-]. eexists. split; [reflexivity|].
  unfold expected_commitment, PlainCoinV1_GetShardID. cbn [p1_SetCommitment p1_publicKey p1_value
    p1_snDerivator p1_randomness]. rewrite Epk, Eb. cbn [res_wrap res_bind].
  rewrite EG. unfold index. cbn [lookup list_lookup res_bind PedersenValueIndex PedersenSndIndex
    PedersenShardIDIndex PedersenRandomnessIndex]. rewrite E1. cbn [res_bind]. rewrite Esn.
  cbn [deref res_bind]. fold sh. rewrite E3. cbn [res_bind]. rewrite Er. cbn [deref res_bind].
  unfold Point_Add, Point_ScalarMult. rewrite (mult_zero g0 G0).
  rewrite (add_comm Identity) by (try apply pt_identity; by apply pt_mult).
  by rewrite add_identity by (by apply pt_mult).
Qed.

(** The private coins of version 1.  Of a coin whose commitment was made with
    [CommitAll], let [Encrypt] make the ciphertext for the view key [x], and
    let randomness and value then be replaced by anything: [Decrypt] with a
    key set of the owner that holds [x] (but no private key) gives back the
    coin, with its commitment checked. *)
Lemma CoinV1_decrypt_encrypt d d1 enc pk sn rand sKey iv nonce x ks r' v' :
  p1_publicKey d = Some pk -> p1_snDerivator d = Some sn -> p1_randomness d = Some rand ->
  pt_ok pk -> sc_ok sn -> sc_ok rand -> is_u64 (p1_value d) ->
  pt_ok sKey -> length iv = BlockSize -> sc_ok nonce -> ScalarMultKey GBASE nonce <> Identity ->
  view_only x ks -> pa_Pk (ks_PaymentAddress ks) = pk ->
  PlainCoinV1_CommitAll d = Ok d1 ->
  exists c1, CoinV1_Encrypt sKey iv nonce (ScalarMultKey GBASE x) (mkCoinV1 d1 enc) = (c1, Ok tt) /\
    CoinV1_Decrypt (Some ks)
      (mkCoinV1 (p1_SetValue v' (p1_SetRandomness r' (c1_CoinDetails c1))) (c1_CoinDetailsEncrypted c1))
    = (d1, Ok d1).
Proof using CL DL BL.
  intros Epk Esn Er Hpk Hsn Hr Hv Hk Hiv Hn Hid (Hsk & Hrk & Hx) Eown Ecom.
  destruct (commit_expected d d1 pk sn rand Epk Esn Er Hpk Hsn Hr Hv Ecom) as (com & -> & Eexp).
  set (d1 := p1_SetCommitment (Some com) d) in *.
  set (msg := rand ++ bigint_bytes (p1_value d)).
  pose proof (proj1 (proj1 Hr)) as Hrl. unfold Ed25519KeySize in Hrl.
  assert (msg <> []) as Hmsg by (unfold msg; destruct rand; [discriminate Hrl|discriminate]).
  destruct (hybrid_decrypt_encrypt sKey iv nonce msg x Hk Hiv Hn Hx Hmsg Hid)
    as (e & Ee & Hnil & _ & _ & Ed).
  assert (pt_ok (ScalarMultKey GBASE x)) as Hgx by (apply pt_mult; [apply pt_base|done]).
  exists (mkCoinV1 d1 (Some e)). split.
  - unfold CoinV1_Encrypt. cbn [c1_CoinDetails p1_SetCommitment p1_randomness p1_value d1].
    rewrite Er. cbn [deref res_bind]. rewrite (FromBytesS_pt _ Hgx). cbn [res_bind]. fold msg.
    by rewrite Ee.
  - cbn [c1_CoinDetails c1_CoinDetailsEncrypted]. unfold CoinV1_Decrypt.
    cbn [c1_CoinDetails c1_CoinDetailsEncrypted]. rewrite Hsk, Hrk, (proj1 (proj1 Hx)).
    cbn [length Nat.eqb Ed25519KeySize andb].
    set (d2 := p1_SetValue v' (p1_SetRandomness r' d1)).
    assert (p1_publicKey d2 = Some pk) as -> by exact Epk. rewrite Eown, bool_decide_true by done. rewrite Hnil. cbn [negb andb Nat.ltb Nat.leb].
    unfold decrypt_details, st_bind, st_lift, st_put, st_ret.
    rewrite Hrk, (FromBytesS_exact x (proj1 Hx)), Ed.
    assert (slice msg 0 Ed25519KeySize = Ok rand) as ->.
    { unfold msg, Ed25519KeySize. change (rand ++ ?t) with ([] ++ rand ++ t).
      apply slice_app_mid; cbn [length]; lia. }
    assert (slice msg Ed25519KeySize (length msg) = Ok (bigint_bytes (p1_value d))) as ->.
    { unfold msg, Ed25519KeySize. rewrite <- (app_nil_r (bigint_bytes (p1_value d))) at 1.
      apply slice_app_mid; rewrite ?length_app; lia. }
    rewrite (FromBytesS_exact rand (proj1 Hr)).
    assert (u64 (bigint_set_bytes (bigint_bytes (p1_value d))) = p1_value d) as ->.
    { destruct (Z.eq_dec (p1_value d) 0) as [->|Hne]; [reflexivity|].
      apply (bigint_bytes_u64 _ Hv). unfold is_u64 in Hv. lia. }
    cbn [Ed25519KeySize]. cbv beta iota.
    assert (p1_SetValue (p1_value d) (p1_SetRandomness (Some rand) d2) = d1) as ->.
    { unfold d2, d1, p1_SetValue, p1_SetRandomness, p1_SetCommitment. cbn. by rewrite <- Er. }
    rewrite Eexp. cbn [res_bind]. assert (p1_commitment d1 = Some com) as -> by reflexivity.
    cbn [deref res_bind].
    unfold IsPointEqual. rewrite bool_decide_true by done. reflexivity.
Qed.
End properties.

(** ** Witnesses *)

#[local] Existing Instances keep_all keep_all_laws toy_curve toy_curve_laws toy_digests toy_digest_laws toy_cipher toy_cipher_laws exact_cap exact_cap_laws toy_hdwallet.

(** A plain coin whose bytes need two bytes of length. *)
Definition toy_plain : PlainCoinV1 :=
  mkPlainCoinV1 (Some (toy_write 5)) (Some (toy_write 6)) (Some (key_of 7)) (Some (toy_write 8))
    (Some (key_of 9)) 300 (replicate 250 1).

Lemma toy_plain_ok : plain1_ok toy_plain.
Proof.
  split; [apply toy_write_ok|]. split; [apply toy_write_ok|]. split; [apply key_of_ok|].
  split; [apply toy_write_ok|]. split; [apply key_of_ok|]. split; [unfold is_u64; simpl; lia|].
  apply Forall_replicate. unfold is_byte. lia.
Qed.

Lemma CoinV1_roundtrip_witness :
  CoinV1_SetBytes (CoinV1_Bytes (mkCoinV1 toy_plain None)) (mkCoinV1 newPlainCoinV1 None)
  = (mkCoinV1 toy_plain None, Ok tt).
Proof.
  destruct (CoinV1_roundtrip (mkCoinV1 toy_plain None) (mkCoinV1 newPlainCoinV1 None) toy_coin)
    as (E & Ed & _).
  - apply toy_plain_ok.
  - exact I.
  - apply toy_coin_ok.
  - cbn [c1_CoinDetails c1_CoinDetailsEncrypted] in E, Ed. rewrite Ed in E by (apply Nat.leb_le; reflexivity). exact E.
Defined.

(** A coin of value 300 before its commitment is made, and its owner. *)
Definition toy_owner : KeySet :=
  mkKeySet [] (mkPaymentAddress (toy_write 5) [] []) (mkViewingKey [] (key_of 11)) emptyOTAKey.

Definition toy_committed : PlainCoinV1 :=
  match PlainCoinV1_CommitAll toy_plain with Ok d => d | _ => newPlainCoinV1 end.
