(* ===== verification/Schnorr.v ===== *)
(** * Package [schnorr]: Schnorr signatures with two generators

    [src/privacy/v1/schnorr/schnorr.go].  The SDK signs transactions of version
    1 and metadata; the nodes verify, with the equation that [verifies] states.
    The random scalars of [Sign] are arguments. *)

From stdpp Require Import base list gmap strings.
From Stdlib Require Import ZArith Lia.
From S2P Require Import Prelude Common Hashing Crypto Key Base58 Base58Check Wallet CoinV2 Hybrid CoinV1.
Open Scope Z_scope.

Record SchnorrPublicKey := mkSchnorrPublicKey {
  sp_publicKey : option (list Z); sp_g : option (list Z); sp_h : option (list Z) }.
Record SchnorrPrivateKey := mkSchnorrPrivateKey {
  ss_privateKey : list Z; ss_randomness : list Z; ss_publicKey : SchnorrPublicKey }.
Record SchnSignature := mkSchnSignature {
  sg_e : list Z; sg_z1 : list Z; sg_z2 : option (list Z) }.

(** [p, _ = new(Point).SetKey(&k)]: the error is dropped, the point is [nil]. *)
Definition set_key_or_nil `{CurveOps} (k : list Z) : option (list Z) :=
  match Point_SetKey k [] with (_, Ok p) => Some p | _ => None end.

Definition SchnSignature_Bytes (sig : SchnSignature) : list Z :=
  sg_e sig ++ sg_z1 sig ++ match sg_z2 sig with Some z2 => z2 | None => [] end.

Definition SchnSignature_SetBytes (b : list Z) : st SchnSignature unit := fun sig =>
  if negb (length b =? 2 * Ed25519KeySize)%nat && negb (length b =? 3 * Ed25519KeySize)%nat
  then (sig, Err "InvalidInputToSetBytesErr")
  else
    let e := Scalar_FromBytesS (take Ed25519KeySize b) in
    let z1 := Scalar_FromBytesS (take Ed25519KeySize (drop Ed25519KeySize b)) in
    let z2 := if (length b =? 3 * Ed25519KeySize)%nat
              then Some (Scalar_FromBytesS (drop (2 * Ed25519KeySize) b)) else None in
    (mkSchnSignature e z1 z2, Ok tt).

Section schnorr.
Context `{CO : CurveOps} `{DG : Digests}.

Definition SchnorrPublicKey_Set (v : list Z) : res SchnorrPublicKey :=
  let* pedRandom := index PedG PedersenRandomnessIndex in
  let* pedPrivate := index PedG PedersenPrivateKeyIndex in
  Ok (mkSchnorrPublicKey (set_key_or_nil v) (set_key_or_nil pedPrivate) (set_key_or_nil pedRandom)).

Definition SchnorrPrivateKey_Set (sk r : list Z) : res SchnorrPrivateKey :=
  let* pedRandom := index PedG PedersenRandomnessIndex in
  let* pedPrivate := index PedG PedersenPrivateKeyIndex in
  let pk := Point_Add (Point_ScalarMult pedPrivate sk) (Point_ScalarMult pedRandom r) in
  Ok (mkSchnorrPrivateKey sk r
        (mkSchnorrPublicKey (Some pk) (set_key_or_nil pedPrivate) (set_key_or_nil pedRandom))).

(** [s1] and [s2] are the random scalars; without randomness only [s1] is drawn. *)
Definition SchnorrPrivateKey_Sign (s1 s2 data : list Z) (k : SchnorrPrivateKey) : res SchnSignature :=
  if negb (length data =? HashSize)%nat then Err "hash length must be 32 bytes"
  else
    let* g := deref (sp_g (ss_publicKey k)) in
    if negb (Scalar_IsZero (Some (ss_randomness k))) then
      let* h := deref (sp_h (ss_publicKey k)) in
      let t := Point_Add (Point_ScalarMult g s1) (Point_ScalarMult h s2) in
      let* e := deref (HashToScalar (t ++ data)) in
      let z1 := Scalar_Sub s1 (Scalar_Mul (ss_privateKey k) e) in
      let z2 := Scalar_Sub s2 (Scalar_Mul (ss_randomness k) e) in
      Ok (mkSchnSignature e z1 (Some z2))
    else
      let t := Point_ScalarMult g s1 in
      let* e := deref (HashToScalar (t ++ data)) in
      let z1 := Scalar_Sub s1 (Scalar_Mul (ss_privateKey k) e) in
      Ok (mkSchnSignature e z1 None).

(** *** Specification: the verification equation of the scheme *)

(** [z1 g + z2 h + e PK], the point the challenge must be the hash of. *)
Definition verification_point (g h pk : list Z) (sig : SchnSignature) : list Z :=
  AddKeys (match sg_z2 sig with
           | Some z2 => AddKeys (ScalarMultKey g (sg_z1 sig)) (ScalarMultKey h z2)
           | None => ScalarMultKey g (sg_z1 sig)
           end) (ScalarMultKey pk (sg_e sig)).

Definition verifies (g h pk data : list Z) (sig : SchnSignature) : Prop :=
  HashToScalar (verification_point g h pk sig ++ data) = Some (sg_e sig).

Definition signature_ok (sig : SchnSignature) : Prop :=
  sc_ok (sg_e sig) /\ sc_ok (sg_z1 sig) /\
  match sg_z2 sig with Some z2 => sc_ok z2 | None => True end.
End schnorr.

(** ** Lemmas *)

Section laws.
Context `{CL : CurveLaws} `{DL : DigestLaws}.

Lemma set_key_pt p : pt_ok p -> set_key_or_nil p = Some p.
Proof using CL.
  intros Hp. unfold set_key_or_nil, Point_SetKey. by rewrite (proj2 (pt_key p Hp)).
Qed.

(** [(s - x e) g + e (x g) = s g]: the step of every proof of knowledge. *)
Lemma response_eq g s x e : pt_ok g -> sc_ok s -> sc_ok x -> sc_ok e ->
  AddKeys (ScalarMultKey g (ScSub s (ScMul x e))) (ScalarMultKey (ScalarMultKey g x) e)
  = ScalarMultKey g s.
Proof using CL.
  intros Hg Hs Hx He. destruct (ScMul_ok x e Hx He) as [Hxe _].
  destruct (ScSub_ok s _ Hs Hxe) as [Hz _].
  rewrite mult_mul, <- mult_add by done. by rewrite ScAdd_ScSub.
Qed.

Lemma add_four a b c d : pt_ok a -> pt_ok b -> pt_ok c -> pt_ok d ->
  AddKeys (AddKeys a b) (AddKeys c d) = AddKeys (AddKeys a c) (AddKeys b d).
Proof using CL.
  intros Ha Hb Hc Hd. rewrite <- !add_assoc by (try done; by apply pt_add). f_equal.
  rewrite (add_assoc b), (add_comm b c), <- add_assoc by done. done.
Qed.

Lemma SchnSignature_roundtrip sig s0 : signature_ok sig ->
  SchnSignature_SetBytes (SchnSignature_Bytes sig) s0 = (sig, Ok tt).
Proof using Type.
  intros (He & H1' & H2'). pose proof (proj1 (proj1 He)) as Le. pose proof (proj1 (proj1 H1')) as L1.
  unfold Ed25519KeySize in *. unfold SchnSignature_SetBytes, SchnSignature_Bytes, Ed25519KeySize.
  destruct sig as [e z1 z2]. cbn [sg_e sg_z1 sg_z2] in *.
  assert (take 32 (e ++ z1 ++ match z2 with Some z => z | None => [] end) = e) as ->
    by (by apply take_app_length').
  rewrite drop_app_length' by done. rewrite take_app_length' by done.
  rewrite (FromBytesS_exact e (proj1 He)), (FromBytesS_exact z1 (proj1 H1')).
  rewrite !length_app, Le, L1. destruct z2 as [z2|].
  - pose proof (proj1 (proj1 H2')) as L2. unfold Ed25519KeySize in L2. rewrite L2.
    cbn [Nat.add Nat.mul Nat.eqb negb andb].
    rewrite app_assoc, drop_app_length' by (rewrite length_app; lia).
    by rewrite (FromBytesS_exact z2 (proj1 H2')).
  - reflexivity.
Qed.

(** The two branches of [Sign]. *)
Lemma sign_without_randomness g s sk data : pt_ok g -> sc_ok s -> sc_ok sk -> bytes_ok data ->
  exists e, HashToScalar (ScalarMultKey g s ++ data) = Some e /\
    let sig := mkSchnSignature e (ScSub s (ScMul sk e)) None in
    signature_ok sig /\ verifies g g (ScalarMultKey g sk) data sig.
Proof using CL DL.
  intros Hg Hs Hsk Hd. assert (pt_ok (ScalarMultKey g s)) as Hgs by (by apply pt_mult).
  destruct (HashToScalar_ok (ScalarMultKey g s ++ data)) as (e & Ee & _ & He).
  { apply Forall_app. split; [exact (proj2 (proj1 (pt_key _ Hgs)))|done]. }
  destruct (ScMul_ok sk e Hsk He) as [Hxe _]. destruct (ScSub_ok s _ Hs Hxe) as [Hz1 _].
  exists e. split; [exact Ee|]. split; [done|].
  unfold verifies, verification_point. cbn [sg_e sg_z1 sg_z2]. by rewrite response_eq.
Qed.

Lemma sign_with_randomness g h s1 s2 sk r data : pt_ok g -> pt_ok h -> sc_ok s1 -> sc_ok s2 ->
  sc_ok sk -> sc_ok r -> bytes_ok data ->
  exists e, HashToScalar (AddKeys (ScalarMultKey g s1) (ScalarMultKey h s2) ++ data) = Some e /\
    let sig := mkSchnSignature e (ScSub s1 (ScMul sk e)) (Some (ScSub s2 (ScMul r e))) in
    signature_ok sig /\ verifies g h (AddKeys (ScalarMultKey g sk) (ScalarMultKey h r)) data sig.
Proof using CL DL.
  intros Hg Hh H1' H2' Hsk Hr Hd.
  destruct (HashToScalar_ok (AddKeys (ScalarMultKey g s1) (ScalarMultKey h s2) ++ data))
    as (e & Ee & _ & He).
  { apply Forall_app. split; [|done].
    apply (pt_key (AddKeys (ScalarMultKey g s1) (ScalarMultKey h s2))).
    apply pt_add; by apply pt_mult. }
  destruct (ScMul_ok sk e Hsk He) as [Hxe _]. destruct (ScSub_ok s1 _ H1' Hxe) as [Hz1 _].
  destruct (ScMul_ok r e Hr He) as [Hre _]. destruct (ScSub_ok s2 _ H2' Hre) as [Hz2 _].
  exists e. split; [exact Ee|]. split; [done|].
  unfold verifies, verification_point. cbn [sg_e sg_z1 sg_z2].
  rewrite mult_add_pt by (try done; by apply pt_mult).
  rewrite add_four by (apply pt_mult; try done; by apply pt_mult).
  by rewrite !response_eq.
Qed.

(** [Set], and [Sign] under the key it makes. *)
Lemma Set_ok sk r : sc_ok sk -> sc_ok r -> exists g h, index PedG PedersenPrivateKeyIndex = Ok g /\ index PedG PedersenRandomnessIndex = Ok h /\
  pt_ok g /\ pt_ok h /\ let pk := AddKeys (ScalarMultKey g sk) (ScalarMultKey h r) in
  pt_ok pk /\ SchnorrPrivateKey_Set sk r = Ok (mkSchnorrPrivateKey sk r (mkSchnorrPublicKey (Some pk) (Some g) (Some h))) /\
  SchnorrPublicKey_Set pk = Ok (mkSchnorrPublicKey (Some pk) (Some g) (Some h)).
Proof using CL DL.
  intros Hsk Hr. destruct PedG_list as (g & g1 & g2 & g3 & h & EG & HG).
  assert (pt_ok g) as Hg by (by inversion HG).
  assert (pt_ok h) as Hh by (rewrite !Forall_cons in HG; by destruct HG as (_ & _ & _ & _ & ? & _)).
  assert (pt_ok (AddKeys (ScalarMultKey g sk) (ScalarMultKey h r))) as Hpk by (apply pt_add; by apply pt_mult).
  exists g, h. unfold SchnorrPrivateKey_Set, SchnorrPublicKey_Set. rewrite EG.
  unfold index. cbn [lookup list_lookup PedersenRandomnessIndex PedersenPrivateKeyIndex res_bind].
  rewrite (set_key_pt g Hg), (set_key_pt h Hh), (set_key_pt _ Hpk). by repeat (split; [done|]).
Qed.

Lemma Sign_ok g h sk r s1 s2 data : pt_ok g -> pt_ok h -> sc_ok sk -> sc_ok r -> sc_ok s1 -> sc_ok s2 -> bytes_ok data -> length data = 32%nat ->
  let pk := AddKeys (ScalarMultKey g sk) (ScalarMultKey h r) in
  exists sig, SchnorrPrivateKey_Sign s1 s2 data (mkSchnorrPrivateKey sk r (mkSchnorrPublicKey (Some pk) (Some g) (Some h))) = Ok sig /\
    signature_ok sig /\ (sg_z2 sig = None <-> key_val r = 0) /\ verifies g h pk data sig.
Proof using CL DL.
  intros Hg Hh Hsk Hr H1' H2' Hd Hl pk. unfold SchnorrPrivateKey_Sign, HashSize. rewrite Hl.
  cbn [Nat.eqb negb ss_publicKey sp_g sp_h deref res_bind ss_randomness ss_privateKey].
  rewrite (IsZero_val r (proj1 Hr)). unfold Point_ScalarMult, Point_Add, Scalar_Sub, Scalar_Mul.
  destruct (Z.eqb_spec (key_val r) 0) as [Hz|Hnz]; cbn [negb].
  - destruct (sign_without_randomness g s1 sk data Hg H1' Hsk Hd) as (e & -> & Hok & Hv).
    eexists. split; [reflexivity|]. split; [exact Hok|]. split; [done|].
    assert (pk = ScalarMultKey g sk) as ->; [|exact Hv].
    unfold pk. rewrite <- (key_of_val r (proj1 Hr)), Hz, mult_zero by done. apply add_identity. by apply pt_mult.
  - destruct (sign_with_randomness g h s1 s2 sk r data Hg Hh H1' H2' Hsk Hr Hd) as (e & -> & Hok & Hv).
    eexists. split; [reflexivity|]. split; [exact Hok|]. by split.
Qed.

(** ** Properties *)

(** C34: what [Sign] produces under a key made by [Set] verifies under its public
    key, with and without randomness in the key, and survives
    [Bytes]/[SetBytes]; the signature has no second response exactly when the
    randomness is zero; a message that is not 32 bytes long is an error. *)
Theorem schnorr_sign_verifies sk r s1 s2 data : sc_ok sk -> sc_ok r -> sc_ok s1 -> sc_ok s2 ->
  bytes_ok data ->
  exists k g h pk, SchnorrPrivateKey_Set sk r = Ok k /\
    ss_publicKey k = mkSchnorrPublicKey (Some pk) (Some g) (Some h) /\
    SchnorrPublicKey_Set pk = Ok (ss_publicKey k) /\
    (length data <> 32%nat ->
     SchnorrPrivateKey_Sign s1 s2 data k = Err "hash length must be 32 bytes") /\
    (length data = 32%nat ->
     exists sig, SchnorrPrivateKey_Sign s1 s2 data k = Ok sig /\ signature_ok sig /\
       (sg_z2 sig = None <-> key_val r = 0) /\ verifies g h pk data sig /\
       (forall s0, SchnSignature_SetBytes (SchnSignature_Bytes sig) s0 = (sig, Ok tt))).
Proof using CL DL.
  intros Hsk Hr H1' H2' Hd. destruct (Set_ok sk r Hsk Hr) as (g & h & _ & _ & Hg & Hh & Hpk & Eset & Epub).
  eexists _, g, h, _. split; [exact Eset|]. split; [reflexivity|]. split; [exact Epub|]. split.
  - intros Hl. unfold SchnorrPrivateKey_Sign, HashSize. by bounds.
  - intros Hl. destruct (Sign_ok g h sk r s1 s2 data Hg Hh Hsk Hr H1' H2' Hd Hl) as (sig & Es & Hok & Hz & Hv).
    exists sig. split; [exact Es|]. split; [exact Hok|]. split; [exact Hz|]. split; [exact Hv|]. intros s0. by apply SchnSignature_roundtrip.
Qed.
End laws.

#[local] Existing Instances toy_curve toy_curve_laws toy_digests toy_digest_laws.

Lemma schnorr_sign_verifies_witness :
  exists k g h pk sig, SchnorrPrivateKey_Set (key_of 5) (key_of 6) = Ok k /\
    SchnorrPrivateKey_Sign (key_of 7) (key_of 8) (replicate 32 9) k = Ok sig /\
    verifies g h pk (replicate 32 9) sig.
Proof.
  destruct (schnorr_sign_verifies (key_of 5) (key_of 6) (key_of 7) (key_of 8) (replicate 32 9))
    as (k & g & h & pk & E & _ & _ & _ & Hs).
  - apply toy_scalar. lia.
  - apply toy_scalar. lia.
  - apply toy_scalar. lia.
  - apply toy_scalar. lia.
  - apply Forall_replicate. unfold is_byte. lia.
  - destruct (Hs eq_refl) as (sig & Es & _ & _ & Hv & _).
    exists k, g, h, pk, sig. split; [exact E|]. split; [exact Es|exact Hv].
Defined.
