(* ===== verification/Mlsag.v ===== *)
(** * Package [mlsag]: linkable ring signatures

    [src/privacy/v2/mlsag/mlsag.go], [mlsag_ca.go] and [mlsag_signature.go].  A
    ring is a matrix of points; the signer knows the private keys of the row
    [pi].  The random scalars and points are arguments; [ScalarMultBase]
    reduces its argument in place, which changes nothing on random scalars,
    which are reduced.  [nil] scalars that the code never reads are empty
    strings. *)

From stdpp Require Import base list gmap strings.
From Stdlib Require Import ZArith Lia.
From S2P Require Import Prelude Common Hashing Crypto Key Base58 Base58Check Wallet CoinV2 Hybrid CoinV1 Schnorr.
Open Scope Z_scope.

Definition SigPrefix : Z := 2.
Definition MaxSizeByte : nat := 255.

(** ** Parsing keys in a row *)

(** [k] keys from the offset on, read by [get] and parsed by [parse1]; the keys
    and the offset after them. *)
Fixpoint parse_keys (get : nat -> res (list Z)) (parse1 : list Z -> res (list Z)) (k offset : nat)
  : res (list (list Z) * nat) :=
  match k with
  | O => Ok ([], offset)
  | S k =>
      let* b := get offset in
      let* p := parse1 b in
      let* (ps, off) := parse_keys get parse1 k (offset + Ed25519KeySize) in
      Ok (p :: ps, off)
  end.

Fixpoint parse_rows (get : nat -> res (list Z)) (parse1 : list Z -> res (list Z)) (n m offset : nat)
  : res (list (list (list Z)) * nat) :=
  match n with
  | O => Ok ([], offset)
  | S n =>
      let* (row, off) := parse_keys get parse1 m offset in
      let* (rows, off) := parse_rows get parse1 n m off in
      Ok (row :: rows, off)
  end.

(** [b[offset : offset+32]], and the same after a test of the bound. *)
Definition get_key (b : list Z) (offset : nat) : res (list Z) :=
  slice b offset (offset + Ed25519KeySize).
Definition get_key_checked (msg : string) (b : list Z) (offset : nat) : res (list Z) :=
  if (length b <? offset + Ed25519KeySize)%nat then Err msg
  else slice b offset (offset + Ed25519KeySize).

Section mlsag.
Context `{CO : CurveOps} `{DG : Digests}.

(** ** Rings *)

Definition Ring : Type := list (list (list Z)).

Definition rectangular {A} (k : list (list A)) : bool :=
  match k with
  | [] => true
  | k0 :: rest => forallb (fun row => (length row =? length k0)%nat) rest
  end.

Definition Ring_ToBytes (k : Ring) : res (list Z) :=
  match k with
  | [] => Err "RingToBytes: Ring is empty"
  | k0 :: _ =>
      if negb (rectangular k) then Err "RingToBytes: Ring is not a proper rectangle row*column"
      else
        let n := length k in
        let m := length k0 in
        if (255 <? n)%nat || (255 <? m)%nat then Err "RingToBytes: Ring size is too large"
        else Ok (SigPrefix :: u8 (Z.of_nat n) :: u8 (Z.of_nat m) :: concat (concat k))
  end.

Definition Ring_FromBytes (b : list Z) : res Ring :=
  if (length b <? 3)%nat then Err "RingFromBytes: byte length is too short"
  else
    let* b0 := index b 0 in
    if negb (b0 =? SigPrefix) then Err "RingFromBytes: byte[0] is not SigPrefix"
    else
      let* b1 := index b 1 in
      let* b2 := index b 2 in
      let n := Z.to_nat b1 in
      let m := Z.to_nat b2 in
      if negb (length b =? Ed25519KeySize * n * m + 3)%nat
      then Err "RingFromBytes: byte length is not correct"
      else
        let* (key, _) := parse_rows (get_key b)
                           (fun x => res_wrap "RingFromBytes: byte contains incorrect point"
                                       (Point_FromBytesS x)) n m 3 in
        Ok key.

(** [isLast] commits to the random base. *)
Definition parsePublicKey (privateKey : list Z) (isLast : bool) : res (list Z) :=
  if isLast then
    let* h := index PedG PedersenRandomnessIndex in Ok (Point_ScalarMult h privateKey)
  else Ok (Point_ScalarMultBase privateKey).

(** The loop over the keys: [f key isLast] for each. *)
Fixpoint with_last (f : list Z -> bool -> res (list Z)) (l : list (list Z)) : res (list (list Z)) :=
  match l with
  | [] => Ok []
  | x :: l' =>
      let* y := f x (match l' with [] => true | _ => false end) in
      let* ys := with_last f l' in
      Ok (y :: ys)
  end.

Definition parseKeyImages (privateKeys : list (list Z)) : res (list (list Z)) :=
  with_last (fun x isLast =>
    let* publicKey := parsePublicKey x isLast in
    let* hashPoint := deref (HashToPoint publicKey) in
    Ok (Point_ScalarMult hashPoint x)) privateKeys.

(** [fakes] are the rows of random points of [createFakePublicKeyArray]. *)
Definition NewRandomRing (fakes : Ring) (privateKeys : list (list Z)) (pi : nat) : res Ring :=
  if (pi <? length fakes)%nat then
    let* row := with_last parsePublicKey privateKeys in
    Ok (<[pi := row]> fakes)
  else Ok fakes.

(** ** Keys and challenges *)

Record Mlsag := mkMlsag {
  ml_R : Ring; ml_pi : nat; ml_keyImages : list (list Z); ml_privateKeys : list (list Z) }.

Definition NewMlsag (privateKeys : list (list Z)) (R : Ring) (pi : nat) : res Mlsag :=
  let* keyImages := parseKeyImages privateKeys in Ok (mkMlsag R pi keyImages privateKeys).

Record Sig := mkSig {
  sig_c : option (list Z); sig_keyImages : list (list Z); sig_r : list (list (list Z)) }.

(** The row [pi] of [r] stays [nil]. *)
Definition createRandomChallenges (ml : Mlsag) (rr : list (list (list Z))) : list (list (list Z)) :=
  <[ml_pi ml := replicate (length (ml_privateKeys ml)) []]> rr.

Fixpoint first_columns (cols : list (list Z * list Z)) : res (list Z) :=
  match cols with
  | [] => Ok []
  | (alpha, K) :: cols =>
      let alphaG := Point_ScalarMultBase alpha in
      let* H := deref (HashToPoint K) in
      let alphaH := Point_ScalarMult H alpha in
      let* b := first_columns cols in
      Ok (alphaG ++ alphaH ++ b)
  end.

Fixpoint next_columns (c : list Z) (cols : list (list Z * list Z * list Z)) : res (list Z) :=
  match cols with
  | [] => Ok []
  | (r, K, keyImage) :: cols =>
      let rG := Point_ScalarMultBase r in
      let cK := Point_ScalarMult K c in
      let sum1 := Point_Add rG cK in
      let* HK := deref (HashToPoint K) in
      let rHK := Point_ScalarMult HK r in
      let cKI := Point_ScalarMult keyImage c in
      let sum2 := Point_Add rHK cKI in
      let* b := next_columns c cols in
      Ok (sum1 ++ sum2 ++ b)
  end.

(** A column that commits to the random base: [alpha h], [r h + c K]. *)
Definition first_commitment (alpha : list (list Z)) (i : nat) : res (list Z) :=
  let* h := index PedG PedersenRandomnessIndex in
  let* a := index alpha i in
  Ok (Point_ScalarMult h a).

Definition next_commitment (c : list Z) (r K : list (list Z)) (i : nat) : res (list Z) :=
  let* h := index PedG PedersenRandomnessIndex in
  let* ri := index r i in
  let* Ki := index K i in
  Ok (Point_Add (Point_ScalarMult h ri) (Point_ScalarMult Ki c)).

Definition calculateFirstC (digest : list Z) (alpha K : list (list Z)) : res (option (list Z)) :=
  if negb (length alpha =? length K)%nat
  then Err "error in MLSAG: Calculating first C must have length of alpha be the same with length of ring R"
  else
    let n := (length K - 1)%nat in
    let* b := first_columns (zip (take n alpha) (take n K)) in
    let* last := first_commitment alpha n in
    Ok (HashToScalar (digest ++ b ++ last)).

Definition calculateNextC (digest : list Z) (r : list (list Z)) (c : option (list Z))
    (K keyImages : list (list Z)) : res (option (list Z)) :=
  if negb (length r =? length K)%nat || negb (length r =? length keyImages)%nat
  then Err "error in MLSAG: Calculating next C must have length of r be the same with length of ring R"
  else
    let* c := deref c in
    let n := (length K - 1)%nat in
    let* b := next_columns c (zip (zip (take n r) (take n K)) (take n keyImages)) in
    let* last := next_commitment c r K n in
    Ok (HashToScalar (digest ++ b ++ last)).

(** The variants for confidential assets: the last two columns are commitments.
    A single column makes the index negative. *)
Definition calculateFirstCCA (digest : list Z) (alpha K : list (list Z)) : res (option (list Z)) :=
  if negb (length alpha =? length K)%nat
  then Err "error in MLSAG: Calculating first C must have length of alpha be the same with length of ring R"
  else if (length K <? 2)%nat then Panic
  else
    let n := (length K - 2)%nat in
    let* b := first_columns (zip (take n alpha) (take n K)) in
    let* last2 := first_commitment alpha n in
    let* last := first_commitment alpha (length K - 1) in
    Ok (HashToScalar (digest ++ b ++ last2 ++ last)).

Definition calculateNextCCA (digest : list Z) (r : list (list Z)) (c : option (list Z))
    (K keyImages : list (list Z)) : res (option (list Z)) :=
  if negb (length r =? length K)%nat || negb (length r =? length keyImages)%nat
  then Err "error in MLSAG: Calculating next C must have length of r be the same with length of ring R"
  else if (length K <? 2)%nat then Panic
  else
    let* c := deref c in
    let n := (length K - 2)%nat in
    let* b := next_columns c (zip (zip (take n r) (take n K)) (take n keyImages)) in
    let* last2 := next_commitment c r K n in
    let* last := next_commitment c r K (length K - 1) in
    Ok (HashToScalar (digest ++ b ++ last2 ++ last)).

(** ** Closing the ring *)

(** [calculateC] and [calculateCCA] differ in the two challenge functions. *)
Section ring.
Variable firstC : list (list Z) -> list (list Z) -> res (option (list Z)).
Variable nextC : list (list Z) -> option (list Z) -> list (list Z) -> res (option (list Z)).

(** The loop [for i != pi]: [next] is the index after [i]. *)
Fixpoint ring_loop (fuel : nat) (keys r : list (list (list Z))) (pi i next : nat)
    (c : list (option (list Z))) : res (list (option (list Z))) :=
  if (i =? pi)%nat then Ok c
  else
    match fuel with
    | O => OutOfFuel
    | S f =>
        let* ri := index r i in
        let* ci := index c i in
        let* Ki := index keys i in
        let* nc := nextC ri ci Ki in
        ring_loop f keys r pi next ((next + 1) mod length keys)%nat (<[next := nc]> c)
    end.

(** The challenges, and [r] with its row [pi] filled in. *)
Definition ring_challenges (ml : Mlsag) (alpha : list (list Z)) (r : list (list (list Z)))
  : res (list (option (list Z)) * list (list (list Z))) :=
  let n := length (ml_R ml) in
  let* Kpi := index (ml_R ml) (ml_pi ml) in
  let* first := firstC alpha Kpi in
  let i := ((ml_pi ml + 1) mod n)%nat in
  let c := <[i := first]> (replicate n None) in
  let* c := ring_loop n (ml_R ml) r (ml_pi ml) i ((i + 1) mod n)%nat c in
  let* cpi := index c (ml_pi ml) in
  let* cpi := deref cpi in
  let row := zip_with (fun a x => Scalar_Sub a (Scalar_Mul cpi x)) alpha (ml_privateKeys ml) in
  let* _ := index r (ml_pi ml) in
  Ok (c, <[ml_pi ml := row]> r).
End ring.

Definition calculateC (ml : Mlsag) (message : list Z) (alpha : list (list Z)) (r : list (list (list Z))) :=
  ring_challenges (calculateFirstC message)
    (fun ri ci Ki => calculateNextC message ri ci Ki (ml_keyImages ml)) ml alpha r.

Definition calculateCCA (ml : Mlsag) (message : list Z) (alpha : list (list Z)) (r : list (list (list Z))) :=
  ring_challenges (calculateFirstCCA message)
    (fun ri ci Ki => calculateNextCCA message ri ci Ki (ml_keyImages ml)) ml alpha r.

(** [alpha] and [rr] are the random scalars of [createRandomChallenges]. *)
Definition Mlsag_Sign (alpha : list (list Z)) (rr : list (list (list Z))) (message : list Z) (ml : Mlsag)
  : res Sig :=
  if negb (length message =? HashSize)%nat
  then Err "cannot mlsag sign the message because its length is not 32, maybe it has not been hashed"
  else
    let r := createRandomChallenges ml rr in
    let* (c, r) := calculateC ml message alpha r in
    let* c0 := index c 0 in
    Ok (mkSig c0 (ml_keyImages ml) r).

Definition SignConfidentialAsset (alpha : list (list Z)) (rr : list (list (list Z))) (message : list Z)
    (ml : Mlsag) : res Sig :=
  if negb (length message =? HashSize)%nat
  then Err "cannot mlsag sign the message because its length is not 32, maybe it has not been hashed"
  else
    let r := createRandomChallenges ml rr in
    let* (c, r) := calculateCCA ml message alpha r in
    let* c0 := index c 0 in
    Ok (mkSig c0 (ml_keyImages ml) r).

(** ** Signatures as bytes *)

Definition Sig_ToBytes (s : Sig) : res (list Z) :=
  let b := SigPrefix :: opt_field (sig_c s) in
  if (MaxSizeByte <? length (sig_keyImages s))%nat then Err "length of key image is too large > 255"
  else
    let lenKeyImage := Z.land (Z.of_nat (length (sig_keyImages s))) 0xFF in
    let b := b ++ lenKeyImage :: concat (sig_keyImages s) in
    match sig_r s with
    | [] => Ok (b ++ [0; 0])
    | r0 :: _ =>
        let n := length (sig_r s) in
        let m := length r0 in
        if (MaxSizeByte <? n)%nat || (MaxSizeByte <? m)%nat
        then Err "length of R of mlsagSig is too large > 255"
        else if negb (rectangular (sig_r s))
        then Err "error in MLSAG Sig ToBytes: the signature is broken"
        else Ok (b ++ Z.land (Z.of_nat n) 0xFF :: Z.land (Z.of_nat m) 0xFF :: concat (concat (sig_r s)))
    end.

Definition parse_scalar (msg : string) (b : list Z) : res (list Z) :=
  let sc := Scalar_FromBytesS b in
  if negb (ScValid sc) then Err msg else Ok sc.

(** [b[1]] is read before the length is tested. *)
Definition Sig_FromBytes (b : list Z) : res Sig :=
  if (length b =? 0)%nat then Err "length of byte is empty, cannot setbyte mlsagSig"
  else
    let* b0 := index b 0 in
    if negb (b0 =? SigPrefix) then Err "the signature byte is broken (first byte is not mlsag)"
    else
      let* b1 := index b 1 in
      if negb (b1 =? Z.of_nat Ed25519KeySize) then Err "cannot parse value C, byte length of C is wrong"
      else
        let* cb := get_key_checked "cannot parse value C, byte is too small" b 2 in
        let* C := parse_scalar "cannot parse value C, invalid scalar" cb in
        let offset := (2 + Ed25519KeySize)%nat in
        if (length b <=? offset)%nat then Err "cannot parse length of keyimage, byte is too small"
        else
          let* lenKeyImages := index b offset in
          let* (keyImages, offset) :=
            parse_keys (get_key_checked "cannot parse keyimage of mlsagSig, byte is too small" b)
              (fun x => res_wrap "cannot convert byte to crypto point keyimage" (Point_FromBytesS x))
              (Z.to_nat lenKeyImages) (offset + 1) in
          if (length b <? offset + 2)%nat then Err "cannot parse length of R, byte is too small"
          else
            let* n := index b offset in
            let* m := index b (offset + 1) in
            let* (R, _) :=
              parse_rows (get_key_checked "cannot parse R of mlsagSig, byte is too small" b)
                (parse_scalar "cannot parse R of mlsagSig, invalid scalar")
                (Z.to_nat n) (Z.to_nat m) (offset + 2) in
            Ok (mkSig (Some C) keyImages R).

(** ** Specification: the verification of the ring *)

(** The challenges recomputed row by row from the first one. *)
Fixpoint chain (nextC : list (list Z) -> option (list Z) -> list (list Z) -> res (option (list Z)))
    (rows : list (list (list Z) * list (list Z))) (c : option (list Z)) : res (option (list Z)) :=
  match rows with
  | [] => Ok c
  | (r, K) :: rows => let* c := nextC r c K in chain nextC rows c
  end.

(** A signature is accepted when the chain comes back to its first challenge. *)
Definition ring_verifies (R : Ring) (sig : Sig) (message : list Z) : Prop :=
  chain (fun r c K => calculateNextC message r c K (sig_keyImages sig)) (zip (sig_r sig) R) (sig_c sig)
  = Ok (sig_c sig).

Definition ring_verifies_CA (R : Ring) (sig : Sig) (message : list Z) : Prop :=
  chain (fun r c K => calculateNextCCA message r c K (sig_keyImages sig)) (zip (sig_r sig) R) (sig_c sig)
  = Ok (sig_c sig).
End mlsag.

(** ** Lemmas on the serialization *)

Section parse.
Context `{CO : CurveOps} `{DG : Digests}.

Lemma get_key_at b pre k suf : b = pre ++ k ++ suf -> length k = 32%nat ->
  get_key b (length pre) = Ok k.
Proof using Type. intros -> Hl. unfold get_key, Ed25519KeySize. apply slice_app_mid; lia. Qed.

Lemma get_key_checked_at msg b pre k suf : b = pre ++ k ++ suf -> length k = 32%nat ->
  get_key_checked msg b (length pre) = Ok k.
Proof using Type.
  intros Hb Hl. unfold get_key_checked, Ed25519KeySize.
  assert (length b = length pre + 32 + length suf)%nat by (rewrite Hb, !length_app; lia).
  bounds. exact (get_key_at b pre k suf Hb Hl).
Qed.

(** A reader that finds every key where it was written. *)
Definition reads (get : nat -> res (list Z)) (b : list Z) : Prop :=
  forall pre k suf, b = pre ++ k ++ suf -> length k = 32%nat -> get (length pre) = Ok k.

Lemma parse_keys_at get parse1 b ks : reads get b ->
  Forall (fun k => length k = 32%nat /\ parse1 k = Ok k) ks ->
  forall pre suf, b = pre ++ concat ks ++ suf ->
  parse_keys get parse1 (length ks) (length pre) = Ok (ks, length (pre ++ concat ks)).
Proof using Type.
  intros Hget Hks. induction Hks as [|k ks [Hl Hp] Hks IH]; intros pre suf Hb.
  - cbn [parse_keys length concat]. by rewrite app_nil_r.
  - cbn [concat] in Hb. rewrite <- app_assoc in Hb. cbn [length parse_keys].
    rewrite (Hget pre k _ Hb Hl). cbn [res_bind]. rewrite Hp. cbn [res_bind].
    unfold Ed25519KeySize. replace (length pre + 32)%nat with (length (pre ++ k)) by (rewrite length_app; lia).
    rewrite (IH (pre ++ k) suf) by (by rewrite <- app_assoc). cbn [res_bind concat].
    by rewrite <- app_assoc.
Qed.

Lemma parse_rows_at get parse1 b m rows : reads get b ->
  Forall (fun row => length row = m /\
    Forall (fun k => length k = 32%nat /\ parse1 k = Ok k) row) rows ->
  forall pre suf, b = pre ++ concat (concat rows) ++ suf ->
  parse_rows get parse1 (length rows) m (length pre) = Ok (rows, length (pre ++ concat (concat rows))).
Proof using Type.
  intros Hget Hrows. induction Hrows as [|row rows [Hl Hp] Hrows IH]; intros pre suf Hb.
  - cbn [parse_rows length concat]. by rewrite app_nil_r.
  - cbn [concat] in Hb. rewrite concat_app, <- app_assoc in Hb. cbn [length parse_rows].
    rewrite <- Hl. rewrite (parse_keys_at get parse1 b row Hget Hp pre _ Hb). cbn [res_bind].
    rewrite Hl. rewrite (IH (pre ++ concat row) suf) by (by rewrite <- app_assoc).
    cbn [res_bind concat]. by rewrite concat_app, <- app_assoc.
Qed.

Lemma get_key_checked_safe msg b off : res_safe (get_key_checked msg b off).
Proof using Type.
  unfold get_key_checked. destruct (Nat.ltb_spec (length b) (off + Ed25519KeySize)); [done|].
  destruct (slice_safe b off (off + Ed25519KeySize)) as (d & -> & _); [lia|done].
Qed.

Lemma parse_keys_safe get parse1 k : (forall off, res_safe (get off)) ->
  (forall x, res_safe (parse1 x)) -> forall off, res_safe (parse_keys get parse1 k off).
Proof using Type.
  intros Hg Hp. induction k as [|k IH]; intros off; cbn [parse_keys]; [done|].
  pose proof (Hg off) as H1'. destruct (get off) as [b| | |]; try done. cbn [res_bind].
  pose proof (Hp b) as H2'. destruct (parse1 b); try done. cbn [res_bind].
  pose proof (IH (off + Ed25519KeySize)%nat) as H3'. by destruct (parse_keys _ _ _ _) as [[]| | |].
Qed.

Lemma parse_rows_safe get parse1 n m : (forall off, res_safe (get off)) ->
  (forall x, res_safe (parse1 x)) -> forall off, res_safe (parse_rows get parse1 n m off).
Proof using Type.
  intros Hg Hp. induction n as [|n IH]; intros off; cbn [parse_rows]; [done|].
  pose proof (parse_keys_safe get parse1 m Hg Hp off) as H1'.
  destruct (parse_keys _ _ _ _) as [[row o]| | |]; try done. cbn [res_bind].
  pose proof (IH o) as H2'. by destruct (parse_rows _ _ _ _ _) as [[]| | |].
Qed.

Lemma concat_keys_length (ks : list (list Z)) :
  Forall (fun k => length k = 32%nat) ks -> length (concat ks) = (32 * length ks)%nat.
Proof using Type.
  induction 1 as [|k ks Hk Hks IH]; [done|]. cbn [concat length]. rewrite length_app. lia.
Qed.

Lemma concat_rows_length {A} (rows : list (list A)) m :
  Forall (fun row => length row = m) rows -> length (concat rows) = (length rows * m)%nat.
Proof using Type.
  induction 1 as [|k ks Hk Hks IH]; [done|]. cbn [concat length]. rewrite length_app. lia.
Qed.

Lemma rectangular_spec {A} (k : list (list A)) m : Forall (fun row => length row = m) k ->
  rectangular k = true.
Proof using Type.
  destruct 1 as [|k0 k Hk0 Hk]; [done|]. simpl. apply forallb_forall. intros row Hin.
  apply list_elem_of_In in Hin. rewrite Forall_forall in Hk. apply Nat.eqb_eq. rewrite (Hk row Hin). done.
Qed.

Lemma parse_point_pt msg p : key_ok p /\ ge_frombytes p = true ->
  length p = 32%nat /\ res_wrap msg (Point_FromBytesS p) = Ok p.
Proof using Type. intros [[Hl _] Hv]. split; [done|]. by rewrite Point_FromBytesS_ok. Qed.

Lemma parse_scalar_sc msg s : sc_ok s -> length s = 32%nat /\ parse_scalar msg s = Ok s.
Proof using Type.
  intros Hs. split; [apply Hs|]. unfold parse_scalar.
  by rewrite (FromBytesS_exact s (proj1 Hs)), (sc_ok_valid s Hs).
Qed.
End parse.

Section serialization.
Context `{CO : CurveOps} `{DG : Digests}.

(** Without a test of the bounds, when the length was tested before. *)
Lemma parse_keys_bounded parse1 b k : (forall x, res_safe (parse1 x)) -> forall off,
  (off + 32 * k <= length b)%nat ->
  match parse_keys (get_key b) parse1 k off with
  | Ok (_, o) => o = (off + 32 * k)%nat
  | r => res_safe r
  end.
Proof using Type.
  intros Hp. induction k as [|k IH]; intros off Hoff; cbn [parse_keys]; [lia|].
  unfold get_key, Ed25519KeySize at 1.
  destruct (slice_safe b off (off + 32)) as (d & -> & _); [lia|]. cbn [res_bind].
  pose proof (Hp d) as H1'. destruct (parse1 d); try done. cbn [res_bind].
  unfold Ed25519KeySize. pose proof (IH (off + 32)%nat ltac:(lia)) as H2'.
  destruct (parse_keys _ _ _ _) as [[]| | |]; try done. cbn [res_bind]. lia.
Qed.

Lemma parse_rows_bounded parse1 b n m : (forall x, res_safe (parse1 x)) -> forall off,
  (off + 32 * (n * m) <= length b)%nat -> res_safe (parse_rows (get_key b) parse1 n m off).
Proof using Type.
  intros Hp. induction n as [|n IH]; intros off Hoff; cbn [parse_rows]; [done|].
  pose proof (parse_keys_bounded parse1 b m Hp off ltac:(lia)) as H1'.
  destruct (parse_keys _ _ _ _) as [[row o]| | |]; try done. cbn [res_bind]. subst o.
  pose proof (IH (off + 32 * m)%nat ltac:(lia)) as H2'. by destruct (parse_rows _ _ _ _ _) as [[]| | |].
Qed.

(** Well-formed rings and signatures. *)
Definition ring_ok (m : nat) (R : Ring) : Prop :=
  Forall (fun row => length row = m /\ Forall (fun p => key_ok p /\ ge_frombytes p = true) row) R.
Definition sig_ok (m : nat) (s : Sig) : Prop :=
  match sig_c s with Some c => sc_ok c | None => False end /\
  Forall (fun p => key_ok p /\ ge_frombytes p = true) (sig_keyImages s) /\
  Forall (fun row => length row = m /\ Forall sc_ok row) (sig_r s).

Lemma u8_small n : (n <= 255)%nat -> u8 (Z.of_nat n) = Z.of_nat n.
Proof using Type. intros Hn. unfold u8. apply Z.mod_small. lia. Qed.

Lemma land_column n : (n <= 255)%nat -> Z.land (Z.of_nat n) 0xFF = Z.of_nat n.
Proof using Type.
  intros Hn. change 0xFF with (Z.ones 8). rewrite Z.land_ones by lia. apply Z.mod_small. lia.
Qed.

Lemma Forall_row_length {A} (P : list A -> Prop) m (rows : list (list A)) :
  Forall (fun row => length row = m /\ P row) rows -> Forall (fun row => length row = m) rows.
Proof using Type. intros Hr. eapply Forall_impl; [exact Hr|]. by intros ? []. Qed.

Lemma Forall_concat_rows {A} (P : A -> Prop) m (rows : list (list A)) :
  Forall (fun row => length row = m /\ Forall P row) rows -> Forall P (concat rows).
Proof using Type.
  induction 1 as [|row rows [_ Hr] Hrows IH]; [done|]. cbn [concat]. by apply Forall_app.
Qed.

Lemma Ring_roundtrip m R : ring_ok m R -> R <> [] -> (length R <= 255)%nat -> (m <= 255)%nat ->
  exists b, Ring_ToBytes R = Ok b /\ Ring_FromBytes b = Ok R.
Proof using Type.
  intros HR Hne Hn Hm. pose proof (Forall_row_length _ m R HR) as Hlen.
  destruct R as [|k0 R'] eqn:ER; [done|]. rewrite <- ER in *.
  assert (length k0 = m) as Hk0 by (rewrite ER in Hlen; by inversion Hlen).
  assert (Ring_ToBytes R = Ok ([SigPrefix; Z.of_nat (length R); Z.of_nat m] ++ concat (concat R))) as Eb.
  { unfold Ring_ToBytes. rewrite ER. rewrite <- ER. rewrite (rectangular_spec R m Hlen). cbn [negb].
    rewrite Hk0. replace (255 <? length R)%nat with false by (symmetry; apply Nat.ltb_ge; lia).
    replace (255 <? m)%nat with false by (symmetry; apply Nat.ltb_ge; lia). cbn [orb].
    by rewrite !u8_small. }
  eexists. split; [exact Eb|]. set (b := [SigPrefix; Z.of_nat (length R); Z.of_nat m] ++ concat (concat R)).
  assert (length b = (32 * length R * m + 3)%nat) as Lb.
  { unfold b. rewrite length_app. rewrite concat_keys_length.
    - rewrite (concat_rows_length R m Hlen). cbn [length]. lia.
    - eapply Forall_impl; [eapply Forall_concat_rows, HR|]. by intros p [[? _] _]. }
  unfold Ring_FromBytes, Ed25519KeySize. rewrite Lb.
  assert (index b 0 = Ok SigPrefix) as -> by reflexivity.
  assert (index b 1 = Ok (Z.of_nat (length R))) as -> by reflexivity.
  assert (index b 2 = Ok (Z.of_nat m)) as -> by reflexivity.
  cbn [res_bind]. rewrite Z.eqb_refl, !Nat2Z.id, Nat.eqb_refl. cbn [negb].
  replace (32 * length R * m + 3 <? 3)%nat with false by (symmetry; apply Nat.ltb_ge; lia).
  rewrite (parse_rows_at _ _ b m R) with (pre := [SigPrefix; Z.of_nat (length R); Z.of_nat m]) (suf := []);
    [done| | |unfold b; by rewrite app_nil_r].
  - intros pre k suf Hb Hl. by apply (get_key_at b pre k suf).
  - eapply Forall_impl; [exact HR|]. intros row [Hl Hp]. split; [done|].
    eapply Forall_impl; [exact Hp|]. apply parse_point_pt.
Qed.

Lemma Sig_tail m s : sig_ok m s -> (length (sig_r s) <= 255)%nat -> (m <= 255)%nat ->
  (length (sig_keyImages s) <= 255)%nat ->
  exists n' m', Sig_ToBytes s = Ok ([SigPrefix] ++ opt_field (sig_c s) ++
      (Z.of_nat (length (sig_keyImages s)) :: concat (sig_keyImages s)) ++
      [n'; m'] ++ concat (concat (sig_r s))) /\
    Z.to_nat n' = length (sig_r s) /\ (sig_r s <> [] -> Z.to_nat m' = m).
Proof using Type.
  intros (_ & _ & Hr) Hn Hm Hk. pose proof (Forall_row_length _ m _ Hr) as Hlen.
  unfold Sig_ToBytes, MaxSizeByte. rewrite land_column by done.
  replace (255 <? length (sig_keyImages s))%nat with false by (symmetry; apply Nat.ltb_ge; lia).
  destruct (sig_r s) as [|r0 rr] eqn:Er.
  - exists 0, 0. split; [|done]. cbn [concat]. f_equal. rewrite app_nil_r.
    cbn [app]. f_equal. by rewrite <- !app_assoc.
  - rewrite <- Er in *. assert (length r0 = m) as Hr0 by (rewrite Er in Hlen; by inversion Hlen).
    rewrite Hr0, !land_column by done.
    replace (255 <? length (sig_r s))%nat with false by (symmetry; apply Nat.ltb_ge; lia).
    replace (255 <? m)%nat with false by (symmetry; apply Nat.ltb_ge; lia).
    rewrite (rectangular_spec (sig_r s) m Hlen). cbn [orb negb].
    exists (Z.of_nat (length (sig_r s))), (Z.of_nat m). rewrite !Nat2Z.id. split; [|done].
    f_equal. cbn [app]. f_equal. by rewrite <- !app_assoc.
Qed.

Lemma Sig_roundtrip m s : sig_ok m s -> (length (sig_r s) <= 255)%nat -> (m <= 255)%nat ->
  (length (sig_keyImages s) <= 255)%nat ->
  exists b, Sig_ToBytes s = Ok b /\ Sig_FromBytes b = Ok s.
Proof using Type.
  intros Hok Hn Hm Hk. destruct (Sig_tail m s Hok Hn Hm Hk) as (n' & m' & Eb & En & Em).
  eexists. split; [exact Eb|]. clear Eb. destruct Hok as (Hc & Hki & Hr).
  destruct (sig_c s) as [c|] eqn:Ec; [|done]. pose proof (proj1 (proj1 Hc)) as Hcl.
  unfold Ed25519KeySize in Hcl. set (K := concat (sig_keyImages s)) in *.
  set (RR := concat (concat (sig_r s))) in *.
  set (b := [SigPrefix] ++ opt_field (Some c) ++ (Z.of_nat (length (sig_keyImages s)) :: K) ++ [n'; m'] ++ RR).
  assert (b = [SigPrefix; 32] ++ c ++ (Z.of_nat (length (sig_keyImages s)) :: K) ++ [n'; m'] ++ RR) as Eb
    by reflexivity. clearbody b.
  assert (length b = 35 + length K + 2 + length RR)%nat as Lb
    by (rewrite Eb; rewrite !length_app; cbn [length]; lia).
  unfold Sig_FromBytes. replace (length b =? 0)%nat with false by (symmetry; apply Nat.eqb_neq; lia).
  assert (index b 0 = Ok SigPrefix) as -> by (by rewrite Eb).
  assert (index b 1 = Ok 32) as -> by (by rewrite Eb). cbn [res_bind]. rewrite Z.eqb_refl. cbn [negb].
  change (32 =? Z.of_nat Ed25519KeySize) with true. cbn [negb].
  change 2%nat with (length [SigPrefix; 32]) at 1.
  rewrite (get_key_checked_at _ b [SigPrefix; 32] c _ Eb Hcl). cbn [res_bind].
  rewrite (proj2 (parse_scalar_sc _ c Hc)). cbn [res_bind]. unfold Ed25519KeySize. cbn [Nat.add].
  replace (length b <=? 34)%nat with false by (symmetry; apply Nat.leb_gt; lia).
  assert (index b 34 = Ok (Z.of_nat (length (sig_keyImages s)))) as ->.
  { rewrite Eb, app_assoc. apply index_middle. rewrite length_app. cbn [length]. lia. }
  cbn [res_bind]. rewrite Nat2Z.id.
  set (P1 := [SigPrefix; 32] ++ c ++ [Z.of_nat (length (sig_keyImages s))]).
  assert (length P1 = 35%nat) as LP1 by (unfold P1; rewrite !length_app; cbn [length]; lia).
  assert (b = P1 ++ K ++ ([n'; m'] ++ RR)) as Eb1 by (rewrite Eb; unfold P1; by rewrite <- !app_assoc).
  rewrite <- LP1.
  rewrite (parse_keys_at _ _ b (sig_keyImages s)) with (suf := [n'; m'] ++ RR); [| | |exact Eb1].
  2: { intros pre k suf Hb Hl. by apply (get_key_checked_at _ b pre k suf). }
  2: { eapply Forall_impl; [exact Hki|]. apply parse_point_pt. }
  cbn [res_bind]. fold K. set (P2 := P1 ++ K).
  assert (length P2 = 35 + length K)%nat as LP2 by (unfold P2; rewrite length_app; lia).
  replace (length b <? length P2 + 2)%nat with false by (symmetry; apply Nat.ltb_ge; lia).
  assert (b = P2 ++ n' :: m' :: RR) as Eb2 by (rewrite Eb1; unfold P2; by rewrite <- app_assoc).
  assert (index b (length P2) = Ok n') as -> by (rewrite Eb2; by apply index_middle).
  assert (index b (length P2 + 1) = Ok m') as ->.
  { rewrite Eb2. change (n' :: m' :: RR) with ([n'] ++ m' :: RR). rewrite app_assoc.
    apply index_middle. rewrite length_app. cbn [length]. lia. }
  cbn [res_bind]. rewrite En.
  assert (Forall (fun row => length row = Z.to_nat m' /\ Forall (fun k => length k = 32%nat /\
    parse_scalar "cannot parse R of mlsagSig, invalid scalar" k = Ok k) row) (sig_r s)) as Hrows.
  { destruct (sig_r s) as [|r0 rr] eqn:Er; [constructor|]. rewrite Em by done.
    eapply Forall_impl; [exact Hr|]. intros row [Hl Hp]. split; [done|].
    eapply Forall_impl; [exact Hp|]. apply parse_scalar_sc. }
  replace (length P2 + 2)%nat with (length (P2 ++ [n'; m'])) by (rewrite length_app; cbn [length]; lia).
  rewrite (parse_rows_at _ _ b (Z.to_nat m') (sig_r s)) with (suf := []); [| |exact Hrows|].
  - cbn [res_bind]. destruct s as [c0 ki r]. cbn [sig_c sig_keyImages sig_r] in *. by rewrite Ec.
  - intros pre k suf Hb Hl. by apply (get_key_checked_at _ b pre k suf).
  - rewrite Eb2, app_nil_r. fold RR. by rewrite <- app_assoc.
Qed.
End serialization.

(** ** Closing the ring *)

Section closing.
Context `{CL : CurveLaws}.
Variable firstC : list (list Z) -> list (list Z) -> res (option (list Z)).
Variable nextC : list (list Z) -> option (list Z) -> list (list Z) -> res (option (list Z)).
Variables (keys r : list (list (list Z))) (pi : nat) (alpha xs Kpi : list (list Z)).

Let n := length keys.
Hypothesis Hpi : (pi < n)%nat.
Hypothesis Hr : length r = n.
Hypothesis Hkpi : keys !! pi = Some Kpi.

(** The rows of the others give a challenge; the row of the signer, with the
    responses filled in, gives the first challenge. *)
Hypothesis next_total : forall i ri Ki s, i <> pi -> r !! i = Some ri -> keys !! i = Some Ki ->
  sc_ok s -> exists s', nextC ri (Some s) Ki = Ok (Some s') /\ sc_ok s'.
Hypothesis first_total : exists s, firstC alpha Kpi = Ok (Some s) /\ sc_ok s.
Hypothesis closing : forall s, sc_ok s ->
  nextC (zip_with (fun a x => ScSub a (ScMul s x)) alpha xs) (Some s) Kpi = firstC alpha Kpi.

(** The index visited at step [k]. *)
Let at_step (k : nat) : nat := ((pi + 1 + k) mod n)%nat.

Lemma at_step_lt k : (at_step k < n)%nat.
Proof using Hpi Hr. apply Nat.mod_upper_bound. lia. Qed.

Lemma at_step_succ k : ((at_step k + 1) mod n)%nat = at_step (S k).
Proof using Hpi Hr. unfold at_step. rewrite Nat.Div0.add_mod_idemp_l. f_equal. lia. Qed.

Lemma at_step_inj k k' : (k < n)%nat -> (k' < n)%nat -> at_step k = at_step k' -> k = k'.
Proof using Hpi Hr.
  intros Hk Hk' E. unfold at_step in E.
  pose proof (Nat.div_mod (pi + 1 + k) n ltac:(lia)). pose proof (Nat.div_mod (pi + 1 + k') n ltac:(lia)).
  rewrite E in *. assert ((pi + 1 + k) / n = (pi + 1 + k') / n)%nat; nia.
Qed.

Lemma at_step_last : at_step (n - 1) = pi.
Proof using Hpi Hr.
  unfold at_step. replace (pi + 1 + (n - 1))%nat with (pi + 1 * n)%nat by lia.
  rewrite Nat.Div0.mod_add. by apply Nat.mod_small.
Qed.

Lemma at_step_pi k : (k < n)%nat -> at_step k = pi -> k = (n - 1)%nat.
Proof using Hpi Hr. intros Hk E. apply at_step_inj; [done|lia|]. by rewrite at_step_last. Qed.

Lemma step_of j : (j < n)%nat -> exists k, (k < n)%nat /\ at_step k = j.
Proof using Hpi Hr.
  intros Hj. destruct (Nat.lt_ge_cases pi j).
  - exists (j - pi - 1)%nat. split; [lia|]. unfold at_step.
    replace (pi + 1 + (j - pi - 1))%nat with j by lia. by apply Nat.mod_small.
  - exists (j + n - pi - 1)%nat. split; [lia|]. unfold at_step.
    replace (pi + 1 + (j + n - pi - 1))%nat with (j + 1 * n)%nat by lia.
    rewrite Nat.Div0.mod_add. by apply Nat.mod_small.
Qed.

(** The link between two neighbours in the array of challenges. *)
Let linked (c : list (option (list Z))) (k : nat) : Prop :=
  exists s s', c !! at_step k = Some (Some s) /\ sc_ok s /\ c !! at_step (S k) = Some (Some s') /\
    sc_ok s' /\ (forall ri Ki, r !! at_step k = Some ri -> keys !! at_step k = Some Ki ->
      nextC ri (Some s) Ki = Ok (Some s')).

Lemma ring_loop_ok d : forall k fuel c s, (k + d = n - 1)%nat -> (d <= fuel)%nat ->
  length c = n -> c !! at_step k = Some (Some s) -> sc_ok s ->
  exists c', ring_loop nextC fuel keys r pi (at_step k) (at_step (S k)) c = Ok c' /\
    length c' = n /\ (forall t, (t <= k)%nat -> c' !! at_step t = c !! at_step t) /\
    (forall t, (k <= t < n - 1)%nat -> linked c' t).
Proof using Hpi Hr next_total.
  induction d as [|d IH]; intros k fuel c s Hk Hf Hl Hc Hs.
  - assert (k = n - 1)%nat as -> by lia. exists c. rewrite at_step_last.
    split; [destruct fuel; cbn [ring_loop]; by rewrite Nat.eqb_refl|].
    split; [done|]. split; [done|]. intros t Ht. lia.
  - destruct fuel as [|fuel]; [lia|]. cbn [ring_loop].
    destruct (Nat.eqb_spec (at_step k) pi) as [E|Hne]; [apply at_step_pi in E; lia|].
    destruct (lookup_lt_is_Some_2 r (at_step k)) as [ri Eri]; [rewrite Hr; apply at_step_lt|].
    destruct (lookup_lt_is_Some_2 keys (at_step k)) as [Ki EKi]; [apply at_step_lt|].
    destruct (next_total _ ri Ki s Hne Eri EKi Hs) as (s' & En & Hs').
    rewrite (index_ok r _ ri Eri), (index_ok c _ _ Hc), (index_ok keys _ Ki EKi). cbn [res_bind].
    rewrite En. cbn [res_bind]. fold n. rewrite at_step_succ.
    assert (forall t, (t <= k)%nat -> at_step (S k) <> at_step t) as Hd.
    { intros t Ht E. apply at_step_inj in E; lia. }
    set (c1 := <[at_step (S k) := Some s']> c).
    assert (c1 !! at_step (S k) = Some (Some s')) as Hc1.
    { apply list_lookup_insert_eq. rewrite Hl. apply at_step_lt. }
    destruct (IH (S k) fuel c1 s') as (c' & El & Hl' & Hold & Hnew);
      [lia|lia|unfold c1; by rewrite length_insert|exact Hc1|done|].
    exists c'. split; [exact El|]. split; [done|].
    assert (forall t, (t <= k)%nat -> c' !! at_step t = c !! at_step t) as Hold'.
    { intros t Ht. rewrite Hold by lia. apply list_lookup_insert_ne. by apply Hd. }
    split; [exact Hold'|]. intros t Ht. destruct (Nat.eq_dec t k) as [->|Htk]; [|apply Hnew; lia].
    exists s, s'. rewrite (Hold' k) by lia. split; [done|]. split; [done|].
    rewrite (Hold (S k)) by lia. split; [exact Hc1|]. split; [done|].
    intros ri0 Ki0 E1 E2. rewrite Eri in E1. rewrite EKi in E2. by simplify_eq.
Qed.

(** [ring_challenges] returns challenges in which every row, the signer's
    included, leads to the next one. *)
Lemma ring_challenges_ok ml : ml_R ml = keys -> ml_pi ml = pi -> ml_privateKeys ml = xs ->
  exists c cpi, let row := zip_with (fun a x => ScSub a (ScMul cpi x)) alpha xs in
    ring_challenges firstC nextC ml alpha r = Ok (c, <[pi := row]> r) /\
    length c = n /\ sc_ok cpi /\
    (forall j, (j < n)%nat -> exists s s', c !! j = Some (Some s) /\ sc_ok s /\
       c !! ((j + 1) mod n)%nat = Some (Some s') /\
       forall ri Ki, <[pi := row]> r !! j = Some ri -> keys !! j = Some Ki ->
         nextC ri (Some s) Ki = Ok (Some s')).
Proof using Hpi Hr Hkpi next_total first_total closing.
  intros ER Epi Exs. destruct first_total as (s0 & E0 & Hs0).
  set (c0 := <[at_step 0 := Some s0]> (replicate n None)).
  assert (length c0 = n) as Hl0 by (unfold c0; by rewrite length_insert, length_replicate).
  assert (c0 !! at_step 0 = Some (Some s0)) as Hc0.
  { apply list_lookup_insert_eq. rewrite length_replicate. apply at_step_lt. }
  destruct (ring_loop_ok (n - 1) 0 n c0 s0) as (c & El & Hl & Hold & Hnew); [lia|lia|done|done|done|].
  assert (exists cpi, c !! pi = Some (Some cpi) /\ sc_ok cpi) as (cpi & Hcpi & Hscpi).
  { destruct (Nat.eq_dec n 1) as [Hn1|Hn1].
    - exists s0. split; [|done]. rewrite <- at_step_last. replace (n - 1)%nat with 0%nat by lia.
      by rewrite Hold.
    - destruct (Hnew (n - 2)%nat ltac:(lia)) as (s & s' & _ & _ & Hs' & Hok & _).
      replace (S (n - 2)) with (n - 1)%nat in Hs' by lia. rewrite at_step_last in Hs'. by exists s'. }
  set (row := zip_with (fun a x => ScSub a (ScMul cpi x)) alpha xs).
  exists c, cpi. cbv zeta. fold row. split; [|split; [done|split; [done|]]].
  - unfold ring_challenges. rewrite ER, Epi, Exs, (index_ok keys pi Kpi Hkpi). cbn [res_bind].
    rewrite E0. cbn [res_bind]. fold n.
    replace ((pi + 1) mod n)%nat with (at_step 0) by (unfold at_step; f_equal; lia).
    rewrite at_step_succ. fold c0. rewrite El. cbn [res_bind].
    rewrite (index_ok c pi _ Hcpi). cbn [res_bind deref].
    destruct (lookup_lt_is_Some_2 r pi) as [rp Erp]; [lia|]. by rewrite (index_ok r pi rp Erp).
  - intros j Hj. destruct (step_of j Hj) as (k & Hk & <-). rewrite at_step_succ.
    destruct (Nat.eq_dec k (n - 1)) as [->|Hkn].
    + rewrite at_step_last. exists cpi, s0. split; [done|]. split; [done|].
      assert (at_step (S (n - 1)) = at_step 0) as ->.
      { unfold at_step. replace (pi + 1 + S (n - 1))%nat with (pi + 1 + 0 + 1 * n)%nat by lia.
        apply Nat.Div0.mod_add. }
      split; [by rewrite Hold|]. intros ri Ki Eri EKi.
      rewrite list_lookup_insert_eq in Eri by lia. rewrite Hkpi in EKi. simplify_eq.
      rewrite <- E0. by apply closing.
    + destruct (Hnew k ltac:(lia)) as (s & s' & H1' & H2' & H3' & _ & H4'). exists s, s'.
      split; [done|]. split; [done|]. split; [done|]. intros ri Ki Eri EKi.
      assert (at_step k <> pi) as Hne by (intros E; apply at_step_pi in E; lia).
      rewrite list_lookup_insert_ne in Eri by congruence. by apply H4'.
Qed.
End closing.

(** A chain that follows an array of challenges ends where it began. *)
Lemma chain_closed nextC (r keys : list (list (list Z))) (c : list (option (list Z))) n :
  length r = n -> length keys = n ->
  (forall j, (j < n)%nat -> exists s s', c !! j = Some s /\ c !! ((j + 1) mod n)%nat = Some s' /\
     forall ri Ki, r !! j = Some ri -> keys !! j = Some Ki -> nextC ri s Ki = Ok s') ->
  forall c0, c !! 0%nat = Some c0 -> chain nextC (zip r keys) c0 = Ok c0.
Proof.
  intros Hr Hk Hstep c0 Hc0.
  assert (forall d j s, (j + d = n)%nat -> c !! (j mod n)%nat = Some s ->
            chain nextC (zip (drop j r) (drop j keys)) s = Ok c0) as Hall.
  { induction d as [|d IH]; intros j s Hj Hs.
    - rewrite !drop_ge by lia. cbn [zip zip_with chain]. f_equal.
      destruct (Nat.eq_dec n 0) as [->|Hn]; [simpl in Hs; replace j with 0%nat in Hs by lia; congruence|].
      replace j with n in Hs by lia. rewrite Nat.Div0.mod_same in Hs. congruence.
    - destruct (lookup_lt_is_Some_2 r j) as [ri Eri]; [lia|].
      destruct (lookup_lt_is_Some_2 keys j) as [Ki EKi]; [lia|].
      rewrite (drop_S r ri j Eri), (drop_S keys Ki j EKi). cbn [zip zip_with chain].
      destruct (Hstep j ltac:(lia)) as (s1 & s2 & H1' & H2' & H3').
      rewrite Nat.mod_small in Hs by lia. simplify_eq. rewrite (H3' ri Ki Eri EKi). cbn [res_bind].
      apply IH; [lia|]. by rewrite <- Nat.add_1_r. }
  specialize (Hall n 0%nat c0 ltac:(lia)). rewrite !drop_0 in Hall. apply Hall.
  by rewrite Nat.Div0.mod_0_l.
Qed.

(** ** The challenges of the code *)

Section challenges.
Context `{CL : CurveLaws} `{DL : DigestLaws}.

(** The point a key hashes to. *)
Definition hash_point (K : list Z) : list Z := default [] (HashToPoint K).

Lemma hash_point_ok K : HashToPoint K = Some (hash_point K) /\ pt_ok (hash_point K).
Proof using CL DL.
  destruct (HashToPoint_ok K) as (p & E & Hp). unfold hash_point. by rewrite E.
Qed.

(** The public keys of the row of the signer: the last [k] columns commit to the
    random base [h]. *)
Definition ring_keys (k : nat) (h : list Z) (xs : list (list Z)) : list (list Z) :=
  map (ScalarMultKey GBASE) (take (length xs - k) xs) ++
  map (ScalarMultKey h) (drop (length xs - k) xs).

Definition key_image (x : list Z) : list Z :=
  ScalarMultKey (hash_point (ScalarMultKey GBASE x)) x.

Definition responses (c : list Z) (alpha xs : list (list Z)) : list (list Z) :=
  zip_with (fun a x => ScSub a (ScMul c x)) alpha xs.

Lemma ScMul_comm a b : sc_ok a -> sc_ok b -> ScMul a b = ScMul b a.
Proof using CL. intros. rewrite !ScMul_spec by done. f_equal. f_equal. lia. Qed.

Lemma response_comm g s x c : pt_ok g -> sc_ok s -> sc_ok x -> sc_ok c ->
  AddKeys (ScalarMultKey g (ScSub s (ScMul c x))) (ScalarMultKey (ScalarMultKey g x) c)
  = ScalarMultKey g s.
Proof using CL. intros. rewrite (ScMul_comm c x) by done. by apply response_eq. Qed.

Lemma response_ok c a x : sc_ok c -> sc_ok a -> sc_ok x -> sc_ok (ScSub a (ScMul c x)).
Proof using CL. intros Hc Ha Hx. by apply ScSub_ok, ScMul_ok. Qed.

Lemma responses_ok c alpha xs : sc_ok c -> Forall sc_ok alpha -> Forall sc_ok xs ->
  Forall sc_ok (responses c alpha xs).
Proof using CL.
  intros Hc Ha. revert xs. induction Ha as [|a alpha Ha0 Ha IH]; intros xs Hx; [constructor|].
  destruct Hx as [|x xs Hx0 Hx]; [constructor|]. constructor; [by apply response_ok|by apply IH].
Qed.

(** The columns of the signer's row give back the columns of the first
    challenge. *)
Lemma columns_closed c alpha xs : sc_ok c -> Forall sc_ok alpha -> Forall sc_ok xs ->
  next_columns c (zip (zip (responses c alpha xs) (map (ScalarMultKey GBASE) xs)) (map key_image xs))
  = first_columns (zip (take (length xs) alpha) (map (ScalarMultKey GBASE) xs)).
Proof using CL DL.
  intros Hc Ha. revert xs. induction Ha as [|a alpha Ha0 Ha IH]; intros xs Hx; [by rewrite take_nil|].
  destruct Hx as [|x xs Hx0 Hx]; [done|].
  change (responses c (a :: alpha) (x :: xs)) with (ScSub a (ScMul c x) :: responses c alpha xs).
  cbn [zip_with map next_columns first_columns length take].
  destruct (hash_point_ok (ScalarMultKey GBASE x)) as [EH HH].
  rewrite EH. cbn [deref res_bind]. unfold Point_ScalarMult, Point_Add.
  rewrite !ScalarMultBase_sc by (try done; by apply response_ok).
  rewrite response_comm by (try done; apply pt_base). 
  change (key_image x) with (ScalarMultKey (hash_point (ScalarMultKey GBASE x)) x).
  rewrite response_comm by done.
  by rewrite (IH xs Hx).
Qed.

Lemma first_columns_ok cols : Forall (fun ak => sc_ok (fst ak)) cols ->
  exists b, first_columns cols = Ok b /\ bytes_ok b.
Proof using CL DL.
  induction 1 as [|[a K] cols Ha Hcols IH]; cbn [first_columns]; [exists []; split; [done|constructor]|]. simpl in Ha.
  destruct IH as (b & -> & Hb). destruct (hash_point_ok K) as [-> HH]. cbn [deref res_bind].
  eexists. split; [reflexivity|]. rewrite ScalarMultBase_sc by done. unfold Point_ScalarMult.
  assert (pt_ok (ScalarMultKey GBASE a)) as P1 by (apply pt_mult; [apply pt_base|done]).
  assert (pt_ok (ScalarMultKey (hash_point K) a)) as P2 by (by apply pt_mult).
  apply Forall_app. split; [exact (proj2 (proj1 (pt_key _ P1)))|].
  apply Forall_app. split; [exact (proj2 (proj1 (pt_key _ P2)))|done].
Qed.

Lemma next_columns_ok c cols : sc_ok c ->
  Forall (fun rki => sc_ok (fst (fst rki)) /\ pt_ok (snd (fst rki)) /\ pt_ok (snd rki)) cols ->
  exists b, next_columns c cols = Ok b /\ bytes_ok b.
Proof using CL DL.
  intros Hc. induction 1 as [|[[r K] ki] cols (Hr & HK & Hki) Hcols IH]; cbn [next_columns]; [exists []; split; [done|constructor]|].
  simpl in Hr, HK, Hki. destruct IH as (b & -> & Hb). destruct (hash_point_ok K) as [-> HH].
  cbn [deref res_bind]. eexists. split; [reflexivity|]. rewrite ScalarMultBase_sc by done.
  unfold Point_ScalarMult, Point_Add.
  assert (pt_ok (AddKeys (ScalarMultKey GBASE r) (ScalarMultKey K c))) as P1
    by (apply pt_add; apply pt_mult; try done; apply pt_base).
  assert (pt_ok (AddKeys (ScalarMultKey (hash_point K) r) (ScalarMultKey ki c))) as P2
    by (apply pt_add; by apply pt_mult).
  apply Forall_app. split; [exact (proj2 (proj1 (pt_key _ P1)))|].
  apply Forall_app. split; [exact (proj2 (proj1 (pt_key _ P2)))|done].
Qed.

(** *** Commitment columns *)

Lemma PedG_h : exists h, index PedG PedersenRandomnessIndex = Ok h /\ pt_ok h.
Proof using CL DL. apply PedG_index. unfold PedersenRandomnessIndex. lia. Qed.

Lemma first_commitment_ok alpha i a : alpha !! i = Some a -> sc_ok a ->
  exists p, first_commitment alpha i = Ok p /\ bytes_ok p.
Proof using CL DL.
  intros Hi Ha. unfold first_commitment. destruct PedG_h as (h & -> & Hh). cbn [res_bind].
  rewrite (index_ok alpha i a Hi). cbn [res_bind]. eexists. split; [reflexivity|].
  exact (proj2 (proj1 (pt_key _ (pt_mult h a Hh Ha)))).
Qed.

Lemma next_commitment_ok c r K i ri Ki : r !! i = Some ri -> K !! i = Some Ki -> sc_ok c -> sc_ok ri ->
  pt_ok Ki -> exists p, next_commitment c r K i = Ok p /\ bytes_ok p.
Proof using CL DL.
  intros Hi HK Hc Hr HKi. unfold next_commitment. destruct PedG_h as (h & -> & Hh). cbn [res_bind].
  rewrite (index_ok r i ri Hi), (index_ok K i Ki HK). cbn [res_bind]. eexists. split; [reflexivity|].
  assert (pt_ok (AddKeys (ScalarMultKey h ri) (ScalarMultKey Ki c))) as P
    by (apply pt_add; by apply pt_mult). exact (proj2 (proj1 (pt_key _ P))).
Qed.

Lemma commitment_closed c h alpha xs K i a x : index PedG PedersenRandomnessIndex = Ok h -> pt_ok h ->
  alpha !! i = Some a -> xs !! i = Some x -> K !! i = Some (ScalarMultKey h x) ->
  sc_ok c -> sc_ok a -> sc_ok x ->
  next_commitment c (responses c alpha xs) K i = first_commitment alpha i.
Proof using CL.
  intros Eh Hh Ea Ex EK Hc Ha Hx. unfold next_commitment, first_commitment. rewrite Eh. cbn [res_bind].
  assert (responses c alpha xs !! i = Some (ScSub a (ScMul c x))) as Er.
  { unfold responses. by rewrite lookup_zip_with, Ea, Ex. }
  rewrite (index_ok _ _ _ Er), (index_ok _ _ _ EK), (index_ok _ _ _ Ea). cbn [res_bind].
  unfold Point_Add, Point_ScalarMult. by rewrite response_comm.
Qed.
End challenges.

Section signing.
Context `{CL : CurveLaws} `{DL : DigestLaws}.

Lemma with_last_ok f g (P : list Z -> Prop) l : Forall P l ->
  (forall x isLast, P x -> f x isLast = Ok (g x isLast)) ->
  with_last f l = Ok (map (fun x => g x false) (take (length l - 1) l) ++
                      map (fun x => g x true) (drop (length l - 1) l)).
Proof using Type.
  intros Hl Hf. induction Hl as [|x l Hx Hl IH]; [done|]. cbn [with_last].
  rewrite Hf by done. cbn [res_bind]. rewrite IH. cbn [res_bind]. f_equal.
  destruct l as [|y l]; [done|]. cbn [length Nat.sub]. by rewrite Nat.sub_0_r.
Qed.

Lemma parsePublicKey_ok h x isLast : index PedG PedersenRandomnessIndex = Ok h -> sc_ok x ->
  parsePublicKey x isLast = Ok (ScalarMultKey (if isLast then h else GBASE) x).
Proof using CL.
  intros Hh Hx. unfold parsePublicKey. rewrite Hh. cbn [res_bind].
  destruct isLast; [done|]. by rewrite ScalarMultBase_sc.
Qed.

(** The key images: of the right number, and the columns before the last are the
    images of the keys. *)
Lemma parseKeyImages_ok xs : Forall sc_ok xs ->
  exists kis, parseKeyImages xs = Ok kis /\ length kis = length xs /\ Forall pt_ok kis /\
    forall n, (n < length xs)%nat -> take n kis = map key_image (take n xs).
Proof using CL DL.
  intros Hxs. destruct PedG_h as (h & Eh & Hh).
  set (g := fun (x : list Z) (isLast : bool) =>
    ScalarMultKey (hash_point (ScalarMultKey (if isLast then h else GBASE) x)) x).
  unfold parseKeyImages. rewrite (with_last_ok _ g sc_ok xs Hxs).
  2: { intros x isLast Hx. rewrite (parsePublicKey_ok h x isLast Eh Hx). cbn [res_bind].
       destruct (hash_point_ok (ScalarMultKey (if isLast then h else GBASE) x)) as [-> _]. done. }
  eexists. split; [reflexivity|].
  assert (forall x b, sc_ok x -> pt_ok (g x b)) as Hg.
  { intros x b Hx. unfold g. apply pt_mult; [apply hash_point_ok|done]. }
  split; [by rewrite length_app, !length_map, <- length_app, take_drop|]. split.
  - apply Forall_app. split; apply Forall_map.
    + eapply Forall_impl; [by apply Forall_take|]. intros x Hx. by apply Hg.
    + eapply Forall_impl; [by apply Forall_drop|]. intros x Hx. by apply Hg.
  - intros n Hn. rewrite take_app_le by (rewrite length_map, length_take; lia).
    rewrite firstn_map, take_take. by rewrite Nat.min_l by lia.
Qed.

Lemma ring_keys_lookup k h xs i x : xs !! i = Some x -> (length xs - k <= i)%nat ->
  ring_keys k h xs !! i = Some (ScalarMultKey h x).
Proof using Type.
  intros Ei Hi. unfold ring_keys.
  rewrite lookup_app_r by (rewrite length_map, length_take; lia).
  rewrite length_map, length_take. rewrite Nat.min_l by lia.
  change (map (ScalarMultKey h) (drop (length xs - k) xs)) with (ScalarMultKey h <$> drop (length xs - k) xs).
  rewrite list_lookup_fmap, lookup_drop.
  replace (length xs - k + (i - (length xs - k)))%nat with i by lia. by rewrite Ei.
Qed.

Lemma ring_keys_take k h xs : take (length xs - k) (ring_keys k h xs) =
  map (ScalarMultKey GBASE) (take (length xs - k) xs).
Proof using Type.
  unfold ring_keys. apply take_app_length'. rewrite length_map, length_take. lia.
Qed.

Lemma ring_keys_length k h xs : length (ring_keys k h xs) = length xs.
Proof using Type. unfold ring_keys. by rewrite length_app, !length_map, <- length_app, take_drop. Qed.

(** The columns before the commitments, of the row of the signer. *)
Lemma signer_columns c alpha xs kis h k : sc_ok c -> Forall sc_ok alpha -> Forall sc_ok xs ->
  length alpha = length xs -> (1 <= k)%nat -> (1 <= length xs)%nat ->
  (forall n, (n < length xs)%nat -> take n kis = map key_image (take n xs)) ->
  let n := (length xs - k)%nat in
  next_columns c (zip (zip (take n (responses c alpha xs)) (take n (ring_keys k h xs))) (take n kis))
  = first_columns (zip (take n alpha) (take n (ring_keys k h xs))).
Proof using CL DL.
  intros Hc Ha Hx Hl Hk Hxs Hki n. pose proof (ring_keys_take k h xs) as Ek. fold n in Ek.
  rewrite !Ek, Hki by lia. unfold responses. rewrite zip_with_take.
  fold (responses c (take n alpha) (take n xs)).
  rewrite columns_closed by (try done; by apply Forall_take).
  by rewrite (take_ge (take n alpha)) by (rewrite !length_take; lia).
Qed.

(** The other rows. *)
Lemma row_columns c r K kis n : sc_ok c -> Forall sc_ok r -> Forall pt_ok K -> Forall pt_ok kis ->
  exists b, next_columns c (zip (zip (take n r) (take n K)) (take n kis)) = Ok b /\ bytes_ok b.
Proof using CL DL.
  intros Hc Hr HK Hki. apply next_columns_ok; [done|].
  apply Forall_forall. intros [[a p] q] Hin.
  apply list_elem_of_lookup in Hin as [i Hi]. apply lookup_zip_with_Some in Hi as (y & z & E & Hy & Hz).
  apply lookup_zip_with_Some in Hy as (u & v & -> & Hu & Hv). simplify_eq. cbn [fst snd].
  apply lookup_take_Some in Hu as [Hu _]. apply lookup_take_Some in Hv as [Hv _].
  apply lookup_take_Some in Hz as [Hz _].
  split; [exact (Forall_lookup_1 _ _ _ _ Hr Hu)|].
  split; [exact (Forall_lookup_1 _ _ _ _ HK Hv)|exact (Forall_lookup_1 _ _ _ _ Hki Hz)].
Qed.

Lemma hash_challenge digest l : bytes_ok digest -> bytes_ok l ->
  exists s, HashToScalar (digest ++ l) = Some s /\ sc_ok s.
Proof using CL DL.
  intros Hd Hl. destruct (HashToScalar_ok (digest ++ l)) as (s & E & _ & Hs); [by apply Forall_app|].
  by exists s.
Qed.

Section row.
Variables (digest : list Z) (alpha xs kis : list (list Z)) (h : list Z).
Hypothesis Hdigest : bytes_ok digest.
Hypothesis Halpha : Forall sc_ok alpha.
Hypothesis Hxs : Forall sc_ok xs.
Hypothesis Hlen : length alpha = length xs.
Hypothesis Hh : index PedG PedersenRandomnessIndex = Ok h.
Hypothesis Hkis : Forall pt_ok kis.
Hypothesis Hklen : length kis = length xs.
Hypothesis Himages : forall n, (n < length xs)%nat -> take n kis = map key_image (take n xs).

Lemma first_cols k K : exists b, first_columns (zip (take k alpha) (take k K)) = Ok b /\ bytes_ok b.
Proof using All.
  apply first_columns_ok. apply Forall_forall. intros [a p] Hin.
  apply list_elem_of_lookup in Hin as [i Hi]. apply lookup_zip_with_Some in Hi as (u & v & E & Hu & _).
  simplify_eq. apply lookup_take_Some in Hu as [Hu _]. simpl. exact (Forall_lookup_1 _ _ _ _ Halpha Hu).
Qed.

Lemma h_ok : pt_ok h.
Proof using All. destruct PedG_h as (h' & E & Hp). rewrite Hh in E. injection E as E. by rewrite E. Qed.

Lemma first_last i : (i < length xs)%nat -> exists p, first_commitment alpha i = Ok p /\ bytes_ok p.
Proof using All.
  intros Hi. destruct (lookup_lt_is_Some_2 alpha i) as [a Ea]; [lia|].
  apply (first_commitment_ok alpha i a Ea). exact (Forall_lookup_1 _ _ _ _ Halpha Ea).
Qed.

Lemma signer_commitment k c i : sc_ok c -> (length xs - k <= i < length xs)%nat ->
  next_commitment c (responses c alpha xs) (ring_keys k h xs) i = first_commitment alpha i.
Proof using All.
  intros Hc Hi. destruct (lookup_lt_is_Some_2 alpha i) as [a Ea]; [lia|].
  destruct (lookup_lt_is_Some_2 xs i) as [x Ex]; [lia|].
  apply (commitment_closed c h alpha xs _ i a x Hh h_ok Ea Ex); try done.
  - apply ring_keys_lookup; [done|lia].
  - exact (Forall_lookup_1 _ _ _ _ Halpha Ea).
  - exact (Forall_lookup_1 _ _ _ _ Hxs Ex).
Qed.

Lemma row_commitment c r K i : sc_ok c -> Forall sc_ok r -> Forall pt_ok K -> (i < length r)%nat ->
  (i < length K)%nat -> exists p, next_commitment c r K i = Ok p /\ bytes_ok p.
Proof using All.
  intros Hc Hr HK Hir HiK. destruct (lookup_lt_is_Some_2 r i Hir) as [ri Eri].
  destruct (lookup_lt_is_Some_2 K i HiK) as [Ki EKi].
  apply (next_commitment_ok c r K i ri Ki Eri EKi Hc);
    [exact (Forall_lookup_1 _ _ _ _ Hr Eri)|exact (Forall_lookup_1 _ _ _ _ HK EKi)].
Qed.

(** The challenges for ordinary transfers. *)
Lemma FirstC_total : (1 <= length xs)%nat ->
  exists s, calculateFirstC digest alpha (ring_keys 1 h xs) = Ok (Some s) /\ sc_ok s.
Proof using All.
  intros H1'. unfold calculateFirstC. rewrite ring_keys_length, Hlen, Nat.eqb_refl. cbn [negb].
  destruct (first_cols (length xs - 1) (ring_keys 1 h xs)) as (b & -> & Hb). cbn [res_bind].
  destruct (first_last (length xs - 1) ltac:(lia)) as (p & -> & Hp). cbn [res_bind].
  destruct (hash_challenge digest (b ++ p) Hdigest) as (s & -> & Hs); [by apply Forall_app|]. by exists s.
Qed.

Lemma NextC_closing c : (1 <= length xs)%nat -> sc_ok c ->
  calculateNextC digest (responses c alpha xs) (Some c) (ring_keys 1 h xs) kis =
  calculateFirstC digest alpha (ring_keys 1 h xs).
Proof using All.
  intros H1' Hc. unfold calculateNextC, calculateFirstC.
  assert (length (responses c alpha xs) = length xs) as El
    by (unfold responses; rewrite length_zip_with; lia).
  rewrite El, Hklen, Hlen, ring_keys_length, !Nat.eqb_refl. cbn [negb orb deref res_bind].
  rewrite signer_columns by (done || lia). by rewrite signer_commitment by (done || lia).
Qed.

Lemma NextC_total r K c : (1 <= length xs)%nat -> length r = length xs -> length K = length xs ->
  Forall sc_ok r -> Forall pt_ok K -> sc_ok c ->
  exists s, calculateNextC digest r (Some c) K kis = Ok (Some s) /\ sc_ok s.
Proof using All.
  intros H1' Hr HK Hrs HKs Hc. unfold calculateNextC. rewrite Hr, HK, Hklen, !Nat.eqb_refl.
  cbn [negb orb deref res_bind].
  destruct (row_columns c r K kis (length xs - 1) Hc Hrs HKs Hkis) as (b & -> & Hb). cbn [res_bind].
  destruct (row_commitment c r K (length xs - 1)) as (p & -> & Hp); [done|done|done|lia|lia|]. cbn [res_bind].
  destruct (hash_challenge digest (b ++ p) Hdigest) as (s & -> & Hs); [by apply Forall_app|]. by exists s.
Qed.

(** The challenges for confidential assets. *)
Lemma FirstCCA_total : (2 <= length xs)%nat ->
  exists s, calculateFirstCCA digest alpha (ring_keys 2 h xs) = Ok (Some s) /\ sc_ok s.
Proof using All.
  intros H1'. unfold calculateFirstCCA. rewrite ring_keys_length, Hlen, Nat.eqb_refl. cbn [negb].
  replace (length xs <? 2)%nat with false by (symmetry; apply Nat.ltb_ge; lia).
  destruct (first_cols (length xs - 2) (ring_keys 2 h xs)) as (b & -> & Hb). cbn [res_bind].
  destruct (first_last (length xs - 2) ltac:(lia)) as (p & -> & Hp). cbn [res_bind].
  destruct (first_last (length xs - 1) ltac:(lia)) as (q & -> & Hq). cbn [res_bind].
  destruct (hash_challenge digest (b ++ p ++ q) Hdigest) as (s & -> & Hs).
  { apply Forall_app. split; [done|]. by apply Forall_app. }
  by exists s.
Qed.

Lemma NextCCA_closing c : (2 <= length xs)%nat -> sc_ok c ->
  calculateNextCCA digest (responses c alpha xs) (Some c) (ring_keys 2 h xs) kis =
  calculateFirstCCA digest alpha (ring_keys 2 h xs).
Proof using All.
  intros H1' Hc. unfold calculateNextCCA, calculateFirstCCA.
  assert (length (responses c alpha xs) = length xs) as El
    by (unfold responses; rewrite length_zip_with; lia).
  rewrite El, Hklen, Hlen, ring_keys_length, !Nat.eqb_refl. cbn [negb orb deref res_bind].
  replace (length xs <? 2)%nat with false by (symmetry; apply Nat.ltb_ge; lia).
  rewrite signer_columns by (done || lia). by rewrite !signer_commitment by (done || lia).
Qed.

Lemma NextCCA_total r K c : (2 <= length xs)%nat -> length r = length xs -> length K = length xs ->
  Forall sc_ok r -> Forall pt_ok K -> sc_ok c ->
  exists s, calculateNextCCA digest r (Some c) K kis = Ok (Some s) /\ sc_ok s.
Proof using All.
  intros H1' Hr HK Hrs HKs Hc. unfold calculateNextCCA. rewrite Hr, HK, Hklen, !Nat.eqb_refl.
  replace (length xs <? 2)%nat with false by (symmetry; apply Nat.ltb_ge; lia).
  cbn [negb orb deref res_bind].
  destruct (row_columns c r K kis (length xs - 2) Hc Hrs HKs Hkis) as (b & -> & Hb). cbn [res_bind].
  destruct (row_commitment c r K (length xs - 2)) as (p & -> & Hp); [done|done|done|lia|lia|]. cbn [res_bind].
  destruct (row_commitment c r K (length xs - 1)) as (q & -> & Hq); [done|done|done|lia|lia|]. cbn [res_bind].
  destruct (hash_challenge digest (b ++ p ++ q) Hdigest) as (s & -> & Hs).
  { apply Forall_app. split; [done|]. by apply Forall_app. }
  by exists s.
Qed.
End row.

(** What a ring of [n] rows of [m] keys needs, whatever the variant. *)
Definition ring_input (m pi : nat) (R : Ring) (xs alpha : list (list Z)) (rr : list (list (list Z))) : Prop :=
  length xs = m /\ length alpha = m /\ Forall sc_ok xs /\ Forall sc_ok alpha /\
  length rr = length R /\ Forall (fun row => length row = m /\ Forall sc_ok row) rr /\
  Forall (fun row => length row = m /\ Forall pt_ok row) R.

(** The signing step of both variants. *)
Lemma sign_ring firstC nextC m pi R Kpi xs alpha rr kis :
  ring_input m pi R xs alpha rr -> R !! pi = Some Kpi ->
  (exists s, firstC alpha Kpi = Ok (Some s) /\ sc_ok s) ->
  (forall s, sc_ok s -> nextC (responses s alpha xs) (Some s) Kpi = firstC alpha Kpi) ->
  (forall r K c, length r = m -> length K = m -> Forall sc_ok r -> Forall pt_ok K -> sc_ok c ->
     exists s, nextC r (Some c) K = Ok (Some s) /\ sc_ok s) ->
  let ml := mkMlsag R pi kis xs in
  exists c c0 r, ring_challenges firstC nextC ml alpha (createRandomChallenges ml rr) = Ok (c, r) /\
    index c 0 = Ok (Some c0) /\ sc_ok c0 /\ length r = length R /\
    Forall (fun row => length row = m /\ Forall sc_ok row) r /\
    chain nextC (zip r R) (Some c0) = Ok (Some c0).
Proof using All.
  intros (Hxl & Hal & Hxs & Ha & Hrl & Hrr & HR) Epi Hfirst Hclose Hnext ml.
  set (r := createRandomChallenges ml rr).
  assert (length r = length R) as Lr by (unfold r, createRandomChallenges; by rewrite length_insert).
  assert (pi < length R)%nat as Hpi by (by apply lookup_lt_Some in Epi).
  destruct (ring_challenges_ok firstC nextC R r pi alpha xs Kpi Hpi Lr Epi) with (ml := ml)
    as (c & cpi & E & Lc & Hcpi & Hlink); try done.
  { intros i ri Ki s Hne Eri EKi Hs.
    unfold r, createRandomChallenges in Eri. cbn [ml ml_pi] in Eri.
    rewrite list_lookup_insert_ne in Eri by done.
    destruct (Forall_lookup_1 _ _ _ _ Hrr Eri) as [L1 S1].
    destruct (Forall_lookup_1 _ _ _ _ HR EKi) as [L2 S2]. by apply Hnext. }
  set (row := zip_with (fun a x => ScSub a (ScMul cpi x)) alpha xs) in *. cbv zeta in E.
  destruct (Hlink 0%nat ltac:(lia)) as (c0 & s' & E0 & Hc0 & _ & _).
  exists c, c0, (<[pi := row]> r). split; [exact E|]. split; [by apply index_ok|]. split; [done|].
  split; [by rewrite length_insert|]. split.
  - unfold r, createRandomChallenges. cbn [ml ml_pi]. rewrite list_insert_insert_eq.
    apply Forall_insert; [done|]. split; [unfold row; rewrite length_zip_with; lia|].
    by apply responses_ok.
  - apply (chain_closed nextC (<[pi := row]> r) R c (length R)); [by rewrite length_insert|done| |done].
    intros j Hj. destruct (Hlink j Hj) as (s1 & s2 & H1' & _ & H2' & H3').
    by exists (Some s1), (Some s2).
Qed.

Lemma NewMlsag_ok xs R pi : Forall sc_ok xs ->
  exists kis, NewMlsag xs R pi = Ok (mkMlsag R pi kis xs) /\ parseKeyImages xs = Ok kis /\
    length kis = length xs /\ Forall pt_ok kis /\
    (forall n, (n < length xs)%nat -> take n kis = map key_image (take n xs)).
Proof using All.
  intros Hxs. destruct (parseKeyImages_ok xs Hxs) as (kis & E & Hl & Hp & Hi).
  exists kis. unfold NewMlsag. by rewrite E.
Qed.

Lemma points_parse (ps : list (list Z)) : Forall pt_ok ps ->
  Forall (fun p => key_ok p /\ ge_frombytes p = true) ps.
Proof using CL. intros Hp. eapply Forall_impl; [exact Hp|]. apply pt_key. Qed.

(** The row of the signer in a random ring. *)
Lemma NewRandomRing_row h fakes xs pi : index PedG PedersenRandomnessIndex = Ok h ->
  Forall sc_ok xs -> (1 <= length xs)%nat -> (pi < length fakes)%nat ->
  exists R, NewRandomRing fakes xs pi = Ok R /\ R !! pi = Some (ring_keys 1 h xs) /\
    R = <[pi := ring_keys 1 h xs]> fakes.
Proof using All.
  intros Hh Hxs Hl Hpi. unfold NewRandomRing. bounds.
  rewrite (with_last_ok parsePublicKey (fun x isLast => ScalarMultKey (if isLast then h else GBASE) x)
             sc_ok xs Hxs) by (intros x isLast Hx; by apply parsePublicKey_ok).
  cbn [res_bind]. exists (<[pi := ring_keys 1 h xs]> fakes). split; [done|]. split; [|done].
  by apply list_lookup_insert_eq.
Qed.

(** Signing with a row of the ring. *)
Lemma sign_verifies m pi h R xs alpha rr message : (1 <= m)%nat ->
  ring_input m pi R xs alpha rr -> index PedG PedersenRandomnessIndex = Ok h ->
  R !! pi = Some (ring_keys 1 h xs) -> bytes_ok message ->
  exists ml, NewMlsag xs R pi = Ok ml /\
    NewRandomRing R xs pi = Ok R /\
    (length message <> 32%nat -> exists e, Mlsag_Sign alpha rr message ml = Err e) /\
    (length message = 32%nat -> exists sig, Mlsag_Sign alpha rr message ml = Ok sig /\
       sig_ok m sig /\ length (sig_r sig) = length R /\
       parseKeyImages xs = Ok (sig_keyImages sig) /\ ring_verifies R sig message).
Proof using All.
  intros Hm Hin Hh Epi Hmsg. pose proof Hin as (Hxl & Hal & Hxs & Ha & Hrl & Hrr & HR).
  destruct (NewMlsag_ok xs R pi Hxs) as (kis & Eml & Ekis & Hkl & Hkp & Hki).
  exists (mkMlsag R pi kis xs). split; [exact Eml|]. split.
  { destruct (NewRandomRing_row h R xs pi Hh Hxs) as (R' & -> & _ & ->);
      [lia|by apply lookup_lt_Some in Epi|]. f_equal. by apply list_insert_id. }
  unfold Mlsag_Sign, HashSize. split; intros Hl; [bounds; by eexists|]. rewrite Hl. cbn [Nat.eqb negb].
  destruct (sign_ring (calculateFirstC message)
    (fun ri ci Ki => calculateNextC message ri ci Ki kis) m pi R (ring_keys 1 h xs) xs alpha rr kis
    Hin Epi) as (c & c0 & r & E & Ec & Hc0 & Lr & Hr & Hchain).
  - apply (FirstC_total message alpha xs kis h); try done; lia.
  - intros s Hs. apply (NextC_closing message alpha xs kis h); try done; lia.
  - intros r K s Lr' LK Hr' HK Hs. apply (NextC_total message alpha xs kis h); try done; lia.
  - unfold calculateC. cbn [ml_keyImages]. rewrite E. cbn [res_bind]. rewrite Ec. cbn [res_bind].
    eexists. split; [reflexivity|]. split; [|split; [exact Lr|split; [exact Ekis|exact Hchain]]].
    split; [exact Hc0|]. split; [by apply points_parse|exact Hr].
Qed.

(** ** Properties *)

(** C11: ring signatures.  For every ring of points whose row [pi] holds the public
    keys of the signer (the last column commits to the random base), and every
    choice of random scalars, [Sign] on a 32-byte message succeeds, its
    signature is accepted by the verification equations of the scheme (the
    challenges close up to a ring), and its key images are the images of the
    private keys, whatever the ring; other messages are errors.  The row that
    [NewRandomRing] makes for the signer is such a row. *)
Theorem mlsag_sign_verifies m pi h R xs alpha rr message : (1 <= m)%nat ->
  ring_input m pi R xs alpha rr -> index PedG PedersenRandomnessIndex = Ok h ->
  R !! pi = Some (ring_keys 1 h xs) -> bytes_ok message ->
  exists ml, NewMlsag xs R pi = Ok ml /\
    NewRandomRing R xs pi = Ok R /\
    (length message <> 32%nat -> exists e, Mlsag_Sign alpha rr message ml = Err e) /\
    (length message = 32%nat -> exists sig, Mlsag_Sign alpha rr message ml = Ok sig /\
       sig_ok m sig /\ length (sig_r sig) = length R /\
       parseKeyImages xs = Ok (sig_keyImages sig) /\ ring_verifies R sig message).
Proof using All. intros Hm. by apply sign_verifies. Qed.

Lemma sign_verifies_CA m pi h R xs alpha rr message :
  ring_input m pi R xs alpha rr -> index PedG PedersenRandomnessIndex = Ok h ->
  R !! pi = Some (ring_keys 2 h xs) -> bytes_ok message -> length message = 32%nat ->
  exists ml, NewMlsag xs R pi = Ok ml /\
    ((m < 2)%nat -> SignConfidentialAsset alpha rr message ml = Panic) /\
    ((2 <= m)%nat -> exists sig, SignConfidentialAsset alpha rr message ml = Ok sig /\
       sig_ok m sig /\ length (sig_r sig) = length R /\
       parseKeyImages xs = Ok (sig_keyImages sig) /\ ring_verifies_CA R sig message).
Proof using All.
  intros Hin Hh Epi Hmsg Hl. pose proof Hin as (Hxl & Hal & Hxs & Ha & Hrl & Hrr & HR).
  destruct (NewMlsag_ok xs R pi Hxs) as (kis & Eml & Ekis & Hkl & Hkp & Hki).
  exists (mkMlsag R pi kis xs). split; [exact Eml|].
  unfold SignConfidentialAsset, HashSize. rewrite Hl. cbn [Nat.eqb negb]. split; intros Hm.
  { unfold calculateCCA, ring_challenges. cbn [ml_R ml_pi]. rewrite (index_ok _ _ _ Epi). cbn [res_bind].
    unfold calculateFirstCCA. rewrite ring_keys_length. by bounds. }
  destruct (sign_ring (calculateFirstCCA message)
    (fun ri ci Ki => calculateNextCCA message ri ci Ki kis) m pi R (ring_keys 2 h xs) xs alpha rr kis
    Hin Epi) as (c & c0 & r & E & Ec & Hc0 & Lr & Hr & Hchain).
  - apply (FirstCCA_total message alpha xs kis h); try done; lia.
  - intros s Hs. apply (NextCCA_closing message alpha xs kis h); try done; lia.
  - intros r K s Lr' LK Hr' HK Hs. apply (NextCCA_total message alpha xs kis h); try done; lia.
  - unfold calculateCCA. cbn [ml_keyImages]. rewrite E. cbn [res_bind]. rewrite Ec. cbn [res_bind].
    eexists. split; [reflexivity|]. split; [|split; [exact Lr|split; [exact Ekis|exact Hchain]]].
    split; [exact Hc0|]. split; [by apply points_parse|exact Hr].
Qed.

(** Ring signatures for confidential assets: the same when the last two columns
    commit to the random base and the variant [SignConfidentialAsset] signs; with
    fewer than two columns it panics. *)
Theorem mlsag_ca_sign_verifies m pi h R xs alpha rr message :
  ring_input m pi R xs alpha rr -> index PedG PedersenRandomnessIndex = Ok h ->
  R !! pi = Some (ring_keys 2 h xs) -> bytes_ok message -> length message = 32%nat ->
  exists ml, NewMlsag xs R pi = Ok ml /\
    ((m < 2)%nat -> SignConfidentialAsset alpha rr message ml = Panic) /\
    ((2 <= m)%nat -> exists sig, SignConfidentialAsset alpha rr message ml = Ok sig /\
       sig_ok m sig /\ length (sig_r sig) = length R /\
       parseKeyImages xs = Ok (sig_keyImages sig) /\ ring_verifies_CA R sig message).
Proof using All. by apply sign_verifies_CA. Qed.
End signing.

Section bytes_properties.
Context `{CO : CurveOps} `{DG : Digests}.

(** Rings and signatures as bytes.  Every well-formed ring and signature with
    at most 255 rows, columns and key images survives its byte form. *)
Theorem mlsag_roundtrip m R sig : ring_ok m R -> R <> [] -> (length R <= 255)%nat -> (m <= 255)%nat ->
  sig_ok m sig -> (length (sig_r sig) <= 255)%nat -> (length (sig_keyImages sig) <= 255)%nat ->
  (exists b, Ring_ToBytes R = Ok b /\ Ring_FromBytes b = Ok R) /\
  (exists b, Sig_ToBytes sig = Ok b /\ Sig_FromBytes b = Ok sig).
Proof using Type.
  intros HR Hne Hn Hm Hs Hr Hk. split; [by apply (Ring_roundtrip m)|by apply (Sig_roundtrip m)].
Qed.

Lemma parse_scalar_safe msg b : res_safe (parse_scalar msg b).
Proof using Type. unfold parse_scalar. by destruct (negb _). Qed.

Lemma parse_point_safe msg b : res_safe (res_wrap msg (Point_FromBytesS b)).
Proof using Type. pose proof (Point_FromBytesS_safe b) as Hs. by destruct (Point_FromBytesS b). Qed.

Lemma Sig_FromBytes_safe b : (2 <= length b)%nat -> res_safe (Sig_FromBytes b).
Proof using Type.
  intros Hl. unfold Sig_FromBytes. bounds. destruct (index_safe b 0) as (b0 & -> & _); [lia|].
  cbn [res_bind]. destruct (negb _); [exact I|]. destruct (index_safe b 1) as (b1 & -> & _); [lia|].
  cbn [res_bind]. destruct (negb _); [exact I|].
  pose proof (get_key_checked_safe "cannot parse value C, byte is too small" b 2) as H1'.
  destruct (get_key_checked _ b 2) as [cb| | |]; [|exact I|elim H1'|elim H1']. cbn [res_bind].
  pose proof (parse_scalar_safe "cannot parse value C, invalid scalar" cb) as H2'.
  destruct (parse_scalar _ cb) as [C| | |]; [|exact I|elim H2'|elim H2']. cbn [res_bind].
  destruct (Nat.leb_spec (length b) (2 + Ed25519KeySize)); [exact I|].
  destruct (index_safe b (2 + Ed25519KeySize)) as (k & -> & _); [lia|]. cbn [res_bind].
  match goal with |- context [parse_keys ?g ?p ?n ?o] =>
    pose proof (parse_keys_safe g p n (get_key_checked_safe _ b) (parse_point_safe _) o) as H3';
    destruct (parse_keys g p n o) as [[ki off]| | |]; [|exact I|elim H3'|elim H3'] end. cbn [res_bind].
  destruct (Nat.ltb_spec (length b) (off + 2)); [exact I|].
  destruct (index_safe b off) as (n & -> & _); [lia|].
  destruct (index_safe b (off + 1)) as (m & -> & _); [lia|]. cbn [res_bind].
  match goal with |- context [parse_rows ?g ?p ?n ?m ?o] =>
    pose proof (parse_rows_safe g p n m (get_key_checked_safe _ b) (parse_scalar_safe _) o) as H4';
    destruct (parse_rows g p n m o) as [[rr off']| | |]; [exact I|exact I|elim H4'|elim H4'] end.
Qed.

(** C32: parsing rings never panics; parsing signatures panics on one input only,
    the prefix byte alone, whose second byte is read before any length test. *)
Theorem mlsag_parse_safety b :
  res_safe (Ring_FromBytes b) /\ (res_safe (Sig_FromBytes b) <-> b <> [SigPrefix]) /\
  Sig_FromBytes [SigPrefix] = Panic.
Proof using Type.
  split; [|split; [|done]].
  - unfold Ring_FromBytes. destruct (Nat.ltb_spec (length b) 3); [done|].
    destruct (index_safe b 0) as (b0 & -> & _); [lia|]. cbn [res_bind]. destruct (negb _); [exact I|].
    destruct (index_safe b 1) as (b1 & -> & _); [lia|]. destruct (index_safe b 2) as (b2 & -> & _); [lia|].
    cbn [res_bind]. destruct (Nat.eqb_spec (length b) (Ed25519KeySize * Z.to_nat b1 * Z.to_nat b2 + 3))
      as [Hl|]; cbn [negb]; [|done]. unfold Ed25519KeySize in Hl.
    match goal with |- context [parse_rows ?g ?p ?n ?m ?o] =>
      pose proof (parse_rows_bounded p b n m (parse_point_safe _) o ltac:(lia)) as Hs;
      destruct (parse_rows g p n m o) as [[rr off]| | |]; [exact I|exact I|elim Hs|elim Hs] end.
  - split; [intros Hs ->; exact Hs|]. intros Hne.
    destruct b as [|x [|y b]]; [done| |apply Sig_FromBytes_safe; simpl; lia].
    unfold Sig_FromBytes, index. cbn [length Nat.eqb lookup list_lookup res_bind].
    destruct (Z.eqb_spec x SigPrefix) as [->|]; [done|]. done.
Qed.
End bytes_properties.

(** ** Witnesses *)

#[local] Existing Instances toy_curve toy_curve_laws toy_digests toy_digest_laws.

Definition toy_h : list Z := match index PedG PedersenRandomnessIndex with Ok h => h | _ => [] end.

Definition toy_ring : Ring :=
  [[toy_write 21; toy_write 22; toy_write 23];
   ring_keys 1 toy_h [key_of 2; key_of 3; key_of 4];
   [toy_write 24; toy_write 25; toy_write 26]].

Definition toy_ring_ca : Ring :=
  [[toy_write 21; toy_write 22; toy_write 23];
   ring_keys 2 toy_h [key_of 2; key_of 3; key_of 4];
   [toy_write 24; toy_write 25; toy_write 26]].

Lemma toy_sc_row l : Forall (fun z => 0 <= z < 1000) l -> Forall sc_ok (map key_of l).
Proof. apply toy_scalars. Qed.

Lemma toy_point_row l : Forall pt_ok (map toy_write l).
Proof. apply Forall_map, Forall_true. intros z. by exists z. Qed.

Lemma toy_h_ok : index PedG PedersenRandomnessIndex = Ok toy_h /\ pt_ok toy_h.
Proof.
  destruct PedG_h as (h & E & Hh). unfold toy_h. rewrite E. split; [reflexivity|exact Hh].
Qed.

Lemma toy_signer_row k : length (ring_keys k toy_h (map key_of [2; 3; 4])) = 3%nat /\
  Forall pt_ok (ring_keys k toy_h (map key_of [2; 3; 4])).
Proof.
  split; [by rewrite ring_keys_length|].
  assert (Forall sc_ok (map key_of [2; 3; 4])) as Hxs by (apply toy_sc_row; repeat constructor; lia).
  unfold ring_keys. apply Forall_app. split; apply Forall_map.
  - eapply Forall_impl; [apply Forall_take, Hxs|]. intros x Hx. apply pt_mult; [apply pt_base|exact Hx].
  - eapply Forall_impl; [apply Forall_drop, Hxs|]. intros x Hx. apply pt_mult; [apply toy_h_ok|exact Hx].
Qed.

Definition toy_rr : list (list (list Z)) :=
  [map key_of [5; 6; 7]; map key_of [8; 9; 10]; map key_of [11; 12; 13]].

Lemma toy_ring_input k : ring_input 3 1
  [map toy_write [21; 22; 23]; ring_keys k toy_h (map key_of [2; 3; 4]); map toy_write [24; 25; 26]]
  (map key_of [2; 3; 4]) (map key_of [14; 15; 16]) toy_rr.
Proof.
  split; [reflexivity|]. split; [reflexivity|].
  split; [apply toy_sc_row; repeat constructor; lia|].
  split; [apply toy_sc_row; repeat constructor; lia|]. split; [reflexivity|]. split.
  - apply Forall_cons. split; [split; [reflexivity|apply toy_sc_row; repeat constructor; lia]|].
    apply Forall_cons. split; [split; [reflexivity|apply toy_sc_row; repeat constructor; lia]|].
    apply Forall_cons. split; [split; [reflexivity|apply toy_sc_row; repeat constructor; lia]|constructor].
  - apply Forall_cons. split; [split; [reflexivity|apply toy_point_row]|].
    apply Forall_cons. split; [apply toy_signer_row|].
    apply Forall_cons. split; [split; [reflexivity|apply toy_point_row]|constructor].
Qed.

Lemma toy_message_ok : bytes_ok (replicate 32 7).
Proof. apply Forall_replicate. unfold is_byte. lia. Qed.

Lemma mlsag_sign_verifies_witness :
  exists ml sig, NewMlsag (map key_of [2; 3; 4]) toy_ring 1 = Ok ml /\
    Mlsag_Sign (map key_of [14; 15; 16]) toy_rr (replicate 32 7) ml = Ok sig /\
    ring_verifies toy_ring sig (replicate 32 7).
Proof.
  destruct (mlsag_sign_verifies 3 1 toy_h toy_ring (map key_of [2; 3; 4]) (map key_of [14; 15; 16])
              toy_rr (replicate 32 7)) as (ml & E & _ & _ & Hs).
  - lia.
  - apply (toy_ring_input 1).
  - apply toy_h_ok.
  - reflexivity.
  - apply toy_message_ok.
  - destruct (Hs eq_refl) as (sig & Es & _ & _ & _ & Hv).
    exists ml, sig. split; [exact E|]. split; [exact Es|exact Hv].
Defined.

Lemma mlsag_ca_sign_verifies_witness :
  exists ml sig, NewMlsag (map key_of [2; 3; 4]) toy_ring_ca 1 = Ok ml /\
    SignConfidentialAsset (map key_of [14; 15; 16]) toy_rr (replicate 32 7) ml = Ok sig /\
    ring_verifies_CA toy_ring_ca sig (replicate 32 7).
Proof.
  destruct (mlsag_ca_sign_verifies 3 1 toy_h toy_ring_ca (map key_of [2; 3; 4])
              (map key_of [14; 15; 16]) toy_rr (replicate 32 7)) as (ml & E & _ & Hs).
  - apply (toy_ring_input 2).
  - apply toy_h_ok.
  - reflexivity.
  - apply toy_message_ok.
  - reflexivity.
  - destruct Hs as (sig & Es & _ & _ & _ & Hv); [lia|].
    exists ml, sig. split; [exact E|]. split; [exact Es|exact Hv].
Defined.

Definition toy_sig : Sig := mkSig (Some (key_of 5)) (map toy_write [1; 2]) toy_rr.

Lemma mlsag_roundtrip_witness :
  (exists b, Ring_ToBytes [map toy_write [1; 2; 3]] = Ok b /\ Ring_FromBytes b = Ok [map toy_write [1; 2; 3]]) /\
  (exists b, Sig_ToBytes toy_sig = Ok b /\ Sig_FromBytes b = Ok toy_sig).
Proof.
  apply (mlsag_roundtrip 3 [map toy_write [1; 2; 3]] toy_sig).
  - apply Forall_cons. split; [|constructor]. split; [reflexivity|].
    apply points_parse, toy_point_row.
  - discriminate.
  - simpl. lia.
  - lia.
  - split; [apply toy_scalar; lia|]. split; [apply points_parse, toy_point_row|].
    apply (toy_ring_input 1).
  - simpl. lia.
  - simpl. lia.
Defined.
