(* ===== verification/Linear.v ===== *)
(** * Linear.v: linear algebra over the scalars and the points

    The scalars of [Crypto.v] are the residues modulo [order], written [sc z];
    the points are a module over them.  This file restates the operations of
    the curve on [sc z] and on linear combinations [lin zs ps], and gives a
    tactic, [module], that proves equalities of points by comparing the
    coefficients of their atoms. *)

From stdpp Require Import base list gmap strings.
From Stdlib Require Import ZArith Lia Ring Ring_theory.
From S2P Require Import Prelude Common Hashing Crypto.
Open Scope Z_scope.

(** The scalar of an integer. *)
Definition sc (z : Z) : list Z := key_of (z mod order).

(** Equality of integers as scalars. *)
Definition eqm (a b : Z) : Prop := a mod order = b mod order.
Infix "≡ₒ" := eqm (at level 70).

#[export] Instance eqm_equivalence : Equivalence eqm.
Proof. split; unfold eqm; [intros ?|intros ??|intros ???]; congruence. Qed.

#[export] Instance eqm_add : Proper (eqm ==> eqm ==> eqm) Z.add.
Proof. intros a a' Ha b b' Hb. unfold eqm in *. by rewrite Zplus_mod, Ha, Hb, <- Zplus_mod. Qed.

#[export] Instance eqm_sub : Proper (eqm ==> eqm ==> eqm) Z.sub.
Proof. intros a a' Ha b b' Hb. unfold eqm in *. by rewrite Zminus_mod, Ha, Hb, <- Zminus_mod. Qed.

#[export] Instance eqm_mul : Proper (eqm ==> eqm ==> eqm) Z.mul.
Proof. intros a a' Ha b b' Hb. unfold eqm in *. by rewrite Zmult_mod, Ha, Hb, <- Zmult_mod. Qed.

#[export] Instance sc_proper : Proper (eqm ==> eq) sc.
Proof. intros a b E. unfold sc. by rewrite E. Qed.

#[export] Instance eqm_opp : Proper (eqm ==> eqm) Z.opp.
Proof. intros a a' Ha. rewrite <- !Z.sub_0_l. by rewrite Ha. Qed.

(** The integers modulo [order] are a ring; where [ScalarRing] is imported
    [ring] decides [≡ₒ] (and no longer equality). *)
Lemma eqm_ring_theory : ring_theory 0 1 Z.add Z.mul Z.sub Z.opp eqm.
Proof. split; intros; unfold eqm; f_equal; ring. Qed.

Lemma eqm_ring_ext : ring_eq_ext Z.add Z.mul Z.opp eqm.
Proof. split; solve_proper. Qed.

Module ScalarRing.
Add Ring scalars : eqm_ring_theory (setoid eqm_equivalence eqm_ring_ext).
End ScalarRing.

(** [a ≡ₒ b] when they are equal as integers. *)
Ltac eqm_ring := unfold eqm; f_equal; ring.

Lemma eqm_mod a : a mod order ≡ₒ a.
Proof. unfold eqm. apply Z.mod_mod. by vm_compute. Qed.

Lemma sc_ok_sc z : sc_ok (sc z).
Proof. apply sc_ok_mod. Qed.

Lemma sc_val z : key_val (sc z) = z mod order.
Proof. apply key_val_mod. Qed.

Lemma sc_repr s : sc_ok s -> s = sc (key_val s).
Proof.
  intros Hs. unfold sc. rewrite Z.mod_small by (by apply sc_ok_bound).
  by rewrite key_of_val by apply Hs.
Qed.

Lemma sc_inj a b : sc a = sc b -> a ≡ₒ b.
Proof. intros E. apply (f_equal key_val) in E. by rewrite !sc_val in E. Qed.

(** Vectors of scalars. *)
Lemma scs_repr l : Forall sc_ok l -> l = map sc (map key_val l).
Proof. induction 1 as [|s l Hs Hl IH]; [done|]. cbn [map]. f_equal; [by apply sc_repr|exact IH]. Qed.

Lemma scs_ok zs : Forall sc_ok (map sc zs).
Proof. apply Forall_map, Forall_true. intros. apply sc_ok_sc. Qed.

Lemma sc_small z : 0 <= z < order -> key_of z = sc z.
Proof. intros Hz. unfold sc. by rewrite Z.mod_small. Qed.

#[export] Hint Resolve sc_ok_sc scs_ok : bytes.

(** ** Dot products of integers *)

Definition dot (a b : list Z) : Z := foldr (fun p acc => fst p * snd p + acc) 0 (zip a b).

Lemma dot_add_l a b c : length a = length b -> dot (zip_with Z.add a b) c = dot a c + dot b c.
Proof.
  unfold dot. revert b c. induction a as [|x a IH]; intros [|y b] [|z c] Hl; try discriminate Hl; try done.
  injection Hl as Hl. cbn [zip_with foldr fst snd]. rewrite IH by done. ring.
Qed.

Lemma dot_comm a b : dot a b = dot b a.
Proof.
  unfold dot. revert b. induction a as [|x a IH]; intros [|y b]; try done.
  cbn [zip_with foldr fst snd]. rewrite IH. ring.
Qed.

Lemma dot_add_r a b c : length b = length c -> dot a (zip_with Z.add b c) = dot a b + dot a c.
Proof. intros. by rewrite dot_comm, dot_add_l, (dot_comm b), (dot_comm c). Qed.

Lemma dot_scale_l k a b : dot (map (Z.mul k) a) b = k * dot a b.
Proof.
  unfold dot. revert b. induction a as [|x a IH]; intros [|y b]; cbn [map zip_with foldr fst snd]; try ring.
  rewrite IH. ring.
Qed.

Lemma dot_scale_r k a b : dot a (map (Z.mul k) b) = k * dot a b.
Proof. by rewrite dot_comm, dot_scale_l, dot_comm. Qed.

Lemma dot_app a a' b b' : length a = length b -> dot (a ++ a') (b ++ b') = dot a b + dot a' b'.
Proof.
  unfold dot. revert b. induction a as [|x a IH]; intros [|y b] Hl; try discriminate Hl; [done|].
  injection Hl as Hl. cbn [app zip_with foldr fst snd]. rewrite IH by done. ring.
Qed.

(** ** Linear combinations of points *)

Section module.
Context `{CL : CurveLaws}.

Lemma ScAdd_sc a b : ScAdd (sc a) (sc b) = sc (a + b).
Proof using CL.
  rewrite ScAdd_spec by apply sc_ok_sc. rewrite !sc_val. fold (sc (a mod order + b mod order)).
  by rewrite !eqm_mod.
Qed.

Lemma ScSub_sc a b : ScSub (sc a) (sc b) = sc (a - b).
Proof using CL.
  rewrite ScSub_spec by apply sc_ok_sc. rewrite !sc_val. fold (sc (a mod order - b mod order)).
  by rewrite !eqm_mod.
Qed.

Lemma ScMul_sc a b : ScMul (sc a) (sc b) = sc (a * b).
Proof using CL.
  rewrite ScMul_spec by apply sc_ok_sc. rewrite !sc_val. fold (sc (a mod order * (b mod order))).
  by rewrite !eqm_mod.
Qed.

Lemma ScMulAdd_sc a b c : ScMulAdd (sc a) (sc b) (sc c) = sc (a * b + c).
Proof using CL.
  rewrite ScMulAdd_spec by apply sc_ok_sc. rewrite !sc_val.
  fold (sc (a mod order * (b mod order) + c mod order)). by rewrite !eqm_mod.
Qed.

(** [z p]. *)
Definition pmul (p : list Z) (z : Z) : list Z := ScalarMultKey p (sc z).

#[export] Instance pmul_proper p : Proper (eqm ==> eq) (pmul p).
Proof using Type. intros a b E. unfold pmul. by rewrite E. Qed.

Lemma pmul_pt p z : pt_ok p -> pt_ok (pmul p z).
Proof using CL. intros. apply pt_mult; [done|apply sc_ok_sc]. Qed.

Lemma pmul_add p a b : pt_ok p -> pmul p (a + b) = AddKeys (pmul p a) (pmul p b).
Proof using CL. intros. unfold pmul. by rewrite <- ScAdd_sc, mult_add by auto with bytes. Qed.

Lemma pmul_mul p a b : pt_ok p -> pmul (pmul p a) b = pmul p (a * b).
Proof using CL. intros. unfold pmul. by rewrite mult_mul, ScMul_sc by auto with bytes. Qed.

Lemma pmul_add_pt p q z : pt_ok p -> pt_ok q -> pmul (AddKeys p q) z = AddKeys (pmul p z) (pmul q z).
Proof using CL. intros. unfold pmul. by apply mult_add_pt; auto with bytes. Qed.

Lemma pmul_0 p : pt_ok p -> pmul p 0 = Identity.
Proof using CL. intros. by apply mult_zero. Qed.

Lemma pmul_1 p : pt_ok p -> pmul p 1 = p.
Proof using CL. intros. by apply mult_one. Qed.

Lemma pmul_identity z : pmul Identity z = Identity.
Proof using CL.
  rewrite <- (pmul_0 Identity) at 1 by apply pt_identity. rewrite pmul_mul by apply pt_identity.
  rewrite Z.mul_0_l. apply pmul_0, pt_identity.
Qed.

Lemma identity_add p : pt_ok p -> AddKeys Identity p = p.
Proof using CL. intros. rewrite add_comm by (done || apply pt_identity). by apply add_identity. Qed.

Lemma add_cancel_r p q r : pt_ok p -> pt_ok q -> pt_ok r -> AddKeys p r = AddKeys q r -> p = q.
Proof using CL.
  intros Hp Hq Hr E. pose proof (pmul_pt r (-1) Hr) as Hn.
  assert (AddKeys r (pmul r (-1)) = Identity) as Z0.
  { rewrite <- (pmul_1 r) at 1 by done. rewrite <- pmul_add by done. by apply pmul_0. }
  rewrite <- (add_identity p), <- (add_identity q), <- Z0, !add_assoc by done. by rewrite E.
Qed.

Lemma sub_pmul p q : pt_ok p -> pt_ok q -> SubKeys p q = AddKeys p (pmul q (-1)).
Proof using CL.
  intros Hp Hq. pose proof (pmul_pt q (-1) Hq) as Hn. apply (add_cancel_r _ _ q); auto using sub_pt, pt_add.
  rewrite sub_add by done. rewrite <- add_assoc by done.
  rewrite <- (pmul_1 q) at 2 by done. rewrite <- pmul_add, pmul_0, add_identity by done. done.
Qed.

Lemma pmul_key p s : sc_ok s -> ScalarMultKey p s = pmul p (key_val s).
Proof using Type. intros Hs. unfold pmul. by rewrite <- sc_repr. Qed.

(** [Σ zᵢ pᵢ]. *)
Definition lin (zs : list Z) (ps : list (list Z)) : list Z :=
  foldr (fun pz acc => AddKeys (pmul (fst pz) (snd pz)) acc) Identity (zip ps zs).

Lemma lin_pt zs ps : Forall pt_ok ps -> pt_ok (lin zs ps).
Proof using CL.
  intros Hp. revert zs. induction Hp as [|p ps Hp Hps IH]; intros [|z zs]; try apply pt_identity.
  cbn. apply pt_add; [by apply pmul_pt|apply IH].
Qed.

Lemma lin_multi zs ps : length zs = length ps -> Forall pt_ok ps ->
  MultiScalarMultKey ps (map sc zs) = lin zs ps.
Proof using CL.
  intros Hl Hp. rewrite multi_mult by (rewrite ?length_map; auto with bytes). clear Hp.
  unfold lin. revert zs Hl. induction ps as [|p ps IH]; intros [|z zs] Hl; try discriminate Hl; [done|].
  injection Hl as Hl. cbn [map zip_with foldr fst snd]. by rewrite IH.
Qed.

Lemma lin_eqm zs zs' ps : Forall2 eqm zs zs' -> lin zs ps = lin zs' ps.
Proof using Type.
  intros Hz0. revert ps. induction Hz0 as [|z z' zs zs' Hz Hzs IH]; intros [|p ps]; try done.
  unfold lin in *. cbn [zip_with foldr fst snd]. by rewrite IH, Hz.
Qed.

Lemma lin_add zs zs' ps : length zs = length zs' -> Forall pt_ok ps ->
  lin (zip_with Z.add zs zs') ps = AddKeys (lin zs ps) (lin zs' ps).
Proof using CL.
  intros Hl Hp. revert zs zs' Hl.
  induction Hp as [|p ps Hp Hps IH]; intros [|z zs] [|z' zs'] Hl; try discriminate Hl;
    try (symmetry; apply add_identity, pt_identity).
  injection Hl as Hl. unfold lin in *. cbn [zip_with foldr fst snd]. rewrite IH by done.
  fold (lin zs ps) (lin zs' ps).
  rewrite pmul_add by done. apply add_swap; (apply pmul_pt || apply lin_pt); done.
Qed.

Lemma lin_scale k zs ps : Forall pt_ok ps -> lin (map (Z.mul k) zs) ps = pmul (lin zs ps) k.
Proof using CL.
  intros Hp. revert zs.
  induction Hp as [|p ps Hp Hps IH]; intros [|z zs]; try (symmetry; apply pmul_identity).
  unfold lin in *. cbn [map zip_with foldr fst snd]. rewrite IH. fold (lin zs ps).
  rewrite pmul_add_pt by (try apply pmul_pt; try apply lin_pt; done).
  rewrite pmul_mul by done. by rewrite Z.mul_comm.
Qed.

Lemma lin_zero n ps : Forall pt_ok ps -> lin (replicate n 0) ps = Identity.
Proof using CL.
  intros Hp. revert n. induction Hp as [|p ps Hp Hps IH]; intros [|n]; try done.
  unfold lin in *. cbn [replicate zip_with foldr fst snd]. rewrite IH, pmul_0 by done.
  apply add_identity, pt_identity.
Qed.

Lemma lin_app zs zs' ps ps' : length zs = length ps -> Forall pt_ok ps -> Forall pt_ok ps' ->
  lin (zs ++ zs') (ps ++ ps') = AddKeys (lin zs ps) (lin zs' ps').
Proof using CL.
  intros Hl Hp Hp'. revert zs Hl.
  induction Hp as [|p ps Hp Hps IH]; intros [|z zs] Hl; try discriminate Hl.
  - cbn. symmetry. by apply identity_add, lin_pt.
  - injection Hl as Hl. unfold lin in *. cbn [app zip_with foldr fst snd]. rewrite IH by done.
    apply add_assoc; (apply pmul_pt || apply lin_pt); done.
Qed.

Lemma lin_pts_add zs ps qs : length ps = length qs -> Forall pt_ok ps -> Forall pt_ok qs ->
  lin zs (zip_with AddKeys ps qs) = AddKeys (lin zs ps) (lin zs qs).
Proof using CL.
  intros Hl Hp Hq. revert zs qs Hl Hq.
  induction Hp as [|p ps Hp Hps IH]; intros [|z zs] [|q qs] Hl Hq; try discriminate Hl;
    try (symmetry; apply add_identity, pt_identity).
  injection Hl as Hl. apply Forall_cons in Hq as [Hq Hqs].
  unfold lin in *. cbn [zip_with foldr fst snd]. rewrite IH by done.
  fold (lin zs ps) (lin zs qs).
  rewrite pmul_add_pt by done. apply add_swap; (apply pmul_pt || apply lin_pt); done.
Qed.

Lemma lin_pts_scale k zs ps : Forall pt_ok ps -> lin zs (map (fun p => pmul p k) ps) = pmul (lin zs ps) k.
Proof using CL.
  intros Hp. revert zs.
  induction Hp as [|p ps Hp Hps IH]; intros [|z zs]; try (symmetry; apply pmul_identity).
  unfold lin in *. cbn [map zip_with foldr fst snd]. rewrite IH. fold (lin zs ps).
  rewrite pmul_add_pt by (try apply pmul_pt; try apply lin_pt; done).
  rewrite !pmul_mul by done. by rewrite Z.mul_comm.
Qed.

(** ** Reflection *)

Inductive pexp : Type :=
| PAtom (i : nat)
| PPlus (e f : pexp)
| PScale (e : pexp) (z : Z).

Fixpoint denote (env : list (list Z)) (e : pexp) : list Z :=
  match e with
  | PAtom i => nth i env Identity
  | PPlus e f => AddKeys (denote env e) (denote env f)
  | PScale e z => pmul (denote env e) z
  end.

Fixpoint coefs (n : nat) (e : pexp) : list Z :=
  match e with
  | PAtom i => map (fun j => if (i =? j)%nat then 1 else 0) (seq 0 n)
  | PPlus e f => zip_with Z.add (coefs n e) (coefs n f)
  | PScale e z => map (Z.mul z) (coefs n e)
  end.

Lemma length_coefs n e : length (coefs n e) = n.
Proof using Type.
  induction e as [i|e IHe f IHf|e IH z]; cbn.
  - by rewrite length_map, length_seq.
  - rewrite length_zip_with, IHe, IHf. lia.
  - by rewrite length_map.
Qed.

Lemma lin_unit i env : forall k, Forall pt_ok env -> (k <= i)%nat ->
  lin (map (fun j => if (i =? j)%nat then 1 else 0) (seq k (length env))) env =
  nth (i - k) env Identity.
Proof using CL.
  induction env as [|p env IH]; intros k Hp Hk; [by destruct (i - k)%nat|].
  apply Forall_cons in Hp as [Hp Henv]. cbn [length seq map].
  unfold lin in *. cbn [zip_with foldr fst snd].
  destruct (Nat.eqb_spec i k) as [->|Hne].
  - rewrite Nat.sub_diag, pmul_1 by done. cbn [nth].
    match goal with |- AddKeys _ ?t = _ => replace t with Identity end; [by apply add_identity|].
    symmetry. transitivity (lin (replicate (length env) 0) env); [|by apply lin_zero].
    change (lin (map (fun j => if (k =? j)%nat then 1 else 0) (seq (S k) (length env))) env =
            lin (replicate (length env) 0) env).
    f_equal. apply list_eq. intros j. rewrite list_lookup_fmap.
    destruct (decide (j < length env)%nat) as [Hj|Hj].
    + rewrite lookup_seq_lt, lookup_replicate_2 by done. cbn [fmap option_fmap option_map].
      by rewrite (proj2 (Nat.eqb_neq k (S k + j))) by lia.
    + rewrite (lookup_seq_ge (S k)) by lia.
      cbn. symmetry. apply lookup_replicate_None. lia.
  - rewrite IH by (done || lia). rewrite pmul_0 by done.
    replace (i - k)%nat with (S (i - S k)) by lia. cbn [nth]. apply identity_add.
    destruct (nth_in_or_default (i - S k) env Identity) as [Hin| ->]; [|apply pt_identity].
    apply list_elem_of_In in Hin. by eapply Forall_forall in Hin.
Qed.

Lemma denote_coefs env e : Forall pt_ok env ->
  pt_ok (denote env e) /\ denote env e = lin (coefs (length env) e) env.
Proof using CL.
  intros Hp. induction e as [i|e [He Ee] f [Hf Ef]|e [He Ee] z]; cbn [denote coefs].
  - rewrite lin_unit, Nat.sub_0_r by (done || lia). split; [|done].
    destruct (nth_in_or_default i env Identity) as [Hin| ->]; [|apply pt_identity].
    apply list_elem_of_In in Hin. by eapply Forall_forall in Hin.
  - split; [by apply pt_add|]. rewrite lin_add by (by rewrite ?length_coefs). by rewrite <- Ee, <- Ef.
  - split; [by apply pmul_pt|]. rewrite lin_scale by done. by rewrite <- Ee.
Qed.

Lemma denote_eq env e f : Forall pt_ok env ->
  Forall2 eqm (coefs (length env) e) (coefs (length env) f) -> denote env e = denote env f.
Proof using CL.
  intros Hp Hc. rewrite (proj2 (denote_coefs env e Hp)), (proj2 (denote_coefs env f Hp)).
  by apply lin_eqm.
Qed.
End module.

(** [module] proves [p = q] for points built with [AddKeys] and [pmul] when the
    coefficients of each atom agree in the ring of integers; the atoms must be
    known to be points.  [module_with tac] leaves the coefficients to [tac]. *)
Ltac atom_in x l :=
  lazymatch l with
  | nil => constr:(false)
  | x :: _ => constr:(true)
  | _ :: ?l' => atom_in x l'
  end.

Ltac atoms t l :=
  lazymatch t with
  | AddKeys ?a ?b => let l := atoms a l in atoms b l
  | pmul ?a _ => atoms a l
  | _ => lazymatch atom_in t l with true => l | false => constr:(cons t l) end
  end.

Ltac atom_pos x l :=
  lazymatch l with
  | x :: _ => constr:(O)
  | _ :: ?l' => let n := atom_pos x l' in constr:(S n)
  end.

Ltac reify t l :=
  lazymatch t with
  | AddKeys ?a ?b => let e := reify a l in let f := reify b l in constr:(PPlus e f)
  | pmul ?a ?z => let e := reify a l in constr:(PScale e z)
  | _ => let i := atom_pos t l in constr:(PAtom i)
  end.

Ltac module_with tac :=
  lazymatch goal with
  | |- ?p = ?q =>
      let l := atoms p (@nil (list Z)) in
      let l := atoms q l in
      let e := reify p l in
      let f := reify q l in
      change (denote l e = denote l f); apply denote_eq;
      [ repeat (apply Forall_cons_2); try apply Forall_nil_2; auto using pmul_pt, lin_pt, pt_add
      | cbn [coefs length map seq Nat.eqb zip_with]; repeat (apply Forall2_cons; split);
        try apply Forall2_nil_2; tac ]
  end.

Ltac module := module_with ltac:(try eqm_ring).
