(* ===== verification/Bulletproof.v ===== *)
(** * Bulletproof.v: aggregated range proofs (package privacy/v2/bulletproofs)

    The vector helpers, the inner-product argument, the range proofs over the
    value generator ([Prove]) and over an asset tag ([ProveUsingBase]), and the
    byte forms.  The version-1 prover (privacy/v1/zkp/bulletproofs) has the same
    code but for the version of the transcript.  Random scalars are drawn from a
    stream [rnd].  The verifier is not part of the SDK; [ip_check] and
    [range_check] are the verification equations of the scheme, and the main
    theorems say that what the prover returns satisfies them. *)

From stdpp Require Import base list gmap strings.
From Stdlib Require Import ZArith Lia Ring.
From S2P Require Import Prelude Common Hashing Crypto Key Base58 Base58Check Wallet CoinV2 Linear.
Open Scope Z_scope.

Definition MaxExp : nat := 64.
Definition NumBase : nat := 5.
Definition MaxOutputCoin : nat := 32.

(** ** Vector helpers *)

Section helpers.
Context `{CO : CurveOps} `{DG : Digests}.

Fixpoint binary_loop (n : nat) (number : Z) : res (list (list Z)) :=
  match n with
  | O => Ok []
  | S n' =>
      let* b := Scalar_FromUint64 (number mod 2) in
      let* bs := binary_loop n' (number / 2) in
      Ok (b :: bs)
  end.

Definition ConvertUint64ToBinary (number : Z) (n : nat) : res (list (list Z)) :=
  if number =? 0 then
    let* zero := Scalar_FromUint64 0 in Ok (replicate n zero)
  else binary_loop n number.

(** [base^0, ..., base^(n-1)]; the first entry is written without a test. *)
Fixpoint powers_from (n : nat) (prev base : list Z) : list (list Z) :=
  match n with
  | O => []
  | S n' => let p := Scalar_Mul prev base in p :: powers_from n' p base
  end.

Definition powerVector (base : list Z) (n : nat) : res (list (list Z)) :=
  if (n =? 0)%nat then Panic
  else
    let* one := Scalar_FromUint64 1 in
    if (1 <? n)%nat then Ok (one :: base :: powers_from (n - 2) base base) else Ok [one].

Fixpoint hprime_loop (n i : nat) (H : list (list Z)) (expYInverse yInverse : list Z)
    : res (list (list Z)) :=
  match n with
  | O => Ok []
  | S n' =>
      let* h := index H i in
      let* rest := hprime_loop n' (S i) H (Scalar_Mul expYInverse yInverse) yInverse in
      Ok (Point_ScalarMult h expYInverse :: rest)
  end.

Definition computeHPrime (y : list Z) (N : nat) (H : list (list Z)) : res (list (list Z)) :=
  let* yInverse := Scalar_Invert y in
  let* one := Scalar_FromUint64 1 in
  hprime_loop N 0 H one yInverse.

Definition innerProduct (a b : list (list Z)) : res (list Z) :=
  if negb (length a =? length b)%nat then Err "incompatible sizes of a and b"
  else
    let* zero := Scalar_FromUint64 0 in
    Ok (fold_left (fun result ab => Scalar_MulAdd (fst ab) (snd ab) result) (zip a b) zero).

Definition vectorAdd (a b : list (list Z)) : res (list (list Z)) :=
  if negb (length a =? length b)%nat then Err "incompatible sizes of a and b"
  else Ok (zip_with Scalar_Add a b).

Definition hadamardProduct (a b : list (list Z)) : res (list (list Z)) :=
  if negb (length a =? length b)%nat then Err "invalid input"
  else Ok (zip_with Scalar_Mul a b).

Definition vectorAddScalar (v : list (list Z)) (s : list Z) : list (list Z) :=
  map (fun x => Scalar_Add x s) v.

Definition vectorMulScalar (v : list (list Z)) (s : list Z) : list (list Z) :=
  map (fun x => Scalar_Mul x s) v.

(** [MultiScalarMult] may give [nil], which [Add] dereferences. *)
Definition encodeVectors (l r g h : list (list Z)) : res (list Z) :=
  if negb (length l =? length r)%nat || negb (length g =? length l)%nat || negb (length h =? length g)%nat
  then Err "invalid input"
  else
    let* t1 := Point_MultiScalarMult l g in
    let* t2 := Point_MultiScalarMult r h in
    let* tmp1 := deref t1 in
    let* tmp2 := deref t2 in
    Ok (Point_Add tmp1 tmp2).

Fixpoint delta_sum (n : nat) (zTmp z sum : list Z) : list Z :=
  match n with
  | O => sum
  | S n' => let zTmp := Scalar_Mul zTmp z in delta_sum n' zTmp z (Scalar_Add sum zTmp)
  end.

Definition computeDeltaYZ (z zSquare : list Z) (yVector : list (list Z)) (N : nat) : res (list Z) :=
  let* oneNumber := Scalar_FromUint64 1 in
  let* twoNumber := Scalar_FromUint64 2 in
  let* oneVectorN := powerVector oneNumber MaxExp in
  let* twoVectorN := powerVector twoNumber MaxExp in
  let* oneVector := powerVector oneNumber N in
  let deltaYZ := Scalar_Sub z zSquare in
  let* ip1 := innerProduct oneVector yVector in
  let* ip2 := innerProduct oneVectorN twoVectorN in
  let deltaYZ := Scalar_Mul deltaYZ ip1 in
  let* zero := Scalar_FromUint64 0 in
  let sum := delta_sum (N / MaxExp) zSquare z zero in
  Ok (Scalar_Sub deltaYZ (Scalar_Mul sum ip2)).

(** On a non-negative [int]. *)
Definition roundUpPowTwo (v : Z) : Z :=
  if v =? 0 then 1
  else
    let v := v - 1 in
    let v := Z.lor v (Z.shiftr v 1) in
    let v := Z.lor v (Z.shiftr v 2) in
    let v := Z.lor v (Z.shiftr v 4) in
    let v := Z.lor v (Z.shiftr v 8) in
    let v := Z.lor v (Z.shiftr v 16) in
    v + 1.

Record bulletproofParams := mkBulletproofParams {
  bp_g : list (list Z); bp_h : list (list Z); bp_u : list Z; bp_cs : list Z }.

(** A [nil] generator would panic at [ToBytesS]. *)
Definition newBulletproofParams (m : nat) : res bulletproofParams :=
  let capacity := (MaxExp * m)%nat in
  let generator i := HashToPointFromIndex (Z.of_nat i) CStringBulletProof in
  let* gh := deref (mapM (fun i =>
      match generator (NumBase + i)%nat,
            generator (NumBase + i + MaxOutputCoin * MaxExp)%nat with
      | Some g, Some h => Some (g, h)
      | _, _ => None
      end) (seq 0 capacity)) in
  let csByte := concat (map (fun p => fst p ++ snd p) gh) in
  let* u := deref (generator (NumBase + 2 * MaxOutputCoin * MaxExp)%nat) in
  let* cs := deref (HashToPoint (csByte ++ u)) in
  Ok (mkBulletproofParams (map fst gh) (map snd gh) u cs).

Definition setAggregateParams (aggParam : bulletproofParams) (N : nat) : res bulletproofParams :=
  let* g := slice (bp_g aggParam) 0 N in
  let* h := slice (bp_h aggParam) 0 N in
  Ok (mkBulletproofParams g h (bp_u aggParam) (bp_cs aggParam)).

Definition generateChallenge (hashCache : list Z) (values : list (list Z)) : option (list Z) :=
  HashToScalar (hashCache ++ concat values).

(** ** The inner-product argument *)

Record InnerProductWitness := mkInnerProductWitness {
  iw_a : list (list Z); iw_b : list (list Z); iw_p : list Z }.

(** The pointers of a proof that was not filled are [nil]. *)
Record InnerProductProof := mkInnerProductProof {
  ip_l : list (option (list Z)); ip_r : list (option (list Z));
  ip_a : option (list Z); ip_b : option (list Z); ip_p : option (list Z) }.

Definition InnerProductProof_new : InnerProductProof := mkInnerProductProof [] [] None None None.

Definition InnerProductProof_Init : InnerProductProof :=
  mkInnerProductProof [] [] (Some (replicate 32 0)) (Some (replicate 32 0)) (Some Identity).

(** The rounds: while [N > 1] the vectors and the generators are folded. *)
Fixpoint prove_rounds (fuel N : nat) (a b : list (list Z)) (p : list Z) (G H : list (list Z))
    (uParam hashCache : list Z) (l r : list (list Z)) {struct fuel}
    : res (list (list Z) * list (list Z) * list Z * list Z) :=
  match fuel with
  | O => OutOfFuel
  | S f =>
      if (1 <? N)%nat then
        let nPrime := (N / 2)%nat in
        let aLo := take nPrime a in let aHi := drop nPrime a in
        let bLo := take nPrime b in let bHi := drop nPrime b in
        let GLo := take nPrime G in let GHi := drop nPrime G in
        let HLo := take nPrime H in let HHi := drop nPrime H in
        let* cL := innerProduct aLo bHi in
        let* cR := innerProduct aHi bLo in
        let* L := encodeVectors aLo bHi GHi HLo in
        let L := Point_Add L (Point_ScalarMult uParam cL) in
        let* R := encodeVectors aHi bLo GLo HHi in
        let R := Point_Add R (Point_ScalarMult uParam cR) in
        let* x := deref (generateChallenge hashCache [L; R]) in
        let* xInverse := Scalar_Invert x in
        let xSquare := Scalar_Mul x x in
        let xSquareInverse := Scalar_Mul xInverse xInverse in
        let GPrime := zip_with (fun lo hi => Point_AddPedersen xInverse lo x hi) GLo GHi in
        let HPrime := zip_with (fun lo hi => Point_AddPedersen x lo xInverse hi) HLo HHi in
        let PPrime := Point_Add (Point_AddPedersen xSquare L xSquareInverse R) p in
        let aPrime := zip_with (fun lo hi => Scalar_MulAdd hi xInverse (Scalar_Mul lo x)) aLo aHi in
        let bPrime := zip_with (fun lo hi => Scalar_MulAdd hi x (Scalar_Mul lo xInverse)) bLo bHi in
        prove_rounds f nPrime aPrime bPrime PPrime GPrime HPrime uParam x (l ++ [L]) (r ++ [R])
      else
        let* a0 := index a 0 in
        let* b0 := index b 0 in
        Ok (l, r, a0, b0)
  end.

(** [N] rounds are enough: each halves [N]. *)
Definition InnerProductWitness_Prove (wit : InnerProductWitness) (GParam HParam : list (list Z))
    (uParam hashCache : list Z) : res InnerProductProof :=
  if negb (length (iw_a wit) =? length (iw_b wit))%nat then Err "invalid inputs"
  else
    let N := length (iw_a wit) in
    if (length GParam <? N)%nat || (length HParam <? N)%nat then Panic
    else
      let* (l, r, a, b) := prove_rounds (S N) N (iw_a wit) (iw_b wit) (iw_p wit)
                              (take N GParam) (take N HParam) uParam hashCache [] [] in
      Ok (mkInnerProductProof (map Some l) (map Some r) (Some a) (Some b) (Some (iw_p wit))).

(** ** Range proofs *)

Record RangeProof := mkRangeProof {
  rp_version : Z; rp_cmsValue : list (option (list Z));
  rp_a : option (list Z); rp_s : option (list Z);
  rp_t1 : option (list Z); rp_t2 : option (list Z);
  rp_tauX : option (list Z); rp_tHat : option (list Z); rp_mu : option (list Z);
  rp_ip : option InnerProductProof }.

Definition RangeProof_new : RangeProof :=
  mkRangeProof 0 [] None None None None None None None None.

Definition RangeProof_Init (proof : RangeProof) : RangeProof :=
  mkRangeProof 2 (rp_cmsValue proof) (Some Identity) (Some Identity) (Some Identity) (Some Identity)
    (Some (replicate 32 0)) (Some (replicate 32 0)) (Some (replicate 32 0)) (Some InnerProductProof_Init).

Definition is_nil {A} (o : option A) : bool := match o with None => true | Some _ => false end.

Definition RangeProof_IsNil (proof : RangeProof) : bool :=
  is_nil (rp_a proof) || is_nil (rp_s proof) || is_nil (rp_t1 proof) || is_nil (rp_t2 proof) ||
  is_nil (rp_tauX proof) || is_nil (rp_tHat proof) || is_nil (rp_mu proof) || is_nil (rp_ip proof).

Record Witness := mkWitness { wt_values : list Z; wt_rands : list (list Z) }.

(** [wit.rands[i] = rands[i]] for each value. *)
Definition Witness_Set (values : list Z) (rands : list (list Z)) : res Witness :=
  if (length rands <? length values)%nat then Panic
  else Ok (mkWitness values (take (length values) rands)).

Fixpoint bit_vectors (values : list Z) : res (list (list Z)) :=
  match values with
  | [] => Ok []
  | v :: vs =>
      let* tmp := ConvertUint64ToBinary v MaxExp in
      let* rest := bit_vectors vs in
      Ok (tmp ++ rest)
  end.

Fixpoint vector_sum (m : nat) (zTmp z : list Z) (twoVectorN : list (list Z)) : list (list Z) :=
  match m with
  | O => []
  | S m' =>
      let zTmp := Scalar_Mul zTmp z in
      map (fun t => Scalar_Mul t zTmp) twoVectorN ++ vector_sum m' zTmp z twoVectorN
  end.

Fixpoint blind_sum (rands : list (list Z)) (zTmp z tauX : list Z) : list Z :=
  match rands with
  | [] => tauX
  | r :: rs =>
      let zTmp := Scalar_Mul zTmp z in
      blind_sum rs zTmp z (Scalar_Add tauX (Scalar_Mul zTmp r))
  end.

Fixpoint scalars_of (values : list Z) : res (list (list Z)) :=
  match values with
  | [] => Ok []
  | v :: vs =>
      let* s := Scalar_FromUint64 v in
      let* rest := scalars_of vs in
      Ok (s :: rest)
  end.

(** The stream of random scalars, in the order they are drawn: [sL[k]] and
    [sR[k]] alternate, then [alpha], [rho], [tau1] and [tau2]. *)
Section prove.
Context (rnd : nat -> list Z).

(** The vectors of [l(X) = l0 + l1 X] and [r(X) = r0 + r1 X], with [l1 = sL];
    also [zNeg] and the vector of the [z^(j+2) 2^i]. *)
Definition range_polynomials (y z : list Z) (N numValuePad : nat) (aL aR sR : list (list Z))
    : res (list (list Z) * list (list Z) * list (list Z) * list Z * list (list Z) * list (list Z)) :=
  let* twoNumber := Scalar_FromUint64 2 in
  let* twoVectorN := powerVector twoNumber MaxExp in
  let* yVector := powerVector y N in
  let* hadProduct := hadamardProduct yVector (vectorAddScalar aR z) in
  let vectorSum := vector_sum numValuePad z z twoVectorN in
  let* zero := Scalar_FromUint64 0 in
  let zNeg := Scalar_Sub zero z in
  let l0 := vectorAddScalar aL zNeg in
  let* r0 := vectorAdd hadProduct vectorSum in
  let* r1 := hadamardProduct yVector sR in
  Ok (l0, r0, r1, zNeg, yVector, vectorSum).

(** [lVector] and [rVector] at the challenge [x]. *)
Definition range_evaluate (x z zNeg : list Z) (aL aR sL sR yVector vectorSum : list (list Z))
    : res (list (list Z) * list (list Z)) :=
  let* lVector := vectorAdd (vectorAddScalar aL zNeg) (vectorMulScalar sL x) in
  let* tmpVector := vectorAdd (vectorAddScalar aR z) (vectorMulScalar sR x) in
  let* rVector := hadamardProduct yVector tmpVector in
  let* rVector := vectorAdd rVector vectorSum in
  Ok (lVector, rVector).

(** The body [Prove] and [ProveUsingBase] share.  [gv] and [hv] are the
    generators of the value commitments, [gt] and [ht] those of the others; the
    transcript holds the value commitments from version 2 on. *)
Definition prove_aggregate (aggParam : bulletproofParams) (version : Z) (gv hv gt ht : list Z)
    (wit : Witness) : res RangeProof :=
  let numValue := length (wt_values wit) in
  if (MaxOutputCoin <? numValue)%nat then Err "must less than MaxOutputCoin"
  else
    let numValuePad := Z.to_nat (roundUpPowTwo (Z.of_nat numValue)) in
    let N := (MaxExp * numValuePad)%nat in
    let* ag := setAggregateParams aggParam N in
    if (numValuePad <? numValue)%nat || (length (wt_rands wit) <? numValue)%nat then Panic
    else
      let* zero := Scalar_FromUint64 0 in
      let* one := Scalar_FromUint64 1 in
      let values := wt_values wit ++ replicate (numValuePad - numValue) 0 in
      let rands := take numValue (wt_rands wit) ++ replicate (numValuePad - numValue) zero in
      let* vs := scalars_of (wt_values wit) in
      let cmsValue := zip_with (fun v r => Point_AddPedersen v gv r hv) vs rands in
      let initChal := bp_cs ag ++ (if 2 <=? version then concat cmsValue else []) in
      let* aL := bit_vectors values in
      let aR := map (fun b => Scalar_Sub b one) aL in
      let sL := map (fun k => rnd (2 * k)%nat) (seq 0 N) in
      let sR := map (fun k => rnd (2 * k + 1)%nat) (seq 0 N) in
      let* pA := encodeVectors aL aR (bp_g ag) (bp_h ag) in
      let* pS := encodeVectors sL sR (bp_g ag) (bp_h ag) in
      let alpha := rnd (2 * N)%nat in
      let rho := rnd (2 * N + 1)%nat in
      let pA := Point_Add pA (Point_ScalarMult ht alpha) in
      let pS := Point_Add pS (Point_ScalarMult ht rho) in
      let* y := deref (generateChallenge initChal [pA; pS]) in
      let* z := deref (generateChallenge y [pA; pS]) in
      let* HPrime := computeHPrime y N (bp_h ag) in
      let* (l0, r0, r1, zNeg, yVector, vectorSum) := range_polynomials y z N numValuePad aL aR sR in
      let* ip3 := innerProduct sL r0 in
      let* ip4 := innerProduct l0 r1 in
      let t1 := Scalar_Add ip3 ip4 in
      let* t2 := innerProduct sL r1 in
      let tau1 := rnd (2 * N + 2)%nat in
      let tau2 := rnd (2 * N + 3)%nat in
      let pT1 := Point_AddPedersen t1 gt tau1 ht in
      let pT2 := Point_AddPedersen t2 gt tau2 ht in
      let* x := deref (generateChallenge z [pT1; pT2]) in
      let xSquare := Scalar_Mul x x in
      let* (lVector, rVector) := range_evaluate x z zNeg aL aR sL sR yVector vectorSum in
      let* tHat := innerProduct lVector rVector in
      let tauX := Scalar_Add (Scalar_Mul tau2 xSquare) (Scalar_Mul tau1 x) in
      let tauX := blind_sum rands z z tauX in
      let mu := Scalar_Add alpha (Scalar_Mul rho x) in
      let* p := encodeVectors lVector rVector (bp_g ag) HPrime in
      let* hx := deref (HashToScalar x) in
      let uPrime := Point_ScalarMult (bp_u ag) hx in
      let p := Point_Add p (Point_ScalarMult uPrime tHat) in
      let* ip := InnerProductWitness_Prove (mkInnerProductWitness lVector rVector p) (bp_g ag) HPrime uPrime x in
      Ok (mkRangeProof version (map Some cmsValue) (Some pA) (Some pS) (Some pT1) (Some pT2)
            (Some tauX) (Some tHat) (Some mu) (Some ip)).

Definition Witness_Prove (aggParam : bulletproofParams) (wit : Witness) : res RangeProof :=
  let* g := index PedG PedersenValueIndex in
  let* h := index PedG PedersenRandomnessIndex in
  prove_aggregate aggParam 2 g h g h wit.

(** The prover of version 1: its transcript does not hold the commitments. *)
Definition Witness_Prove_v1 (aggParam : bulletproofParams) (wit : Witness) : res RangeProof :=
  let* g := index PedG PedersenValueIndex in
  let* h := index PedG PedersenRandomnessIndex in
  prove_aggregate aggParam 1 g h g h wit.

(** [cACommitmentScheme.G] is a package variable; the base is written into it
    and read back for the commitments to [t1] and [t2]. *)
Definition Witness_ProveUsingBase (aggParam : bulletproofParams) (b : list Z) (wit : Witness)
    : st (list (list Z)) RangeProof := fun caG =>
  if (PedersenValueIndex <? length caG)%nat then
    let caG := <[PedersenValueIndex := b]> caG in
    (caG,
     let* h := index PedG PedersenRandomnessIndex in
     let* gt := index caG PedersenValueIndex in
     let* ht := index caG PedersenRandomnessIndex in
     prove_aggregate aggParam 2 b h gt ht wit)
  else (caG, Panic).
End prove.

Fixpoint transform_rands (blinders : list (list Z)) (b0 : list Z) (values : list Z) (rands : list (list Z))
    : res (list (list Z)) :=
  match blinders, values, rands with
  | b :: bs, v :: vs, r :: rs =>
      let* fv := Scalar_FromUint64 v in
      let temp := Scalar_Add (Scalar_Mul (Scalar_Sub b b0) fv) r in
      let* rest := transform_rands bs b0 vs rs in
      Ok (temp :: rest)
  | _, _, _ => Ok []
  end.

Definition TransformWitnessToCAWitness (wit : Witness) (assetTagBlinders : list (list Z)) : res Witness :=
  if negb (length assetTagBlinders =? length (wt_values wit))%nat
     || negb (length assetTagBlinders =? length (wt_rands wit))%nat
  then Err "cannot transform witness: parameter lengths mismatch"
  else
    let* newRands := transform_rands assetTagBlinders (hd [] assetTagBlinders) (wt_values wit) (wt_rands wit) in
    Witness_Set (wt_values wit) newRands.

(** ** Byte forms *)

Fixpoint concat_points (ps : list (option (list Z))) : res (list Z) :=
  match ps with
  | [] => Ok []
  | p :: ps =>
      let* b := deref p in
      let* bs := concat_points ps in
      Ok (b ++ bs)
  end.

Definition InnerProductProof_Bytes (proof : InnerProductProof) : res (list Z) :=
  let* ls := concat_points (ip_l proof) in
  let* rs := concat_points (ip_r proof) in
  let* a := deref (ip_a proof) in
  let* b := deref (ip_b proof) in
  let* p := deref (ip_p proof) in
  Ok (u8 (Z.of_nat (length (ip_l proof))) :: ls ++ rs ++ a ++ b ++ p).

(** The next 32 bytes as a point or as a scalar.  [(None, e)]: the bytes ran out
    and nothing was assigned; a point that does not parse assigns [nil]. *)
Definition next_key (oob : string) (bytes : list Z) (offset : nat) : res (list Z) :=
  if (length bytes <? offset + Ed25519KeySize)%nat then Err oob
  else slice bytes offset (offset + Ed25519KeySize).

Definition read_point {T} (oob : string) (set : option (list Z) -> T -> T) (bytes : list Z) (offset : nat)
    : st T nat :=
  let! b := st_lift (next_key oob bytes offset) in
  st_assign set None "invalid point value"
    (let* p := Point_FromBytesS b in Ok (Some p, (offset + Ed25519KeySize)%nat)).

Definition read_scalar {T} (oob : string) (set : option (list Z) -> T -> T) (bytes : list Z) (offset : nat)
    : st T nat :=
  let! b := st_lift (next_key oob bytes offset) in
  let! _ := st_put (set (Some (Scalar_FromBytesS b))) in
  st_lift (Ok (offset + Ed25519KeySize)%nat).

(** [for i := i0; i < i0 + n; i++ { arr[i], err = ... }] *)
Fixpoint read_points {T} (oob : string) (set : nat -> option (list Z) -> T -> T) (n i : nat) (bytes : list Z)
    (offset : nat) : st T nat :=
  match n with
  | O => st_lift (Ok offset)
  | S n' =>
      let! offset := read_point oob (set i) bytes offset in
      read_points oob set n' (S i) bytes offset
  end.

Definition set_ip_l v p := mkInnerProductProof v (ip_r p) (ip_a p) (ip_b p) (ip_p p).
Definition set_ip_r v p := mkInnerProductProof (ip_l p) v (ip_a p) (ip_b p) (ip_p p).
Definition set_ip_a v p := mkInnerProductProof (ip_l p) (ip_r p) v (ip_b p) (ip_p p).
Definition set_ip_b v p := mkInnerProductProof (ip_l p) (ip_r p) (ip_a p) v (ip_p p).
Definition set_ip_p v p := mkInnerProductProof (ip_l p) (ip_r p) (ip_a p) (ip_b p) v.

Definition InnerProductProof_SetBytes (bytes : list Z) : st InnerProductProof unit :=
  match bytes with
  | [] => st_ret tt
  | b0 :: _ =>
      let lenLArray := Z.to_nat b0 in
      let! _ := st_put (set_ip_l (replicate lenLArray None)) in
      let! offset := read_points "unmarshalling failed" (fun i v p => set_ip_l (<[i := v]> (ip_l p)) p) lenLArray 0 bytes 1 in
      let! _ := st_put (set_ip_r (replicate lenLArray None)) in
      let! offset := read_points "unmarshalling failed" (fun i v p => set_ip_r (<[i := v]> (ip_r p)) p) lenLArray 0 bytes offset in
      let! offset := read_scalar "unmarshalling failed" set_ip_a bytes offset in
      let! offset := read_scalar "unmarshalling failed" set_ip_b bytes offset in
      let! _ := read_point "unmarshalling failed" set_ip_p bytes offset in
      st_ret tt
  end.

(** The version is a [uint8]. *)
Definition RangeProof_Bytes (proof : RangeProof) : res (list Z) :=
  let prefix := if 2 <=? rp_version proof then [0; u8 (rp_version proof)] else [] in
  if RangeProof_IsNil proof then Ok []
  else
    let* cms := concat_points (rp_cmsValue proof) in
    let* a := deref (rp_a proof) in
    let* s := deref (rp_s proof) in
    let* t1 := deref (rp_t1 proof) in
    let* t2 := deref (rp_t2 proof) in
    let* tauX := deref (rp_tauX proof) in
    let* tHat := deref (rp_tHat proof) in
    let* mu := deref (rp_mu proof) in
    let* ip := deref (rp_ip proof) in
    let* ipBytes := InnerProductProof_Bytes ip in
    Ok (prefix ++ u8 (Z.of_nat (length (rp_cmsValue proof))) :: cms ++ a ++ s ++ t1 ++ t2 ++
        tauX ++ tHat ++ mu ++ ipBytes).

Definition set_rp_version v p := mkRangeProof v (rp_cmsValue p) (rp_a p) (rp_s p) (rp_t1 p) (rp_t2 p)
  (rp_tauX p) (rp_tHat p) (rp_mu p) (rp_ip p).
Definition set_rp_cms v p := mkRangeProof (rp_version p) v (rp_a p) (rp_s p) (rp_t1 p) (rp_t2 p)
  (rp_tauX p) (rp_tHat p) (rp_mu p) (rp_ip p).
Definition set_rp_a v p := mkRangeProof (rp_version p) (rp_cmsValue p) v (rp_s p) (rp_t1 p) (rp_t2 p)
  (rp_tauX p) (rp_tHat p) (rp_mu p) (rp_ip p).
Definition set_rp_s v p := mkRangeProof (rp_version p) (rp_cmsValue p) (rp_a p) v (rp_t1 p) (rp_t2 p)
  (rp_tauX p) (rp_tHat p) (rp_mu p) (rp_ip p).
Definition set_rp_t1 v p := mkRangeProof (rp_version p) (rp_cmsValue p) (rp_a p) (rp_s p) v (rp_t2 p)
  (rp_tauX p) (rp_tHat p) (rp_mu p) (rp_ip p).
Definition set_rp_t2 v p := mkRangeProof (rp_version p) (rp_cmsValue p) (rp_a p) (rp_s p) (rp_t1 p) v
  (rp_tauX p) (rp_tHat p) (rp_mu p) (rp_ip p).
Definition set_rp_tauX v p := mkRangeProof (rp_version p) (rp_cmsValue p) (rp_a p) (rp_s p) (rp_t1 p)
  (rp_t2 p) v (rp_tHat p) (rp_mu p) (rp_ip p).
Definition set_rp_tHat v p := mkRangeProof (rp_version p) (rp_cmsValue p) (rp_a p) (rp_s p) (rp_t1 p)
  (rp_t2 p) (rp_tauX p) v (rp_mu p) (rp_ip p).
Definition set_rp_mu v p := mkRangeProof (rp_version p) (rp_cmsValue p) (rp_a p) (rp_s p) (rp_t1 p)
  (rp_t2 p) (rp_tauX p) (rp_tHat p) v (rp_ip p).
Definition set_rp_ip v p := mkRangeProof (rp_version p) (rp_cmsValue p) (rp_a p) (rp_s p) (rp_t1 p)
  (rp_t2 p) (rp_tauX p) (rp_tHat p) (rp_mu p) v.

(** [proof.innerProductProof = new(InnerProductProof)], then its [SetBytes]. *)
Definition read_ip (bytes : list Z) : st RangeProof unit := fun p =>
  let '(ip, r) := InnerProductProof_SetBytes bytes InnerProductProof_new in
  (set_rp_ip (Some ip) p, r).

(** After the version: [bytes[0]] panics when only the two bytes of a version
    were there, which the test of the length excludes. *)
Definition RangeProof_read (bytes : list Z) : st RangeProof unit :=
  let! b0 := st_lift (index bytes 0) in
  let lenValues := Z.to_nat b0 in
  let! _ := st_put (set_rp_cms (replicate lenValues None)) in
  let! offset := read_points "unmarshalling from bytes failed" (fun i v p => set_rp_cms (<[i := v]> (rp_cmsValue p)) p) lenValues 0 bytes 1 in
  let! offset := read_point "unmarshalling from bytes failed" set_rp_a bytes offset in
  let! offset := read_point "unmarshalling from bytes failed" set_rp_s bytes offset in
  let! offset := read_point "unmarshalling from bytes failed" set_rp_t1 bytes offset in
  let! offset := read_point "unmarshalling from bytes failed" set_rp_t2 bytes offset in
  let! offset := read_scalar "unmarshalling from bytes failed" set_rp_tauX bytes offset in
  let! offset := read_scalar "unmarshalling from bytes failed" set_rp_tHat bytes offset in
  let! offset := read_scalar "unmarshalling from bytes failed" set_rp_mu bytes offset in
  if (length bytes <=? offset)%nat then st_fail "unmarshalling from bytes failed"
  else read_ip (drop offset bytes).

Definition RangeProof_SetBytes (bytes : list Z) : st RangeProof unit :=
  match bytes with
  | [] => st_ret tt
  | b0 :: rest =>
      if (b0 =? 0) && (length bytes mod Ed25519KeySize =? 4)%nat then
        let! b1 := st_lift (index bytes 1) in
        let! _ := st_put (set_rp_version (u8 b1)) in
        RangeProof_read (drop 2 bytes)
      else
        let! _ := st_put (set_rp_version 1) in
        RangeProof_read bytes
  end.

(** ** Specification: the verification equations *)

(** The folding a verifier of the inner-product argument does: each round checks
    nothing, the last that [P] is the combination of what is left. *)
Fixpoint ip_check (l r : list (list Z)) (a b : list Z) (P : list Z) (G H : list (list Z))
    (uParam hashCache : list Z) : res bool :=
  match l, r with
  | L :: l, R :: r =>
      let n := (length G / 2)%nat in
      let* x := deref (generateChallenge hashCache [L; R]) in
      let* xi := Scalar_Invert x in
      let P := Point_Add (Point_AddPedersen (Scalar_Mul x x) L (Scalar_Mul xi xi) R) P in
      ip_check l r a b P
        (zip_with (fun lo hi => Point_AddPedersen xi lo x hi) (take n G) (drop n G))
        (zip_with (fun lo hi => Point_AddPedersen x lo xi hi) (take n H) (drop n H)) uParam x
  | _, _ =>
      let* g := index G 0 in
      let* h := index H 0 in
      Ok (IsPointEqual P (Point_Add (Point_AddPedersen a g b h) (Point_ScalarMult uParam (Scalar_Mul a b))))
  end.

(** The challenges of the rounds are invertible: true of every non-zero scalar,
    the order of the group being prime. *)
Fixpoint ip_invertible (l r : list (list Z)) (hashCache : list Z) : Prop :=
  match l, r with
  | L :: l, R :: r =>
      exists x, generateChallenge hashCache [L; R] = Some x /\ Z.gcd (key_val x) order = 1 /\
        ip_invertible l r x
  | _, _ => True
  end.

(** [acc + Σ z^(j+2) V_j]. *)
Fixpoint commitment_sum (cms : list (list Z)) (zTmp z acc : list Z) : list Z :=
  match cms with
  | [] => acc
  | V :: cms =>
      let zTmp := Scalar_Mul zTmp z in
      commitment_sum cms zTmp z (Point_Add acc (Point_ScalarMult V zTmp))
  end.

(** What a complete proof holds. *)
Record proof_data := mkProofData {
  pd_cms : list (list Z); pd_a : list Z; pd_s : list Z; pd_t1 : list Z; pd_t2 : list Z;
  pd_tauX : list Z; pd_tHat : list Z; pd_mu : list Z;
  pd_l : list (list Z); pd_r : list (list Z); pd_ipa : list Z; pd_ipb : list Z; pd_p : list Z }.

Definition proof_of (version : Z) (d : proof_data) : RangeProof :=
  mkRangeProof version (map Some (pd_cms d)) (Some (pd_a d)) (Some (pd_s d)) (Some (pd_t1 d))
    (Some (pd_t2 d)) (Some (pd_tauX d)) (Some (pd_tHat d)) (Some (pd_mu d))
    (Some (mkInnerProductProof (map Some (pd_l d)) (map Some (pd_r d)) (Some (pd_ipa d))
             (Some (pd_ipb d)) (Some (pd_p d)))).

(** The challenges of a proof. *)
Definition range_challenges (cs : list Z) (version : Z) (d : proof_data) : res (list Z * list Z * list Z) :=
  let* y := deref (generateChallenge (cs ++ (if 2 <=? version then concat (pd_cms d) else []))
                     [pd_a d; pd_s d]) in
  let* z := deref (generateChallenge y [pd_a d; pd_s d]) in
  let* x := deref (generateChallenge z [pd_t1 d; pd_t2 d]) in
  Ok (y, z, x).

(** The challenge [y] and those of the inner-product argument are invertible. *)
Definition range_invertible (cs : list Z) (version : Z) (d : proof_data) : Prop :=
  exists y z x, range_challenges cs version d = Ok (y, z, x) /\
    Z.gcd (key_val y) order = 1 /\ ip_invertible (pd_l d) (pd_r d) x.

(** [tHat g + tauX h = Σ z^(j+2) V_j + δ(y,z) g + x T1 + x² T2]. *)
Definition polynomial_check (ag : bulletproofParams) (g h y z x : list Z) (d : proof_data) : res bool :=
  let N := length (bp_g ag) in
  let* yVector := powerVector y N in
  let* delta := computeDeltaYZ z (Scalar_Mul z z) yVector N in
  let rhs := commitment_sum (pd_cms d) z z (Point_ScalarMult g delta) in
  let rhs := Point_Add rhs (Point_AddPedersen x (pd_t1 d) (Scalar_Mul x x) (pd_t2 d)) in
  Ok (IsPointEqual (Point_AddPedersen (pd_tHat d) g (pd_tauX d) h) rhs).

(** [P = A + x S - z Σ G + Σ (z yⁱ + z^(j+2) 2ⁱ) H' - mu h + tHat u'], and the
    inner-product argument for [P]. *)
Definition vector_check (ag : bulletproofParams) (h y z x : list Z) (d : proof_data) : res bool :=
  let N := length (bp_g ag) in
  let* zero := Scalar_FromUint64 0 in
  let* two := Scalar_FromUint64 2 in
  let* twoVectorN := powerVector two MaxExp in
  let* yVector := powerVector y N in
  let* HPrime := computeHPrime y N (bp_h ag) in
  let* hx := deref (HashToScalar x) in
  let uPrime := Point_ScalarMult (bp_u ag) hx in
  let hExp := zip_with Scalar_Add (vectorMulScalar yVector z) (vector_sum (N / MaxExp) z z twoVectorN) in
  let P := Point_Add (pd_a d) (Point_ScalarMult (pd_s d) x) in
  let P := Point_Add P (MultiScalarMultKey (bp_g ag) (replicate N (Scalar_Sub zero z))) in
  let P := Point_Add P (MultiScalarMultKey HPrime hExp) in
  let P := Point_Add P (Point_AddPedersen (Scalar_Sub zero (pd_mu d)) h (pd_tHat d) uPrime) in
  let* ok := ip_check (pd_l d) (pd_r d) (pd_ipa d) (pd_ipb d) (pd_p d) (bp_g ag) HPrime uPrime x in
  Ok (IsPointEqual (pd_p d) P && ok).

(** The verification of an aggregated range proof for the generators [g] (of
    the values) and [h]. *)
Definition range_check (ag : bulletproofParams) (g h : list Z) (version : Z) (d : proof_data) : res bool :=
  let* (y, z, x) := range_challenges (bp_cs ag) version d in
  let* poly := polynomial_check ag g h y z x d in
  let* vec := vector_check ag h y z x d in
  Ok (poly && vec).
End helpers.

(** ** Vectors of scalars as vectors of integers *)

(** [1, y, ..., y^(n-1)]. *)
Definition zpowers (y : Z) (n : nat) : list Z := map (fun i => y ^ Z.of_nat i) (seq 0 n).

Lemma length_zpowers y n : length (zpowers y n) = n.
Proof. unfold zpowers. by rewrite length_map, length_seq. Qed.

Lemma map_zip_with {A B C D} (f : C -> D) (g : A -> B -> C) l : forall k,
  map f (zip_with g l k) = zip_with (fun x y => f (g x y)) l k.
Proof. induction l as [|x l IH]; intros [|y k]; try done. cbn. by rewrite IH. Qed.

Lemma zip_with_maps {A B C D E} (f : C -> D -> E) (g : A -> C) (h : B -> D) l : forall k,
  zip_with f (map g l) (map h k) = zip_with (fun x y => f (g x) (h y)) l k.
Proof. induction l as [|x l IH]; intros [|y k]; try done. cbn. by rewrite IH. Qed.

Lemma zip_with_eqm (f g : Z -> Z -> Z) a b : (forall x y, f x y ≡ₒ g x y) ->
  map sc (zip_with f a b) = map sc (zip_with g a b).
Proof.
  intros E. revert b. induction a as [|x a IH]; intros [|y b]; try done.
  cbn [zip_with map]. by rewrite IH, E.
Qed.

Lemma seq_shift_plus k n : forall i, seq (k + i) n = map (fun j => (k + j)%nat) (seq i n).
Proof.
  induction n as [|n IH]; intros i; [done|]. cbn [seq map]. f_equal.
  rewrite <- Nat.add_succ_r. apply IH.
Qed.

Section vectors.
Context `{CL : CurveLaws} `{DL : DigestLaws}.

Lemma FromUint64_sc v : is_u64 v -> Scalar_FromUint64 v = Ok (sc v).
Proof using Type.
  intros Hv. rewrite (proj1 (FromUint64_ok v Hv)). f_equal. apply sc_small.
  unfold is_u64 in Hv. assert (2 ^ 64 < order) by by vm_compute. lia.
Qed.

Lemma is_u64_small v : (0 <=? v) && (v <? 256) = true -> is_u64 v.
Proof using Type. intros Hv. to_prop. unfold is_u64. lia. Qed.

Lemma Invert_sc x : exists xi, Scalar_Invert (sc x) = Ok (sc xi) /\
  (Z.gcd (key_val (sc x)) order = 1 -> xi * x ≡ₒ 1).
Proof using Type.
  pose proof (Scalar_Invert_ok (sc x) (proj1 (sc_ok_sc x))) as E.
  pose proof (mod_inverse_ok (key_val (sc x)) order ltac:(by vm_compute)) as Hi.
  destruct (mod_inverse (key_val (sc x)) order) as [i|].
  - destruct Hi as [Hb Hm]. exists i. rewrite E, sc_small by done. split; [done|]. intros _.
    rewrite sc_val in Hm. unfold eqm. rewrite <- Zmult_mod_idemp_r, Hm. reflexivity.
  - exists 0. rewrite E, sc_small by (pose proof order_pos; lia).
    split; [reflexivity|intros Hg; elim (Hi Hg)].
Qed.

Lemma innerProduct_sc a b : length a = length b ->
  innerProduct (map sc a) (map sc b) = Ok (sc (dot a b)).
Proof using CL.
  intros Hl. unfold innerProduct. rewrite !length_map, Hl, Nat.eqb_refl. cbn [negb].
  rewrite (FromUint64_sc 0) by by apply is_u64_small. cbn [res_bind]. f_equal.
  enough (forall c, fold_left (fun result ab => Scalar_MulAdd (fst ab) (snd ab) result)
                 (zip (map sc a) (map sc b)) (sc c) = sc (dot a b + c)) as ->
    by (f_equal; lia).
  clear Hl. unfold dot. revert b.
  induction a as [|x a IH]; intros [|y b] c; try reflexivity.
  cbn [map zip_with fold_left foldr fst snd]. unfold Scalar_MulAdd at 2.
  rewrite ScMulAdd_sc, IH. f_equal. ring.
Qed.

Lemma innerProduct_err a b : length a <> length b ->
  innerProduct a b = Err "incompatible sizes of a and b".
Proof using Type. intros Hl. unfold innerProduct. by bounds. Qed.

Lemma vectorAdd_sc a b : length a = length b ->
  vectorAdd (map sc a) (map sc b) = Ok (map sc (zip_with Z.add a b)).
Proof using CL.
  intros Hl. unfold vectorAdd. rewrite !length_map, Hl, Nat.eqb_refl. cbn [negb]. f_equal.
  rewrite zip_with_maps, map_zip_with. revert b Hl.
  induction a as [|x a IH]; intros [|y b] Hl; try discriminate Hl; [done|]. injection Hl as Hl.
  cbn [zip_with]. rewrite IH by done. unfold Scalar_Add. by rewrite ScAdd_sc.
Qed.

Lemma hadamardProduct_sc a b : length a = length b ->
  hadamardProduct (map sc a) (map sc b) = Ok (map sc (zip_with Z.mul a b)).
Proof using CL.
  intros Hl. unfold hadamardProduct. rewrite !length_map, Hl, Nat.eqb_refl. cbn [negb]. f_equal.
  rewrite zip_with_maps, map_zip_with. revert b Hl.
  induction a as [|x a IH]; intros [|y b] Hl; try discriminate Hl; [done|]. injection Hl as Hl.
  cbn [zip_with]. rewrite IH by done. unfold Scalar_Mul. by rewrite ScMul_sc.
Qed.

Lemma vectorAddScalar_sc a s : vectorAddScalar (map sc a) (sc s) = map sc (map (fun x => x + s) a).
Proof using CL.
  unfold vectorAddScalar. rewrite !map_map. apply map_ext. intros x. apply ScAdd_sc.
Qed.

Lemma vectorMulScalar_sc a s : vectorMulScalar (map sc a) (sc s) = map sc (map (Z.mul s) a).
Proof using CL.
  unfold vectorMulScalar. rewrite !map_map. apply map_ext. intros x. unfold Scalar_Mul.
  rewrite ScMul_sc. f_equal. ring.
Qed.

Lemma powers_from_sc n p y :
  powers_from n (sc p) (sc y) = map sc (map (fun i => p * y ^ Z.of_nat (S i)) (seq 0 n)).
Proof using CL.
  revert p. induction n as [|n IH]; intros p; [done|].
  cbn [powers_from seq]. rewrite !map_cons. unfold Scalar_Mul. rewrite ScMul_sc.
  f_equal; [f_equal; by rewrite Z.pow_1_r|].
  rewrite IH. change (seq 1 n) with (seq (1 + 0) n). rewrite seq_shift_plus, !map_map.
  apply map_ext. intros i. f_equal.
  replace (Z.of_nat (S (1 + i))) with (1 + Z.of_nat (S i)) by lia.
  rewrite Z.pow_add_r, Z.pow_1_r by lia. ring.
Qed.

Lemma powerVector_sc y n : (0 < n)%nat -> powerVector (sc y) n = Ok (map sc (zpowers y n)).
Proof using CL.
  intros Hn. unfold powerVector. rewrite (FromUint64_sc 1) by by apply is_u64_small.
  destruct n as [|[|n]]; [lia|done|]. bounds. cbn [res_bind Nat.sub]. rewrite Nat.sub_0_r.
  rewrite powers_from_sc. unfold zpowers. cbn [seq]. rewrite !map_cons. do 2 f_equal.
  f_equal; [f_equal; by rewrite Z.pow_1_r|].
  change (seq 2 n) with (seq (2 + 0) n). rewrite seq_shift_plus, !map_map. apply map_ext.
  intros i. f_equal. replace (Z.of_nat (2 + i)) with (1 + Z.of_nat (S i)) by lia.
  by rewrite Z.pow_add_r, Z.pow_1_r by lia.
Qed.

Lemma multi_ok l g : length l = length g -> Forall sc_ok l -> Forall pt_ok g ->
  Point_MultiScalarMult l g = Ok (Some (MultiScalarMultKey g l)) /\ pt_ok (MultiScalarMultKey g l).
Proof using CL.
  intros Hl Hs Hg. unfold Point_MultiScalarMult. rewrite Hl, Nat.eqb_refl. cbn [negb].
  assert (pt_ok (MultiScalarMultKey g l)) as Hp.
  { rewrite (scs_repr l Hs), lin_multi by (rewrite ?length_map; done). by apply lin_pt. }
  unfold Point_SetKey. by rewrite (proj2 (pt_key _ Hp)).
Qed.

Lemma encodeVectors_sc l r g h : length l = length r -> length g = length l -> length h = length g ->
  Forall pt_ok g -> Forall pt_ok h ->
  encodeVectors (map sc l) (map sc r) g h = Ok (AddKeys (lin l g) (lin r h)).
Proof using CL.
  intros H1' H2' H3' Hg Hh. unfold encodeVectors. rewrite !length_map. bounds.
  rewrite (proj1 (multi_ok (map sc l) g ltac:(rewrite length_map; lia) (scs_ok l) Hg)).
  rewrite (proj1 (multi_ok (map sc r) h ltac:(rewrite length_map; lia) (scs_ok r) Hh)).
  cbn [res_bind deref]. by rewrite !lin_multi by (done || lia).
Qed.

Lemma challenge_sc hc ps : bytes_ok hc -> Forall pt_ok ps ->
  exists x, generateChallenge hc ps = Some (sc x).
Proof using CL DL.
  intros Hc Hp. unfold generateChallenge.
  destruct (HashToScalar_ok (hc ++ concat ps)) as (s & E & _ & Hs).
  - apply Forall_app. split; [done|]. apply Forall_concat.
    eapply Forall_impl; [exact Hp|]. intros p Hpt. exact (proj2 (proj1 (pt_key p Hpt))).
  - exists (key_val s). by rewrite <- sc_repr.
Qed.

Lemma sc_bytes z : bytes_ok (sc z).
Proof using Type. exact (proj2 (proj1 (sc_ok_sc z))). Qed.

Lemma add_pedersen_sc a p b q : pt_ok p -> pt_ok q ->
  Point_AddPedersen (sc a) p (sc b) q = AddKeys (pmul p a) (pmul q b).
Proof using CL. intros. apply add_pedersen; auto with bytes. Qed.

(** Folding the generators of a round. *)
Lemma fold_points a b G1 G2 : length G1 = length G2 -> Forall pt_ok G1 -> Forall pt_ok G2 ->
  zip_with (fun lo hi => Point_AddPedersen (sc a) lo (sc b) hi) G1 G2 =
  zip_with AddKeys (map (fun p => pmul p a) G1) (map (fun p => pmul p b) G2).
Proof using CL.
  intros Hl Hg1. revert G2 Hl. induction Hg1 as [|p G1 Hp Hg1 IH]; intros [|q G2] Hl Hg2;
    try discriminate Hl; [done|].
  injection Hl as Hl. apply Forall_cons in Hg2 as [Hq Hg2]. cbn [map zip_with].
  rewrite IH, add_pedersen_sc by done. done.
Qed.

(** Folding the scalars of a round. *)
Lemma fold_scalars a b l1 l2 :
  zip_with (fun lo hi => Scalar_MulAdd hi (sc b) (Scalar_Mul lo (sc a))) (map sc l1) (map sc l2) =
  map sc (zip_with Z.add (map (Z.mul a) l1) (map (Z.mul b) l2)).
Proof using CL.
  rewrite zip_with_maps, zip_with_maps, map_zip_with. revert l2.
  induction l1 as [|x l1 IH]; intros [|y l2]; try done. cbn [zip_with]. rewrite IH. f_equal.
  unfold Scalar_MulAdd, Scalar_Mul. rewrite ScMul_sc, ScMulAdd_sc. f_equal. ring.
Qed.
End vectors.

(** ** The inner-product argument *)

Section ip_step.
Context `{CL : CurveLaws}.
Import ScalarRing.

(** One round keeps [P] the combination of the folded vectors and generators. *)
Lemma ip_step x xi a1 a2 b1 b2 G1 G2 H1 H2 u :
  xi * x ≡ₒ 1 -> length a1 = length a2 -> length b1 = length b2 -> length a1 = length b1 ->
  length G1 = length G2 -> length H1 = length H2 -> length a1 = length G1 -> length b1 = length H1 ->
  Forall pt_ok G1 -> Forall pt_ok G2 -> Forall pt_ok H1 -> Forall pt_ok H2 -> pt_ok u ->
  let a' := zip_with Z.add (map (Z.mul x) a1) (map (Z.mul xi) a2) in
  let b' := zip_with Z.add (map (Z.mul xi) b1) (map (Z.mul x) b2) in
  let G' := zip_with AddKeys (map (fun p => pmul p xi) G1) (map (fun p => pmul p x) G2) in
  let H' := zip_with AddKeys (map (fun p => pmul p x) H1) (map (fun p => pmul p xi) H2) in
  let pL := AddKeys (AddKeys (lin a1 G2) (lin b2 H1)) (pmul u (dot a1 b2)) in
  let pR := AddKeys (AddKeys (lin a2 G1) (lin b1 H2)) (pmul u (dot a2 b1)) in
  let P := AddKeys (AddKeys (AddKeys (lin a1 G1) (lin a2 G2)) (AddKeys (lin b1 H1) (lin b2 H2)))
             (pmul u (dot a1 b1 + dot a2 b2)) in
  AddKeys (AddKeys (pmul pL (x * x)) (pmul pR (xi * xi))) P =
  AddKeys (AddKeys (lin a' G') (lin b' H')) (pmul u (dot a' b')).
Proof using CL.
  intros E La Lb Lab LG LH LaG LbH HG1 HG2 HH1 HH2 Hu. cbn zeta.
  assert (forall k ps, Forall pt_ok ps -> Forall pt_ok (map (fun p => pmul p k) ps)) as Hm.
  { intros k ps Hps. apply Forall_map. eapply Forall_impl; [exact Hps|]. intros p Hp. by apply pmul_pt. }
  assert (forall ps qs, Forall pt_ok ps -> Forall pt_ok qs -> Forall pt_ok (zip_with AddKeys ps qs)) as Hz.
  { intros ps qs Hps. revert qs. induction Hps as [|p ps Hp Hps IH]; intros [|q qs] Hqs; try constructor.
    - apply pt_add; [done|by inversion Hqs].
    - apply IH. by inversion Hqs. }
  rewrite !lin_add, !lin_scale by (rewrite ?length_map; auto).
  rewrite !lin_pts_add, !lin_pts_scale by (rewrite ?length_map; auto).
  rewrite !dot_add_l, !dot_add_r, !dot_scale_l, !dot_scale_r by (rewrite ?length_map; lia).
  module_with ltac:(ring [E]).
Qed.
End ip_step.

Section ip.
Context `{CL : CurveLaws} `{DL : DigestLaws}.

Lemma ip_final x y g h u : pt_ok g -> pt_ok h -> pt_ok u ->
  ip_check [] [] (sc x) (sc y) (AddKeys (AddKeys (lin [x] [g]) (lin [y] [h])) (pmul u (dot [x] [y])))
    [g] [h] u [] = Ok true.
Proof using CL.
  intros Hg Hh Hu. cbn [ip_check index lookup list_lookup]. unfold index. cbn [lookup list_lookup res_bind].
  f_equal. unfold IsPointEqual. apply bool_decide_true. rewrite add_pedersen_sc by done.
  unfold Point_Add, Point_ScalarMult, Scalar_Mul. rewrite ScMul_sc. fold (pmul u (x * y)).
  unfold lin, dot. cbn [zip_with foldr fst snd].
  rewrite !add_identity by (by apply pmul_pt). do 2 f_equal. ring.
Qed.

(** The vectors, generators and points of a round. *)
Definition fold_zs (x xi : Z) (a1 a2 : list Z) : list Z :=
  zip_with Z.add (map (Z.mul x) a1) (map (Z.mul xi) a2).

Definition fold_pts (x xi : Z) (G1 G2 : list (list Z)) : list (list Z) :=
  zip_with AddKeys (map (fun p => pmul p x) G1) (map (fun p => pmul p xi) G2).

Definition cross (u : list Z) (a b : list Z) (G H : list (list Z)) : list Z :=
  AddKeys (AddKeys (lin a G) (lin b H)) (pmul u (dot a b)).

Lemma fold_zs_length x xi a1 a2 n : length a1 = n -> length a2 = n -> length (fold_zs x xi a1 a2) = n.
Proof using Type. intros <- ?. unfold fold_zs. rewrite length_zip_with, !length_map. lia. Qed.

Lemma fold_pts_length x xi G1 G2 n : length G1 = n -> length G2 = n -> length (fold_pts x xi G1 G2) = n.
Proof using Type. intros <- ?. unfold fold_pts. rewrite length_zip_with, !length_map. lia. Qed.

Lemma fold_pts_ok x xi G1 G2 : Forall pt_ok G1 -> Forall pt_ok G2 -> Forall pt_ok (fold_pts x xi G1 G2).
Proof using CL.
  unfold fold_pts. intros Hps. revert G2.
  induction Hps as [|p ps Hp Hps IH]; intros [|q qs] Hqs; try constructor.
  - inversion Hqs. apply pt_add; by apply pmul_pt.
  - apply IH. by inversion Hqs.
Qed.

Lemma cross_pt u a b G Hh : Forall pt_ok G -> Forall pt_ok Hh -> pt_ok u -> pt_ok (cross u a b G Hh).
Proof using CL. intros. unfold cross. auto using pt_add, lin_pt, pmul_pt. Qed.

Lemma half_double n : ((n + n) / 2)%nat = n.
Proof using Type. replace (n + n)%nat with (n * 2)%nat by lia. by apply Nat.div_mul. Qed.

Lemma halves {A} (l1 l2 : list A) n : length l1 = n -> take n (l1 ++ l2) = l1 /\ drop n (l1 ++ l2) = l2.
Proof using Type. intros Hl. by rewrite take_app_length', drop_app_length'. Qed.

Lemma prove_round n fuel a1 a2 b1 b2 p G1 G2 H1 H2 u hc l0 r0 : (0 < n)%nat ->
  length a1 = n -> length a2 = n -> length b1 = n -> length b2 = n ->
  length G1 = n -> length G2 = n -> length H1 = n -> length H2 = n ->
  Forall pt_ok G1 -> Forall pt_ok G2 -> Forall pt_ok H1 -> Forall pt_ok H2 -> pt_ok u -> bytes_ok hc ->
  let pL := cross u a1 b2 G2 H1 in
  let pR := cross u a2 b1 G1 H2 in
  exists x xi p', generateChallenge hc [pL; pR] = Some (sc x) /\
    Scalar_Invert (sc x) = Ok (sc xi) /\ (Z.gcd (key_val (sc x)) order = 1 -> xi * x ≡ₒ 1) /\
    prove_rounds (S fuel) (n + n) (map sc (a1 ++ a2)) (map sc (b1 ++ b2)) p (G1 ++ G2) (H1 ++ H2) u hc l0 r0
    = prove_rounds fuel n (map sc (fold_zs x xi a1 a2)) (map sc (fold_zs xi x b1 b2)) p'
        (fold_pts xi x G1 G2) (fold_pts x xi H1 H2) u (sc x) (l0 ++ [pL]) (r0 ++ [pR]).
Proof using CL DL.
  intros Hn La1 La2 Lb1 Lb2 LG1 LG2 LH1 LH2 HG1 HG2 HH1 HH2 Hu Hc pL pR.
  assert (pt_ok pL) as HpL by (by apply cross_pt). assert (pt_ok pR) as HpR by (by apply cross_pt).
  destruct (challenge_sc hc [pL; pR] Hc) as [x Ex]; [by repeat constructor|].
  destruct (Invert_sc x) as (xi & Exi & Hinv).
  exists x, xi, (Point_Add (Point_AddPedersen (sc (x * x)) pL (sc (xi * xi)) pR) p).
  split; [exact Ex|]. split; [exact Exi|]. split; [exact Hinv|].
  cbn [prove_rounds]. rewrite half_double. replace (1 <? n + n)%nat with true by (symmetry; apply Nat.ltb_lt; lia).
  rewrite !map_app.
  destruct (halves (map sc a1) (map sc a2) n) as [-> ->]; [by rewrite length_map|].
  destruct (halves (map sc b1) (map sc b2) n) as [-> ->]; [by rewrite length_map|].
  destruct (halves G1 G2 n LG1) as [-> ->]. destruct (halves H1 H2 n LH1) as [-> ->].
  rewrite (innerProduct_sc a1 b2), (innerProduct_sc a2 b1) by lia. cbn [res_bind].
  rewrite (encodeVectors_sc a1 b2 G2 H1), (encodeVectors_sc a2 b1 G1 H2) by (assumption || lia). cbn [res_bind].
  fold (pmul u (dot a1 b2)) (pmul u (dot a2 b1)). unfold Point_ScalarMult, Point_Add at 1 2 3 4.
  fold (pmul u (dot a1 b2)) (pmul u (dot a2 b1)). fold (cross u a1 b2 G2 H1) (cross u a2 b1 G1 H2).
  fold pL pR. rewrite Ex. cbn [deref res_bind]. rewrite Exi. cbn [res_bind].
  unfold Scalar_Mul at 1 2. rewrite !ScMul_sc.
  rewrite !fold_scalars, !fold_points by (assumption || lia). reflexivity.
Qed.

Lemma split_vector {A} n (l : list A) : length l = (2 ^ S n)%nat ->
  exists l1 l2, l = l1 ++ l2 /\ length l1 = (2 ^ n)%nat /\ length l2 = (2 ^ n)%nat.
Proof using Type.
  intros Hl. cbn [Nat.pow] in Hl. exists (take (2 ^ n) l), (drop (2 ^ n) l).
  rewrite take_drop, length_take, length_drop. split; [done|lia].
Qed.

(** Every round is done, and the proof closes when the challenges are invertible. *)
Lemma ip_rounds k : forall fuel a b p G Hh u hc l0 r0,
  (k < fuel)%nat -> length a = (2 ^ k)%nat -> length b = (2 ^ k)%nat ->
  length G = (2 ^ k)%nat -> length Hh = (2 ^ k)%nat ->
  Forall pt_ok G -> Forall pt_ok Hh -> pt_ok u -> bytes_ok hc ->
  exists l r za zb,
    prove_rounds fuel (2 ^ k) (map sc a) (map sc b) p G Hh u hc l0 r0 =
      Ok (l0 ++ l, r0 ++ r, sc za, sc zb) /\
    length l = k /\ length r = k /\ Forall pt_ok l /\ Forall pt_ok r /\
    (ip_invertible l r hc -> ip_check l r (sc za) (sc zb) (cross u a b G Hh) G Hh u hc = Ok true).
Proof using CL DL.
  induction k as [|k IH]; intros [|fuel] a b p G Hh u hc l0 r0 Hf La Lb LG LH HG HH Hu Hc; try lia.
  - destruct a as [|x [|]]; try discriminate La. destruct b as [|y [|]]; try discriminate Lb.
    destruct G as [|g [|]]; try discriminate LG. destruct Hh as [|h [|]]; try discriminate LH.
    exists [], [], x, y. rewrite !app_nil_r. split; [reflexivity|]. split; [reflexivity|].
    split; [reflexivity|]. split; [constructor|]. split; [constructor|]. intros _.
    apply ip_final; [by inversion HG|by inversion HH|done].
  - destruct (split_vector k a La) as (a1 & a2 & -> & La1 & La2).
    destruct (split_vector k b Lb) as (b1 & b2 & -> & Lb1 & Lb2).
    destruct (split_vector k G LG) as (G1 & G2 & -> & LG1 & LG2).
    destruct (split_vector k Hh LH) as (H1' & H2' & -> & LH1 & LH2).
    apply Forall_app in HG as [HG1 HG2]. apply Forall_app in HH as [HH1 HH2].
    destruct (prove_round (2 ^ k) fuel a1 a2 b1 b2 p G1 G2 H1' H2' u hc l0 r0)
      as (x & xi & p' & Ex & Exi & Hinv & E); try assumption. { apply Nat.neq_0_lt_0, Nat.pow_nonzero. lia. }
    replace (2 ^ S k)%nat with (2 ^ k + 2 ^ k)%nat by (cbn [Nat.pow]; lia). rewrite E.
    set (pL := cross u a1 b2 G2 H1') in *. set (pR := cross u a2 b1 G1 H2') in *.
    destruct (IH fuel (fold_zs x xi a1 a2) (fold_zs xi x b1 b2) p' (fold_pts xi x G1 G2)
      (fold_pts x xi H1' H2') u (sc x) (l0 ++ [pL]) (r0 ++ [pR])) as (l & r & za & zb & -> & Ll & Lr & Pl & Pr & Hok);
      auto using fold_zs_length, fold_pts_length, fold_pts_ok, sc_bytes with lia.
    exists (pL :: l), (pR :: r), za, zb. rewrite <- !app_assoc. split; [reflexivity|].
    split; [cbn; lia|]. split; [cbn; lia|].
    split; [constructor; [by apply cross_pt|done]|]. split; [constructor; [by apply cross_pt|done]|].
    cbn [ip_invertible ip_check]. rewrite Ex. intros (s & Es & Hg & Hrest). injection Es as <-.
    cbn [deref res_bind]. rewrite Exi. cbn [res_bind].
    rewrite !length_app, LG1, LG2, half_double.
    destruct (halves G1 G2 (2 ^ k) LG1) as [-> ->]. destruct (halves H1' H2' (2 ^ k) LH1) as [-> ->].
    rewrite !fold_points by (assumption || lia). unfold Scalar_Mul. rewrite !ScMul_sc.
    rewrite add_pedersen_sc by (by apply cross_pt).
    rewrite <- (Hok Hrest). f_equal. unfold Point_Add, pL, pR, cross.
    rewrite !lin_app by (assumption || lia). rewrite dot_app by lia.
    apply (ip_step x xi); try assumption; try lia. exact (Hinv Hg).
Qed.
End ip.

(** ** Range proofs: the vectors over the integers *)

Definition bits (n : nat) (v : Z) : list Z := map (fun i => v / 2 ^ Z.of_nat i mod 2) (seq 0 n).

Fixpoint zpowers_from (f y : Z) (n : nat) : list Z :=
  match n with O => [] | S n' => f :: zpowers_from (f * y) y n' end.

(** [z^(j+2) 2^i] at [64 j + i]. *)
Fixpoint zvector_sum (m : nat) (zt z : Z) (two : list Z) : list Z :=
  match m with
  | O => []
  | S m' => map (Z.mul (zt * z)) two ++ zvector_sum m' (zt * z) z two
  end.

(** [Σ z^(j+1) zt v_j]. *)
Fixpoint wsum (vs : list Z) (zt z : Z) : Z :=
  match vs with [] => 0 | v :: vs => zt * z * v + wsum vs (zt * z) z end.

Definition total (l : list Z) : Z := foldr Z.add 0 l.

Lemma length_bits n v : length (bits n v) = n.
Proof. unfold bits. by rewrite length_map, length_seq. Qed.

Lemma zpowers_eq y n : zpowers y n = zpowers_from 1 y n.
Proof.
  enough (forall f k, map (fun i => f * y ^ Z.of_nat i) (seq k n) = zpowers_from (f * y ^ Z.of_nat k) y n) as E.
  { specialize (E 1 0%nat). rewrite Z.mul_1_l, Z.pow_0_r in E. rewrite <- E.
    unfold zpowers. apply map_ext. intros. by rewrite Z.mul_1_l. }
  intros f. induction n as [|n IH]; intros k; [done|]. cbn [seq map zpowers_from]. f_equal.
  rewrite IH. f_equal. rewrite Nat2Z.inj_succ, Z.pow_succ_r by lia. ring.
Qed.

Lemma length_zpowers_from f y n : length (zpowers_from f y n) = n.
Proof. revert f. induction n as [|n IH]; intros f; [done|]. cbn. by rewrite IH. Qed.

Lemma bits_S n v : bits (S n) v = v mod 2 :: bits n (v / 2).
Proof.
  unfold bits. cbn [seq map]. f_equal; [by rewrite Z.pow_0_r, Z.div_1_r|].
  change (seq 1 n) with (seq (1 + 0) n). rewrite seq_shift_plus, map_map. apply map_ext. intros i.
  by rewrite Nat2Z.inj_add, Z.pow_add_r, Z.pow_1_r, Z.div_div by lia.
Qed.

Lemma bits_binary n v : Forall (fun b => b * b = b) (bits n v).
Proof.
  apply Forall_map, Forall_true. intros i.
  pose proof (Z.mod_pos_bound (v / 2 ^ Z.of_nat i) 2 ltac:(lia)).
  assert (v / 2 ^ Z.of_nat i mod 2 = 0 \/ v / 2 ^ Z.of_nat i mod 2 = 1) as [-> | ->] by lia; done.
Qed.

(** The bits of a value are its binary form. *)
Lemma bits_value n : forall v f, 0 <= v < 2 ^ Z.of_nat n -> dot (bits n v) (zpowers_from f 2 n) = f * v.
Proof.
  induction n as [|n IH]; intros v f Hv.
  - replace v with 0 by (cbn in Hv; lia). cbn. ring.
  - rewrite Nat2Z.inj_succ, Z.pow_succ_r in Hv by lia.
    rewrite bits_S. unfold dot. cbn [zpowers_from zip_with foldr fst snd].
    fold (dot (bits n (v / 2)) (zpowers_from (f * 2) 2 n)).
    pose proof (Z.div_mod v 2 ltac:(lia)) as E. pose proof (Z.mod_pos_bound v 2 ltac:(lia)).
    rewrite IH by lia. rewrite E at 3. ring.
Qed.

Lemma length_zvector_sum m zt z two : length (zvector_sum m zt z two) = (m * length two)%nat.
Proof.
  revert zt. induction m as [|m IH]; intros zt; [done|].
  cbn [zvector_sum]. rewrite length_app, length_map, IH. lia.
Qed.

Lemma dot_vector_sum n vs : forall zt z, Forall (fun v => 0 <= v < 2 ^ Z.of_nat n) vs ->
  dot (concat (map (bits n) vs)) (zvector_sum (length vs) zt z (zpowers_from 1 2 n)) = wsum vs zt z.
Proof.
  induction vs as [|v vs IH]; intros zt z Hvs; [done|]. apply Forall_cons in Hvs as [Hv Hvs].
  cbn [map concat length zvector_sum wsum].
  rewrite dot_app by (rewrite length_bits, length_map, length_zpowers_from; done).
  rewrite dot_scale_r, bits_value, IH by done. ring.
Qed.

Lemma total_app a b : total (a ++ b) = total a + total b.
Proof. unfold total. induction a as [|x a IH]; [done|]. cbn [app foldr]. rewrite IH. ring. Qed.

Lemma total_scale k a : total (map (Z.mul k) a) = k * total a.
Proof. unfold total. induction a as [|x a IH]; cbn [map foldr]; [ring|]. rewrite IH. ring. Qed.

Lemma total_vector_sum m zt z two : total (zvector_sum m zt z two) = wsum (replicate m 1) zt z * total two.
Proof.
  revert zt. induction m as [|m IH]; intros zt; [done|].
  cbn [zvector_sum replicate wsum]. rewrite total_app, total_scale, IH. ring.
Qed.

Lemma dot_ones l : dot (zpowers_from 1 1 (length l)) l = total l.
Proof.
  unfold dot, total. induction l as [|x l IH]; [done|].
  cbn [length zpowers_from zip_with foldr fst snd]. rewrite Z.mul_1_r, IH. ring.
Qed.

Lemma wsum_shift vs zt z : z * wsum vs zt z = wsum vs (zt * z) z.
Proof. revert zt. induction vs as [|v vs IH]; intros zt; cbn [wsum]; [ring|]. rewrite <- (IH (zt * z)). ring. Qed.

Lemma wsum_zeros vs n zt z : wsum (vs ++ replicate n 0) zt z = wsum vs zt z.
Proof.
  revert zt. induction vs as [|v vs IH]; intros zt; cbn [app wsum]; [|by rewrite IH].
  revert zt. induction n as [|n IH]; intros zt; cbn [replicate wsum]; [done|]. rewrite IH. ring.
Qed.

(** [l0], [r0], [r1] and the vectors at [x]. *)
Definition zl0 (z : Z) (aL : list Z) : list Z := map (fun a => a + (0 - z)) aL.
Definition zr0 (z : Z) (aR yv vs : list Z) : list Z :=
  zip_with Z.add (zip_with Z.mul yv (map (fun a => a + z) aR)) vs.
Definition zlx (x z : Z) (aL sL : list Z) : list Z := zip_with Z.add (zl0 z aL) (map (Z.mul x) sL).
Definition zrx (x z : Z) (aR sR yv vs : list Z) : list Z :=
  zip_with Z.add (zip_with Z.mul yv (zip_with Z.add (map (fun a => a + z) aR) (map (Z.mul x) sR))) vs.

Lemma zrx_split x z aR sR yv vs : length aR = length yv -> length sR = length yv -> length vs = length yv ->
  zrx x z aR sR yv vs = zip_with Z.add (zr0 z aR yv vs) (map (Z.mul x) (zip_with Z.mul yv sR)).
Proof.
  unfold zrx, zr0. revert aR sR vs.
  induction yv as [|y yv IH]; intros [|a aR] [|s sR] [|v vs] L1 L2 L3; try discriminate; [done|].
  cbn [map zip_with]. injection L1 as L1. injection L2 as L2. injection L3 as L3.
  rewrite IH by done. f_equal. ring.
Qed.

Lemma zrx_parts x z aR sR yv vs : length aR = length yv -> length sR = length yv -> length vs = length yv ->
  zrx x z aR sR yv vs =
  zip_with Z.add (zip_with Z.add (zip_with Z.mul aR yv) (map (Z.mul x) (zip_with Z.mul sR yv)))
                 (zip_with Z.add (map (Z.mul z) yv) vs).
Proof.
  unfold zrx. revert aR sR vs.
  induction yv as [|y yv IH]; intros [|a aR] [|s sR] [|v vs] L1 L2 L3; try discriminate; [done|].
  cbn [map zip_with]. injection L1 as L1. injection L2 as L2. injection L3 as L3.
  rewrite IH by done. f_equal. ring.
Qed.

(** The constant term of [<l(X), r(X)>]: [(z - z²) Σ yⁱ + <aL, vs> - z Σ vs]. *)
Lemma t0_value z aL yv vs : Forall (fun b => b * b = b) aL -> length aL = length yv -> length vs = length yv ->
  dot (zl0 z aL) (zr0 z (map (fun b => b - 1) aL) yv vs) =
  (z - z * z) * total yv + dot aL vs - z * total vs.
Proof.
  unfold dot, zl0, zr0, total. intros Hb. revert yv vs.
  induction Hb as [|b aL Hb HaL IH]; intros [|y yv] [|v vs] L1 L2; try discriminate; [cbn; ring|].
  injection L1 as L1. injection L2 as L2. cbn [map zip_with foldr fst snd]. rewrite IH by done.
  replace ((b + (0 - z)) * (y * (b - 1 + z) + v))
    with (y * (b * b - b) + (z - z * z) * y + b * v - z * v) by ring.
  rewrite Hb. ring.
Qed.

(** [<l(x), r(x)> = t0 + t1 x + t2 x²]. *)
Lemma that_value x z aL aR sL sR yv vs : length aL = length yv -> length aR = length yv ->
  length sL = length yv -> length sR = length yv -> length vs = length yv ->
  dot (zlx x z aL sL) (zrx x z aR sR yv vs) =
  dot (zl0 z aL) (zr0 z aR yv vs) +
  (dot sL (zr0 z aR yv vs) + dot (zl0 z aL) (zip_with Z.mul yv sR)) * x +
  dot sL (zip_with Z.mul yv sR) * (x * x).
Proof.
  intros L1 L2 L3 L4 L5. rewrite zrx_split by done. unfold zlx.
  assert (length (zl0 z aL) = length yv) as E1 by (unfold zl0; by rewrite length_map).
  assert (length (zr0 z aR yv vs) = length yv) as E2.
  { unfold zr0. rewrite !length_zip_with, length_map. lia. }
  assert (length (zip_with Z.mul yv sR) = length yv) as E3 by (rewrite length_zip_with; lia).
  rewrite !dot_add_l by (rewrite length_map; lia).
  rewrite !dot_add_r by (rewrite length_map; lia).
  rewrite !dot_scale_l, !dot_scale_r. ring.
Qed.

Lemma length_concat_bits n vs : length (concat (map (bits n) vs)) = (length vs * n)%nat.
Proof. induction vs as [|v vs IH]; [done|]. cbn [map concat length]. rewrite length_app, length_bits, IH. lia. Qed.

(** At most 32 values are padded to a power of two that is at most 32. *)
Lemma roundUpPowTwo_ok n : (n <= MaxOutputCoin)%nat ->
  exists j, Z.to_nat (roundUpPowTwo (Z.of_nat n)) = (2 ^ j)%nat /\ (n <= 2 ^ j <= MaxOutputCoin)%nat.
Proof.
  unfold MaxOutputCoin. intros Hn.
  exists (Nat.log2_up n). do 33 (destruct n as [|n]; [split; [reflexivity|vm_compute; lia]|]). lia.
Qed.

(** ** Range proofs: the code over the integers *)

Section range.
Context `{CL : CurveLaws} `{DL : DigestLaws}.

Lemma binary_loop_sc n : forall v, 0 <= v -> binary_loop n v = Ok (map sc (bits n v)).
Proof using Type.
  induction n as [|n IH]; intros v Hv; [reflexivity|].
  pose proof (Z.mod_pos_bound v 2 ltac:(lia)).
  cbn [binary_loop]. rewrite FromUint64_sc by (unfold is_u64; lia). cbn [res_bind].
  rewrite IH by (apply Z.div_pos; lia). by rewrite bits_S.
Qed.

Lemma bits_zero n : bits n 0 = replicate n 0.
Proof using Type. induction n as [|n IH]; [done|]. rewrite bits_S. cbn [replicate]. f_equal. exact IH. Qed.

Lemma ConvertUint64ToBinary_sc v n : is_u64 v -> ConvertUint64ToBinary v n = Ok (map sc (bits n v)).
Proof using Type.
  intros Hv. unfold ConvertUint64ToBinary. destruct (Z.eqb_spec v 0) as [->|].
  - rewrite FromUint64_sc by by apply is_u64_small. cbn [res_bind]. rewrite bits_zero.
    f_equal. induction n as [|n IH]; [done|]. cbn [replicate map]. by rewrite IH.
  - apply binary_loop_sc. apply Hv.
Qed.

Lemma bit_vectors_sc vs : Forall is_u64 vs ->
  bit_vectors vs = Ok (map sc (concat (map (bits MaxExp) vs))).
Proof using Type.
  induction 1 as [|v vs Hv Hvs IH]; [reflexivity|]. cbn [bit_vectors map concat].
  rewrite ConvertUint64ToBinary_sc by done. cbn [res_bind]. rewrite IH. cbn [res_bind].
  by rewrite map_app.
Qed.

Lemma scalars_of_sc vs : Forall is_u64 vs -> scalars_of vs = Ok (map sc vs).
Proof using Type.
  induction 1 as [|v vs Hv Hvs IH]; [reflexivity|]. cbn [scalars_of map].
  rewrite FromUint64_sc by done. cbn [res_bind]. by rewrite IH.
Qed.

Lemma vector_sum_sc m zt z two :
  vector_sum m (sc zt) (sc z) (map sc two) = map sc (zvector_sum m zt z two).
Proof using CL.
  revert zt. induction m as [|m IH]; intros zt; [reflexivity|].
  cbn [vector_sum zvector_sum]. rewrite map_app. unfold Scalar_Mul. rewrite ScMul_sc, IH. f_equal.
  rewrite !map_map. apply map_ext. intros t. rewrite ScMul_sc. f_equal. ring.
Qed.

Lemma blind_sum_sc rs zt z t : blind_sum (map sc rs) (sc zt) (sc z) (sc t) = sc (t + wsum rs zt z).
Proof using CL.
  revert zt t. induction rs as [|r rs IH]; intros zt t; cbn [map blind_sum wsum].
  - by rewrite Z.add_0_r.
  - unfold Scalar_Mul, Scalar_Add. rewrite !ScMul_sc, ScAdd_sc, IH. f_equal. ring.
Qed.

Lemma delta_sum_sc n zt z s : delta_sum n (sc zt) (sc z) (sc s) = sc (s + wsum (replicate n 1) zt z).
Proof using CL.
  revert zt s. induction n as [|n IH]; intros zt s; cbn [replicate delta_sum wsum].
  - by rewrite Z.add_0_r.
  - unfold Scalar_Mul, Scalar_Add. rewrite !ScMul_sc, ScAdd_sc, IH. f_equal. ring.
Qed.

Lemma computeDeltaYZ_sc z zz yv : (0 < length yv)%nat ->
  computeDeltaYZ (sc z) (sc zz) (map sc yv) (length yv) =
  Ok (sc ((z - zz) * total yv -
          wsum (replicate (length yv / MaxExp) 1) zz z * total (zpowers_from 1 2 MaxExp))).
Proof using CL.
  intros Hn. unfold computeDeltaYZ.
  rewrite (FromUint64_sc 1), (FromUint64_sc 2), (FromUint64_sc 0) by by apply is_u64_small.
  cbn [res_bind]. rewrite !powerVector_sc by (done || (unfold MaxExp; lia)). cbn [res_bind].
  rewrite !innerProduct_sc by (by rewrite !length_zpowers). cbn [res_bind].
  unfold Scalar_Sub, Scalar_Mul. rewrite ScSub_sc, delta_sum_sc, !ScMul_sc, ScSub_sc, !zpowers_eq.
  rewrite dot_ones. replace MaxExp with (length (zpowers_from 1 2 MaxExp)) at 2
    by (by rewrite length_zpowers_from).
  rewrite dot_ones. do 2 f_equal.
Qed.

(** [H'_i = y^(-i) H_i]. *)
Fixpoint hpoints (H : list (list Z)) (e yi : Z) : list (list Z) :=
  match H with [] => [] | h :: H => pmul h e :: hpoints H (e * yi) yi end.

Lemma length_hpoints Hs e yi : length (hpoints Hs e yi) = length Hs.
Proof using Type. revert e. induction Hs as [|h Hs IH]; intros e; [done|]. cbn. by rewrite IH. Qed.

Lemma hpoints_ok Hs e yi : Forall pt_ok Hs -> Forall pt_ok (hpoints Hs e yi).
Proof using CL.
  intros HH. revert e. induction HH as [|h Hs Hh HH IH]; intros e; constructor; [by apply pmul_pt|apply IH].
Qed.

Lemma hprime_loop_sc n : forall i Hs e yi, (i + n <= length Hs)%nat ->
  hprime_loop n i Hs (sc e) (sc yi) = Ok (hpoints (take n (drop i Hs)) e yi).
Proof using CL.
  induction n as [|n IH]; intros i Hs e yi Hl; [reflexivity|].
  cbn [hprime_loop]. destruct (index_safe Hs i) as (h & -> & E); [lia|]. cbn [res_bind].
  unfold Scalar_Mul. rewrite ScMul_sc, IH by lia. cbn [res_bind].
  rewrite (drop_S Hs h i E). reflexivity.
Qed.

Lemma computeHPrime_sc y Hs : exists yi,
  computeHPrime (sc y) (length Hs) Hs = Ok (hpoints Hs 1 yi) /\
  (Z.gcd (key_val (sc y)) order = 1 -> yi * y ≡ₒ 1).
Proof using CL.
  destruct (Invert_sc y) as (yi & E & Hi). exists yi. split; [|exact Hi].
  unfold computeHPrime. rewrite E, (FromUint64_sc 1) by by apply is_u64_small. cbn [res_bind].
  rewrite hprime_loop_sc by lia. by rewrite drop_0, firstn_all.
Qed.

(** Moving the powers of [y] from the generators to the scalars. *)
Lemma lin_hpoints a Hs e yi f y : e * f ≡ₒ 1 -> yi * y ≡ₒ 1 -> length a = length Hs -> Forall pt_ok Hs ->
  lin (zip_with Z.mul a (zpowers_from f y (length a))) (hpoints Hs e yi) = lin a Hs.
Proof using CL.
  intros Ef Ey Hl HH. revert e f a Ef Hl.
  induction HH as [|h Hs Hh HH IH]; intros e f [|x a] Ef Hl; try discriminate Hl; [reflexivity|].
  injection Hl as Hl. cbn [length zpowers_from zip_with hpoints].
  unfold lin in *. cbn [zip_with foldr fst snd]. rewrite IH; [|..|exact Hl].
  - rewrite pmul_mul by done. f_equal. apply pmul_proper.
    transitivity (x * (e * f)); [eqm_ring|]. rewrite Ef. eqm_ring.
  - transitivity ((e * f) * (yi * y)); [eqm_ring|]. rewrite Ef, Ey. eqm_ring.
Qed.

Lemma commitment_sum_sc g h vs rs zt z acc : pt_ok g -> pt_ok h -> pt_ok acc -> length vs = length rs ->
  commitment_sum (zip_with (fun v r => AddKeys (pmul g v) (pmul h r)) vs rs) (sc zt) (sc z) acc =
  AddKeys acc (AddKeys (pmul g (wsum vs zt z)) (pmul h (wsum rs zt z))).
Proof using CL.
  intros Hg Hh. revert rs zt acc. induction vs as [|v vs IH]; intros [|r rs] zt acc Ha Hl; try discriminate Hl.
  - cbn [zip_with commitment_sum wsum]. module.
  - injection Hl as Hl. cbn [zip_with commitment_sum wsum]. unfold Scalar_Mul, Point_Add, Point_ScalarMult.
    rewrite ScMul_sc. fold (pmul (AddKeys (pmul g v) (pmul h r)) (zt * z)).
    rewrite IH by (try assumption; auto using pt_add, pmul_pt). module.
Qed.

Lemma commit_sc g h vs rs : pt_ok g -> pt_ok h ->
  zip_with (fun v r => Point_AddPedersen v g r h) (map sc vs) (map sc rs) =
  zip_with (fun v r => AddKeys (pmul g v) (pmul h r)) vs rs.
Proof using CL.
  intros Hg Hh. rewrite zip_with_maps. revert rs.
  induction vs as [|v vs IH]; intros [|r rs]; try reflexivity. cbn [zip_with].
  rewrite IH. f_equal. by apply add_pedersen_sc.
Qed.

Lemma commitments_pt g h vs rs : pt_ok g -> pt_ok h ->
  Forall pt_ok (zip_with (fun v r => AddKeys (pmul g v) (pmul h r)) vs rs).
Proof using CL.
  intros Hg Hh. revert rs. induction vs as [|v vs IH]; intros [|r rs]; cbn [zip_with]; constructor.
  - apply pt_add; by apply pmul_pt.
  - apply IH.
Qed.

Definition yv_of (y : Z) (N : nat) : list Z := zpowers_from 1 y N.
Definition vs_of (z : Z) (m : nat) : list Z := zvector_sum m z z (zpowers_from 1 2 MaxExp).

Lemma length_vs_of z m : length (vs_of z m) = (MaxExp * m)%nat.
Proof using Type. unfold vs_of. rewrite length_zvector_sum, length_zpowers_from. lia. Qed.

Lemma range_polynomials_sc y z N m aL aR sR : (0 < N)%nat -> N = (MaxExp * m)%nat ->
  length aL = N -> length aR = N -> length sR = N ->
  range_polynomials (sc y) (sc z) N m (map sc aL) (map sc aR) (map sc sR) =
  Ok (map sc (zl0 z aL), map sc (zr0 z aR (yv_of y N) (vs_of z m)),
      map sc (zip_with Z.mul (yv_of y N) sR), sc (0 - z), map sc (yv_of y N), map sc (vs_of z m)).
Proof using CL.
  intros HN EN LL LR LS. unfold range_polynomials.
  rewrite (FromUint64_sc 2), (FromUint64_sc 0) by by apply is_u64_small. cbn [res_bind].
  rewrite !powerVector_sc by (done || (unfold MaxExp; lia)). cbn [res_bind].
  rewrite vectorAddScalar_sc, hadamardProduct_sc by (rewrite length_zpowers, length_map; lia).
  cbn [res_bind]. rewrite vector_sum_sc, !zpowers_eq. fold (yv_of y N) (vs_of z m).
  unfold Scalar_Sub. rewrite ScSub_sc, vectorAddScalar_sc.
  rewrite vectorAdd_sc
    by (rewrite length_zip_with, length_map, length_vs_of; unfold yv_of; rewrite length_zpowers_from; lia).
  cbn [res_bind]. rewrite hadamardProduct_sc by (unfold yv_of; rewrite length_zpowers_from; lia).
  reflexivity.
Qed.

Lemma range_evaluate_sc x z aL aR sL sR yv vs : length aL = length yv -> length aR = length yv ->
  length sL = length yv -> length sR = length yv -> length vs = length yv ->
  range_evaluate (sc x) (sc z) (sc (0 - z)) (map sc aL) (map sc aR) (map sc sL) (map sc sR)
    (map sc yv) (map sc vs) =
  Ok (map sc (zlx x z aL sL), map sc (zrx x z aR sR yv vs)).
Proof using CL.
  intros L1 L2 L3 L4 L5. unfold range_evaluate. rewrite !vectorAddScalar_sc, !vectorMulScalar_sc.
  rewrite vectorAdd_sc by (rewrite !length_map; lia). cbn [res_bind].
  rewrite vectorAdd_sc by (rewrite !length_map; lia). cbn [res_bind].
  rewrite hadamardProduct_sc by (rewrite length_zip_with, !length_map; lia). cbn [res_bind].
  rewrite vectorAdd_sc by (rewrite !length_zip_with, !length_map; lia). reflexivity.
Qed.
End range.

Section complete.
Context `{CL : CurveLaws} `{DL : DigestLaws}.

Definition params_ok (ag : bulletproofParams) : Prop :=
  Forall pt_ok (bp_g ag) /\ Forall pt_ok (bp_h ag) /\ pt_ok (bp_u ag) /\ pt_ok (bp_cs ag).

Lemma polynomial_check_ok ag g h y z x d vs rs t1 t2 tau1 tau2 that :
  pt_ok g -> pt_ok h -> (0 < length (bp_g ag))%nat -> length vs = length rs ->
  pd_cms d = zip_with (fun v r => AddKeys (pmul g v) (pmul h r)) vs rs ->
  pd_t1 d = AddKeys (pmul g t1) (pmul h tau1) -> pd_t2 d = AddKeys (pmul g t2) (pmul h tau2) ->
  pd_tHat d = sc that -> pd_tauX d = sc (tau2 * (x * x) + tau1 * x + wsum rs z z) ->
  that = (z - z * z) * total (yv_of y (length (bp_g ag))) -
         wsum (replicate (length (bp_g ag) / MaxExp) 1) (z * z) z * total (zpowers_from 1 2 MaxExp) +
         wsum vs z z + t1 * x + t2 * (x * x) ->
  polynomial_check ag g h (sc y) (sc z) (sc x) d = Ok true.
Proof using CL.
  intros Hg Hh HN Hl Ec E1 E2 Et Ex Ethat. unfold polynomial_check. rewrite Ec, E1, E2, Et, Ex.
  rewrite powerVector_sc, zpowers_eq by done. cbn [res_bind]. fold (yv_of y (length (bp_g ag))).
  unfold Scalar_Mul. rewrite !ScMul_sc.
  assert (length (yv_of y (length (bp_g ag))) = length (bp_g ag)) as Ly by apply length_zpowers_from.
  set (yv := yv_of y (length (bp_g ag))) in *. rewrite <- Ly in HN |- *.
  rewrite computeDeltaYZ_sc by done. cbn [res_bind]. rewrite Ly. set (delta := _ - _) in |- *.
  unfold Point_ScalarMult. fold (pmul g delta).
  rewrite commitment_sum_sc by (try assumption; by apply pmul_pt).
  rewrite !add_pedersen_sc by (auto using pt_add, pmul_pt). unfold Point_Add, IsPointEqual.
  f_equal. apply bool_decide_true. rewrite Ethat. unfold delta. module.
Qed.

Lemma lin_replicate c n G : Forall pt_ok G -> lin (replicate n c) G = pmul (lin (replicate n 1) G) c.
Proof using CL.
  intros HG. rewrite <- lin_scale by done. f_equal.
  induction n as [|n IH]; [done|]. cbn [replicate map]. by rewrite <- IH, Z.mul_1_r.
Qed.

Lemma map_plus_const c l : map (fun a => a + c) l = zip_with Z.add l (replicate (length l) c).
Proof using Type. induction l as [|x l IH]; [done|]. cbn. by rewrite IH. Qed.

Lemma map_replicate_sc n c : replicate n (sc c) = map sc (replicate n c).
Proof using Type. induction n as [|n IH]; [done|]. cbn [replicate map]. by rewrite IH. Qed.

(** [<l(x), G> + <r(x), H'>] from the commitments [A] and [S]. *)
Lemma vectors_combine x z aL aR sL sR y yi m G Hs : yi * y ≡ₒ 1 ->
  let N := (MaxExp * m)%nat in
  length aL = N -> length aR = N -> length sL = N -> length sR = N -> length G = N -> length Hs = N ->
  Forall pt_ok G -> Forall pt_ok Hs ->
  let HP := hpoints Hs 1 yi in
  AddKeys (lin (zlx x z aL sL) G) (lin (zrx x z aR sR (yv_of y N) (vs_of z m)) HP) =
  AddKeys (AddKeys (AddKeys (lin aL G) (lin aR Hs)) (pmul (AddKeys (lin sL G) (lin sR Hs)) x))
          (AddKeys (lin (replicate N (0 - z)) G)
                   (lin (zip_with Z.add (map (Z.mul z) (yv_of y N)) (vs_of z m)) HP)).
Proof using CL.
  intros Ey N L1 L2 L3 L4 LG LH HG HH HP.
  assert (length (yv_of y N) = N) as Ly by apply length_zpowers_from.
  pose proof (length_vs_of z m) as Lv. fold N in Lv. clearbody N.
  assert (Forall pt_ok HP) as HHP by (by apply hpoints_ok).
  assert (forall a, length a = N -> lin (zip_with Z.mul a (yv_of y N)) HP = lin a Hs) as Hy.
  { intros a La. unfold yv_of. rewrite <- La. apply lin_hpoints; [reflexivity|done|lia|done]. }
  rewrite zrx_parts by lia. unfold zlx, zl0. rewrite map_plus_const, L1.
  rewrite !(lin_add _ _ G), lin_scale by (rewrite ?length_zip_with, ?length_replicate, ?length_map; auto; lia).
  rewrite !(lin_add _ _ HP), !lin_scale by (rewrite ?length_zip_with, ?length_map, ?length_zip_with; auto; lia).
  rewrite !Hy by done.
  rewrite (lin_replicate (0 - z)) by done. module.
Qed.

Lemma vector_check_ok ag h y z x d aL aR sL sR alpha rho that m hx k u' :
  pt_ok h -> pt_ok u' -> Forall pt_ok (bp_g ag) -> Forall pt_ok (bp_h ag) ->
  let N := (MaxExp * m)%nat in N = (2 ^ k)%nat ->
  length aL = N -> length aR = N -> length sL = N -> length sR = N ->
  length (bp_g ag) = N -> length (bp_h ag) = N ->
  HashToScalar (sc x) = Some hx -> u' = ScalarMultKey (bp_u ag) hx ->
  Z.gcd (key_val (sc y)) order = 1 ->
  pd_a d = AddKeys (AddKeys (lin aL (bp_g ag)) (lin aR (bp_h ag))) (pmul h alpha) ->
  pd_s d = AddKeys (AddKeys (lin sL (bp_g ag)) (lin sR (bp_h ag))) (pmul h rho) ->
  pd_mu d = sc (alpha + rho * x) -> pd_tHat d = sc that ->
  forall yi, computeHPrime (sc y) N (bp_h ag) = Ok (hpoints (bp_h ag) 1 yi) -> yi * y ≡ₒ 1 ->
  let HP := hpoints (bp_h ag) 1 yi in
  let lx := zlx x z aL sL in let rx := zrx x z aR sR (yv_of y N) (vs_of z m) in
  pd_p d = AddKeys (AddKeys (lin lx (bp_g ag)) (lin rx HP)) (pmul u' that) ->
  ip_check (pd_l d) (pd_r d) (pd_ipa d) (pd_ipb d) (pd_p d) (bp_g ag) HP u' (sc x) = Ok true ->
  vector_check ag h (sc y) (sc z) (sc x) d = Ok true.
Proof using CL.
  intros Hh Hu HG HH N EN L1 L2 L3 L4 LG LH Ehx Eu Hgcd Ea Es Emu Et yi EHP Ey HP lx rx Ep Eip.
  assert (0 < N)%nat as HN by (rewrite EN; apply Nat.neq_0_lt_0, Nat.pow_nonzero; lia).
  assert (Forall pt_ok HP) as HHP by (by apply hpoints_ok).
  unfold vector_check. rewrite LG, Ehx, (FromUint64_sc 0), (FromUint64_sc 2) by by apply is_u64_small.
  cbn [res_bind]. rewrite !powerVector_sc, !zpowers_eq by (assumption || (unfold MaxExp; lia)).
  cbn [res_bind]. rewrite EHP. cbn [res_bind deref].
  replace (Point_ScalarMult (bp_u ag) hx) with u'. fold HP. rewrite Eip. cbn [res_bind]. rewrite andb_true_r. f_equal. apply bool_decide_true.
  rewrite Ea, Es, Emu, Et, Ep, vectorMulScalar_sc, vector_sum_sc. unfold Scalar_Sub, Scalar_Add.
  rewrite !ScSub_sc. rewrite zip_with_maps.
  replace (N / MaxExp)%nat with m by (unfold N; by rewrite Nat.mul_comm, Nat.div_mul).
  fold (vs_of z m) (yv_of y N). rewrite map_replicate_sc, lin_multi by (rewrite ?length_replicate; auto).
  replace (zip_with (fun a b => ScAdd (sc a) (sc b)) (map (Z.mul z) (yv_of y N)) (vs_of z m))
    with (map sc (zip_with Z.add (map (Z.mul z) (yv_of y N)) (vs_of z m)))
    by (rewrite map_zip_with; apply zip_with_ext; [|done..]; intros; by rewrite ScAdd_sc).
  assert (length (yv_of y N) = N) as Ly by apply length_zpowers_from.
  pose proof (length_vs_of z m) as Lv. fold N in Lv.
  rewrite lin_multi by (try assumption; unfold HP; rewrite length_hpoints, length_zip_with, length_map; lia).
  rewrite add_pedersen_sc by assumption. unfold lx, rx, HP, N. rewrite vectors_combine by assumption.
  fold N. fold HP. unfold Point_Add, Point_ScalarMult.
  set (lG := lin (replicate N (0 - z)) (bp_g ag)). set (lHP := lin (zip_with _ _ _) HP).
  assert (pt_ok lG) by (by apply lin_pt). assert (pt_ok lHP) by (by apply lin_pt).
  match goal with |- context [ScalarMultKey ?p (sc x)] => change (ScalarMultKey p (sc x)) with (pmul p x) end.
  module.
Qed.
End complete.

Section aggregate.
Context `{CL : CurveLaws} `{DL : DigestLaws}.

Lemma log2_lt_pow k : (k < S (2 ^ k))%nat.
Proof using Type. pose proof (Nat.pow_gt_lin_r 2 k). lia. Qed.

Lemma InnerProductWitness_Prove_ok k a b p G Hh u hc :
  length a = (2 ^ k)%nat -> length b = (2 ^ k)%nat -> length G = (2 ^ k)%nat -> length Hh = (2 ^ k)%nat ->
  Forall pt_ok G -> Forall pt_ok Hh -> pt_ok u -> bytes_ok hc ->
  exists l r za zb,
    InnerProductWitness_Prove (mkInnerProductWitness (map sc a) (map sc b) p) G Hh u hc =
      Ok (mkInnerProductProof (map Some l) (map Some r) (Some (sc za)) (Some (sc zb)) (Some p)) /\
    length l = k /\ length r = k /\ Forall pt_ok l /\ Forall pt_ok r /\
    (ip_invertible l r hc -> ip_check l r (sc za) (sc zb) (cross u a b G Hh) G Hh u hc = Ok true).
Proof using CL DL.
  intros La Lb LG LH HG HH Hu Hc.
  destruct (ip_rounds k (S (2 ^ k)) a b p G Hh u hc [] [] (log2_lt_pow k) La Lb LG LH HG HH Hu Hc)
    as (l & r & za & zb & E & Rest).
  exists l, r, za, zb. split; [|exact Rest]. unfold InnerProductWitness_Prove. cbn [iw_a iw_b iw_p].
  rewrite !length_map, La, Lb, LG, LH. rewrite Nat.eqb_refl, Nat.ltb_irrefl. cbn [negb orb].
  rewrite (take_ge G), (take_ge Hh), E by lia. reflexivity.
Qed.

(** The scalars of a stream as integers. *)
Lemma stream_sc (rnd : nat -> list Z) l : (forall k, sc_ok (rnd k)) ->
  map rnd l = map sc (map (fun k => key_val (rnd k)) l).
Proof using Type. intros Hr. rewrite map_map. apply map_ext. intros k. by apply sc_repr. Qed.

Definition data_ok (d : proof_data) : Prop :=
  Forall pt_ok (pd_cms d) /\ pt_ok (pd_a d) /\ pt_ok (pd_s d) /\ pt_ok (pd_t1 d) /\ pt_ok (pd_t2 d) /\
  sc_ok (pd_tauX d) /\ sc_ok (pd_tHat d) /\ sc_ok (pd_mu d) /\
  Forall pt_ok (pd_l d) /\ Forall pt_ok (pd_r d) /\ length (pd_l d) = length (pd_r d) /\
  sc_ok (pd_ipa d) /\ sc_ok (pd_ipb d) /\ pt_ok (pd_p d).

Definition witness_ok (wit : Witness) : Prop :=
  Forall is_u64 (wt_values wit) /\ Forall sc_ok (wt_rands wit) /\
  length (wt_values wit) = length (wt_rands wit) /\ (length (wt_values wit) <= MaxOutputCoin)%nat.

Lemma setAggregateParams_ok aggParam N : params_ok aggParam ->
  (N <= length (bp_g aggParam))%nat -> (N <= length (bp_h aggParam))%nat ->
  exists ag, setAggregateParams aggParam N = Ok ag /\ params_ok ag /\
    length (bp_g ag) = N /\ length (bp_h ag) = N.
Proof using Type.
  intros (Hg & Hh & Hu & Hc) Lg Lh. unfold setAggregateParams.
  rewrite !slice_ok by lia. cbn [res_bind]. rewrite !drop_0, Nat.sub_0_r.
  eexists. split; [reflexivity|]. cbn [bp_g bp_h bp_u bp_cs]. rewrite !length_take.
  split; [|lia]. split; [by apply Forall_take|]. split; [by apply Forall_take|]. done.
Qed.

(** The integers of a run, and the proof they make. *)
Section run.
Context (g h : list Z) (ag : bulletproofParams) (vs rs : list Z) (m k : nat).
Context (sL sR : list Z) (alpha rho tau1 tau2 : Z).
Context (Hg : pt_ok g) (Hh : pt_ok h) (Hag : params_ok ag).
Let N := (MaxExp * m)%nat.
Context (EN : N = (2 ^ k)%nat) (LG : length (bp_g ag) = N) (LH : length (bp_h ag) = N).
Context (Hv : Forall is_u64 vs) (Lvr : length vs = length rs) (Lvm : (length vs <= m)%nat).
Context (LsL : length sL = N) (LsR : length sR = N).

Definition run_values : list Z := vs ++ replicate (m - length vs) 0.
Definition run_aL : list Z := concat (map (bits MaxExp) run_values).
Definition run_aR : list Z := map (fun b => b - 1) run_aL.
Definition run_cms : list (list Z) := zip_with (fun v r => AddKeys (pmul g v) (pmul h r)) vs rs.
Definition run_A : list Z := AddKeys (AddKeys (lin run_aL (bp_g ag)) (lin run_aR (bp_h ag))) (pmul h alpha).
Definition run_S : list Z := AddKeys (AddKeys (lin sL (bp_g ag)) (lin sR (bp_h ag))) (pmul h rho).

Lemma run_lengths : length run_values = m /\ length run_aL = N /\ length run_aR = N.
Proof using All.
  assert (length run_values = m) as E by (unfold run_values; rewrite length_app, length_replicate; lia).
  unfold run_aR, run_aL. rewrite length_map, length_concat_bits, E. unfold N. lia.
Qed.

Lemma run_values_ok : Forall is_u64 run_values.
Proof using All. apply Forall_app. split; [done|]. apply Forall_replicate. by apply is_u64_small. Qed.

Lemma run_t0 y z : dot (zl0 z run_aL) (zr0 z run_aR (yv_of y N) (vs_of z m)) =
  (z - z * z) * total (yv_of y N) + wsum vs z z -
  wsum (replicate m 1) (z * z) z * total (zpowers_from 1 2 MaxExp).
Proof using All.
  destruct run_lengths as (E1 & E2 & E3).
  unfold run_aR. rewrite t0_value.
  - assert (dot run_aL (vs_of z m) = wsum vs z z) as ->.
    { unfold run_aL, vs_of. rewrite <- E1. rewrite dot_vector_sum.
      - apply wsum_zeros.
      - eapply Forall_impl; [exact run_values_ok|]. intros v Hvv. exact Hvv. }
    unfold vs_of. rewrite total_vector_sum, <- wsum_shift. ring.
  - unfold run_aL. apply Forall_concat, Forall_map, Forall_true. intros. apply bits_binary.
  - unfold yv_of. by rewrite length_zpowers_from.
  - rewrite length_vs_of. unfold yv_of. by rewrite length_zpowers_from.
Qed.

Lemma run_points : Forall pt_ok run_cms /\ pt_ok run_A /\ pt_ok run_S.
Proof using All.
  destruct Hag as (HG & HH & _). split; [by apply commitments_pt|].
  split; apply pt_add; auto using pt_add, lin_pt, pmul_pt.
Qed.

Lemma HashToScalar_sc x : exists hx, HashToScalar (sc x) = Some (sc hx).
Proof using CL DL.
  destruct (HashToScalar_ok (sc x) (sc_bytes x)) as (s & E & _ & Hs).
  exists (key_val s). by rewrite <- sc_repr.
Qed.

(** The commitments and the bits of the padded values. *)
Lemma run_setup :
  zip_with (fun v r => Point_AddPedersen v g r h) (map sc vs)
    (take (length vs) (map sc rs) ++ replicate (m - length vs) (sc 0)) = run_cms /\
  bit_vectors (vs ++ replicate (m - length vs) 0) = Ok (map sc run_aL) /\
  map (fun b => Scalar_Sub b (sc 1)) (map sc run_aL) = map sc run_aR /\
  take (length vs) (map sc rs) ++ replicate (m - length vs) (sc 0) =
    map sc (rs ++ replicate (m - length vs) 0).
Proof using All.
  rewrite take_ge by (rewrite length_map; lia).
  assert (map sc rs ++ replicate (m - length vs) (sc 0) = map sc (rs ++ replicate (m - length vs) 0)) as E
    by (by rewrite map_app, map_replicate_sc).
  split; [|split; [|split; [|exact E]]].
  - rewrite <- (app_nil_r (map sc vs)), zip_with_app by (by rewrite !length_map).
    cbn [zip_with]. rewrite app_nil_r. by apply commit_sc.
  - apply bit_vectors_sc, run_values_ok.
  - unfold run_aR. rewrite !map_map. apply map_ext. intros b. apply ScSub_sc.
Qed.

Definition run_t1 (y z : Z) : Z :=
  dot sL (zr0 z run_aR (yv_of y N) (vs_of z m)) + dot (zl0 z run_aL) (zip_with Z.mul (yv_of y N) sR).
Definition run_t2 (y : Z) : Z := dot sL (zip_with Z.mul (yv_of y N) sR).
Definition run_lx (x z : Z) : list Z := zlx x z run_aL sL.
Definition run_rx (x y z : Z) : list Z := zrx x z run_aR sR (yv_of y N) (vs_of z m).
Definition run_tauX (x z : Z) : Z := tau2 * (x * x) + tau1 * x + wsum rs z z.

Lemma run_vector_lengths x y z : length (yv_of y N) = N /\ length (vs_of z m) = N /\
  length (zr0 z run_aR (yv_of y N) (vs_of z m)) = N /\ length (zl0 z run_aL) = N /\
  length (zip_with Z.mul (yv_of y N) sR) = N /\ length (run_lx x z) = N /\ length (run_rx x y z) = N.
Proof using All.
  destruct run_lengths as (_ & E2 & E3).
  assert (length (yv_of y N) = N) as Ly by apply length_zpowers_from.
  assert (length (vs_of z m) = N) as Lv by apply length_vs_of.
  unfold run_lx, run_rx, zlx, zrx, zr0, zl0.
  rewrite ?length_zip_with, ?length_map, ?length_zip_with, ?length_map. lia.
Qed.
(** The data of the run, for its challenges and its inner-product argument. *)
Definition run_data (x y z that : Z) (l r : list (list Z)) (ipa ipb p : list Z) : proof_data :=
  mkProofData run_cms run_A run_S
    (AddKeys (pmul g (run_t1 y z)) (pmul h tau1)) (AddKeys (pmul g (run_t2 y)) (pmul h tau2))
    (sc (run_tauX x z)) (sc that) (sc (alpha + rho * x)) l r ipa ipb p.

Lemma run_code (rnd : nat -> list Z) aggParam ver :
  m = Z.to_nat (roundUpPowTwo (Z.of_nat (length vs))) -> (length vs <= MaxOutputCoin)%nat ->
  (0 < N)%nat -> setAggregateParams aggParam N = Ok ag ->
  map (fun k => rnd (2 * k)%nat) (seq 0 N) = map sc sL ->
  map (fun k => rnd (2 * k + 1)%nat) (seq 0 N) = map sc sR ->
  rnd (2 * N)%nat = sc alpha -> rnd (2 * N + 1)%nat = sc rho ->
  rnd (2 * N + 2)%nat = sc tau1 -> rnd (2 * N + 3)%nat = sc tau2 ->
  exists y z x hx yi l r ipa ipb,
    let HP := hpoints (bp_h ag) 1 yi in
    let u' := pmul (bp_u ag) hx in
    let that := dot (run_lx x z) (run_rx x y z) in
    let p := cross u' (run_lx x z) (run_rx x y z) (bp_g ag) HP in
    let d := run_data x y z that l r ipa ipb p in
    prove_aggregate rnd aggParam ver g h g h (mkWitness vs (map sc rs)) = Ok (proof_of ver d) /\
    range_challenges (bp_cs ag) ver d = Ok (sc y, sc z, sc x) /\
    HashToScalar (sc x) = Some (sc hx) /\
    computeHPrime (sc y) N (bp_h ag) = Ok HP /\ (Z.gcd (key_val (sc y)) order = 1 -> yi * y ≡ₒ 1) /\
    length l = k /\ length r = k /\ Forall pt_ok l /\ Forall pt_ok r /\ sc_ok ipa /\ sc_ok ipb /\
    (ip_invertible l r (sc x) -> ip_check l r ipa ipb p (bp_g ag) HP u' (sc x) = Ok true).
Proof using All.
  intros Em Hmax HN Eag EsL EsR Ea Er E1 E2. destruct Hag as (HG & HH & Hu & Hcs).
  destruct run_points as (Pcms & PA & PS). destruct run_lengths as (Lval & LaL & LaR).
  destruct run_setup as (Ecms & Ebits & EaR & Erands).
  destruct (challenge_sc (bp_cs ag ++ (if 2 <=? ver then concat run_cms else [])) [run_A; run_S]) as [y Ey].
  { apply Forall_app. split; [exact (proj2 (proj1 (pt_key _ Hcs)))|]. destruct (2 <=? ver); [|constructor].
    apply Forall_concat. eapply Forall_impl; [exact Pcms|]. intros p Hp. exact (proj2 (proj1 (pt_key p Hp))). }
  { by repeat constructor. }
  destruct (challenge_sc (sc y) [run_A; run_S] (sc_bytes y)) as [z Ez]; [by repeat constructor|].
  destruct (run_vector_lengths 0 y z) as (Ly & Lv & Lr0 & Ll0 & Lr1 & _).
  set (pT1 := AddKeys (pmul g (run_t1 y z)) (pmul h tau1)).
  set (pT2 := AddKeys (pmul g (run_t2 y)) (pmul h tau2)).
  destruct (challenge_sc (sc z) [pT1; pT2] (sc_bytes z)) as [x Ex].
  { repeat constructor; apply pt_add; by apply pmul_pt. }
  destruct (HashToScalar_sc x) as [hx Ehx].
  destruct (computeHPrime_sc y (bp_h ag)) as (yi & EHP & Hyi). rewrite LH in EHP.
  destruct (run_vector_lengths x y z) as (_ & _ & _ & _ & _ & Llx & Lrx).
  set (HP := hpoints (bp_h ag) 1 yi) in *. set (u' := pmul (bp_u ag) hx).
  assert (Forall pt_ok HP) as HHP by (by apply hpoints_ok).
  assert (length HP = N) as LHP by (unfold HP; by rewrite length_hpoints).
  assert (pt_ok u') as Hu' by (by apply pmul_pt).
  destruct (InnerProductWitness_Prove_ok k (run_lx x z) (run_rx x y z)
    (cross u' (run_lx x z) (run_rx x y z) (bp_g ag) HP) (bp_g ag) HP u' (sc x))
    as (l & r & ipa & ipb & Eip & Ll & Lr & Pl & Pr & Hip); [lia..|assumption|assumption|assumption|apply sc_bytes|].
  exists y, z, x, hx, yi, l, r, (sc ipa), (sc ipb). cbn zeta. fold HP u'.
  split; [|split; [|split; [exact Ehx|split; [exact EHP|split; [exact Hyi|]]]]];
    [| |split; [exact Ll|]; split; [exact Lr|]; split; [exact Pl|]; split; [exact Pr|];
        split; [apply sc_ok_sc|]; split; [apply sc_ok_sc|exact Hip]].
  - unfold prove_aggregate. cbn [wt_values wt_rands]. rewrite <- Em. fold N.
    rewrite (proj2 (Nat.ltb_ge MaxOutputCoin (length vs)) Hmax), Eag. cbn [res_bind].
    rewrite length_map, <- Lvr, Nat.ltb_irrefl, (proj2 (Nat.ltb_ge m (length vs)) Lvm). cbn [orb].
    rewrite (FromUint64_sc 0), (FromUint64_sc 1) by by apply is_u64_small. cbn [res_bind].
    rewrite (scalars_of_sc vs Hv). cbn [res_bind]. rewrite Ecms, Ebits. cbn [res_bind].
    rewrite EaR, EsL, EsR, Ea, Er, E1, E2, Erands.
    rewrite (encodeVectors_sc run_aL run_aR), (encodeVectors_sc sL sR) by (assumption || lia).
    cbn [res_bind]. change (Point_Add _ (Point_ScalarMult h (sc alpha))) with run_A.
    change (Point_Add _ (Point_ScalarMult h (sc rho))) with run_S. rewrite Ey. cbn [deref res_bind].
    rewrite Ez. cbn [deref res_bind]. rewrite EHP. cbn [res_bind].
    rewrite range_polynomials_sc by (assumption || reflexivity). cbn [res_bind].
    rewrite !innerProduct_sc by lia. cbn [res_bind]. unfold Scalar_Add at 1 2. rewrite ScAdd_sc.
    rewrite !add_pedersen_sc by assumption.
    change (AddKeys (pmul g _) (pmul h tau1)) with pT1. change (AddKeys (pmul g _) (pmul h tau2)) with pT2.
    rewrite Ex. cbn [deref res_bind]. rewrite range_evaluate_sc by lia. cbn [res_bind].
    fold (run_lx x z) (run_rx x y z). rewrite innerProduct_sc by lia. cbn [res_bind].
    unfold Scalar_Mul, Scalar_Add. rewrite !ScMul_sc, !ScAdd_sc, blind_sum_sc, wsum_zeros.
    rewrite encodeVectors_sc by (assumption || lia). cbn [res_bind]. rewrite Ehx. cbn [deref res_bind].
    change (Point_ScalarMult (bp_u ag) (sc hx)) with u'.
    change (Point_Add _ (Point_ScalarMult u' _)) with (cross u' (run_lx x z) (run_rx x y z) (bp_g ag) HP).
    rewrite Eip. reflexivity.
  - unfold range_challenges, run_data. cbn [pd_cms pd_a pd_s pd_t1 pd_t2]. rewrite Ey. cbn [deref res_bind].
    rewrite Ez. cbn [deref res_bind]. fold pT1 pT2. rewrite Ex. reflexivity.
Qed.
(** The data of a run passes the checks of the verifier. *)
Lemma run_checked x y z hx yi l r ipa ipb ver :
  (0 < N)%nat ->
  let HP := hpoints (bp_h ag) 1 yi in
  let u' := pmul (bp_u ag) hx in
  let that := dot (run_lx x z) (run_rx x y z) in
  let p := cross u' (run_lx x z) (run_rx x y z) (bp_g ag) HP in
  let d := run_data x y z that l r ipa ipb p in
  range_challenges (bp_cs ag) ver d = Ok (sc y, sc z, sc x) -> HashToScalar (sc x) = Some (sc hx) ->
  computeHPrime (sc y) N (bp_h ag) = Ok HP -> (Z.gcd (key_val (sc y)) order = 1 -> yi * y ≡ₒ 1) ->
  (ip_invertible l r (sc x) -> ip_check l r ipa ipb p (bp_g ag) HP u' (sc x) = Ok true) ->
  range_invertible (bp_cs ag) ver d -> range_check ag g h ver d = Ok true.
Proof using All.
  intros HN HP u' that p d Ech Ehx EHP Hyi Hip (y0 & z0 & x0 & E0 & Hgcd & Hinv).
  rewrite Ech in E0. injection E0 as <- <- <-. destruct Hag as (HG & HH & Hu & _).
  destruct run_lengths as (_ & LaL & LaR).
  unfold range_check. rewrite Ech. cbn [res_bind].
  rewrite (polynomial_check_ok ag g h y z x d vs rs (run_t1 y z) (run_t2 y) tau1 tau2 that);
    try assumption; try reflexivity; [|by rewrite LG|]; cbn [res_bind].
  - rewrite (vector_check_ok ag h y z x d run_aL run_aR sL sR alpha rho that m (sc hx) k u') with (yi := yi);
      try assumption; try reflexivity.
    + by apply pmul_pt.
    + exact (Hyi Hgcd).
    + exact (Hip Hinv).
  - rewrite LG. unfold that, run_lx, run_rx.
    rewrite that_value, run_t0 by (unfold yv_of; rewrite ?length_zpowers_from, ?length_vs_of; auto).
    unfold run_t1, run_t2. replace (N / MaxExp)%nat with m by (unfold N; by rewrite Nat.mul_comm, Nat.div_mul).
    ring.
Qed.
End run.

Lemma commit_values g h vs rs : pt_ok g -> pt_ok h -> Forall is_u64 vs ->
  zip_with (fun v r => Point_AddPedersen (key_of v) g r h) vs (map sc rs) =
  zip_with (fun v r => AddKeys (pmul g v) (pmul h r)) vs rs.
Proof using CL.
  intros Hg Hh Hv. rewrite <- commit_sc by assumption. revert rs.
  induction Hv as [|v vs Hv Hvs IH]; intros [|r rs]; try reflexivity. cbn [map zip_with]. rewrite IH.
  do 2 f_equal. apply sc_small. unfold is_u64 in Hv. assert (2 ^ 64 < order) by by vm_compute. lia.
Qed.

(** The prover of an aggregated proof: it returns, the commitments are those of
    the values, and the proof verifies when its challenges are invertible. *)
Lemma aggregate_complete (rnd : nat -> list Z) aggParam ver g h wit :
  pt_ok g -> pt_ok h -> params_ok aggParam -> witness_ok wit -> (forall i, sc_ok (rnd i)) ->
  let N := (MaxExp * Z.to_nat (roundUpPowTwo (Z.of_nat (length (wt_values wit)))))%nat in
  (N <= length (bp_g aggParam))%nat -> (N <= length (bp_h aggParam))%nat ->
  exists ag d, setAggregateParams aggParam N = Ok ag /\
    prove_aggregate rnd aggParam ver g h g h wit = Ok (proof_of ver d) /\
    pd_cms d = zip_with (fun v r => Point_AddPedersen (key_of v) g r h) (wt_values wit) (wt_rands wit) /\
    data_ok d /\ N = (2 ^ length (pd_l d))%nat /\
    (range_invertible (bp_cs ag) ver d -> range_check ag g h ver d = Ok true).
Proof using CL DL.
  intros Hg Hh Hagg (Hv & Hr & Lvr & Hmax) Hrnd N LG LH.
  destruct (roundUpPowTwo_ok (length (wt_values wit)) Hmax) as (j & Ej & Hj & _).
  destruct (setAggregateParams_ok aggParam N Hagg LG LH) as (ag & Eag & Hag & LGa & LHa).
  destruct wit as [vs rands]. cbn [wt_values wt_rands] in *.
  pose proof (scs_repr rands Hr) as Erands. set (rs := map key_val rands) in *.
  assert (length vs = length rs) as Lvr' by (unfold rs; by rewrite length_map).
  set (sL := map (fun i => key_val (rnd (2 * i)%nat)) (seq 0 N)).
  set (sR := map (fun i => key_val (rnd (2 * i + 1)%nat)) (seq 0 N)).
  assert (length sL = N /\ length sR = N) as [LsL LsR] by (unfold sL, sR; by rewrite !length_map, length_seq).
  set (m := Z.to_nat (roundUpPowTwo (Z.of_nat (length vs)))) in *.
  assert (N = (2 ^ (6 + j))%nat) as EN by (unfold N; rewrite Ej, Nat.pow_add_r; reflexivity).
  assert (0 < N)%nat as HN by (rewrite EN; apply Nat.neq_0_lt_0, Nat.pow_nonzero; lia).
  assert (length vs <= m)%nat as Lvm by (rewrite Ej; exact Hj).
  destruct (run_code g h ag vs rs m (6 + j) sL sR (key_val (rnd (2 * N)%nat)) (key_val (rnd (2 * N + 1)%nat))
    (key_val (rnd (2 * N + 2)%nat)) (key_val (rnd (2 * N + 3)%nat)) Hg Hh Hag EN LGa LHa Hv Lvr' Lvm LsL LsR
    rnd aggParam ver eq_refl Hmax HN Eag)
    as (y & z & x & hx & yi & l & r & ipa & ipb & Ecode & Ech & Ehx & EHP & Hyi & Ll & Lr & Pl & Pr & Sa & Sb & Hip);
    try (by apply sc_repr).
  { unfold sL. rewrite map_map. apply map_ext. intros i. by apply sc_repr. }
  { unfold sR. rewrite map_map. apply map_ext. intros i. by apply sc_repr. }
  eexists ag, _. rewrite Erands. split; [exact Eag|]. split; [exact Ecode|].
  split; [|split; [|split; [cbn [pd_l run_data]; by rewrite Ll|]]].
  - cbn [pd_cms run_data]. symmetry. by apply commit_values.
  - destruct (run_points g h ag vs rs m (6 + j) sL sR (key_val (rnd (2 * N)%nat))
      (key_val (rnd (2 * N + 1)%nat)) 0 0 Hg Hh Hag EN LGa LHa Hv Lvr' Lvm LsL LsR) as (Pc & PA & PS).
    destruct Hag as (HG & HH & Hu & _). unfold data_ok, run_data.
    cbn [pd_cms pd_a pd_s pd_t1 pd_t2 pd_tauX pd_tHat pd_mu pd_l pd_r pd_ipa pd_ipb pd_p].
    repeat split; try assumption; try apply sc_ok_sc; try (apply pt_add; by apply pmul_pt); try apply Sa; try apply Sb; [lia|].
    apply cross_pt; [assumption|by apply hpoints_ok|by apply pmul_pt].
  - eapply run_checked; try eassumption; reflexivity.
Qed.
End aggregate.


(** ** Byte forms *)

Section bytes.
Context `{CL : CurveLaws} `{DL : DigestLaws}.

Lemma concat_points_some ps : concat_points (map Some ps) = Ok (concat ps).
Proof using Type. induction ps as [|p ps IH]; [reflexivity|]. cbn [map concat_points deref res_bind]. by rewrite IH. Qed.

Lemma next_key_at oob pre k post off : off = length pre -> length k = 32%nat ->
  next_key oob (pre ++ k ++ post) off = Ok k.
Proof using Type.
  intros -> Hk. unfold next_key, Ed25519KeySize. rewrite !length_app, Hk. bounds.
  by apply slice_app_mid; rewrite ?Hk.
Qed.

Lemma read_point_at {T} oob (set : option (list Z) -> T -> T) pre k post off s :
  off = length pre -> pt_ok k -> read_point oob set (pre ++ k ++ post) off s = (set (Some k) s, Ok (off + 32)%nat).
Proof using CL.
  intros Ho Hk. pose proof (proj1 (pt_key k Hk)) as Hkk. unfold read_point, st_bind, st_lift.
  rewrite next_key_at by (done || apply Hkk). unfold st_assign. by rewrite FromBytesS_pt.
Qed.

Lemma read_scalar_at {T} oob (set : option (list Z) -> T -> T) pre k post off s :
  off = length pre -> sc_ok k -> read_scalar oob set (pre ++ k ++ post) off s = (set (Some k) s, Ok (off + 32)%nat).
Proof using Type.
  intros Ho Hk. unfold read_scalar, st_bind, st_lift, st_put.
  rewrite next_key_at by (done || apply Hk). by rewrite FromBytesS_exact by apply Hk.
Qed.

(** Reading [n] points into the array a lens gives. *)
Lemma read_points_at {T} oob (get : T -> list (option (list Z))) (put : list (option (list Z)) -> T -> T)
    (Hgp : forall v s, get (put v s) = v) (Hpp : forall v w s, put v (put w s) = put v s)
    (Hpg : forall s, put (get s) s = s) ps : forall fst pre post off s,
  off = length pre -> Forall pt_ok ps -> get s = map Some fst ++ replicate (length ps) None ->
  read_points oob (fun i v s => put (<[i := v]> (get s)) s) (length ps) (length fst)
    (pre ++ concat ps ++ post) off s =
  (put (map Some (fst ++ ps)) s, Ok (off + 32 * length ps)%nat).
Proof using CL.
  induction ps as [|p ps IH]; intros fst pre post off s Ho Hps Hs.
  - cbn [length read_points replicate] in *. rewrite app_nil_r in Hs. rewrite app_nil_r, <- Hs, Hpg.
    unfold st_lift. by rewrite Nat.mul_0_r, Nat.add_0_r.
  - apply Forall_cons in Hps as [Hp Hps]. pose proof (proj1 (proj1 (pt_key p Hp))) as Lp.
    cbn [length read_points concat]. unfold st_bind. rewrite <- app_assoc, read_point_at by done.
    rewrite Hs. cbn [length replicate].
    rewrite insert_app_r_alt by (rewrite length_map; lia). rewrite length_map, Nat.sub_diag. cbn [insert list_insert].
    replace (S (length fst)) with (length (fst ++ [p])) by (rewrite length_app; cbn; lia).
    replace (pre ++ p ++ concat ps ++ post) with ((pre ++ p) ++ concat ps ++ post) by (by rewrite <- !app_assoc).
    rewrite IH; [|rewrite length_app, Lp; unfold Ed25519KeySize; lia|done|].
    + rewrite Hpp, <- app_assoc. cbn [app]. do 2 f_equal. unfold Ed25519KeySize. lia.
    + by rewrite Hgp, map_app, <- app_assoc.
Qed.

Lemma length_concat_keys ps : Forall pt_ok ps -> length (concat ps) = (32 * length ps)%nat.
Proof using CL.
  induction 1 as [|p ps Hp Hps IH]; [done|]. cbn [concat length]. rewrite length_app, IH.
  rewrite (proj1 (proj1 (pt_key p Hp))). unfold Ed25519KeySize. lia.
Qed.

Lemma u8_length n : (n <= 255)%nat -> u8 (Z.of_nat n) = Z.of_nat n.
Proof using Type. intros Hn. unfold u8. apply Z.mod_small. lia. Qed.

Lemma ip_bytes_length l r a b p : Forall pt_ok l -> Forall pt_ok r -> sc_ok a -> sc_ok b -> pt_ok p ->
  length (concat l ++ concat r ++ a ++ b ++ p) = (32 * (length l + length r + 3))%nat.
Proof using CL.
  intros Hl Hr Ha Hb Hp. rewrite !length_app, !length_concat_keys by done.
  rewrite (proj1 (proj1 Ha)), (proj1 (proj1 Hb)), (proj1 (proj1 (pt_key p Hp))). unfold Ed25519KeySize. lia.
Qed.

Lemma InnerProductProof_SetBytes_Bytes l r a b p q :
  Forall pt_ok l -> Forall pt_ok r -> length l = length r -> (length l <= 255)%nat ->
  sc_ok a -> sc_ok b -> pt_ok p ->
  let proof := mkInnerProductProof (map Some l) (map Some r) (Some a) (Some b) (Some p) in
  InnerProductProof_Bytes proof = Ok (Z.of_nat (length l) :: concat l ++ concat r ++ a ++ b ++ p) /\
  InnerProductProof_SetBytes (Z.of_nat (length l) :: concat l ++ concat r ++ a ++ b ++ p) q = (proof, Ok tt).
Proof using CL.
  intros Hl Hr Llr L255 Ha Hb Hp proof. split.
  - unfold InnerProductProof_Bytes. cbn [ip_l ip_r ip_a ip_b ip_p proof].
    rewrite !concat_points_some. cbn [res_bind deref]. by rewrite length_map, u8_length.
  - unfold InnerProductProof_SetBytes. rewrite Nat2Z.id. unfold st_bind at 1, st_put.
    unfold st_bind at 1.
    rewrite (read_points_at _ ip_l set_ip_l) with (fst := []) (ps := l) (pre := [Z.of_nat (length l)])
      (post := concat r ++ a ++ b ++ p) by (done || (by intros [])).
    unfold st_bind at 1, st_put. unfold st_bind at 1. rewrite Llr.
    pose proof (length_concat_keys l Hl) as Cl. pose proof (length_concat_keys r Hr) as Cr.
    pose proof (proj1 (proj1 Ha)) as La. pose proof (proj1 (proj1 Hb)) as Lb. unfold Ed25519KeySize in *.
    set (n0 := Z.of_nat (length r)). 
    change (n0 :: concat l ++ concat r ++ a ++ b ++ p) with ((n0 :: concat l) ++ concat r ++ a ++ b ++ p).
    rewrite (read_points_at _ ip_r set_ip_r) with (fst := []) (ps := r)
      by (done || (by intros []) || (cbn; lia)).
    unfold st_bind at 1. rewrite app_assoc, read_scalar_at by (done || (rewrite length_app; cbn; lia)).
    unfold st_bind at 1. rewrite app_assoc, read_scalar_at by (done || (rewrite !length_app; cbn; lia)).
    unfold st_bind at 1. rewrite <- (app_nil_r p), app_assoc.
    rewrite read_point_at by (done || (rewrite !length_app; cbn; lia)). reflexivity.
Qed.

Definition range_body (d : proof_data) : list Z :=
  Z.of_nat (length (pd_cms d)) :: concat (pd_cms d) ++ pd_a d ++ pd_s d ++ pd_t1 d ++ pd_t2 d ++
  pd_tauX d ++ pd_tHat d ++ pd_mu d ++
  (Z.of_nat (length (pd_l d)) :: concat (pd_l d) ++ concat (pd_r d) ++ pd_ipa d ++ pd_ipb d ++ pd_p d).

Lemma range_body_length d : data_ok d ->
  length (range_body d) = (2 + 32 * (length (pd_cms d) + length (pd_l d) + length (pd_r d) + 10))%nat.
Proof using CL.
  intros (Hc & Ha & Hs & Ht1 & Ht2 & Hx & Ht & Hm & Hl & Hr & _ & Hia & Hib & Hp).
  unfold range_body. cbn [length]. rewrite !length_app. cbn [length].
  rewrite ip_bytes_length, length_concat_keys by done.
  rewrite (proj1 (proj1 (pt_key _ Ha))), (proj1 (proj1 (pt_key _ Hs))), (proj1 (proj1 (pt_key _ Ht1))),
    (proj1 (proj1 (pt_key _ Ht2))), (proj1 (proj1 Hx)), (proj1 (proj1 Ht)), (proj1 (proj1 Hm)).
  unfold Ed25519KeySize. lia.
Qed.

Lemma range_read_body d q : data_ok d -> (length (pd_cms d) <= 255)%nat -> (length (pd_l d) <= 255)%nat ->
  RangeProof_read (range_body d) q =
  (mkRangeProof (rp_version q) (map Some (pd_cms d)) (Some (pd_a d)) (Some (pd_s d)) (Some (pd_t1 d))
    (Some (pd_t2 d)) (Some (pd_tauX d)) (Some (pd_tHat d)) (Some (pd_mu d))
    (rp_ip (proof_of (rp_version q) d)), Ok tt).
Proof using CL.
  intros (Hc & Ha & Hs & Ht1 & Ht2 & Hx & Ht & Hm & Hl & Hr & Llr & Hia & Hib & Hp) C255 L255.
  pose proof (length_concat_keys _ Hc) as Cc.
  pose proof (proj1 (proj1 (pt_key _ Ha))) as La. pose proof (proj1 (proj1 (pt_key _ Hs))) as Ls.
  pose proof (proj1 (proj1 (pt_key _ Ht1))) as Lt1. pose proof (proj1 (proj1 (pt_key _ Ht2))) as Lt2.
  pose proof (proj1 (proj1 Hx)) as Lx. pose proof (proj1 (proj1 Ht)) as Lt. pose proof (proj1 (proj1 Hm)) as Lm.
  unfold Ed25519KeySize in *.
  destruct (InnerProductProof_SetBytes_Bytes (pd_l d) (pd_r d) (pd_ipa d) (pd_ipb d) (pd_p d)
    InnerProductProof_new Hl Hr Llr L255 Hia Hib Hp) as [_ Eip].
  unfold RangeProof_read, range_body. set (ipb := Z.of_nat (length (pd_l d)) :: _) in *.
  unfold st_bind at 1, st_lift at 1, index. cbn [lookup list_lookup].
  unfold st_bind at 1, st_put. unfold st_bind at 1. rewrite Nat2Z.id.
  set (n0 := Z.of_nat (length (pd_cms d))). set (cms := pd_cms d) in *.
  change (n0 :: concat cms ++ ?rest) with ([n0] ++ concat cms ++ rest).
  rewrite (read_points_at _ rp_cmsValue set_rp_cms) with (fst := []) (ps := cms) by (done || (by intros [])).
  unfold st_bind at 1. rewrite app_assoc, read_point_at by (done || (rewrite length_app; cbn; lia)).
  unfold st_bind at 1. rewrite app_assoc, read_point_at by (done || (rewrite !length_app; cbn; lia)).
  unfold st_bind at 1. rewrite app_assoc, read_point_at by (done || (rewrite !length_app; cbn; lia)).
  unfold st_bind at 1. rewrite app_assoc, read_point_at by (done || (rewrite !length_app; cbn; lia)).
  unfold st_bind at 1. rewrite app_assoc, read_scalar_at by (done || (rewrite !length_app; cbn; lia)).
  unfold st_bind at 1. rewrite app_assoc, read_scalar_at by (done || (rewrite !length_app; cbn; lia)).
  unfold st_bind at 1. rewrite app_assoc, read_scalar_at by (done || (rewrite !length_app; cbn; lia)).
  rewrite app_assoc. rewrite (proj2 (Nat.leb_gt _ _)) by (rewrite !length_app; unfold ipb; cbn; lia).
  rewrite drop_app_length' by (rewrite !length_app; cbn; lia).
  unfold read_ip. rewrite Eip. reflexivity.
Qed.

Lemma range_bytes d ver : data_ok d -> (length (pd_cms d) <= 255)%nat -> (length (pd_l d) <= 255)%nat ->
  0 <= ver < 256 ->
  RangeProof_Bytes (proof_of ver d) = Ok ((if 2 <=? ver then [0; ver] else []) ++ range_body d).
Proof using CL.
  intros Hd C255 L255 Hver. pose proof Hd as (_ & _ & _ & _ & _ & _ & _ & _ & Hl & Hr & Llr & Hia & Hib & Hp).
  destruct (InnerProductProof_SetBytes_Bytes (pd_l d) (pd_r d) (pd_ipa d) (pd_ipb d) (pd_p d)
    InnerProductProof_new Hl Hr Llr L255 Hia Hib Hp) as [Eip _].
  unfold RangeProof_Bytes, RangeProof_IsNil, proof_of.
  cbn [rp_a rp_s rp_t1 rp_t2 rp_tauX rp_tHat rp_mu rp_ip rp_cmsValue rp_version is_nil orb].
  rewrite concat_points_some. cbn [res_bind deref]. rewrite Eip. cbn [res_bind].
  rewrite length_map, u8_length by done. unfold range_body.
  replace (u8 ver) with ver by (unfold u8; by rewrite Z.mod_small). reflexivity.
Qed.

Lemma range_roundtrip d ver q : data_ok d -> (length (pd_cms d) <= 255)%nat -> (length (pd_l d) <= 255)%nat ->
  1 <= ver < 256 ->
  exists b, RangeProof_Bytes (proof_of ver d) = Ok b /\ RangeProof_SetBytes b q = (proof_of ver d, Ok tt).
Proof using CL.
  intros Hd C255 L255 Hver. eexists. split; [by apply range_bytes; try lia|].
  pose proof (range_body_length d Hd) as Lb.
  assert (forall k n, (k + 32 * n) mod 32 = k mod 32)%nat as M2.
  { intros k n. rewrite (Nat.mul_comm 32). apply Nat.Div0.mod_add. }
  assert (exists b0 rest, range_body d = b0 :: rest) as (b0 & rest & Eb) by (unfold range_body; eauto).
  unfold RangeProof_SetBytes. destruct (Z.leb_spec 2 ver) as [Hv|Hv].
  - cbn [app length]. rewrite Lb. unfold Ed25519KeySize.
    replace (S (S (2 + 32 * (length (pd_cms d) + length (pd_l d) + length (pd_r d) + 10))))%nat
      with (4 + 32 * (length (pd_cms d) + length (pd_l d) + length (pd_r d) + 10))%nat by lia.
    rewrite M2. cbn [Nat.modulo Nat.divmod Nat.eqb fst snd Nat.sub Z.eqb andb]. unfold st_bind, st_lift, st_put, index.
    cbn [lookup list_lookup]. replace (u8 ver) with ver by (unfold u8; by rewrite Z.mod_small by lia).
    cbn [skipn]. by rewrite drop_0, range_read_body.
  - cbn [app]. rewrite Eb. cbv beta iota. rewrite <- Eb, Lb, M2. cbn [Nat.modulo Nat.divmod Nat.eqb fst snd Nat.sub].
    rewrite andb_false_r. unfold st_bind, st_put. rewrite range_read_body by done.
    by replace ver with 1 by lia.
Qed.

(** *** Safety of the parsers *)

Lemma next_key_safe oob bytes off : res_safe (next_key oob bytes off).
Proof using Type.
  unfold next_key. destruct (Nat.ltb_spec (length bytes) (off + Ed25519KeySize)) as [|Hl]; [done|].
  destruct (slice_safe bytes off (off + Ed25519KeySize)) as (l & -> & _); [lia|done].
Qed.

Lemma read_point_safe {T} oob (set : option (list Z) -> T -> T) bytes off : st_safe (read_point oob set bytes off).
Proof using Type.
  apply st_bind_safe; [apply st_lift_safe, next_key_safe|]. intros b. apply st_assign_safe.
  pose proof (Point_FromBytesS_safe b) as Hb. by destruct (Point_FromBytesS b).
Qed.

Lemma read_scalar_safe {T} oob (set : option (list Z) -> T -> T) bytes off : st_safe (read_scalar oob set bytes off).
Proof using Type.
  apply st_bind_safe; [apply st_lift_safe, next_key_safe|]. intros b.
  apply st_bind_safe; [apply st_put_safe|]. intros _. by apply st_lift_safe.
Qed.

Lemma read_points_safe {T} oob (set : nat -> option (list Z) -> T -> T) n : forall i bytes off,
  st_safe (read_points oob set n i bytes off).
Proof using Type.
  induction n as [|n IH]; intros i bytes off; [by apply st_lift_safe|].
  apply st_bind_safe; [apply read_point_safe|]. intros o. apply IH.
Qed.

Hint Resolve read_point_safe read_scalar_safe read_points_safe : safe.

(** One step of a parser that is a sequence of reads. *)
Ltac safe_steps := repeat (apply st_bind_safe; [auto with safe|intros ?]).

Lemma InnerProductProof_SetBytes_safe bytes : st_safe (InnerProductProof_SetBytes bytes).
Proof using Type. destruct bytes as [|b0 bytes]; [done|]. cbn. safe_steps. done. Qed.

Lemma read_ip_safe bytes : st_safe (read_ip bytes).
Proof using Type.
  intros s. unfold read_ip. pose proof (InnerProductProof_SetBytes_safe bytes InnerProductProof_new) as Hs.
  by destruct (InnerProductProof_SetBytes bytes InnerProductProof_new).
Qed.

Lemma RangeProof_read_safe b0 bytes : st_safe (RangeProof_read (b0 :: bytes)).
Proof using Type.
  unfold RangeProof_read. apply st_bind_safe; [by apply st_lift_safe|]. intros b. safe_steps.
  match goal with |- context [(?x <=? ?y)%nat] => destruct (x <=? y)%nat end;
    [apply st_fail_safe|apply read_ip_safe].
Qed.

Lemma RangeProof_SetBytes_safe bytes : st_safe (RangeProof_SetBytes bytes).
Proof using Type.
  unfold RangeProof_SetBytes. destruct bytes as [|b0 [|b1 [|b2 bytes]]]; [done|..];
    match goal with |- context [if ?t then _ else _] => destruct t eqn:Et end;
    try (by rewrite andb_false_r in Et);
    apply st_bind_safe; try apply st_put_safe; try (by apply st_lift_safe); intros ?;
    try apply RangeProof_read_safe; apply st_bind_safe; try apply st_put_safe; intros ?;
    apply RangeProof_read_safe.
Qed.
End bytes.

(** ** Properties *)

Section properties.
Context `{CL : CurveLaws} `{DL : DigestLaws}.

Lemma half_split N : exists n, N = (n + n)%nat \/ N = (n + S n)%nat.
Proof using Type. exists (N / 2)%nat. pose proof (Nat.div_mod N 2). pose proof (Nat.mod_upper_bound N 2). lia. Qed.

Lemma split_at {A} n k (l : list A) : length l = (n + k)%nat ->
  exists l1 l2, l = l1 ++ l2 /\ length l1 = n /\ length l2 = k.
Proof using Type.
  intros Hl. exists (take n l), (drop n l). rewrite take_drop, length_take, length_drop. split; [done|lia].
Qed.

(** A length that is not a power of two reaches a round of odd length. *)
Lemma ip_rounds_err bound : forall fuel N a b p G Hh u hc l0 r0, (N <= bound)%nat -> (N < fuel)%nat -> (0 < N)%nat ->
  (forall k, N <> 2 ^ k)%nat ->
  length a = N -> length b = N -> length G = N -> length Hh = N ->
  Forall pt_ok G -> Forall pt_ok Hh -> pt_ok u -> bytes_ok hc ->
  prove_rounds fuel N (map sc a) (map sc b) p G Hh u hc l0 r0 = Err "incompatible sizes of a and b".
Proof using CL DL.
  induction bound as [|bound IH]; intros [|fuel] N a b p G Hh u hc l0 r0 Hb Hf HN Hk La Lb LG LH HG HH Hu Hc; try lia.
  destruct (half_split N) as (n & [EN|EN]).
  - rewrite EN in La, Lb, LG, LH.
    destruct (split_at n n a La) as (a1 & a2 & -> & La1 & La2).
    destruct (split_at n n b Lb) as (b1 & b2 & -> & Lb1 & Lb2).
    destruct (split_at n n G LG) as (G1 & G2 & -> & LG1 & LG2).
    destruct (split_at n n Hh LH) as (H1' & H2' & -> & LH1 & LH2).
    apply Forall_app in HG as [HG1 HG2]. apply Forall_app in HH as [HH1 HH2].
    destruct (prove_round n fuel a1 a2 b1 b2 p G1 G2 H1' H2' u hc l0 r0)
      as (x & xi & p' & _ & _ & _ & E); try assumption; [lia|]. rewrite EN, E.
    apply IH; auto using fold_zs_length, fold_pts_length, fold_pts_ok, sc_bytes with lia; [lia..|].
    intros k E2. apply (Hk (S k)). cbn [Nat.pow]. lia.
  - cbn [prove_rounds]. assert (N <> 1)%nat by (intros E1; by apply (Hk 0%nat)).
    rewrite (proj2 (Nat.ltb_lt 1 N)) by lia. replace (N / 2)%nat with n.
    + rewrite innerProduct_err; [reflexivity|]. rewrite length_take, length_drop, !length_map. lia.
    + rewrite EN. apply (Nat.div_unique _ 2 n 1); lia.
Qed.

(** C26: [Prove] of the inner-product argument always returns: with a proof of
    [k] rounds when the vectors have [2^k] entries, with the error of
    [innerProduct] at every other positive length, and it panics on empty
    vectors; on two vectors of different lengths it is an error.  When the
    challenges are invertible the proof satisfies the verification equation,
    for the commitment [<a, G> + <b, H> + <a, b> u]. *)
Theorem inner_product_argument a b p G Hh u hc :
  let wit := mkInnerProductWitness (map sc a) (map sc b) p in
  let N := length a in
  Forall pt_ok G -> Forall pt_ok Hh -> pt_ok u -> bytes_ok hc ->
  (length b = N -> length G = N -> length Hh = N ->
   (forall k, N = (2 ^ k)%nat ->
    exists l r za zb, InnerProductWitness_Prove wit G Hh u hc =
        Ok (mkInnerProductProof (map Some l) (map Some r) (Some (sc za)) (Some (sc zb)) (Some p)) /\
      length l = k /\ length r = k /\
      (ip_invertible l r hc ->
       ip_check l r (sc za) (sc zb) (AddKeys (AddKeys (lin a G) (lin b Hh)) (pmul u (dot a b))) G Hh u hc = Ok true)) /\
   (N <> 0%nat -> (forall k, N <> 2 ^ k)%nat ->
    InnerProductWitness_Prove wit G Hh u hc = Err "incompatible sizes of a and b") /\
   (N = 0%nat -> InnerProductWitness_Prove wit G Hh u hc = Panic)) /\
  (length b <> N -> InnerProductWitness_Prove wit G Hh u hc = Err "invalid inputs").
Proof using CL DL.
  intros wit N HG HH Hu Hc. split.
  - intros Lb LG LH. split; [|split].
    + intros k Ek. destruct (InnerProductWitness_Prove_ok k a b p G Hh u hc)
        as (l & r & za & zb & E & Ll & Lr & _ & _ & Hok); try assumption; try lia. by exists l, r, za, zb.
    + intros HN Hk. unfold InnerProductWitness_Prove, wit. cbn [iw_a iw_b iw_p].
      rewrite !length_map, Lb. fold N. rewrite LG, LH, Nat.eqb_refl, Nat.ltb_irrefl. cbn [negb orb].
      rewrite !take_ge by lia. by rewrite (ip_rounds_err N) by (assumption || lia).
    + intros HN. unfold N in *. destruct a; [|discriminate HN]. destruct b; [|discriminate Lb].
      unfold InnerProductWitness_Prove, wit. cbn. by destruct G, Hh.
  - intros Hl. unfold InnerProductWitness_Prove, wit. cbn [iw_a iw_b]. rewrite !length_map. fold N.
    by rewrite (proj2 (Nat.eqb_neq N (length b))) by auto.
Qed.

Lemma generators_ok f (l : list nat) :
  (forall i, exists p, f i = Some p /\ pt_ok p) ->
  forall g, (forall i, exists p, g i = Some p /\ pt_ok p) ->
  exists gh, mapM (fun i => match f i, g i with Some a, Some b => Some (a, b) | _, _ => None end) l = Some gh /\
    Forall pt_ok (map fst gh : list (list Z)) /\ Forall pt_ok (map snd gh : list (list Z)) /\ length gh = length l.
Proof using Type.
  intros Hf g Hgen. induction l as [|i l (gh & E & P1 & P2 & Lg)]; [by exists []|].
  destruct (Hf i) as (a & Ea & Pa). destruct (Hgen i) as (b & Eb & Pb).
  exists ((a, b) :: gh). cbn [mapM]. rewrite Ea, Eb. cbn [mbind option_bind]. rewrite E.
  split; [done|]. cbn [map fst snd length]. split; [by constructor|]. split; [by constructor|lia].
Qed.

(** The generators are points, [64 m] of each kind. *)
Lemma newBulletproofParams_ok m : exists ag, newBulletproofParams m = Ok ag /\ params_ok ag /\
  length (bp_g ag) = (MaxExp * m)%nat /\ length (bp_h ag) = (MaxExp * m)%nat.
Proof using CL DL.
  unfold newBulletproofParams, HashToPointFromIndex.
  edestruct (generators_ok (fun i => HashToPoint (GBASE ++ CStringBulletProof ++ string_of_rune (Z.of_nat (NumBase + i))))
    (seq 0 (MaxExp * m))) as (gh & E & P1 & P2 & Lg);
    [intros i; apply HashToPoint_ok|intros i; apply HashToPoint_ok|].
  rewrite E. cbn [deref res_bind].
  destruct (HashToPoint_ok (GBASE ++ CStringBulletProof ++ string_of_rune
    (Z.of_nat (NumBase + 2 * MaxOutputCoin * MaxExp)))) as (u & -> & Hu). cbn [deref res_bind].
  destruct (HashToPoint_ok (concat (map (fun p => fst p ++ snd p) gh) ++ u)) as (cs & -> & Hcs).
  cbn [deref res_bind]. eexists. split; [reflexivity|]. cbn [bp_g bp_h bp_u bp_cs].
  rewrite !length_map, Lg, length_seq. done.
Qed.

(** C12: [Prove] (of version 2, and of version 1, whose transcript leaves out the
    commitments) returns a proof for every list of at most 32 values with as
    many randomness scalars, and an error for a longer list; the proof carries
    the Pedersen commitments of the values, and when its challenges are
    invertible it satisfies the verification equations.  The parameters the
    package builds at start are enough for 32 values. *)
Theorem range_proof_verifies (rnd : nat -> list Z) aggParam wit : params_ok aggParam ->
  (forall i, sc_ok (rnd i)) -> Forall is_u64 (wt_values wit) -> Forall sc_ok (wt_rands wit) ->
  length (wt_values wit) = length (wt_rands wit) ->
  ((MaxOutputCoin < length (wt_values wit))%nat ->
   Witness_Prove rnd aggParam wit = Err "must less than MaxOutputCoin" /\
   Witness_Prove_v1 rnd aggParam wit = Err "must less than MaxOutputCoin") /\
  ((length (wt_values wit) <= MaxOutputCoin)%nat ->
   let N := (MaxExp * Z.to_nat (roundUpPowTwo (Z.of_nat (length (wt_values wit)))))%nat in
   (N <= length (bp_g aggParam))%nat -> (N <= length (bp_h aggParam))%nat ->
   exists g h ag, index PedG PedersenValueIndex = Ok g /\ index PedG PedersenRandomnessIndex = Ok h /\
     setAggregateParams aggParam N = Ok ag /\
     forall ver, ver = 1 \/ ver = 2 ->
     exists d, (if ver =? 2 then Witness_Prove rnd aggParam wit else Witness_Prove_v1 rnd aggParam wit)
                 = Ok (proof_of ver d) /\
       pd_cms d = zip_with (fun v r => Point_AddPedersen (key_of v) g r h) (wt_values wit) (wt_rands wit) /\
       N = (2 ^ length (pd_l d))%nat /\
       (range_invertible (bp_cs ag) ver d -> range_check ag g h ver d = Ok true)) /\
  (exists p, newBulletproofParams MaxOutputCoin = Ok p /\ params_ok p /\
     length (bp_g p) = (MaxExp * MaxOutputCoin)%nat /\ length (bp_h p) = (MaxExp * MaxOutputCoin)%nat).
Proof using CL DL.
  intros Hagg Hrnd Hv Hr Lvr.
  destruct (PedG_index PedersenValueIndex) as (g & Eg & Hg); [unfold PedersenValueIndex; lia|].
  destruct (PedG_index PedersenRandomnessIndex) as (h & Eh & Hh); [unfold PedersenRandomnessIndex; lia|].
  assert (Witness_Prove rnd aggParam wit = prove_aggregate rnd aggParam 2 g h g h wit) as ->
    by (unfold Witness_Prove; by rewrite Eg, Eh).
  assert (Witness_Prove_v1 rnd aggParam wit = prove_aggregate rnd aggParam 1 g h g h wit) as ->
    by (unfold Witness_Prove_v1; by rewrite Eg, Eh).
  split; [|split; [|apply newBulletproofParams_ok]].
  - intros Hlong. unfold prove_aggregate. by rewrite (proj2 (Nat.ltb_lt _ _) Hlong).
  - intros Hmax N LG LH.
    assert (witness_ok wit) as Hw by done.
    destruct (aggregate_complete rnd aggParam 2 g h wit Hg Hh Hagg Hw Hrnd LG LH)
      as (ag & d & Eag & E2 & C2 & _ & N2 & V2).
    destruct (aggregate_complete rnd aggParam 1 g h wit Hg Hh Hagg Hw Hrnd LG LH)
      as (ag' & d' & Eag' & E1 & C1 & _ & N1 & V1).
    fold N in Eag, Eag'. rewrite Eag in Eag'. injection Eag' as <-.
    exists g, h, ag. split; [done|]. split; [done|]. split; [done|].
    intros ver [->| ->]; [exists d'|exists d]; auto.
Qed.

Fixpoint ztransform (b0 : Z) (bs vs rs : list Z) : list Z :=
  match bs, vs, rs with
  | b :: bs, v :: vs, r :: rs => (b - b0) * v + r :: ztransform b0 bs vs rs
  | _, _, _ => []
  end.

Lemma length_ztransform b0 bs : forall vs rs, length bs = length vs -> length bs = length rs ->
  length (ztransform b0 bs vs rs) = length vs.
Proof using Type.
  induction bs as [|b bs IH]; intros [|v vs] [|r rs] E1 E2; try discriminate; [done|].
  cbn [ztransform length] in *. f_equal. apply IH; lia.
Qed.

Lemma transform_rands_sc b0 bs : forall vs rs, Forall is_u64 vs -> length bs = length vs -> length bs = length rs ->
  transform_rands (map sc bs) (sc b0) vs (map sc rs) = Ok (map sc (ztransform b0 bs vs rs)).
Proof using CL.
  induction bs as [|b bs IH]; intros [|v vs] [|r rs] Hv E1 E2; try discriminate; [reflexivity|].
  apply Forall_cons in Hv as [Hv Hvs]. injection E1 as E1. injection E2 as E2.
  cbn [map transform_rands ztransform]. rewrite FromUint64_sc by done. cbn [res_bind].
  unfold Scalar_Add, Scalar_Mul, Scalar_Sub. rewrite ScSub_sc, ScMul_sc, ScAdd_sc, IH by done. reflexivity.
Qed.

(** Committing over the first tag with the transformed randomness, and over the
    own tag of each value: [T_i = a + b_i h]. *)
Lemma transform_commitments a h b0 bs : forall vs rs, pt_ok a -> pt_ok h ->
  length bs = length vs -> length bs = length rs ->
  zip_with (fun v r => AddKeys (pmul (AddKeys a (pmul h b0)) v) (pmul h r)) vs (ztransform b0 bs vs rs) =
  zip_with (fun v tr => AddKeys (pmul (fst tr) v) (pmul h (snd tr))) vs
    (zip (map (fun b => AddKeys a (pmul h b)) bs) rs).
Proof using CL.
  induction bs as [|b bs IH]; intros [|v vs] [|r rs] Ha Hh E1 E2; try discriminate; [reflexivity|].
  injection E1 as E1. injection E2 as E2. cbn [ztransform map zip_with fst snd]. f_equal; [|by apply IH].
  module.
Qed.

Lemma tagged_commitments a h vs : forall bs rs, pt_ok a -> pt_ok h -> Forall is_u64 vs ->
  zip_with (fun v tr => Point_AddPedersen (key_of v) (fst tr) (snd tr) h) vs
    (zip (map (fun b => Point_Add a (Point_ScalarMult h b)) (map sc bs)) (map sc rs)) =
  zip_with (fun v tr => AddKeys (pmul (fst tr) v) (pmul h (snd tr))) vs
    (zip (map (fun b => AddKeys a (pmul h b)) bs) rs).
Proof using CL.
  intros bs rs Ha Hh Hv. revert bs rs.
  induction Hv as [|v vs Hv Hvs IH]; intros [|b bs] [|r rs]; try reflexivity.
  cbn [map zip_with fst snd]. f_equal; [|apply IH].
  rewrite sc_small by (unfold is_u64 in Hv; assert (2 ^ 64 < order) by (by vm_compute); lia).
  apply add_pedersen_sc; [by apply pt_add, pmul_pt|done].
Qed.

Lemma asset_proof (rnd : nat -> list Z) aggParam wit blinders a h caG :
  params_ok aggParam -> (forall i, sc_ok (rnd i)) -> witness_ok wit -> Forall sc_ok blinders -> pt_ok a ->
  index PedG PedersenRandomnessIndex = Ok h -> index caG PedersenRandomnessIndex = Ok h ->
  let N := (MaxExp * Z.to_nat (roundUpPowTwo (Z.of_nat (length (wt_values wit)))))%nat in
  (N <= length (bp_g aggParam))%nat -> (N <= length (bp_h aggParam))%nat ->
  let tag b := Point_Add a (Point_ScalarMult h b) in
  let base := tag (hd [] blinders) in
  (length blinders = length (wt_values wit) -> blinders <> [] ->
   exists wit' ag d, TransformWitnessToCAWitness wit blinders = Ok wit' /\
     setAggregateParams aggParam N = Ok ag /\
     Witness_ProveUsingBase rnd aggParam base wit' caG =
       (<[PedersenValueIndex := base]> caG, Ok (proof_of 2 d)) /\
     pd_cms d = zip_with (fun v tr => Point_AddPedersen (key_of v) (fst tr) (snd tr) h) (wt_values wit)
                  (zip (map tag blinders) (wt_rands wit)) /\
     (range_invertible (bp_cs ag) 2 d -> range_check ag base h 2 d = Ok true) /\ data_ok d /\ N = (2 ^ length (pd_l d))%nat) /\
  (length blinders <> length (wt_values wit) ->
   TransformWitnessToCAWitness wit blinders = Err "cannot transform witness: parameter lengths mismatch").
Proof using CL DL.
  intros Hagg Hrnd (Hv & Hr & Lvr & Hmax) Hb Ha Eh Ech N LG LH tag base. split.
  2:{ intros Hl. unfold TransformWitnessToCAWitness. by rewrite (proj2 (Nat.eqb_neq _ _) Hl). }
  intros Hl Hne. destruct (PedG_index PedersenRandomnessIndex) as (h0 & Eh0 & Hh); [unfold PedersenRandomnessIndex; lia|].
  rewrite Eh in Eh0. injection Eh0 as <-.
  destruct wit as [vs rands]. cbn [wt_values wt_rands] in *.
  pose proof (scs_repr rands Hr) as Er. set (rs := map key_val rands) in *.
  pose proof (scs_repr blinders Hb) as Ebl. set (bs := map key_val blinders) in *.
  assert (length bs = length vs /\ length bs = length rs) as [Lb1 Lb2] by (unfold bs, rs; rewrite !length_map; lia).
  assert (exists b0, hd [] blinders = sc b0) as (b0 & Eb0).
  { destruct blinders as [|b blinders]; [done|]. inversion Hb. exists (key_val b). by apply sc_repr. }
  assert (pt_ok base) as Hbase by (unfold base, tag; rewrite Eb0; by apply pt_add, pmul_pt).
  set (wit' := mkWitness vs (map sc (ztransform b0 bs vs rs))).
  assert (witness_ok wit') as Hw'.
  { repeat split; cbn [wt_values wt_rands wit']; try done; [apply scs_ok|].
    by rewrite length_map, length_ztransform. }
  destruct (aggregate_complete rnd aggParam 2 base h wit' Hbase Hh Hagg Hw' Hrnd LG LH)
    as (ag & d & Eag & E & C & Hd & HN & V).
  exists wit', ag, d. split; [|split; [exact Eag|split; [|split; [|split; [exact V|split; [exact Hd|exact HN]]]]]].
  - unfold TransformWitnessToCAWitness. cbn [wt_values wt_rands]. rewrite <- Lvr, Hl, Nat.eqb_refl. cbn [negb orb].
    rewrite Eb0, Ebl, Er, transform_rands_sc by done. cbn [res_bind]. unfold Witness_Set.
    rewrite length_map, length_ztransform by done. rewrite Nat.ltb_irrefl.
    by rewrite take_ge by (rewrite length_map, length_ztransform; [lia|done..]).
  - unfold Witness_ProveUsingBase. unfold index in Ech. destruct (caG !! PedersenRandomnessIndex) as [x|] eqn:Ex; [|done].
    pose proof (lookup_lt_Some _ _ _ Ex) as Lca. unfold PedersenRandomnessIndex in Lca.
    rewrite (proj2 (Nat.ltb_lt _ _)) by (unfold PedersenValueIndex; lia).
    rewrite Eh. cbn [res_bind]. unfold index.
    rewrite list_lookup_insert_eq by (unfold PedersenValueIndex; lia). cbn [res_bind].
    rewrite list_lookup_insert_ne, Ex by done. injection Ech as ->. cbn [res_bind]. by rewrite E.
  - rewrite C. cbn [wt_values wt_rands wit']. rewrite commit_values by done.
    unfold base, tag. rewrite Eb0. unfold Point_Add, Point_ScalarMult. fold (pmul h b0).
    rewrite transform_commitments by done. rewrite Er, Ebl at 1. symmetry. by apply tagged_commitments.
Qed.

(** C25: for confidential assets: [TransformWitnessToCAWitness] moves the blinders
    of the asset tags [T_i = a + b_i h] into the randomness, so that the proof
    [ProveUsingBase] makes over the first tag carries the commitments of the
    values over their own tags, and verifies over the first tag; the shared
    commitment scheme is left with that tag as its value generator.  Lists of
    different lengths are an error. *)
Theorem asset_proof_verifies (rnd : nat -> list Z) aggParam wit blinders a h caG :
  params_ok aggParam -> (forall i, sc_ok (rnd i)) -> witness_ok wit -> Forall sc_ok blinders -> pt_ok a ->
  index PedG PedersenRandomnessIndex = Ok h -> index caG PedersenRandomnessIndex = Ok h ->
  let N := (MaxExp * Z.to_nat (roundUpPowTwo (Z.of_nat (length (wt_values wit)))))%nat in
  (N <= length (bp_g aggParam))%nat -> (N <= length (bp_h aggParam))%nat ->
  let tag b := Point_Add a (Point_ScalarMult h b) in
  let base := tag (hd [] blinders) in
  (length blinders = length (wt_values wit) -> blinders <> [] ->
   exists wit' ag d, TransformWitnessToCAWitness wit blinders = Ok wit' /\
     setAggregateParams aggParam N = Ok ag /\
     Witness_ProveUsingBase rnd aggParam base wit' caG =
       (<[PedersenValueIndex := base]> caG, Ok (proof_of 2 d)) /\
     pd_cms d = zip_with (fun v tr => Point_AddPedersen (key_of v) (fst tr) (snd tr) h) (wt_values wit)
                  (zip (map tag blinders) (wt_rands wit)) /\
     (range_invertible (bp_cs ag) 2 d -> range_check ag base h 2 d = Ok true)) /\
  (length blinders <> length (wt_values wit) ->
   TransformWitnessToCAWitness wit blinders = Err "cannot transform witness: parameter lengths mismatch").
Proof using CL DL.
  intros Hagg Hrnd Hw Hb Ha Eh Ech N LG LH tag base.
  destruct (asset_proof rnd aggParam wit blinders a h caG Hagg Hrnd Hw Hb Ha Eh Ech LG LH) as [Hok Herr]. split; [|exact Herr].
  intros Hl Hne. destruct (Hok Hl Hne) as (wit' & ag & d & E1 & E2 & E3 & E4 & E5 & _). by exists wit', ag, d.
Qed.

(** A range proof survives [Bytes] and [SetBytes], whatever the receiver
    held, for the versions 1 to 255 and at most 255 commitments and rounds;
    and [SetBytes] returns on every byte string, with a proof or an error. *)
Theorem range_proof_roundtrip :
  (forall d ver q, data_ok d -> (length (pd_cms d) <= 255)%nat -> (length (pd_l d) <= 255)%nat ->
   1 <= ver < 256 ->
   exists b, RangeProof_Bytes (proof_of ver d) = Ok b /\ RangeProof_SetBytes b q = (proof_of ver d, Ok tt)) /\
  (forall b q, res_safe (snd (RangeProof_SetBytes b q))).
Proof using CL. split; [exact range_roundtrip|exact RangeProof_SetBytes_safe]. Qed.
End properties.

(** ** Witnesses *)

#[local] Existing Instances toy_curve toy_curve_laws toy_digests toy_digest_laws.

(** Small parameters over the toy curve: one value needs 64 generators. *)
Definition toy_params : bulletproofParams :=
  mkBulletproofParams (map (fun i => toy_write (Z.of_nat i + 11)) (seq 0 64))
    (map (fun i => toy_write (Z.of_nat i + 211)) (seq 0 64)) (toy_write 7) (toy_write 9).

Definition toy_rnd (i : nat) : list Z := sc (1000 + 17 * Z.of_nat i).

Lemma toy_params_ok : params_ok toy_params.
Proof.
  split; [|split; [|split; by eexists]]; apply Forall_map, Forall_true; intros i; by eexists.
Qed.

Lemma toy_bytes : bytes_ok (key_of 5).
Proof. exact (proj2 (key_of_ok 5)). Qed.

Lemma inner_product_argument_witness : exists l r za zb,
  InnerProductWitness_Prove (mkInnerProductWitness (map sc [3; 5]) (map sc [7; 2]) (toy_write 1))
    (map toy_write [11; 12]) (map toy_write [13; 14]) (toy_write 7) (key_of 5) =
  Ok (mkInnerProductProof (map Some l) (map Some r) (Some (sc za)) (Some (sc zb)) (Some (toy_write 1))) /\
  ip_check l r (sc za) (sc zb)
    (AddKeys (AddKeys (lin [3; 5] (map toy_write [11; 12])) (lin [7; 2] (map toy_write [13; 14])))
       (pmul (toy_write 7) (dot [3; 5] [7; 2])))
    (map toy_write [11; 12]) (map toy_write [13; 14]) (toy_write 7) (key_of 5) = Ok true.
Proof.
  destruct (inner_product_argument [3; 5] [7; 2] (toy_write 1) (map toy_write [11; 12])
    (map toy_write [13; 14]) (toy_write 7) (key_of 5)) as [(Hok & _ & _) _].
  - by repeat constructor; eexists.
  - by repeat constructor; eexists.
  - by eexists.
  - exact toy_bytes.
  - reflexivity.
  - reflexivity.
  - reflexivity.
  - destruct (Hok 1%nat eq_refl) as (l & r & za & zb & E & Ll & Lr & Hv).
    exists l, r, za, zb. split; [exact E|]. apply Hv.
    match type of E with ?t = _ => let v := eval vm_compute in t in
      assert (t = v) as E2 by (vm_compute; reflexivity) end.
    rewrite E2 in E. destruct l as [|pl [|]]; try discriminate Ll. destruct r as [|pr [|]]; try discriminate Lr.
    injection E as <- <- _ _. eexists. split; [vm_compute; reflexivity|].
    split; [vm_compute; reflexivity|exact I].
Defined.

Lemma toy_rnd_ok i : sc_ok (toy_rnd i).
Proof. apply sc_ok_sc. Qed.

Definition toy_range_witness : Witness := mkWitness [18446744073709551615] [key_of 3].

Lemma toy_u64 : Forall is_u64 [18446744073709551615].
Proof. by repeat constructor. Qed.

Lemma range_proof_verifies_witness : exists g h ag d,
  setAggregateParams toy_params 64 = Ok ag /\
  Witness_Prove toy_rnd toy_params toy_range_witness = Ok (proof_of 2 d) /\
  pd_cms d = zip_with (fun v r => Point_AddPedersen (key_of v) g r h) [18446744073709551615] [key_of 3] /\
  length (pd_l d) = 6%nat /\
  (range_invertible (bp_cs ag) 2 d -> range_check ag g h 2 d = Ok true).
Proof.
  destruct (range_proof_verifies toy_rnd toy_params toy_range_witness) as (_ & Hok & _).
  - exact toy_params_ok.
  - exact toy_rnd_ok.
  - exact toy_u64.
  - exact (toy_scalars [3] ltac:(repeat constructor; lia)).
  - reflexivity.
  - destruct Hok as (g & h & ag & _ & _ & Eag & Hok); [cbn; unfold MaxOutputCoin; lia|vm_compute; lia|vm_compute; lia|].
    destruct (Hok 2 (or_intror eq_refl)) as (d & E & Ec & El & Hv).
    rewrite Z.eqb_refl in E. exists g, h, ag, d. split; [exact Eag|]. split; [exact E|]. split; [exact Ec|]. split; [|exact Hv].
    apply (Nat.pow_inj_r 2); [lia|]. exact (eq_sym El).
Defined.

Definition toy_data : proof_data :=
  mkProofData [toy_write 3] (toy_write 4) (toy_write 5) (toy_write 6) (toy_write 7) (key_of 8) (key_of 9)
    (key_of 10) [toy_write 11] [toy_write 12] (key_of 13) (key_of 14) (toy_write 15).

Lemma toy_data_ok : data_ok toy_data.
Proof.
  unfold data_ok, toy_data. cbn [pd_cms pd_a pd_s pd_t1 pd_t2 pd_tauX pd_tHat pd_mu pd_l pd_r pd_ipa pd_ipb pd_p].
  repeat split; try (by eexists); try apply key_of_ok; try (by apply toy_scalar);
    repeat constructor; by eexists.
Qed.

Lemma range_proof_roundtrip_witness : exists b,
  RangeProof_Bytes (proof_of 2 toy_data) = Ok b /\
  RangeProof_SetBytes b RangeProof_new = (proof_of 2 toy_data, Ok tt).
Proof.
  destruct range_proof_roundtrip as [Hrt _].
  apply Hrt; [exact toy_data_ok|cbn; lia|cbn; lia|lia].
Defined.

Lemma asset_proof_verifies_witness : exists h wit' ag d,
  index PedG PedersenRandomnessIndex = Ok h /\
  TransformWitnessToCAWitness toy_range_witness [key_of 21] = Ok wit' /\
  let base := Point_Add (toy_write 31) (Point_ScalarMult h (key_of 21)) in
  Witness_ProveUsingBase toy_rnd toy_params base wit' PedG =
    (<[PedersenValueIndex := base]> PedG, Ok (proof_of 2 d)) /\
  (range_invertible (bp_cs ag) 2 d -> range_check ag base h 2 d = Ok true).
Proof.
  destruct (PedG_index PedersenRandomnessIndex) as (h & Eh & Hh); [unfold PedersenRandomnessIndex; lia|].
  destruct (asset_proof_verifies toy_rnd toy_params toy_range_witness [key_of 21] (toy_write 31) h PedG)
    as [Hok _].
  - exact toy_params_ok.
  - exact toy_rnd_ok.
  - split; [exact toy_u64|]. split; [exact (toy_scalars [3] ltac:(repeat constructor; lia))|].
    split; [reflexivity|cbn; unfold MaxOutputCoin; lia].
  - exact (toy_scalars [21] ltac:(repeat constructor; lia)).
  - by eexists.
  - exact Eh.
  - exact Eh.
  - vm_compute. lia.
  - vm_compute. lia.
  - destruct Hok as (wit' & ag & d & Ew & _ & E & _ & Hv); [reflexivity|discriminate|].
    exists h, wit', ag, d. split; [exact Eh|]. split; [exact Ew|]. split; [exact E|exact Hv].
Defined.
