(* ===== verification/Sigma.v ===== *)
(** * Sigma.v: the serial-number proofs (packages serialnumberprivacy and serialnumbernoprivacy)

    The sigma protocols of version-1 payments: the prover knows the secret key
    (and the serial-number derivator) behind a serial number
    [sn = (sk + snd)^-1 G[0]].  The random scalars of [Prove] are arguments.
    The verifiers are part of the nodes; [sn_verify] and [snnp_verify] are their
    equations. *)

From stdpp Require Import base list gmap strings.
From Stdlib Require Import ZArith Lia Ring.
From S2P Require Import Prelude Cursor Common Hashing Crypto Key Base58 Base58Check Wallet CoinV2 CoinV1 Linear Bulletproof.
Open Scope Z_scope.

(** [new(crypto.Point)] and [new(crypto.Scalar)]: 32 zero bytes. *)
Definition new_key : list Z := replicate Ed25519KeySize 0.

Section sigma.
Context `{CO : CurveOps} `{DG : Digests}.

(** [utils.GenerateChallenge]: the hash of the generators and of the values. *)
Definition GenerateChallenge (values : list (list Z)) : option (list Z) :=
  HashToScalar (concat PedG ++ concat values).

(** The next 32 bytes of [mem], without a test of their own.  [mem] is what
    the slice can reach: its bytes, then those up to its capacity. *)
Definition take_point {T} (set : option (list Z) -> T -> T) (mem : list Z) (offset : nat) : st T nat :=
  let! b := st_lift (slice mem offset (offset + Ed25519KeySize)) in
  st_assign set None "invalid point value"
    (let* p := Point_FromBytesS b in Ok (Some p, (offset + Ed25519KeySize)%nat)).

Definition take_scalar {T} (set : option (list Z) -> T -> T) (mem : list Z) (offset : nat) : st T nat :=
  let! b := st_lift (slice mem offset (offset + Ed25519KeySize)) in
  let! _ := st_put (set (Some (Scalar_FromBytesS b))) in
  st_ret (offset + Ed25519KeySize)%nat.

(** ** Without privacy *)

Record SNNoPrivacyStatement := mkSNNoPrivacyStatement {
  nn_sn : option (list Z); nn_pubKey : option (list Z); nn_snd : option (list Z) }.
Record SNNoPrivacyWitness := mkSNNoPrivacyWitness {
  nw_stmt : SNNoPrivacyStatement; nw_seed : option (list Z) }.
Record SNNoPrivacyProof := mkSNNoPrivacyProof {
  np_stmt : SNNoPrivacyStatement;
  np_tSeed : option (list Z); np_tOutput : option (list Z); np_zSeed : option (list Z) }.

Definition SNNoPrivacyProof_Init : SNNoPrivacyProof :=
  mkSNNoPrivacyProof (mkSNNoPrivacyStatement (Some new_key) (Some new_key) (Some new_key))
    (Some new_key) (Some new_key) (Some new_key).

Definition SNNoPrivacyWitness_Set (output vKey input seed : option (list Z)) : SNNoPrivacyWitness :=
  mkSNNoPrivacyWitness (mkSNNoPrivacyStatement output vKey input) seed.

Definition SNNoPrivacyProof_Set (output vKey input tSeed tOutput zSeed : option (list Z)) : SNNoPrivacyProof :=
  mkSNNoPrivacyProof (mkSNNoPrivacyStatement output vKey input) tSeed tOutput zSeed.

Definition SNNoPrivacyProof_isNil (p : SNNoPrivacyProof) : bool :=
  is_nil (nn_sn (np_stmt p)) || is_nil (nn_pubKey (np_stmt p)) || is_nil (nn_snd (np_stmt p)) ||
  is_nil (np_tSeed p) || is_nil (np_tOutput p) || is_nil (np_zSeed p).

Definition SNNoPrivacyProof_Bytes (p : SNNoPrivacyProof) : res (list Z) :=
  if SNNoPrivacyProof_isNil p then Ok []
  else
    let* sn := deref (nn_sn (np_stmt p)) in
    let* pubKey := deref (nn_pubKey (np_stmt p)) in
    let* snd := deref (nn_snd (np_stmt p)) in
    let* tSeed := deref (np_tSeed p) in
    let* tOutput := deref (np_tOutput p) in
    let* zSeed := deref (np_zSeed p) in
    Ok (sn ++ pubKey ++ snd ++ tSeed ++ tOutput ++ zSeed).

Definition set_nn_sn v p := mkSNNoPrivacyProof
  (mkSNNoPrivacyStatement v (nn_pubKey (np_stmt p)) (nn_snd (np_stmt p))) (np_tSeed p) (np_tOutput p) (np_zSeed p).
Definition set_nn_pubKey v p := mkSNNoPrivacyProof
  (mkSNNoPrivacyStatement (nn_sn (np_stmt p)) v (nn_snd (np_stmt p))) (np_tSeed p) (np_tOutput p) (np_zSeed p).
Definition set_nn_snd v p := mkSNNoPrivacyProof
  (mkSNNoPrivacyStatement (nn_sn (np_stmt p)) (nn_pubKey (np_stmt p)) v) (np_tSeed p) (np_tOutput p) (np_zSeed p).
Definition set_np_tSeed v p := mkSNNoPrivacyProof (np_stmt p) v (np_tOutput p) (np_zSeed p).
Definition set_np_tOutput v p := mkSNNoPrivacyProof (np_stmt p) (np_tSeed p) v (np_zSeed p).
Definition set_np_zSeed v p := mkSNNoPrivacyProof (np_stmt p) (np_tSeed p) (np_tOutput p) v.

(** The derivator is written through the pointer the receiver has. *)
Definition SNNoPrivacyProof_SetBytes (bytes : list Z) : st SNNoPrivacyProof unit :=
  if (length bytes <? Ed25519KeySize * 6)%nat
  then st_fail "not enough bytes to unmarshal Serial Number No Privacy Proof"
  else
    let! offset := take_point set_nn_sn bytes 0 in
    let! offset := take_point set_nn_pubKey bytes offset in
    let! b := st_lift (slice bytes offset (offset + Ed25519KeySize)) in
    let! _ := (fun p => match nn_snd (np_stmt p) with
                        | Some _ => (set_nn_snd (Some (Scalar_FromBytesS b)) p, Ok tt)
                        | None => (p, Panic)
                        end) in
    let offset := (offset + Ed25519KeySize)%nat in
    let! offset := take_point set_np_tSeed bytes offset in
    let! offset := take_point set_np_tOutput bytes offset in
    let! _ := take_scalar set_np_zSeed bytes offset in
    st_ret tt.

Definition SNNoPrivacyWitness_Prove (eSK : list Z) (mess : option (list Z)) (wit : SNNoPrivacyWitness)
    : res SNNoPrivacyProof :=
  let* g := index PedG PedersenPrivateKeyIndex in
  let tSK := Point_ScalarMult g eSK in
  let* sn := deref (nn_sn (nw_stmt wit)) in
  let tE := Point_ScalarMult sn eSK in
  let* x := match mess with
            | None => let* pubKey := deref (nn_pubKey (nw_stmt wit)) in
                      deref (GenerateChallenge [sn; pubKey; tSK; tE])
            | Some m => Ok (Scalar_FromBytesS m)
            end in
  let* seed := deref (nw_seed wit) in
  let zSK := Scalar_Add (Scalar_Mul seed x) eSK in
  Ok (SNNoPrivacyProof_Set (nn_sn (nw_stmt wit)) (nn_pubKey (nw_stmt wit)) (nn_snd (nw_stmt wit))
        (Some tSK) (Some tE) (Some zSK)).

(** ** With privacy *)

Record SerialNumberPrivacyStatement := mkSerialNumberPrivacyStatement {
  sn_sn : option (list Z); sn_comSK : option (list Z); sn_comInput : option (list Z) }.
Record SNPrivacyWitness := mkSNPrivacyWitness {
  sw_stmt : option SerialNumberPrivacyStatement;
  sw_sk : option (list Z); sw_rSK : option (list Z);
  sw_input : option (list Z); sw_rInput : option (list Z) }.
Record SNPrivacyProof := mkSNPrivacyProof {
  spr_stmt : option SerialNumberPrivacyStatement;
  spr_tSK : option (list Z); spr_tInput : option (list Z); spr_tSN : option (list Z);
  spr_zSK : option (list Z); spr_zRSK : option (list Z);
  spr_zInput : option (list Z); spr_zRInput : option (list Z) }.

(** The fields of the new statement are [nil]. *)
Definition SNPrivacyProof_Init : SNPrivacyProof :=
  mkSNPrivacyProof (Some (mkSerialNumberPrivacyStatement None None None))
    (Some new_key) (Some new_key) (Some new_key) (Some new_key) (Some new_key) (Some new_key) (Some new_key).

Definition SerialNumberPrivacyStatement_Set (sn comSK comInput : option (list Z)) : SerialNumberPrivacyStatement :=
  mkSerialNumberPrivacyStatement sn comSK comInput.

Definition SNPrivacyProof_isNil (p : SNPrivacyProof) : res bool :=
  let* s := deref (spr_stmt p) in
  Ok (is_nil (sn_sn s) || is_nil (sn_comSK s) || is_nil (sn_comInput s) ||
      is_nil (spr_tSK p) || is_nil (spr_tInput p) || is_nil (spr_tSN p) ||
      is_nil (spr_zSK p) || is_nil (spr_zRSK p) || is_nil (spr_zInput p) || is_nil (spr_zRInput p)).

Definition SNPrivacyProof_Bytes (p : SNPrivacyProof) : res (list Z) :=
  let* b := SNPrivacyProof_isNil p in
  if b then Ok []
  else
    let* s := deref (spr_stmt p) in
    let* sn := deref (sn_sn s) in
    let* comSK := deref (sn_comSK s) in
    let* comInput := deref (sn_comInput s) in
    let* tSK := deref (spr_tSK p) in
    let* tInput := deref (spr_tInput p) in
    let* tSN := deref (spr_tSN p) in
    let* zSK := deref (spr_zSK p) in
    let* zRSK := deref (spr_zRSK p) in
    let* zInput := deref (spr_zInput p) in
    let* zRInput := deref (spr_zRInput p) in
    Ok (sn ++ comSK ++ comInput ++ tSK ++ tInput ++ tSN ++ zSK ++ zRSK ++ zInput ++ zRInput).

Definition set_stmt (f : SerialNumberPrivacyStatement -> SerialNumberPrivacyStatement) p :=
  mkSNPrivacyProof (option_map f (spr_stmt p)) (spr_tSK p) (spr_tInput p) (spr_tSN p)
    (spr_zSK p) (spr_zRSK p) (spr_zInput p) (spr_zRInput p).
Definition set_sn_sn v := set_stmt (fun s => mkSerialNumberPrivacyStatement v (sn_comSK s) (sn_comInput s)).
Definition set_sn_comSK v := set_stmt (fun s => mkSerialNumberPrivacyStatement (sn_sn s) v (sn_comInput s)).
Definition set_sn_comInput v := set_stmt (fun s => mkSerialNumberPrivacyStatement (sn_sn s) (sn_comSK s) v).
Definition set_spr_tSK v p := mkSNPrivacyProof (spr_stmt p) v (spr_tInput p) (spr_tSN p)
  (spr_zSK p) (spr_zRSK p) (spr_zInput p) (spr_zRInput p).
Definition set_spr_tInput v p := mkSNPrivacyProof (spr_stmt p) (spr_tSK p) v (spr_tSN p)
  (spr_zSK p) (spr_zRSK p) (spr_zInput p) (spr_zRInput p).
Definition set_spr_tSN v p := mkSNPrivacyProof (spr_stmt p) (spr_tSK p) (spr_tInput p) v
  (spr_zSK p) (spr_zRSK p) (spr_zInput p) (spr_zRInput p).
Definition set_spr_zSK v p := mkSNPrivacyProof (spr_stmt p) (spr_tSK p) (spr_tInput p) (spr_tSN p)
  v (spr_zRSK p) (spr_zInput p) (spr_zRInput p).
Definition set_spr_zRSK v p := mkSNPrivacyProof (spr_stmt p) (spr_tSK p) (spr_tInput p) (spr_tSN p)
  (spr_zSK p) v (spr_zInput p) (spr_zRInput p).
Definition set_spr_zInput v p := mkSNPrivacyProof (spr_stmt p) (spr_tSK p) (spr_tInput p) (spr_tSN p)
  (spr_zSK p) (spr_zRSK p) v (spr_zRInput p).
Definition set_spr_zRInput v p := mkSNPrivacyProof (spr_stmt p) (spr_tSK p) (spr_tInput p) (spr_tSN p)
  (spr_zSK p) (spr_zRSK p) (spr_zInput p) v.

(** Nine keys are asked for and ten are read; [beyond] is what lies between the
    length and the capacity of [bytes].  Each field of the statement is first
    given a new point, the first such assignment being the one a [nil] statement
    would not survive. *)
Definition SNPrivacyProof_SetBytes (bytes beyond : list Z) : st SNPrivacyProof unit :=
  if (length bytes =? 0)%nat then st_fail "bytes array is empty"
  else if (length bytes <? 9 * Ed25519KeySize)%nat
  then st_fail "not enough bytes to unmarshal Serial Number Proof"
  else
    let mem := bytes ++ beyond in
    let! _ := (fun p => (p, let* _ := deref (spr_stmt p) in Ok tt)) in
    let! _ := st_put (set_sn_sn (Some new_key)) in
    let! offset := take_point set_sn_sn mem 0 in
    let! _ := st_put (set_sn_comSK (Some new_key)) in
    let! offset := take_point set_sn_comSK mem offset in
    let! _ := st_put (set_sn_comInput (Some new_key)) in
    let! offset := take_point set_sn_comInput mem offset in
    let! _ := st_put (set_spr_tSK (Some new_key)) in
    let! offset := take_point set_spr_tSK mem offset in
    let! _ := st_put (set_spr_tInput (Some new_key)) in
    let! offset := take_point set_spr_tInput mem offset in
    let! _ := st_put (set_spr_tSN (Some new_key)) in
    let! offset := take_point set_spr_tSN mem offset in
    let! offset := take_scalar set_spr_zSK mem offset in
    let! offset := take_scalar set_spr_zRSK mem offset in
    let! offset := take_scalar set_spr_zInput mem offset in
    let! _ := take_scalar set_spr_zRInput mem offset in
    st_ret tt.

(** [(eSK, eSND, dSK, dSND)] are the random scalars. *)
Definition SNPrivacyWitness_Prove (eSK eSND dSK dSND : list Z) (mess : option (list Z))
    (wit : SNPrivacyWitness) : res SNPrivacyProof :=
  let* tSeed := CommitAtIndex PedG eSK dSK PedersenPrivateKeyIndex in
  let* tInput := CommitAtIndex PedG eSND dSND PedersenSndIndex in
  let* stmt := deref (sw_stmt wit) in
  let* sn := deref (sn_sn stmt) in
  let tOutput := Point_ScalarMult sn (Scalar_Add eSK eSND) in
  let* x := match mess with
            | None => let* comSK := deref (sn_comSK stmt) in
                      deref (GenerateChallenge [sn; comSK; tSeed; tInput; tOutput])
            | Some m => Ok (Scalar_FromBytesS m)
            end in
  let* sk := deref (sw_sk wit) in
  let* rSK := deref (sw_rSK wit) in
  let* input := deref (sw_input wit) in
  let* rInput := deref (sw_rInput wit) in
  Ok (mkSNPrivacyProof (sw_stmt wit) (Some tSeed) (Some tInput) (Some tOutput)
        (Some (Scalar_Add (Scalar_Mul sk x) eSK)) (Some (Scalar_Add (Scalar_Mul rSK x) dSK))
        (Some (Scalar_Add (Scalar_Mul input x) eSND)) (Some (Scalar_Add (Scalar_Mul rInput x) dSND))).

(** ** Specification: the verification equations *)

(** [zSeed G[0] = x PK + tSeed] and [(zSeed + x snd) sn = x G[0] + tOutput]. *)
Definition snnp_verify (mess : option (list Z)) (p : SNNoPrivacyProof) : res bool :=
  let* g := index PedG PedersenPrivateKeyIndex in
  let* sn := deref (nn_sn (np_stmt p)) in
  let* pubKey := deref (nn_pubKey (np_stmt p)) in
  let* snd := deref (nn_snd (np_stmt p)) in
  let* tSeed := deref (np_tSeed p) in
  let* tOutput := deref (np_tOutput p) in
  let* zSeed := deref (np_zSeed p) in
  let* x := match mess with
            | None => deref (GenerateChallenge [sn; pubKey; tSeed; tOutput])
            | Some m => Ok (Scalar_FromBytesS m)
            end in
  Ok (IsPointEqual (Point_ScalarMult g zSeed) (Point_Add (Point_ScalarMult pubKey x) tSeed) &&
      IsPointEqual (Point_ScalarMult sn (Scalar_Add zSeed (Scalar_Mul x snd)))
        (Point_Add (Point_ScalarMult g x) tOutput)).

(** [Com(zSK, zRSK) = x comSK + tSK], [Com(zInput, zRInput) = x comInput + tInput]
    and [(zSK + zInput) sn = x G[0] + tSN]. *)
Definition sn_verify (mess : option (list Z)) (p : SNPrivacyProof) : res bool :=
  let* g := index PedG PedersenPrivateKeyIndex in
  let* stmt := deref (spr_stmt p) in
  let* sn := deref (sn_sn stmt) in
  let* comSK := deref (sn_comSK stmt) in
  let* comInput := deref (sn_comInput stmt) in
  let* tSK := deref (spr_tSK p) in
  let* tInput := deref (spr_tInput p) in
  let* tSN := deref (spr_tSN p) in
  let* zSK := deref (spr_zSK p) in
  let* zRSK := deref (spr_zRSK p) in
  let* zInput := deref (spr_zInput p) in
  let* zRInput := deref (spr_zRInput p) in
  let* x := match mess with
            | None => deref (GenerateChallenge [sn; comSK; tSK; tInput; tSN])
            | Some m => Ok (Scalar_FromBytesS m)
            end in
  let* left1 := CommitAtIndex PedG zSK zRSK PedersenPrivateKeyIndex in
  let* left2 := CommitAtIndex PedG zInput zRInput PedersenSndIndex in
  Ok (IsPointEqual left1 (Point_Add (Point_ScalarMult comSK x) tSK) &&
      IsPointEqual left2 (Point_Add (Point_ScalarMult comInput x) tInput) &&
      IsPointEqual (Point_ScalarMult sn (Scalar_Add zSK zInput)) (Point_Add (Point_ScalarMult g x) tSN)).

Definition snnp_ok (p : SNNoPrivacyProof) : Prop :=
  exists sn pubKey snd tSeed tOutput zSeed,
    p = SNNoPrivacyProof_Set (Some sn) (Some pubKey) (Some snd) (Some tSeed) (Some tOutput) (Some zSeed) /\
    pt_ok sn /\ pt_ok pubKey /\ sc_ok snd /\ pt_ok tSeed /\ pt_ok tOutput /\ sc_ok zSeed.

Definition snp_ok (p : SNPrivacyProof) : Prop :=
  exists sn comSK comInput tSK tInput tSN zSK zRSK zInput zRInput,
    p = mkSNPrivacyProof (Some (mkSerialNumberPrivacyStatement (Some sn) (Some comSK) (Some comInput)))
          (Some tSK) (Some tInput) (Some tSN) (Some zSK) (Some zRSK) (Some zInput) (Some zRInput) /\
    Forall pt_ok [sn; comSK; comInput; tSK; tInput; tSN] /\ Forall sc_ok [zSK; zRSK; zInput; zRInput].
End sigma.

(** ** Lemmas *)

Create HintDb points.
#[export] Hint Resolve pmul_pt pt_add lin_pt pt_identity sc_ok_sc : points.


Section laws.
Context `{CL : CurveLaws} `{DL : DigestLaws}.

Lemma CommitAtIndex_sc G g h i a b : index G i = Ok g -> index G PedersenRandomnessIndex = Ok h ->
  pt_ok g -> pt_ok h -> CommitAtIndex G (sc a) (sc b) i = Ok (AddKeys (pmul g a) (pmul h b)).
Proof using CL.
  intros Eg Eh Hg Hh. unfold CommitAtIndex. rewrite Eg, Eh. cbn [res_bind]. f_equal.
  by apply add_pedersen_sc.
Qed.

Lemma pt_bytes p : pt_ok p -> bytes_ok p.
Proof using CL. intros Hp. exact (proj2 (proj1 (pt_key p Hp))). Qed.

Lemma pt_length p : pt_ok p -> length p = 32%nat.
Proof using CL. intros Hp. exact (proj1 (proj1 (pt_key p Hp))). Qed.

Lemma sc_length s : sc_ok s -> length s = 32%nat.
Proof using Type. intros Hs. exact (proj1 (proj1 Hs)). Qed.

Lemma GenerateChallenge_sc values : Forall bytes_ok values ->
  exists x, GenerateChallenge values = Some (sc x).
Proof using CL DL.
  intros Hv. unfold GenerateChallenge.
  destruct (HashToScalar_ok (concat PedG ++ concat values)) as (s & E & _ & Hs).
  - apply Forall_app. split; apply Forall_concat; [|exact Hv].
    eapply Forall_impl; [exact (proj1 PedG_ok)|]. exact pt_bytes.
  - exists (key_val s). by rewrite <- sc_repr.
Qed.

(** The generators of the key, of the derivator and of the randomness. *)
Lemma PedG_at : exists g0 g2 h,
  index PedG PedersenPrivateKeyIndex = Ok g0 /\ index PedG PedersenSndIndex = Ok g2 /\
  index PedG PedersenRandomnessIndex = Ok h /\ pt_ok g0 /\ pt_ok g2 /\ pt_ok h.
Proof using CL DL.
  destruct PedG_list as (g0 & g1 & g2 & g3 & h & EG & HG). rewrite EG. exists g0, g2, h.
  rewrite !Forall_cons in HG. destruct HG as (? & _ & ? & _ & ? & _). repeat split; done.
Qed.

(** A serial number: the generator times the inverse of [sk + snd]. *)
Lemma Point_Derive_sc g a b : exists i, Point_Derive g (sc a) (sc b) = Ok (pmul g i) /\
  (Z.gcd (key_val (sc (a + b))) order = 1 -> i * (a + b) ≡ₒ 1).
Proof using CL.
  destruct (Invert_sc (a + b)) as (i & E & Hi). exists i. split; [|exact Hi].
  unfold Point_Derive, Point_InvertScalarMult, Scalar_Add. by rewrite ScAdd_sc, E.
Qed.

Lemma take_point_rest {T B} (set : option (list Z) -> T -> T) mem off k post (K : nat -> st T B) s :
  rest mem off (k ++ post) -> pt_ok k ->
  st_bind (take_point set mem off) K s = K (off + 32)%nat (set (Some k) s).
Proof using CL.
  intros Hr Hk. apply st_bind_run. unfold take_point, Ed25519KeySize.
  rewrite (st_bind_lift _ k) by (by eapply slice_rest; [exact Hr|apply pt_length]).
  unfold st_assign. by rewrite FromBytesS_pt.
Qed.

Lemma take_scalar_rest {T B} (set : option (list Z) -> T -> T) mem off k post (K : nat -> st T B) s :
  rest mem off (k ++ post) -> sc_ok k ->
  st_bind (take_scalar set mem off) K s = K (off + 32)%nat (set (Some k) s).
Proof using Type.
  intros Hr Hk. apply st_bind_run. unfold take_scalar, Ed25519KeySize.
  rewrite (st_bind_lift _ k) by (by eapply slice_rest; [exact Hr|apply sc_length]).
  rewrite st_bind_put. by rewrite FromBytesS_exact by apply Hk.
Qed.
End laws.


(** The cursor at the start of what is read. *)
Ltac start_cursor R :=
  match goal with |- context [take_point _ ?mem 0%nat] => pose proof (rest_start mem) as R end.

(** One field: perform the read and move the cursor [R]. *)
Ltac take_pt R :=
  erewrite take_point_rest; [|exact R|assumption]; cbv beta;
  apply (rest_move _ _ 32) in R; [|by apply pt_length].
Ltac take_sc R :=
  erewrite take_scalar_rest; [|exact R|assumption]; cbv beta;
  apply (rest_move _ _ 32) in R; [|by apply sc_length].

Ltac split_all :=
  repeat match goal with H : Forall _ (_ :: _) |- _ => apply Forall_cons in H as [? H] end.

(** The lengths of the fields. *)
Ltac key_lengths :=
  rewrite ?length_app;
  repeat match goal with
         | H : pt_ok ?p |- context [length ?p] => rewrite (pt_length p H)
         | H : sc_ok ?p |- context [length ?p] => rewrite (sc_length p H)
         end.

Section bytes.
Context `{CL : CurveLaws} `{DL : DigestLaws}.

(** The byte forms are read back, whatever follows them. *)
Lemma SNNoPrivacy_roundtrip p p0 post : snnp_ok p -> nn_snd (np_stmt p0) <> None ->
  exists b, SNNoPrivacyProof_Bytes p = Ok b /\ length b = 192%nat /\
    SNNoPrivacyProof_SetBytes (b ++ post) p0 = (p, Ok tt).
Proof using CL.
  intros (sn & pk & snd & ts & to & zs & -> & Hsn & Hpk & Hsnd & Hts & Hto & Hzs) Hp0.
  eexists. split; [reflexivity|].
  assert (length (sn ++ pk ++ snd ++ ts ++ to ++ zs) = 192%nat) as Hl.
  { key_lengths. reflexivity. }
  split; [exact Hl|]. unfold SNNoPrivacyProof_SetBytes.
  rewrite (proj2 (Nat.ltb_ge _ _)) by (rewrite length_app, Hl; unfold Ed25519KeySize; lia).
  rewrite <- !app_assoc. start_cursor R.
  take_pt R. take_pt R.
  rewrite (st_bind_lift _ snd) by (eapply slice_rest; [exact R|by apply sc_length]).
  apply (rest_move _ _ 32) in R; [|by apply sc_length].
  destruct p0 as [[sn0 pk0 [snd0|]] ts0 to0 zs0]; [|by elim Hp0].
  rewrite FromBytesS_exact by apply Hsnd.
  erewrite st_bind_run by reflexivity. cbv zeta. take_pt R. take_pt R. take_sc R. reflexivity.
Qed.

Lemma SNPrivacy_roundtrip p p0 post beyond : snp_ok p -> spr_stmt p0 <> None ->
  exists b, SNPrivacyProof_Bytes p = Ok b /\ length b = 320%nat /\
    SNPrivacyProof_SetBytes (b ++ post) beyond p0 = (p, Ok tt).
Proof using CL.
  intros (sn & cs & ci & ts & ti & tn & zs & zr & zi & zri & -> & Hp & Hs) Hp0.
  split_all.
  eexists. split; [reflexivity|].
  set (b := _ ++ _). assert (length b = 320%nat) as Hl.
  { unfold b. key_lengths. reflexivity. }
  split; [exact Hl|]. unfold SNPrivacyProof_SetBytes.
  rewrite (proj2 (Nat.eqb_neq _ _)), (proj2 (Nat.ltb_ge _ _)) by (rewrite length_app, Hl; unfold Ed25519KeySize; lia).
  unfold b. rewrite <- !app_assoc. start_cursor R.
  destruct p0 as [[s0|] ts0 ti0 tn0 zs0 zr0 zi0 zri0]; [|by elim Hp0].
  cbv zeta. erewrite st_bind_run by reflexivity.
  do 6 (rewrite st_bind_put; take_pt R). do 4 take_sc R. reflexivity.
Qed.
End bytes.


Section complete.
Context `{CL : CurveLaws} `{DL : DigestLaws}.

(** The challenge of a proof of which the transcript, or the given bytes, are known. *)
Lemma challenge_scalar mess vals : Forall bytes_ok vals ->
  (forall m, mess = Some m -> sc_ok (Scalar_FromBytesS m)) ->
  exists x, match mess with
            | None => deref (GenerateChallenge vals)
            | Some m => Ok (Scalar_FromBytesS m)
            end = Ok (sc x).
Proof using CL DL.
  intros Hv Hm. destruct mess as [m|].
  - exists (key_val (Scalar_FromBytesS m)). by rewrite <- sc_repr by (by apply Hm).
  - destruct (GenerateChallenge_sc vals Hv) as (x & ->). by exists x.
Qed.

Lemma point_eq_true p q : p = q -> IsPointEqual p q = true.
Proof using Type. intros ->. unfold IsPointEqual. by apply bool_decide_true. Qed.
End complete.

(** Write every scalar as the scalar of an integer. *)
Ltac as_scalars :=
  repeat match goal with
         | H : sc_ok ?s |- _ =>
             is_var s; rewrite (sc_repr s H) in *; generalize dependent (key_val s);
             clear s H; intros s; intros
         end.

Import ScalarRing.

Section theorems.
Context `{CL : CurveLaws} `{DL : DigestLaws}.

(** The witness of an honest owner: the statement commits to the key and the
    derivator, and its serial number is the one derived from both. *)
Definition sn_honest (wit : SNPrivacyWitness) : Prop :=
  exists sk rSK snd rSND g sn comSK comInput,
    wit = mkSNPrivacyWitness (Some (mkSerialNumberPrivacyStatement (Some sn) (Some comSK) (Some comInput)))
            (Some sk) (Some rSK) (Some snd) (Some rSND) /\
    Forall sc_ok [sk; rSK; snd; rSND] /\
    index PedG PedersenPrivateKeyIndex = Ok g /\ Point_Derive g sk snd = Ok sn /\
    CommitAtIndex PedG sk rSK PedersenPrivateKeyIndex = Ok comSK /\
    CommitAtIndex PedG snd rSND PedersenSndIndex = Ok comInput.

(** The sum that the serial number inverts is invertible. *)
Definition sn_invertible (wit : SNPrivacyWitness) : Prop :=
  match sw_sk wit, sw_input wit with
  | Some sk, Some snd => Z.gcd (key_val (Scalar_Add sk snd)) order = 1
  | _, _ => False
  end.

Lemma sn_complete eSK eSND dSK dSND mess wit : Forall sc_ok [eSK; eSND; dSK; dSND] ->
  (forall m, mess = Some m -> sc_ok (Scalar_FromBytesS m)) -> sn_honest wit ->
  exists p, SNPrivacyWitness_Prove eSK eSND dSK dSND mess wit = Ok p /\
    spr_stmt p = sw_stmt wit /\ snp_ok p /\ (sn_invertible wit -> sn_verify mess p = Ok true).
Proof using CL DL.
  intros Hrs Hm (sk & rSK & snd & rSND & g & sn & comSK & comInput & -> & Hs & Eg & Esn & Ecs & Eci).
  unfold sn_invertible.
  cbn [sw_stmt sw_sk sw_input]. split_all.
  destruct PedG_at as (g0 & g2 & h & E0 & E2 & E4 & ? & ? & ?).
  rewrite E0 in Eg. injection Eg as <-.
  as_scalars. destruct (Point_Derive_sc g0 sk snd) as (i & Ei & Hi). rewrite Ei in Esn. injection Esn as <-.
  rewrite (CommitAtIndex_sc PedG g0 h) in Ecs by assumption. injection Ecs as <-.
  rewrite (CommitAtIndex_sc PedG g2 h) in Eci by assumption. injection Eci as <-.
  unfold SNPrivacyWitness_Prove. cbn [sw_stmt sw_sk sw_rSK sw_input sw_rInput].
  rewrite (CommitAtIndex_sc PedG g0 h), (CommitAtIndex_sc PedG g2 h) by assumption. cbn [res_bind deref sn_sn sn_comSK].
  unfold Point_ScalarMult, Scalar_Add, Scalar_Mul. rewrite ScAdd_sc.
  set (tSK := AddKeys (pmul g0 eSK) _). set (tIn := AddKeys (pmul g2 eSND) _).
  change (ScalarMultKey (pmul g0 i) (sc (eSK + eSND))) with (pmul (pmul g0 i) (eSK + eSND)).
  set (tSN := pmul (pmul g0 i) _). set (cSK := AddKeys (pmul g0 sk) _).
  destruct (challenge_scalar mess [pmul g0 i; cSK; tSK; tIn; tSN]) as (x & Ex).
  { repeat constructor; apply pt_bytes; unfold tSN, cSK, tIn, tSK; auto 6 with points. }
  { exact Hm. }
  rewrite Ex. cbn [res_bind]. rewrite !ScMul_sc, !ScAdd_sc. eexists. split; [reflexivity|].
  split; [reflexivity|]. split.
  { do 10 eexists. split; [reflexivity|].
    split; repeat (apply Forall_cons_2; [|]); try apply Forall_nil_2; try apply sc_ok_sc;
      unfold tSN, cSK, tIn, tSK; auto 6 with points. }
  intros Hg. specialize (Hi Hg). unfold sn_verify.
  rewrite E0. cbn [res_bind deref spr_stmt spr_tSK spr_tInput spr_tSN spr_zSK spr_zRSK spr_zInput spr_zRInput
    sn_sn sn_comSK sn_comInput]. fold cSK. rewrite Ex. cbn [res_bind].
  rewrite (CommitAtIndex_sc PedG g0 h), (CommitAtIndex_sc PedG g2 h) by assumption. cbn [res_bind].
  unfold Point_ScalarMult, Point_Add, Scalar_Add. rewrite ScAdd_sc.
  repeat match goal with |- context [ScalarMultKey ?p (sc ?z)] => change (ScalarMultKey p (sc z)) with (pmul p z) end.
  rewrite !point_eq_true; [reflexivity|..]; unfold tSN, cSK, tIn, tSK; rewrite ?pmul_add_pt, ?pmul_mul by auto with points.
  - rewrite <- pmul_add by assumption. apply pmul_proper.
    transitivity (i * (sk + snd) * x + i * (eSK + eSND)); [ring|]. rewrite Hi. ring.
  - module_with ltac:(try ring).
  - module_with ltac:(try ring).
Qed.

(** C14: the proof of a private serial number: for the statement a payment builds
    (the commitments to the key and to the derivator, and the serial number
    derived from both) [Prove] returns a proof of that statement, with a
    challenge hashed from the transcript or given as bytes, and the proof
    satisfies the three verification equations whenever the sum that the serial
    number inverts is invertible. *)
Theorem sn_privacy_complete sk rSK snd rSND eSK eSND dSK dSND mess g sn comSK comInput :
  Forall sc_ok [sk; rSK; snd; rSND; eSK; eSND; dSK; dSND] ->
  (forall m, mess = Some m -> sc_ok (Scalar_FromBytesS m)) ->
  index PedG PedersenPrivateKeyIndex = Ok g -> Point_Derive g sk snd = Ok sn ->
  CommitAtIndex PedG sk rSK PedersenPrivateKeyIndex = Ok comSK ->
  CommitAtIndex PedG snd rSND PedersenSndIndex = Ok comInput ->
  let stmt := mkSerialNumberPrivacyStatement (Some sn) (Some comSK) (Some comInput) in
  exists p, SNPrivacyWitness_Prove eSK eSND dSK dSND mess
      (mkSNPrivacyWitness (Some stmt) (Some sk) (Some rSK) (Some snd) (Some rSND)) = Ok p /\
    spr_stmt p = Some stmt /\ snp_ok p /\
    (Z.gcd (key_val (Scalar_Add sk snd)) order = 1 -> sn_verify mess p = Ok true).
Proof using CL DL.
  intros Hs Hm Eg Esn Ecs Eci stmt. split_all.
  destruct (sn_complete eSK eSND dSK dSND mess (mkSNPrivacyWitness (Some stmt) (Some sk) (Some rSK) (Some snd) (Some rSND)))
    as (p & E & Es & Hp & Hv).
  - by repeat (apply Forall_cons_2; [assumption|]); apply Forall_nil_2.
  - exact Hm.
  - exists sk, rSK, snd, rSND, g, sn, comSK, comInput. split; [reflexivity|].
    split; [by repeat (apply Forall_cons_2; [assumption|]); apply Forall_nil_2|]. by repeat split.
  - by exists p.
Qed.

(** The same without privacy: the statement holds the public key and the
    derivator themselves, and the proof satisfies both verification equations. *)
Lemma sn_no_privacy_complete sk snd eSK mess g sn :
  Forall sc_ok [sk; snd; eSK] ->
  (forall m, mess = Some m -> sc_ok (Scalar_FromBytesS m)) ->
  index PedG PedersenPrivateKeyIndex = Ok g -> Point_Derive g sk snd = Ok sn ->
  let pubKey := Point_ScalarMult g sk in
  exists p, SNNoPrivacyWitness_Prove eSK mess
      (SNNoPrivacyWitness_Set (Some sn) (Some pubKey) (Some snd) (Some sk)) = Ok p /\
    np_stmt p = mkSNNoPrivacyStatement (Some sn) (Some pubKey) (Some snd) /\ snnp_ok p /\
    (Z.gcd (key_val (Scalar_Add sk snd)) order = 1 -> snnp_verify mess p = Ok true).
Proof using CL DL.
  intros Hs Hm Eg Esn. cbv zeta. split_all. destruct (PedG_index PedersenPrivateKeyIndex) as (g' & Eg' & Hg); [unfold PedersenPrivateKeyIndex; lia|].
  rewrite Eg in Eg'. injection Eg' as <-. as_scalars.
  destruct (Point_Derive_sc g sk snd) as (i & Ei & Hi). rewrite Ei in Esn. injection Esn as <-.
  unfold SNNoPrivacyWitness_Prove, SNNoPrivacyWitness_Set, Point_ScalarMult, Scalar_Add, Scalar_Mul.
  rewrite Eg, ScAdd_sc. cbn [res_bind deref nw_stmt nw_seed nn_sn nn_pubKey nn_snd].
  set (tSK := ScalarMultKey g (sc eSK)). set (tE := ScalarMultKey (pmul g i) (sc eSK)). set (pk := ScalarMultKey g (sc sk)).
  assert (Forall pt_ok [pmul g i; pk; tSK; tE]) as Hpt.
  { unfold tE, tSK, pk, Point_ScalarMult. fold (pmul g eSK) (pmul g sk) (pmul (pmul g i) eSK). repeat constructor; auto with points. }
  destruct (challenge_scalar mess [pmul g i; pk; tSK; tE]) as (x & Ex); [|exact Hm|].
  { eapply Forall_impl; [exact Hpt|]. exact pt_bytes. }
  split_all. rewrite Ex. cbn [res_bind]. rewrite ScMul_sc, ScAdd_sc. eexists. split; [reflexivity|]. split; [reflexivity|].
  split; [do 6 eexists; split; [reflexivity|]; repeat split; assumption || apply sc_ok_sc|].
  intros Hgcd. specialize (Hi Hgcd). unfold snnp_verify, SNNoPrivacyProof_Set. rewrite Eg.
  cbn [res_bind deref np_stmt nn_sn nn_pubKey nn_snd np_tSeed np_tOutput np_zSeed]. rewrite Ex. cbn [res_bind].
  unfold Point_ScalarMult, Point_Add, Scalar_Add, Scalar_Mul. rewrite ScMul_sc, ScAdd_sc. unfold tSK, tE, pk.
  repeat match goal with |- context [ScalarMultKey ?p (sc ?z)] => change (ScalarMultKey p (sc z)) with (pmul p z) end.
  rewrite !point_eq_true; [reflexivity|..]; rewrite ?pmul_mul, <- pmul_add by auto with points; apply pmul_proper.
  - transitivity (i * (sk + snd) * x + i * eSK); [ring|]. rewrite Hi. ring.
  - ring.
Qed.

(** *** Safety *)

(** From states that satisfy [P], no panic, and results that satisfy [Q]. *)
Definition st_spec {S A} (P : S -> Prop) (m : st S A) (Q : A -> S -> Prop) : Prop :=
  forall s, P s -> match m s with (s', Ok a) => Q a s' | (_, r) => res_safe r end.

Lemma st_spec_bind {S A B} (P : S -> Prop) (m : st S A) Q (k : A -> st S B) R :
  st_spec P m Q -> (forall a, st_spec (Q a) (k a) R) -> st_spec P (st_bind m k) R.
Proof using Type.
  intros Hm Hk s Hs. unfold st_bind. specialize (Hm s Hs). destruct (m s) as [s' [a| | |]]; [|done..]. by apply Hk.
Qed.

Lemma st_spec_safe {S A} (P : S -> Prop) (m : st S A) Q s : st_spec P m Q -> P s -> res_safe (snd (m s)).
Proof using Type. intros Hm Hs. specialize (Hm s Hs). by destruct (m s) as [s' [a| | |]]. Qed.

Lemma st_spec_put {S B} (P : S -> Prop) f (k : unit -> st S B) R :
  (forall s, P s -> P (f s)) -> st_spec P (k tt) R -> st_spec P (st_bind (st_put f) k) R.
Proof using Type. intros Hf Hk s Hs. by apply Hk, Hf. Qed.

(** A read of a key that the bytes hold keeps what its assignment keeps. *)
Lemma st_spec_point {T B} (P : T -> Prop) set mem off (k : nat -> st T B) R : (off + 32 <= length mem)%nat ->
  (forall v s, P s -> P (set v s)) -> st_spec P (k (off + 32)%nat) R -> st_spec P (st_bind (take_point set mem off) k) R.
Proof using Type.
  intros Hl Hset Hk s Hs. unfold take_point, st_bind, st_lift. change Ed25519KeySize with 32%nat.
  destruct (slice_safe mem off (off + 32)) as (b & -> & _); [lia|]. unfold st_assign.
  pose proof (Point_FromBytesS_safe b) as Hb. destruct (Point_FromBytesS b) as [p| | |]; try done.
  apply Hk. auto.
Qed.

Lemma st_spec_scalar {T B} (P : T -> Prop) set mem off (k : nat -> st T B) R : (off + 32 <= length mem)%nat ->
  (forall v s, P s -> P (set v s)) -> st_spec P (k (off + 32)%nat) R -> st_spec P (st_bind (take_scalar set mem off) k) R.
Proof using Type.
  intros Hl Hset Hk s Hs. unfold take_scalar, st_bind, st_lift. change Ed25519KeySize with 32%nat.
  destruct (slice_safe mem off (off + 32)) as (b & -> & _); [lia|]. unfold st_put, st_ret. apply Hk. auto.
Qed.

Ltac spec_steps stable := cbv zeta; repeat first
  [ apply st_spec_put; [stable|] | apply st_spec_point; [lia|stable|] | apply st_spec_scalar; [lia|stable|] ].

Lemma set_stmt_some f p : spr_stmt p <> None -> spr_stmt (set_stmt f p) <> None.
Proof using Type. by destruct p as [[st|] ? ? ? ? ? ? ?]. Qed.

(** Only a serial-number proof of between 288 and 319 bytes, with not enough memory behind
    it for a tenth key, can make its parser panic. *)
Lemma SNPrivacy_safe bytes beyond : (length bytes < 288 \/ 320 <= length bytes + length beyond)%nat ->
  st_spec (fun p => spr_stmt p <> None) (SNPrivacyProof_SetBytes bytes beyond) (fun _ _ => True).
Proof using Type.
  intros Hl. unfold SNPrivacyProof_SetBytes. change (9 * Ed25519KeySize)%nat with 288%nat.
  destruct (_ =? 0)%nat; [done|]. destruct (Nat.ltb_spec (length bytes) 288) as [Hs|Hs]; [done|].
  cbv zeta. set (mem := bytes ++ beyond).
  assert (320 <= length mem)%nat as Hm by (unfold mem; rewrite length_app; lia).
  apply st_spec_bind with (Q := fun _ p => spr_stmt p <> None).
  { intros [[st|] ? ? ? ? ? ? ?] Hp; [exact Hp|by elim Hp]. }
  intros _. spec_steps ltac:(intros; first [assumption | by apply set_stmt_some]). done.
Qed.

Lemma SNNoPrivacy_safe bytes :
  st_spec (fun p => nn_snd (np_stmt p) <> None) (SNNoPrivacyProof_SetBytes bytes) (fun _ _ => True).
Proof using Type.
  unfold SNNoPrivacyProof_SetBytes. change (Ed25519KeySize * 6)%nat with 192%nat.
  destruct (Nat.ltb_spec (length bytes) 192) as [Hs|Hs]; [done|]. cbv zeta.
  spec_steps ltac:(by intros). change Ed25519KeySize with 32%nat.
  apply st_spec_bind with (Q := fun b p => nn_snd (np_stmt p) <> None).
  { intros p Hp. unfold st_lift. by destruct (slice_safe bytes (0 + 32 + 32) (0 + 32 + 32 + 32)) as (b & -> & _); [lia|]. }
  intros b. apply st_spec_bind with (Q := fun _ p => nn_snd (np_stmt p) <> None).
  { intros p Hp. by destruct (nn_snd (np_stmt p)). }
  intros _. spec_steps ltac:(by intros). done.
Qed.

(** A private serial-number proof cut to between 288 and 319 bytes passes the
    test of the length, which asks for nine keys where ten are read.  When the
    memory behind the slice ends before the tenth key the call panics; when it
    does not, the call succeeds, and the last response is completed with bytes
    that do not belong to the proof. *)
Lemma SNPrivacy_short p p0 b cut beyond : snp_ok p -> spr_stmt p0 <> None ->
  SNPrivacyProof_Bytes p = Ok b -> (288 <= cut < 320)%nat ->
  ((cut + length beyond < 320)%nat -> snd (SNPrivacyProof_SetBytes (take cut b) beyond p0) = Panic) /\
  ((320 <= cut + length beyond)%nat ->
   SNPrivacyProof_SetBytes (take cut b) beyond p0 =
   (set_spr_zRInput (Some (Scalar_FromBytesS (drop 288 (take cut b) ++ take (320 - cut) beyond))) p, Ok tt)).
Proof using CL.
  intros (sn & cs & ci & ts & ti & tn & zs & zr & zi & zri & -> & Hp & Hs) Hp0 Eb Hcut. split_all.
  injection Eb as <-.
  destruct p0 as [[s0|] ts0 ti0 tn0 zs0 zr0 zi0 zri0]; [|by elim Hp0].
  set (f := [sn; cs; ci; ts; ti; tn; zs; zr; zi]).
  assert (take cut (sn ++ cs ++ ci ++ ts ++ ti ++ tn ++ zs ++ zr ++ zi ++ zri) =
          sn ++ cs ++ ci ++ ts ++ ti ++ tn ++ zs ++ zr ++ zi ++ take (cut - 288) zri) as ->.
  { rewrite !take_app. key_lengths. rewrite !take_ge by (key_lengths; lia). do 9 f_equal. f_equal. lia. }
  unfold SNPrivacyProof_SetBytes.
  rewrite (proj2 (Nat.eqb_neq _ _)), (proj2 (Nat.ltb_ge _ _)) by (key_lengths; unfold Ed25519KeySize; lia).
  rewrite <- !app_assoc. start_cursor R. cbv zeta. erewrite st_bind_run by reflexivity.
  do 6 (rewrite st_bind_put; take_pt R). do 3 take_sc R.
  pose proof (rest_length _ _ _ R) as Hlen.
  assert (length (take (cut - 288) zri ++ beyond) = cut - 288 + length beyond)%nat as Lp
    by (rewrite length_app, length_take; key_lengths; lia).
  rewrite Lp in Hlen.
  unfold take_scalar. split; intros Hb.
  - unfold st_bind, st_lift, slice. unfold Ed25519KeySize.
    rewrite (proj2 (Nat.leb_gt _ (length _))) by lia. by rewrite andb_false_r.
  - assert (take (cut - 288) zri ++ beyond =
      (take (cut - 288) zri ++ take (320 - cut) beyond) ++ drop (320 - cut) beyond) as Em
      by (by rewrite <- app_assoc, take_drop).
    pose proof (eq_ind _ (fun t => rest _ _ t) R _ Em) as R'.
    apply (slice_rest _ _ 32) in R'; [|rewrite length_app, !length_take; key_lengths; lia].
    unfold Ed25519KeySize. erewrite st_bind_run; [|rewrite (st_bind_lift _ _ _ _ R'); reflexivity].
    rewrite !app_assoc, drop_app_length'; [reflexivity|]. key_lengths. reflexivity.
Qed.
End theorems.

(** ** Witnesses *)

#[local] Existing Instances toy_curve toy_curve_laws toy_digests toy_digest_laws.

Lemma sn_privacy_complete_witness :
  exists stmt p, SNPrivacyWitness_Prove (sc 1) (sc 2) (sc 3) (sc 4) None
      (mkSNPrivacyWitness (Some stmt) (Some (sc 5)) (Some (sc 6)) (Some (sc 7)) (Some (sc 8))) = Ok p /\
    spr_stmt p = Some stmt /\ sn_verify None p = Ok true.
Proof.
  destruct PedG_at as (g0 & g2 & h & E0 & E2 & E4 & Hg0 & Hg2 & Hh).
  destruct (Point_Derive_sc g0 5 7) as (i & Ei & _).
  destruct (sn_privacy_complete (sc 5) (sc 6) (sc 7) (sc 8) (sc 1) (sc 2) (sc 3) (sc 4) None g0 _ _ _
    (scs_ok [5; 6; 7; 8; 1; 2; 3; 4]) ltac:(discriminate) E0 Ei (CommitAtIndex_sc PedG g0 h 0 5 6 E0 E4 Hg0 Hh)
    (CommitAtIndex_sc PedG g2 h 2 7 8 E2 E4 Hg2 Hh)) as (p & E & Hp & _ & Hv).
  eexists _, p. split; [exact E|]. split; [exact Hp|]. apply Hv. unfold Scalar_Add. rewrite ScAdd_sc. by vm_compute.
Defined.

Definition toy_snp : SNPrivacyProof :=
  mkSNPrivacyProof (Some (mkSerialNumberPrivacyStatement (Some GBASE) (Some GBASE) (Some GBASE)))
    (Some GBASE) (Some GBASE) (Some GBASE) (Some (sc 1)) (Some (sc 2)) (Some (sc 3)) (Some (sc 4)).
Definition toy_snnp : SNNoPrivacyProof :=
  SNNoPrivacyProof_Set (Some GBASE) (Some GBASE) (Some (sc 1)) (Some GBASE) (Some GBASE) (Some (sc 2)).

Lemma toy_snp_ok : snp_ok toy_snp.
Proof.
  do 10 eexists. split; [reflexivity|].
  split; repeat (apply Forall_cons_2; [apply pt_base || apply sc_ok_sc|]); apply Forall_nil_2.
Qed.

Lemma toy_snnp_ok : snnp_ok toy_snnp.
Proof.
  do 6 eexists. split; [reflexivity|].
  repeat (apply conj; [apply pt_base || apply sc_ok_sc|]). apply sc_ok_sc.
Qed.
