(* ===== verification/OneOutOfMany.v ===== *)
(** * OneOutOfMany.v: one-out-of-many proofs (package oneoutofmany)

    The prover shows that one of eight commitments opens to zero without saying
    which one: the bits of its index are committed to, and the coefficients of
    the polynomials [p_i(X)], computed with [Poly.v], tie them to the
    commitments.  Random scalars are drawn from a stream [rnd].  The verifier is
    part of the nodes; [om_verify] is its equations. *)

From stdpp Require Import base list gmap strings.
From Stdlib Require Import ZArith Lia Ring.
From S2P Require Import Prelude Cursor Poly Common Hashing Crypto Key Base58 Base58Check Wallet CoinV2 CoinV1 Linear Bulletproof Sigma.
Open Scope Z_scope.

Definition CommitmentRingSize : nat := 8.
Definition CommitmentRingSizeExp : nat := 3.

(** ** privacy/utils *)

Definition ScalarToBigInt (sc : list Z) : Z := bigint_set_bytes (Reverse sc).

Definition SliceToArray (slice : list Z) : list Z := copy_to_array Ed25519KeySize slice.

(** [None] is the [nil] scalar of an invalid key. *)
Definition BigIntToScalar (bi : Z) : res (option (list Z)) :=
  let* biByte := AddPaddingBigInt bi (Z.of_nat Ed25519KeySize) in
  let keyR := Reverse (SliceToArray biByte) in
  match Scalar_SetKey keyR [] with
  | (_, Ok s) => Ok (Some s)
  | _ => Ok None
  end.

(** The low bits first. *)
Fixpoint ConvertIntToBinary (iNum : Z) (n : nat) : list Z :=
  match n with
  | O => []
  | S n' => u8 (Z.rem iNum 2) :: ConvertIntToBinary (Z.quot iNum 2) n'
  end.

(** ** The polynomials of the prover *)

(** [acc * Π fji] for [j = n-1, ..., 0]; [fj] is [l[j] X + a[j]]. *)
Fixpoint coefficient_loop (n : nat) (iBinary : list Z) (a l acc : list Z) : res (list Z) :=
  match n with
  | O => Ok acc
  | S j =>
      let* aj := index a j in
      let* lj := index l j in
      let* ij := index iBinary j in
      let fj := [aj; lj] in
      let* fji := if ij =? 0 then Poly_Sub [0; 1] fj (Some order) else Ok fj in
      let* acc := Poly_Mul acc fji (Some order) in
      coefficient_loop j iBinary a l acc
  end.

(** The coefficient of [X^k] in [p_i(X)]; the coefficients are fresh integers, so
    reducing a factor in place changes nothing else. *)
Definition getCoefficient (iBinary : list Z) (k n : nat) (scLs : list (list Z)) (l : list Z)
    : res (option (list Z)) :=
  let a := map ScalarToBigInt scLs in
  let* res := coefficient_loop n iBinary a l [1] in
  if Poly_GetDegree res <? Z.of_nat k then
    let* zero := Scalar_FromUint64 0 in Ok (Some zero)
  else
    let* c := index res k in
    BigIntToScalar c.

Record OneOutOfManyWitness := mkOneOutOfManyWitness {
  ow_commitments : list (list Z); ow_rand : list Z; ow_indexIsZero : Z }.

(** The arrays of a proof that was not filled are [nil], and so are the points of
    an array that was not read to its end. *)
Record OneOutOfManyProof := mkOneOutOfManyProof {
  om_Statement : option (list (list Z));
  om_cl : option (list (option (list Z))); om_ca : option (list (option (list Z)));
  om_cb : option (list (option (list Z))); om_cd : option (list (option (list Z)));
  om_f : option (list (option (list Z))); om_za : option (list (option (list Z)));
  om_zb : option (list (option (list Z))); om_zd : option (list Z) }.

(** The new statement holds no commitments. *)
Definition OneOutOfManyProof_Init (p : OneOutOfManyProof) : OneOutOfManyProof :=
  mkOneOutOfManyProof (Some []) (om_cl p) (om_ca p) (om_cb p) (om_cd p) (om_f p) (om_za p) (om_zb p) (Some new_key).

Definition OneOutOfManyProof_new : OneOutOfManyProof :=
  mkOneOutOfManyProof None None None None None None None None None.

Definition OneOutOfManyWitness_Set (commitments : list (list Z)) (rand : list Z) (indexIsZero : Z)
    : OneOutOfManyWitness := mkOneOutOfManyWitness commitments rand indexIsZero.

Definition OneOutOfManyProof_isNil (p : OneOutOfManyProof) : bool :=
  is_nil (om_cl p) || is_nil (om_ca p) || is_nil (om_cb p) || is_nil (om_cd p) ||
  is_nil (om_f p) || is_nil (om_za p) || is_nil (om_zb p) || is_nil (om_zd p).

(** The first [n] elements of an array, each of them dereferenced. *)
Definition array_bytes (n : nat) (arr : option (list (option (list Z)))) : res (list Z) :=
  let l := default [] arr in
  if (length l <? n)%nat then Panic else concat_points (take n l).

Definition OneOutOfManyProof_Bytes (p : OneOutOfManyProof) : res (list Z) :=
  if OneOutOfManyProof_isNil p then Ok []
  else
    let n := CommitmentRingSizeExp in
    let* cl := array_bytes n (om_cl p) in
    let* ca := array_bytes n (om_ca p) in
    let* cb := array_bytes n (om_cb p) in
    let* cd := array_bytes n (om_cd p) in
    let* f := array_bytes n (om_f p) in
    let* za := array_bytes n (om_za p) in
    let* zb := array_bytes n (om_zb p) in
    let* zd := deref (om_zd p) in
    Ok (cl ++ ca ++ cb ++ cd ++ f ++ za ++ zb ++ zd).

Section setters.
Implicit Types (v : option (list (option (list Z)))) (p : OneOutOfManyProof).
Definition set_om_cl v p := mkOneOutOfManyProof (om_Statement p) v (om_ca p) (om_cb p) (om_cd p) (om_f p) (om_za p) (om_zb p) (om_zd p).
Definition set_om_ca v p := mkOneOutOfManyProof (om_Statement p) (om_cl p) v (om_cb p) (om_cd p) (om_f p) (om_za p) (om_zb p) (om_zd p).
Definition set_om_cb v p := mkOneOutOfManyProof (om_Statement p) (om_cl p) (om_ca p) v (om_cd p) (om_f p) (om_za p) (om_zb p) (om_zd p).
Definition set_om_cd v p := mkOneOutOfManyProof (om_Statement p) (om_cl p) (om_ca p) (om_cb p) v (om_f p) (om_za p) (om_zb p) (om_zd p).
Definition set_om_f v p := mkOneOutOfManyProof (om_Statement p) (om_cl p) (om_ca p) (om_cb p) (om_cd p) v (om_za p) (om_zb p) (om_zd p).
Definition set_om_za v p := mkOneOutOfManyProof (om_Statement p) (om_cl p) (om_ca p) (om_cb p) (om_cd p) (om_f p) v (om_zb p) (om_zd p).
Definition set_om_zb v p := mkOneOutOfManyProof (om_Statement p) (om_cl p) (om_ca p) (om_cb p) (om_cd p) (om_f p) (om_za p) v (om_zd p).
Definition set_om_zd (v : option (list Z)) p := mkOneOutOfManyProof (om_Statement p) (om_cl p) (om_ca p) (om_cb p) (om_cd p) (om_f p) (om_za p) (om_zb p) v.
End setters.

Section proof.
Context `{CO : CurveOps} `{DG : Digests}.

(** [arr[i] = v] for a field that holds an array. *)
Definition set_at {T} (get : T -> option (list (option (list Z)))) (put : option (list (option (list Z))) -> T -> T)
    (i : nat) (v : option (list Z)) (p : T) : T := put (option_map (<[i := v]>) (get p)) p.

Fixpoint read_scalars {T} (oob : string) (set : nat -> option (list Z) -> T -> T) (n i : nat) (bytes : list Z)
    (offset : nat) : st T nat :=
  match n with
  | O => st_ret offset
  | S n' =>
      let! offset := read_scalar oob (set i) bytes offset in
      read_scalars oob set n' (S i) bytes offset
  end.

Definition OneOutOfManyProof_SetBytes (bytes : list Z) : st OneOutOfManyProof unit :=
  if (length bytes =? 0)%nat then st_ret tt
  else
    let n := CommitmentRingSizeExp in
    let oob := "one-of-many proof byte unmarshalling failed"%string in
    let! _ := st_put (set_om_cl (Some (replicate n None))) in
    let! offset := read_points oob (set_at om_cl set_om_cl) n 0 bytes 0 in
    let! _ := st_put (set_om_ca (Some (replicate n None))) in
    let! offset := read_points oob (set_at om_ca set_om_ca) n 0 bytes offset in
    let! _ := st_put (set_om_cb (Some (replicate n None))) in
    let! offset := read_points oob (set_at om_cb set_om_cb) n 0 bytes offset in
    let! _ := st_put (set_om_cd (Some (replicate n None))) in
    let! offset := read_points oob (set_at om_cd set_om_cd) n 0 bytes offset in
    let! _ := st_put (set_om_f (Some (replicate n None))) in
    let! offset := read_scalars oob (set_at om_f set_om_f) n 0 bytes offset in
    let! _ := st_put (set_om_za (Some (replicate n None))) in
    let! offset := read_scalars oob (set_at om_za set_om_za) n 0 bytes offset in
    let! _ := st_put (set_om_zb (Some (replicate n None))) in
    let! offset := read_scalars oob (set_at om_zb set_om_zb) n 0 bytes offset in
    let! _ := read_scalar oob set_om_zd bytes offset in
    st_ret tt.

(** ** The prover *)

Section prove.
Context (rnd : nat -> list Z).

(** The scalars drawn in round [j]: [r[j]], [a[j]], [s[j]], [t[j]] and [u[j]]. *)
Definition draw (i j : nat) : list Z := rnd (5 * j + i)%nat.

(** [cl[j]], [ca[j]] and [cb[j]]. *)
Definition bit_commitments (indexIsZeroBinary : list Z) (j : nat) : res (list Z * list Z * list Z) :=
  let* b := index indexIsZeroBinary j in
  let* indexInt := Scalar_FromUint64 b in
  let* cl := CommitAtIndex PedG indexInt (draw 0 j) PedersenPrivateKeyIndex in
  let* ca := CommitAtIndex PedG (draw 1 j) (draw 2 j) PedersenPrivateKeyIndex in
  let la := Scalar_Mul indexInt (draw 1 j) in
  let* cb := CommitAtIndex PedG la (draw 3 j) PedersenPrivateKeyIndex in
  Ok (cl, ca, cb).

(** [cd[k] + Σ p_i,k C_i] for the commitments from [i] on. *)
Fixpoint cd_loop (k n i : nat) (commitments : list (list Z)) (a : list (list Z)) (l acc : list Z) : res (list Z) :=
  match commitments with
  | [] => Ok acc
  | C :: commitments =>
      let* pik := getCoefficient (ConvertIntToBinary (Z.of_nat i) n) k n a l in
      let* pik := deref pik in
      cd_loop k n (S i) commitments a l (Point_Add acc (Point_ScalarMult C pik))
  end.

Definition coefficient_commitment (commitments : list (list Z)) (a : list (list Z)) (l : list Z) (k : nat)
    : res (list Z) :=
  let* sum := cd_loop k CommitmentRingSizeExp 0 commitments a l Identity in
  let* zero := Scalar_FromUint64 0 in
  let* blind := CommitAtIndex PedG zero (draw 4 k) PedersenPrivateKeyIndex in
  Ok (Point_Add sum blind).

(** The challenge: hashed anew for each round. *)
Fixpoint challenge_loop (x : list Z) (cl ca cb cd : list (list Z)) : res (list Z) :=
  match cl, ca, cb, cd with
  | l :: cl, a :: ca, b :: cb, d :: cd =>
      let* x := deref (GenerateChallenge [x; l; a; b; d]) in
      challenge_loop x cl ca cb cd
  | _, _, _, _ => Ok x
  end.

Definition om_challenge (commitments cl ca cb cd : list (list Z)) : res (list Z) :=
  let* x := deref (GenerateChallenge commitments) in
  challenge_loop x cl ca cb cd.

(** [f[j]], [za[j]] and [zb[j]]. *)
Definition bit_responses (x l : list Z) (j : nat) : res (list Z * list Z * list Z) :=
  let* b := index l j in
  let* indexInt := Scalar_FromUint64 b in
  let f := Scalar_Add (Scalar_Mul indexInt x) (draw 1 j) in
  let za := Scalar_Add (Scalar_Mul (draw 0 j) x) (draw 2 j) in
  let zb := Scalar_Add (Scalar_Mul (Scalar_Sub x f) (draw 0 j)) (draw 3 j) in
  Ok (f, za, zb).

(** [x^n] and [Σ x^k u[k]]. *)
Fixpoint blind_loop (n k : nat) (x xi sum : list Z) : list Z * list Z :=
  match n with
  | O => (xi, sum)
  | S n' => blind_loop n' (S k) x (Scalar_Mul xi x) (Scalar_Add sum (Scalar_Mul xi (draw 4 k)))
  end.

Definition OneOutOfManyWitness_Prove (wit : OneOutOfManyWitness) : res OneOutOfManyProof :=
  let N := length (ow_commitments wit) in
  if negb (N =? CommitmentRingSize)%nat
  then Err "the number of Commitment list's elements must be equal to CMRingSize"
  else
    let n := CommitmentRingSizeExp in
    if Z.of_nat N <? ow_indexIsZero wit then Err "index is zero must be Index in list of commitments"
    else
      let l := ConvertIntToBinary (i64 (ow_indexIsZero wit)) n in
      let a := map (draw 1) (seq 0 n) in
      let* c := res_map (bit_commitments l) (seq 0 n) in
      let cl := map (fun t => fst (fst t)) c in
      let ca := map (fun t => snd (fst t)) c in
      let cb := map snd c in
      let* cd := res_map (coefficient_commitment (ow_commitments wit) a l) (seq 0 n) in
      let* x := om_challenge (ow_commitments wit) cl ca cb cd in
      let* z := res_map (bit_responses x l) (seq 0 n) in
      let* one := Scalar_FromUint64 1 in
      let* zero := Scalar_FromUint64 0 in
      let '(xi, sum) := blind_loop n 0 x one zero in
      let zd := Scalar_Sub (Scalar_Mul xi (ow_rand wit)) sum in
      let some l := Some (map Some l) in
      Ok (mkOneOutOfManyProof (Some (ow_commitments wit)) (some cl) (some ca) (some cb) (some cd)
            (some (map (fun t => fst (fst t)) z)) (some (map (fun t => snd (fst t)) z)) (some (map snd z)) (Some zd)).
End prove.

(** ** Specification: the verification equations *)

(** What a complete proof holds. *)
Record om_data := mkOmData {
  od_C : list (list Z); od_cl : list (list Z); od_ca : list (list Z); od_cb : list (list Z); od_cd : list (list Z);
  od_f : list (list Z); od_za : list (list Z); od_zb : list (list Z); od_zd : list Z }.

Definition om_proof_of (d : om_data) : OneOutOfManyProof :=
  let some l := Some (map Some l) in
  mkOneOutOfManyProof (Some (od_C d)) (some (od_cl d)) (some (od_ca d)) (some (od_cb d)) (some (od_cd d))
    (some (od_f d)) (some (od_za d)) (some (od_zb d)) (Some (od_zd d)).

Definition om_data_ok (d : om_data) : Prop :=
  let n := CommitmentRingSizeExp in
  Forall (fun l => length l = n) [od_cl d; od_ca d; od_cb d; od_cd d; od_f d; od_za d; od_zb d] /\
  Forall (Forall pt_ok) [od_cl d; od_ca d; od_cb d; od_cd d] /\
  Forall (Forall sc_ok) [od_f d; od_za d; od_zb d] /\ sc_ok (od_zd d).

(** [Com(f, za) = x cl + ca] and [Com(0, zb) = (x - f) cl + cb]. *)
Fixpoint bits_check (x : list Z) (cl ca cb f za zb : list (list Z)) : res bool :=
  match cl, ca, cb, f, za, zb with
  | l :: cl, a :: ca, b :: cb, f1 :: f, z1 :: za, z2 :: zb =>
      let* left1 := CommitAtIndex PedG f1 z1 PedersenPrivateKeyIndex in
      let* zero := Scalar_FromUint64 0 in
      let* left2 := CommitAtIndex PedG zero z2 PedersenPrivateKeyIndex in
      let* rest := bits_check x cl ca cb f za zb in
      Ok (IsPointEqual left1 (Point_Add (Point_ScalarMult l x) a) &&
          IsPointEqual left2 (Point_Add (Point_ScalarMult l (Scalar_Sub x f1)) b) && rest)
  | _, _, _, _, _, _ => Ok true
  end.

(** [Π f_j,i_j], where [f_j,1 = f_j] and [f_j,0 = x - f_j]. *)
Fixpoint selector (x : list Z) (iBinary : list Z) (f : list (list Z)) (acc : list Z) : list Z :=
  match iBinary, f with
  | b :: iBinary, f1 :: f =>
      selector x iBinary f (Scalar_Mul acc (if b =? 0 then Scalar_Sub x f1 else f1))
  | _, _ => acc
  end.

Fixpoint selected_sum (x one : list Z) (i : nat) (C f : list (list Z)) (acc : list Z) : list Z :=
  match C with
  | [] => acc
  | c :: C =>
      let s := selector x (ConvertIntToBinary (Z.of_nat i) CommitmentRingSizeExp) f one in
      selected_sum x one (S i) C f (Point_Add acc (Point_ScalarMult c s))
  end.

(** [acc + Σ x^k cd_k]. *)
Fixpoint power_sum (x xk : list Z) (cd : list (list Z)) (acc : list Z) : list Z :=
  match cd with
  | [] => acc
  | d :: cd => power_sum x (Scalar_Mul xk x) cd (Point_Add acc (Point_ScalarMult d xk))
  end.

(** [Σ (Π f_j,i_j) C_i = Com(0, zd) + Σ x^k cd_k]. *)
Definition om_verify (d : om_data) : res bool :=
  let* x := om_challenge (od_C d) (od_cl d) (od_ca d) (od_cb d) (od_cd d) in
  let* bits := bits_check x (od_cl d) (od_ca d) (od_cb d) (od_f d) (od_za d) (od_zb d) in
  let* one := Scalar_FromUint64 1 in
  let* zero := Scalar_FromUint64 0 in
  let* com := CommitAtIndex PedG zero (od_zd d) PedersenPrivateKeyIndex in
  Ok (bits && IsPointEqual (selected_sum x one 0 (od_C d) (od_f d) Identity)
                (power_sum x one (od_cd d) com)).
End proof.

(** ** Lemmas *)

Lemma BigIntToScalar_ok `{CurveOps} c : 0 <= c < order -> BigIntToScalar c = Ok (Some (sc c)).
Proof.
  intros Hc. assert (order < 256 ^ 32) by by vm_compute.
  unfold BigIntToScalar, Ed25519KeySize. rewrite AddPaddingBigInt_be by (change (Z.of_nat 32) with 32; lia). cbn [res_bind].
  unfold SliceToArray. rewrite copy_to_array_exact by apply length_be_bytes.
  rewrite Reverse_reverse by apply length_be_bytes. change (reverse (be_bytes 32 c)) with (key_of c).
  rewrite sc_small by done. unfold Scalar_SetKey. by rewrite sc_ok_valid by apply sc_ok_sc.
Qed.

Lemma ScalarToBigInt_sc z : ScalarToBigInt (sc z) = z mod order.
Proof. unfold ScalarToBigInt. by rewrite Reverse_val, sc_val by (apply sc_ok_sc). Qed.

(** *** The coefficients of [p_i(X)] *)

Abbreviation modq := (Some order).

Lemma ceq_eqm a b : ceq modq a b <-> a ≡ₒ b.
Proof. done. Qed.

Lemma modq_ok : modulus_ok modq.
Proof. exact (proj1 order_pos). Qed.

(** The factor [f_j,i_j] is [lo + hi X]. *)
Definition lo (i a : Z) : Z := if i =? 0 then - a else a.
Definition hi (i l : Z) : Z := if i =? 0 then 1 - l else l.

Lemma factor_spec i a l : exists r,
  (if i =? 0 then Poly_Sub [0; 1] [a; l] modq else Ok [a; l]) = Ok r /\ r <> [] /\ (length r <= 2)%nat /\
  forall k, ceq modq (coef r k) (coef [lo i a; hi i l] k).
Proof.
  unfold lo, hi. destruct (i =? 0).
  - destruct (Sub_spec modq modq_ok [0; 1] [a; l]) as (r & E & (Hne & _ & _) & Hl & Hk); [done|done|].
    exists r. split; [exact E|]. split; [exact Hne|]. split; [exact Hl|]. intros k. rewrite Hk.
    apply ceq_eq. destruct k as [|[|k]]; cbn; [lia|lia|]. by destruct k.
  - by exists [a; l].
Qed.

(** The product of the factors, for three bits. *)
Definition product3 (i0 i1 i2 a0 a1 a2 l0 l1 l2 : Z) : list Z :=
  let u0 := lo i0 a0 in let u1 := lo i1 a1 in let u2 := lo i2 a2 in
  let v0 := hi i0 l0 in let v1 := hi i1 l1 in let v2 := hi i2 l2 in
  [u2 * u1 * u0; u2 * u1 * v0 + u2 * v1 * u0 + v2 * u1 * u0;
   u2 * v1 * v0 + v2 * u1 * v0 + v2 * v1 * u0; v2 * v1 * v0].

(** One multiplication of the loop. *)
Lemma mul_step acc P u v f k0 : acc <> [] -> (length acc <= k0)%nat -> f <> [] -> (length f <= 2)%nat ->
  (forall k, ceq modq (coef acc k) (coef P k)) -> (forall k, ceq modq (coef f k) (coef [u; v] k)) ->
  exists r, Poly_Mul acc f modq = Ok r /\ poly_ok modq r /\ (length r <= S k0)%nat /\
    forall k, ceq modq (coef r k) (conv P [u; v] k).
Proof.
  intros Ha La Hf Lf Ca Cf. destruct (Mul_spec modq modq_ok acc f Ha Hf) as (r & E & Hok & Hl & Hk).
  exists r. split; [exact E|]. split; [exact Hok|].
  split; [lia|]. intros k. rewrite Hk. by apply conv_ceq.
Qed.

Lemma coefficient_loop_spec i0 i1 i2 a0 a1 a2 l0 l1 l2 : exists r,
  coefficient_loop 3 [i0; i1; i2] [a0; a1; a2] [l0; l1; l2] [1] = Ok r /\ poly_ok modq r /\ (length r <= 4)%nat /\
  forall k, ceq modq (coef r k) (coef (product3 i0 i1 i2 a0 a1 a2 l0 l1 l2) k).
Proof.
  cbn [coefficient_loop index lookup list_lookup res_bind].
  destruct (factor_spec i2 a2 l2) as (f2 & -> & N2 & L2 & C2). cbn [res_bind].
  destruct (mul_step [1] [1] _ _ f2 1 ltac:(done) ltac:(done) N2 L2 ltac:(done) C2) as (r1 & -> & (O1 & _ & _) & M1 & K1).
  destruct (factor_spec i1 a1 l1) as (f1 & -> & N1 & L1 & C1). cbn [res_bind].
  assert (forall k, ceq modq (coef r1 k) (coef [lo i2 a2; hi i2 l2] k)) as K1'.
  { intros k. rewrite K1. apply ceq_eq. destruct k as [|[|k]]; cbn; [lia|lia|]. by destruct k. }
  destruct (mul_step r1 _ _ _ f1 2 O1 M1 N1 L1 K1' C1) as (r2 & -> & (O2 & _ & _) & M2 & K2).
  destruct (factor_spec i0 a0 l0) as (f0 & -> & N0 & L0 & C0). cbn [res_bind].
  assert (forall k, ceq modq (coef r2 k)
    (coef (map (conv [lo i2 a2; hi i2 l2] [lo i1 a1; hi i1 l1]) [0; 1; 2]%nat) k)) as K2'.
  { intros k. rewrite K2. apply ceq_eq. destruct k as [|[|[|k]]]; try reflexivity.
    destruct k; cbn; ring. }
  destruct (mul_step r2 _ _ _ f0 3 O2 M2 N0 L0 K2' C0) as (r3 & -> & O3 & M3 & K3).
  exists r3. split; [reflexivity|]. split; [exact O3|]. split; [exact M3|].
  intros k. rewrite K3. apply ceq_eq. unfold product3.
  destruct k as [|[|[|[|[|k]]]]]; cbn; try ring; destruct k; ring.
Qed.

Section coefficient.
Context `{CO : CurveOps}.

Lemma getCoefficient_sc i0 i1 i2 a0 a1 a2 l0 l1 l2 k :
  getCoefficient [i0; i1; i2] k 3 (map sc [a0; a1; a2]) [l0; l1; l2] =
  Ok (Some (sc (coef (product3 i0 i1 i2 a0 a1 a2 l0 l1 l2) k))).
Proof.
  unfold getCoefficient. cbn [map]. rewrite !ScalarToBigInt_sc.
  destruct (coefficient_loop_spec i0 i1 i2 (a0 mod order) (a1 mod order) (a2 mod order) l0 l1 l2)
    as (r & -> & (_ & Hr & _) & _ & Hk). cbn [res_bind].
  assert (sc (coef (product3 i0 i1 i2 a0 a1 a2 l0 l1 l2) k) = sc (coef r k)) as ->.
  { symmetry. apply sc_proper. etransitivity; [exact (Hk k)|]. unfold product3, lo, hi.
    destruct (i0 =? 0), (i1 =? 0), (i2 =? 0), k as [|[|[|[|k]]]]; cbn [coef nth]; try reflexivity;
      rewrite ?eqm_mod; try reflexivity. }
  unfold Poly_GetDegree. destruct (Z.ltb_spec (Z.of_nat (length r) - 1) (Z.of_nat k)) as [Hl|Hl].
  - rewrite coef_overflow by lia. by rewrite (FromUint64_sc 0) by by apply is_u64_small.
  - destruct (index_safe r k) as (c & Ec & Lc); [lia|]. rewrite Ec. cbn [res_bind].
    assert (coef r k = c) as -> by (unfold coef; by apply nth_lookup_Some).
    apply BigIntToScalar_ok. eapply Forall_lookup_1 in Hr; [|exact Lc]. cbn in Hr. rewrite <- Hr.
    apply Z.mod_pos_bound. exact (proj1 order_pos).
Qed.
End coefficient.

(** *** Completeness *)

(** The bits of an index. *)
Definition bit (i j : nat) : Z := u8 (Z.rem (Z.quot (Z.of_nat i) (2 ^ Z.of_nat j)) 2).

Lemma bits_of i : (i < 8)%nat -> ConvertIntToBinary (Z.of_nat i) 3 = [bit i 0; bit i 1; bit i 2].
Proof. intros Hi. do 8 (destruct i as [|i]; [reflexivity|]). lia. Qed.

Lemma bit_u64 i j : is_u64 (bit i j).
Proof.
  unfold bit, is_u64, u8.
  pose proof (Z.mod_pos_bound (Z.rem (Z.quot (Z.of_nat i) (2 ^ Z.of_nat j)) 2) (2 ^ 8)). lia.
Qed.

(** The bits of two indices agree everywhere exactly when the indices are equal. *)
Lemma bits_agree a b : (a < 8)%nat -> (b < 8)%nat ->
  hi (bit b 2) (bit a 2) * hi (bit b 1) (bit a 1) * hi (bit b 0) (bit a 0) = if (a =? b)%nat then 1 else 0.
Proof.
  assert (forallb (fun a => forallb (fun b => hi (bit b 2) (bit a 2) * hi (bit b 1) (bit a 1) * hi (bit b 0) (bit a 0)
    =? if (a =? b)%nat then 1 else 0) (seq 0 8)) (seq 0 8) = true) as E by reflexivity.
  intros Ha Hb. rewrite forallb_forall in E. specialize (E a ltac:(apply in_seq; lia)).
  rewrite forallb_forall in E. apply Z.eqb_eq, (E b). apply in_seq. lia.
Qed.

Lemma bit_binary i j : (i < 8)%nat -> (j < 3)%nat -> bit i j * (1 - bit i j) = 0.
Proof.
  intros Hi Hj. do 8 (destruct i as [|i]; [do 3 (destruct j as [|j]; [reflexivity|]); lia|]). lia.
Qed.

Section challenge.
Context `{CL : CurveLaws} `{DL : DigestLaws}.

Lemma challenge_loop_sc : forall cl ca cb cd x, Forall pt_ok cl -> Forall pt_ok ca -> Forall pt_ok cb -> Forall pt_ok cd ->
  exists y, challenge_loop (sc x) cl ca cb cd = Ok (sc y).
Proof using CL DL.
  induction cl as [|l cl IH]; intros ca cb cd x H1 H2 H3 H4; [by eexists|].
  destruct ca as [|a ca]; [by eexists|]. destruct cb as [|b cb]; [by eexists|]. destruct cd as [|d cd]; [by eexists|].
  apply Forall_cons in H1 as [? ?], H2 as [? ?], H3 as [? ?], H4 as [? ?]. cbn [challenge_loop].
  destruct (GenerateChallenge_sc [sc x; l; a; b; d]) as (y & ->).
  { apply Forall_cons_2; [apply sc_bytes|]. repeat (apply Forall_cons_2; [by apply pt_bytes|]). apply Forall_nil_2. }
  cbn [deref res_bind]. by apply IH.
Qed.

Lemma om_challenge_sc C cl ca cb cd : Forall pt_ok C -> Forall pt_ok cl -> Forall pt_ok ca -> Forall pt_ok cb -> Forall pt_ok cd ->
  exists x, om_challenge C cl ca cb cd = Ok (sc x).
Proof using CL DL.
  intros HC ? ? ? ?. unfold om_challenge. destruct (GenerateChallenge_sc C) as (y & ->).
  { eapply Forall_impl; [exact HC|]. exact pt_bytes. }
  cbn [deref res_bind]. by apply challenge_loop_sc.
Qed.
End challenge.

Section complete.
Context `{CL : CurveLaws} `{DL : DigestLaws}.
Context (rnd : nat -> list Z) (Hrnd : forall i, sc_ok (rnd i)).
Context (g h : list Z) (Eg : index PedG PedersenPrivateKeyIndex = Ok g)
  (Eh : index PedG PedersenRandomnessIndex = Ok h) (Hg : pt_ok g) (Hh : pt_ok h).
Context (C : list (list Z)) (HC : Forall pt_ok C) (LC : length C = 8%nat).
Context (idx : nat) (Hidx : (idx < 8)%nat) (w : Z) (Hw : C !! idx = Some (AddKeys (pmul g 0) (pmul h w))).

(** The scalars drawn, as integers. *)
Definition D (i j : nat) : Z := key_val (draw rnd i j).

Lemma draw_sc i j : draw rnd i j = sc (D i j).
Proof using All. apply sc_repr. apply Hrnd. Qed.

(** [p_i(X)]. *)
Definition P (i : nat) : list Z :=
  product3 (bit i 0) (bit i 1) (bit i 2) (D 1 0) (D 1 1) (D 1 2) (bit idx 0) (bit idx 1) (bit idx 2).

Definition bitsl : list Z := [bit idx 0; bit idx 1; bit idx 2].

Lemma cd_loop_sc k : forall C i acc, (i + length C <= 8)%nat -> Forall pt_ok C -> pt_ok acc ->
  cd_loop k 3 i C (map sc [D 1 0; D 1 1; D 1 2]) bitsl acc =
  Ok (AddKeys acc (lin (map (fun t => coef (P t) k) (seq i (length C))) C)).
Proof using All.
  clear C HC LC Hw Hidx. induction C as [|c C IH]; intros i acc Hi HC Ha.
  - cbn. by rewrite add_identity.
  - cbn [length] in Hi. apply Forall_cons in HC as [Hc HC]. cbn [cd_loop]. rewrite bits_of by lia.
    unfold bitsl. rewrite getCoefficient_sc. cbn [res_bind deref]. fold bitsl (P i).
    unfold Point_ScalarMult, Point_Add. fold (pmul c (coef (P i) k)).
    rewrite IH by (auto with points; lia). cbn [length seq map]. unfold lin. cbn [zip_with foldr fst snd].
    f_equal. symmetry. apply add_assoc; auto with points. apply lin_pt. exact HC.
Qed.

Definition cdk (k : nat) : list Z :=
  AddKeys (AddKeys Identity (lin (map (fun t => coef (P t) k) (seq 0 8)) C)) (AddKeys (pmul g 0) (pmul h (D 4 k))).

Lemma coefficient_commitment_sc k :
  coefficient_commitment rnd C (map sc [D 1 0; D 1 1; D 1 2]) bitsl k = Ok (cdk k).
Proof using All.
  unfold coefficient_commitment, CommitmentRingSizeExp. rewrite cd_loop_sc; [|lia|exact HC|apply pt_identity].
  cbn [res_bind]. rewrite (FromUint64_sc 0) by (unfold is_u64; lia). cbn [res_bind]. rewrite draw_sc.
  rewrite (CommitAtIndex_sc PedG g h) by assumption. cbn [res_bind]. by rewrite LC.
Qed.

(** The commitments to the bits. *)
Definition com (a b : Z) : list Z := AddKeys (pmul g a) (pmul h b).

Lemma bit_commitments_sc j : (j < 3)%nat -> bit_commitments rnd bitsl j =
  Ok (com (bit idx j) (D 0 j), com (D 1 j) (D 2 j), com (bit idx j * D 1 j) (D 3 j)).
Proof using All.
  intros Hj. unfold bit_commitments. assert (index bitsl j = Ok (bit idx j)) as ->
    by (do 3 (destruct j as [|j]; [reflexivity|]); lia).
  cbn [res_bind]. rewrite (FromUint64_sc _ (bit_u64 idx j)). cbn [res_bind]. unfold Scalar_Mul. rewrite !draw_sc, ScMul_sc.
  rewrite !(CommitAtIndex_sc PedG g h) by assumption. reflexivity.
Qed.

(** The responses at the challenge [x]. *)
Definition F (x : Z) (j : nat) : Z := bit idx j * x + D 1 j.
Definition ZA (x : Z) (j : nat) : Z := D 0 j * x + D 2 j.
Definition ZB (x : Z) (j : nat) : Z := (x - F x j) * D 0 j + D 3 j.
Definition ZD (x : Z) : Z := x * x * x * w - (D 4 0 + x * D 4 1 + x * x * D 4 2).

Lemma bit_responses_sc x j : (j < 3)%nat ->
  bit_responses rnd (sc x) bitsl j = Ok (sc (F x j), sc (ZA x j), sc (ZB x j)).
Proof using All.
  intros Hj. unfold bit_responses. assert (index bitsl j = Ok (bit idx j)) as ->
    by (do 3 (destruct j as [|j]; [reflexivity|]); lia).
  cbn [res_bind]. rewrite (FromUint64_sc _ (bit_u64 idx j)). cbn [res_bind]. rewrite !draw_sc.
  unfold Scalar_Add, Scalar_Mul, Scalar_Sub. by rewrite !ScMul_sc, !ScAdd_sc, !ScSub_sc, ScMul_sc, ScAdd_sc.
Qed.

(** *** The run of the prover *)

Definition js {A} (f : nat -> A) : list A := [f 0%nat; f 1%nat; f 2%nat].

Definition data (x : Z) : om_data :=
  mkOmData C (js (fun j => com (bit idx j) (D 0 j))) (js (fun j => com (D 1 j) (D 2 j)))
    (js (fun j => com (bit idx j * D 1 j) (D 3 j))) (js cdk)
    (js (fun j => sc (F x j))) (js (fun j => sc (ZA x j))) (js (fun j => sc (ZB x j))) (sc (ZD x)).

Lemma com_pt a b : pt_ok (com a b).
Proof using All. unfold com. auto with points. Qed.

Lemma cdk_pt k : pt_ok (cdk k).
Proof using All. unfold cdk. auto 6 with points. Qed.

Lemma js_Forall {A} (Q : A -> Prop) f : (forall j, Q (f j)) -> Forall Q (js f).
Proof using Type. intros Hf. repeat (apply Forall_cons_2; [apply Hf|]). apply Forall_nil_2. Qed.

Lemma Prove_sc : exists x,
  om_challenge C (od_cl (data x)) (od_ca (data x)) (od_cb (data x)) (od_cd (data x)) = Ok (sc x) /\
  OneOutOfManyWitness_Prove rnd (mkOneOutOfManyWitness C (sc w) (Z.of_nat idx)) = Ok (om_proof_of (data x)).
Proof using All.
  destruct (om_challenge_sc C (od_cl (data 0)) (od_ca (data 0)) (od_cb (data 0)) (od_cd (data 0))) as (x & Ex);
    [exact HC|apply js_Forall; intros; apply com_pt || apply cdk_pt..|].
  exists x. split; [exact Ex|]. unfold OneOutOfManyWitness_Prove. cbn [ow_commitments ow_indexIsZero ow_rand].
  rewrite LC. unfold CommitmentRingSize. cbn [Nat.eqb negb].
  rewrite (proj2 (Z.ltb_ge _ _)) by lia.
  replace (i64 (Z.of_nat idx)) with (Z.of_nat idx) by (unfold i64; rewrite Z.mod_small by lia; lia).
  unfold CommitmentRingSizeExp. rewrite bits_of by lia. fold bitsl. cbn [seq map res_map].
  rewrite !draw_sc, !bit_commitments_sc by lia. cbn [res_bind map fst snd].
  change [sc (D 1 0); sc (D 1 1); sc (D 1 2)] with (map sc [D 1 0; D 1 1; D 1 2]).
  rewrite !coefficient_commitment_sc. cbn [res_bind].
  cbn [od_cl od_ca od_cb od_cd data] in Ex. unfold js in Ex. rewrite Ex. cbn [res_bind]. rewrite !bit_responses_sc by lia.
  cbn [res_bind map fst snd]. rewrite (FromUint64_sc 1), (FromUint64_sc 0) by (unfold is_u64; lia).
  cbn [res_bind blind_loop]. rewrite !draw_sc. unfold Scalar_Add, Scalar_Mul, Scalar_Sub.
  rewrite !ScMul_sc, !ScAdd_sc, ScSub_sc. unfold om_proof_of, data, js. do 4 f_equal.
  apply sc_proper. unfold ZD. eqm_ring.
Qed.

(** *** The verification equations *)

Lemma bits_check_ok x :
  bits_check (sc x) (od_cl (data x)) (od_ca (data x)) (od_cb (data x)) (od_f (data x)) (od_za (data x)) (od_zb (data x)) = Ok true.
Proof using All.
  cbn [od_cl od_ca od_cb od_f od_za od_zb data]. unfold js. cbn [bits_check].
  rewrite !(FromUint64_sc 0) by (unfold is_u64; lia).
  repeat (rewrite !(CommitAtIndex_sc PedG g h) by assumption; cbn [res_bind]).
  unfold Scalar_Sub, Point_Add, Point_ScalarMult. rewrite !ScSub_sc.
  repeat match goal with |- context [ScalarMultKey ?p (sc ?z)] => change (ScalarMultKey p (sc z)) with (pmul p z) end.
  assert (forall j, AddKeys (pmul g (F x j)) (pmul h (ZA x j)) =
    AddKeys (pmul (com (bit idx j) (D 0 j)) x) (com (D 1 j) (D 2 j))) as H1.
  { intros j. unfold com, F, ZA. rewrite !pmul_add_pt, !pmul_mul by auto with points. module. }
  assert (forall j, (j < 3)%nat -> AddKeys (pmul g 0) (pmul h (ZB x j)) =
    AddKeys (pmul (com (bit idx j) (D 0 j)) (x - F x j)) (com (bit idx j * D 1 j) (D 3 j))) as H2.
  { intros j Hj. unfold com, ZB. rewrite !pmul_add_pt, !pmul_mul by auto with points.
    module_with ltac:(idtac); unfold F.
    - eqm_ring.
    - transitivity (bit idx j * (1 - bit idx j) * x); [rewrite (bit_binary idx j Hidx Hj); eqm_ring|eqm_ring]. }
  rewrite !H1, !H2 by lia. rewrite !point_eq_true by reflexivity. reflexivity.
Qed.

(** [Π f_j,i_j] as an integer. *)
Definition W (x : Z) (i : nat) : Z :=
  (if bit i 0 =? 0 then x - F x 0 else F x 0) * (if bit i 1 =? 0 then x - F x 1 else F x 1) *
  (if bit i 2 =? 0 then x - F x 2 else F x 2).

Lemma W_polynomial x i : (i < 8)%nat -> W x i =
  coef (P i) 0 + x * coef (P i) 1 + (x * x * coef (P i) 2 + x * x * x * if (idx =? i)%nat then 1 else 0).
Proof using All.
  intros Hi. rewrite <- (bits_agree idx i Hidx Hi). unfold W, P, product3, F, lo, hi. cbn [coef nth].
  destruct (bit i 0 =? 0), (bit i 1 =? 0), (bit i 2 =? 0); ring.
Qed.

Lemma selected_sum_sc x : forall C i acc, (i + length C <= 8)%nat -> Forall pt_ok C -> pt_ok acc ->
  selected_sum (sc x) (sc 1) i C (js (fun j => sc (F x j))) acc =
  AddKeys acc (lin (map (W x) (seq i (length C))) C).
Proof using All.
  clear C HC LC Hw Hidx. induction C as [|c C IH]; intros i acc Hi HC Ha.
  - cbn. by rewrite add_identity.
  - cbn [length] in Hi. apply Forall_cons in HC as [Hc HC]. cbn [selected_sum].
    unfold CommitmentRingSizeExp. rewrite bits_of by lia. unfold js. cbn [selector].
    assert (forall j, (if bit i j =? 0 then Scalar_Sub (sc x) (sc (F x j)) else sc (F x j)) =
      sc (if bit i j =? 0 then x - F x j else F x j)) as Es.
    { intros j. destruct (bit i j =? 0); [|done]. unfold Scalar_Sub. apply ScSub_sc. }
    rewrite !Es. unfold Scalar_Mul. rewrite !ScMul_sc, Z.mul_1_l. fold (W x i).
    unfold Point_ScalarMult, Point_Add. fold (pmul c (W x i)). change [sc (F x 0); sc (F x 1); sc (F x 2)] with (js (fun j => sc (F x j))).
    rewrite IH by (auto with points; lia). cbn [length seq map]. unfold lin. cbn [zip_with foldr fst snd].
    symmetry. apply add_assoc; auto with points. apply lin_pt. exact HC.
Qed.

Lemma map_zip_add {A} (f f' : A -> Z) l : zip_with Z.add (map f l) (map f' l) = map (fun t => f t + f' t) l.
Proof using Type. induction l as [|a l IH]; cbn; [done|]. by rewrite IH. Qed.

Lemma lin_selected x : lin (map (W x) (seq 0 8)) C =
  AddKeys (AddKeys (lin (map (fun t => coef (P t) 0) (seq 0 8)) C) (pmul (lin (map (fun t => coef (P t) 1) (seq 0 8)) C) x))
    (AddKeys (pmul (lin (map (fun t => coef (P t) 2) (seq 0 8)) C) (x * x)) (pmul (AddKeys (pmul g 0) (pmul h w)) (x * x * x))).
Proof using All.
  assert (AddKeys (pmul g 0) (pmul h w) = lin (map (fun t => if (idx =? t)%nat then 1 else 0) (seq 0 8)) C) as ->.
  { rewrite <- LC, lin_unit by (done || lia). rewrite Nat.sub_0_r. symmetry. by apply nth_lookup_Some. }
  rewrite <- !lin_scale by exact HC. rewrite !map_map.
  rewrite <- !lin_add by (exact HC || (rewrite ?length_zip_with, ?length_map; reflexivity)).
  rewrite !map_zip_add. f_equal. apply map_ext_in. intros i Hi%in_seq. apply W_polynomial. lia.
Qed.

Lemma verify_ok x :
  om_challenge C (od_cl (data x)) (od_ca (data x)) (od_cb (data x)) (od_cd (data x)) = Ok (sc x) ->
  om_verify (data x) = Ok true.
Proof using All.
  intros Ex. unfold om_verify. change (od_C (data x)) with C. rewrite Ex. cbn [res_bind].
  rewrite bits_check_ok. cbn [res_bind]. rewrite (FromUint64_sc 1), (FromUint64_sc 0) by (unfold is_u64; lia).
  cbn [res_bind od_zd od_f od_cd data]. rewrite (CommitAtIndex_sc PedG g h) by assumption. cbn [res_bind].
  rewrite selected_sum_sc by (rewrite ?LC; auto with points). rewrite LC, lin_selected.
  f_equal. apply point_eq_true. unfold js. cbn [power_sum]. unfold Scalar_Mul, Point_Add, Point_ScalarMult. rewrite !ScMul_sc.
  repeat match goal with |- context [ScalarMultKey ?p (sc ?z)] => change (ScalarMultKey p (sc z)) with (pmul p z) end.
  unfold cdk. set (l0 := lin _ C). set (l1 := lin _ C). set (l2 := lin _ C).
  assert (pt_ok l0 /\ pt_ok l1 /\ pt_ok l2) as (? & ? & ?) by (repeat split; by apply lin_pt).
  rewrite !identity_add by auto 6 with points.
  unfold ZD. module.
Qed.

Lemma data_ok_x x : om_data_ok (data x).
Proof using All.
  unfold om_data_ok. split; [by repeat constructor|]. cbn [od_cl od_ca od_cb od_cd od_f od_za od_zb od_zd data].
  split; [|split; [|apply sc_ok_sc]]; repeat (apply Forall_cons_2; [apply js_Forall; intros;
    first [apply com_pt|apply cdk_pt|apply sc_ok_sc]|]); apply Forall_nil_2.
Qed.
End complete.

(** ** Byte forms *)

(** The loops that read an array, whatever they read. *)
Fixpoint read_loop {T} (read : (option (list Z) -> T -> T) -> list Z -> nat -> st T nat)
    (set : nat -> option (list Z) -> T -> T) (n i : nat) (bytes : list Z) (offset : nat) : st T nat :=
  match n with
  | O => st_ret offset
  | S n' => st_bind (read (set i) bytes offset) (fun offset => read_loop read set n' (S i) bytes offset)
  end.

Lemma st_bind_ext {S A B} (m : st S A) (k k' : A -> st S B) s : (forall a s, k a s = k' a s) -> st_bind m k s = st_bind m k' s.
Proof. intros Hk. unfold st_bind. destruct (m s) as [s' [a| | |]]; done. Qed.

Section bytes.
Context `{CL : CurveLaws} `{DL : DigestLaws}.

Lemma read_points_loop {T} oob (set : nat -> option (list Z) -> T -> T) bytes : forall n i off s,
  read_points oob set n i bytes off s = read_loop (read_point oob) set n i bytes off s.
Proof using Type. induction n as [|n IH]; intros i off s; [done|]. cbn. apply st_bind_ext. intros. apply IH. Qed.

Lemma read_scalars_loop {T} oob (set : nat -> option (list Z) -> T -> T) bytes : forall n i off s,
  read_scalars oob set n i bytes off s = read_loop (read_scalar oob) set n i bytes off s.
Proof using Type. induction n as [|n IH]; intros i off s; [done|]. cbn. apply st_bind_ext. intros. apply IH. Qed.

Lemma read_point_run {T} oob (set : option (list Z) -> T -> T) mem off k post s :
  rest mem off (k ++ post) -> pt_ok k -> read_point oob set mem off s = (set (Some k) s, Ok (off + 32)%nat).
Proof using CL.
  intros Hr Hk. unfold read_point, next_key, Ed25519KeySize.
  rewrite (rest_room _ _ _ _ _ Hr) by (rewrite (pt_length k Hk); lia).
  rewrite (st_bind_lift _ k) by (eapply slice_rest; [exact Hr|by apply pt_length]).
  unfold st_assign. by rewrite FromBytesS_pt.
Qed.

Lemma read_scalar_run {T} oob (set : option (list Z) -> T -> T) mem off k post s :
  rest mem off (k ++ post) -> sc_ok k -> read_scalar oob set mem off s = (set (Some k) s, Ok (off + 32)%nat).
Proof using Type.
  intros Hr Hk. unfold read_scalar, next_key, Ed25519KeySize.
  rewrite (rest_room _ _ _ _ _ Hr) by (rewrite (sc_length k Hk); lia).
  rewrite (st_bind_lift _ k) by (eapply slice_rest; [exact Hr|by apply sc_length]).
  rewrite st_bind_put. by rewrite FromBytesS_exact by apply Hk.
Qed.

(** Reading [n] keys into the array behind a lens. *)
Lemma read_loop_run {T} read (Q : list Z -> Prop) (get : T -> option (list (option (list Z)))) put
    (Hread : forall (set : option (list Z) -> T -> T) mem off k post s, rest mem off (k ++ post) -> Q k ->
      read set mem off s = (set (Some k) s, Ok (off + 32)%nat))
    (HQ : forall k, Q k -> length k = 32%nat)
    (Hgp : forall v s, get (put v s) = v) (Hpp : forall v w s, put v (put w s) = put v s)
    (Hpg : forall s, put (get s) s = s) mem : forall ps fst off post s,
  rest mem off (concat ps ++ post) -> Forall Q ps -> get s = Some (map Some fst ++ replicate (length ps) None) ->
  read_loop read (set_at get put) (length ps) (length fst) mem off s =
  (put (Some (map Some (fst ++ ps))) s, Ok (off + 32 * length ps)%nat).
Proof using Type.
  induction ps as [|p ps IH]; intros fst off post s Hr Hps Hs.
  - cbn [length read_loop replicate] in *. rewrite app_nil_r in Hs. rewrite app_nil_r, <- Hs, Hpg.
    unfold st_ret. by rewrite Nat.mul_0_r, Nat.add_0_r.
  - apply Forall_cons in Hps as [Hp Hps]. cbn [length read_loop concat] in *. rewrite <- app_assoc in Hr.
    rewrite (st_bind_run _ _ _ _ _ (Hread _ _ _ _ _ _ Hr Hp)).
    apply (rest_move _ _ 32) in Hr; [|by apply HQ].
    replace (S (length fst)) with (length (fst ++ [p])) by (rewrite length_app; cbn; lia).
    rewrite (IH (fst ++ [p]) _ _ _ Hr Hps).
    + unfold set_at. rewrite Hpp, <- app_assoc. cbn [app]. do 2 f_equal. lia.
    + unfold set_at. rewrite Hgp, Hs. cbn [option_map replicate]. f_equal.
      rewrite insert_app_r_alt by (rewrite length_map; lia). rewrite length_map, Nat.sub_diag. cbn [insert list_insert].
      by rewrite map_app, <- app_assoc.
Qed.

(** Three keys of an array. *)
Lemma concat_length (Q : list Z -> Prop) l : (forall k, Q k -> length k = 32%nat) -> length l = 3%nat -> Forall Q l -> length (concat l) = 96%nat.
Proof using Type.
  intros HQ Hl HP. destruct l as [|a [|b [|c [|]]]]; try discriminate Hl. rewrite !Forall_cons in HP.
  destruct HP as (Ha & Hb & Hc & _). cbn [concat]. rewrite !length_app, !HQ by done. reflexivity.
Qed.

(** A field that can be read after it was written. *)
Definition lens {T V} (get : T -> V) (put : V -> T -> T) : Prop :=
  (forall v s, get (put v s) = v) /\ (forall v w s, put v (put w s) = put v s) /\ (forall s, put (get s) s = s).

Lemma points_step {T B} oob (get : T -> option (list (option (list Z)))) put l mem off post (K : nat -> st T B) s :
  lens get put -> rest mem off (concat l ++ post) -> length l = 3%nat -> Forall pt_ok l ->
  st_bind (st_put (put (Some (replicate 3 None)))) (fun _ => st_bind (read_points oob (set_at get put) 3 0 mem off) K) s =
  K (off + 96)%nat (put (Some (map Some l)) s).
Proof using CL.
  intros (Hgp & Hpp & Hpg) Hr Hl HP. rewrite st_bind_put.
  pose proof (read_loop_run (read_point oob) pt_ok get put (fun set mem off k post s => read_point_run oob set mem off k post s)
    pt_length Hgp Hpp Hpg mem l [] off post (put (Some (replicate 3 None)) s) Hr HP) as E.
  rewrite Hl in E. cbn [length app map] in E. rewrite <- read_points_loop in E.
  rewrite (st_bind_run _ _ _ _ _ (E (Hgp _ _))). by rewrite Hpp.
Qed.

Lemma scalars_step {T B} oob (get : T -> option (list (option (list Z)))) put l mem off post (K : nat -> st T B) s :
  lens get put -> rest mem off (concat l ++ post) -> length l = 3%nat -> Forall sc_ok l ->
  st_bind (st_put (put (Some (replicate 3 None)))) (fun _ => st_bind (read_scalars oob (set_at get put) 3 0 mem off) K) s =
  K (off + 96)%nat (put (Some (map Some l)) s).
Proof using Type.
  intros (Hgp & Hpp & Hpg) Hr Hl HP. rewrite st_bind_put.
  pose proof (read_loop_run (read_scalar oob) sc_ok get put (fun set mem off k post s => read_scalar_run oob set mem off k post s)
    sc_length Hgp Hpp Hpg mem l [] off post (put (Some (replicate 3 None)) s) Hr HP) as E.
  rewrite Hl in E. cbn [length app map] in E. rewrite <- read_scalars_loop in E.
  rewrite (st_bind_run _ _ _ _ _ (E (Hgp _ _))). by rewrite Hpp.
Qed.

Lemma array_bytes_some l : length l = 3%nat -> array_bytes 3 (Some (map Some l)) = Ok (concat l).
Proof using Type.
  intros Hl. unfold array_bytes. change (default [] (Some (map Some l))) with (map Some l).
  rewrite length_map, Hl. cbn [Nat.ltb Nat.leb]. rewrite take_ge by (rewrite length_map; lia). apply concat_points_some.
Qed.

Lemma om_roundtrip d p0 post : om_data_ok d ->
  exists b, OneOutOfManyProof_Bytes (om_proof_of d) = Ok b /\ length b = 704%nat /\
    OneOutOfManyProof_SetBytes (b ++ post) p0 =
    (mkOneOutOfManyProof (om_Statement p0) (om_cl (om_proof_of d)) (om_ca (om_proof_of d)) (om_cb (om_proof_of d))
       (om_cd (om_proof_of d)) (om_f (om_proof_of d)) (om_za (om_proof_of d)) (om_zb (om_proof_of d)) (om_zd (om_proof_of d)), Ok tt).
Proof using CL.
  destruct d as [C cl ca cb cd f za zb zd]. unfold om_data_ok. cbn [od_C od_cl od_ca od_cb od_cd od_f od_za od_zb od_zd].
  intros (Hl & Hp & Hs & Hzd). split_all. unfold CommitmentRingSizeExp in *.
  unfold OneOutOfManyProof_Bytes, om_proof_of, OneOutOfManyProof_isNil.
  cbn [is_nil orb om_cl om_ca om_cb om_cd om_f om_za om_zb om_zd od_C od_cl od_ca od_cb od_cd od_f od_za od_zb od_zd].
  unfold CommitmentRingSizeExp. rewrite !array_bytes_some by assumption. cbn [res_bind deref].
  eexists. split; [reflexivity|].
  match goal with |- length ?b = _ /\ _ => assert (length b = 704%nat) as Hlen end.
  { rewrite !length_app, (sc_length zd) by assumption.
    do 4 (erewrite (concat_length pt_ok) by (exact pt_length || eassumption)).
    do 3 (erewrite (concat_length sc_ok) by (exact sc_length || eassumption)). reflexivity. }
  split; [exact Hlen|]. unfold OneOutOfManyProof_SetBytes.
  rewrite (proj2 (Nat.eqb_neq _ 0)) by (rewrite length_app, Hlen; lia). rewrite <- !app_assoc.
  unfold CommitmentRingSizeExp. cbv zeta.
  set (mem := concat cl ++ _). pose proof (rest_start mem) as R. unfold mem in R at 2.
  do 4 (erewrite points_step; [|repeat split; by intros []|exact R|eassumption|eassumption];
        apply (rest_move _ _ 96) in R; [|by apply (concat_length pt_ok); [exact pt_length|..]]).
  do 3 (erewrite scalars_step; [|repeat split; by intros []|exact R|eassumption|eassumption];
        apply (rest_move _ _ 96) in R; [|by apply (concat_length sc_ok); [exact sc_length|..]]).
  rewrite (st_bind_run _ _ _ _ _ (read_scalar_run _ _ _ _ _ _ _ R ltac:(eassumption))). by destruct p0.
Qed.
End bytes.

(** ** Properties *)

Section theorems.
Context `{CL : CurveLaws} `{DL : DigestLaws}.

(** The commitment at the witness's index opens to zero with its randomness. *)
Definition opens_to_zero (wit : OneOutOfManyWitness) : Prop :=
  Forall pt_ok (ow_commitments wit) /\ length (ow_commitments wit) = CommitmentRingSize /\ sc_ok (ow_rand wit) /\
  exists idx com0, ow_indexIsZero wit = Z.of_nat idx /\ (idx < CommitmentRingSize)%nat /\
    ow_commitments wit !! idx = Some com0 /\ CommitAtIndex PedG (sc 0) (ow_rand wit) PedersenPrivateKeyIndex = Ok com0.

Lemma om_complete rnd wit : (forall i, sc_ok (rnd i)) -> opens_to_zero wit ->
  exists d, OneOutOfManyWitness_Prove rnd wit = Ok (om_proof_of d) /\ od_C d = ow_commitments wit /\
    om_data_ok d /\ om_verify d = Ok true.
Proof using CL DL.
  destruct wit as [C rand idx]. unfold opens_to_zero. cbn [ow_commitments ow_rand ow_indexIsZero].
  intros Hrnd (HC & LC & Hr & i & com0 & -> & Hidx & Ci & Ecom). rename i into idx.
  destruct PedG_at as (g & g2 & h & Eg & _ & Eh & Hg & _ & Hh).
  rewrite (sc_repr rand Hr) in *. set (w := key_val rand) in *.
  rewrite (CommitAtIndex_sc PedG g h) in Ecom by assumption. injection Ecom as <-.
  destruct (Prove_sc rnd Hrnd g h Eg Eh Hg Hh C HC LC idx Hidx w Ci) as (x & Ex & E).
  eexists. split; [exact E|]. split; [reflexivity|]. split.
  - by apply data_ok_x.
  - by apply verify_ok.
Qed.

(** C13: completeness: when the commitment at an index below eight opens to zero
    with the witness's randomness, [Prove] returns a complete proof about the
    given commitments, and the proof satisfies the verification equations, for
    any random scalars. *)
Theorem one_of_many_complete rnd C rand idx com0 : (forall i, sc_ok (rnd i)) ->
  Forall pt_ok C -> length C = CommitmentRingSize -> (idx < CommitmentRingSize)%nat -> sc_ok rand ->
  C !! idx = Some com0 -> CommitAtIndex PedG (sc 0) rand PedersenPrivateKeyIndex = Ok com0 ->
  exists d, OneOutOfManyWitness_Prove rnd (OneOutOfManyWitness_Set C rand (Z.of_nat idx)) = Ok (om_proof_of d) /\
    od_C d = C /\ om_data_ok d /\ om_verify d = Ok true.
Proof using CL DL.
  intros Hrnd HC LC Hidx Hr Ci Ecom. apply (om_complete rnd (OneOutOfManyWitness_Set C rand (Z.of_nat idx)) Hrnd).
  split; [exact HC|]. split; [exact LC|]. split; [exact Hr|]. by exists idx, com0.
Qed.

(** The tests of the arguments: any other number of commitments than eight,
    and an index above eight, are errors; the index eight, which is not the
    index of a commitment, passes, and the proof is the one for the index zero. *)
Theorem one_of_many_index rnd C rand idx :
  (length C <> CommitmentRingSize ->
   OneOutOfManyWitness_Prove rnd (OneOutOfManyWitness_Set C rand idx) =
   Err "the number of Commitment list's elements must be equal to CMRingSize") /\
  (length C = CommitmentRingSize ->
   (8 < idx -> OneOutOfManyWitness_Prove rnd (OneOutOfManyWitness_Set C rand idx) =
    Err "index is zero must be Index in list of commitments") /\
   OneOutOfManyWitness_Prove rnd (OneOutOfManyWitness_Set C rand 8) =
   OneOutOfManyWitness_Prove rnd (OneOutOfManyWitness_Set C rand 0)).
Proof using Type.
  unfold OneOutOfManyWitness_Prove, OneOutOfManyWitness_Set. cbn [ow_commitments ow_indexIsZero ow_rand].
  split; [intros Hl|intros ->; split; [intros Hi|]].
  - by rewrite (proj2 (Nat.eqb_neq _ _)).
  - rewrite Nat.eqb_refl. cbn [negb]. by rewrite (proj2 (Z.ltb_lt _ _)).
  - rewrite Nat.eqb_refl. reflexivity.
Qed.

Lemma read_scalars_safe {T} oob (set : nat -> option (list Z) -> T -> T) bytes : forall n i off,
  st_safe (read_scalars oob set n i bytes off).
Proof using Type.
  induction n as [|n IH]; intros i off; [done|]. apply st_bind_safe; [apply read_scalar_safe|]. intros o. apply IH.
Qed.

Hint Resolve read_point_safe read_scalar_safe read_points_safe read_scalars_safe : safe.

(** One step of a parser that is a sequence of reads. *)
Ltac safe_steps := repeat (apply st_bind_safe; [auto with safe|intros ?]).

Lemma om_SetBytes_safe bytes : st_safe (OneOutOfManyProof_SetBytes bytes).
Proof using Type. unfold OneOutOfManyProof_SetBytes. destruct (_ =? 0)%nat; [done|]. cbv zeta. safe_steps. done. Qed.

End theorems.

(** ** Witnesses *)

#[local] Existing Instances toy_curve toy_curve_laws toy_digests toy_digest_laws.

Definition toy_rand (i : nat) : list Z := sc (Z.of_nat i + 3).

Lemma one_of_many_complete_witness : exists C d,
  OneOutOfManyWitness_Prove toy_rand (OneOutOfManyWitness_Set C (sc 9) 5) = Ok (om_proof_of d) /\
  om_verify d = Ok true.
Proof.
  destruct PedG_at as (g & g2 & h & Eg & _ & Eh & Hg & _ & Hh).
  pose proof (CommitAtIndex_sc PedG g h 0 0 9 Eg Eh Hg Hh) as E.
  set (c := AddKeys (pmul g 0) (pmul h 9)) in E. assert (pt_ok c) as Hc by (apply pt_add; by apply pmul_pt).
  destruct (one_of_many_complete toy_rand (replicate 8 c) (sc 9) 5 c) as (d & Ed & _ & _ & Hv).
  - intros i. apply sc_ok_sc.
  - by apply Forall_replicate.
  - reflexivity.
  - unfold CommitmentRingSize. lia.
  - apply sc_ok_sc.
  - reflexivity.
  - exact E.
  - exists (replicate 8 c), d. split; [exact Ed|exact Hv].
Defined.

Lemma one_of_many_index_witness :
  OneOutOfManyWitness_Prove toy_rand (OneOutOfManyWitness_Set (replicate 8 GBASE) (sc 1) 8) =
  OneOutOfManyWitness_Prove toy_rand (OneOutOfManyWitness_Set (replicate 8 GBASE) (sc 1) 0).
Proof. apply (one_of_many_index toy_rand (replicate 8 GBASE) (sc 1) 9). reflexivity. Defined.

Definition toy_om : om_data :=
  let p := replicate 3 GBASE in let s := replicate 3 (sc 7) in mkOmData [] p p p p s s s (sc 8).

Lemma toy_om_ok : om_data_ok toy_om.
Proof.
  assert (Forall pt_ok (replicate 3 GBASE)) as Hp by (apply Forall_replicate, pt_base).
  assert (Forall sc_ok (replicate 3 (sc 7))) as Hs by (apply Forall_replicate, sc_ok_sc).
  split; [repeat (apply Forall_cons_2; [reflexivity|]); apply Forall_nil_2|].
  split; [repeat (apply Forall_cons_2; [exact Hp|]); apply Forall_nil_2|].
  split; [repeat (apply Forall_cons_2; [exact Hs|]); apply Forall_nil_2|]. apply sc_ok_sc.
Qed.
