(* ===== verification/ProofV1.v ===== *)
(** * ProofV1.v: the payment proof of version 1 (package zkp) and its bytes

    [src/privacy/v1/zkp/proof_v1.go]: a proof is a sequence of arrays, each led
    by its length, of sub-proofs, coins and commitments.  [SetBytes] writes into
    its receiver as it reads, so it is in the state monad, and the arrays of a
    proof whose reading stopped hold [nil] pointers.  The JSON wrappers
    (encoding/json, encoding/base64) are not modelled. *)

From stdpp Require Import base list gmap strings.
From Stdlib Require Import ZArith Lia.
From S2P Require Import Prelude Cursor Poly Common Hashing Crypto Key Base58 Base58Check Wallet CoinV2 Hybrid CoinV1 Linear Bulletproof Sigma OneOutOfMany.
Open Scope Z_scope.

Definition OneOfManyProofSize : Z := 704.
Definition SnPrivacyProofSize : Z := 320.
Definition SnNoPrivacyProofSize : Z := 192.

(** ** The range proofs of version 1 *)

(** The struct has no version; here the field is always 1, for which
    [RangeProof_Bytes] writes no prefix. *)
Definition RangeProofV1_Init : RangeProof := set_rp_version 1 (RangeProof_Init RangeProof_new).

Definition RangeProofV1_Bytes (proof : RangeProof) : res (list Z) := RangeProof_Bytes (set_rp_version 1 proof).

Definition RangeProofV1_SetBytes `{CurveOps} (bytes : list Z) : st RangeProof unit :=
  match bytes with [] => st_ret tt | _ => RangeProof_read bytes end.

(** ** The proof *)

Record ProofV1 := mkProofV1 {
  pv_oneOfMany : list (option OneOutOfManyProof);
  pv_serialNumber : list (option SNPrivacyProof);
  pv_serialNumberNoPrivacy : list (option SNNoPrivacyProof);
  pv_rangeProof : option RangeProof;
  pv_inputCoins : list (option PlainCoin);
  pv_outputCoins : list (option CoinV1);
  pv_comOutputValue : list (option (list Z));
  pv_comOutputSND : list (option (list Z));
  pv_comOutputShardID : list (option (list Z));
  pv_comInputSecretKey : option (list Z);
  pv_comInputValue : list (option (list Z));
  pv_comInputSND : list (option (list Z));
  pv_comInputShardID : option (list Z);
  pv_commitmentIndices : list Z }.

Definition ProofV1_new : ProofV1 := mkProofV1 [] [] [] None [] [] [] [] [] None [] [] None [].

Definition ProofV1_Init (p : ProofV1) : ProofV1 :=
  mkProofV1 [] [] (pv_serialNumberNoPrivacy p) (Some RangeProofV1_Init) [] [] [] [] []
    (Some new_key) [] [] (Some new_key) (pv_commitmentIndices p).

Definition ProofV1_IsPrivacy (p : option ProofV1) : bool :=
  match p with Some p => negb (length (pv_oneOfMany p) =? 0)%nat | None => false end.

Section setters.
Implicit Type p : ProofV1.
Definition set_pv_oneOfMany v p := mkProofV1 v (pv_serialNumber p) (pv_serialNumberNoPrivacy p) (pv_rangeProof p)
  (pv_inputCoins p) (pv_outputCoins p) (pv_comOutputValue p) (pv_comOutputSND p) (pv_comOutputShardID p)
  (pv_comInputSecretKey p) (pv_comInputValue p) (pv_comInputSND p) (pv_comInputShardID p) (pv_commitmentIndices p).
Definition set_pv_serialNumber v p := mkProofV1 (pv_oneOfMany p) v (pv_serialNumberNoPrivacy p) (pv_rangeProof p)
  (pv_inputCoins p) (pv_outputCoins p) (pv_comOutputValue p) (pv_comOutputSND p) (pv_comOutputShardID p)
  (pv_comInputSecretKey p) (pv_comInputValue p) (pv_comInputSND p) (pv_comInputShardID p) (pv_commitmentIndices p).
Definition set_pv_serialNumberNoPrivacy v p := mkProofV1 (pv_oneOfMany p) (pv_serialNumber p) v (pv_rangeProof p)
  (pv_inputCoins p) (pv_outputCoins p) (pv_comOutputValue p) (pv_comOutputSND p) (pv_comOutputShardID p)
  (pv_comInputSecretKey p) (pv_comInputValue p) (pv_comInputSND p) (pv_comInputShardID p) (pv_commitmentIndices p).
Definition set_pv_rangeProof v p := mkProofV1 (pv_oneOfMany p) (pv_serialNumber p) (pv_serialNumberNoPrivacy p) v
  (pv_inputCoins p) (pv_outputCoins p) (pv_comOutputValue p) (pv_comOutputSND p) (pv_comOutputShardID p)
  (pv_comInputSecretKey p) (pv_comInputValue p) (pv_comInputSND p) (pv_comInputShardID p) (pv_commitmentIndices p).
Definition set_pv_inputCoins v p := mkProofV1 (pv_oneOfMany p) (pv_serialNumber p) (pv_serialNumberNoPrivacy p)
  (pv_rangeProof p) v (pv_outputCoins p) (pv_comOutputValue p) (pv_comOutputSND p) (pv_comOutputShardID p)
  (pv_comInputSecretKey p) (pv_comInputValue p) (pv_comInputSND p) (pv_comInputShardID p) (pv_commitmentIndices p).
Definition set_pv_outputCoins v p := mkProofV1 (pv_oneOfMany p) (pv_serialNumber p) (pv_serialNumberNoPrivacy p)
  (pv_rangeProof p) (pv_inputCoins p) v (pv_comOutputValue p) (pv_comOutputSND p) (pv_comOutputShardID p)
  (pv_comInputSecretKey p) (pv_comInputValue p) (pv_comInputSND p) (pv_comInputShardID p) (pv_commitmentIndices p).
Definition set_pv_comOutputValue v p := mkProofV1 (pv_oneOfMany p) (pv_serialNumber p) (pv_serialNumberNoPrivacy p)
  (pv_rangeProof p) (pv_inputCoins p) (pv_outputCoins p) v (pv_comOutputSND p) (pv_comOutputShardID p)
  (pv_comInputSecretKey p) (pv_comInputValue p) (pv_comInputSND p) (pv_comInputShardID p) (pv_commitmentIndices p).
Definition set_pv_comOutputSND v p := mkProofV1 (pv_oneOfMany p) (pv_serialNumber p) (pv_serialNumberNoPrivacy p)
  (pv_rangeProof p) (pv_inputCoins p) (pv_outputCoins p) (pv_comOutputValue p) v (pv_comOutputShardID p)
  (pv_comInputSecretKey p) (pv_comInputValue p) (pv_comInputSND p) (pv_comInputShardID p) (pv_commitmentIndices p).
Definition set_pv_comOutputShardID v p := mkProofV1 (pv_oneOfMany p) (pv_serialNumber p) (pv_serialNumberNoPrivacy p)
  (pv_rangeProof p) (pv_inputCoins p) (pv_outputCoins p) (pv_comOutputValue p) (pv_comOutputSND p) v
  (pv_comInputSecretKey p) (pv_comInputValue p) (pv_comInputSND p) (pv_comInputShardID p) (pv_commitmentIndices p).
Definition set_pv_comInputSecretKey v p := mkProofV1 (pv_oneOfMany p) (pv_serialNumber p) (pv_serialNumberNoPrivacy p)
  (pv_rangeProof p) (pv_inputCoins p) (pv_outputCoins p) (pv_comOutputValue p) (pv_comOutputSND p)
  (pv_comOutputShardID p) v (pv_comInputValue p) (pv_comInputSND p) (pv_comInputShardID p) (pv_commitmentIndices p).
Definition set_pv_comInputValue v p := mkProofV1 (pv_oneOfMany p) (pv_serialNumber p) (pv_serialNumberNoPrivacy p)
  (pv_rangeProof p) (pv_inputCoins p) (pv_outputCoins p) (pv_comOutputValue p) (pv_comOutputSND p)
  (pv_comOutputShardID p) (pv_comInputSecretKey p) v (pv_comInputSND p) (pv_comInputShardID p) (pv_commitmentIndices p).
Definition set_pv_comInputSND v p := mkProofV1 (pv_oneOfMany p) (pv_serialNumber p) (pv_serialNumberNoPrivacy p)
  (pv_rangeProof p) (pv_inputCoins p) (pv_outputCoins p) (pv_comOutputValue p) (pv_comOutputSND p)
  (pv_comOutputShardID p) (pv_comInputSecretKey p) (pv_comInputValue p) v (pv_comInputShardID p) (pv_commitmentIndices p).
Definition set_pv_comInputShardID v p := mkProofV1 (pv_oneOfMany p) (pv_serialNumber p) (pv_serialNumberNoPrivacy p)
  (pv_rangeProof p) (pv_inputCoins p) (pv_outputCoins p) (pv_comOutputValue p) (pv_comOutputSND p)
  (pv_comOutputShardID p) (pv_comInputSecretKey p) (pv_comInputValue p) (pv_comInputSND p) v (pv_commitmentIndices p).
Definition set_pv_commitmentIndices v p := mkProofV1 (pv_oneOfMany p) (pv_serialNumber p) (pv_serialNumberNoPrivacy p)
  (pv_rangeProof p) (pv_inputCoins p) (pv_outputCoins p) (pv_comOutputValue p) (pv_comOutputSND p)
  (pv_comOutputShardID p) (pv_comInputSecretKey p) (pv_comInputValue p) (pv_comInputSND p) (pv_comInputShardID p) v.
End setters.

Section proof.
Context `{CO : CurveOps} `{DG : Digests} `{BC : BlockCipher}.

(** ** Bytes *)

(** The elements of an array, each with its length bytes. *)
Definition items_bytes {E} (enc : E -> res (list Z)) (l : list (option E)) : res (list Z) :=
  let* bs := res_map (fun o => let* e := deref o in enc e) l in
  Ok (u8 (Z.of_nat (length l)) :: concat bs).

Definition output_coin_bytes (c : CoinV1) : list Z :=
  let b := CoinV1_Bytes c in
  (if (length b <? 256)%nat then [u8 (Z.of_nat (length b))] else IntToBytes (Z.of_nat (length b))) ++ b.

Definition points_bytes (l : list (option (list Z))) : res (list Z) :=
  items_bytes (fun k => Ok (u8 (Z.of_nat Ed25519KeySize) :: k)) l.

(** A commitment that may be absent. *)
Definition point_bytes (o : option (list Z)) : list Z :=
  match o with Some k => u8 (Z.of_nat Ed25519KeySize) :: k | None => [0] end.

Definition ProofV1_Bytes (p : ProofV1) : res (list Z) :=
  let hasPrivacy := (0 <? length (pv_oneOfMany p))%nat in
  let* b1 := items_bytes (fun q => let* b := OneOutOfManyProof_Bytes q in
                            Ok (IntToBytes OneOfManyProofSize ++ b)) (pv_oneOfMany p) in
  let* b2 := items_bytes (fun q => let* b := SNPrivacyProof_Bytes q in
                            Ok (IntToBytes SnPrivacyProofSize ++ b)) (pv_serialNumber p) in
  let* b3 := items_bytes (fun q => let* b := SNNoPrivacyProof_Bytes q in
                            Ok (u8 SnNoPrivacyProofSize :: b)) (pv_serialNumberNoPrivacy p) in
  let* b4 := if hasPrivacy then
               let* rp := deref (pv_rangeProof p) in
               let* b := RangeProofV1_Bytes rp in
               Ok (IntToBytes (Z.of_nat (length b)) ++ b)
             else Ok [0; 0] in
  let* b5 := items_bytes (fun c => let b := PlainCoin_Bytes c in Ok (u8 (Z.of_nat (length b)) :: b)) (pv_inputCoins p) in
  let* b6 := items_bytes (fun c => Ok (output_coin_bytes c)) (pv_outputCoins p) in
  let* b7 := points_bytes (pv_comOutputValue p) in
  let* b8 := points_bytes (pv_comOutputSND p) in
  let* b9 := points_bytes (pv_comOutputShardID p) in
  let b10 := point_bytes (pv_comInputSecretKey p) in
  let* b11 := points_bytes (pv_comInputValue p) in
  let* b12 := points_bytes (pv_comInputSND p) in
  let b13 := point_bytes (pv_comInputShardID p) in
  let* b14 := res_map (fun i => AddPaddingBigInt (i64 i) 8) (pv_commitmentIndices p) in
  Ok (b1 ++ b2 ++ b3 ++ b4 ++ b5 ++ b6 ++ b7 ++ b8 ++ b9 ++ b10 ++ b11 ++ b12 ++ b13 ++ concat b14).

(** ** Parsing *)

(** [for i := i0; i < i0 + n; i++] over readers of the element [i] at an offset. *)
Fixpoint read_items {T} (read : nat -> nat -> st T nat) (n i offset : nat) : st T nat :=
  match n with
  | O => st_ret offset
  | S n' =>
      let! offset := read i offset in
      read_items read n' (S i) offset
  end.

(** An array: its length, [make], and its elements. *)
Definition read_array_of {T} (oob : string) (alloc : nat -> T -> T) (read : nat -> nat -> st T nat)
    (bytes : list Z) (offset : nat) : st T nat :=
  if (length bytes <=? offset)%nat then st_fail oob
  else
    let! b := st_lift (index bytes offset) in
    let n := Z.to_nat b in
    let! _ := st_put (alloc n) in
    read_items read n 0 (offset + 1).

(** The length of an element, in two bytes or in one. *)
Definition read_length2 {T} (oob : string) (bytes : list Z) (offset : nat) : st T nat :=
  if (length bytes <? offset + 2)%nat then st_fail oob
  else
    let! lb := st_lift (slice bytes offset (offset + 2)) in
    st_ret (Z.to_nat (BytesToInt lb)).

Definition read_length1 {T} (oob : string) (bytes : list Z) (offset : nat) : st T nat :=
  if (length bytes <=? offset)%nat then st_fail oob
  else
    let! b := st_lift (index bytes offset) in
    st_ret (Z.to_nat b).

(** The next [n] bytes. *)
Definition next_bytes {T} (oob : string) (bytes : list Z) (offset n : nat) : st T (list Z) :=
  if (length bytes <? offset + n)%nat then st_fail oob
  else st_lift (slice bytes offset (offset + n)).

(** [arr[i] = new(E).Init()], then its [SetBytes], which is given the bytes and
    what its slice can reach beyond them. *)
Definition read_element {T E} (oob : string) (set : option E -> T -> T) (init : E)
    (parse : list Z -> list Z -> st E unit) (bytes : list Z) (offset n : nat) : st T nat :=
  let! _ := st_put (set (Some init)) in
  let! data := next_bytes oob bytes offset n in
  let! _ := (fun p => let '(e, r) := parse data (drop (offset + n) bytes) init in (set (Some e) p, r)) in
  st_ret (offset + n)%nat.

Definition oob_oneOfMany : string := "out of range one out of many proof".
Definition read_oneOfMany (bytes : list Z) (i offset : nat) : st ProofV1 nat :=
  let! n := read_length2 oob_oneOfMany bytes offset in
  read_element oob_oneOfMany (fun v p => set_pv_oneOfMany (<[i := v]> (pv_oneOfMany p)) p)
    (OneOutOfManyProof_Init OneOutOfManyProof_new) (fun b _ => OneOutOfManyProof_SetBytes b) bytes (offset + 2) n.

Definition oob_serialNumber : string := "out of range serial number proof".
Definition read_serialNumber (spare bytes : list Z) (i offset : nat) : st ProofV1 nat :=
  let! n := read_length2 oob_serialNumber bytes offset in
  read_element oob_serialNumber (fun v p => set_pv_serialNumber (<[i := v]> (pv_serialNumber p)) p)
    SNPrivacyProof_Init (fun b beyond => SNPrivacyProof_SetBytes b (beyond ++ spare)) bytes (offset + 2) n.

Definition oob_noPrivacy : string := "out of range serial number no privacy proof".
Definition read_noPrivacy (bytes : list Z) (i offset : nat) : st ProofV1 nat :=
  let! n := read_length1 oob_noPrivacy bytes offset in
  read_element oob_noPrivacy (fun v p => set_pv_serialNumberNoPrivacy (<[i := v]> (pv_serialNumberNoPrivacy p)) p)
    SNNoPrivacyProof_Init (fun b _ => SNNoPrivacyProof_SetBytes b) bytes (offset + 1) n.

(** No range proof is read, and none is written, for the length 0. *)
Definition oob_range : string := "out of range aggregated range proof".
Definition read_range (bytes : list Z) (offset : nat) : st ProofV1 nat :=
  let! n := read_length2 oob_range bytes offset in
  if (0 <? n)%nat
  then read_element oob_range set_pv_rangeProof RangeProofV1_Init (fun b _ => RangeProofV1_SetBytes b) bytes (offset + 2) n
  else st_ret (offset + 2)%nat.

(** The coin is assigned with its error. *)
Definition oob_input : string := "out of range input coins".
Definition read_inputCoin (bytes : list Z) (i offset : nat) : st ProofV1 nat :=
  let! n := read_length1 oob_input bytes offset in
  let! coinBytes := next_bytes oob_input bytes (offset + 1) n in
  let! _ := (fun p => let '(c, r) := NewPlainCoinFromByte coinBytes in
                      (set_pv_inputCoins (<[i := Some c]> (pv_inputCoins p)) p,
                       res_wrap "set byte to inputCoin got error" r)) in
  st_ret (offset + 1 + n)%nat.

(** A length of one byte is tried first, then, into the same coin, one of two
    bytes; the error of the first attempt is returned. *)
Definition oob_output : string := "out of range output coins".
Definition read_outputCoin (bytes : list Z) (i offset : nat) : st ProofV1 nat :=
  let setCoin c p := set_pv_outputCoins (<[i := Some c]> (pv_outputCoins p)) p in
  let new := mkCoinV1 newPlainCoinV1 None in
  let! _ := st_put (setCoin new) in
  let! n := read_length1 oob_output bytes offset in
  let! data := next_bytes oob_output bytes (offset + 1) n in
  match CoinV1_SetBytes data new with
  | (c, Err m) =>
      let! _ := st_put (setCoin c) in
      if (length bytes <? offset + 2)%nat then st_fail oob_output
      else
        let! lb := st_lift (slice bytes offset (offset + 2)) in
        let n := Z.to_nat (BytesToInt lb) in
        let! data := next_bytes oob_output bytes (offset + 2) n in
        let! _ := (fun p => let '(c, r) := CoinV1_SetBytes data c in
                            (setCoin c p, match r with Err _ => Err m | _ => r end)) in
        st_ret (offset + 2 + n)%nat
  | (c, r) =>
      let! _ := (fun p => (setCoin c p, r)) in
      st_ret (offset + 1 + n)%nat
  end.

(** [arr[i], err = new(Point).FromBytesS(...)] *)
Definition read_sized_point {T} (oob : string) (set : option (list Z) -> T -> T) (bytes : list Z) (offset n : nat) : st T nat :=
  let! b := next_bytes oob bytes offset n in
  st_assign set None "invalid point value" (let* k := Point_FromBytesS b in Ok (Some k, (offset + n)%nat)).

Definition read_points_of (oob : string) (get : ProofV1 -> list (option (list Z)))
    (put : list (option (list Z)) -> ProofV1 -> ProofV1) (bytes : list Z) (offset : nat) : st ProofV1 nat :=
  read_array_of oob (fun n => put (replicate n None))
    (fun i offset =>
       let! n := read_length1 oob bytes offset in
       read_sized_point oob (fun v p => put (<[i := v]> (get p)) p) bytes (offset + 1) n) bytes offset.

(** A commitment of length 0 is not read and not written. *)
Definition read_optional_point (oob : string) (set : option (list Z) -> ProofV1 -> ProofV1) (bytes : list Z)
    (offset : nat) : st ProofV1 nat :=
  let! n := read_length1 oob bytes offset in
  if (0 <? n)%nat then read_sized_point oob set bytes (offset + 1) n else st_ret (offset + 1)%nat.

Definition oob_indices : string := "out of range commitment indices".
Definition read_index (bytes : list Z) (i offset : nat) : st ProofV1 nat :=
  let! b := next_bytes oob_indices bytes offset 8 in
  let! _ := st_put (fun p => set_pv_commitmentIndices (<[i := u64 (bigint_set_bytes b)]> (pv_commitmentIndices p)) p) in
  st_ret (offset + 8)%nat.

(** [spare] is what lies between the length and the capacity of [bytes]: the parser of
    serial-number proofs may read it. *)
Definition ProofV1_SetBytes (spare bytes : list Z) : st ProofV1 unit :=
  if (length bytes =? 0)%nat then st_fail "length of proof is zero"
  else
    let! offset := read_array_of oob_oneOfMany (fun n => set_pv_oneOfMany (replicate n None)) (read_oneOfMany bytes) bytes 0 in
    let! offset := read_array_of oob_serialNumber (fun n => set_pv_serialNumber (replicate n None)) (read_serialNumber spare bytes) bytes offset in
    let! offset := read_array_of oob_noPrivacy (fun n => set_pv_serialNumberNoPrivacy (replicate n None)) (read_noPrivacy bytes) bytes offset in
    let! offset := read_range bytes offset in
    let! offset := read_array_of oob_input (fun n => set_pv_inputCoins (replicate n None)) (read_inputCoin bytes) bytes offset in
    let! offset := read_array_of oob_output (fun n => set_pv_outputCoins (replicate n None)) (read_outputCoin bytes) bytes offset in
    let! offset := read_points_of "out of range commitment output coins value" pv_comOutputValue set_pv_comOutputValue bytes offset in
    let! offset := read_points_of "out of range commitment output coins snd" pv_comOutputSND set_pv_comOutputSND bytes offset in
    let! offset := read_points_of "out of range commitment output coins shardid" pv_comOutputShardID set_pv_comOutputShardID bytes offset in
    let! offset := read_optional_point "out of range commitment input coins private key" set_pv_comInputSecretKey bytes offset in
    let! offset := read_points_of "out of range commitment input coins value" pv_comInputValue set_pv_comInputValue bytes offset in
    let! offset := read_points_of "out of range commitment input coins snd" pv_comInputSND set_pv_comInputSND bytes offset in
    let! offset := read_optional_point "out of range commitment input coins shardid" set_pv_comInputShardID bytes offset in
    fun p =>
      let n := (length (pv_oneOfMany p) * CommitmentRingSize)%nat in
      (let! _ := st_put (set_pv_commitmentIndices (replicate n 0)) in
       let! _ := read_items (read_index bytes) n 0 offset in
       st_ret tt) p.
End proof.

(** ** Lemmas: arrays of elements *)

Section items.
Context {T E : Type} (get : T -> list (option E)) (put : list (option E) -> T -> T) (Hlens : lens get put).
Context (enc : E -> list Z) (mem : list Z).

(** [read] reads the element [e] into the place [i]. *)
Definition reads (read : nat -> nat -> st T nat) (e : E) : Prop :=
  forall i off post s, rest mem off (enc e ++ post) ->
    read i off s = (put (<[i := Some e]> (get s)) s, Ok (off + length (enc e))%nat).

Lemma items_run read es : Forall (reads read) es -> forall fst off post s,
  get s = map Some fst ++ replicate (length es) None -> rest mem off (concat (map enc es) ++ post) ->
  read_items read (length es) (length fst) off s =
  (put (map Some (fst ++ es)) s, Ok (off + length (concat (map enc es)))%nat).
Proof using Hlens.
  destruct Hlens as (Hgp & Hpp & Hpg). induction 1 as [|e es He Hes IH]; intros fst off post s Hs R.
  - cbn [length read_items map concat replicate] in *. rewrite app_nil_r in Hs. rewrite app_nil_r, <- Hs, Hpg.
    unfold st_ret. by rewrite Nat.add_0_r.
  - cbn [length read_items map concat] in *. rewrite <- app_assoc in R.
    rewrite (st_bind_run _ _ _ _ _ (He _ _ _ _ R)). apply (rest_move _ _ (length (enc e))) in R; [|done].
    replace (S (length fst)) with (length (fst ++ [e])) by (rewrite length_app; cbn; lia).
    rewrite (IH (fst ++ [e]) _ post).
    + rewrite Hpp, <- app_assoc. cbn [app]. do 2 f_equal. rewrite length_app. lia.
    + rewrite Hgp, Hs. cbn [replicate]. rewrite insert_app_r_alt by (rewrite length_map; lia).
      rewrite length_map, Nat.sub_diag. cbn [insert list_insert]. by rewrite map_app, <- app_assoc.
    + exact R.
Qed.

Definition array_enc (es : list E) : list Z := Z.of_nat (length es) :: concat (map enc es).

Lemma array_run {B} oob read es off post (K : nat -> st T B) s : Forall (reads read) es ->
  rest mem off (array_enc es ++ post) ->
  st_bind (read_array_of oob (fun n => put (replicate n None)) read mem off) K s =
  K (off + length (array_enc es))%nat (put (map Some es) s).
Proof using Hlens.
  intros Hes R. pose proof Hlens as (Hgp & Hpp & Hpg). apply st_bind_run. unfold read_array_of.
  cbn [array_enc app] in R. rewrite (rest_more _ _ _ _ R).
  rewrite (st_bind_lift _ _ _ _ (index_rest _ _ _ _ R)), st_bind_put, Nat2Z.id.
  apply rest_move_one in R. pose proof (items_run read es Hes [] (off + 1) post (put (replicate (length es) None) s)) as Hrun.
  cbn [length app map] in Hrun. rewrite Hrun by (rewrite ?Hgp; done). rewrite Hpp. do 2 f_equal.
  unfold array_enc. cbn [length]. lia.
Qed.

Lemma items_bytes_some (encr : E -> res (list Z)) es : (length es <= 255)%nat -> Forall (fun e => encr e = Ok (enc e)) es ->
  items_bytes encr (map Some es) = Ok (array_enc es).
Proof using Type.
  intros Hl He. unfold items_bytes.
  assert (res_map (fun o => let* e := deref o in encr e) (map Some es) = Ok (map enc es)) as ->.
  { clear Hl. induction He as [|e es He Hes IH]; [done|]. cbn [map res_map deref res_bind]. rewrite He. cbn [res_bind].
    by rewrite IH. }
  cbn [res_bind]. by rewrite length_map, u8_length.
Qed.
End items.

(** The laws of the fields of a record, and the steps over the fields of a format:
    [R] is what is left to read, [H] that the elements of the next array are
    well formed, [lem] how one of them is read. *)
Ltac solve_lens := repeat split; by intros [].
Ltac moved R := eapply rest_move in R; [|reflexivity].
Ltac next_array get put R H lem :=
  erewrite (array_run get put); [|solve_lens| |exact R];
  [moved R|rewrite ?Forall_map; eapply Forall_impl; [exact H|]; intros ? ?; by apply lem].

Section elements.
Context `{CL : CurveLaws} `{DL : DigestLaws}.
Context (mem : list Z).

Lemma read_length2_run {T} oob off n post (s : T) : Z.of_nat n < 65536 ->
  rest mem off (IntToBytes (Z.of_nat n) ++ post) ->
  read_length2 oob mem off s = (s, Ok n) /\ rest mem (off + 2) post.
Proof using Type.
  intros Hn R. assert (length (IntToBytes (Z.of_nat n)) = 2%nat) as Hl.
  { rewrite IntToBytes_small by lia. by rewrite length_be_bytes. }
  split; [|eapply rest_move; [exact R|exact Hl]]. unfold read_length2.
  rewrite (rest_room _ _ 2 _ _ R) by lia. rewrite (st_bind_lift _ _ _ _ (slice_rest _ _ _ _ _ R Hl)).
  unfold st_ret. do 2 f_equal. rewrite IntToBytes_small by lia. unfold BytesToInt.
  rewrite length_be_bytes. cbn [Nat.eqb negb]. unfold bigint_set_bytes. rewrite of_digits_be_bytes.
  change (256 ^ Z.of_nat 2) with 65536. rewrite Z.mod_small by lia. unfold i64. rewrite Z.mod_small by lia. lia.
Qed.

Lemma read_length1_run {T} oob off n post (s : T) : rest mem off (Z.of_nat n :: post) ->
  read_length1 oob mem off s = (s, Ok n) /\ rest mem (off + 1) post.
Proof using Type.
  intros R. split; [|by eapply rest_move_one]. unfold read_length1.
  rewrite (rest_more _ _ _ _ R), (st_bind_lift _ _ _ _ (index_rest _ _ _ _ R)). unfold st_ret. by rewrite Nat2Z.id.
Qed.

Lemma next_bytes_run {T} oob off b post (s : T) : rest mem off (b ++ post) ->
  next_bytes oob mem off (length b) s = (s, Ok b).
Proof using Type.
  intros R. unfold next_bytes. rewrite (rest_room _ _ _ _ _ R) by lia. unfold st_lift.
  by rewrite (slice_rest _ _ _ _ _ R eq_refl).
Qed.

Lemma read_element_run {T E} oob (set : option E -> T -> T) init parse (e : E) b off post s :
  (forall v w s, set v (set w s) = set v s) -> (forall beyond, parse b beyond init = (e, Ok tt)) ->
  rest mem off (b ++ post) ->
  read_element oob set init parse mem off (length b) s = (set (Some e) s, Ok (off + length b)%nat).
Proof using Type.
  intros Hset Hp R. unfold read_element. rewrite st_bind_put.
  rewrite (st_bind_run _ _ _ _ _ (next_bytes_run oob off b post _ R)).
  rewrite (st_bind_run _ _ _ (set (Some e) s) tt); [done|]. by rewrite Hp, Hset.
Qed.
End elements.

(** *** The elements of a payment proof *)

Section kinds.
Context `{CL : CurveLaws} `{DL : DigestLaws} `{BC : BlockCipher}.
Context (mem : list Z).

Definition bytes_of (r : res (list Z)) : list Z := match r with Ok b => b | _ => [] end.

(** Writing a place of an array twice. *)
Lemma set_place {T E} (get : T -> list (option E)) put i (v w : option E) s : lens get put ->
  put (<[i := v]> (get (put (<[i := w]> (get s)) s))) (put (<[i := w]> (get s)) s) = put (<[i := v]> (get s)) s.
Proof using Type. intros (Hgp & Hpp & _). by rewrite Hgp, Hpp, list_insert_insert_eq. Qed.

(** An element with a length of two bytes, or of one, before it. *)
Lemma reads_element2 {T E} oob (get : T -> list (option E)) put init parse (e : E) b :
  lens get put -> Z.of_nat (length b) < 65536 -> (forall beyond, parse b beyond init = (e, Ok tt)) ->
  reads get put (fun _ => IntToBytes (Z.of_nat (length b)) ++ b) mem
    (fun i offset => st_bind (read_length2 oob mem offset)
       (fun n => read_element oob (fun v p => put (<[i := v]> (get p)) p) init parse mem (offset + 2) n)) e.
Proof using Type.
  intros Hlens Hl Hp i off post s R. rewrite <- app_assoc in R.
  destruct (read_length2_run mem oob off (length b) _ s Hl R) as [E1 R1]. rewrite (st_bind_run _ _ _ _ _ E1).
  assert (length (IntToBytes (Z.of_nat (length b))) = 2%nat) as Hl2 by (rewrite IntToBytes_small by lia; apply length_be_bytes).
  rewrite (read_element_run mem oob _ init parse e b _ post) by (try assumption; intros; by apply set_place).
  do 2 f_equal. rewrite length_app. lia.
Qed.

Lemma reads_element1 {T E} oob (get : T -> list (option E)) put init parse (e : E) b :
  lens get put -> (forall beyond, parse b beyond init = (e, Ok tt)) ->
  reads get put (fun _ => Z.of_nat (length b) :: b) mem
    (fun i offset => st_bind (read_length1 oob mem offset)
       (fun n => read_element oob (fun v p => put (<[i := v]> (get p)) p) init parse mem (offset + 1) n)) e.
Proof using Type.
  intros Hlens Hp i off post s R. cbn [app] in R.
  destruct (read_length1_run mem oob off (length b) _ s R) as [E1 R1]. rewrite (st_bind_run _ _ _ _ _ E1).
  rewrite (read_element_run mem oob _ init parse e b _ post) by (try assumption; intros; by apply set_place).
  do 2 f_equal. cbn [length]. lia.
Qed.

(** One-out-of-many proofs, without their statements. *)
Definition no_statement (d : om_data) : om_data :=
  mkOmData [] (od_cl d) (od_ca d) (od_cb d) (od_cd d) (od_f d) (od_za d) (od_zb d) (od_zd d).
Definition om_enc (q : OneOutOfManyProof) : list Z := IntToBytes 704 ++ bytes_of (OneOutOfManyProof_Bytes q).

Lemma reads_oneOfMany d : om_data_ok d ->
  reads pv_oneOfMany set_pv_oneOfMany om_enc mem (read_oneOfMany mem) (om_proof_of (no_statement d)).
Proof using CL.
  intros Hd i off post s R.
  destruct (om_roundtrip (no_statement d) (OneOutOfManyProof_Init OneOutOfManyProof_new) [] Hd) as (b & Eb & Lb & Rb).
  rewrite app_nil_r in Rb. unfold om_enc in *. rewrite Eb in *. cbn [bytes_of] in *.
  pose proof (reads_element2 oob_oneOfMany pv_oneOfMany set_pv_oneOfMany (OneOutOfManyProof_Init OneOutOfManyProof_new)
    (fun b _ => OneOutOfManyProof_SetBytes b) (om_proof_of (no_statement d)) b ltac:(solve_lens) ltac:(lia) (fun _ => Rb)) as Hr.
  unfold reads in Hr. rewrite Lb in Hr. exact (Hr i off post s R).
Qed.

Definition sn_enc (q : SNPrivacyProof) : list Z := IntToBytes 320 ++ bytes_of (SNPrivacyProof_Bytes q).

Lemma reads_serialNumber spare q : snp_ok q ->
  reads pv_serialNumber set_pv_serialNumber sn_enc mem (read_serialNumber spare mem) q.
Proof using CL.
  intros Hq i off post s R.
  assert (spr_stmt SNPrivacyProof_Init <> None) as Hi by (intros E; discriminate E).
  destruct (SNPrivacy_roundtrip q SNPrivacyProof_Init [] [] Hq Hi) as (b & Eb & Lb & _).
  assert (forall beyond, SNPrivacyProof_SetBytes b beyond SNPrivacyProof_Init = (q, Ok tt)) as Rb.
  { intros beyond. destruct (SNPrivacy_roundtrip q SNPrivacyProof_Init [] beyond Hq Hi) as (b' & Eb' & _ & Rb).
    rewrite Eb in Eb'. injection Eb' as <-. by rewrite app_nil_r in Rb. }
  unfold sn_enc in *. rewrite Eb in *. cbn [bytes_of] in *.
  pose proof (reads_element2 oob_serialNumber pv_serialNumber set_pv_serialNumber SNPrivacyProof_Init
    (fun b beyond => SNPrivacyProof_SetBytes b (beyond ++ spare)) q b ltac:(solve_lens) ltac:(lia) (fun beyond => Rb (beyond ++ spare))) as Hr.
  unfold reads in Hr. rewrite Lb in Hr. exact (Hr i off post s R).
Qed.

Definition nn_enc (q : SNNoPrivacyProof) : list Z := 192 :: bytes_of (SNNoPrivacyProof_Bytes q).

Lemma reads_snn {T} oob (get : T -> list (option SNNoPrivacyProof)) put q : lens get put -> snnp_ok q ->
  reads get put nn_enc mem
    (fun i offset => st_bind (read_length1 oob mem offset)
       (fun n => read_element oob (fun v p => put (<[i := v]> (get p)) p) SNNoPrivacyProof_Init
          (fun b _ => SNNoPrivacyProof_SetBytes b) mem (offset + 1) n)) q.
Proof using CL.
  intros Hlens Hq i off post s R.
  destruct (SNNoPrivacy_roundtrip q SNNoPrivacyProof_Init [] Hq ltac:(intros E; discriminate E)) as (b & Eb & Lb & Rb).
  rewrite app_nil_r in Rb. unfold nn_enc in *. rewrite Eb in *. cbn [bytes_of] in *.
  pose proof (reads_element1 oob get put SNNoPrivacyProof_Init
    (fun b _ => SNNoPrivacyProof_SetBytes b) q b Hlens (fun _ => Rb)) as Hr.
  unfold reads in Hr. rewrite Lb in Hr. exact (Hr i off post s R).
Qed.

Lemma reads_noPrivacy q : snnp_ok q ->
  reads pv_serialNumberNoPrivacy set_pv_serialNumberNoPrivacy nn_enc mem (read_noPrivacy mem) q.
Proof using CL. intros Hq. apply (reads_snn oob_noPrivacy pv_serialNumberNoPrivacy); [solve_lens|exact Hq]. Qed.

(** Commitments. *)
Definition point_enc (k : list Z) : list Z := 32 :: k.

Lemma sized_point_run {T} oob (set : option (list Z) -> T -> T) off k post s : pt_ok k -> rest mem off (k ++ post) ->
  read_sized_point oob set mem off 32 s = (set (Some k) s, Ok (off + 32)%nat).
Proof using CL.
  intros Hk R. unfold read_sized_point. pose proof (next_bytes_run mem oob off k post s R) as E.
  rewrite (pt_length k Hk) in E. rewrite (st_bind_run _ _ _ _ _ E). unfold st_assign. by rewrite FromBytesS_pt.
Qed.

Lemma reads_point oob (get : ProofV1 -> list (option (list Z))) put k : pt_ok k ->
  reads get put point_enc mem
    (fun i offset => st_bind (read_length1 oob mem offset)
       (fun n => read_sized_point oob (fun v p => put (<[i := v]> (get p)) p) mem (offset + 1) n)) k.
Proof using CL.
  intros Hk i off post s R. unfold point_enc in *. cbn [app] in R.
  destruct (read_length1_run mem oob off 32 _ s R) as [E1 R1]. rewrite (st_bind_run _ _ _ _ _ E1).
  rewrite (sized_point_run _ _ _ k post) by assumption. do 2 f_equal. cbn [length]. rewrite (pt_length k Hk). lia.
Qed.

Lemma points_run {B} oob (get : ProofV1 -> list (option (list Z))) put es off post (K : nat -> st ProofV1 B) s :
  lens get put -> Forall pt_ok es -> rest mem off (array_enc point_enc es ++ post) ->
  st_bind (read_points_of oob get put mem off) K s = K (off + length (array_enc point_enc es))%nat (put (map Some es) s).
Proof using CL.
  intros Hlens Hes R. unfold read_points_of. eapply array_run; [exact Hlens| |exact R].
  eapply Forall_impl; [exact Hes|]. intros k Hk. by apply reads_point.
Qed.

(** A commitment that may be absent: then the receiver keeps its own. *)
Definition optional_enc (o : option (list Z)) : list Z := match o with Some k => 32 :: k | None => [0] end.

Lemma optional_run {B} oob (get : ProofV1 -> option (list Z)) put o off post (K : nat -> st ProofV1 B) s :
  lens get put -> (forall k, o = Some k -> pt_ok k) -> rest mem off (optional_enc o ++ post) ->
  st_bind (read_optional_point oob put mem off) K s =
  K (off + length (optional_enc o))%nat (put (match o with Some k => Some k | None => get s end) s).
Proof using CL.
  intros (_ & _ & Hpg) Ho R. apply st_bind_run. unfold read_optional_point. destruct o as [k|].
  - specialize (Ho k eq_refl). cbn [optional_enc app] in R.
    destruct (read_length1_run mem oob off 32 _ s R) as [E1 R1]. rewrite (st_bind_run _ _ _ _ _ E1).
    cbn [Nat.ltb Nat.leb]. rewrite (sized_point_run _ _ _ k post) by assumption. do 2 f_equal.
    cbn [optional_enc length]. rewrite (pt_length k Ho). lia.
  - cbn [optional_enc app] in R.
    destruct (read_length1_run mem oob off 0 _ s R) as [E1 R1]. rewrite (st_bind_run _ _ _ _ _ E1). by rewrite Hpg.
Qed.
End kinds.

(** *** Coins, range proof and indices *)

Section coins.
Context `{CL : CurveLaws} `{DL : DigestLaws} `{BL : BlockCipherLaws}.
Context (mem : list Z).

Lemma stored_plain_id c : is_u64 (p1_value c) -> (length (p1_info c) <= 255)%nat ->
  stored_plain c newPlainCoinV1 = c.
Proof using Type.
  intros Hv Hl. unfold stored_plain, MaxSizeInfoCoin. rewrite take_ge by exact Hl.
  destruct c as [a b e f g v i]. cbn [p1_publicKey p1_commitment p1_snDerivator p1_serialNumber p1_randomness p1_value
    p1_info newPlainCoinV1] in *. f_equal. unfold is_u64 in Hv. destruct (Z.ltb_spec 0 v); lia.
Qed.

(** Input coins: their bytes have a length of one byte. *)
Definition input_ok (c : PlainCoinV1) : Prop :=
  plain1_ok c /\ (length (PlainCoinV1_Bytes c) <= 255)%nat /\ (length (p1_info c) <= 255)%nat.

Definition input_enc (c : PlainCoin) : list Z :=
  Z.of_nat (length (PlainCoin_Bytes c)) :: PlainCoin_Bytes c.

Lemma NewPlainCoinFromByte_V1 c : plain1_ok c -> (length (p1_info c) <= 255)%nat ->
  NewPlainCoinFromByte (PlainCoinV1_Bytes c) = (PlainV1 c, Ok tt).
Proof using Type.
  intros Hc Hi. unfold NewPlainCoinFromByte. rewrite (PlainCoinV1_SetBytes_Bytes c newPlainCoinV1 Hc).
  assert (is_u64 (p1_value c)) as Hv by (destruct Hc as (_ & _ & _ & _ & _ & Hv & _); exact Hv).
  rewrite (stored_plain_id c Hv Hi). unfold PlainCoinV1_Bytes. by destruct (p1_publicKey c).
Qed.

Lemma reads_inputCoin c : input_ok c ->
  reads pv_inputCoins set_pv_inputCoins input_enc mem (read_inputCoin mem) (PlainV1 c).
Proof using Type.
  intros (Hc & Hl & Hi) i off post s R. unfold input_enc, PlainCoin_Bytes in *. cbn [app] in R.
  destruct (read_length1_run mem oob_input off _ _ s R) as [E1 R1]. unfold read_inputCoin.
  rewrite (st_bind_run _ _ _ _ _ E1), (st_bind_run _ _ _ _ _ (next_bytes_run mem _ _ _ post _ R1)).
  unfold st_bind. rewrite (NewPlainCoinFromByte_V1 c Hc Hi). cbn [res_wrap]. unfold st_ret. do 2 f_equal.
  cbn [length]. lia.
Qed.

(** Output coins: their bytes are shorter than 512. *)
Definition output_ok (c : CoinV1) : Prop :=
  plain1_ok (c1_CoinDetails c) /\ (length (p1_info (c1_CoinDetails c)) <= 255)%nat /\
  enc_ok (c1_CoinDetailsEncrypted c) /\
  (forall e, c1_CoinDetailsEncrypted c = Some e -> Hybrid_IsNil e = false) /\
  Z.of_nat (length (CoinV1_Bytes c)) < 512.

Lemma CoinV1_SetBytes_output c : output_ok c ->
  CoinV1_SetBytes (CoinV1_Bytes c) (mkCoinV1 newPlainCoinV1 None) = (c, Ok tt).
Proof using Type.
  intros (Hd & Hi & He & Hn & _). rewrite (CoinV1_SetBytes_Bytes c _ Hd He).
  assert (is_u64 (p1_value (c1_CoinDetails c))) as Hv by (destruct Hd as (_ & _ & _ & _ & _ & Hv & _); exact Hv).
  rewrite (stored_plain_id _ Hv Hi). destruct c as [d [e|]]; cbn [c1_CoinDetails c1_CoinDetailsEncrypted stored_enc] in *.
  - by rewrite (Hn e eq_refl).
  - done.
Qed.

(** One byte is no coin, and nothing of it is kept. *)
Lemma CoinV1_SetBytes_one x c : is_byte x -> exists m, CoinV1_SetBytes [x] c = (c, Err m).
Proof using Type.
  intros Hx. unfold CoinV1_SetBytes. cbn [length Nat.eqb]. unfold st_bind at 1, st_lift at 1. cbn [index lookup list_lookup].
  destruct (Nat.ltb_spec 0 (Z.to_nat x)) as [Hp|Hp].
  - unfold st_bind. bounds. eexists. reflexivity.
  - eexists. reflexivity.
Qed.

Lemma output_length n : (n < 512)%nat ->
  (if (n <? 256)%nat then [u8 (Z.of_nat n)] else IntToBytes (Z.of_nat n)) =
  if (n <? 256)%nat then [Z.of_nat n] else [1; Z.of_nat n - 256].
Proof using Type.
  intros Hn. destruct (Nat.ltb_spec n 256) as [Hl|Hl].
  - by rewrite u8_length by lia.
  - by apply two_byte_length; lia.
Qed.

Lemma reads_outputCoin c : output_ok c ->
  reads pv_outputCoins set_pv_outputCoins output_coin_bytes mem (read_outputCoin mem) c.
Proof using Type.
  intros Hc i off post s R. pose proof (CoinV1_SetBytes_output c Hc) as Hset.
  destruct Hc as (_ & _ & _ & _ & Hl). unfold output_coin_bytes in *. cbv zeta in *. rewrite output_length in * by lia.
  unfold read_outputCoin. cbv zeta. rewrite st_bind_put. destruct (Nat.ltb_spec (length (CoinV1_Bytes c)) 256) as [Ha|Hb].
  - cbn [app] in R. destruct (read_length1_run mem oob_output off _ _ (set_pv_outputCoins
      (<[i:=Some (mkCoinV1 newPlainCoinV1 None)]> (pv_outputCoins s)) s) R) as [E1 R1].
    rewrite (st_bind_run _ _ _ _ _ E1), (st_bind_run _ _ _ _ _ (next_bytes_run mem _ _ _ post _ R1)), Hset.
    unfold st_bind, st_ret. f_equal; [by apply (set_place pv_outputCoins set_pv_outputCoins); repeat split; intros []|].
    f_equal. cbn [app length]. lia.
  - cbn [app] in R. pose proof R as R0. apply (read_length1_run mem oob_output off 1 _ (set_pv_outputCoins
      (<[i:=Some (mkCoinV1 newPlainCoinV1 None)]> (pv_outputCoins s)) s)) in R as [E1 R1].
    rewrite (st_bind_run _ _ _ _ _ E1).
    pose proof (next_bytes_run mem oob_output (off + 1) [Z.of_nat (length (CoinV1_Bytes c)) - 256] _
      (set_pv_outputCoins (<[i:=Some (mkCoinV1 newPlainCoinV1 None)]> (pv_outputCoins s)) s) R1) as E2.
    cbn [length] in E2. rewrite (st_bind_run _ _ _ _ _ E2).
    destruct (CoinV1_SetBytes_one (Z.of_nat (length (CoinV1_Bytes c)) - 256) (mkCoinV1 newPlainCoinV1 None)) as [m Em];
      [unfold is_byte; lia|]. rewrite Em, st_bind_put.
    change (1 :: ?x :: ?l) with ([1; x] ++ l) in R0.
    rewrite (rest_room _ _ 2 _ _ R0) by (cbn; lia). rewrite (st_bind_lift _ _ _ _ (slice_rest _ _ 2 _ _ R0 eq_refl)).
    rewrite (proj2 (two_byte_length (Z.of_nat (length (CoinV1_Bytes c))) ltac:(lia))), Nat2Z.id. apply (rest_move _ _ 2) in R0; [|done].
    rewrite (st_bind_run _ _ _ _ _ (next_bytes_run mem _ _ _ post _ R0)). unfold st_bind. rewrite Hset. unfold st_ret.
    f_equal; [|f_equal; cbn [app length]; lia].
    by rewrite !(set_place pv_outputCoins set_pv_outputCoins) by (repeat split; by intros []).
Qed.
End coins.

Section tail.
Context `{CL : CurveLaws} `{DL : DigestLaws} `{BL : BlockCipherLaws}.
Context (mem : list Z).

(** The range proof of a private payment. *)
Definition range_ok (d : proof_data) : Prop :=
  data_ok d /\ (length (pd_cms d) <= 255)%nat /\ (length (pd_l d) <= 255)%nat.

Definition range_enc (o : option proof_data) : list Z :=
  match o with
  | Some d => IntToBytes (Z.of_nat (length (range_body d))) ++ range_body d
  | None => [0; 0]
  end.

Lemma range_body_small d : range_ok d -> 0 < Z.of_nat (length (range_body d)) < 65536.
Proof using CL.
  intros (Hd & Hc & Hl). rewrite (range_body_length d Hd).
  destruct Hd as (_ & _ & _ & _ & _ & _ & _ & _ & _ & _ & Hlr & _). lia.
Qed.

Lemma range_enc_bytes d : range_ok d ->
  (let* b := RangeProofV1_Bytes (proof_of 1 d) in Ok (IntToBytes (Z.of_nat (length b)) ++ b)) = Ok (range_enc (Some d)).
Proof using CL.
  intros (Hd & Hc & Hl). unfold RangeProofV1_Bytes. change (set_rp_version 1 (proof_of 1 d)) with (proof_of 1 d).
  by rewrite range_bytes by (try assumption; lia).
Qed.

Lemma range_run {B} o off post (K : nat -> st ProofV1 B) s : (forall d, o = Some d -> range_ok d) ->
  rest mem off (range_enc o ++ post) ->
  st_bind (read_range mem off) K s =
  K (off + length (range_enc o))%nat
    (set_pv_rangeProof (match o with Some d => Some (proof_of 1 d) | None => pv_rangeProof s end) s).
Proof using CL.
  intros Ho R. apply st_bind_run. unfold read_range. destruct o as [d|].
  - specialize (Ho d eq_refl). pose proof (range_body_small d Ho) as Hl. destruct Ho as (Hd & Hc & Hr).
    cbn [range_enc] in *. rewrite <- app_assoc in R.
    destruct (read_length2_run mem oob_range off (length (range_body d)) _ s ltac:(lia) R) as [E1 R1].
    rewrite (st_bind_run _ _ _ _ _ E1). rewrite (proj2 (Nat.ltb_lt _ _)) by lia.
    rewrite (read_element_run mem oob_range set_pv_rangeProof RangeProofV1_Init _ (proof_of 1 d) (range_body d) _ post).
    + do 2 f_equal. rewrite length_app. rewrite IntToBytes_small by lia. rewrite length_be_bytes. lia.
    + by intros v w [].
    + intros _. unfold RangeProofV1_SetBytes. destruct (range_body d) eqn:E; [cbn in Hl; lia|]. rewrite <- E.
      by rewrite range_read_body.
    + exact R1.
  - cbn [range_enc] in R. change [0; 0] with (IntToBytes (Z.of_nat 0)) in R.
    destruct (read_length2_run mem oob_range off 0 _ s ltac:(lia) R) as [E1 R1]. rewrite (st_bind_run _ _ _ _ _ E1).
    by destruct s.
Qed.

(** The commitment indices are 64-bit; [big.NewInt(int64(i))] keeps those below 2^63. *)
Definition index_ok (i : Z) : Prop := 0 <= i < 2 ^ 63.

Lemma index_bytes i : index_ok i -> AddPaddingBigInt (i64 i) 8 = Ok (be_bytes 8 i).
Proof using Type.
  unfold index_ok. intros Hi. assert (i64 i = i) as -> by (unfold i64; rewrite Z.mod_small by lia; lia).
  change 8 with (Z.of_nat 8). apply AddPaddingBigInt_be.
  change (256 ^ Z.of_nat 8) with (2 ^ 64). lia.
Qed.

Lemma read_index_run i k off post s : index_ok i -> rest mem off (be_bytes 8 i ++ post) ->
  read_index mem k off s = (set_pv_commitmentIndices (<[k := i]> (pv_commitmentIndices s)) s, Ok (off + 8)%nat).
Proof using Type.
  unfold index_ok. intros Hi R. pose proof (next_bytes_run mem oob_indices off _ post s R) as E.
  rewrite length_be_bytes in E. unfold read_index. rewrite (st_bind_run _ _ _ _ _ E), st_bind_put. unfold st_ret.
  unfold bigint_set_bytes. rewrite of_digits_be_bytes. change (256 ^ Z.of_nat 8) with (2 ^ 64).
  unfold u64. rewrite (Z.mod_small i) by lia. by rewrite Z.mod_small by lia.
Qed.

Lemma indices_run ixs : Forall index_ok ixs -> forall fst off post s,
  pv_commitmentIndices s = fst ++ replicate (length ixs) 0 -> rest mem off (concat (map (be_bytes 8) ixs) ++ post) ->
  read_items (read_index mem) (length ixs) (length fst) off s =
  (set_pv_commitmentIndices (fst ++ ixs) s, Ok (off + length (concat (map (be_bytes 8) ixs)))%nat).
Proof using Type.
  induction 1 as [|i ixs Hi His IH]; intros fst off post s Hs R.
  - cbn [length read_items map concat replicate] in *. rewrite app_nil_r in *. unfold st_ret. rewrite Nat.add_0_r, <- Hs.
    by destruct s.
  - cbn [length read_items map concat] in *. rewrite <- app_assoc in R.
    rewrite (st_bind_run _ _ _ _ _ (read_index_run i _ _ _ _ Hi R)). apply (rest_move _ _ 8) in R; [|apply length_be_bytes].
    replace (S (length fst)) with (length (fst ++ [i])) by (rewrite length_app; cbn; lia).
    rewrite (IH (fst ++ [i]) _ post).
    + rewrite <- app_assoc, length_app, length_be_bytes, Nat.add_assoc. by destruct s.
    + cbn [pv_commitmentIndices set_pv_commitmentIndices]. rewrite Hs. cbn [replicate].
      rewrite insert_app_r_alt, Nat.sub_diag by lia. cbn [insert list_insert]. by rewrite <- app_assoc.
    + exact R.
Qed.
End tail.

(** ** Properties *)

(** The contents of a payment proof: the range proof is there when the payment is private. *)
Record payment := mkPayment {
  py_om : list om_data;
  py_sn : list SNPrivacyProof;
  py_nn : list SNNoPrivacyProof;
  py_range : option proof_data;
  py_in : list PlainCoinV1;
  py_out : list CoinV1;
  py_outValue : list (list Z);
  py_outSND : list (list Z);
  py_outShard : list (list Z);
  py_inSK : option (list Z);
  py_inValue : list (list Z);
  py_inSND : list (list Z);
  py_inShard : option (list Z);
  py_indices : list Z }.

(** The proof with these contents, with what the fields that may be absent hold then. *)
Definition payment_proof (d : payment) (om : list om_data) (rp : option RangeProof) (sk shard : option (list Z)) : ProofV1 :=
  mkProofV1 (map Some (map om_proof_of om)) (map Some (py_sn d)) (map Some (py_nn d))
    (match py_range d with Some r => Some (proof_of 1 r) | None => rp end)
    (map Some (map PlainV1 (py_in d))) (map Some (py_out d))
    (map Some (py_outValue d)) (map Some (py_outSND d)) (map Some (py_outShard d))
    (match py_inSK d with Some k => Some k | None => sk end)
    (map Some (py_inValue d)) (map Some (py_inSND d))
    (match py_inShard d with Some k => Some k | None => shard end) (py_indices d).

Definition sent (rp : option RangeProof) (d : payment) : ProofV1 := payment_proof d (py_om d) rp None None.

(** What a receiver [p0] holds after reading: the statements of the one-out-of-many
    proofs are not transmitted, and an absent field keeps its contents. *)
Definition received (p0 : ProofV1) (d : payment) : ProofV1 :=
  payment_proof d (map no_statement (py_om d)) (pv_rangeProof p0) (pv_comInputSecretKey p0) (pv_comInputShardID p0).

Definition opt_ok {A} (P : A -> Prop) (o : option A) : Prop := forall x, o = Some x -> P x.

Section payment_ok.
Context `{CO : CurveOps} `{DG : Digests} `{BC : BlockCipher}.

(** Every array has at most 255 elements, and a one-out-of-many proof comes with
    the eight indices of its ring. *)
Definition payment_ok (d : payment) : Prop :=
  (length (py_om d) <= 255 /\ length (py_sn d) <= 255 /\ length (py_nn d) <= 255 /\ length (py_in d) <= 255 /\
   length (py_out d) <= 255 /\ length (py_outValue d) <= 255 /\ length (py_outSND d) <= 255 /\
   length (py_outShard d) <= 255 /\ length (py_inValue d) <= 255 /\ length (py_inSND d) <= 255)%nat /\
  Forall om_data_ok (py_om d) /\ Forall snp_ok (py_sn d) /\ Forall snnp_ok (py_nn d) /\
  (py_range d = None <-> py_om d = []) /\ opt_ok range_ok (py_range d) /\
  Forall input_ok (py_in d) /\ Forall output_ok (py_out d) /\
  Forall (Forall pt_ok) [py_outValue d; py_outSND d; py_outShard d; py_inValue d; py_inSND d] /\
  opt_ok pt_ok (py_inSK d) /\ opt_ok pt_ok (py_inShard d) /\
  Forall index_ok (py_indices d) /\ length (py_indices d) = (length (py_om d) * CommitmentRingSize)%nat.

(** The bytes of a payment. *)
Definition payment_enc (d : payment) : list Z :=
  array_enc om_enc (map om_proof_of (py_om d)) ++ array_enc sn_enc (py_sn d) ++ array_enc nn_enc (py_nn d) ++
  range_enc (py_range d) ++ array_enc input_enc (map PlainV1 (py_in d)) ++ array_enc output_coin_bytes (py_out d) ++
  array_enc point_enc (py_outValue d) ++ array_enc point_enc (py_outSND d) ++ array_enc point_enc (py_outShard d) ++
  optional_enc (py_inSK d) ++ array_enc point_enc (py_inValue d) ++ array_enc point_enc (py_inSND d) ++
  optional_enc (py_inShard d) ++ concat (map (be_bytes 8) (py_indices d)).
End payment_ok.

Section properties.
Context `{CL : CurveLaws} `{DL : DigestLaws} `{BL : BlockCipherLaws}.

Lemma om_bytes d : om_data_ok d ->
  (let* b := OneOutOfManyProof_Bytes (om_proof_of d) in Ok (IntToBytes OneOfManyProofSize ++ b)) = Ok (om_enc (om_proof_of d)).
Proof using CL.
  intros Hd. destruct (om_roundtrip d OneOutOfManyProof_new [] Hd) as (b & Eb & _). unfold om_enc. by rewrite Eb.
Qed.

Lemma om_enc_statement d : om_enc (om_proof_of (no_statement d)) = om_enc (om_proof_of d).
Proof using Type. reflexivity. Qed.

Lemma sn_bytes q : snp_ok q ->
  (let* b := SNPrivacyProof_Bytes q in Ok (IntToBytes SnPrivacyProofSize ++ b)) = Ok (sn_enc q).
Proof using CL.
  intros Hq. destruct (SNPrivacy_roundtrip q SNPrivacyProof_Init [] [] Hq ltac:(intros E; discriminate E)) as (b & Eb & _).
  unfold sn_enc. by rewrite Eb.
Qed.

Lemma nn_bytes q : snnp_ok q ->
  (let* b := SNNoPrivacyProof_Bytes q in Ok (u8 SnNoPrivacyProofSize :: b)) = Ok (nn_enc q).
Proof using CL.
  intros Hq. destruct (SNNoPrivacy_roundtrip q SNNoPrivacyProof_Init [] Hq ltac:(intros E; discriminate E)) as (b & Eb & _).
  unfold nn_enc. by rewrite Eb.
Qed.

Lemma points_bytes_some es : (length es <= 255)%nat -> points_bytes (map Some es) = Ok (array_enc point_enc es).
Proof using Type. intros Hl. apply (items_bytes_some point_enc); [exact Hl|]. by apply Forall_true. Qed.

Lemma input_bytes es : (length es <= 255)%nat -> Forall input_ok es ->
  items_bytes (fun c => Ok (u8 (Z.of_nat (length (PlainCoin_Bytes c))) :: PlainCoin_Bytes c)) (map Some (map PlainV1 es)) =
  Ok (array_enc input_enc (map PlainV1 es)).
Proof using Type.
  intros Hl Hes. apply items_bytes_some; [by rewrite length_map|]. apply Forall_map. eapply Forall_impl; [exact Hes|].
  intros c (_ & Hc & _). cbv zeta. unfold input_enc, PlainCoin_Bytes. by rewrite u8_length.
Qed.

Lemma indices_bytes ixs : Forall index_ok ixs ->
  res_map (fun i => AddPaddingBigInt (i64 i) 8) ixs = Ok (map (be_bytes 8) ixs).
Proof using Type.
  induction 1 as [|i ixs Hi His IH]; [done|]. cbn [res_map map]. rewrite index_bytes by done. cbn [res_bind]. by rewrite IH.
Qed.

Lemma payment_bytes rp d : payment_ok d -> ProofV1_Bytes (sent rp d) = Ok (payment_enc d).
Proof using CL.
  intros ((L1 & L2 & L3 & L4 & L5 & L6 & L7 & L8 & L9 & L10) & Hom & Hsn & Hnn & Hr0 & Hr & Hin & Hout & Hpts & _ & _ & Hix & Lix).
  unfold ProofV1_Bytes, sent, payment_proof.
  cbn [pv_oneOfMany pv_serialNumber pv_serialNumberNoPrivacy pv_rangeProof pv_inputCoins pv_outputCoins pv_comOutputValue
       pv_comOutputSND pv_comOutputShardID pv_comInputSecretKey pv_comInputValue pv_comInputSND pv_comInputShardID pv_commitmentIndices].
  rewrite (items_bytes_some om_enc) by (rewrite ?length_map; first [done | apply Forall_map; exact (Forall_impl _ _ _ Hom om_bytes)]).
  rewrite (items_bytes_some sn_enc) by (first [done | exact (Forall_impl _ _ _ Hsn sn_bytes)]).
  rewrite (items_bytes_some nn_enc) by (first [done | exact (Forall_impl _ _ _ Hnn nn_bytes)]).
  cbn [res_bind]. rewrite !length_map.
  assert ((if (0 <? length (py_om d))%nat then
     let* rp0 := deref match py_range d with Some r => Some (proof_of 1 r) | None => rp end in
     let* b := RangeProofV1_Bytes rp0 in Ok (IntToBytes (Z.of_nat (length b)) ++ b) else Ok [0; 0]) =
     Ok (range_enc (py_range d))) as ->.
  { destruct (py_range d) as [r|] eqn:Er.
    - destruct (py_om d); [by destruct Hr0 as [_ Hr0]; specialize (Hr0 eq_refl)|]. cbn [length Nat.ltb Nat.leb deref res_bind].
      apply range_enc_bytes. by apply Hr.
    - destruct Hr0 as [Hr0 _]. by rewrite (Hr0 eq_refl). }
  cbn [res_bind]. rewrite (input_bytes _ L4 Hin). cbn [res_bind].
  rewrite (items_bytes_some output_coin_bytes) by (first [done | by apply Forall_true]). cbn [res_bind].
  rewrite !points_bytes_some by done. cbn [res_bind]. rewrite (indices_bytes _ Hix). cbn [res_bind]. f_equal.
  unfold payment_enc. by destruct (py_inSK d), (py_inShard d).
Qed.

Lemma om_array_statement l :
  array_enc om_enc (map om_proof_of (map no_statement l)) = array_enc om_enc (map om_proof_of l).
Proof using Type. unfold array_enc. by rewrite !length_map, !map_map. Qed.

(** C21: a payment proof of version 1 read back from its bytes, whatever the receiver
    held: every array of sub-proofs, coins and commitments and the indices are
    those sent; only the statements of the one-out-of-many proofs, which are not
    transmitted, are lost, and the fields that were absent keep what the
    receiver had.  Output coins are read whether their length takes one byte or
    two, the first guess failing on the two-byte form. *)
Theorem ProofV1_roundtrip rp d spare p0 : payment_ok d ->
  exists b, ProofV1_Bytes (sent rp d) = Ok b /\ ProofV1_SetBytes spare b p0 = (received p0 d, Ok tt).
Proof using CL.
  intros Hd. exists (payment_enc d). split; [by apply payment_bytes|].
  destruct Hd as (_ & Hom & Hsn & Hnn & _ & Hr & Hin & Hout & Hpts & Hsk & Hsh & Hix & Lix).
  rewrite !Forall_cons in Hpts. destruct Hpts as (P1 & P2 & P3 & P4 & P5 & _).
  unfold ProofV1_SetBytes. rewrite (proj2 (Nat.eqb_neq _ _)) by (unfold payment_enc, array_enc; cbn [app length]; lia).
  pose proof (rest_start (payment_enc d)) as R. set (mem := payment_enc d) in R |- *. unfold mem in R at 2.
  unfold payment_enc in R. rewrite <- om_array_statement in R.
  next_array pv_oneOfMany set_pv_oneOfMany R Hom reads_oneOfMany.
  next_array pv_serialNumber set_pv_serialNumber R Hsn reads_serialNumber.
  next_array pv_serialNumberNoPrivacy set_pv_serialNumberNoPrivacy R Hnn reads_noPrivacy.
  erewrite range_run; [|exact Hr|exact R]. moved R.
  next_array pv_inputCoins set_pv_inputCoins R Hin reads_inputCoin.
  next_array pv_outputCoins set_pv_outputCoins R Hout reads_outputCoin.
  erewrite points_run; [|solve_lens|exact P1|exact R]. moved R.
  erewrite points_run; [|solve_lens|exact P2|exact R]. moved R.
  erewrite points_run; [|solve_lens|exact P3|exact R]. moved R.
  erewrite (optional_run mem _ pv_comInputSecretKey); [|solve_lens|exact Hsk|exact R]. moved R.
  erewrite points_run; [|solve_lens|exact P4|exact R]. moved R.
  erewrite points_run; [|solve_lens|exact P5|exact R]. moved R.
  erewrite (optional_run mem _ pv_comInputShardID); [|solve_lens|exact Hsh|exact R]. moved R.
  rewrite <- (app_nil_r (concat _)) in R. cbv beta zeta. rewrite st_bind_put.
  cbn [pv_oneOfMany set_pv_oneOfMany set_pv_serialNumber set_pv_serialNumberNoPrivacy set_pv_rangeProof set_pv_inputCoins
       set_pv_outputCoins set_pv_comOutputValue set_pv_comOutputSND set_pv_comOutputShardID set_pv_comInputSecretKey
       set_pv_comInputValue set_pv_comInputSND set_pv_comInputShardID].
  rewrite !length_map, <- Lix.
  erewrite st_bind_run; [|apply (indices_run mem (py_indices d) Hix []) with (2 := R); reflexivity].
  reflexivity.
Qed.
End properties.

(** *** Safety *)

Section safety.
Context `{CL : CurveLaws} `{DL : DigestLaws} `{BL : BlockCipherLaws}.

Lemma read_items_safe {T} (read : nat -> nat -> st T nat) : (forall i o, st_safe (read i o)) ->
  forall n i o, st_safe (read_items read n i o).
Proof using Type.
  intros Hr. induction n as [|n IH]; intros i o; [done|]. apply st_bind_safe; [apply Hr|]. intros o'. apply IH.
Qed.

Lemma index_below (b : list Z) i : (length b <=? i)%nat = false -> res_safe (index b i).
Proof using Type. intros Hi%Nat.leb_gt. by destruct (index_safe b i Hi) as (x & -> & _). Qed.

Lemma slice_below (b : list Z) o n : (length b <? o + n)%nat = false -> res_safe (slice b o (o + n)).
Proof using Type. intros Hi%Nat.ltb_ge. by destruct (slice_safe b o (o + n)) as (x & -> & _); [lia|]. Qed.

Lemma read_array_safe {T} oob (alloc : nat -> T -> T) read bytes o : (forall i o, st_safe (read i o)) ->
  st_safe (read_array_of oob alloc read bytes o).
Proof using Type.
  intros Hr. unfold read_array_of. destruct (_ <=? _)%nat eqn:E; [apply st_fail_safe|].
  apply st_bind_safe; [by apply st_lift_safe, index_below|]. intros b. apply st_bind_safe; [apply st_put_safe|].
  intros _. by apply read_items_safe.
Qed.

Lemma read_length2_safe {T} oob bytes o : st_safe (S := T) (read_length2 oob bytes o).
Proof using Type.
  unfold read_length2. destruct (_ <? _)%nat eqn:E; [apply st_fail_safe|].
  apply st_bind_safe; [by apply st_lift_safe, slice_below|]. done.
Qed.

Lemma read_length1_safe {T} oob bytes o : st_safe (S := T) (read_length1 oob bytes o).
Proof using Type.
  unfold read_length1. destruct (_ <=? _)%nat eqn:E; [apply st_fail_safe|].
  apply st_bind_safe; [by apply st_lift_safe, index_below|]. done.
Qed.

Lemma next_bytes_safe {T} oob bytes o n : st_safe (S := T) (next_bytes oob bytes o n).
Proof using Type.
  unfold next_bytes. destruct (_ <? _)%nat eqn:E; [apply st_fail_safe|]. by apply st_lift_safe, slice_below.
Qed.

Hint Resolve read_length2_safe read_length1_safe next_bytes_safe : safe.

(** The parser of an element is given [n] bytes. *)
Lemma read_element_safe {T E} oob (set : option E -> T -> T) init parse bytes o n :
  (forall b beyond, length b = n -> res_safe (snd (parse b beyond init))) ->
  st_safe (read_element oob set init parse bytes o n).
Proof using Type.
  intros Hp s. unfold read_element. rewrite st_bind_put. unfold st_bind at 1, next_bytes.
  destruct (Nat.ltb_spec (length bytes) (o + n)) as [|Hl]; [done|]. unfold st_lift.
  destruct (slice_safe bytes o (o + n)) as (b & -> & Lb); [lia|]. unfold st_bind, st_ret.
  specialize (Hp b (drop (o + n) bytes) ltac:(lia)). by destruct (parse b _ init) as [e [[]| | |]].
Qed.

Lemma read_sized_point_safe {T} oob (set : option (list Z) -> T -> T) bytes o n :
  st_safe (read_sized_point oob set bytes o n).
Proof using Type.
  apply st_bind_safe; [auto with safe|]. intros b. apply st_assign_safe.
  pose proof (Point_FromBytesS_safe b) as Hb. by destruct (Point_FromBytesS b).
Qed.

Lemma read_points_of_safe oob get put bytes o : st_safe (read_points_of oob get put bytes o).
Proof using Type.
  apply read_array_safe. intros i o'. apply st_bind_safe; [auto with safe|]. intros n. apply read_sized_point_safe.
Qed.

Lemma read_optional_point_safe oob set bytes o : st_safe (read_optional_point oob set bytes o).
Proof using Type.
  apply st_bind_safe; [auto with safe|]. intros n. destruct (_ <? _)%nat; [apply read_sized_point_safe|done].
Qed.

Lemma read_oneOfMany_safe bytes i o : st_safe (read_oneOfMany bytes i o).
Proof using Type.
  apply st_bind_safe; [auto with safe|]. intros n. apply read_element_safe. intros b _ _. apply om_SetBytes_safe.
Qed.

Lemma read_noPrivacy_safe bytes i o : st_safe (read_noPrivacy bytes i o).
Proof using Type.
  apply st_bind_safe; [auto with safe|]. intros n. apply read_element_safe. intros b _ _.
  eapply st_spec_safe; [apply SNNoPrivacy_safe|]. intros E. discriminate E.
Qed.

Lemma read_range_safe bytes o : st_safe (read_range bytes o).
Proof using Type.
  apply st_bind_safe; [auto with safe|]. intros n. destruct (_ <? _)%nat; [|done].
  apply read_element_safe. intros [|b0 b] _ _; [done|]. apply RangeProof_read_safe.
Qed.

Lemma read_inputCoin_safe bytes i o : st_safe (read_inputCoin bytes i o).
Proof using Type.
  apply st_bind_safe; [auto with safe|]. intros n. apply st_bind_safe; [auto with safe|]. intros b.
  apply st_bind_safe; [|done]. intros p.
  assert (res_safe (snd (NewPlainCoinFromByte b))) as Hs.
  { unfold NewPlainCoinFromByte. destruct (_ =? _).
    - pose proof (CoinV2_SetBytes_safe b newCoinV2) as Hs. by destruct (CoinV2_SetBytes b newCoinV2).
    - pose proof (PlainCoinV1_SetBytes_safe b newPlainCoinV1) as Hs. by destruct (PlainCoinV1_SetBytes b newPlainCoinV1). }
  by destruct (NewPlainCoinFromByte b) as [c [| | |]].
Qed.

Lemma read_outputCoin_safe bytes i o : st_safe (read_outputCoin bytes i o).
Proof using Type.
  unfold read_outputCoin. cbv zeta. apply st_bind_safe; [auto with safe|]. intros _.
  apply st_bind_safe; [auto with safe|]. intros n. apply st_bind_safe; [auto with safe|]. intros b.
  pose proof (CoinV1_SetBytes_safe b (mkCoinV1 newPlainCoinV1 None)) as Hs.
  destruct (CoinV1_SetBytes b (mkCoinV1 newPlainCoinV1 None)) as [c [[]|m| |]]; try done.
  apply st_bind_safe; [auto with safe|]. intros _. destruct (_ <? _)%nat eqn:E; [apply st_fail_safe|].
  apply st_bind_safe; [by apply st_lift_safe, slice_below|]. intros lb.
  apply st_bind_safe; [auto with safe|]. intros b2. apply st_bind_safe; [|done]. intros p.
  pose proof (CoinV1_SetBytes_safe b2 c) as Hs2. by destruct (CoinV1_SetBytes b2 c) as [c2 [| | |]].
Qed.

Lemma read_index_safe bytes i o : st_safe (read_index bytes i o).
Proof using Type. apply st_bind_safe; [auto with safe|]. intros b. by apply st_bind_safe; [apply st_put_safe|]. Qed.

(** A loop over elements is safe, or it gets to an element at which it is not. *)
Lemma read_items_cases {T} (read : nat -> nat -> st T nat) n : forall i o s,
  res_safe (snd (read_items read n i o s)) \/
  exists j o' s', (j < n)%nat /\ read_items read j i o s = (s', Ok o') /\ ~ res_safe (snd (read (i + j)%nat o' s')).
Proof using Type.
  induction n as [|n IH]; intros i o s; [by left|]. cbn [read_items]. destruct (read i o s) as [s1 [o1|m| |]] eqn:E.
  - unfold st_bind. rewrite E. destruct (IH (S i) o1 s1) as [Hs|(j & o' & s' & Hj & Er & Hu)]; [by left|]. right.
    exists (S j), o', s'. split; [lia|]. split; [cbn [read_items]; unfold st_bind; by rewrite E|]. by replace (i + S j)%nat with (S i + j)%nat by lia.
  - left. unfold st_bind. by rewrite E.
  - right. exists 0%nat, o, s. split; [lia|]. split; [done|]. rewrite Nat.add_0_r, E. by intros [].
  - right. exists 0%nat, o, s. split; [lia|]. split; [done|]. rewrite Nat.add_0_r, E. by intros [].
Qed.

(** The proof at the offset [o] has a length of 288 to 319 bytes, and the memory ends
    before its tenth key. *)
Definition short_at (spare bytes : list Z) (o : nat) : Prop := exists lb n,
  slice bytes o (o + 2) = Ok lb /\ BytesToInt lb = Z.of_nat n /\ (288 <= n < 320)%nat /\ (o + 2 + n <= length bytes)%nat /\
  (length bytes + length spare < o + 2 + 320)%nat.

Lemma read_serialNumber_cases spare bytes i o s : res_safe (snd (read_serialNumber spare bytes i o s)) \/ short_at spare bytes o.
Proof using Type.
  unfold read_serialNumber, read_length2. destruct (Nat.ltb_spec (length bytes) (o + 2)) as [|Hl]; [by left|].
  destruct (slice_safe bytes o (o + 2)) as (lb & E & Lb); [lia|].
  unfold st_bind at 1, st_bind at 1, st_lift at 1. rewrite E. unfold st_ret at 1. set (n := Z.to_nat (BytesToInt lb)).
  unfold read_element. rewrite st_bind_put. unfold st_bind at 1, next_bytes.
  destruct (Nat.ltb_spec (length bytes) (o + 2 + n)) as [|Hn]; [by left|]. unfold st_lift.
  destruct (slice_safe bytes (o + 2) (o + 2 + n)) as (b & Eb & Lbn); [lia|]. rewrite Eb.
  assert ((length b < 288 \/ 320 <= length b + length (drop (o + 2 + n) bytes ++ spare)) \/
    (288 <= n < 320 /\ length bytes + length spare < o + 2 + 320))%nat as [Hc|[Hc1 Hc2]] by (rewrite length_app, length_drop; lia).
  - left. unfold st_bind, st_ret.
    pose proof (SNPrivacy_safe b (drop (o + 2 + n) bytes ++ spare) Hc SNPrivacyProof_Init) as Hs.
    destruct (SNPrivacyProof_SetBytes b _ SNPrivacyProof_Init) as [e [[]| | |]]; [done|done|by elim Hs..].
  - right. exists lb, n. split; [exact E|]. split; [unfold n; rewrite Z2Nat.id; [done|]; unfold n in Hc1; lia|]. by repeat (split; [lia|]).
Qed.

Hint Resolve read_points_of_safe read_optional_point_safe read_range_safe : safe.

(** The arrays before and the serial-number proofs before the one at [o] are read. *)
Definition reaches_proof (spare bytes : list Z) (p0 : ProofV1) (o : nat) : Prop := exists p1 o1 count p2 i,
  read_array_of oob_oneOfMany (fun n => set_pv_oneOfMany (replicate n None)) (read_oneOfMany bytes) bytes 0 p0 = (p1, Ok o1) /\
  index bytes o1 = Ok count /\ (i < Z.to_nat count)%nat /\
  read_items (read_serialNumber spare bytes) i 0 (o1 + 1) (set_pv_serialNumber (replicate (Z.to_nat count) None) p1) = (p2, Ok o).

Lemma bind_safe_at {S A B} (m : st S A) (K : A -> st S B) s : res_safe (snd (m s)) -> (forall a, st_safe (K a)) -> res_safe (snd (st_bind m K s)).
Proof using Type. unfold st_bind. intros Hm HK. destruct (m s) as [s' [a| | |]]; [apply HK|done..]. Qed.

Lemma ProofV1_SetBytes_cases spare bytes p0 : res_safe (snd (ProofV1_SetBytes spare bytes p0)) \/
  exists o, reaches_proof spare bytes p0 o /\ short_at spare bytes o.
Proof using Type.
  unfold ProofV1_SetBytes. destruct (_ =? 0)%nat; [by left|]. unfold st_bind at 1.
  pose proof (read_array_safe oob_oneOfMany (fun n => set_pv_oneOfMany (replicate n None)) (read_oneOfMany bytes) bytes 0 (read_oneOfMany_safe bytes) p0) as Hs1.
  destruct (read_array_of oob_oneOfMany _ _ _ _ p0) as [p1 [o1|m| |]] eqn:E1; [|by left|by elim Hs1..].
  assert (res_safe (snd (read_array_of oob_serialNumber (fun n => set_pv_serialNumber (replicate n None)) (read_serialNumber spare bytes) bytes o1 p1)) \/
    exists o, reaches_proof spare bytes p0 o /\ short_at spare bytes o) as [Hs|Hr]; [|left|by right].
  { unfold read_array_of. destruct (Nat.leb_spec (length bytes) o1) as [|Hl]; [by left|].
    destruct (index_safe bytes o1 Hl) as (count & Ec & _). unfold st_bind at 1, st_lift. rewrite Ec, st_bind_put.
    destruct (read_items_cases (read_serialNumber spare bytes) (Z.to_nat count) 0 (o1 + 1) (set_pv_serialNumber (replicate (Z.to_nat count) None) p1))
      as [Hs|(i & o & p2 & Hi & Er & Hu)]; [by left|]. right. exists o. split; [by exists p1, o1, count, p2, i|].
    by destruct (read_serialNumber_cases spare bytes (0 + i) o p2). }
  apply bind_safe_at; [exact Hs|]. intros o2.
  apply st_bind_safe; [apply read_array_safe, read_noPrivacy_safe|intros ?]. apply st_bind_safe; [auto with safe|intros ?].
  do 2 (apply st_bind_safe; [apply read_array_safe; intros i o;
    first [apply read_inputCoin_safe | apply read_outputCoin_safe]|intros ?]).
  do 7 (apply st_bind_safe; [auto with safe|intros ?]).
  intros p. cbv zeta. match goal with |- res_safe (snd (?m p)) => change m with m; enough (st_safe m) as Hst by apply Hst end.
  apply st_bind_safe; [apply st_put_safe|intros _]. apply st_bind_safe; [|done]. apply read_items_safe. intros. apply read_index_safe.
Qed.

Lemma st_bind_panic {S A B} (m : st S A) (k : A -> st S B) s : snd (m s) = Panic -> snd (st_bind m k s) = Panic.
Proof using Type. unfold st_bind. by destruct (m s) as [s' [| | |]]. Qed.

(** A message of one serial-number proof, cut to [cut] bytes, and then [post]. *)
Definition cut_message (b : list Z) (cut : nat) (post : list Z) : list Z := [0; 1] ++ IntToBytes (Z.of_nat cut) ++ take cut b ++ post.

Lemma cut_message_panics q b cut post spare p0 : snp_ok q -> SNPrivacyProof_Bytes q = Ok b -> (288 <= cut)%nat ->
  (cut + length post + length spare < 320)%nat -> snd (ProofV1_SetBytes spare (cut_message b cut post) p0) = Panic.
Proof using CL.
  intros Hq Eb Hcut Hpost.
  assert (spr_stmt SNPrivacyProof_Init <> None) as Hi by (intros E; discriminate E).
  assert (length b = 320%nat) as Lb.
  { destruct (SNPrivacy_roundtrip q SNPrivacyProof_Init [] [] Hq Hi) as (b' & Eb' & Lb & _).
    rewrite Eb in Eb'. by injection Eb' as ->. }
  assert (length (take cut b) = cut) as Lt by (rewrite length_take; lia).
  set (mem := cut_message b cut post). pose proof (rest_start mem) as R. unfold mem in R at 2. unfold cut_message in R.
  unfold ProofV1_SetBytes. change (length mem =? 0)%nat with false. cbv iota.
  erewrite (array_run pv_oneOfMany set_pv_oneOfMany ltac:(solve_lens) om_enc mem _ _ []); [|apply Forall_nil_2|exact R].
  apply (rest_move _ _ 1 [0]) in R; [|done]. apply st_bind_panic. unfold read_array_of. cbn [map length].
  change (length (array_enc om_enc [])) with 1%nat. rewrite (rest_more _ _ _ _ R).
  rewrite (st_bind_lift _ _ _ _ (index_rest _ _ _ _ R)), st_bind_put. apply rest_move_one in R.
  change (Z.to_nat 1) with 1%nat. cbn [read_items]. apply st_bind_panic. set (s := set_pv_serialNumber _ _).
  destruct (read_length2_run mem oob_serialNumber _ cut _ s ltac:(lia) R) as [E1 R1].
  unfold read_serialNumber. rewrite (st_bind_run _ _ _ _ _ E1). unfold read_element. rewrite st_bind_put.
  pose proof (next_bytes_run mem oob_serialNumber _ _ _ (set_pv_serialNumber (<[0%nat := Some SNPrivacyProof_Init]>
    (pv_serialNumber s)) s) R1) as E2. rewrite Lt in E2. rewrite (st_bind_run _ _ _ _ _ E2).
  apply (rest_move _ _ cut) in R1 as [_ ->]; [|done]. apply st_bind_panic.
  destruct (SNPrivacy_short q SNPrivacyProof_Init b cut (post ++ spare) Hq Hi Eb ltac:(lia)) as [Hp _].
  specialize (Hp ltac:(rewrite length_app; lia)).
  destruct (SNPrivacyProof_SetBytes (take cut b) (post ++ spare) SNPrivacyProof_Init) as [e r]. exact Hp.
Qed.

Lemma snp_length q b : snp_ok q -> SNPrivacyProof_Bytes q = Ok b -> length b = 320%nat.
Proof using CL.
  intros Hq Eb. destruct (SNPrivacy_roundtrip q SNPrivacyProof_Init [] [] Hq) as (b' & Eb' & Lb & _); [intros E; discriminate E|].
  rewrite Eb in Eb'. by injection Eb' as ->.
Qed.

(** The only proof of such a message is at the offset 2. *)
Lemma cut_message_offset b cut post spare p0 o : reaches_proof spare (cut_message b cut post) p0 o -> o = 2%nat.
Proof using Type.
  set (mem := cut_message b cut post). intros (p1 & o1 & count & p2 & i & E1 & Ec & Hi & Er).
  assert (o1 = 1%nat) as ->.
  { unfold read_array_of in E1. change (length mem <=? 0)%nat with false in E1. cbv iota in E1.
    unfold st_bind, st_lift, st_put in E1. change (index mem 0) with (Ok 0 : res Z) in E1. cbv iota beta in E1. by injection E1. }
  change (index mem 1) with (Ok 1 : res Z) in Ec. injection Ec as <-. change (Z.to_nat 1) with 1%nat in *.
  assert (i = 0)%nat as -> by lia. by injection Er.
Qed.

(** C33: which bytes make the parser of a payment panic.  The call returns, with a value
    or an error, unless it gets to a serial-number proof whose length is between 288
    and 319 bytes and behind which the memory of the slice, with its spare capacity,
    ends before 320 bytes: [SNPrivacyProof.SetBytes] asks for nine keys and reads ten.
    No other part of any message can make it panic.  A message with a correct proof cut
    to such a length panics exactly when the bytes that follow it and the spare capacity
    do not make up for what is missing. *)
Theorem ProofV1_parse_panics q b cut post spare bytes p0 :
  snp_ok q -> SNPrivacyProof_Bytes q = Ok b -> (288 <= cut < 320)%nat ->
  (res_safe (snd (ProofV1_SetBytes spare bytes p0)) \/ exists o, reaches_proof spare bytes p0 o /\ short_at spare bytes o) /\
  (snd (ProofV1_SetBytes spare (cut_message b cut post) p0) = Panic <-> (cut + length post + length spare < 320)%nat).
Proof using CL.
  intros Hq Eb Hcut. split; [apply ProofV1_SetBytes_cases|]. split; [|intros Hp; by apply (cut_message_panics q); [..|lia|]].
  intros Hp. destruct (ProofV1_SetBytes_cases spare (cut_message b cut post) p0) as [Hs|(o & Hr & Hshort)]; [by rewrite Hp in Hs|].
  assert (o = 2)%nat as -> by exact (cut_message_offset b cut post spare p0 o Hr).
  destruct Hshort as (lb & n & _ & _ & _ & _ & Hm). revert Hm. unfold cut_message. rewrite !length_app, length_take, (snp_length q b Hq Eb).
  rewrite IntToBytes_small, length_be_bytes by lia. cbn [length]. lia.
Qed.
End safety.

(** ** Witnesses *)

#[local] Existing Instances toy_curve toy_curve_laws toy_digests toy_digest_laws toy_cipher toy_cipher_laws.

Definition toy_input : PlainCoinV1 := mkPlainCoinV1 (Some (toy_write 5)) None None (Some (toy_write 8)) None 3 [].

(** A private payment with an output coin whose length takes two bytes. *)
Definition toy_payment : payment :=
  mkPayment [toy_om] [toy_snp] [toy_snnp] (Some toy_data) [toy_input] [mkCoinV1 toy_plain None]
    [GBASE] [GBASE] [] (Some GBASE) [GBASE] [GBASE] None [1; 2; 3; 4; 5; 6; 7; 2 ^ 62].

Lemma toy_input_ok : input_ok toy_input.
Proof.
  split; [|split; apply Nat.leb_le; reflexivity]. split; [apply toy_write_ok|]. split; [exact I|]. split; [exact I|].
  split; [apply toy_write_ok|]. split; [exact I|]. split; [unfold is_u64; simpl; lia|]. apply Forall_nil_2.
Qed.

Lemma toy_output_ok : output_ok (mkCoinV1 toy_plain None).
Proof.
  split; [apply toy_plain_ok|]. split; [apply Nat.leb_le; reflexivity|]. split; [exact I|].
  split; [intros e E; discriminate E|apply Z.ltb_lt; reflexivity].
Qed.

Lemma toy_payment_ok : payment_ok toy_payment.
Proof.
  split; [cbn [length toy_payment py_om py_sn py_nn py_in py_out py_outValue py_outSND py_outShard py_inValue py_inSND]; lia|].
  assert (Forall pt_ok [GBASE]) as Hg by (apply Forall_cons_2; [apply pt_base|apply Forall_nil_2]).
  split; [apply Forall_cons_2; [apply toy_om_ok|apply Forall_nil_2]|].
  split; [apply Forall_cons_2; [apply toy_snp_ok|apply Forall_nil_2]|].
  split; [apply Forall_cons_2; [apply toy_snnp_ok|apply Forall_nil_2]|].
  split; [split; intros E; discriminate E|].
  split; [intros r E; injection E as <-; split; [apply toy_data_ok|split; apply Nat.leb_le; reflexivity]|].
  split; [apply Forall_cons_2; [apply toy_input_ok|apply Forall_nil_2]|].
  split; [apply Forall_cons_2; [apply toy_output_ok|apply Forall_nil_2]|].
  split; [repeat (apply Forall_cons_2; [exact Hg || apply Forall_nil_2|]); apply Forall_nil_2|].
  split; [intros k E; injection E as <-; apply pt_base|]. split; [intros k E; discriminate E|].
  split; [repeat (apply Forall_cons_2; [unfold index_ok; lia|]); apply Forall_nil_2|reflexivity].
Qed.

Lemma ProofV1_roundtrip_witness : exists b,
  ProofV1_Bytes (sent None toy_payment) = Ok b /\
  ProofV1_SetBytes [] b ProofV1_new = (received ProofV1_new toy_payment, Ok tt).
Proof. exact (ProofV1_roundtrip None toy_payment [] ProofV1_new toy_payment_ok). Defined.

Lemma ProofV1_parse_panics_witness : exists b,
  SNPrivacyProof_Bytes toy_snp = Ok b /\
  snd (ProofV1_SetBytes [7; 7] (cut_message b 300 [9]) ProofV1_new) = Panic.
Proof.
  destruct (SNPrivacy_roundtrip toy_snp SNPrivacyProof_Init [] [] toy_snp_ok) as (b & Eb & _); [intros E; discriminate E|].
  exists b. split; [exact Eb|].
  destruct (ProofV1_parse_panics toy_snp b 300 [9] [7; 7] [] ProofV1_new toy_snp_ok Eb) as [_ H]; [lia|].
  apply H. cbn [length]. lia.
Defined.
