(* ===== verification/Payment.v ===== *)
(** * Payment.v: building the payment proof of version 1 (package zkp)

    [src/privacy/v1/zkp/witness_v1.go]: [Init] commits to the parts of every
    input and output coin and sets the witnesses of the sub-proofs up; [Prove]
    makes the sub-proofs, encrypts the output coins and conceals all coins.

    The scalars that [RandomScalar] returns are a stream, consumed in the order
    of the calls; the random values of the sub-proofs and of the encryption are
    streams of their own.  On an error the callers drop the witness, so the
    coins an [Init] or a [Prove] that fails has already changed are not
    returned.  [Fee] is not read by the code. *)

From stdpp Require Import base list gmap strings.
From Stdlib Require Import ZArith Lia.
From S2P Require Import Prelude Cursor Poly Common Hashing Crypto Key Base58 Base58Check Wallet CoinV2 Hybrid CoinV1 Linear Bulletproof Sigma OneOutOfMany ProofV1.
Open Scope Z_scope.

(** [FixedRandomnessShardID] *)
Definition fixedRandomnessShardID_bytes : list Z :=
  [96; 162; 171; 53; 38; 9; 151; 124; 107; 225; 186; 236; 191; 100; 39; 2;
   106; 156; 232; 16; 158; 147; 74; 0; 71; 131; 21; 72; 99; 235; 218; 6].
Definition FixedRandomnessShardID : list Z := Scalar_FromBytesS fixedRandomnessShardID_bytes.

Record PaymentWitness := mkPaymentWitness {
  pw_privateKey : option (list Z);
  pw_inputCoins : list PlainCoin;
  pw_outputCoins : list CoinV1;
  pw_commitmentIndices : list Z;
  pw_myCommitmentIndices : list Z;
  pw_oneOfMany : list OneOutOfManyWitness;
  pw_serialNumber : list SNPrivacyWitness;
  pw_serialNumberNoPrivacy : list SNNoPrivacyWitness;
  pw_range : option Witness;
  pw_comOutputValue : list (list Z);
  pw_comOutputSND : list (list Z);
  pw_comOutputShardID : list (list Z);
  pw_comInputSecretKey : option (list Z);
  pw_comInputValue : list (list Z);
  pw_comInputSND : list (list Z);
  pw_comInputShardID : option (list Z);
  pw_randSecretKey : list Z }.

Record PaymentWitnessParam := mkPaymentWitnessParam {
  pp_HasPrivacy : bool;
  pp_PrivateKey : option (list Z);
  pp_InputCoins : list PlainCoin;
  pp_OutputCoins : list CoinV1;
  pp_PublicKeyLastByteSender : Z;
  pp_Commitments : list (option (list Z));
  pp_CommitmentIndices : list Z;
  pp_MyCommitmentIndices : list Z }.

(** [SNPrivacyWitness.Set] *)
Definition SNPrivacyWitness_Set (stmt : option SerialNumberPrivacyStatement) (sk rSK input rInput : option (list Z))
    : SNPrivacyWitness := mkSNPrivacyWitness stmt sk rSK input rInput.

Section payment.
Context `{CO : CurveOps} `{DG : Digests} `{BC : BlockCipher}.

Definition set_details (f : PlainCoinV1 -> PlainCoinV1) (c : CoinV1) : CoinV1 :=
  mkCoinV1 (f (c1_CoinDetails c)) (c1_CoinDetailsEncrypted c).

(** ** Init *)

Section init.
Context (rnd : nat -> list Z).

(** Without privacy: new randomness and commitment of the output coins from [i] on. *)
Fixpoint commit_outputs (i : nat) (outs : list CoinV1) : res (list CoinV1) :=
  match outs with
  | [] => Ok []
  | c :: outs =>
      let* d := PlainCoinV1_CommitAll (p1_SetRandomness (Some (rnd i)) (c1_CoinDetails c)) in
      let* outs := commit_outputs (S i) outs in
      Ok (mkCoinV1 d (c1_CoinDetailsEncrypted c) :: outs)
  end.

Definition noPrivacyWitness (privateKey : option (list Z)) (c : PlainCoin) : SNNoPrivacyWitness :=
  SNNoPrivacyWitness_Set (PlainCoin_GetKeyImage c) (PlainCoin_GetPublicKey c) (PlainCoin_GetSNDerivator c) privateKey.

Definition Init_noPrivacy (p : PaymentWitnessParam) : res PaymentWitness :=
  let* outs := commit_outputs 1 (pp_OutputCoins p) in
  Ok (mkPaymentWitness (pp_PrivateKey p) (pp_InputCoins p) outs (pp_CommitmentIndices p) (pp_MyCommitmentIndices p)
        [] [] (map (noPrivacyWitness (pp_PrivateKey p)) (pp_InputCoins p)) None [] [] [] None [] [] None (rnd 0%nat)).

(** What [Init] makes of one input coin. *)
Record input_part := mkInputPart {
  in_comValue : list Z; in_comSND : list Z; in_randValue : list Z;
  in_om : OneOutOfManyWitness; in_sn : SNPrivacyWitness }.

(** The ring of an input: [commitments[preIndex+j] - cmInputSum], for [j] below 8. *)
Definition ring_of (commitments : list (option (list Z))) (preIndex : nat) (sum : list Z) : res (list (list Z)) :=
  res_map (fun j => let* o := index commitments (preIndex + j) in
                    let* c := deref o in Ok (Point_Sub c sum)) (seq 0 CommitmentRingSize).

Definition input_step (p : PaymentWitnessParam) (cmSK cmShard : list Z) (i : nat) (c : PlainCoin)
    (randValue randSND : list Z) : res input_part :=
  let randSK := rnd 0%nat in
  let* value := PlainCoin_GetValue c in
  let* v := Scalar_FromUint64 value in
  let* comValue := CommitAtIndex PedG v randValue PedersenValueIndex in
  let* snd := deref (PlainCoin_GetSNDerivator c) in
  let* comSND := CommitAtIndex PedG snd randSND PedersenSndIndex in
  let sum := Point_Add (Point_Add (Point_Add cmSK comValue) comSND) cmShard in
  let randSum := Scalar_Add (Scalar_Add (Scalar_Add randSK randValue) randSND) FixedRandomnessShardID in
  let* rand := deref (PlainCoin_GetRandomness c) in
  let randIsZero := Scalar_Sub rand randSum in
  let* ring := ring_of (pp_Commitments p) (CommitmentRingSize * i) sum in
  let* my := index (pp_MyCommitmentIndices p) i in
  let indexIsZero := my mod Z.of_nat CommitmentRingSize in
  let stmt := SerialNumberPrivacyStatement_Set (PlainCoin_GetKeyImage c) (Some cmSK) (Some comSND) in
  Ok (mkInputPart comValue comSND randValue
        (OneOutOfManyWitness_Set ring randIsZero indexIsZero)
        (SNPrivacyWitness_Set (Some stmt) (pp_PrivateKey p) (Some randSK) (PlainCoin_GetSNDerivator c) (Some randSND))).

(** The inputs from [i] on, [k] scalars being drawn: a transaction without outputs
    has value commitments of randomness 0. *)
Fixpoint input_loop (p : PaymentWitnessParam) (cmSK cmShard : list Z) (i k : nat) (ins : list PlainCoin)
    : res (nat * list input_part) :=
  match ins with
  | [] => Ok (k, [])
  | c :: ins =>
      let* rk := if (length (pp_OutputCoins p) =? 0)%nat
                 then let* zero := Scalar_FromUint64 0 in Ok (zero, k) else Ok (rnd k, S k) in
      let '(randValue, k) := rk in
      let* part := input_step p cmSK cmShard i c randValue (rnd k) in
      let* kl := input_loop p cmSK cmShard (S i) (S k) ins in
      let '(k, parts) := kl in
      Ok (k, part :: parts)
  end.

(** What [Init] makes of one output coin. *)
Record output_part := mkOutputPart {
  out_comValue : list Z; out_comSND : list Z; out_comShardID : list Z; out_randValue : list Z; out_coin : CoinV1 }.

Definition output_step (c : CoinV1) (randValue randSND randShardID : list Z) : res output_part :=
  let d := c1_CoinDetails c in
  let* v := Scalar_FromUint64 (p1_value d) in
  let* comValue := CommitAtIndex PedG v randValue PedersenValueIndex in
  let* snd := deref (p1_snDerivator d) in
  let* comSND := CommitAtIndex PedG snd randSND PedersenSndIndex in
  let* shardID := res_wrap "cannot parse shardID of outputCoins" (PlainCoinV1_GetShardID d) in
  let* sh := Scalar_FromUint64 shardID in
  let* comShardID := CommitAtIndex PedG sh randShardID PedersenShardIDIndex in
  let randSum := Scalar_Add (Scalar_Add randValue randSND) randShardID in
  let* pk := deref (p1_publicKey d) in
  let sum := Point_Add (Point_Add (Point_Add comValue comSND) pk) comShardID in
  Ok (mkOutputPart comValue comSND comShardID randValue
        (set_details (fun d => p1_SetRandomness (Some randSum) (p1_SetCommitment (Some sum) d)) c)).

(** The outputs: the randomness of the last value commitment balances the others,
    [all] being the sum of those so far. *)
Fixpoint output_loop (randInputValueAll all : list Z) (k : nat) (outs : list CoinV1) : res (list output_part) :=
  match outs with
  | [] => Ok []
  | c :: outs =>
      let '(randValue, k) := match outs with
                             | [] => (Scalar_Sub randInputValueAll all, k)
                             | _ => (rnd k, S k)
                             end in
      let* part := output_step c randValue (rnd k) (rnd (S k)) in
      let* parts := output_loop randInputValueAll (Scalar_Add all randValue) (S (S k)) outs in
      Ok (part :: parts)
  end.

Definition Init_privacy (p : PaymentWitnessParam) : res PaymentWitness :=
  let randSK := rnd 0%nat in
  let* sk := deref (pp_PrivateKey p) in
  let* cmSK := CommitAtIndex PedG sk randSK PedersenPrivateKeyIndex in
  let* sh := Scalar_FromUint64 (GetShardIDFromLastByte (pp_PublicKeyLastByteSender p)) in
  let* cmShard := CommitAtIndex PedG sh FixedRandomnessShardID PedersenShardIDIndex in
  let* zero := Scalar_FromUint64 0 in
  let* kins := input_loop p cmSK cmShard 0 1 (pp_InputCoins p) in
  let '(k, ins) := kins in
  let randInputValueAll := fold_left (fun acc part => Scalar_Add acc (in_randValue part)) ins zero in
  let* outs := output_loop randInputValueAll zero k (pp_OutputCoins p) in
  let* range := Witness_Set (map (fun c => p1_value (c1_CoinDetails c)) (map out_coin outs)) (map out_randValue outs) in
  Ok (mkPaymentWitness (pp_PrivateKey p) (pp_InputCoins p) (map out_coin outs) (pp_CommitmentIndices p)
        (pp_MyCommitmentIndices p) (map in_om ins) (map in_sn ins) [] (Some range)
        (map out_comValue outs) (map out_comSND outs) (map out_comShardID outs)
        (Some cmSK) (map in_comValue ins) (map in_comSND ins) (Some cmShard) randSK).

Definition PaymentWitness_Init (p : PaymentWitnessParam) : res PaymentWitness :=
  if pp_HasPrivacy p then Init_privacy p else Init_noPrivacy p.
End init.

(** ** Prove *)

Section prove.
Context (om_rnd : nat -> nat -> list Z) (sn_rnd : nat -> list Z * list Z * list Z * list Z) (nn_rnd range_rnd : nat -> list Z)
  (enc_rnd : nat -> list Z * list Z * list Z) (aggParam : bulletproofParams).

(** The loops over the witnesses and coins, from the index [i] on. *)
Fixpoint prove_noPrivacy (i : nat) (ins : list PlainCoin) (ws : list SNNoPrivacyWitness) : res (list SNNoPrivacyProof) :=
  match ins with
  | [] => Ok []
  | _ :: ins =>
      match ws with
      | [] => Panic
      | w :: ws =>
          let* q := SNNoPrivacyWitness_Prove (nn_rnd i) None w in
          let* qs := prove_noPrivacy (S i) ins ws in
          Ok (q :: qs)
      end
  end.

Definition prove_serialNumber (i : nat) (w : SNPrivacyWitness) : res SNPrivacyProof :=
  let '(eSK, eSND, dSK, dSND) := sn_rnd i in SNPrivacyWitness_Prove eSK eSND dSK dSND None w.

Fixpoint prove_inputs (i : nat) (oms : list OneOutOfManyWitness) (sns : list SNPrivacyWitness)
    : res (list OneOutOfManyProof * list SNPrivacyProof) :=
  match oms with
  | [] => Ok ([], [])
  | w :: oms =>
      let* q := OneOutOfManyWitness_Prove (om_rnd i) w in
      match sns with
      | [] => Panic
      | s :: sns =>
          let* t := prove_serialNumber i s in
          let* l := prove_inputs (S i) oms sns in
          Ok (q :: fst l, t :: snd l)
      end
  end.

(** [Encrypt], and what is hidden afterwards. *)
Definition hide_output (sKey iv r tk : list Z) (c : CoinV1) : res CoinV1 :=
  let '(c, e) := CoinV1_Encrypt sKey iv r tk c in
  let* _ := e in
  Ok (set_details (fun d => p1_SetRandomness None (p1_SetValue 0 (p1_SetKeyImage None d))) c).

Fixpoint hide_outputs (i : nat) (outs : list CoinV1) (infos : list (option PaymentInfo)) : res (list CoinV1) :=
  match outs with
  | [] => Ok []
  | c :: outs =>
      match infos with
      | [] => Panic
      | info :: infos =>
          let* info := deref info in
          let '(sKey, iv, r) := enc_rnd i in
          let* c := hide_output sKey iv r (pa_Tk (pi_PaymentAddress info)) c in
          let* outs := hide_outputs (S i) outs infos in
          Ok (c :: outs)
      end
  end.

Definition PaymentWitness_Prove (hasPrivacy : bool) (paymentInfo : list (option PaymentInfo)) (w : PaymentWitness)
    : res ProofV1 :=
  let coins l := map Some l in
  if negb hasPrivacy then
    let* qs := prove_noPrivacy 0 (pw_inputCoins w) (pw_serialNumberNoPrivacy w) in
    let outs := map (set_details (p1_SetKeyImage None)) (pw_outputCoins w) in
    Ok (mkProofV1 [] [] (map Some qs) (Some RangeProofV1_Init) (coins (pw_inputCoins w)) (map Some outs)
            (map Some (pw_comOutputValue w)) (map Some (pw_comOutputSND w)) (map Some (pw_comOutputShardID w))
            (pw_comInputSecretKey w) (map Some (pw_comInputValue w)) (map Some (pw_comInputSND w))
            (pw_comInputShardID w) (pw_commitmentIndices w))
  else
    let* subproofs := prove_inputs 0 (pw_oneOfMany w) (pw_serialNumber w) in
    let* wit := deref (pw_range w) in
    let* range := Witness_Prove_v1 range_rnd aggParam wit in
    let noIn := (length (pw_inputCoins w) =? 0)%nat in
    let noOut := (length (pw_outputCoins w) =? 0)%nat in
    let ifIn {A} (l : list A) := if noIn then [] else l in
    let ifOut {A} (l : list A) := if noOut then [] else l in
    let* outs := hide_outputs 0 (pw_outputCoins w) paymentInfo in
    let* ins := res_map PlainCoin_Conceal (pw_inputCoins w) in
    Ok (mkProofV1 (map Some (fst subproofs)) (map Some (snd subproofs)) [] (Some range) (coins ins) (map Some outs)
          (ifOut (map Some (pw_comOutputValue w))) (ifOut (map Some (pw_comOutputSND w)))
          (ifOut (map Some (pw_comOutputShardID w)))
          (if noIn then None else pw_comInputSecretKey w) (ifIn (map Some (pw_comInputValue w)))
          (ifIn (map Some (pw_comInputSND w))) (if noIn then None else pw_comInputShardID w)
          (ifIn (pw_commitmentIndices w))).
End prove.
End payment.

(** ** Specification *)

(** The input coin [i] may be spent with these parameters: the private key makes
    its public key and its serial number, the sender is in the shard of the key,
    and the ring of the coin holds its commitment at the index given. *)
Definition spendable `{CurveOps} `{Digests} (p : PaymentWitnessParam) (i : nat) (c : PlainCoinV1) : Prop :=
  exists sk g b snd rand sn d my,
    pp_PrivateKey p = Some sk /\ index PedG PedersenPrivateKeyIndex = Ok g /\
    p1_publicKey c = Some (Point_ScalarMult g sk) /\ index (Point_ScalarMult g sk) (Ed25519KeySize - 1) = Ok b /\
    GetShardIDFromLastByte b = GetShardIDFromLastByte (pp_PublicKeyLastByteSender p) /\
    p1_snDerivator c = Some snd /\ sc_ok snd /\ p1_randomness c = Some rand /\ sc_ok rand /\
    p1_serialNumber c = Some sn /\ Point_Derive g sk snd = Ok sn /\ is_u64 (p1_value c) /\
    PlainCoinV1_CommitAll c = Ok d /\
    pp_MyCommitmentIndices p !! i = Some my /\
    pp_Commitments p !! (CommitmentRingSize * i + Z.to_nat (my mod Z.of_nat CommitmentRingSize))%nat = Some (p1_commitment d).

(** An output coin that can be committed to. *)
Definition payable `{CurveOps} (c : CoinV1) : Prop :=
  let d := c1_CoinDetails c in
  exists pk snd, p1_publicKey d = Some pk /\ pt_ok pk /\ p1_snDerivator d = Some snd /\ sc_ok snd /\ is_u64 (p1_value d).

(** ** Lemmas *)

Section lemmas.
Context `{CL : CurveLaws} `{DL : DigestLaws} `{BL : BlockCipherLaws}.

Lemma fixed_randomness_ok : sc_ok FixedRandomnessShardID.
Proof using Type.
  split; [|by vm_compute]. split; [reflexivity|].
  repeat (apply Forall_cons_2; [unfold is_byte; lia|]). apply Forall_nil_2.
Qed.

Lemma PedG_gens : exists g0 g1 g2 g3 h,
  index PedG PedersenPrivateKeyIndex = Ok g0 /\ index PedG PedersenValueIndex = Ok g1 /\
  index PedG PedersenSndIndex = Ok g2 /\ index PedG PedersenShardIDIndex = Ok g3 /\
  index PedG PedersenRandomnessIndex = Ok h /\ pt_ok g0 /\ pt_ok g1 /\ pt_ok g2 /\ pt_ok g3 /\ pt_ok h.
Proof using CL DL.
  destruct PedG_list as (g0 & g1 & g2 & g3 & h & EG & HG). rewrite EG. exists g0, g1, g2, g3, h.
  rewrite !Forall_cons in HG. destruct HG as (? & ? & ? & ? & ? & _). repeat (split; [reflexivity|]). done.
Qed.

Lemma index_last pk : pt_ok pk -> exists b, index pk (Ed25519KeySize - 1) = Ok b.
Proof using CL.
  intros Hk. destruct (index_safe pk (Ed25519KeySize - 1)) as (b & E & _); [|by exists b].
  rewrite (pt_length pk Hk). unfold Ed25519KeySize. lia.
Qed.

Lemma shard_u64 b : is_u64 (GetShardIDFromLastByte b).
Proof using Type.
  unfold GetShardIDFromLastByte, u8, is_u64. pose proof (Z.mod_pos_bound (Z.rem b MaxShardNumber) (2 ^ 8)). lia.
Qed.

Section gens.
Context (g0 g1 g2 g3 h : list Z)
  (E0 : index PedG PedersenPrivateKeyIndex = Ok g0) (E1 : index PedG PedersenValueIndex = Ok g1)
  (E2 : index PedG PedersenSndIndex = Ok g2) (E3 : index PedG PedersenShardIDIndex = Ok g3)
  (Eh : index PedG PedersenRandomnessIndex = Ok h)
  (P0 : pt_ok g0) (P1 : pt_ok g1) (P2 : pt_ok g2) (P3 : pt_ok g3) (Ph : pt_ok h).

(** The commitment to a coin. *)
Definition coin_com (v snd b r : Z) (pk : list Z) : list Z :=
  AddKeys (AddKeys (AddKeys (AddKeys (pmul g1 v) (pmul g2 snd)) (pmul g3 (GetShardIDFromLastByte b))) (pmul h r)) pk.

Lemma CommitAll_sc d pk b snd r : p1_publicKey d = Some pk -> pt_ok pk -> index pk (Ed25519KeySize - 1) = Ok b ->
  p1_snDerivator d = Some (sc snd) -> p1_randomness d = Some (sc r) -> is_u64 (p1_value d) ->
  PlainCoinV1_CommitAll d = Ok (p1_SetCommitment (Some (coin_com (p1_value d) snd b r pk)) d).
Proof using All.
  intros Epk Hpk Eb Esn Er Hv.
  assert (exists d1, PlainCoinV1_CommitAll d = Ok d1) as (d1 & E).
  { unfold PlainCoinV1_CommitAll, PlainCoinV1_GetShardID. rewrite Epk, Esn, Er, Eb. cbn [res_bind deref].
    rewrite !FromUint64_sc by (try apply shard_u64; assumption || (unfold is_u64; lia)). cbn [res_bind].
    unfold CommitAll. destruct PedG_list as (? & ? & ? & ? & ? & EG & _). rewrite EG. cbn [length Nat.eqb negb res_bind].
    eexists. reflexivity. }
  destruct (commit_expected d d1 pk (sc snd) (sc r) Epk Esn Er Hpk (sc_ok_sc _) (sc_ok_sc _) Hv E) as (com & -> & Ec).
  rewrite E. do 3 f_equal. unfold expected_commitment, PlainCoinV1_GetShardID in Ec.
  cbn [p1_SetCommitment p1_publicKey p1_value p1_snDerivator p1_randomness] in Ec.
  rewrite Epk, Eb, Esn, Er, E1, E2, E3, Eh in Ec. cbn [res_wrap res_bind deref] in Ec.
  rewrite !FromUint64_sc in Ec by (try apply shard_u64; assumption). cbn [res_bind] in Ec. injection Ec as <-. reflexivity.
Qed.

Definition points_there (l : list (option (list Z))) : Prop := Forall (fun o => exists k, o = Some k /\ pt_ok k) l.

Lemma ring_of_ok l pre sum : points_there l -> (pre + 8 <= length l)%nat -> pt_ok sum ->
  exists ring, ring_of l pre sum = Ok ring /\ length ring = CommitmentRingSize /\ Forall pt_ok ring /\
    forall j c, (j < 8)%nat -> l !! (pre + j)%nat = Some (Some c) -> ring !! j = Some (SubKeys c sum).
Proof using CL.
  intros Hl Hpre Hsum. exists (map (fun j => SubKeys (default [] (default None (l !! (pre + j)%nat))) sum) (seq 0 8)).
  assert (forall j, (j < 8)%nat -> exists c, l !! (pre + j)%nat = Some (Some c) /\ pt_ok c) as Hj.
  { intros j Hj. destruct (lookup_lt_is_Some_2 l (pre + j)) as [o Eo]; [lia|].
    destruct (proj1 (Forall_lookup _ l) Hl _ _ Eo) as (c & -> & Hc). by exists c. }
  split; [|split; [reflexivity|split]].
  - unfold ring_of, CommitmentRingSize. apply res_map_ok. apply Forall_seq. intros j Hj0.
    destruct (Hj j ltac:(lia)) as (c & Ec & _). unfold index. rewrite Ec. reflexivity.
  - apply Forall_map, Forall_seq. intros j Hj0. destruct (Hj j ltac:(lia)) as (c & -> & Hc).
    cbn [default]. by apply sub_pt.
  - intros j c Hj0 Ec. rewrite list_lookup_fmap, lookup_seq_lt by done. cbn [fmap option_fmap option_map].
    change (0 + j)%nat with j. by rewrite Ec.
Qed.

(** The sum of the commitments to the parts of an input, and its randomness. *)
Definition part_sum (sk v snd b r0 rv rs rf : Z) : list Z :=
  AddKeys (AddKeys (AddKeys (AddKeys (pmul g0 sk) (pmul h r0)) (AddKeys (pmul g1 v) (pmul h rv)))
    (AddKeys (pmul g2 snd) (pmul h rs))) (AddKeys (pmul g3 (GetShardIDFromLastByte b)) (pmul h rf)).

(** It takes the commitment of the coin to a commitment to zero. *)
Lemma coin_com_zero sk v snd b r r0 rv rs rf :
  SubKeys (coin_com v snd b r (pmul g0 sk)) (part_sum sk v snd b r0 rv rs rf) =
  AddKeys (pmul g0 0) (pmul h (r - (r0 + rv + rs + rf))).
Proof using All.
  unfold coin_com, part_sum. rewrite sub_pmul by auto 10 using pt_add, pmul_pt. module.
Qed.

Lemma input_step_ok rnd p sk b0 i c rv rs : spendable p i c -> points_there (pp_Commitments p) ->
  (8 * (i + 1) <= length (pp_Commitments p))%nat -> pp_PrivateKey p = Some (sc sk) -> (forall k, sc_ok (rnd k)) ->
  GetShardIDFromLastByte b0 = GetShardIDFromLastByte (pp_PublicKeyLastByteSender p) ->
  exists part, input_step rnd p (AddKeys (pmul g0 sk) (pmul h (key_val (rnd 0%nat))))
      (AddKeys (pmul g3 (GetShardIDFromLastByte b0)) (pmul h (key_val FixedRandomnessShardID))) i (PlainV1 c) (sc rv) (sc rs) = Ok part /\
    opens_to_zero (in_om part) /\ sn_honest (in_sn part) /\ in_randValue part = sc rv /\
    in_comValue part = AddKeys (pmul g1 (p1_value c)) (pmul h rv) /\
    sw_sk (in_sn part) = Some (sc sk) /\ sw_input (in_sn part) = p1_snDerivator c /\
    option_map sn_sn (sw_stmt (in_sn part)) = Some (p1_serialNumber c).
Proof using All.
  intros (sk' & g & b & snd & rand & sn & d & my & Hsk & Eg & Epk & Eb & Hb & Esn & Hsn & Er & Hr & Eki & Ed & Hv & Ecom & Hmy & Hc)
    Hpts Hlen Hsk' Hrnd Hb0.
  rewrite Hsk in Hsk'. injection Hsk' as ->. rewrite E0 in Eg. injection Eg as <-.
  rewrite (sc_repr snd Hsn) in *. rewrite (sc_repr rand Hr) in *. set (zs := key_val snd) in *. set (zr := key_val rand) in *.
  set (r0 := key_val (rnd 0%nat)). set (rf := key_val FixedRandomnessShardID).
  assert (rnd 0%nat = sc r0) as Er0 by apply sc_repr, Hrnd.
  assert (FixedRandomnessShardID = sc rf) as Erf by apply sc_repr, fixed_randomness_ok.
  unfold input_step. cbn [PlainCoin_GetValue PlainCoin_GetSNDerivator PlainCoin_GetRandomness PlainCoin_GetKeyImage res_bind].
  rewrite FromUint64_sc, Esn, Er by exact Hv. cbn [res_bind deref].
  rewrite (CommitAtIndex_sc PedG g1 h), (CommitAtIndex_sc PedG g2 h) by assumption. cbn [res_bind].
  unfold Point_Add. rewrite Hb0, <- Hb. fold (part_sum sk (p1_value c) zs b r0 rv rs rf).
  assert (pt_ok (part_sum sk (p1_value c) zs b r0 rv rs rf)) as Psum by (unfold part_sum; auto 10 using pt_add, pmul_pt).
  destruct (ring_of_ok (pp_Commitments p) (CommitmentRingSize * i) _ Hpts ltac:(unfold CommitmentRingSize; lia) Psum)
    as (ring & -> & Lr & Pr & Hring).
  cbn [res_bind]. unfold index at 1. rewrite Hmy. cbn [res_bind]. eexists. split; [reflexivity|].
  cbn [in_om in_sn in_randValue in_comValue]. split; [|split; [|repeat split; by rewrite ?Hsk]].
  - change (pmul g0 sk) with (Point_ScalarMult g0 (sc sk)) in Epk.
    unfold OneOutOfManyWitness_Set, opens_to_zero. cbn [ow_commitments ow_rand ow_indexIsZero].
    split; [exact Pr|]. split; [exact Lr|]. unfold Scalar_Sub, Scalar_Add. rewrite Er0, Erf, !ScAdd_sc, ScSub_sc.
    split; [apply sc_ok_sc|]. pose proof (Z.mod_pos_bound my 8 ltac:(lia)) as Hm. change (Z.of_nat CommitmentRingSize) with 8 in *.
    exists (Z.to_nat (my mod 8)). eexists. split; [by rewrite Z2Nat.id by lia|]. split; [unfold CommitmentRingSize; lia|].
    rewrite (CommitAll_sc c (Point_ScalarMult g0 (sc sk)) b zs zr Epk ltac:(by apply pmul_pt) Eb Esn Er Hv) in Ecom.
    injection Ecom as <-. split; [apply Hring; [lia|exact Hc]|].
    rewrite (CommitAtIndex_sc PedG g0 h) by assumption. f_equal. symmetry. apply coin_com_zero.
  - exists (sc sk), (rnd 0%nat), (sc zs), (sc rs), g0, sn. eexists _, _. unfold SNPrivacyWitness_Set, SerialNumberPrivacyStatement_Set.
    rewrite Hsk, Eki. split; [reflexivity|]. split; [|split; [exact E0|split; [exact Ed|]]].
    + repeat (apply Forall_cons_2; [apply sc_ok_sc || apply Hrnd|]). apply Forall_nil_2.
    + rewrite Er0. split; by apply CommitAtIndex_sc.
Qed.

(** The commitment to a value. *)
Definition value_com (v : Z) (r : list Z) : list Z := AddKeys (pmul g1 v) (pmul h (key_val r)).

(** What [Init] owes for an input coin. *)
Definition input_spec (sk : list Z) (c : PlainCoinV1) (part : input_part) : Prop :=
  opens_to_zero (in_om part) /\ sn_honest (in_sn part) /\ sc_ok (in_randValue part) /\
  in_comValue part = value_com (p1_value c) (in_randValue part) /\
  sw_sk (in_sn part) = Some sk /\ sw_input (in_sn part) = p1_snDerivator c /\
  option_map sn_sn (sw_stmt (in_sn part)) = Some (p1_serialNumber c).

Lemma pmul_val q z : pmul q (key_val (sc z)) = pmul q z.
Proof using Type. by rewrite sc_val, eqm_mod. Qed.

Lemma input_step_spec rnd p sk b0 i c rv rs : spendable p i c -> points_there (pp_Commitments p) ->
  (8 * (i + 1) <= length (pp_Commitments p))%nat -> pp_PrivateKey p = Some sk -> sc_ok sk -> (forall k, sc_ok (rnd k)) ->
  GetShardIDFromLastByte b0 = GetShardIDFromLastByte (pp_PublicKeyLastByteSender p) -> sc_ok rv -> sc_ok rs ->
  exists part, input_step rnd p (AddKeys (pmul g0 (key_val sk)) (pmul h (key_val (rnd 0%nat))))
      (AddKeys (pmul g3 (GetShardIDFromLastByte b0)) (pmul h (key_val FixedRandomnessShardID))) i (PlainV1 c) rv rs = Ok part /\
    input_spec sk c part /\ in_randValue part = rv.
Proof using All.
  intros Hsp Hpts Hlen Hsk Hsc Hrnd Hb Hrv Hrs. rewrite (sc_repr rv Hrv), (sc_repr rs Hrs). rewrite (sc_repr sk Hsc) in Hsk.
  destruct (input_step_ok rnd p (key_val sk) b0 i c (key_val rv) (key_val rs) Hsp Hpts Hlen Hsk Hrnd Hb)
    as (part & E & Hom & Hsn & Er & Ec & S1 & S2 & S3).
  exists part. split; [exact E|]. split; [|exact Er]. unfold input_spec, value_com. rewrite Er, pmul_val, <- (sc_repr sk Hsc) in *.
  repeat (split; [assumption || apply sc_ok_sc|]). assumption.
Qed.

Lemma input_loop_ok rnd p sk b0 : points_there (pp_Commitments p) -> pp_PrivateKey p = Some sk -> sc_ok sk ->
  (forall k, sc_ok (rnd k)) -> GetShardIDFromLastByte b0 = GetShardIDFromLastByte (pp_PublicKeyLastByteSender p) ->
  forall ins i k, (forall j c, ins !! j = Some c -> spendable p (i + j) c) ->
  (8 * (i + length ins) <= length (pp_Commitments p))%nat ->
  exists k' parts, input_loop rnd p (AddKeys (pmul g0 (key_val sk)) (pmul h (key_val (rnd 0%nat))))
      (AddKeys (pmul g3 (GetShardIDFromLastByte b0)) (pmul h (key_val FixedRandomnessShardID))) i k (map PlainV1 ins) = Ok (k', parts) /\
    Forall2 (input_spec sk) ins parts /\ (pp_OutputCoins p = [] -> Forall (fun part => in_randValue part = sc 0) parts).
Proof using All.
  intros Hpts Hsk Hsc Hrnd Hb. induction ins as [|c ins IH]; intros i k Hsp Hlen.
  - exists k, []. split; [done|]. split; [constructor|]. intros _. constructor.
  - cbn [map input_loop length] in *.
    assert (exists rv k1, (if (length (pp_OutputCoins p) =? 0)%nat
                 then let* zero := Scalar_FromUint64 0 in Ok (zero, k) else Ok (rnd k, S k)) = Ok (rv, k1) /\ sc_ok rv /\
             (pp_OutputCoins p = [] -> rv = sc 0)) as (rv & k1 & -> & Hrv & H0').
    { destruct (pp_OutputCoins p); cbn [length Nat.eqb].
      - rewrite FromUint64_sc by (unfold is_u64; lia). cbn [res_bind]. exists (sc 0), k. split; [done|]. split; [apply sc_ok_sc|done].
      - exists (rnd k), (S k). split; [done|]. split; [apply Hrnd|]. intros E. discriminate E. }
    cbn [res_bind]. pose proof (Hsp 0%nat c eq_refl) as Hc. rewrite Nat.add_0_r in Hc.
    destruct (input_step_spec rnd p sk b0 i c rv (rnd k1) Hc Hpts ltac:(lia) Hsk Hsc Hrnd Hb Hrv (Hrnd k1)) as (part & -> & Hpart & Er).
    cbn [res_bind]. destruct (IH (S i) (S k1)) as (k' & parts & -> & Hparts & Hz); [|lia|].
    { intros j d Hj. replace (S i + j)%nat with (i + S j)%nat by lia. by apply Hsp. }
    cbn [res_bind]. exists k', (part :: parts). split; [done|]. split; [by constructor|].
    intros E. constructor; [by rewrite Er; apply H0'|by apply Hz].
Qed.

(** ** Outputs *)

(** What [Init] owes for an output coin: a commitment that opens to its fields. *)
Definition output_spec (c : CoinV1) (part : output_part) : Prop :=
  let d := c1_CoinDetails (out_coin part) in
  sc_ok (out_randValue part) /\ out_comValue part = value_com (p1_value (c1_CoinDetails c)) (out_randValue part) /\
  (exists com r, sc_ok r /\ d = p1_SetRandomness (Some r) (p1_SetCommitment (Some com) (c1_CoinDetails c))) /\
  PlainCoinV1_CommitAll d = Ok d.

Lemma output_step_ok c rv rs rh : payable c -> sc_ok rv -> sc_ok rs -> sc_ok rh ->
  exists part, output_step c rv rs rh = Ok part /\ output_spec c part /\ out_randValue part = rv.
Proof using All.
  intros (pk & snd & Epk & Hpk & Esn & Hsn & Hv) Hrv Hrs Hrh. destruct c as [d e]. cbn [c1_CoinDetails] in *.
  destruct (index_last pk Hpk) as (b & Eb). rewrite (sc_repr snd Hsn), (sc_repr rv Hrv), (sc_repr rs Hrs), (sc_repr rh Hrh) in *.
  set (zs := key_val snd) in *. set (v1 := key_val rv) in *. set (v2 := key_val rs) in *. set (v3 := key_val rh) in *.
  unfold output_step, PlainCoinV1_GetShardID. cbn [c1_CoinDetails]. rewrite FromUint64_sc by exact Hv. rewrite Esn, Epk, Eb.
  cbn [res_bind deref res_wrap]. rewrite (FromUint64_sc (GetShardIDFromLastByte b)) by apply shard_u64. cbn [res_bind].
  rewrite (CommitAtIndex_sc PedG g1 h), (CommitAtIndex_sc PedG g2 h), (CommitAtIndex_sc PedG g3 h) by assumption. cbn [res_bind].
  eexists. split; [reflexivity|]. split; [|reflexivity]. unfold output_spec, set_details. cbn [out_coin out_randValue out_comValue c1_CoinDetails].
  split; [apply sc_ok_sc|]. split; [unfold value_com; by rewrite pmul_val|].
  unfold Scalar_Add, Point_Add. rewrite !ScAdd_sc. split; [eexists _, _; split; [|reflexivity]; apply sc_ok_sc|].
  rewrite (CommitAll_sc _ pk b zs (v1 + v2 + v3)); try assumption; [|reflexivity].
  f_equal. unfold p1_SetCommitment, p1_SetRandomness. cbn. do 2 f_equal. unfold coin_com. module.
Qed.

Definition zsum (l : list Z) : Z := foldr Z.add 0 l.

Lemma output_loop_ok rnd rin : (forall k, sc_ok (rnd k)) -> sc_ok rin -> forall outs all k, Forall payable outs -> sc_ok all ->
  exists parts, output_loop rnd rin all k outs = Ok parts /\ Forall2 output_spec outs parts /\
    (outs <> [] -> key_val all + zsum (map (fun o => key_val (out_randValue o)) parts) ≡ₒ key_val rin).
Proof using All.
  intros Hrnd Hrin. induction outs as [|c outs IH]; intros all k Hp Hall.
  - exists []. split; [done|]. split; [constructor|done].
  - apply Forall_cons in Hp as [Hc Hp]. cbn [output_loop].
    set (rk := match outs with [] => _ | _ => _ end).
    assert (sc_ok (fst rk) /\ (outs = [] -> fst rk = Scalar_Sub rin all)) as [Hrv Hlast].
    { unfold rk. destruct outs; cbn [fst].
      - split; [|done]. unfold Scalar_Sub. rewrite (sc_repr rin Hrin), (sc_repr all Hall), ScSub_sc. apply sc_ok_sc.
      - split; [apply Hrnd|]. intros E. discriminate E. }
    destruct rk as [rv k1]. cbn [fst] in *.
    destruct (output_step_ok c rv (rnd k1) (rnd (S k1)) Hc Hrv (Hrnd _) (Hrnd _)) as (part & -> & Hpart & Er). cbn [res_bind].
    assert (Scalar_Add all rv = sc (key_val all + key_val rv)) as Es.
    { unfold Scalar_Add. rewrite (sc_repr all Hall) at 1. rewrite (sc_repr rv Hrv) at 1. apply ScAdd_sc. }
    destruct (IH (Scalar_Add all rv) (S (S k1)) Hp ltac:(rewrite Es; apply sc_ok_sc)) as (parts & -> & Hparts & Hs). cbn [res_bind].
    exists (part :: parts). split; [done|]. split; [by constructor|]. intros _. cbn [map zsum foldr]. rewrite Er.
    fold (zsum (map (fun o => key_val (out_randValue o)) parts)). destruct outs as [|c2 outs].
    + inversion Hparts; subst parts. cbn [map zsum foldr]. rewrite (Hlast eq_refl). unfold Scalar_Sub.
      rewrite (sc_repr rin Hrin), (sc_repr all Hall), ScSub_sc, !sc_val, !eqm_mod. eqm_ring.
    + rewrite Z.add_assoc. rewrite Es, sc_val, eqm_mod in Hs. by apply Hs.
Qed.

(** ** Balance *)

Definition total (ps : list (list Z)) : list Z := foldr Point_Add Identity ps.

Lemma total_com (vrs : list (Z * list Z)) :
  total (map (fun vr => value_com (fst vr) (snd vr)) vrs) =
  AddKeys (pmul g1 (zsum (map fst vrs))) (pmul h (zsum (map (fun vr => key_val (snd vr)) vrs))).
Proof using All.
  induction vrs as [|[v r] vrs IH].
  - cbn. rewrite !pmul_0 by assumption. symmetry. apply add_identity, pt_identity.
  - cbn [map total foldr fst snd zsum]. fold (total (map (fun vr => value_com (fst vr) (snd vr)) vrs)).
    rewrite IH. unfold Point_Add, value_com. fold (zsum (map fst vrs)) (zsum (map (fun vr => key_val (snd vr)) vrs)).
    set (a := zsum (map fst vrs)). set (b := zsum _). module.
Qed.

Lemma fold_rand l : forall z, Forall sc_ok (map in_randValue l) ->
  fold_left (fun acc part => Scalar_Add acc (in_randValue part)) l (sc z) =
  sc (z + zsum (map (fun o => key_val (in_randValue o)) l)).
Proof using CL.
  induction l as [|part l IH]; intros z Hl; cbn [fold_left map zsum foldr]; [by rewrite Z.add_0_r|].
  cbn [map] in Hl. apply Forall_cons in Hl as [Hp Hl]. unfold Scalar_Add at 2. rewrite (sc_repr _ Hp) at 1.
  rewrite ScAdd_sc, IH by done. f_equal. unfold zsum. lia.
Qed.

Lemma inputs_total sk ins parts : Forall2 (input_spec sk) ins parts ->
  total (map in_comValue parts) =
  AddKeys (pmul g1 (zsum (map p1_value ins))) (pmul h (zsum (map (fun o => key_val (in_randValue o)) parts))).
Proof using All.
  intros Hp. set (vrs := zip_with (fun c o => (p1_value c, in_randValue o)) ins parts).
  assert (map in_comValue parts = map (fun vr => value_com (fst vr) (snd vr)) vrs /\ map fst vrs = map p1_value ins /\
    map (fun vr => key_val (snd vr)) vrs = map (fun o => key_val (in_randValue o)) parts) as (-> & <- & <-); [|apply total_com].
  unfold vrs. clear vrs. induction Hp as [|c o ins parts (_ & _ & _ & Ho & _) Hp (I1 & I2 & I3)]; [done|].
  cbn [zip_with map fst snd]. by rewrite I1, I2, I3, Ho.
Qed.

Lemma outputs_total outs parts : Forall2 output_spec outs parts ->
  total (map out_comValue parts) =
  AddKeys (pmul g1 (zsum (map (fun c => p1_value (c1_CoinDetails c)) outs)))
    (pmul h (zsum (map (fun o => key_val (out_randValue o)) parts))).
Proof using All.
  intros Hp. set (vrs := zip_with (fun c o => (p1_value (c1_CoinDetails c), out_randValue o)) outs parts).
  assert (map out_comValue parts = map (fun vr => value_com (fst vr) (snd vr)) vrs /\
    map fst vrs = map (fun c => p1_value (c1_CoinDetails c)) outs /\
    map (fun vr => key_val (snd vr)) vrs = map (fun o => key_val (out_randValue o)) parts) as (-> & <- & <-); [|apply total_com].
  unfold vrs. clear vrs. induction Hp as [|c o outs parts (_ & Ho & _) Hp (I1 & I2 & I3)]; [done|].
  cbn [zip_with map fst snd]. by rewrite I1, I2, I3, Ho.
Qed.

(** ** Init *)

(** Parameters of a private payment that can be made. *)
Definition param_ok (p : PaymentWitnessParam) (ins : list PlainCoinV1) : Prop :=
  pp_HasPrivacy p = true /\ (exists sk, pp_PrivateKey p = Some sk /\ sc_ok sk) /\ pp_InputCoins p = map PlainV1 ins /\
  (forall i c, ins !! i = Some c -> spendable p i c) /\ points_there (pp_Commitments p) /\
  (CommitmentRingSize * length ins <= length (pp_Commitments p))%nat /\ Forall payable (pp_OutputCoins p).

(** The value commitments of the inputs are those of the outputs and the difference of the sums. *)
Definition balanced (comIn comOut : list (list Z)) (fee : Z) : Prop :=
  total comIn = Point_Add (total comOut) (Point_ScalarMult g1 (sc fee)).

(** The witness for inputs [ins] and the parts made of inputs and outputs. *)
Definition witness_for (p : PaymentWitnessParam) (cmSK cmShard randSK : list Z) (parts : list input_part)
    (outs : list output_part) : PaymentWitness :=
  mkPaymentWitness (pp_PrivateKey p) (pp_InputCoins p) (map out_coin outs) (pp_CommitmentIndices p)
    (pp_MyCommitmentIndices p) (map in_om parts) (map in_sn parts) []
    (Some (mkWitness (map (fun c => p1_value (c1_CoinDetails c)) (map out_coin outs)) (map out_randValue outs)))
    (map out_comValue outs) (map out_comSND outs) (map out_comShardID outs)
    (Some cmSK) (map in_comValue parts) (map in_comSND parts) (Some cmShard) randSK.

Lemma Init_ok rnd p ins : param_ok p ins -> (forall k, sc_ok (rnd k)) ->
  exists sk parts outs cmSK cmShard, pp_PrivateKey p = Some sk /\
    PaymentWitness_Init rnd p = Ok (witness_for p cmSK cmShard (rnd 0%nat) parts outs) /\
    Forall2 (input_spec sk) ins parts /\ Forall2 output_spec (pp_OutputCoins p) outs /\
    balanced (map in_comValue parts) (map out_comValue outs)
      (zsum (map p1_value ins) - zsum (map (fun c => p1_value (c1_CoinDetails c)) (pp_OutputCoins p))).
Proof using All.
  intros (Hpr & (sk & Hsk & Hsc) & Hins & Hsp & Hpts & Hlen & Hout) Hrnd.
  set (b0 := pp_PublicKeyLastByteSender p). exists sk.
  destruct (input_loop_ok rnd p sk b0 Hpts Hsk Hsc Hrnd eq_refl ins 0 1 Hsp Hlen) as (k & parts & Ein & Hparts & Hzero).
  assert (Forall sc_ok (map in_randValue parts)) as Hrs.
  { apply Forall_map. clear -Hparts. induction Hparts as [|c o ins parts (_ & _ & Ho & _) Hp IH]; by constructor. }
  set (R := zsum (map (fun o => key_val (in_randValue o)) parts)).
  destruct (output_loop_ok rnd (sc (0 + R)) Hrnd (sc_ok_sc _) (pp_OutputCoins p) (sc 0) k Hout (sc_ok_sc _)) as (outs & Eout & Houts & Hs).
  exists parts, outs. eexists _, _. split; [exact Hsk|]. split; [|split; [exact Hparts|split; [exact Houts|]]].
  - unfold PaymentWitness_Init. rewrite Hpr. unfold Init_privacy. rewrite Hsk. cbn [deref res_bind].
    rewrite (sc_repr sk Hsc) at 1. rewrite (sc_repr (rnd 0%nat) (Hrnd _)) at 1.
    rewrite (CommitAtIndex_sc PedG g0 h) by assumption. cbn [res_bind].
    fold b0. rewrite (FromUint64_sc (GetShardIDFromLastByte b0)) by apply shard_u64. cbn [res_bind].
    rewrite (sc_repr FixedRandomnessShardID fixed_randomness_ok) at 1.
    rewrite (CommitAtIndex_sc PedG g3 h) by assumption. cbn [res_bind].
    rewrite (FromUint64_sc 0) by (unfold is_u64; lia). cbn [res_bind]. rewrite Hins, Ein. cbn [res_bind].
    rewrite (fold_rand parts 0 Hrs). fold R. rewrite Eout. cbn [res_bind].
    unfold Witness_Set. rewrite !length_map, Nat.ltb_irrefl. cbn [res_bind].
    rewrite take_ge by (apply Nat.eq_le_incl, length_map). unfold witness_for. rewrite Hins, Hsk. reflexivity.
  - unfold balanced. rewrite (inputs_total sk ins parts Hparts), (outputs_total _ _ Houts). fold R.
    unfold Point_Add, Point_ScalarMult. set (S1 := zsum (map p1_value ins)). set (S2 := zsum (map _ (pp_OutputCoins p))).
    fold (pmul g1 (S1 - S2)). set (R2 := zsum (map (fun o => key_val (out_randValue o)) outs)) in *.
    assert (R ≡ₒ R2) as ->.
    { destruct (pp_OutputCoins p) as [|c0 cs] eqn:Ep.
      - inversion Houts; subst outs. unfold R, R2. cbn [map zsum foldr]. specialize (Hzero eq_refl). clear -Hzero.
        induction Hzero as [|o parts Ho Hz IH]; [done|]. cbn [map zsum foldr]. rewrite Ho. change (key_val (sc 0)) with 0. exact IH.
      - specialize (Hs ltac:(discriminate)). rewrite !sc_val, !eqm_mod, !Z.add_0_l in Hs. by symmetry. }
    module.
Qed.

(** ** Prove *)

Definition om_spec (w : OneOutOfManyWitness) (d : om_data) : Prop :=
  od_C d = ow_commitments w /\ om_data_ok d /\ om_verify d = Ok true.
Definition sn_spec (w : SNPrivacyWitness) (q : SNPrivacyProof) : Prop :=
  spr_stmt q = sw_stmt w /\ snp_ok q /\ (sn_invertible w -> sn_verify None q = Ok true).

(** The scalars of a serial-number proof. *)
Definition scalars4_ok (t : list Z * list Z * list Z * list Z) : Prop :=
  let '(a, b, c, d) := t in Forall sc_ok [a; b; c; d].

Lemma prove_inputs_ok om_rnd sn_rnd oms sns : (forall i k, sc_ok (om_rnd i k)) -> (forall i, scalars4_ok (sn_rnd i)) ->
  Forall opens_to_zero oms -> Forall sn_honest sns -> length oms = length sns ->
  forall i, exists ds qs, prove_inputs om_rnd sn_rnd i oms sns = Ok (map om_proof_of ds, qs) /\
    Forall2 om_spec oms ds /\ Forall2 sn_spec sns qs.
Proof using CL DL.
  intros Hr1 Hr2 Hom. revert sns. induction Hom as [|w oms Hw Hom IH]; intros [|s sns] Hsn Hl i; try discriminate Hl.
  - exists [], []. split; [done|]. split; constructor.
  - apply Forall_cons in Hsn as [Hs Hsn]. injection Hl as Hl. cbn [prove_inputs].
    destruct (om_complete (om_rnd i) w (Hr1 i) Hw) as (d & -> & D1 & D2 & D3). cbn [res_bind].
    unfold prove_serialNumber. specialize (Hr2 i) as Hi. destruct (sn_rnd i) as [[[a b] c] e].
    destruct (sn_complete a b c e None s Hi ltac:(intros m E; discriminate E) Hs) as (q & -> & Q1 & Q2 & Q3). cbn [res_bind].
    destruct (IH sns Hsn Hl (S i)) as (ds & qs & -> & Hds & Hqs). cbn [res_bind fst snd].
    exists (d :: ds), (q :: qs). split; [done|]. by split; constructor.
Qed.

Lemma range_commitments outs parts : Forall payable outs -> Forall2 output_spec outs parts ->
  zip_with (fun v r => Point_AddPedersen (key_of v) g1 r h)
    (map (fun c => p1_value (c1_CoinDetails c)) (map out_coin parts)) (map out_randValue parts) = map out_comValue parts.
Proof using All.
  intros Hp Ho. induction Ho as [|c o outs parts (Hr & Hc & (com & r & _ & Ed) & _) Ho IH]; [done|].
  apply Forall_cons in Hp as [(pk & snd & _ & _ & _ & _ & Hv) Hp]. cbn [map zip_with]. rewrite (IH Hp), Hc. f_equal.
  assert (p1_value (c1_CoinDetails (out_coin o)) = p1_value (c1_CoinDetails c)) as -> by by rewrite Ed.
  rewrite sc_small by (unfold is_u64 in Hv; assert (2 ^ 64 < order) by (by vm_compute); lia).
  rewrite (sc_repr _ Hr) at 1. by apply add_pedersen_sc.
Qed.

(** What the recipient of an output finds: the details that were committed to,
    in a coin that shows none of value, randomness and key image. *)
Definition delivered (info : PaymentInfo) (c out : CoinV1) : Prop :=
  exists d, PlainCoinV1_CommitAll d = Ok d /\ p1_publicKey d = p1_publicKey (c1_CoinDetails c) /\
    p1_snDerivator d = p1_snDerivator (c1_CoinDetails c) /\ p1_value d = p1_value (c1_CoinDetails c) /\
    c1_CoinDetails out = p1_SetValue 0 (p1_SetRandomness None d) /\
    forall x ks, view_only x ks -> pa_Tk (pi_PaymentAddress info) = ScalarMultKey GBASE x ->
      p1_publicKey d = Some (pa_Pk (ks_PaymentAddress ks)) -> CoinV1_Decrypt (Some ks) out = (d, Ok d).

(** The random values of an encryption. *)
Definition enc_rnd_ok (t : list Z * list Z * list Z) : Prop :=
  let '(sKey, iv, r) := t in pt_ok sKey /\ length iv = BlockSize /\ sc_ok r /\ ScalarMultKey GBASE r <> Identity.

Lemma Encrypt_keyimage sKey iv r tk d e :
  CoinV1_Encrypt sKey iv r tk (mkCoinV1 (p1_SetKeyImage None d) e) =
  let '(c, x) := CoinV1_Encrypt sKey iv r tk (mkCoinV1 d e) in (set_details (p1_SetKeyImage None) c, x).
Proof using Type.
  unfold CoinV1_Encrypt, set_details. cbn [c1_CoinDetails p1_randomness p1_value p1_SetKeyImage].
  destruct (p1_randomness d); [|done]. cbn [deref res_bind].
  destruct (Point_FromBytesS tk); try done. cbn [res_bind]. by destruct (HybridEncrypt _ _ _ _ _).
Qed.

Lemma CommitAll_val d pk b snd r : p1_publicKey d = Some pk -> pt_ok pk -> index pk (Ed25519KeySize - 1) = Ok b ->
  p1_snDerivator d = Some snd -> sc_ok snd -> p1_randomness d = Some r -> sc_ok r -> is_u64 (p1_value d) ->
  PlainCoinV1_CommitAll d = Ok (p1_SetCommitment (Some (coin_com (p1_value d) (key_val snd) b (key_val r) pk)) d).
Proof using All.
  intros Epk Hpk Eb Esn Hsn Er Hr Hv. rewrite (sc_repr snd Hsn) in Esn. rewrite (sc_repr r Hr) in Er.
  by apply CommitAll_sc.
Qed.

Lemma hide_output_ok sKey iv r info c part x : output_spec c part -> payable c -> enc_rnd_ok (sKey, iv, r) ->
  pa_Tk (pi_PaymentAddress info) = ScalarMultKey GBASE x -> sc_ok x ->
  exists out, hide_output sKey iv r (pa_Tk (pi_PaymentAddress info)) (out_coin part) = Ok out /\ delivered info c out.
Proof using All.
  destruct part as [cv cs ch rv [d enc]]. unfold output_spec. cbn [out_coin c1_CoinDetails out_randValue out_comValue].
  intros (_ & _ & (com & rd & Hrd & Ed) & Hcom) (pk & snd & Epk & Hpk & Esn & Hsn & Hv) (Hk & Hiv & Hr & Hid) Etk Hx.
  destruct (index_last pk Hpk) as (b & Eb). set (dk := p1_SetKeyImage None d).
  assert (p1_publicKey dk = Some pk /\ p1_snDerivator dk = Some snd /\ p1_randomness dk = Some rd /\
    p1_value dk = p1_value (c1_CoinDetails c)) as (K1 & K2 & K3 & K4) by (unfold dk; rewrite Ed; by repeat split).
  assert (PlainCoinV1_CommitAll dk = Ok dk) as Hdk.
  { rewrite (CommitAll_val d pk b snd rd) in Hcom by (assumption || by rewrite Ed).
    rewrite (CommitAll_val dk pk b snd rd) by (assumption || by rewrite K4).
    injection Hcom as Hc. apply (f_equal p1_commitment) in Hc. cbn [p1_SetCommitment p1_commitment] in Hc.
    unfold dk. destruct d. cbn in *. by rewrite Hc. }
  assert (forall x ks, sc_ok x -> view_only x ks -> pa_Tk (pi_PaymentAddress info) = ScalarMultKey GBASE x ->
    pa_Pk (ks_PaymentAddress ks) = pk ->
    exists e, CoinV1_Encrypt sKey iv r (pa_Tk (pi_PaymentAddress info)) (mkCoinV1 d enc) = (e, Ok tt) /\
    CoinV1_Decrypt (Some ks) (set_details (fun d => p1_SetRandomness None (p1_SetValue 0 (p1_SetKeyImage None d))) e) = (dk, Ok dk)) as Hdec.
  { intros y ks _ Hks Ey Eown. destruct (CoinV1_decrypt_encrypt dk dk enc pk snd rd sKey iv r y ks None 0 K1 K2 K3 Hpk Hsn Hrd
      ltac:(by rewrite K4) Hk Hiv Hr Hid Hks Eown Hdk) as (c1 & Ee & Edec).
    rewrite <- Ey in Ee. unfold dk in Ee. rewrite Encrypt_keyimage in Ee.
    destruct (CoinV1_Encrypt sKey iv r (pa_Tk (pi_PaymentAddress info)) (mkCoinV1 d enc)) as [e res].
    injection Ee as <- ->. exists e. split; [done|]. exact Edec. }
  set (ks0 := mkKeySet [] (mkPaymentAddress pk [] []) (mkViewingKey [] x) emptyOTAKey).
  destruct (Hdec x ks0 Hx (conj eq_refl (conj eq_refl Hx)) Etk eq_refl) as (e & Ee & _).
  unfold hide_output. rewrite Ee. cbn [res_bind]. eexists. split; [reflexivity|].
  exists dk. split; [exact Hdk|]. split; [exact (eq_trans K1 (eq_sym Epk))|]. split; [exact (eq_trans K2 (eq_sym Esn))|]. split; [exact K4|].
  split.
  - assert (c1_CoinDetails e = d) as Edet.
    { unfold CoinV1_Encrypt in Ee. repeat (case_match; simplify_eq; try done). }
    unfold set_details. cbn [c1_CoinDetails]. by rewrite Edet.
  - intros y ks Hks Ey Eown. rewrite K1 in Eown. injection Eown as Eown. pose proof Hks as (_ & _ & Hy).
    destruct (Hdec y ks Hy Hks Ey (eq_sym Eown)) as (e' & Ee' & Edec). rewrite Ee in Ee'. by injection Ee' as <-.
Qed.

(** Each output has a payment info with a transmission key. *)
Definition infos_ok (outs : list CoinV1) (infos : list (option PaymentInfo)) : Prop :=
  Forall2 (fun _ o => exists info x, o = Some info /\ pa_Tk (pi_PaymentAddress info) = ScalarMultKey GBASE x /\ sc_ok x) outs infos.

Lemma hide_outputs_ok enc_rnd : (forall i, enc_rnd_ok (enc_rnd i)) -> forall outs parts infos i,
  Forall2 output_spec outs parts -> Forall payable outs -> infos_ok outs infos ->
  exists hidden, hide_outputs enc_rnd i (map out_coin parts) infos = Ok hidden /\
    length hidden = length outs /\
    forall j c info out, outs !! j = Some c -> infos !! j = Some (Some info) -> hidden !! j = Some out -> delivered info c out.
Proof using All.
  intros Hr outs parts infos i Hs. revert infos i. induction Hs as [|c part outs parts Hc Hs IH]; intros infos i Hp Hi.
  - exists []. split; [done|]. split; [done|]. intros [|] ? ? ? E; discriminate E.
  - apply Forall_cons in Hp as [Hpc Hp]. inversion Hi as [|? o ? infos' (info & x & -> & Etk & Hx) Hi']; subst.
    cbn [map hide_outputs deref res_bind]. specialize (Hr i) as Hri. destruct (enc_rnd i) as [[sKey iv] r].
    destruct (hide_output_ok sKey iv r info c part x Hc Hpc Hri Etk Hx) as (out & -> & Hout). cbn [res_bind].
    destruct (IH infos' (S i) Hp Hi') as (hidden & -> & Lh & Hh). cbn [res_bind]. exists (out :: hidden).
    split; [done|]. split; [cbn; by rewrite Lh|].
    intros [|j] c' info' out' E1' E2' E3'; cbn in E1', E2', E3'; [by simplify_eq|by apply (Hh j c' info' out')].
Qed.

(** The proof as a verifier sees it: the parts of [Prove]'s result. *)
Record accepted (p : PaymentWitnessParam) (ins : list PlainCoinV1) (infos : list (option PaymentInfo)) (w : PaymentWitness)
    (ag : bulletproofParams) (proof : ProofV1) : Prop := mkAccepted {
  (** one proof of membership per input, in the ring that the witness built *)
  acc_om : exists ds, pv_oneOfMany proof = map Some (map om_proof_of ds) /\ Forall2 om_spec (pw_oneOfMany w) ds;
  (** one proof of the serial number per input *)
  acc_sn : exists qs, pv_serialNumber proof = map Some qs /\
    Forall2 (fun c q => option_map sn_sn (spr_stmt q) = Some (p1_serialNumber c) /\ snp_ok q /\
      (forall sk snd, pp_PrivateKey p = Some sk -> p1_snDerivator c = Some snd ->
         Z.gcd (key_val (Scalar_Add sk snd)) order = 1 -> sn_verify None q = Ok true)) ins qs;
  (** every output value is in range, and the commitments balance up to the fee *)
  acc_value : exists d comIn, pv_rangeProof proof = Some (proof_of 1 d) /\
    (range_invertible (bp_cs ag) 1 d -> range_check ag g1 h 1 d = Ok true) /\
    pv_comOutputValue proof = map Some (pd_cms d) /\ pv_comInputValue proof = map Some comIn /\
    balanced comIn (pd_cms d)
      (zsum (map p1_value ins) - zsum (map (fun c => p1_value (c1_CoinDetails c)) (pp_OutputCoins p)));
  (** of the inputs only serial number and info are left, and the outputs reach their recipients *)
  acc_in : pv_inputCoins proof = map (fun c => Some (PlainV1 (mkPlainCoinV1 None None None (p1_serialNumber c) None 0 (p1_info c)))) ins;
  acc_out : exists outs, pv_outputCoins proof = map Some outs /\ length outs = length (pp_OutputCoins p) /\
    forall j c info out, pp_OutputCoins p !! j = Some c -> infos !! j = Some (Some info) -> outs !! j = Some out ->
      delivered info c out }.

(** The parts that [Init] made are ready for the provers. *)
Lemma inputs_ready sk ins parts : Forall2 (input_spec sk) ins parts ->
  Forall opens_to_zero (map in_om parts) /\ Forall sn_honest (map in_sn parts).
Proof using Type. induction 1 as [|c o ins parts (Ho & Hs & _) Hp [I1 I2]]; split; cbn [map]; by constructor. Qed.

Lemma outputs_ready outs parts : Forall payable outs -> Forall2 output_spec outs parts ->
  let vs := map (fun c => p1_value (c1_CoinDetails c)) (map out_coin parts) in
  vs = map (fun c => p1_value (c1_CoinDetails c)) outs /\ Forall is_u64 vs /\ Forall sc_ok (map out_randValue parts).
Proof using Type.
  intros Hpay Hout. cbv zeta. induction Hout as [|c o cs parts (Hr & _ & (com & r & _ & Ed) & _) Ho IH]; [by repeat constructor|].
  apply Forall_cons in Hpay as [(pk & snd & _ & _ & _ & _ & Hv) Hp]. destruct (IH Hp) as (I1 & I2 & I3). cbn [map].
  assert (p1_value (c1_CoinDetails (out_coin o)) = p1_value (c1_CoinDetails c)) as -> by by rewrite Ed.
  split; [by f_equal|]. by split; constructor.
Qed.

Lemma sn_proofs_ok p sk ins parts qs : pp_PrivateKey p = Some sk -> Forall2 (input_spec sk) ins parts ->
  Forall2 sn_spec (map in_sn parts) qs ->
  Forall2 (fun c q => option_map sn_sn (spr_stmt q) = Some (p1_serialNumber c) /\ snp_ok q /\
      (forall sk snd, pp_PrivateKey p = Some sk -> p1_snDerivator c = Some snd ->
         Z.gcd (key_val (Scalar_Add sk snd)) order = 1 -> sn_verify None q = Ok true)) ins qs.
Proof using Type.
  intros Hsk Hin. revert qs. induction Hin as [|c o ins parts (_ & _ & _ & _ & S1 & S2 & S3) Hp IH]; intros qs Hqs;
    inversion Hqs as [|? q ? qs' (Q1 & Q2 & Q3) Hqs']; subst; constructor; [|by apply IH].
  split; [by rewrite Q1|]. split; [exact Q2|]. intros sk' snd Esk Esnd Hg. apply Q3. unfold sn_invertible.
  rewrite S1, S2, Esnd. rewrite Hsk in Esk. injection Esk as <-. exact Hg.
Qed.

Lemma Prove_ok om_rnd sn_rnd nn_rnd range_rnd enc_rnd aggParam p ins infos sk parts outs cmSK cmShard randSK :
  param_ok p ins -> pp_PrivateKey p = Some sk -> Forall2 (input_spec sk) ins parts -> Forall2 output_spec (pp_OutputCoins p) outs ->
  balanced (map in_comValue parts) (map out_comValue outs)
    (zsum (map p1_value ins) - zsum (map (fun c => p1_value (c1_CoinDetails c)) (pp_OutputCoins p))) ->
  (forall i k, sc_ok (om_rnd i k)) -> (forall i, scalars4_ok (sn_rnd i)) -> (forall k, sc_ok (range_rnd k)) ->
  (forall i, enc_rnd_ok (enc_rnd i)) -> infos_ok (pp_OutputCoins p) infos ->
  params_ok aggParam -> (length (pp_OutputCoins p) <= MaxOutputCoin)%nat ->
  let N := (MaxExp * Z.to_nat (roundUpPowTwo (Z.of_nat (length (pp_OutputCoins p)))))%nat in
  (N <= length (bp_g aggParam))%nat -> (N <= length (bp_h aggParam))%nat ->
  let w := witness_for p cmSK cmShard randSK parts outs in
  exists ag proof, setAggregateParams aggParam N = Ok ag /\
    PaymentWitness_Prove om_rnd sn_rnd nn_rnd range_rnd enc_rnd aggParam true infos w = Ok proof /\
    accepted p ins infos w ag proof.
Proof using All.
  intros Hpar Hsk Hin Hout Hbal Hr1 Hr2 Hr3 Hr4 Hinfos Hagg Hmax N LG LH w.
  destruct Hpar as (_ & _ & Hins & _ & _ & _ & Hpay).
  destruct (inputs_ready sk ins parts Hin) as [Hom Hsn].
  destruct (prove_inputs_ok om_rnd sn_rnd (map in_om parts) (map in_sn parts) Hr1 Hr2 Hom Hsn ltac:(by rewrite !length_map) 0)
    as (ds & qs & Eprove & Hds & Hqs).
  pose proof (Forall2_length _ _ _ Hout) as Lout. pose proof (Forall2_length _ _ _ Hin) as Lin.
  set (vs := map (fun c => p1_value (c1_CoinDetails c)) (map out_coin outs)). set (rs := map out_randValue outs).
  destruct (outputs_ready _ _ Hpay Hout) as (Evs & Hvs & Hrs). fold vs rs in Evs, Hvs, Hrs.
  destruct (aggregate_complete range_rnd aggParam 1 g1 h (mkWitness vs rs) P1 Ph Hagg) as (ag & d & Eag & Erange & Ecms & _ & _ & Hcheck).
  { split; [exact Hvs|]. split; [exact Hrs|]. cbn [wt_values wt_rands]. unfold vs, rs. rewrite !length_map, <- Lout. by split. }
  { exact Hr3. }
  { cbn [wt_values]. unfold vs. by rewrite !length_map, <- Lout. }
  { cbn [wt_values]. unfold vs. by rewrite !length_map, <- Lout. }
  cbn [wt_values] in Eag. unfold vs in Eag at 1. rewrite !length_map, <- Lout in Eag. fold N in Eag.
  cbn [wt_values wt_rands] in Ecms. unfold vs, rs in Ecms. rewrite (range_commitments _ _ Hpay Hout) in Ecms.
  destruct (hide_outputs_ok enc_rnd Hr4 (pp_OutputCoins p) outs infos 0 Hout Hpay Hinfos) as (hidden & Ehide & Lh & Hh).
  exists ag. eexists. split; [exact Eag|]. split.
  - unfold PaymentWitness_Prove, w, witness_for. cbn [negb pw_oneOfMany pw_serialNumber pw_range pw_inputCoins pw_outputCoins].
    rewrite Eprove. cbn [res_bind deref]. fold vs rs. unfold Witness_Prove_v1. rewrite E1, Eh. cbn [res_bind]. rewrite Erange.
    cbn [res_bind]. rewrite Ehide. cbn [res_bind]. rewrite Hins.
    rewrite (res_map_ok _ (fun c => match c with PlainV1 c => PlainV1 (PlainCoinV1_ConcealOutputCoin c) | c => c end))
      by (apply Forall_map, Forall_true; done). cbn [res_bind]. reflexivity.
  - split; unfold w, witness_for; cbn [pv_oneOfMany pv_serialNumber pv_rangeProof pv_comOutputValue pv_comInputValue pv_inputCoins
      pv_outputCoins pw_oneOfMany pw_comOutputValue pw_comInputValue fst snd].
    + by exists ds.
    + exists qs. split; [done|]. by apply (sn_proofs_ok p sk ins parts).
    + exists d, (map in_comValue parts). split; [reflexivity|]. split; [exact Hcheck|]. rewrite Ecms.
      split; [|split; [|exact Hbal]].
      * destruct outs; [by destruct (_ =? _)%nat|]. reflexivity.
      * rewrite length_map. destruct ins; [|reflexivity]. by inversion Hin.
    + rewrite !map_map. reflexivity.
    + exists hidden. split; [reflexivity|]. split; [exact Lh|exact Hh].
Qed.
End gens.

(** *** Without privacy *)

(** The private key makes the public key and the serial number of an input. *)
Definition owned (p : PaymentWitnessParam) (c : PlainCoinV1) : Prop :=
  exists sk g snd sn, pp_PrivateKey p = Some sk /\ sc_ok sk /\ index PedG PedersenPrivateKeyIndex = Ok g /\
    p1_publicKey c = Some (Point_ScalarMult g sk) /\ p1_snDerivator c = Some snd /\ sc_ok snd /\
    p1_serialNumber c = Some sn /\ Point_Derive g sk snd = Ok sn.

(** The output after [Init]: new randomness, and the commitment to all its fields. *)
Definition committed (c o : CoinV1) : Prop :=
  exists com r, sc_ok r /\ c1_CoinDetails o = p1_SetCommitment (Some com) (p1_SetRandomness (Some r) (c1_CoinDetails c)) /\
    c1_CoinDetailsEncrypted o = c1_CoinDetailsEncrypted c /\ PlainCoinV1_CommitAll (c1_CoinDetails o) = Ok (c1_CoinDetails o).

Lemma commit_outputs_ok rnd : (forall k, sc_ok (rnd k)) -> forall outs i, Forall payable outs ->
  exists outs', commit_outputs rnd i outs = Ok outs' /\ Forall2 committed outs outs'.
Proof using CL DL BL.
  intros Hr. destruct PedG_gens as (g0 & g1 & g2 & g3 & h & E0 & E1 & E2 & E3 & Eh & P0 & P1 & P2 & P3 & Ph).
  induction outs as [|c outs IH]; intros i Hp; [by exists []|]. apply Forall_cons in Hp as [(pk & snd & Epk & Hpk & Esn & Hsn & Hv) Hp].
  destruct (index_last pk Hpk) as (b & Eb). destruct (IH (S i) Hp) as (outs' & E & Ho). cbn [commit_outputs].
  set (d := p1_SetRandomness (Some (rnd i)) (c1_CoinDetails c)).
  assert (forall d', p1_publicKey d' = p1_publicKey d -> p1_snDerivator d' = p1_snDerivator d -> p1_randomness d' = p1_randomness d ->
    p1_value d' = p1_value d -> PlainCoinV1_CommitAll d' = Ok (p1_SetCommitment (Some (coin_com g1 g2 g3 h (p1_value d) (key_val snd) b
      (key_val (rnd i)) pk)) d')) as Hd.
  { intros d' F1 F2 F3 F4. rewrite <- F4.
    apply (CommitAll_val g0 g1 g2 g3 h E0 E1 E2 E3 Eh P0 P1 P2 P3 Ph);
      [by rewrite F1|exact Hpk|exact Eb|by rewrite F2|exact Hsn|by rewrite F3|apply Hr|rewrite F4; exact Hv]. }
  rewrite (Hd d eq_refl eq_refl eq_refl eq_refl), E. cbn [res_bind]. eexists. split; [reflexivity|]. constructor; [|exact Ho].
  eexists _, (rnd i). split; [apply Hr|]. cbn [c1_CoinDetails c1_CoinDetailsEncrypted]. split; [reflexivity|]. split; [reflexivity|].
  by rewrite Hd.
Qed.

Lemma prove_noPrivacy_ok p nn_rnd : (forall i, sc_ok (nn_rnd i)) -> forall ins i, Forall (owned p) ins ->
  exists qs, prove_noPrivacy nn_rnd i (map PlainV1 ins) (map (noPrivacyWitness (pp_PrivateKey p)) (map PlainV1 ins)) = Ok qs /\
    Forall2 (fun c q => np_stmt q = mkSNNoPrivacyStatement (p1_serialNumber c) (p1_publicKey c) (p1_snDerivator c) /\ snnp_ok q /\
      (forall sk snd, pp_PrivateKey p = Some sk -> p1_snDerivator c = Some snd ->
         Z.gcd (key_val (Scalar_Add sk snd)) order = 1 -> snnp_verify None q = Ok true)) ins qs.
Proof using CL DL BL.
  intros Hr. induction ins as [|c ins IH]; intros i Ho; [by exists []|].
  apply Forall_cons in Ho as [(sk & g & snd & sn & Esk & Hsk & Eg & Epk & Esnd & Hsnd & Esn & Ed) Ho].
  destruct (IH (S i) Ho) as (qs & E & Hqs). cbn [map prove_noPrivacy]. unfold noPrivacyWitness at 1.
  cbn [PlainCoin_GetKeyImage PlainCoin_GetPublicKey PlainCoin_GetSNDerivator]. rewrite Esk, Epk, Esnd, Esn.
  destruct (sn_no_privacy_complete sk snd (nn_rnd i) None g sn) as (q & Eq & Q1 & Q2 & Q3); try assumption; [|by intros m E'|].
  { repeat (apply Forall_cons_2; [assumption || apply Hr|]). apply Forall_nil_2. }
  rewrite Eq. cbn [res_bind]. rewrite <- Esk, E. cbn [res_bind]. eexists. split; [reflexivity|]. constructor; [|exact Hqs].
  split; [by rewrite Q1, Epk, Esnd, Esn|]. split; [exact Q2|]. intros sk' snd' Esk' Esnd' Hg. apply Q3.
  rewrite Esk in Esk'. rewrite Esnd in Esnd'. injection Esk' as <-. injection Esnd' as <-. exact Hg.
Qed.

(** ** Properties *)

(** C9: a private payment of version 1.  When every input coin belongs to the
    private key and its commitment is in its ring at the index given, [Init] and
    [Prove] succeed, whatever the random scalars, and a verifier accepts the
    result: each one-out-of-many proof satisfies its equations for the ring of
    its input, each serial-number proof shows the serial number of its input,
    the range proof is about the commitments to the output values, and these
    balance those of the inputs up to the fee.  Of the inputs nothing but
    serial number and info is shown; each output hides its value, and its
    recipient decrypts it to the details that were committed to. *)
Theorem payment_accepted rnd om_rnd sn_rnd nn_rnd range_rnd enc_rnd aggParam p ins infos :
  param_ok p ins -> infos_ok (pp_OutputCoins p) infos ->
  (forall k, sc_ok (rnd k)) -> (forall i k, sc_ok (om_rnd i k)) -> (forall i, scalars4_ok (sn_rnd i)) ->
  (forall k, sc_ok (range_rnd k)) -> (forall i, enc_rnd_ok (enc_rnd i)) ->
  params_ok aggParam -> (length (pp_OutputCoins p) <= MaxOutputCoin)%nat ->
  let N := (MaxExp * Z.to_nat (roundUpPowTwo (Z.of_nat (length (pp_OutputCoins p)))))%nat in
  (N <= length (bp_g aggParam))%nat -> (N <= length (bp_h aggParam))%nat ->
  exists g1 h w ag proof,
    index PedG PedersenValueIndex = Ok g1 /\ index PedG PedersenRandomnessIndex = Ok h /\
    PaymentWitness_Init rnd p = Ok w /\ setAggregateParams aggParam N = Ok ag /\
    PaymentWitness_Prove om_rnd sn_rnd nn_rnd range_rnd enc_rnd aggParam true infos w = Ok proof /\
    accepted g1 h p ins infos w ag proof.
Proof using CL DL BL.
  intros Hpar Hinfos Hr0 Hr1 Hr2 Hr3 Hr4 Hagg Hmax N LG LH.
  destruct PedG_gens as (g0 & g1 & g2 & g3 & h & E0 & E1 & E2 & E3 & Eh & P0 & P1 & P2 & P3 & Ph).
  destruct (Init_ok g0 g1 g2 g3 h E0 E1 E2 E3 Eh P0 P1 P2 P3 Ph rnd p ins Hpar Hr0)
    as (sk & parts & outs & cmSK & cmShard & Esk & Einit & Hin & Hout & Hbal).
  destruct (Prove_ok g0 g1 g2 g3 h E0 E1 E2 E3 Eh P0 P1 P2 P3 Ph om_rnd sn_rnd nn_rnd range_rnd enc_rnd aggParam p ins infos sk parts
    outs cmSK cmShard (rnd 0%nat) Hpar Esk Hin Hout Hbal Hr1 Hr2 Hr3 Hr4 Hinfos Hagg Hmax LG LH) as (ag & proof & Eag & Eprove & Hacc).
  by exists g1, h, (witness_for p cmSK cmShard (rnd 0%nat) parts outs), ag, proof.
Qed.

(** C22: a payment without privacy: [Init] and [Prove] succeed for inputs that
    belong to the private key, the proof of each serial number satisfies its
    equations for the public key of its input, the input coins are shown as
    they are, and every output carries a commitment to its fields, with the
    randomness that opens it, and no key image; the proof counts as not
    private. *)
Theorem payment_noPrivacy rnd om_rnd sn_rnd nn_rnd range_rnd enc_rnd aggParam p ins infos :
  pp_HasPrivacy p = false -> pp_InputCoins p = map PlainV1 ins -> Forall (owned p) ins -> Forall payable (pp_OutputCoins p) ->
  (forall k, sc_ok (rnd k)) -> (forall k, sc_ok (nn_rnd k)) ->
  exists w proof qs outs, PaymentWitness_Init rnd p = Ok w /\
    PaymentWitness_Prove om_rnd sn_rnd nn_rnd range_rnd enc_rnd aggParam false infos w = Ok proof /\
    ProofV1_IsPrivacy (Some proof) = false /\
    pv_serialNumberNoPrivacy proof = map Some qs /\
    Forall2 (fun c q => np_stmt q = mkSNNoPrivacyStatement (p1_serialNumber c) (p1_publicKey c) (p1_snDerivator c) /\ snnp_ok q /\
      (forall sk snd, pp_PrivateKey p = Some sk -> p1_snDerivator c = Some snd ->
         Z.gcd (key_val (Scalar_Add sk snd)) order = 1 -> snnp_verify None q = Ok true)) ins qs /\
    pv_inputCoins proof = map Some (pp_InputCoins p) /\
    pv_outputCoins proof = map Some (map (set_details (p1_SetKeyImage None)) outs) /\
    Forall2 committed (pp_OutputCoins p) outs.
Proof using CL DL BL.
  intros Hpr Hins Hown Hout Hr Hn.
  destruct (commit_outputs_ok rnd Hr (pp_OutputCoins p) 1 Hout) as (outs & Eo & Ho).
  destruct (prove_noPrivacy_ok p nn_rnd Hn ins 0 Hown) as (qs & Eq & Hq).
  eexists _, _, qs, outs. split; [unfold PaymentWitness_Init, Init_noPrivacy; rewrite Hpr, Eo; reflexivity|].
  split; [unfold PaymentWitness_Prove; cbn [negb pw_inputCoins pw_serialNumberNoPrivacy pw_outputCoins]; rewrite Hins, Eq; reflexivity|].
  split; [reflexivity|]. split; [reflexivity|]. split; [exact Hq|]. split; [by rewrite Hins|]. by split.
Qed.
End lemmas.

(** ** Witnesses *)

#[local] Existing Instances toy_curve toy_curve_laws toy_digests toy_digest_laws toy_cipher toy_cipher_laws.

(** A coin of value 30 that the key 5 owns, an output of value 20, and the
    parameters that spend one for the other. *)
Definition toy_owned (g0 sn : list Z) : PlainCoinV1 :=
  mkPlainCoinV1 (Some (pmul g0 5)) None (Some (sc 7)) (Some sn) (Some (sc 9)) 30 [].
Definition toy_out : CoinV1 := mkCoinV1 (mkPlainCoinV1 (Some GBASE) None (Some (sc 8)) None None 20 []) None.
Definition toy_param (privacy : bool) (c : PlainCoinV1) (b : Z) (com : option (list Z)) : PaymentWitnessParam :=
  mkPaymentWitnessParam privacy (Some (sc 5)) [PlainV1 c] [toy_out] b (replicate 8 com) [] [3].
Definition toy_info : PaymentInfo := mkPaymentInfo (mkPaymentAddress GBASE (ScalarMultKey GBASE (sc 11)) []) 20 [].
Definition toy_scalars4 (i : nat) : list Z * list Z * list Z * list Z := (sc 1, sc 2, sc 3, sc 4).
Definition toy_enc (i : nat) : list Z * list Z * list Z := (toy_write 5, replicate 16 7, key_of 3).

Lemma toy_out_payable : Forall payable [toy_out].
Proof.
  apply Forall_cons_2; [|apply Forall_nil_2]. exists GBASE, (sc 8). split; [reflexivity|]. split; [apply pt_base|].
  split; [reflexivity|]. split; [apply sc_ok_sc|unfold is_u64; simpl; lia].
Qed.

Lemma toy_enc_ok i : enc_rnd_ok (toy_enc i).
Proof.
  split; [by eexists|]. split; [reflexivity|]. split; [apply toy_scalar; lia|].
  apply (bool_decide_unpack _). vm_compute. exact I.
Qed.

(** The parameters of the private payment, for the generators of the curve. *)
Lemma toy_param_ok : exists p c, param_ok p [c] /\ pp_OutputCoins p = [toy_out] /\ p1_value c = 30.
Proof.
  destruct PedG_gens as (g0 & g1 & g2 & g3 & h & E0 & E1 & E2 & E3 & Eh & P0 & P1 & P2 & P3 & Ph).
  destruct (Point_Derive_sc g0 5 7) as (i & Ei & _). destruct (index_last (pmul g0 5) (pmul_pt g0 5 P0)) as (b & Eb).
  set (c := toy_owned g0 (pmul g0 i)). set (com := coin_com g1 g2 g3 h 30 7 b 9 (pmul g0 5)).
  assert (pt_ok com) as Hcom.
  { unfold com, coin_com. repeat first [assumption | apply pmul_pt | apply pt_add]. }
  exists (toy_param true c b (Some com)), c. split; [|split; reflexivity].
  split; [reflexivity|]. split; [exists (sc 5); split; [reflexivity|apply sc_ok_sc]|]. split; [reflexivity|].
  split; [|split; [apply Forall_replicate; exists com; split; [reflexivity|exact Hcom]|split; [apply Nat.leb_le; reflexivity|apply toy_out_payable]]].
  intros [|j] c' Ej; [|discriminate Ej]. injection Ej as <-.
  exists (sc 5), g0, b, (sc 7), (sc 9), (pmul g0 i), (p1_SetCommitment (Some com) c), 3.
  split; [reflexivity|]. split; [exact E0|]. split; [reflexivity|]. split; [exact Eb|]. split; [reflexivity|].
  split; [reflexivity|]. split; [apply sc_ok_sc|]. split; [reflexivity|]. split; [apply sc_ok_sc|]. split; [reflexivity|].
  split; [exact Ei|]. split; [unfold is_u64; simpl; lia|]. split; [|split; reflexivity].
  exact (CommitAll_sc g0 g1 g2 g3 h E0 E1 E2 E3 Eh P0 P1 P2 P3 Ph c (pmul g0 5) b 7 9 eq_refl (pmul_pt g0 5 P0) Eb eq_refl eq_refl
    ltac:(unfold is_u64; simpl; lia)).
Qed.

Lemma payment_accepted_witness : exists p c w proof g1 h ag,
  PaymentWitness_Init toy_rand p = Ok w /\
  PaymentWitness_Prove (fun _ => toy_rand) toy_scalars4 toy_rand toy_rand toy_enc toy_params true [Some toy_info] w = Ok proof /\
  accepted g1 h p [c] [Some toy_info] w ag proof /\ p1_value c = 30.
Proof.
  destruct toy_param_ok as (p & c & Hp & Eout & Ev).
  assert (forall k, sc_ok (toy_rand k)) as Hr by (intros k; apply sc_ok_sc).
  destruct (payment_accepted toy_rand (fun _ => toy_rand) toy_scalars4 toy_rand toy_rand toy_enc toy_params p [c] [Some toy_info])
    as (g1 & h & w & ag & proof & _ & _ & Ei & _ & Eprove & Hacc); try assumption.
  - rewrite Eout. apply Forall2_cons_2; [|apply Forall2_nil_2]. exists toy_info, (sc 11).
    split; [reflexivity|]. split; [reflexivity|apply sc_ok_sc].
  - intros _. exact Hr.
  - intros i. exact (scs_ok [1; 2; 3; 4]).
  - exact toy_enc_ok.
  - exact toy_params_ok.
  - rewrite Eout. unfold MaxOutputCoin. cbn [length]. lia.
  - rewrite Eout. vm_compute. lia.
  - rewrite Eout. vm_compute. lia.
  - by exists p, c, w, proof, g1, h, ag.
Defined.

Lemma payment_noPrivacy_witness : exists p w proof,
  PaymentWitness_Init toy_rand p = Ok w /\
  PaymentWitness_Prove (fun _ => toy_rand) toy_scalars4 toy_rand toy_rand toy_enc toy_params false [] w = Ok proof /\
  length (pv_serialNumberNoPrivacy proof) = 1%nat.
Proof.
  destruct PedG_gens as (g0 & _ & _ & _ & _ & E0 & _). destruct (Point_Derive_sc g0 5 7) as (i & Ei & _).
  assert (forall k, sc_ok (toy_rand k)) as Hr by (intros k; apply sc_ok_sc).
  set (c := toy_owned g0 (pmul g0 i)).
  destruct (payment_noPrivacy toy_rand (fun _ => toy_rand) toy_scalars4 toy_rand toy_rand toy_enc toy_params
    (toy_param false c 0 None) [c] []) as (w & proof & qs & outs & Ew & Ep & _ & Eq & Hq & _); try exact Hr.
  - reflexivity.
  - reflexivity.
  - apply Forall_cons_2; [|apply Forall_nil_2]. exists (sc 5), g0, (sc 7), (pmul g0 i).
    repeat (split; [reflexivity || exact E0 || apply sc_ok_sc|]). exact Ei.
  - exact toy_out_payable.
  - exists (toy_param false c 0 None), w, proof. split; [exact Ew|]. split; [exact Ep|].
    rewrite Eq, length_map. symmetry. exact (Forall2_length _ _ _ Hq).
Defined.
