(* ===== verification/ProofV2.v ===== *)
(** * ProofV2.v: the payment proofs of version 2 and of conversions

    [src/privacy/v2/proof_v2.go] (package v2) and [src/privacy/conversion/conversion.go]:
    a range proof with input and output coins, or, for a conversion, coins of
    version 1 as inputs, coins of version 2 as outputs, and serial-number proofs.
    [SetBytes] writes into its receiver as it reads, so it is in the state monad,
    and the arrays of a proof whose reading stopped hold [nil] pointers.  The
    proofs copy the coins they are given through their bytes, and conceal the
    copies.  The JSON wrappers (encoding/json, encoding/base64) are not modelled. *)

From stdpp Require Import base list gmap strings.
From Stdlib Require Import ZArith Lia.
From S2P Require Import Prelude Cursor Poly Common Hashing Crypto Key Base58 Base58Check Wallet CoinV2 Hybrid CoinV1 Linear Bulletproof Sigma OneOutOfMany ProofV1 Payment.
Open Scope Z_scope.

Definition ProofVersion : Z := 255.

Record ProofV2 := mkProofV2 {
  q_Version : Z;
  q_rangeProof : option RangeProof;
  q_inputCoins : list (option PlainCoin);
  q_outputCoins : list (option CoinV2) }.

Definition ProofV2_new : ProofV2 := mkProofV2 0 None [] [].
Definition ProofV2_Init (p : ProofV2) : ProofV2 := mkProofV2 2 (Some (RangeProof_Init RangeProof_new)) [] [].

Definition set_q_version v (p : ProofV2) := mkProofV2 v (q_rangeProof p) (q_inputCoins p) (q_outputCoins p).
Definition set_q_rangeProof v (p : ProofV2) := mkProofV2 (q_Version p) v (q_inputCoins p) (q_outputCoins p).
Definition set_q_inputCoins v (p : ProofV2) := mkProofV2 (q_Version p) (q_rangeProof p) v (q_outputCoins p).
Definition set_q_outputCoins v (p : ProofV2) := mkProofV2 (q_Version p) (q_rangeProof p) (q_inputCoins p) v.

Record ConversionProof := mkConversionProof {
  cv_Version : Z;
  cv_inputCoins : list (option PlainCoinV1);
  cv_outputCoins : list (option CoinV2);
  cv_serialNumberNoPrivacy : list (option SNNoPrivacyProof) }.

Definition ConversionProof_new : ConversionProof := mkConversionProof 0 [] [] [].

(** The receiver is a value: the proof stays as it is. *)
Definition ConversionProof_Init (p : ConversionProof) : ConversionProof := p.

Definition set_cv_version v (p : ConversionProof) :=
  mkConversionProof v (cv_inputCoins p) (cv_outputCoins p) (cv_serialNumberNoPrivacy p).
Definition set_cv_inputCoins v (p : ConversionProof) :=
  mkConversionProof (cv_Version p) v (cv_outputCoins p) (cv_serialNumberNoPrivacy p).
Definition set_cv_outputCoins v (p : ConversionProof) :=
  mkConversionProof (cv_Version p) (cv_inputCoins p) v (cv_serialNumberNoPrivacy p).
Definition set_cv_serialNumberNoPrivacy v (p : ConversionProof) :=
  mkConversionProof (cv_Version p) (cv_inputCoins p) (cv_outputCoins p) v.

Section proof.
Context `{CO : CurveOps} `{DG : Digests} `{LR : LRU} `{AL : Allocator} `{HD : HDWallet}.

(** ** Bytes *)

(** A length of one byte, or of two. *)
Definition sized_bytes (b : list Z) : list Z :=
  (if (length b <? 256)%nat then [u8 (Z.of_nat (length b))] else IntToBytes (Z.of_nat (length b))) ++ b.

Definition ProofV2_Bytes (p : ProofV2) : res (list Z) :=
  let* rp := deref (q_rangeProof p) in
  let* range := RangeProof_Bytes rp in
  let* ins := items_bytes (fun c => Ok (sized_bytes (PlainCoin_Bytes c))) (q_inputCoins p) in
  let* outs := items_bytes (fun c => Ok (sized_bytes (CoinV2_Bytes c))) (q_outputCoins p) in
  Ok (2 :: Uint32ToBytes (u32 (Z.of_nat (length range))) ++ range ++ ins ++ outs).

(** The length of an input coin always takes one byte. *)
Definition ConversionProof_Bytes (p : ConversionProof) : res (list Z) :=
  let* ins := items_bytes (fun c => let b := PlainCoinV1_Bytes c in Ok (u8 (Z.of_nat (length b)) :: b)) (cv_inputCoins p) in
  let* outs := items_bytes (fun c => Ok (sized_bytes (CoinV2_Bytes c))) (cv_outputCoins p) in
  let* sns := items_bytes (fun q => let* b := SNNoPrivacyProof_Bytes q in
                             Ok (u8 SnNoPrivacyProofSize :: b)) (cv_serialNumberNoPrivacy p) in
  Ok (ProofVersion :: ins ++ outs ++ sns).

(** ** Parsing *)

(** A coin: a length of one byte is tried [first], and if the coin cannot be read,
    one of two bytes. *)
Definition read_coin {T C} (oob : string) (set : C -> T -> T) (first : list Z -> C * res unit)
    (again : C -> list Z -> C * res unit) (bytes : list Z) (offset : nat) : st T nat :=
  let! n := read_length1 oob bytes offset in
  let! data := next_bytes oob bytes (offset + 1) n in
  match first data with
  | (c, Err _) =>
      let! _ := st_put (set c) in
      if (length bytes <? offset + 2)%nat then st_fail oob
      else
        let! lb := st_lift (slice bytes offset (offset + 2)) in
        let n := Z.to_nat (BytesToInt lb) in
        let! data := next_bytes oob bytes (offset + 2) n in
        let! _ := (fun p => let '(c, r) := again c data in (set c p, r)) in
        st_ret (offset + 2 + n)%nat
  | (c, r) =>
      let! _ := (fun p => (set c p, r)) in
      st_ret (offset + 1 + n)%nat
  end.

(** The second attempt at an input coin makes a new one, that at an output coin
    parses into the coin of the first. *)
Definition read_input2 (bytes : list Z) (i offset : nat) : st ProofV2 nat :=
  read_coin oob_input (fun c p => set_q_inputCoins (<[i := Some c]> (q_inputCoins p)) p)
    NewPlainCoinFromByte (fun _ => NewPlainCoinFromByte) bytes offset.

Definition read_output_of {T} (get : T -> list (option CoinV2)) (put : list (option CoinV2) -> T -> T)
    (bytes : list Z) (i offset : nat) : st T nat :=
  let set c p := put (<[i := Some c]> (get p)) p in
  let! _ := st_put (set newCoinV2) in
  read_coin oob_output set (fun b => CoinV2_SetBytes b newCoinV2) (fun c b => CoinV2_SetBytes b c) bytes offset.

(** No range proof is read, and none is written, for the length 0; its bound was
    tested before. *)
Definition read_range2 (bytes : list Z) (offset : nat) : st ProofV2 nat :=
  if (length bytes <=? offset + 4)%nat then st_fail oob_range
  else
    let! lb := st_lift (slice bytes offset (offset + 4)) in
    let n := Z.to_nat (match BytesToUint32 lb with Ok l => l | _ => 0 end) in
    if (length bytes <? offset + 4 + n)%nat then st_fail oob_range
    else if (0 <? n)%nat
    then read_element oob_range set_q_rangeProof (RangeProof_Init RangeProof_new)
           (fun b _ => RangeProof_SetBytes b) bytes (offset + 4) n
    else st_ret (offset + 4)%nat.

Definition ProofV2_SetBytes (v : list Z) : st ProofV2 unit :=
  if (length v =? 0)%nat then st_fail "proof bytes is zero"
  else
    let! v0 := st_lift (index v 0) in
    if negb (v0 =? 2) then st_fail "proof bytes version is incorrect"
    else
      let! _ := st_put (set_q_version 2) in
      let! offset := read_range2 v 1 in
      let! offset := read_array_of oob_input (fun n => set_q_inputCoins (replicate n None)) (read_input2 v) v offset in
      let! _ := read_array_of oob_output (fun n => set_q_outputCoins (replicate n None))
                  (read_output_of q_outputCoins set_q_outputCoins v) v offset in
      st_ret tt.

(** A coin of another version is not assigned: the place holds [nil]. *)
Definition read_cv_input (bytes : list Z) (i offset : nat) : st ConversionProof nat :=
  let! n := read_length1 oob_input bytes offset in
  let! coinBytes := next_bytes oob_input bytes (offset + 1) n in
  let! _ := (fun p => match NewPlainCoinFromByte coinBytes with
                      | (PlainV1 c, Ok _) => (set_cv_inputCoins (<[i := Some c]> (cv_inputCoins p)) p, Ok tt)
                      | (PlainV2 _, Ok _) => (set_cv_inputCoins (<[i := None]> (cv_inputCoins p)) p,
                                              Err "cannot assert type of PlainCoin to PlainCoinV1")
                      | (_, r) => (p, r)
                      end) in
  st_ret (offset + 1 + n)%nat.

Definition read_cv_serialNumber (bytes : list Z) (i offset : nat) : st ConversionProof nat :=
  let! n := read_length1 oob_noPrivacy bytes offset in
  read_element oob_noPrivacy (fun v p => set_cv_serialNumberNoPrivacy (<[i := v]> (cv_serialNumberNoPrivacy p)) p)
    SNNoPrivacyProof_Init (fun b _ => SNNoPrivacyProof_SetBytes b) bytes (offset + 1) n.

Definition ConversionProof_SetBytes (v : list Z) : st ConversionProof unit :=
  if (length v =? 0)%nat then st_fail "proof bytes = 0"
  else
    let! v0 := st_lift (index v 0) in
    if negb (v0 =? ProofVersion) then st_fail "proof bytes version is not correct"
    else
      let! _ := st_put (set_cv_version ProofVersion) in
      let! offset := read_array_of oob_input (fun n => set_cv_inputCoins (replicate n None)) (read_cv_input v) v 1 in
      let! offset := read_array_of oob_output (fun n => set_cv_outputCoins (replicate n None))
                       (read_output_of cv_outputCoins set_cv_outputCoins v) v offset in
      let! _ := read_array_of oob_noPrivacy (fun n => set_cv_serialNumberNoPrivacy (replicate n None))
                  (read_cv_serialNumber v) v offset in
      st_ret tt.

(** ** Methods *)

Definition ProofV2_IsPrivacy (p : ProofV2) : res bool :=
  let* o := index (q_outputCoins p) 0 in
  let* c := deref o in
  CoinV2_IsEncrypted c.

Definition tag_count (c : CoinV2) : nat := match c2_assetTag c with Some _ => 1%nat | None => 0%nat end.

(** How many of the coins have an asset tag. *)
Fixpoint input_tags (l : list (option PlainCoin)) : res nat :=
  match l with
  | [] => Ok 0%nat
  | Some (PlainV2 c) :: l => let* n := input_tags l in Ok (tag_count c + n)%nat
  | _ :: _ => Err "casting error : CoinV2"
  end.

Fixpoint output_tags (l : list (option CoinV2)) : res nat :=
  match l with
  | [] => Ok 0%nat
  | o :: l => let* c := deref o in let* n := output_tags l in Ok (tag_count c + n)%nat
  end.

Definition ProofV2_IsConfidentialAsset (p : ProofV2) : res bool :=
  let* n := input_tags (q_inputCoins p) in
  let* m := output_tags (q_outputCoins p) in
  if (n + m =? length (q_inputCoins p) + length (q_outputCoins p))%nat then Ok true
  else if (n + m =? 0)%nat then Ok false
  else Err "error : TX contains both confidential asset & non-CA coins".

(** [SetInputCoins], [SetOutputCoinsV2]: the coins are copied through their bytes. *)
Fixpoint set_inputs (i : nat) (v : list PlainCoin) : st ProofV2 unit :=
  match v with
  | [] => st_ret tt
  | c :: v =>
      let! _ := (fun p => let '(c, r) := NewPlainCoinFromByte (PlainCoin_Bytes c) in
                          (set_q_inputCoins (<[i := Some c]> (q_inputCoins p)) p, r)) in
      set_inputs (S i) v
  end.

Definition SetInputCoins (v : list PlainCoin) : st ProofV2 unit :=
  let! _ := st_put (set_q_inputCoins (replicate (length v) None)) in
  set_inputs 0 v.

Fixpoint set_outputs (i : nat) (v : list CoinV2) : st ProofV2 unit :=
  match v with
  | [] => st_ret tt
  | c :: v =>
      let! _ := (fun p => let '(c, r) := CoinV2_SetBytes (CoinV2_Bytes c) newCoinV2 in
                          (set_q_outputCoins (<[i := Some c]> (q_outputCoins p)) p, r)) in
      set_outputs (S i) v
  end.

Definition SetOutputCoinsV2 (v : list CoinV2) : st ProofV2 unit :=
  let! _ := st_put (set_q_outputCoins (replicate (length v) None)) in
  set_outputs 0 v.

(** ** Prove *)

Definition GetFirstAssetTag (coins : list CoinV2) : res (list Z) :=
  match coins with
  | [] => Err "cannot get asset tag from empty input"
  | c :: _ => match c2_assetTag c with
              | None => Err "the coin does not have an asset tag"
              | Some t => Ok t
              end
  end.

Definition asset_blinder (sharedSecret : option (list Z)) : res (list Z) :=
  match sharedSecret with
  | None => Scalar_FromUint64 0
  | Some _ => ComputeAssetTagBlinder sharedSecret
  end.

Section prove.
Context (rnd : nat -> list Z) (aggParam : bulletproofParams).

(** The range proof of a confidential asset.  The commitments are set before the
    error of [ProveUsingBase] is looked at: then the proof is a [nil] pointer.
    The state is the global commitment scheme of [ProveUsingBase]. *)
Definition prove_range_CA (wit : Witness) (outputCoins : list CoinV2) (sharedSecrets : list (option (list Z)))
    : st (list (list Z)) RangeProof :=
  let! blinders := st_lift (res_map asset_blinder sharedSecrets) in
  let! wit := st_lift (TransformWitnessToCAWitness wit blinders) in
  let! theBase := st_lift (GetFirstAssetTag outputCoins) in
  fun G =>
    let '(G, r) := Witness_ProveUsingBase rnd aggParam theBase wit G in
    match r with
    | Ok _ | Err _ =>
        (G, let* coms := res_map CoinV2_ComputeCommitmentCA outputCoins in
            match r with Ok rp => Ok (set_rp_cms (map Some coms) rp) | _ => Panic end)
    | _ => (G, r)
    end.

(** [ConcealOutputCoin] with a view key, a [nil] one being dereferenced if it is used. *)
Definition conceal_for (view : option (list Z)) (c : CoinV2) : res CoinV2 :=
  match view, CoinV2_ConcealOutputCoin view c with
  | None, (_, Err _) => Panic
  | _, (c, r) => let* _ := r in Ok c
  end.

(** A coin to the burning address stays as it is. *)
Definition hide_output2 (c : CoinV2) (info : option (option PaymentInfo)) : res CoinV2 :=
  let* pk := deref (c2_publicKey c) in
  let* burning := IsPublicKeyBurningAddress pk in
  if burning then Ok c
  else
    let* info := deref info in
    let* info := deref info in
    let* c := conceal_for (PaymentAddress_GetPublicView (pi_PaymentAddress info)) c in
    Ok (c2_SetKeyImage None c).

Fixpoint hide_outputs2 (outs : list (option CoinV2)) (infos : list (option PaymentInfo)) : res (list (option CoinV2)) :=
  match outs with
  | [] => Ok []
  | o :: outs =>
      let* c := deref o in
      let* c := hide_output2 c (head infos) in
      let* outs := hide_outputs2 outs (tail infos) in
      Ok (Some c :: outs)
  end.

Definition conceal_input (o : option PlainCoin) : res (option PlainCoin) :=
  match o with
  | Some (PlainV2 c) => let* c := CoinV2_ConcealInputCoin c in Ok (Some (PlainV2 c))
  | _ => Err "input c of ProofV2 must be CoinV2"
  end.

(** Every output coin has a randomness: a [nil] one would be dereferenced by the
    range proof.  On an error the proof, whose coins are copies, is dropped. *)
Definition ProveV2 (inputCoins : list PlainCoin) (outputCoins : list CoinV2) (sharedSecrets : list (option (list Z)))
    (hasConfidentialAsset : bool) (paymentInfo : list (option PaymentInfo)) : st (list (list Z)) ProofV2 :=
  let proof := set_q_version 2 ProofV2_new in
  let '(proof, r) := SetInputCoins inputCoins proof in
  let! _ := st_lift r in
  let '(proof, r) := SetOutputCoinsV2 outputCoins proof in
  let! _ := st_lift r in
  let! outputValues := st_lift (res_map CoinV2_GetValue outputCoins) in
  let! outputRands := st_lift (res_map (fun c => deref (c2_mask c)) outputCoins) in
  let! wit := st_lift (Witness_Set outputValues outputRands) in
  let! range := if hasConfidentialAsset then prove_range_CA wit outputCoins sharedSecrets
                else st_lift (Witness_Prove rnd aggParam wit) in
  let proof := set_q_rangeProof (Some range) proof in
  let! outs := st_lift (hide_outputs2 (q_outputCoins proof) paymentInfo) in
  let! ins := st_lift (res_map conceal_input (q_inputCoins proof)) in
  st_ret (set_q_inputCoins ins (set_q_outputCoins outs proof)).
End prove.

(** [ProveConversion]: no scalar is drawn but those of the serial-number proofs. *)
Definition as_V1 (c : PlainCoin) : res (option PlainCoinV1) :=
  match c with PlainV1 c => Ok (Some c) | PlainV2 _ => Err "input coins should all be PlainCoinV1" end.

(** The loop over the witnesses is the one of [PaymentWitness.Prove] without privacy;
    the output coins are those of the caller, which lose their key images. *)
Definition ProveConversion (nn_rnd : nat -> list Z) (inputCoins : list PlainCoin) (outputCoins : list CoinV2)
    (snWitness : list SNNoPrivacyWitness) : res ConversionProof :=
  let* ins := res_map as_V1 inputCoins in
  let* sns := prove_noPrivacy nn_rnd 0 inputCoins snWitness in
  Ok (mkConversionProof ProofVersion ins (map (fun c => Some (c2_SetKeyImage None c)) outputCoins) (map Some sns)).
End proof.

(** ** Lemmas: reading coins *)

Section coins.
Context `{CL : CurveLaws} `{DL : DigestLaws}.
Context (mem : list Z).

Lemma sized_length b : Z.of_nat (length b) < 65536 ->
  length (sized_bytes b) = ((if (length b <? 256)%nat then 1 else 2) + length b)%nat.
Proof using Type.
  intros Hl. unfold sized_bytes. rewrite length_app. destruct (Nat.ltb_spec (length b) 256); [done|].
  rewrite IntToBytes_small by lia. by rewrite length_be_bytes.
Qed.

(** The two-byte lengths below 768 begin with 1 or 2. *)
Lemma two_bytes n : (256 <= n < 768)%nat ->
  let k := if (n <? 512)%nat then 1%nat else 2%nat in
  IntToBytes (Z.of_nat n) = [Z.of_nat k; Z.of_nat (n - 256 * k)] /\
  Z.to_nat (BytesToInt [Z.of_nat k; Z.of_nat (n - 256 * k)]) = n /\ (n - 256 * k < 256)%nat.
Proof using Type.
  intros Hn k.
  assert (Z.of_nat n / 256 = Z.of_nat k /\ Z.of_nat n mod 256 = Z.of_nat (n - 256 * k) /\ (k <= 2)%nat) as (Ed & Em & Hk).
  { assert ((256 * k <= n < 256 * k + 256 /\ k <= 2)%nat) as [Hk Hk2] by (unfold k; destruct (Nat.ltb_spec n 512); lia).
    generalize dependent k. intros k Hk Hk2.
    split; [symmetry; apply (Z.div_unique _ _ _ (Z.of_nat n - 256 * Z.of_nat k)); lia|].
    split; [symmetry; apply (Z.mod_unique _ _ (Z.of_nat k)); lia|exact Hk2]. }
  pose proof (Z.mod_pos_bound (Z.of_nat n) 256 ltac:(lia)) as Hm. rewrite Em in Hm.
  assert (IntToBytes (Z.of_nat n) = [Z.of_nat k; Z.of_nat (n - 256 * k)]) as E.
  { rewrite IntToBytes_small by lia. cbn [be_bytes app]. rewrite Ed, Em. rewrite Z.mod_small by lia. reflexivity. }
  split; [exact E|]. split; [|lia]. rewrite <- E, IntToBytes_small by lia. unfold BytesToInt.
  rewrite length_be_bytes. cbn [Nat.eqb negb]. unfold bigint_set_bytes. rewrite of_digits_be_bytes.
  change (256 ^ Z.of_nat 2) with 65536. rewrite Z.mod_small by lia. unfold i64. rewrite Z.mod_small by lia. lia.
Qed.

(** What is read when the length [n] of two bytes, of which [k] is the first, is
    taken for one of one byte. *)
Definition misread (b : list Z) : list Z :=
  if (length b <? 512)%nat then [Z.of_nat (length b - 256)] else [Z.of_nat (length b - 512); hd 0 b].

Lemma read_coin_run {T C} oob (set : C -> T -> T) first again b c off post s :
  (forall v w s, set v (set w s) = set v s) -> (length b < 768)%nat ->
  ((length b < 256)%nat -> first b = (c, Ok tt)) ->
  ((256 <= length b)%nat -> exists c0 m, first (misread b) = (c0, Err m) /\ again c0 b = (c, Ok tt)) ->
  rest mem off (sized_bytes b ++ post) ->
  read_coin oob set first again mem off s = (set c s, Ok (off + length (sized_bytes b))%nat).
Proof using Type.
  intros Hset Hl Hone Htwo R. rewrite sized_length by lia. unfold read_coin, sized_bytes in *.
  destruct (Nat.ltb_spec (length b) 256) as [Ha|Ha].
  - rewrite u8_length in R by lia. cbn [app] in R.
    destruct (read_length1_run mem oob off _ _ s R) as [E1 R1].
    rewrite (st_bind_run _ _ _ _ _ E1), (st_bind_run _ _ _ _ _ (next_bytes_run mem _ _ _ post _ R1)), (Hone Ha).
    unfold st_bind, st_ret. do 2 f_equal. lia.
  - destruct (two_bytes (length b) ltac:(lia)) as (E & Ebt & Hlt). cbv zeta in E, Ebt, Hlt. rewrite E in R.
    set (k := if (length b <? 512)%nat then 1%nat else 2%nat) in *. destruct (Htwo Ha) as (c0 & m & E0 & E2).
    cbn [app] in R. pose proof R as R0. destruct (read_length1_run mem oob off k _ s R) as [E1 R1].
    rewrite (st_bind_run _ _ _ _ _ E1).
    assert (exists post', rest mem (off + 1) (misread b ++ post') /\ length (misread b) = k) as (post' & R2 & Lm).
    { unfold misread, k in *. destruct (Nat.ltb_spec (length b) 512); [by exists (b ++ post)|].
      destruct b as [|b0 b]; [cbn [length] in *; lia|]. by exists (b ++ post). }
    pose proof (next_bytes_run mem oob _ _ _ s R2) as En. rewrite Lm in En. rewrite (st_bind_run _ _ _ _ _ En), E0, st_bind_put.
    change (Z.of_nat k :: ?x :: ?l) with ([Z.of_nat k; x] ++ l) in R0.
    rewrite (rest_room _ _ 2 _ _ R0) by (cbn; lia). rewrite (st_bind_lift _ _ _ _ (slice_rest _ _ 2 _ _ R0 eq_refl)), Ebt.
    apply (rest_move _ _ 2) in R0; [|done].
    rewrite (st_bind_run _ _ _ _ _ (next_bytes_run mem _ _ _ post _ R0)). unfold st_bind. rewrite E2. unfold st_ret.
    rewrite Hset. do 2 f_equal. lia.
Qed.

(** Coins of version 2. *)
Definition stored2 (c : CoinV2) : Prop :=
  coinV2_ok c /\ (length (c2_info c) <= 255)%nat /\ c2_version c = 2 /\ c2_rawAssetTag c = None.

Lemma opt_field_le o : opt_scalar o -> (length (opt_field o) <= 33)%nat.
Proof using Type. intros Ho. destruct o as [k|]; [|cbn; lia]. destruct Ho as [Hk _]. unfold Ed25519KeySize in Hk.
  cbn [opt_field length]. lia.
Qed.

Lemma CoinV2_Bytes_length c : coinV2_ok c -> (length (CoinV2_Bytes c) < 768)%nat.
Proof using Type.
  intros (Hi & Hpk & Hcom & Hki & Hsc & Hsr & (t & Et & Ht & _) & Hm & Ha & Htag).
  rewrite (CoinV2_bytes_split c Hi t Et), !length_app. cbn [length]. rewrite length_take, Ht.
  unfold MaxSizeInfoCoin, TxRandomGroupSize. apply opt_point_scalar in Hpk, Hcom, Hki, Htag.
  repeat match goal with H : opt_scalar ?o |- _ => apply opt_field_le in H end. lia.
Qed.

Lemma stored_coin_id c c0 : stored2 c -> c2_rawAssetTag c0 = None -> stored_coin c c0 = c.
Proof using Type.
  intros (_ & Hi & Hv & Hr) H0'. unfold stored_coin, MaxSizeInfoCoin. rewrite take_ge by exact Hi. rewrite H0', <- Hr, <- Hv.
  by destruct c.
Qed.

(** Neither of the misread bytes is a coin. *)
Lemma SetBytes_misread c : stored2 c -> (256 <= length (CoinV2_Bytes c))%nat ->
  exists c0 m, CoinV2_SetBytes (misread (CoinV2_Bytes c)) newCoinV2 = (c0, Err m) /\ c2_rawAssetTag c0 = None.
Proof using Type.
  intros Hc Hl. unfold misread.
  assert (exists r, CoinV2_Bytes c = 2 :: r) as (r & Er) by (unfold CoinV2_Bytes; eauto).
  pose proof Er as Er2. apply (f_equal (hd 0)) in Er2. cbn [hd] in Er2. rewrite Er2.
  destruct (_ <? 512)%nat; (destruct (Z.eq_dec (Z.of_nat (length (CoinV2_Bytes c) - 256)) 2) as [E1|E1];
    destruct (Z.eq_dec (Z.of_nat (length (CoinV2_Bytes c) - 512)) 2) as [E2|E2]; try rewrite E1; try rewrite E2);
    unfold CoinV2_SetBytes; cbn [length Nat.eqb]; unfold st_bind at 1, st_lift at 1; cbn [index lookup list_lookup];
    rewrite ?(proj2 (Z.eqb_neq _ _) E1), ?(proj2 (Z.eqb_neq _ _) E2); cbn [Z.eqb Pos.eqb negb];
    eexists _, _; (split; [reflexivity|reflexivity]).
Qed.

Definition output2_enc (c : CoinV2) : list Z := sized_bytes (CoinV2_Bytes c).

Lemma reads_output2 {T} (get : T -> list (option CoinV2)) put c : lens get put -> stored2 c ->
  reads get put output2_enc mem (read_output_of get put mem) c.
Proof using CL.
  intros Hlens Hc i off post s R. unfold read_output_of. cbv zeta. rewrite st_bind_put. pose proof Hc as (Hok & _).
  rewrite (read_coin_run oob_output _ _ _ (CoinV2_Bytes c) c off post); [by rewrite (set_place get put)| | | | |exact R].
  - intros v w s'. by apply set_place.
  - by apply CoinV2_Bytes_length.
  - intros _. by rewrite CoinV2_SetBytes_Bytes, stored_coin_id.
  - intros Hl. destruct (SetBytes_misread c Hc Hl) as (c0 & m & E & Er). exists c0, m. split; [exact E|].
    by rewrite CoinV2_SetBytes_Bytes, stored_coin_id.
Qed.

(** Coins of either version as inputs. *)
Definition stored_plain_coin `{BlockCipher} (c : PlainCoin) : Prop :=
  match c with
  | PlainV1 c => plain1_ok c /\ (length (p1_info c) <= 255)%nat
  | PlainV2 c => stored2 c
  end.

Lemma NewPlainCoin_misread b : (256 <= length b)%nat -> ((512 <= length b)%nat -> hd 0 b = 2) -> (length b < 768)%nat ->
  exists c m, NewPlainCoinFromByte (misread b) = (c, Err m).
Proof using Type.
  intros Hl Hd Hs. unfold misread. destruct (Nat.ltb_spec (length b) 512) as [Ha|Ha].
  - unfold NewPlainCoinFromByte. destruct (Z.eqb_spec (Z.of_nat (length b - 256)) CoinVersion2) as [->|_]; [by eexists _, _|].
    destruct (PlainCoinV1_SetBytes_one (Z.of_nat (length b - 256))) as [m Em]; [unfold is_byte; lia|]. rewrite Em. by eexists _, _.
  - rewrite (Hd Ha). unfold NewPlainCoinFromByte.
    destruct (Z.eqb_spec (Z.of_nat (length b - 512)) CoinVersion2) as [->|_]; [by eexists _, _|].
    unfold PlainCoinV1_SetBytes. cbn [length Nat.eqb]. unfold st_bind at 1, st_assign at 1, parsePointForSetBytes.
    cbn [length Nat.leb index lookup list_lookup res_bind].
    destruct (Z.eqb_spec (Z.of_nat (length b - 512)) 0) as [->|Hx]; cbn [negb]; [by eexists _, _|].
    rewrite Nat2Z.id. destruct (Nat.ltb_spec 2 (0 + 1 + (length b - 512))) as [|Hb]; [by eexists _, _|].
    by replace (length b - 512)%nat with 1%nat by lia; eexists _, _.
Qed.

Lemma NewPlainCoin_stored `{BlockCipher} c : stored_plain_coin c -> NewPlainCoinFromByte (PlainCoin_Bytes c) = (c, Ok tt).
Proof using CL.
  destruct c as [c|c]; [intros [Hc Hi]; by apply NewPlainCoinFromByte_V1|intros Hc]. pose proof Hc as (Hok & _).
  unfold NewPlainCoinFromByte, PlainCoin_Bytes. rewrite (CoinV2_SetBytes_Bytes c newCoinV2 Hok), (stored_coin_id c newCoinV2 Hc eq_refl).
  unfold CoinV2_Bytes. reflexivity.
Qed.

Definition input2_enc (c : PlainCoin) : list Z := sized_bytes (PlainCoin_Bytes c).

Lemma reads_input2 `{BlockCipher} c : stored_plain_coin c ->
  reads q_inputCoins set_q_inputCoins input2_enc mem (read_input2 mem) c.
Proof using CL.
  intros Hc i off post s R. assert (lens q_inputCoins set_q_inputCoins) as Hlens by solve_lens.
  assert ((length (PlainCoin_Bytes c) < 768)%nat /\ ((512 <= length (PlainCoin_Bytes c))%nat -> hd 0 (PlainCoin_Bytes c) = 2)) as [Hl Hd].
  { destruct c as [c|c]; unfold PlainCoin_Bytes.
    - pose proof (PlainCoinV1_Bytes_length c (proj1 Hc)). split; lia.
    - split; [apply CoinV2_Bytes_length, Hc|]. intros _. unfold CoinV2_Bytes. reflexivity. }
  unfold read_input2. rewrite (read_coin_run oob_input _ _ _ (PlainCoin_Bytes c) c off post); [done| |exact Hl| | |exact R].
  - intros v w s'. by apply (set_place q_inputCoins set_q_inputCoins).
  - intros _. by apply NewPlainCoin_stored.
  - intros Hl2. destruct (NewPlainCoin_misread (PlainCoin_Bytes c) Hl2 Hd Hl) as (c0 & m & E). exists c0, m.
    split; [exact E|]. by apply NewPlainCoin_stored.
Qed.

(** The range proof, with its length of four bytes. *)
Definition range2_bytes (o : option proof_data) : list Z :=
  match o with Some d => [0; 2] ++ range_body d | None => [] end.
Definition range2_enc (o : option proof_data) : list Z :=
  Uint32ToBytes (Z.of_nat (length (range2_bytes o))) ++ range2_bytes o.

Lemma range2_small d : range_ok d -> 0 < Z.of_nat (length (range2_bytes (Some d))) < 65536 + 2.
Proof using CL.
  intros Hd. pose proof (range_body_small d Hd). unfold range2_bytes. rewrite length_app. cbn [length]. lia.
Qed.

Lemma uint32_roundtrip n : 0 <= n < 2 ^ 32 -> length (Uint32ToBytes n) = 4%nat /\ BytesToUint32 (Uint32ToBytes n) = Ok n.
Proof using Type.
  intros Hn. assert (length (Uint32ToBytes n) = 4%nat) as Hl by apply length_be_bytes. split; [exact Hl|].
  unfold BytesToUint32. rewrite Hl. cbn [negb Nat.eqb Uint32Size]. unfold Uint32ToBytes. rewrite of_digits_be_bytes.
  f_equal. by apply Z.mod_small.
Qed.

Lemma range2_run {B} o off post (K : nat -> st ProofV2 B) s : opt_ok range_ok o -> post <> [] ->
  rest mem off (range2_enc o ++ post) ->
  st_bind (read_range2 mem off) K s =
  K (off + length (range2_enc o))%nat
    (set_q_rangeProof (match o with Some d => Some (proof_of 2 d) | None => q_rangeProof s end) s).
Proof using CL.
  intros Ho Hpost R. apply st_bind_run. unfold range2_enc in *. rewrite <- app_assoc in R.
  assert (0 <= Z.of_nat (length (range2_bytes o)) < 2 ^ 32) as Hn.
  { destruct o as [d|]; [pose proof (range2_small d (Ho d eq_refl)); lia|cbn; lia]. }
  destruct (uint32_roundtrip _ Hn) as [L4 E4]. pose proof (rest_length _ _ _ R) as Hlen. rewrite !length_app, L4 in *.
  assert (0 < length post)%nat as Hp by (destruct post; [done|cbn; lia]).
  unfold read_range2. rewrite (proj2 (Nat.leb_gt _ _)) by lia.
  rewrite (st_bind_lift _ _ _ _ (slice_rest _ _ 4 _ _ R L4)), E4, Nat2Z.id.
  apply (rest_move _ _ 4) in R; [|exact L4]. rewrite (rest_room _ _ _ _ _ R) by lia. destruct o as [d|].
  - pose proof (range2_small d (Ho d eq_refl)) as Hs. destruct (Ho d eq_refl) as (Hd & Hc & Hl). rewrite (proj2 (Nat.ltb_lt _ _)) by lia.
    rewrite (read_element_run mem oob_range set_q_rangeProof _ _ (proof_of 2 d) (range2_bytes (Some d)) _ post);
      [do 2 f_equal; lia|by intros v w []| |exact R].
    intros _. destruct (range_roundtrip d 2 (RangeProof_Init RangeProof_new) Hd Hc Hl ltac:(lia)) as (b & Eb & Rb).
    rewrite range_bytes in Eb by (assumption || lia). injection Eb as <-. exact Rb.
  - unfold st_ret. cbn [range2_bytes length Nat.ltb Nat.leb]. destruct s. do 2 f_equal; lia.
Qed.
End coins.

(** ** Properties *)

(** The contents of a payment proof of version 2, and of a conversion. *)
Record payment2 := mkPayment2 { p2_range : option proof_data; p2_in : list PlainCoin; p2_out : list CoinV2 }.

Definition proof2_of (v : Z) (rp : option RangeProof) (d : payment2) : ProofV2 :=
  mkProofV2 v (match p2_range d with Some r => Some (proof_of 2 r) | None => rp end)
    (map Some (p2_in d)) (map Some (p2_out d)).

Record conversion := mkConversion { cn_in : list PlainCoinV1; cn_out : list CoinV2; cn_sn : list SNNoPrivacyProof }.

Definition conversion_of (v : Z) (d : conversion) : ConversionProof :=
  mkConversionProof v (map Some (cn_in d)) (map Some (cn_out d)) (map Some (cn_sn d)).

Section properties.
Context `{CL : CurveLaws} `{DL : DigestLaws} `{BL : BlockCipherLaws}.

Definition payment2_ok (d : payment2) : Prop :=
  (length (p2_in d) <= 255 /\ length (p2_out d) <= 255)%nat /\ opt_ok range_ok (p2_range d) /\
  Forall stored_plain_coin (p2_in d) /\ Forall stored2 (p2_out d).

Definition conversion_ok (d : conversion) : Prop :=
  (length (cn_in d) <= 255 /\ length (cn_out d) <= 255 /\ length (cn_sn d) <= 255)%nat /\
  Forall input_ok (cn_in d) /\ Forall stored2 (cn_out d) /\ Forall snnp_ok (cn_sn d).

Definition payment2_enc (d : payment2) : list Z :=
  2 :: range2_enc (p2_range d) ++ array_enc input2_enc (p2_in d) ++ array_enc output2_enc (p2_out d).

Definition v1_enc (c : PlainCoinV1) : list Z := Z.of_nat (length (PlainCoinV1_Bytes c)) :: PlainCoinV1_Bytes c.

Definition conversion_enc (d : conversion) : list Z :=
  ProofVersion :: array_enc v1_enc (cn_in d) ++ array_enc output2_enc (cn_out d) ++ array_enc nn_enc (cn_sn d).

Lemma payment2_bytes v rp d : payment2_ok d -> RangeProof_IsNil rp = true ->
  ProofV2_Bytes (proof2_of v (Some rp) d) = Ok (payment2_enc d).
Proof using CL.
  intros ((L1 & L2) & Hr & _ & _) Hnil. unfold ProofV2_Bytes, proof2_of. cbn [q_rangeProof q_inputCoins q_outputCoins].
  rewrite (items_bytes_some input2_enc), (items_bytes_some output2_enc) by (first [assumption | by apply Forall_true]).
  destruct (p2_range d) as [r|] eqn:Er.
  - pose proof (range2_small r (Hr r eq_refl)) as Hs. destruct (Hr r eq_refl) as (Hd & Hc & Hl). cbn [deref res_bind].
    rewrite range_bytes by (assumption || lia). cbn [res_bind]. unfold payment2_enc, range2_enc. rewrite Er.
    change ((if 2 <=? 2 then [0; 2] else []) ++ range_body r) with (range2_bytes (Some r)). unfold u32. rewrite Z.mod_small by lia. by rewrite <- app_assoc.
  - cbn [deref res_bind]. unfold RangeProof_Bytes. rewrite Hnil. cbn [res_bind]. unfold payment2_enc, range2_enc. by rewrite Er.
Qed.

Lemma conversion_bytes v d : conversion_ok d -> ConversionProof_Bytes (conversion_of v d) = Ok (conversion_enc d).
Proof using CL.
  intros ((L1 & L2 & L3) & Hin & _ & Hsn). unfold ConversionProof_Bytes, conversion_of.
  cbn [cv_inputCoins cv_outputCoins cv_serialNumberNoPrivacy].
  rewrite (items_bytes_some v1_enc); [|exact L1|].
  2: { eapply Forall_impl; [exact Hin|]. intros c (_ & Hc & _). cbv zeta. unfold v1_enc. by rewrite u8_length. }
  rewrite (items_bytes_some output2_enc) by (first [assumption | by apply Forall_true]).
  by rewrite (items_bytes_some nn_enc) by (first [assumption | exact (Forall_impl _ _ _ Hsn nn_bytes)]).
Qed.

Lemma reads_cv_input mem c : input_ok c -> reads cv_inputCoins set_cv_inputCoins v1_enc mem (read_cv_input mem) c.
Proof using Type.
  intros (Hc & Hl & Hi) i off post s R. unfold v1_enc in *. cbn [app] in R.
  destruct (read_length1_run mem oob_input off _ _ s R) as [E1 R1]. unfold read_cv_input.
  rewrite (st_bind_run _ _ _ _ _ E1), (st_bind_run _ _ _ _ _ (next_bytes_run mem _ _ _ post _ R1)).
  unfold st_bind. rewrite (NewPlainCoinFromByte_V1 c Hc Hi). unfold st_ret. do 2 f_equal. cbn [length]. lia.
Qed.

Lemma reads_cv_serialNumber mem q : snnp_ok q ->
  reads cv_serialNumberNoPrivacy set_cv_serialNumberNoPrivacy nn_enc mem (read_cv_serialNumber mem) q.
Proof using CL. intros Hq. apply (reads_snn mem oob_noPrivacy cv_serialNumberNoPrivacy); [solve_lens|exact Hq]. Qed.

Lemma ProofV2_read v rp d p0 : payment2_ok d -> RangeProof_IsNil rp = true ->
  exists b, ProofV2_Bytes (proof2_of v (Some rp) d) = Ok b /\
    ProofV2_SetBytes b p0 = (proof2_of 2 (q_rangeProof p0) d, Ok tt).
Proof using CL.
  intros Hd Hnil. exists (payment2_enc d). split; [by apply payment2_bytes|]. destruct Hd as (_ & Hr & Hin & Hout).
  unfold ProofV2_SetBytes. change (length (payment2_enc d) =? 0)%nat with false. cbv iota.
  pose proof (rest_start (payment2_enc d)) as R. set (mem := payment2_enc d) in R |- *. unfold mem in R at 2. unfold payment2_enc in R.
  rewrite (st_bind_lift _ _ _ _ (index_rest _ _ _ _ R)). cbn [Z.eqb Pos.eqb negb]. rewrite st_bind_put.
  apply rest_move_one in R. cbn [Nat.add] in R.
  erewrite range2_run; [|exact Hr| |exact R]; [|by destruct (p2_in d)]. moved R.
  next_array q_inputCoins set_q_inputCoins R Hin (reads_input2 mem).
  rewrite <- (app_nil_r (array_enc output2_enc _)) in R.
  next_array q_outputCoins set_q_outputCoins R Hout (fun c => reads_output2 mem q_outputCoins set_q_outputCoins c ltac:(solve_lens)).
  reflexivity.
Qed.

(** C20: a payment proof of version 2 read back from its bytes, whatever the receiver
    held: the range proof and all coins, of either version, are those sent,
    whether the length of a coin takes one byte or two (the first guess, which
    takes the first of two bytes for the length, never finds a coin).  A range
    proof that is missing a part is not sent, and the receiver keeps its own. *)
Theorem ProofV2_roundtrip v rp d p0 : payment2_ok d -> RangeProof_IsNil rp = true ->
  exists b, ProofV2_Bytes (proof2_of v (Some rp) d) = Ok b /\
    ProofV2_SetBytes b p0 = (proof2_of 2 (q_rangeProof p0) d, Ok tt).
Proof using CL. apply ProofV2_read. Qed.

Lemma ConversionProof_read v d p0 : conversion_ok d ->
  exists b, ConversionProof_Bytes (conversion_of v d) = Ok b /\
    ConversionProof_SetBytes b p0 = (conversion_of ProofVersion d, Ok tt).
Proof using CL.
  intros Hd. exists (conversion_enc d). split; [by apply conversion_bytes|]. destruct Hd as (_ & Hin & Hout & Hsn).
  unfold ConversionProof_SetBytes. change (length (conversion_enc d) =? 0)%nat with false. cbv iota.
  pose proof (rest_start (conversion_enc d)) as R. set (mem := conversion_enc d) in R |- *. unfold mem in R at 2. unfold conversion_enc in R.
  rewrite (st_bind_lift _ _ _ _ (index_rest _ _ _ _ R)). cbn [Z.eqb Pos.eqb negb ProofVersion]. rewrite st_bind_put.
  apply rest_move_one in R. cbn [Nat.add] in R.
  next_array cv_inputCoins set_cv_inputCoins R Hin (reads_cv_input mem).
  next_array cv_outputCoins set_cv_outputCoins R Hout (fun c => reads_output2 mem cv_outputCoins set_cv_outputCoins c ltac:(solve_lens)).
  rewrite <- (app_nil_r (array_enc nn_enc _)) in R.
  next_array cv_serialNumberNoPrivacy set_cv_serialNumberNoPrivacy R Hsn (reads_cv_serialNumber mem).
  reflexivity.
Qed.

(** The same for the proof of a conversion: coins of version 1 whose bytes have a
    length of one byte, coins of version 2, and the serial-number proofs. *)
Theorem ConversionProof_roundtrip v d p0 : conversion_ok d ->
  exists b, ConversionProof_Bytes (conversion_of v d) = Ok b /\
    ConversionProof_SetBytes b p0 = (conversion_of ProofVersion d, Ok tt).
Proof using CL. apply ConversionProof_read. Qed.
End properties.

(** *** Safety *)

Section safety.
Context `{CO : CurveOps} `{DG : Digests}.

Lemma read_coin_safe {T C} oob (set : C -> T -> T) first again bytes o :
  (forall b, res_safe (snd (first b))) -> (forall c b, res_safe (snd (again c b))) ->
  st_safe (read_coin oob set first again bytes o).
Proof using Type.
  intros Hf Ha. unfold read_coin. apply st_bind_safe; [auto using read_length1_safe|intros n].
  apply st_bind_safe; [auto using next_bytes_safe|intros data].
  specialize (Hf data). destruct (first data) as [c [[]|m| |]]; try done.
  apply st_bind_safe; [done|intros _]. destruct (_ <? _)%nat eqn:E; [done|].
  apply st_bind_safe; [by apply st_lift_safe, slice_below|intros lb]. cbv zeta.
  apply st_bind_safe; [auto using next_bytes_safe|intros data'].
  apply st_bind_safe; [|done]. intros p. specialize (Ha c data'). by destruct (again c data').
Qed.

Lemma NewPlainCoinFromByte_safe b : res_safe (snd (NewPlainCoinFromByte b)).
Proof using Type.
  unfold NewPlainCoinFromByte. destruct (_ =? _).
  - pose proof (CoinV2_SetBytes_safe b newCoinV2) as Hs. by destruct (CoinV2_SetBytes b newCoinV2).
  - pose proof (PlainCoinV1_SetBytes_safe b newPlainCoinV1) as Hs. by destruct (PlainCoinV1_SetBytes b newPlainCoinV1).
Qed.

Lemma read_output_safe {T} (get : T -> list (option CoinV2)) put bytes i o : st_safe (read_output_of get put bytes i o).
Proof using Type.
  apply st_bind_safe; [done|intros _]. apply read_coin_safe; [intros b; apply CoinV2_SetBytes_safe|intros c b; apply CoinV2_SetBytes_safe].
Qed.

Lemma read_input2_safe bytes i o : st_safe (read_input2 bytes i o).
Proof using Type. apply read_coin_safe; [apply NewPlainCoinFromByte_safe|intros _; apply NewPlainCoinFromByte_safe]. Qed.

Lemma read_range2_safe bytes o : st_safe (read_range2 bytes o).
Proof using Type.
  unfold read_range2. destruct (Nat.leb_spec (length bytes) (o + 4)); [done|]. apply st_bind_safe.
  { apply st_lift_safe. by destruct (slice_safe bytes o (o + 4)) as (x & -> & _); [lia|]. }
  intros lb. cbv zeta. destruct (_ <? _)%nat; [done|]. destruct (_ <? _)%nat; [|done].
  apply read_element_safe. intros b _ _. apply RangeProof_SetBytes_safe.
Qed.

Lemma read_cv_input_safe bytes i o : st_safe (read_cv_input bytes i o).
Proof using Type.
  apply st_bind_safe; [auto using read_length1_safe|intros n]. apply st_bind_safe; [auto using next_bytes_safe|intros b].
  apply st_bind_safe; [|done]. intros p. pose proof (NewPlainCoinFromByte_safe b) as Hs.
  by destruct (NewPlainCoinFromByte b) as [[c|c] [[]| | |]].
Qed.

Lemma read_cv_serialNumber_safe bytes i o : st_safe (read_cv_serialNumber bytes i o).
Proof using Type.
  apply st_bind_safe; [auto using read_length1_safe|intros n]. apply read_element_safe. intros b _ _.
  eapply st_spec_safe; [apply SNNoPrivacy_safe|]. intros E. discriminate E.
Qed.

(** C31: the parsers of the proofs of version 2 and of conversions never panic: on all
    bytes and in every receiver they return with success or with an error. *)
Theorem ProofV2_parse_safe b p q :
  res_safe (snd (ProofV2_SetBytes b p)) /\ res_safe (snd (ConversionProof_SetBytes b q)).
Proof using Type.
  split; [revert p|revert q]; match goal with |- forall p, res_safe (snd (?m p)) => enough (st_safe m) by auto end.
  - unfold ProofV2_SetBytes. destruct (Nat.eqb_spec (length b) 0); [done|].
    apply st_bind_safe; [apply st_lift_safe; by destruct (index_safe b 0) as (x & -> & _); [lia|]|intros v0].
    destruct (negb _); [done|]. apply st_bind_safe; [done|intros _]. apply st_bind_safe; [apply read_range2_safe|intros o].
    apply st_bind_safe; [apply read_array_safe, read_input2_safe|intros o'].
    by apply st_bind_safe; [apply read_array_safe, read_output_safe|].
  - unfold ConversionProof_SetBytes. destruct (Nat.eqb_spec (length b) 0); [done|].
    apply st_bind_safe; [apply st_lift_safe; by destruct (index_safe b 0) as (x & -> & _); [lia|]|intros v0].
    destruct (negb _); [done|]. apply st_bind_safe; [done|intros _].
    apply st_bind_safe; [apply read_array_safe, read_cv_input_safe|intros o].
    apply st_bind_safe; [apply read_array_safe, read_output_safe|intros o'].
    by apply st_bind_safe; [apply read_array_safe, read_cv_serialNumber_safe|].
Qed.
End safety.

(** *** Making a proof *)

Section prove.
Context `{CL : CurveLaws} `{DL : DigestLaws} `{LL : LRULaws} `{AA : AllocatorLaws} `{HD : HDWallet} `{BL : BlockCipherLaws}.
Context (g h : list Z) (Eg : index PedG PedersenValueIndex = Ok g) (Eh : index PedG PedersenRandomnessIndex = Ok h)
  (Hg : pt_ok g) (Hh : pt_ok h).

Definition coin_value (c : CoinV2) : Z := match c2_amount c with Some a => key_val a | None => 0 end.
Definition coin_rand (c : CoinV2) : Z := match c2_mask c with Some r => key_val r | None => 0 end.
Definition com2 (v r : Z) : list Z := AddKeys (pmul g v) (pmul h r).

(** A coin without asset tag that is not encrypted: its commitment opens to its
    amount and its randomness. *)
Record opened (c : CoinV2) : Prop := mkOpened {
  op_stored : stored2 c;
  op_tag : c2_assetTag c = None;
  op_value : is_u64 (coin_value c);
  op_amount : c2_amount c = Some (sc (coin_value c));
  op_mask : c2_mask c = Some (sc (coin_rand c));
  op_com : c2_commitment c = Some (com2 (coin_value c) (coin_rand c)) }.

Lemma com2_pt v r : pt_ok (com2 v r).
Proof using CL Hg Hh. unfold com2. auto with points. Qed.

Lemma opened_commitment c : opened c ->
  commitment_of c (sc (coin_value c)) (sc (coin_rand c)) = Ok (com2 (coin_value c) (coin_rand c)).
Proof using CL Eg Eh Hg Hh.
  intros Hc. unfold commitment_of. rewrite (op_tag c Hc). by apply CommitAtIndex_sc.
Qed.

Lemma sc_u64 v : is_u64 v -> key_val (sc v) = v.
Proof using Type.
  intros Hv. rewrite sc_val. apply Z.mod_small. unfold is_u64 in Hv. assert (2 ^ 64 < order) by by vm_compute. lia.
Qed.

(** A coin that is not encrypted, with or without asset tag. *)
Record opens (c : CoinV2) : Prop := mkOpens {
  on_stored : stored2 c;
  on_value : is_u64 (coin_value c);
  on_amount : c2_amount c = Some (sc (coin_value c));
  on_mask : c2_mask c = Some (sc (coin_rand c));
  on_com : exists com, c2_commitment c = Some com /\ commitment_of c (sc (coin_value c)) (sc (coin_rand c)) = Ok com }.

Lemma opened_opens c : opened c -> opens c.
Proof using CL Eg Eh Hg Hh.
  intros Hc. constructor; try apply Hc. exists (com2 (coin_value c) (coin_rand c)). split; [apply (op_com c Hc)|by apply opened_commitment].
Qed.

Lemma opens_value c : opens c -> CoinV2_GetValue c = Ok (coin_value c).
Proof using CL DL.
  intros Hc. destruct (on_com c Hc) as (com & Ec & Ecom). unfold CoinV2_GetValue.
  rewrite (IsEncrypted_eq c _ _ _ (on_amount c Hc) (on_mask c Hc) Ec), Ecom. cbn [res_bind]. rewrite bool_decide_true by done. cbn [negb].
  rewrite (on_amount c Hc). cbn [deref res_bind]. pose proof (on_value c Hc) as Hv.
  rewrite ToUint64Little_ok by apply (proj1 (sc_ok_sc _)). rewrite sc_u64 by exact Hv. f_equal. by apply Z.mod_small.
Qed.

Lemma opened_value c : opened c -> CoinV2_GetValue c = Ok (coin_value c).
Proof using CL DL Eg Eh Hg Hh. intros Hc. by apply opens_value, opened_opens. Qed.

(** What an input coin shows: its key image, version and info. *)
Definition shown (c : CoinV2) : CoinV2 :=
  mkCoinV2 (c2_version c) (c2_info c) None None (c2_keyImage c) (c2_sharedConcealRandom c) (c2_sharedRandom c)
    (Some (make_TxRandom Identity Identity 0)) None (Some (sc 0)) (c2_assetTag c) (c2_rawAssetTag c).

Lemma ConcealInput_ok c : CoinV2_ConcealInputCoin c = Ok (shown c).
Proof using Type.
  unfold CoinV2_ConcealInputCoin, c2_SetValue. rewrite FromUint64_sc by (unfold is_u64; lia). reflexivity.
Qed.

(** An output coin to an address: its secrets are there, and so is the view key. *)
Definition addressed (c : CoinV2) (o : option PaymentInfo) : Prop :=
  exists pk, c2_publicKey c = Some pk /\
  (IsPublicKeyBurningAddress pk = Ok true \/
   IsPublicKeyBurningAddress pk = Ok false /\
   exists info r t rk, o = Some info /\ pa_Tk (pi_PaymentAddress info) = ScalarMultKey GBASE (sc rk) /\
     c2_sharedConcealRandom c = Some (sc r) /\ c2_txRandom c = Some t /\
     GetTxConcealRandomPoint t = Ok (ScalarMultKey GBASE (sc r))).
Definition sendable (c : CoinV2) (o : option PaymentInfo) : Prop := opened c /\ addressed c o.
Definition to_send (c : CoinV2) (o : option PaymentInfo) : Prop := opens c /\ addressed c o.

Lemma sendable_to_send outs infos : Forall2 sendable outs infos -> Forall2 to_send outs infos.
Proof using CL Eg Eh Hg Hh.
  intros Hs. eapply Forall2_impl; [exact Hs|]. intros c o [Hc Ha]. split; [by apply opened_opens|exact Ha].
Qed.

(** A coin without the sender's secrets and key image. *)
Definition bare (c : CoinV2) : CoinV2 := c2_SetSharedRandom None (c2_SetSharedConcealRandom None (c2_SetKeyImage None c)).

(** A coin in the proof: a burnt coin is shown as it is; another shows neither
    secrets nor key image, and who has the view key decrypts it. *)
Definition sent_coin (c : CoinV2) (o : option PaymentInfo) (out : CoinV2) : Prop :=
  stored2 out /\ c2_publicKey out = c2_publicKey c /\ c2_commitment out = c2_commitment c /\ c2_txRandom out = c2_txRandom c /\
  (out = c \/
   (c2_keyImage out = None /\ c2_sharedRandom out = None /\ c2_sharedConcealRandom out = None /\
    forall info rk ks, o = Some info -> view_only (sc rk) ks -> pa_Tk (pi_PaymentAddress info) = ScalarMultKey GBASE (sc rk) ->
      CoinV2_IsEncrypted out = Ok true ->
      CoinV2_Decrypt (Some ks) out = (bare c, Ok tt) /\ CoinV2_GetValue (bare c) = Ok (coin_value c))).

Lemma view_point addr rk : pa_Tk addr = ScalarMultKey GBASE (sc rk) ->
  PaymentAddress_GetPublicView addr = Some (ScalarMultKey GBASE (sc rk)).
Proof using CL.
  intros E. unfold PaymentAddress_GetPublicView, point_or_nil. rewrite E, FromBytesS_pt; [done|].
  apply pt_mult; [apply pt_base|apply sc_ok_sc].
Qed.

Lemma concealed_stored h2 h3 m a c : stored2 c -> sc_ok (ScAdd m h2) -> sc_ok (ScAdd a h3) ->
  stored2 (c2_SetKeyImage None (concealed h2 h3 m a c)).
Proof using Type.
  intros ((Hi & Hpk & Hcom & _ & _ & _ & Ht & _ & _ & Hat) & Hl & Hv & Hr) Hm Ha.
  split; [|by split]. split; [exact Hi|]. split; [exact Hpk|]. split; [exact Hcom|]. split; [exact I|]. split; [exact I|].
  split; [exact I|]. split; [exact Ht|]. split; [apply Hm|]. split; [apply Ha|exact Hat].
Qed.

Lemma without_image_stored c : stored2 c -> stored2 (c2_SetKeyImage None c).
Proof using Type.
  intros ((Hi & Hpk & Hcom & _ & Hrest) & Hl & Hv & Hr). split; [|by split].
  split; [exact Hi|]. split; [exact Hpk|]. split; [exact Hcom|]. split; [exact I|exact Hrest].
Qed.

Lemma shown_stored c : stored2 c -> stored2 (shown c).
Proof using CL.
  intros ((Hi & _ & _ & Hki & Hsc & Hsr & _ & _ & _ & Hat) & Hl & Hv & Hr). destruct (pt_key Identity pt_identity) as [K V].
  split; [|by split]. split; [exact Hi|]. split; [exact I|]. split; [exact I|]. split; [exact Hki|]. split; [exact Hsc|].
  split; [exact Hsr|]. split; [|split; [exact I|split; [apply sc_ok_sc|exact Hat]]].
  eexists. split; [reflexivity|]. by apply make_TxRandom_ok.
Qed.

Lemma hide_output2_ok c o : to_send c o -> exists out, hide_output2 c (Some o) = Ok out /\ sent_coin c o out.
Proof using CL DL.
  intros (Hc & pk & Epk & Hb). unfold hide_output2. rewrite Epk. cbn [deref res_bind].
  destruct Hb as [Eb|(Eb & info & r & t & rk & -> & Etk & Er & Et & Ep)]; rewrite Eb; cbn [deref res_bind].
  { exists c. split; [done|]. split; [apply (on_stored c Hc)|]. split; [done|]. split; [done|]. split; [done|]. by left. }
  rewrite (view_point _ rk Etk). destruct (on_com c Hc) as (com & Ec & Ecom).
  destruct (conceal_ok c (sc r) (sc rk) _ _ _ (sc_ok_sc rk) (sc_ok_sc r) Er (on_mask c Hc) (on_amount c Hc) Ec Ecom)
    as (h2 & h3 & Ehs & Hh2 & Hh3 & E).
  unfold conceal_for. rewrite E. cbn [res_bind]. eexists. split; [reflexivity|].
  split; [by apply concealed_stored; apply on_stored || apply ScAdd_ok; try apply sc_ok_sc|].
  split; [done|]. split; [done|]. split; [done|]. right. split; [done|]. split; [done|]. split; [done|]. intros info' rk' ks E' Hks Etk' Henc. injection E' as <-.
  assert (conceal_hashes (ScalarMultKey (ScalarMultKey GBASE (sc r)) (sc rk')) = Ok (h2, h3)) as Ehs'.
  { rewrite <- Ehs. f_equal. rewrite !(mult_swap GBASE (sc r)) by (apply pt_base || apply sc_ok_sc). congruence. }
  destruct (decrypt_concealed (c2_SetKeyImage None c) (sc r) (sc rk') ks t (sc (coin_rand c)) (sc (coin_value c))
    com h2 h3 Hks (sc_ok_sc _) (sc_ok_sc _) (sc_ok_sc _) Hh2 Hh3 Et Ep (on_mask c Hc)
    (on_amount c Hc) Ec Ecom Ehs' Henc) as [Ed Ev].
  split; [exact Ed|]. unfold bare. rewrite Ev. f_equal. pose proof (on_value c Hc) as Hv.
  rewrite sc_u64 by exact Hv. by apply Z.mod_small.
Qed.

(** How a coin is hidden: with the hashes of the secret that its random part shares
    with the view key of the receiver. *)
Definition hidden_coin (info : PaymentInfo) (c out : CoinV2) : Prop :=
  exists r h2 h3, c2_sharedConcealRandom c = Some r /\
    conceal_hashes (ScalarMultKey (pa_Tk (pi_PaymentAddress info)) r) = Ok (h2, h3) /\
    out = c2_SetKeyImage None (concealed h2 h3 (sc (coin_rand c)) (sc (coin_value c)) c).

Lemma hide_output2_shape c info out : to_send c (Some info) -> hide_output2 c (Some (Some info)) = Ok out ->
  exists pk, c2_publicKey c = Some pk /\
    ((IsPublicKeyBurningAddress pk = Ok true /\ out = c) \/
     (IsPublicKeyBurningAddress pk = Ok false /\ hidden_coin info c out)).
Proof using CL DL.
  intros (Hc & pk & Epk & Hb). unfold hide_output2. rewrite Epk. cbn [deref res_bind]. exists pk. split; [reflexivity|].
  destruct Hb as [Eb|(Eb & info' & r & t & rk & Ei & Etk & Er & Et & Ep)]; rewrite Eb in *; cbn [deref res_bind] in *.
  { left. split; [reflexivity|congruence]. }
  injection Ei as <-. rewrite (view_point _ rk Etk) in *. destruct (on_com c Hc) as (com & Ec & Ecom).
  destruct (conceal_ok c (sc r) (sc rk) _ _ _ (sc_ok_sc rk) (sc_ok_sc r) Er (on_mask c Hc) (on_amount c Hc) Ec Ecom)
    as (h2 & h3 & Ehs & _ & _ & E).
  unfold conceal_for in *. rewrite E in *. cbn [res_bind] in *. right. split; [reflexivity|].
  exists (sc r), h2, h3. split; [exact Er|]. split; [|congruence].
  rewrite <- Ehs, Etk. f_equal. apply mult_swap; [apply pt_base|apply sc_ok_sc|apply sc_ok_sc].
Qed.

Lemma hide_outputs2_ok outs infos : Forall2 to_send outs infos ->
  exists hidden, hide_outputs2 (map Some outs) infos = Ok (map Some hidden) /\
    Forall2 (fun co out => sent_coin (fst co) (snd co) out) (zip outs infos) hidden.
Proof using CL DL.
  induction 1 as [|c o outs infos Hc Ho IH]; [by exists []|].
  destruct (hide_output2_ok c o Hc) as (out & Eo & Hout). destruct IH as (hidden & E & Hhid).
  exists (out :: hidden). cbn [map hide_outputs2 deref res_bind head tail]. rewrite Eo. cbn [res_bind]. rewrite E. cbn [res_bind map].
  split; [done|]. by constructor.
Qed.

(** Copying coins through their bytes. *)
Lemma set_inputs_ok ins : Forall stored_plain_coin ins -> forall fst p,
  q_inputCoins p = map Some fst ++ replicate (length ins) None ->
  set_inputs (length fst) ins p = (set_q_inputCoins (map Some (fst ++ ins)) p, Ok tt).
Proof using CL.
  induction 1 as [|c ins Hc Hins IH]; intros fst p Hp.
  - cbn [set_inputs length replicate map] in *. rewrite app_nil_r in *. unfold st_ret. rewrite <- Hp. by destruct p.
  - cbn [set_inputs length replicate] in *. unfold st_bind. rewrite (NewPlainCoin_stored c Hc).
    replace (S (length fst)) with (length (fst ++ [c])) by (rewrite length_app; cbn; lia).
    rewrite IH; [by rewrite <- app_assoc|]. cbn [q_inputCoins set_q_inputCoins]. rewrite Hp.
    rewrite insert_app_r_alt by (rewrite length_map; lia). rewrite length_map, Nat.sub_diag. cbn [insert list_insert].
    by rewrite map_app, <- app_assoc.
Qed.

Lemma set_outputs_ok outs : Forall stored2 outs -> forall fst p,
  q_outputCoins p = map Some fst ++ replicate (length outs) None ->
  set_outputs (length fst) outs p = (set_q_outputCoins (map Some (fst ++ outs)) p, Ok tt).
Proof using CL.
  induction 1 as [|c outs Hc Houts IH]; intros fst p Hp.
  - cbn [set_outputs length replicate map] in *. rewrite app_nil_r in *. unfold st_ret. rewrite <- Hp. by destruct p.
  - cbn [set_outputs length replicate] in *. unfold st_bind.
    rewrite (CoinV2_SetBytes_Bytes c newCoinV2 (proj1 Hc)), (stored_coin_id c newCoinV2 Hc eq_refl).
    replace (S (length fst)) with (length (fst ++ [c])) by (rewrite length_app; cbn; lia).
    rewrite IH; [by rewrite <- app_assoc|]. cbn [q_outputCoins set_q_outputCoins]. rewrite Hp.
    rewrite insert_app_r_alt by (rewrite length_map; lia). rewrite length_map, Nat.sub_diag. cbn [insert list_insert].
    by rewrite map_app, <- app_assoc.
Qed.

Lemma copy_coins ins outs p : Forall stored_plain_coin ins -> Forall stored2 outs ->
  exists p1, SetInputCoins ins p = (p1, Ok tt) /\
    SetOutputCoinsV2 outs p1 = (mkProofV2 (q_Version p) (q_rangeProof p) (map Some ins) (map Some outs), Ok tt).
Proof using CL.
  intros Hi Ho. eexists. split.
  - unfold SetInputCoins. rewrite st_bind_put. exact (set_inputs_ok ins Hi [] (set_q_inputCoins (replicate (length ins) None) p) eq_refl).
  - unfold SetOutputCoinsV2. rewrite st_bind_put.
    match goal with |- set_outputs 0 outs ?q = _ => exact (set_outputs_ok outs Ho [] q eq_refl) end.
Qed.

Lemma Witness_Set_same vs rs : length vs = length rs -> Witness_Set vs rs = Ok (mkWitness vs rs).
Proof using Type.
  intros Hl. unfold Witness_Set. rewrite (proj2 (Nat.ltb_ge _ _)) by lia. by rewrite take_ge by lia.
Qed.

Lemma outputs_witness outs : Forall opens outs ->
  res_map CoinV2_GetValue outs = Ok (map coin_value outs) /\
  res_map (fun c => deref (c2_mask c)) outs = Ok (map (fun c => sc (coin_rand c)) outs) /\
  ((length outs <= MaxOutputCoin)%nat -> witness_ok (mkWitness (map coin_value outs) (map (fun c => sc (coin_rand c)) outs))).
Proof using CL DL.
  intros Ho. split; [|split].
  - apply res_map_ok. eapply Forall_impl; [exact Ho|]. exact opens_value.
  - apply res_map_ok. eapply Forall_impl; [exact Ho|]. intros c Hc. cbv beta. by rewrite (on_mask c Hc).
  - intros Hmax. split; [|split; [|split]]; cbn [wt_values wt_rands]; rewrite ?length_map; try done.
    + apply Forall_map. eapply Forall_impl; [exact Ho|]. intros c Hc. apply on_value. exact Hc.
    + apply Forall_map, Forall_true. intros c. apply sc_ok_sc.
Qed.

Lemma opened_commitments outs : Forall opened outs ->
  zip_with (fun v r => Point_AddPedersen (key_of v) g r h) (map coin_value outs) (map (fun c => sc (coin_rand c)) outs) =
    map (fun c => com2 (coin_value c) (coin_rand c)) outs.
Proof using CL Hg Hh.
  induction 1 as [|c outs Hc Ho IH]; [done|]. cbn [map zip_with]. rewrite IH. f_equal. pose proof (op_value c Hc) as Hv.
  rewrite sc_small by (unfold is_u64 in Hv; assert (2 ^ 64 < order) by (by vm_compute); lia). by apply add_pedersen_sc.
Qed.

Lemma to_send_opens outs infos : Forall2 to_send outs infos -> Forall opens outs.
Proof using Type. intros Hs. eapply Forall2_Forall_l; [exact Hs|]. apply Forall_true. intros o c Hc. apply Hc. Qed.

(** The proof around the range proof, which may change the global commitment scheme. *)
Lemma ProveV2_around rnd aggParam ins outs secrets (ca : bool) infos G G' rp : Forall stored2 ins -> Forall2 to_send outs infos ->
  (let wit := mkWitness (map coin_value outs) (map (fun c => sc (coin_rand c)) outs) in
   (if ca then prove_range_CA rnd aggParam wit outs secrets else st_lift (Witness_Prove rnd aggParam wit)) G = (G', Ok rp)) ->
  exists hidden,
    ProveV2 rnd aggParam (map PlainV2 ins) outs secrets ca infos G =
      (G', Ok (mkProofV2 2 (Some rp) (map Some (map (fun c => PlainV2 (shown c)) ins)) (map Some hidden))) /\
    Forall2 (fun co out => sent_coin (fst co) (snd co) out) (zip outs infos) hidden.
Proof using CL DL BL.
  intros Hins Hs Hrange. pose proof (to_send_opens outs infos Hs) as Ho. destruct (outputs_witness outs Ho) as (Ev & Er & _).
  destruct (copy_coins (map PlainV2 ins) outs (set_q_version 2 ProofV2_new)) as (p1 & E1 & E2).
  { by apply Forall_map. }
  { eapply Forall_impl; [exact Ho|]. intros c Hc. apply on_stored. exact Hc. }
  destruct (hide_outputs2_ok outs infos Hs) as (hidden & Eh' & Hhid). exists hidden. split; [|exact Hhid].
  unfold ProveV2. rewrite E1, E2, Ev, Er. unfold st_bind, st_lift. rewrite Witness_Set_same by (by rewrite !length_map). cbv zeta in Hrange.
  unfold st_lift in Hrange. rewrite Hrange.
  cbn [q_outputCoins q_inputCoins set_q_rangeProof].
  rewrite Eh'. rewrite (res_map_ok conceal_input (fun o => match o with Some (PlainV2 c) => Some (PlainV2 (shown c)) | o => o end)).
  - unfold st_ret, set_q_inputCoins, set_q_outputCoins, set_q_rangeProof.
    cbn [q_Version q_rangeProof q_inputCoins q_outputCoins set_q_version]. by rewrite !map_map.
  - rewrite !Forall_map. apply Forall_true. intros c. unfold conceal_input. by rewrite ConcealInput_ok.
Qed.

(** The outputs of a proof are the hidden ones. *)
Lemma ProveV2_hides rnd aggParam ins outs secrets (ca : bool) infos G G' p : Forall stored2 ins -> Forall opens outs ->
  ProveV2 rnd aggParam (map PlainV2 ins) outs secrets ca infos G = (G', Ok p) ->
  hide_outputs2 (map Some outs) infos = Ok (q_outputCoins p).
Proof using CL DL BL.
  intros Hins Ho. destruct (outputs_witness outs Ho) as (Ev & Er & _).
  destruct (copy_coins (map PlainV2 ins) outs (set_q_version 2 ProofV2_new)) as (p1 & E1 & E2).
  { by apply Forall_map. }
  { eapply Forall_impl; [exact Ho|]. intros c Hc. apply on_stored. exact Hc. }
  unfold ProveV2. rewrite E1, E2, Ev, Er. unfold st_bind, st_lift. rewrite Witness_Set_same by (by rewrite !length_map).
  cbv zeta. match goal with |- context [match ?r with (_, _) => _ end] => destruct r as [G1 [rp|m| |]] end; try discriminate.
  cbn [q_outputCoins q_inputCoins set_q_rangeProof].
  destruct (hide_outputs2 (map Some outs) infos) as [hidden|m| |]; try discriminate.
  match goal with |- context [res_map conceal_input ?l] => destruct (res_map conceal_input l) as [x|m| |] end; try discriminate.
  unfold st_ret. intros E. apply pair_equal_spec in E as [_ E]. injection E as <-. reflexivity.
Qed.

(** The proof of a payment without asset tags. *)
Lemma ProveV2_ok rnd aggParam ins outs infos G : Forall stored2 ins -> Forall2 sendable outs infos ->
  (length outs <= MaxOutputCoin)%nat -> params_ok aggParam -> (forall i, sc_ok (rnd i)) ->
  let N := (MaxExp * Z.to_nat (roundUpPowTwo (Z.of_nat (length outs))))%nat in
  (N <= length (bp_g aggParam))%nat -> (N <= length (bp_h aggParam))%nat ->
  exists ag d hidden, setAggregateParams aggParam N = Ok ag /\
    ProveV2 rnd aggParam (map PlainV2 ins) outs [] false infos G =
      (G, Ok (mkProofV2 2 (Some (proof_of 2 d)) (map Some (map (fun c => PlainV2 (shown c)) ins)) (map Some hidden))) /\
    pd_cms d = map (fun c => com2 (coin_value c) (coin_rand c)) outs /\ data_ok d /\ N = (2 ^ length (pd_l d))%nat /\
    (range_invertible (bp_cs ag) 2 d -> range_check ag g h 2 d = Ok true) /\
    Forall2 (fun co out => sent_coin (fst co) (snd co) out) (zip outs infos) hidden.
Proof using CL DL BL Eg Eh Hg Hh.
  intros Hins Hs Hmax Hagg Hrnd N LG LH. pose proof (sendable_to_send outs infos Hs) as Hs'.
  assert (Forall opened outs) as Hop by (eapply Forall2_Forall_l; [exact Hs|]; apply Forall_true; intros o c Hc; apply Hc).
  destruct (outputs_witness outs (to_send_opens outs infos Hs')) as (_ & _ & Hw). specialize (Hw Hmax).
  destruct (aggregate_complete rnd aggParam 2 g h _ Hg Hh Hagg Hw Hrnd) as (ag & d & Eag & Ep & Ed & Hd & HN & Hv).
  1,2: cbn [wt_values]; by rewrite length_map. cbn [wt_values wt_rands] in Eag, Ed. rewrite length_map in Eag.
  cbn [wt_values] in HN. rewrite length_map in HN. fold N in HN.
  destruct (ProveV2_around rnd aggParam ins outs [] false infos G G (proof_of 2 d) Hins Hs') as (hidden & E & Hhid).
  { cbv zeta. unfold st_lift, Witness_Prove. rewrite Eg, Eh. cbn [res_bind]. by rewrite Ep. }
  exists ag, d, hidden. split; [exact Eag|]. split; [exact E|]. split; [by rewrite Ed, opened_commitments|]. by repeat (split; [assumption|]).
Qed.
End prove.

(** The bytes of a proof are bytes. *)
Section bytes.
Context `{CL : CurveLaws} `{DL : DigestLaws} `{BL : BlockCipherLaws}.

Lemma opt_field_bytes o : opt_scalar o -> bytes_ok (opt_field o).
Proof using Type.
  intros Ho. destruct o as [k|]; cbn [opt_field]; [|repeat constructor; unfold is_byte; lia].
  apply Forall_cons_2; [unfold is_byte, Ed25519KeySize; lia|apply Ho].
Qed.

Lemma CoinV2_bytes_ok c : coinV2_ok c -> bytes_ok (CoinV2_Bytes c).
Proof using Type.
  intros (Hi & Hpk & Hcom & Hki & Hsc & Hsr & (t & Et & Ht & Hb & _) & Hm & Ha & Htag).
  rewrite (CoinV2_bytes_split c Hi t Et). apply opt_point_scalar in Hpk, Hcom, Hki, Htag.
  assert (is_byte (Z.of_nat (length (take MaxSizeInfoCoin (c2_info c))))) as Hl.
  { rewrite length_take. unfold is_byte, MaxSizeInfoCoin. lia. }
  unfold bytes_ok. rewrite !Forall_app, !Forall_cons. repeat split; try (by apply opt_field_bytes);
    try exact Hb; try (by apply Forall_take); try exact Hl; try apply Forall_nil_2; try apply Hl; unfold TxRandomGroupSize; lia.
Qed.

Lemma bigint_bytes_ok x : bytes_ok (bigint_bytes x).
Proof using Type. exact (proj1 (proj2 (to_digits_spec 256 ltac:(lia) (Z.abs x) (Z.abs_nonneg x)))). Qed.

Lemma PlainCoinV1_bytes_ok c : plain1_ok c -> bytes_ok (PlainCoinV1_Bytes c).
Proof using Type.
  intros (Hpk & Hcom & Hsnd & Hsn & Hr & Hv & Hi). apply opt_point_scalar in Hpk, Hcom, Hsn.
  unfold PlainCoinV1_Bytes, bytes_ok. rewrite !Forall_app, info_bytes_eq. repeat split; try (by apply opt_field_bytes).
  - unfold value_field. destruct (0 <? p1_value c); [|by repeat constructor].
    apply Forall_cons_2; [unfold is_byte, u8; apply Z.mod_pos_bound; lia|apply bigint_bytes_ok].
  - apply Forall_cons_2; [|by apply Forall_take]. rewrite length_take. unfold is_byte, MaxSizeInfoCoin. lia.
Qed.

Lemma sized_bytes_ok b : bytes_ok b -> Z.of_nat (length b) < 65536 -> bytes_ok (sized_bytes b).
Proof using Type.
  intros Hb Hl. unfold sized_bytes. apply Forall_app. split; [|exact Hb]. destruct (Nat.ltb_spec (length b) 256).
  - apply Forall_singleton. unfold is_byte, u8. apply Z.mod_pos_bound. lia.
  - rewrite IntToBytes_small by lia. apply be_bytes_ok.
Qed.

Lemma array_bytes {E} (enc : E -> list Z) es : (length es <= 255)%nat -> Forall (fun e => bytes_ok (enc e)) es ->
  bytes_ok (array_enc enc es).
Proof using Type.
  intros Hl He. apply Forall_cons_2; [unfold is_byte; lia|]. clear Hl. induction He as [|e es He Hes IH]; [constructor|].
  apply Forall_app. by split.
Qed.

Lemma range_body_bytes d : range_ok d -> bytes_ok (range_body d).
Proof using CL.
  intros (Hd & L1 & L2). unfold data_ok in Hd.
  assert (forall ps, Forall pt_ok ps -> bytes_ok (concat ps)) as Hps.
  { intros ps. induction 1 as [|p ps Hp Hps IH]; [constructor|]. apply Forall_app. split; [apply (pt_key p Hp)|exact IH]. }
  assert (forall p, pt_ok p -> bytes_ok p) as Hp by (intros p Hp; apply (pt_key p Hp)).
  assert (forall s, sc_ok s -> bytes_ok s) as Hs by (intros s Hs; apply (proj1 Hs)).
  unfold range_body, bytes_ok. rewrite !Forall_cons, !Forall_app, Forall_cons, !Forall_app.
  decompose [and] Hd. repeat split; first [by apply Hps|by apply Hp|by apply Hs|lia].
Qed.

Lemma plain_bytes_ok c : stored_plain_coin c -> bytes_ok (input2_enc c).
Proof using Type.
  destruct c as [c|c]; intros Hc; unfold input2_enc, PlainCoin_Bytes; apply sized_bytes_ok.
  - exact (PlainCoinV1_bytes_ok c (proj1 Hc)).
  - destruct Hc as [Hc Hl]. pose proof (PlainCoinV1_Bytes_length c Hc). lia.
  - exact (CoinV2_bytes_ok c (proj1 Hc)).
  - pose proof (CoinV2_Bytes_length c (proj1 Hc)). lia.
Qed.

Lemma payment2_bytes_ok d : payment2_ok d -> bytes_ok (payment2_enc d).
Proof using CL.
  intros ((L1 & L2) & Hr & Hin & Hout).
  apply Forall_cons_2; [unfold is_byte; lia|]. apply Forall_app. split.
  { unfold range2_enc. apply Forall_app. split; [apply be_bytes_ok|]. destruct (p2_range d) as [r|] eqn:E; [|constructor].
    apply Forall_cons_2; [unfold is_byte; lia|]. apply Forall_cons_2; [unfold is_byte; lia|]. apply range_body_bytes, Hr. done. }
  apply Forall_app. split; apply array_bytes; try assumption.
  - eapply Forall_impl; [exact Hin|]. exact plain_bytes_ok.
  - eapply Forall_impl; [exact Hout|]. intros c Hc. exact (plain_bytes_ok (PlainV2 c) Hc).
Qed.
End bytes.

(** ** Witnesses *)

#[local] Existing Instances toy_curve toy_curve_laws toy_digests toy_digest_laws toy_cipher toy_cipher_laws.

(** A coin whose length takes two bytes, the first of them 2. *)
Definition toy_long : CoinV2 := c2_SetKeyImage (Some (toy_write 7)) (c2_SetSharedRandom (Some (key_of 4)) (c2_SetInfo (replicate 255 9) toy_coin)).

Lemma toy_coin_stored : stored2 toy_coin.
Proof. split; [apply toy_coin_ok|]. split; [apply Nat.leb_le; reflexivity|]. split; reflexivity. Qed.

Lemma toy_long_stored : stored2 toy_long /\ (512 <= length (CoinV2_Bytes toy_long))%nat.
Proof.
  split; [|apply Nat.leb_le; reflexivity]. split; [|split; [apply Nat.leb_le; reflexivity|split; reflexivity]].
  destruct toy_coin_ok as (_ & Hpk & Hcom & _ & Hsc & _ & Ht & Hm & Ha & Htag).
  split; [apply Forall_replicate; unfold is_byte; lia|]. split; [exact Hpk|]. split; [exact Hcom|].
  split; [apply toy_write_ok|]. split; [exact Hsc|]. split; [apply key_of_ok|]. by repeat (split; [assumption|]).
Qed.

Definition toy_payment2 : payment2 := mkPayment2 (Some toy_data) [PlainV1 toy_input; PlainV2 toy_long] [toy_long; toy_coin].

Lemma toy_payment2_ok : payment2_ok toy_payment2.
Proof.
  destruct toy_long_stored as [Hl _]. pose proof toy_coin_stored as Hc.
  split; [cbn [length p2_in p2_out toy_payment2]; lia|]. split; [|split].
  - intros d E. injection E as <-. split; [apply toy_data_ok|split; apply Nat.leb_le; reflexivity].
  - apply Forall_cons_2; [|apply Forall_cons_2; [exact Hl|apply Forall_nil_2]]. destruct toy_input_ok as (Hi & _ & Hn). by split.
  - apply Forall_cons_2; [exact Hl|apply Forall_cons_2; [exact Hc|apply Forall_nil_2]].
Qed.

Lemma ProofV2_roundtrip_witness : exists b,
  ProofV2_Bytes (proof2_of 2 (Some RangeProof_new) toy_payment2) = Ok b /\
  ProofV2_SetBytes b ProofV2_new = (proof2_of 2 None toy_payment2, Ok tt).
Proof. exact (ProofV2_roundtrip 2 RangeProof_new toy_payment2 ProofV2_new toy_payment2_ok eq_refl). Defined.

Definition toy_conversion : conversion := mkConversion [toy_input] [toy_long] [toy_snnp].

Lemma ConversionProof_roundtrip_witness : exists b,
  ConversionProof_Bytes (conversion_of 255 toy_conversion) = Ok b /\
  ConversionProof_SetBytes b ConversionProof_new = (conversion_of 255 toy_conversion, Ok tt).
Proof.
  apply (ConversionProof_roundtrip 255 toy_conversion ConversionProof_new).
  split; [cbn [length cn_in cn_out cn_sn toy_conversion]; lia|].
  split; [apply Forall_cons_2; [apply toy_input_ok|apply Forall_nil_2]|].
  split; [apply Forall_cons_2; [apply toy_long_stored|apply Forall_nil_2]|apply Forall_cons_2; [apply toy_snnp_ok|apply Forall_nil_2]].
Defined.
