(* ===== verification/Utxo.v ===== *)
(** * Utxo.v: listing and choosing coins (package incclient)

    [coin.go] and [tx_utils.go]: decrypting the coins a full node (or the cache)
    returns for a key, discarding the spent ones, dividing them by version,
    choosing those that cover an amount, and the indices that go with them.
    What the node answers is the class [Node]; the order of equal elements
    after [sort.Slice] is the class [SliceSort]. *)

From stdpp Require Import base list gmap strings sorting.
From Stdlib Require Import ZArith Lia.
From S2P Require Import Prelude Common Hashing Crypto Key Base58 Base58Check Wallet CoinV2 Hybrid CoinV1.
Open Scope Z_scope.

Definition MaxInputSize : nat := 30.
Definition RingSize : nat := 8.

(** ** Interfaces *)

(** [sort.Slice]: a sorted permutation; which one, when elements are equal, is
    not specified. *)
Class SliceSort : Type := sort_slice : forall {A}, (A -> A -> bool) -> list A -> list A.
Class SliceSortLaws `{SliceSort} : Prop := {
  sort_slice_perm : forall A (less : A -> A -> bool) l, sort_slice less l ≡ₚ l;
  sort_slice_sorted : forall A (f : A -> Z) l,
    StronglySorted (fun x y => f y <= f x) (sort_slice (fun x y => f y <? f x) l)
}.

(** The full node: whether the serial numbers of a shard and token are spent. *)
Class Node : Type := HasSerialNumber : Z -> list Z -> list (list Z) -> res (list bool).

(** Coins as [jsonresult.ICoinInfo] holds them. *)
Inductive ICoinInfo :=
| InfoV1 (c : CoinV1)
| InfoPlainV1 (c : PlainCoinV1)
| InfoV2 (c : CoinV2).

Section coins.
Context `{CO : CurveOps} `{DG : Digests} `{LR : LRU} `{BC : BlockCipher}.

(** ** GetListDecryptedCoins *)

(** The key image of a plain coin of version 1, and its base58 form. *)
Definition plain_with_key_image (privateKey : list Z) (c : PlainCoinV1)
    : st cache (option (PlainCoin * list Z)) :=
  let! keyImage := st_lift (PlainCoinV1_ParseKeyImageWithPrivateKey privateKey c) in
  let! keyImageString := Base58Check_Encode keyImage 0 in
  st_ret (Some (PlainV1 (p1_SetKeyImage (Some keyImage) c), keyImageString)).

(** One round of the loop; [None] when the coin is skipped. *)
Definition decrypt_coin (keySet : KeySet) (outCoin : ICoinInfo) : st cache (option (PlainCoin * list Z)) :=
  match outCoin with
  | InfoV1 c =>
      if CoinV1_IsEncrypted c then
        let! decrypted := st_lift (snd (CoinV1_Decrypt (Some keySet) c)) in
        plain_with_key_image (ks_PrivateKey keySet) decrypted
      else st_fail "invalid PlaincoinV1"
  | InfoPlainV1 c => plain_with_key_image (ks_PrivateKey keySet) c
  | InfoV2 c =>
      match CoinV2_Decrypt (Some keySet) c with
      | (c, Ok tt) =>
          let! keyImage := st_lift (deref (c2_keyImage c)) in
          let! keyImageString := Base58Check_Encode keyImage 0 in
          st_ret (Some (PlainV2 c, keyImageString))
      | (_, Err _) =>
          (* the line that is logged has the encoded public key *)
          let! pk := st_lift (deref (c2_publicKey c)) in
          let! _ := Base58Check_Encode pk 0 in
          st_ret None
      | (_, Panic) => st_lift Panic
      | (_, OutOfFuel) => st_lift OutOfFuel
      end
  end.

Fixpoint decrypt_coins (keySet : KeySet) (l : list ICoinInfo) : st cache (list (PlainCoin * list Z)) :=
  match l with
  | [] => st_ret []
  | c :: l =>
      let! d := decrypt_coin keySet c in
      let! rest := decrypt_coins keySet l in
      st_ret (match d with Some x => x :: rest | None => rest end)
  end.

Definition GetListDecryptedCoins `{AL : Allocator} `{HD : HDWallet} (privateKey : list Z) (l : list ICoinInfo)
    : st cache (list PlainCoin * list (list Z)) :=
  let! keyWallet := st_lift (Base58CheckDeserialize privateKey) in
  let! ds := decrypt_coins (kw_KeySet keyWallet) l in
  st_ret (map fst ds, map snd ds).

(** ** Spent and unspent coins *)

Context `{ND : Node}.

Definition CheckCoinsSpent (shardID : Z) (tokenID : list Z) (snList : list (list Z)) : res (list bool) :=
  let* tmp := HasSerialNumber shardID tokenID snList in
  if negb (length tmp =? length snList)%nat
  then Err "length of result and length of snList mismatch"
  else Ok tmp.

Definition batchSize : nat := 100.

Fixpoint check_batches (n i : nat) (shardID : Z) (tokenID : list Z) (sns : list (list Z)) : res (list bool) :=
  match n with
  | O => Ok []
  | S n' =>
      let start := (i * batchSize)%nat in
      let end' := Nat.min ((i + 1) * batchSize) (length sns) in
      let* batch := slice sns start end' in
      let* b := res_wrap "cannot check spent coins" (CheckCoinsSpent shardID tokenID batch) in
      let* rest := check_batches n' (S i) shardID tokenID sns in
      Ok (b ++ rest)
  end.

Definition num_batches (n : nat) : nat :=
  (n / batchSize + (if negb (n mod batchSize =? 0)%nat then 1 else 0))%nat.

(** The final loop: the coins whose spent flag is [want] and whose value is not
    zero, with the indices found at their positions. *)
Fixpoint filter_coins (want : bool) (coins : list PlainCoin) (i : nat) (spent : list bool)
    (indices : list (option Z)) : res (list PlainCoin * list (option Z)) :=
  match coins with
  | [] => Ok ([], [])
  | c :: coins =>
      let* s := index spent i in
      let* keep := (if Bool.eqb s want then
                      let* v := PlainCoin_GetValue c in Ok (negb (v =? 0))
                    else Ok false) in
      if keep then
        let* idx := index indices i in
        let* (cs, ixs) := filter_coins want coins (S i) spent indices in
        Ok (c :: cs, idx :: ixs)
      else filter_coins want coins (S i) spent indices
  end.

(** The shard of the last byte of the public key. *)
Definition last_byte_shard (pk : list Z) : res Z :=
  let* b := index pk (length pk - 1) in Ok (GetShardIDFromLastByte b).

(** [GetUnspentOutputCoins] after [GetOutputCoins] returned [listOutputCoins]
    and [listIndices]; [None] is a [nil] list of indices. *)
Definition unspent_output_coins `{AL : Allocator} `{HD : HDWallet} (privateKey tokenID : list Z)
    (listOutputCoins : list ICoinInfo) (listIndices : list (option Z))
    : st cache (list PlainCoin * option (list (option Z))) :=
  if (length listOutputCoins =? 0)%nat then st_ret ([], None)
  else
    let! (coins, keyImages) := GetListDecryptedCoins privateKey listOutputCoins in
    if (length keyImages =? 0)%nat then st_ret ([], None)
    else
      let! keyWallet := st_lift (Base58CheckDeserialize privateKey) in
      let! shardID := st_lift (last_byte_shard (pa_Pk (ks_PaymentAddress (kw_KeySet keyWallet)))) in
      let! spent := st_lift (check_batches (num_batches (length keyImages)) 0 shardID tokenID keyImages) in
      let! (cs, ixs) := st_lift (filter_coins false coins 0 spent listIndices) in
      st_ret (cs, Some ixs).

(** [GetSpentOutputCoins]: one request, without batches. *)
Definition spent_output_coins `{AL : Allocator} `{HD : HDWallet} (privateKey tokenID : list Z)
    (listOutputCoins : list ICoinInfo) (listIndices : list (option Z))
    : st cache (list PlainCoin * option (list (option Z))) :=
  if (length listOutputCoins =? 0)%nat then st_ret ([], None)
  else
    let! (coins, keyImages) := GetListDecryptedCoins privateKey listOutputCoins in
    let! keyWallet := st_lift (Base58CheckDeserialize privateKey) in
    let! shardID := st_lift (last_byte_shard (pa_Pk (ks_PaymentAddress (kw_KeySet keyWallet)))) in
    let! spent := st_lift (CheckCoinsSpent shardID tokenID keyImages) in
    let! (cs, ixs) := st_lift (filter_coins true coins 0 spent listIndices) in
    st_ret (cs, Some ixs).

(** ** divideCoins *)

(** [x.Uint64()] of a [big.Int]: the 64 low bits of its absolute value. *)
Definition bigint_uint64 (x : Z) : Z := u64 (Z.abs x).

(** The loop over the coins: those of version 1, those of version 2, and the
    indices of the latter. *)
Fixpoint divide_loop (coins : list PlainCoin) (i : nat) (idxList : option (list (option Z)))
    : res (list PlainCoin * list PlainCoin * list Z) :=
  match coins with
  | [] => Ok ([], [], [])
  | c :: coins =>
      if PlainCoin_GetVersion c =? 2 then
        let* idx := match idxList with
                    | None => Ok []
                    | Some l =>
                        let* x := index l i in
                        match x with
                        | None => Err "idx of coinV2 is nil"
                        | Some x => Ok [bigint_uint64 x]
                        end
                    end in
        let* (v1, v2, ixs) := divide_loop coins (S i) idxList in
        Ok (v1, c :: v2, idx ++ ixs)
      else
        let* (v1, v2, ixs) := divide_loop coins (S i) idxList in
        Ok (c :: v1, v2, ixs)
  end.

(** The first coin of version 2 with the public key, and its index. *)
Fixpoint find_index (pk : option (list Z)) (allCoins : list PlainCoin) (i : nat) (allIdx : list (option Z))
    : res (list Z) :=
  match allCoins with
  | [] => Ok []
  | c :: allCoins =>
      if negb (PlainCoin_GetVersion c =? 2) then find_index pk allCoins (S i) allIdx
      else
        let* pk' := deref (PlainCoin_GetPublicKey c) in
        let* pk0 := deref pk in
        if bool_decide (pk' = pk0) then
          let* x := index allIdx i in
          let* x := deref x in
          Ok [bigint_uint64 x]
        else find_index pk allCoins (S i) allIdx
  end.

Fixpoint list_idx_loop (inCoins allCoins : list PlainCoin) (allIdx : list (option Z)) : res (list Z) :=
  match inCoins with
  | [] => Ok []
  | c :: inCoins =>
      let* found := find_index (PlainCoin_GetPublicKey c) allCoins 0 allIdx in
      let* rest := list_idx_loop inCoins allCoins allIdx in
      Ok (found ++ rest)
  end.

Definition getListIdx (inCoins allCoins : list PlainCoin) (allIdx : option (list (option Z))) : res (list Z) :=
  match allIdx with
  | None | Some [] => Ok []
  | Some idx =>
      let* r := list_idx_loop inCoins allCoins idx in
      if negb (length r =? length inCoins)%nat then Err "some coin cannot be retrieved" else Ok r
  end.

Fixpoint values_of (coins : list PlainCoin) : res (list Z) :=
  match coins with
  | [] => Ok []
  | c :: coins =>
      let* v := PlainCoin_GetValue c in
      let* vs := values_of coins in
      Ok (v :: vs)
  end.

(** In descending order of the values; a list of one coin is not compared. *)
Definition sort_coins `{SS : SliceSort} (coins : list PlainCoin) : res (list PlainCoin) :=
  if (length coins <=? 1)%nat then Ok coins
  else
    let* vs := values_of coins in
    Ok (map snd (sort_slice (fun x y => fst y <? fst x) (zip vs coins))).

Definition divideCoins `{SS : SliceSort} (coinList : list PlainCoin) (idxList : option (list (option Z)))
    (needSorted : bool) : res (list PlainCoin * list PlainCoin * list Z) :=
  if match idxList with Some l => negb (length coinList =? length l)%nat | None => false end
  then Err "cannot divide coins: length of coin != length of index"
  else
    let* (coinV1List, coinV2List, idxV2List) := divide_loop coinList 0 idxList in
    if needSorted then
      let* coinV1List := sort_coins coinV1List in
      let* coinV2List := sort_coins coinV2List in
      let* idxV2List := getListIdx coinV2List coinList idxList in
      Ok (coinV1List, coinV2List, idxV2List)
    else Ok (coinV1List, coinV2List, idxV2List).

(** ** chooseBestCoinsByAmount *)

Fixpoint sum_values (coins : list PlainCoin) (total : Z) : res Z :=
  match coins with
  | [] => Ok total
  | c :: coins => let* v := PlainCoin_GetValue c in sum_values coins (u64 (total + v))
  end.

(** The greedy loop, over all coins but the last. *)
Fixpoint choose_loop (coins : list PlainCoin) (i : nat) (remain total : Z)
    : res (list (PlainCoin * nat) * Z) :=
  match coins with
  | c :: ((c' :: _) as rest) =>
      let* v := PlainCoin_GetValue c in
      if remain <? v then
        let* v' := PlainCoin_GetValue c' in
        if remain <=? v' then choose_loop rest (S i) remain total
        else Ok ([(c, i)], u64 (total + v))
      else
        let* (chosen, total) := choose_loop rest (S i) (u64 (remain - v)) (u64 (total + v)) in
        Ok ((c, i) :: chosen, total)
  | _ => Ok ([], total)
  end.

Definition chooseBestCoinsByAmount (coinList : list PlainCoin) (requiredAmount : Z)
    : res (list PlainCoin * list nat) :=
  let* totalInputAmount := sum_values coinList 0 in
  if totalInputAmount <? requiredAmount then Err "total unspent amount is less than the required amount"
  else if totalInputAmount =? requiredAmount then Ok (coinList, seq 0 (length coinList))
  else
    let* (chosen, totalChosenAmount) := choose_loop coinList 0 requiredAmount 0 in
    if totalChosenAmount <? requiredAmount then
      let* c := index coinList (length coinList - 1) in
      let* v := PlainCoin_GetValue c in
      if u64 (totalChosenAmount + v) <? requiredAmount then Err "not enough coin to spend"
      else Ok (map fst chosen ++ [c], map snd chosen ++ [(length coinList - 1)%nat])
    else Ok (map fst chosen, map snd chosen).

(** ** Coins and indices for a transaction *)

Definition getVersionFromInputCoins (inputCoins : list PlainCoin) : res Z :=
  match inputCoins with
  | [] => Err "no coin to check"
  | c :: rest =>
      let version := PlainCoin_GetVersion c in
      if forallb (fun c => PlainCoin_GetVersion c =? version) rest then Ok version
      else Err "expect input coin to have version"
  end.

Fixpoint pick_indices (chosen : list nat) (idxList : list Z) : res (list Z) :=
  match chosen with
  | [] => Ok []
  | i :: chosen =>
      let* x := index idxList i in
      let* rest := pick_indices chosen idxList in
      Ok (x :: rest)
  end.

(** The coins [initParamsV2] (and [initParams] for version 2) spends, with their
    indices: divided, sorted and chosen from the unspent coins. *)
Definition select_coins_v2 `{SS : SliceSort} (utxoList : list PlainCoin) (idxList : option (list (option Z)))
    (totalAmount : Z) : res (list PlainCoin * list Z) :=
  let* (_, coinV2List, idxV2List) := res_wrap "cannot divide coin" (divideCoins utxoList idxList true) in
  let* (coinsToSpend, chosenIdxList) := chooseBestCoinsByAmount coinV2List totalAmount in
  let* myIndices := pick_indices chosenIdxList idxV2List in
  Ok (coinsToSpend, myIndices).

Definition select_coins_v1 `{SS : SliceSort} (utxoList : list PlainCoin) (idxList : option (list (option Z)))
    (totalAmount : Z) : res (list PlainCoin) :=
  let* (coinV1List, _, _) := res_wrap "cannot divide coin" (divideCoins utxoList idxList true) in
  let* (coinsToSpend, _) := chooseBestCoinsByAmount coinV1List totalAmount in
  Ok coinsToSpend.

(** The decoys asked for: seven for each input. *)
Definition lenDecoy (coinsToSpend : list PlainCoin) : nat := (length coinsToSpend * (RingSize - 1))%nat.
End coins.

(** ** estimateNumTxs *)



(** ** Choosing coins: specification and proof *)

Definition sumZ : list Z -> Z := foldr Z.add 0.

(** No value can be left out of a sum that reaches [required]. *)
Definition irredundant (required : Z) (vs : list Z) : Prop :=
  forall w, w ∈ vs -> sumZ vs - w < required.

Definition descending : list Z -> Prop := StronglySorted (fun x y => y <= x).

Lemma sumZ_app l1 l2 : sumZ (l1 ++ l2) = sumZ l1 + sumZ l2.
Proof. induction l1 as [|x l1 IH]; simpl; [reflexivity|]. rewrite IH. lia. Qed.

Lemma sumZ_nonneg l : Forall (Z.le 0) l -> 0 <= sumZ l.
Proof. induction 1; simpl; lia. Qed.

Lemma sumZ_sublist l1 l2 : Forall (Z.le 0) l2 -> l1 `sublist_of` l2 -> sumZ l1 <= sumZ l2.
Proof.
  intros H S. induction S; cbn [sumZ foldr]; [reflexivity|..];
    apply Forall_cons in H as [? H]; specialize (IHS H); unfold sumZ in *; lia.
Qed.

Lemma sublist_last_in (ws : list Z) w vs :
  (ws ++ [w]) `sublist_of` vs -> forall P : Z -> Prop, Forall P vs -> P w.
Proof.
  intros S P H. apply (proj1 (Forall_forall P vs) H).
  apply (elem_of_submseteq (ws ++ [w])); [|by apply sublist_submseteq].
  apply elem_of_app. right. apply list_elem_of_here.
Qed.

Lemma irredundant_cons required v ws :
  0 < v <= required -> (forall x, x ∈ ws -> x <= v) ->
  irredundant (required - v) ws -> irredundant required (v :: ws).
Proof.
  intros V D M x Hx. cbn [sumZ foldr]. fold (sumZ ws).
  assert (sumZ ws < required) as S.
  { destruct ws as [|y ws]; [cbn; lia|].
    specialize (M y (list_elem_of_here _ _)). specialize (D y (list_elem_of_here _ _)). lia. }
  apply elem_of_cons in Hx as [->|Hx]; [lia|]. specialize (M x Hx). lia.
Qed.

Section choosing.
Context `{CO : CurveOps} `{DG : Digests}.

Lemma values_of_app cs1 cs2 vs1 vs2 :
  values_of cs1 = Ok vs1 -> values_of cs2 = Ok vs2 -> values_of (cs1 ++ cs2) = Ok (vs1 ++ vs2).
Proof using Type.
  revert vs1. induction cs1 as [|c cs1 IH]; intros vs1 H1 H2; cbn [values_of res_bind app] in *.
  - injection H1 as <-. exact H2.
  - destruct (PlainCoin_GetValue c) as [v| | |]; try discriminate. cbn [res_bind] in *.
    destruct (values_of cs1) as [vs| | |]; try discriminate. cbn [res_bind] in H1.
    injection H1 as <-. rewrite (IH _ eq_refl H2). reflexivity.
Qed.

Lemma values_of_cons c cs vs :
  values_of (c :: cs) = Ok vs ->
  exists v vs', vs = v :: vs' /\ PlainCoin_GetValue c = Ok v /\ values_of cs = Ok vs'.
Proof using Type.
  cbn [values_of]. destruct (PlainCoin_GetValue c) as [v| | |]; try discriminate. cbn [res_bind].
  destruct (values_of cs) as [vs'| | |]; try discriminate. cbn [res_bind].
  intros [= <-]. eauto.
Qed.

Lemma values_of_length cs vs : values_of cs = Ok vs -> length vs = length cs.
Proof using Type.
  revert vs. induction cs as [|c cs IH]; intros vs H.
  - injection H as <-. reflexivity.
  - apply values_of_cons in H as (v & vs' & -> & _ & H). simpl. f_equal. apply IH, H.
Qed.

(** Values are read coin by coin. *)
Lemma values_of_Forall2 cs vs :
  values_of cs = Ok vs <-> Forall2 (fun c v => PlainCoin_GetValue c = Ok v) cs vs.
Proof using Type.
  split.
  - revert vs. induction cs as [|c cs IH]; intros vs H.
    + injection H as <-. constructor.
    + apply values_of_cons in H as (v & vs' & -> & Hv & H). constructor; auto.
  - induction 1 as [|c v cs vs Hv H IH]; [reflexivity|].
    cbn [values_of]. rewrite Hv. cbn [res_bind]. rewrite IH. reflexivity.
Qed.

Lemma sum_values_spec cs vs total :
  values_of cs = Ok vs -> Forall is_u64 vs -> is_u64 total ->
  sum_values cs total = Ok (u64 (total + sumZ vs)).
Proof using Type.
  revert vs total. induction cs as [|c cs IH]; intros vs total H U T.
  - injection H as <-. cbn. unfold u64. rewrite Z.add_0_r, Z.mod_small; [reflexivity|exact T].
  - apply values_of_cons in H as (v & vs' & -> & Hv & H). apply Forall_cons in U as [_ U].
    cbn [sum_values]. rewrite Hv. cbn [res_bind].
    rewrite (IH vs'); [|exact H|exact U|apply Z.mod_pos_bound; lia].
    unfold u64. rewrite Zplus_mod_idemp_l. cbn [sumZ foldr]. do 2 f_equal. unfold sumZ. lia.
Qed.

(** The greedy loop.  Of coins that reach what remains it chooses a sublist and
    leaves the last coin out; what it misses, the last coin covers. *)
Lemma choose_loop_spec cs : forall vs last i remain total,
  values_of (cs ++ [last]) = Ok vs -> Forall (Z.le 0) vs ->
  0 <= remain <= sumZ vs -> 0 <= total -> total + sumZ vs < 2 ^ 64 ->
  exists ch ws v, choose_loop (cs ++ [last]) i remain total = Ok (ch, total + sumZ ws) /\
    values_of (map fst ch) = Ok ws /\ PlainCoin_GetValue last = Ok v /\
    (ch ++ [(last, (i + length cs)%nat)]) `sublist_of` zip (cs ++ [last]) (seq i (S (length cs))) /\
    (ws ++ [v]) `sublist_of` vs /\
    remain <= sumZ ws + v /\
    (descending vs -> Forall (Z.lt 0) vs -> remain <= sumZ ws -> irredundant remain ws).
Proof using Type.
  induction cs as [|c cs IH]; intros vs last i remain total H P R T B.
  { apply values_of_cons in H as (v & vs' & -> & Hv & H). injection H as <-.
    exists [], [], v. cbn [app choose_loop length map zip zip_with seq]. rewrite Nat.add_0_r.
    change (sumZ []) with 0 in *. rewrite Z.add_0_r. cbn [sumZ foldr] in R.
    repeat split; try assumption; try reflexivity; [lia|].
    intros _ _ _ w Hw. apply not_elem_of_nil in Hw as []. }
  change ((c :: cs) ++ [last]) with (c :: (cs ++ [last])) in H.
  apply values_of_cons in H as (v & vs' & -> & Hv & H).
  apply Forall_cons in P as [Pv P]. cbn [sumZ foldr] in R, B. fold (sumZ vs') in R, B.
  pose proof (sumZ_nonneg _ P) as S0.
  destruct (cs ++ [last]) as [|c' rest] eqn:E; [by destruct cs|].
  assert (exists v', PlainCoin_GetValue c' = Ok v' /\ 0 <= v' <= sumZ vs') as (v' & Hv' & V').
  { apply values_of_cons in H as (v' & vs'' & -> & Hv' & _). exists v'.
    apply Forall_cons in P as [Pv' P]. pose proof (sumZ_nonneg _ P). cbn [sumZ foldr].
    fold (sumZ vs''). split; [exact Hv'|lia]. }
  replace (i + length (c :: cs))%nat with (S i + length cs)%nat by (simpl; lia).
  cbn [app choose_loop length seq zip zip_with]. rewrite E, Hv. cbn [res_bind].
  destruct (remain <? v) eqn:E1; to_prop; [rewrite Hv'; cbn [res_bind]; destruct (remain <=? v') eqn:E2; to_prop|].
  - destruct (IH vs' last (S i) remain total) as (ch & ws & w & HC & HW & HL & SC & SV & RW & MIN);
      [congruence|assumption|lia|assumption|lia|].
    exists ch, ws, w. rewrite E in HC, SC. rewrite HC.
    repeat split; try assumption; [by apply sublist_cons..|].
    intros D PP. apply Forall_cons in PP as [_ PP]. apply StronglySorted_inv in D as [D _]. by apply MIN.
  - destruct (IH vs' last (S i) 0 0) as (ch & ws & w & _ & _ & HL & SC & SV & _);
      [congruence|assumption|lia|lia|lia|].
    exists [(c, i)], [v], w. cbn [sumZ foldr map fst values_of]. rewrite Hv. cbn [res_bind app].
    rewrite E in SC. unfold u64. rewrite Z.add_0_r, Z.mod_small by lia.
    repeat split; try assumption; try reflexivity.
    + apply sublist_skip. etransitivity; [|exact SC]. by apply sublist_inserts_l.
    + apply sublist_skip. etransitivity; [|exact SV]. by apply sublist_inserts_l.
    + assert (0 <= w); [|lia]. by apply (sublist_last_in ws w vs' SV (Z.le 0)).
    + intros _ _ _ x Hx. apply list_elem_of_singleton in Hx as ->. cbn [sumZ foldr]. lia.
  - destruct (IH vs' last (S i) (remain - v) (total + v)) as (ch & ws & w & HC & HW & HL & SC & SV & RW & MIN);
      [congruence|assumption|lia|lia|lia|].
    exists ((c, i) :: ch), (v :: ws), w. unfold u64. rewrite !Z.mod_small by lia.
    rewrite E in HC, SC. rewrite HC. cbn [res_bind map fst values_of]. rewrite Hv. cbn [res_bind]. rewrite HW.
    cbn [sumZ foldr app]. fold (sumZ ws). repeat split; try assumption.
    + do 2 f_equal. lia.
    + by apply sublist_skip.
    + by apply sublist_skip.
    + lia.
    + intros D PP G. apply Forall_cons in PP as [PV PP]. apply StronglySorted_inv in D as [D DV].
      apply irredundant_cons; [lia| |apply MIN; (assumption || lia)].
      intros x Hx. apply (proj1 (Forall_forall _ _) DV), (elem_of_submseteq ws); [exact Hx|].
      apply sublist_submseteq. etransitivity; [|exact SV]. by apply sublist_inserts_r.
Qed.
End choosing.

(** What a choice of coins with their positions promises: a sublist of the
    coins, in order, whose values reach the amount, and none too many when the
    values are positive and descending. *)
Definition covers `{CO : CurveOps} `{DG : Digests} (coins : list PlainCoin) (vs : list Z) (required : Z)
    (r : list PlainCoin * list nat) : Prop :=
  length (fst r) = length (snd r) /\
  zip (fst r) (snd r) `sublist_of` zip coins (seq 0 (length coins)) /\
  exists ws, values_of (fst r) = Ok ws /\ required <= sumZ ws /\
    (descending vs -> Forall (Z.lt 0) vs -> irredundant required ws).

Lemma u64_nonneg vs : Forall is_u64 vs -> Forall (Z.le 0) vs.
Proof. intros H. eapply Forall_impl; [exact H|]. intros x [Hx _]. exact Hx. Qed.

Lemma irredundant_total vs : Forall (Z.lt 0) vs -> irredundant (sumZ vs) vs.
Proof. intros H w Hw. pose proof (proj1 (Forall_forall _ _) H w Hw). simpl in *. lia. Qed.

(** The last coin, added when what precedes it falls short. *)
Lemma irredundant_snoc required ws w vs :
  descending vs -> Forall (Z.lt 0) vs -> (ws ++ [w]) `sublist_of` vs ->
  sumZ ws < required -> irredundant required (ws ++ [w]).
Proof.
  intros D P S R x Hx. rewrite sumZ_app. cbn [sumZ foldr].
  assert (w <= x); [|lia]. clear R P. revert ws S Hx.
  induction vs as [|v vs IH]; intros ws S Hx.
  { apply sublist_nil_r in S. by destruct ws. }
  apply StronglySorted_inv in D as [D DV]. specialize (IH D).
  apply sublist_cons_r in S as [S|(l' & E & S)]; [by apply (IH ws)|].
  destruct ws as [|y ws]; injection E as E <-.
  - apply list_elem_of_singleton in Hx as ->. reflexivity.
  - subst y. change ((v :: ws) ++ [w]) with (v :: (ws ++ [w])) in Hx.
    apply elem_of_cons in Hx as [->|Hx]; [|by apply (IH ws)].
    apply (sublist_last_in ws w vs S (fun w => w <= v) DV).
Qed.

Section choosing_all.
Context `{CO : CurveOps} `{DG : Digests}.

Lemma zip_fst_snd {A B} (l : list (A * B)) : zip (map fst l) (map snd l) = l.
Proof using Type. induction l as [|[a b] l IH]; simpl; [reflexivity|]. by rewrite IH. Qed.

Lemma length_fst_snd {A B} (l : list (A * B)) : length (map fst l) = length (map snd l).
Proof using Type. by rewrite !length_map. Qed.

Lemma choose_spec coins vs required :
  values_of coins = Ok vs -> Forall is_u64 vs -> is_u64 required -> sumZ vs < 2 ^ 64 ->
  if sumZ vs <? required
  then chooseBestCoinsByAmount coins required = Err "total unspent amount is less than the required amount"
  else exists r, chooseBestCoinsByAmount coins required = Ok r /\ covers coins vs required r.
Proof using Type.
  intros H U [R _] B. pose proof (u64_nonneg _ U) as P. pose proof (sumZ_nonneg _ P) as S0.
  unfold chooseBestCoinsByAmount. rewrite (sum_values_spec coins vs 0 H U) by (unfold is_u64; lia).
  unfold u64. rewrite Z.add_0_l, Z.mod_small by lia. cbn [res_bind].
  destruct (sumZ vs <? required) eqn:E1; [reflexivity|].
  destruct (sumZ vs =? required) eqn:E2; to_prop.
  { eexists. split; [reflexivity|]. unfold covers. cbn [fst snd]. rewrite length_seq.
    split; [reflexivity|]. split; [reflexivity|]. exists vs. split; [exact H|]. split; [lia|].
    intros _ PP. rewrite <- E2. by apply irredundant_total. }
  destruct coins as [|last cs _] using rev_ind; [injection H as <-; simpl in *; lia|].
  destruct (choose_loop_spec cs vs last 0 required 0) as (ch & ws & v & HC & HW & HL & SC & SV & RW & MIN);
    [assumption|assumption|lia|lia|lia|].
  rewrite HC, Z.add_0_l in *. cbn [res_bind].
  pose proof (sumZ_sublist _ _ P SV) as LE. rewrite sumZ_app in LE. cbn [sumZ foldr] in LE. fold (sumZ ws) in LE.
  assert (length (cs ++ [last]) = S (length cs)) as L by (rewrite length_app; simpl; lia).
  destruct (sumZ ws <? required) eqn:E3; to_prop.
  - rewrite L, Nat.sub_succ, Nat.sub_0_r, index_middle by reflexivity. cbn [res_bind]. rewrite HL. cbn [res_bind].
    assert (0 <= v) by (by apply (sublist_last_in ws v vs SV (Z.le 0))).
    assert (0 <= sumZ ws).
    { apply sumZ_nonneg. apply Forall_forall. intros x Hx. apply (proj1 (Forall_forall _ _) P).
      apply (elem_of_submseteq ws); [exact Hx|]. apply sublist_submseteq. etransitivity; [|exact SV]. by apply sublist_inserts_r. }
    rewrite Z.mod_small by lia. destruct (sumZ ws + v <? required) eqn:E4; to_prop; [lia|].
    eexists. split; [reflexivity|]. unfold covers. cbn [fst snd].
    change (map fst ch ++ [last]) with (map fst ch ++ map fst [(last, length cs)]).
    change (map snd ch ++ [length cs]) with (map snd ch ++ map snd [(last, length cs)]).
    rewrite <- !map_app, zip_fst_snd, L. split; [apply length_fst_snd|]. split; [exact SC|].
    exists (ws ++ [v]). split; [rewrite map_app; apply values_of_app; [exact HW|simpl; by rewrite HL]|].
    rewrite sumZ_app. cbn [sumZ foldr]. split; [fold (sumZ ws); lia|].
    intros D PP. by apply (irredundant_snoc required ws v vs).
  - eexists. split; [reflexivity|]. unfold covers. cbn [fst snd]. rewrite zip_fst_snd, L.
    split; [apply length_fst_snd|]. split; [etransitivity; [|exact SC]; by apply sublist_inserts_r|].
    exists ws. split; [exact HW|]. split; [lia|]. intros D PP. apply MIN; (assumption || lia).
Qed.

Lemma u64_id z : is_u64 z -> u64 z = z.
Proof using Type. intros Hz. unfold u64. by apply Z.mod_small. Qed.

Lemma u64_range z : is_u64 (u64 z).
Proof using Type. by apply Z.mod_pos_bound. Qed.

Lemma u64_le z : 0 <= z -> u64 z <= z.
Proof using Type. intros Hz. unfold u64. by apply Z.mod_le. Qed.

(** Whatever the values: what the greedy loop returns are coins of the list with their
    positions, and a total modulo [2 ^ 64]. *)
Lemma choose_loop_any cs : forall vs i remain total, values_of cs = Ok vs -> is_u64 total ->
  exists ch ws, choose_loop cs i remain total = Ok (ch, u64 (total + sumZ ws)) /\ values_of (map fst ch) = Ok ws /\
    ch `sublist_of` zip (removelast cs) (seq i (length (removelast cs))) /\ ws `sublist_of` removelast vs.
Proof using Type.
  induction cs as [|c cs IH]; intros vs i remain total Hv Ht.
  { injection Hv as <-. exists [], []. cbn. rewrite Z.add_0_r, (u64_id total Ht). by repeat split. }
  apply values_of_cons in Hv as (v & vs' & -> & Hv & Hvs). destruct cs as [|c' cs].
  { injection Hvs as <-. exists [], []. cbn. rewrite Z.add_0_r, (u64_id total Ht). by repeat split. }
  pose proof Hvs as Hvs'. apply values_of_cons in Hvs' as (v' & vs'' & -> & Hv' & _).
  change (choose_loop (c :: c' :: cs) i remain total) with
    (let* v := PlainCoin_GetValue c in
     if remain <? v then
       let* v' := PlainCoin_GetValue c' in
       if remain <=? v' then choose_loop (c' :: cs) (S i) remain total else Ok ([(c, i)], u64 (total + v))
     else let* (chosen, total) := choose_loop (c' :: cs) (S i) (u64 (remain - v)) (u64 (total + v)) in Ok ((c, i) :: chosen, total)).
  change (removelast (c :: c' :: cs)) with (c :: removelast (c' :: cs)).
  change (removelast (v :: v' :: vs'')) with (v :: removelast (v' :: vs'')). cbn [length seq zip zip_with].
  rewrite Hv. cbn [res_bind]. destruct (remain <? v); [rewrite Hv'; cbn [res_bind]; destruct (remain <=? v')|].
  - destruct (IH _ (S i) remain total Hvs Ht) as (ch & ws & E & W & S1 & S2). exists ch, ws. by repeat (split; [done || by apply sublist_cons|]); apply sublist_cons.
  - exists [(c, i)], [v]. cbn [map fst values_of sumZ foldr]. rewrite Hv, Z.add_0_r. cbn [res_bind]. split; [done|]. split; [done|].
    split; apply sublist_skip, sublist_nil_l.
  - destruct (IH _ (S i) (u64 (remain - v)) (u64 (total + v)) Hvs (u64_range _)) as (ch & ws & E & W & S1 & S2).
    exists ((c, i) :: ch), (v :: ws). rewrite E. cbn [res_bind map fst values_of sumZ foldr]. rewrite Hv. cbn [res_bind]. rewrite W. cbn [res_bind].
    fold (sumZ ws). rewrite u64_add. split; [do 3 f_equal; lia|]. split; [done|]. split; by apply sublist_skip.
Qed.

(** Coins of the list with their positions, whose values reach the amount. *)
Definition reaches (coins : list PlainCoin) (required : Z) (r : list PlainCoin * list nat) : Prop :=
  length (fst r) = length (snd r) /\
  zip (fst r) (snd r) `sublist_of` zip coins (seq 0 (length coins)) /\
  exists ws, values_of (fst r) = Ok ws /\ required <= sumZ ws.

Lemma choose_any coins vs required : values_of coins = Ok vs -> Forall is_u64 vs -> is_u64 required ->
  required <= u64 (sumZ vs) ->
  chooseBestCoinsByAmount coins required = Err "not enough coin to spend" \/
  exists r, chooseBestCoinsByAmount coins required = Ok r /\ reaches coins required r.
Proof using Type.
  intros Hv Hu [Hr _] Hle. pose proof (u64_nonneg _ Hu) as Hp. unfold chooseBestCoinsByAmount.
  rewrite (sum_values_spec coins vs 0 Hv Hu), Z.add_0_l by (unfold is_u64; lia). cbn [res_bind].
  rewrite (proj2 (Z.ltb_ge _ _) Hle). destruct (u64 (sumZ vs) =? required) eqn:E; to_prop.
  { right. eexists. split; [reflexivity|]. unfold reaches. cbn [fst snd]. rewrite length_seq. split; [reflexivity|]. split; [reflexivity|]. exists vs. split; [exact Hv|].
    pose proof (u64_le _ (sumZ_nonneg _ Hp)). lia. }
  destruct coins as [|last cs _] using rev_ind; [injection Hv as <-; exfalso; change (u64 (sumZ [])) with 0 in *; lia|].
  destruct (choose_loop_any (cs ++ [last]) vs 0 required 0 Hv ltac:(unfold is_u64; lia)) as (ch & ws & El & Hw & S1 & S2).
  rewrite El, Z.add_0_l. cbn [res_bind]. rewrite removelast_last in S1. apply values_of_Forall2, Forall2_app_inv_l in Hv as (vs' & vl & _ & Hl & ->).
  apply Forall2_cons_inv_l in Hl as (v & vn & Hlast & Hn & ->). apply Forall2_nil_inv_l in Hn. subst vn.
  rewrite removelast_last in S2. apply Forall_app in Hp as [Hp Hpv]. apply Forall_inv in Hpv.
  assert (0 <= sumZ ws) as Hws by (apply sumZ_nonneg, Forall_forall; intros x Hx; apply (proj1 (Forall_forall _ _) Hp), (elem_of_submseteq ws); [exact Hx|by apply sublist_submseteq]).
  assert (zip (cs ++ [last]) (seq 0 (length (cs ++ [last]))) = zip cs (seq 0 (length cs)) ++ [(last, length cs)]) as Ez.
  { rewrite length_app, Nat.add_1_r, seq_S, zip_with_app by (by rewrite length_seq). reflexivity. }
  assert (length (cs ++ [last]) = S (length cs)) as L by (rewrite length_app; simpl; lia).
  destruct (u64 (sumZ ws) <? required) eqn:E1; to_prop.
  - rewrite L, Nat.sub_succ, Nat.sub_0_r, index_middle by reflexivity. cbn [res_bind]. rewrite Hlast. cbn [res_bind].
    rewrite u64_add. destruct (u64 (sumZ ws + v) <? required) eqn:E2; to_prop; [by left|]. right. eexists. split; [reflexivity|].
    unfold reaches. cbn [fst snd]. change [last] with (map fst [(last, length cs)]) at 2. change [length cs] with (map snd [(last, length cs)]).
    change (map fst ch ++ [last]) with (map fst ch ++ map fst [(last, length cs)]).
    rewrite <- !map_app, zip_fst_snd. split; [apply length_fst_snd|]. split; [rewrite Ez; by apply sublist_app|].
    exists (ws ++ [v]). split; [rewrite map_app; apply values_of_app; [exact Hw|simpl; by rewrite Hlast]|].
    rewrite sumZ_app. cbn [sumZ foldr]. assert (0 <= v) as Hv0 by exact Hpv. assert (0 <= sumZ ws + v) as Hs0 by lia. pose proof (u64_le _ Hs0). fold (sumZ ws). lia.
  - right. eexists. split; [reflexivity|]. unfold reaches. cbn [fst snd]. rewrite zip_fst_snd. split; [apply length_fst_snd|].
    split; [rewrite Ez; by apply sublist_inserts_r|]. exists ws. split; [exact Hw|]. pose proof (u64_le _ Hws). lia.
Qed.

(** Coins of these values. *)
Definition coins_of (vs : list Z) : list PlainCoin := map (fun v => PlainV1 (mkPlainCoinV1 None None None None None v [])) vs.

(** C28: [chooseBestCoinsByAmount].  When the total of the coins fits 64 bits, it fails
    exactly when the total is less than the amount, with that message and no other, and
    else returns coins of the list, in their order and each once, with their positions,
    whose values reach the amount; on positive values in descending order (what
    [divideCoins] hands it) no returned coin is superfluous.  When the total does not
    fit, the total modulo [2 ^ 64] is compared: below the amount, the coins are refused
    though they may be enough; else what is returned is enough, but the call may also
    end with "not enough coin to spend", as it does for five coins of [2 ^ 63] and two
    of 4 when [2 ^ 63 + 5] is required. *)
Theorem choose_correct coins vs required :
  values_of coins = Ok vs -> Forall is_u64 vs -> is_u64 required ->
  (sumZ vs < 2 ^ 64 ->
     if sumZ vs <? required
     then chooseBestCoinsByAmount coins required = Err "total unspent amount is less than the required amount"
     else exists r, chooseBestCoinsByAmount coins required = Ok r /\ covers coins vs required r) /\
  (u64 (sumZ vs) < required ->
     chooseBestCoinsByAmount coins required = Err "total unspent amount is less than the required amount") /\
  (required <= u64 (sumZ vs) ->
     chooseBestCoinsByAmount coins required = Err "not enough coin to spend" \/
     exists r, chooseBestCoinsByAmount coins required = Ok r /\ reaches coins required r) /\
  chooseBestCoinsByAmount (coins_of [2 ^ 63; 2 ^ 63; 2 ^ 63; 2 ^ 63; 2 ^ 63; 4; 4]) (2 ^ 63 + 5) = Err "not enough coin to spend".
Proof using Type.
  intros H U R. split; [by apply choose_spec|]. split; [|split; [by apply choose_any|reflexivity]]. intros W.
  unfold chooseBestCoinsByAmount. rewrite (sum_values_spec coins vs 0 H U) by (unfold is_u64; lia).
  rewrite Z.add_0_l. cbn [res_bind]. by rewrite (proj2 (Z.ltb_lt _ _) W).
Qed.
End choosing_all.

(** ** The estimate of the number of transactions *)







(** ** Dividing coins and keeping their indices *)

Section dividing.
Context `{CO : CurveOps} `{DG : Digests}.

Definition is_v2 (c : PlainCoin) : Prop := PlainCoin_GetVersion c = 2.
#[export] Instance is_v2_dec c : Decision (is_v2 c) := decide (PlainCoin_GetVersion c = 2).

(** What an unspent coin of version 2 comes with: a public key and an index of
    64 bits. *)
Definition has_index (c : PlainCoin) (o : option Z) : Prop :=
  is_v2 c -> is_Some (PlainCoin_GetPublicKey c) /\ exists x, o = Some x /\ is_u64 x.

(** The coin and the index are at the same position of the lists. *)
Definition own_index (coins : list PlainCoin) (idx : list (option Z)) (c : PlainCoin) (x : Z) : Prop :=
  exists i, coins !! i = Some c /\ idx !! i = Some (Some x).

Lemma bigint_uint64_small x : is_u64 x -> bigint_uint64 x = x.
Proof using Type. intros [X0 X1]. unfold bigint_uint64, u64. rewrite Z.abs_eq, Z.mod_small; lia. Qed.

Lemma divide_loop_spec coins : forall pre idx,
  Forall2 has_index coins idx ->
  exists ixs, divide_loop coins (length pre) (Some (pre ++ idx)) =
    Ok (filter (fun c => ~ is_v2 c) coins, filter is_v2 coins, ixs).
Proof using Type.
  induction coins as [|c coins IH]; intros pre idx H; [eexists; reflexivity|].
  inversion H as [|? o ? idx' H1 H2]; subst. cbn [divide_loop].
  destruct (IH (pre ++ [o]) idx' H2) as [ixs Hi].
  rewrite length_app, Nat.add_1_r, <- app_assoc in Hi. cbn [app] in Hi.
  rewrite !filter_cons. destruct (PlainCoin_GetVersion c =? 2) eqn:V; to_prop.
  - destruct (H1 V) as (_ & x & -> & _). rewrite index_middle by reflexivity. cbn [res_bind].
    rewrite Hi. cbn [res_bind]. rewrite decide_False by (unfold is_v2; tauto).
    rewrite decide_True by exact V. eexists. reflexivity.
  - rewrite Hi. cbn [res_bind]. rewrite decide_True, decide_False by exact V. eexists. reflexivity.
Qed.

(** The search for a public key stops at the coin that has it. *)
Lemma find_index_spec coins : forall pre idx c x,
  Forall2 has_index coins idx -> NoDup (PlainCoin_GetPublicKey <$> filter is_v2 coins) ->
  own_index coins idx c x -> is_v2 c -> is_u64 x ->
  find_index (PlainCoin_GetPublicKey c) coins (length pre) (pre ++ idx) = Ok [x].
Proof using Type.
  induction coins as [|d coins IH]; intros pre idx c x H ND (i & Hc & Hx) V X; [discriminate|].
  inversion H as [|? o ? idx' H1 H2]; subst. cbn [find_index].
  assert (forall i, i <> 0%nat -> (d :: coins) !! i = Some c -> (o :: idx') !! i = Some (Some x) ->
            NoDup (PlainCoin_GetPublicKey <$> filter is_v2 coins) ->
            find_index (PlainCoin_GetPublicKey c) coins (S (length pre)) (pre ++ o :: idx') = Ok [x]) as REST.
  { intros [|j] Hj Hcj Hxj ND'; [done|].
    specialize (IH (pre ++ [o]) idx' c x H2 ND'). rewrite length_app, Nat.add_1_r, <- app_assoc in IH.
    apply IH; [exists j; split; assumption|assumption|assumption]. }
  rewrite filter_cons in ND. destruct (PlainCoin_GetVersion d =? 2) eqn:E; to_prop; cbn [negb].
  - rewrite decide_True in ND by exact E. cbn [fmap list_fmap] in ND. apply NoDup_cons in ND as [NI ND].
    destruct (H1 E) as ((pk & Hpk) & y & -> & Hy). rewrite Hpk in *. cbn [deref res_bind].
    destruct i as [|i].
    + injection Hc as ->. injection Hx as ->. rewrite Hpk. cbn [deref res_bind].
      rewrite bool_decide_true by reflexivity. rewrite index_middle by reflexivity. cbn [deref res_bind].
      by rewrite bigint_uint64_small.
    + pose proof Hc as Hm. cbn in Hm. apply list_elem_of_lookup_2 in Hm.
      destruct (PlainCoin_GetPublicKey c) as [pk'|] eqn:Hpk'.
      2: { exfalso. destruct (Forall2_lookup_l _ _ _ _ _ H2 Hc) as (? & _ & G). destruct (G V) as [[? G'] _]. congruence. }
      cbn [deref res_bind]. rewrite bool_decide_false.
      2: { intros ->. apply NI. apply list_elem_of_fmap. exists c. split; [congruence|]. by apply list_elem_of_filter. }
      apply (REST (S i)); [lia|assumption|assumption|assumption].
  - rewrite decide_False in ND by exact E.
    destruct i as [|i]; [injection Hc as ->; contradiction|]. apply (REST (S i)); [lia|assumption|assumption|assumption].
Qed.

Lemma list_idx_spec coins idx cs :
  Forall2 has_index coins idx -> NoDup (PlainCoin_GetPublicKey <$> filter is_v2 coins) ->
  Forall (fun c => c ∈ coins /\ is_v2 c) cs ->
  exists ixs, list_idx_loop cs coins idx = Ok ixs /\ Forall2 (own_index coins idx) cs ixs.
Proof using Type.
  intros H ND. induction 1 as [|c cs [Hc V] F (ixs & Hi & FI)]; [exists []; split; [reflexivity|constructor]|].
  apply list_elem_of_lookup in Hc as [i Hc].
  destruct (Forall2_lookup_l _ _ _ _ _ H Hc) as (o & Ho & G). destruct (G V) as (_ & x & -> & X).
  assert (own_index coins idx c x) as O by (exists i; split; assumption).
  pose proof (find_index_spec coins [] idx c x H ND O V X) as E. cbn [length app] in E.
  exists (x :: ixs). cbn [list_idx_loop]. rewrite E. cbn [res_bind]. rewrite Hi. cbn [res_bind app]. split; [reflexivity|]. by constructor.
Qed.

Lemma values_of_perm cs cs' vs vs' :
  cs' ≡ₚ cs -> values_of cs' = Ok vs' -> values_of cs = Ok vs -> vs ≡ₚ vs'.
Proof using Type.
  intros P. revert vs vs'. induction P as [|c l l' P IH|c d l|l1 l2 l3 P1 IH1 P2 IH2]; intros vs vs' H' H.
  - injection H as <-. injection H' as <-. reflexivity.
  - apply values_of_cons in H as (v & ws & -> & Hc & H). apply values_of_cons in H' as (v' & ws' & -> & Hc' & H').
    assert (v = v') as -> by congruence. constructor. by apply IH.
  - apply values_of_cons in H as (v & ws & -> & Hc & H). apply values_of_cons in H as (w & ws2 & -> & Hd & H).
    apply values_of_cons in H' as (v' & ws' & -> & Hc' & H'). apply values_of_cons in H' as (w' & ws2' & -> & Hd' & H').
    replace v' with w by congruence. replace w' with v by congruence. replace ws2' with ws2 by congruence. constructor.
  - assert (exists ws, values_of l2 = Ok ws) as [ws Hw].
    { assert (Forall (fun c => exists v, PlainCoin_GetValue c = Ok v) l2) as F.
      { rewrite P2. apply values_of_Forall2 in H. clear -H. induction H; eauto. }
      clear -F. induction F as [|c l [v Hv] F [ws IH]]; [by exists []|].
      exists (v :: ws). cbn [values_of]. rewrite Hv. cbn [res_bind]. by rewrite IH. }
    rewrite (IH2 vs ws Hw H). by apply IH1.
Qed.

Context `{SS : SliceSort} {SL : SliceSortLaws}.

Lemma sort_coins_spec cs vs :
  values_of cs = Ok vs ->
  exists cs' vs', sort_coins cs = Ok cs' /\ cs' ≡ₚ cs /\ values_of cs' = Ok vs' /\ vs' ≡ₚ vs /\ descending vs'.
Proof using All.
  intros Hv. unfold sort_coins. destruct (length cs <=? 1)%nat eqn:L; to_prop.
  { exists cs, vs. repeat split; [reflexivity|exact Hv|reflexivity|].
    pose proof (values_of_length cs vs Hv). destruct vs as [|v [|]]; [by repeat constructor..|simpl in *; lia]. }
  rewrite Hv. cbn [res_bind]. set (l := zip vs cs).
  set (l' := sort_slice (fun x y => fst y <? fst x) l).
  assert (l' ≡ₚ l) as P by apply sort_slice_perm.
  assert (map snd l = cs) as Es by (apply snd_zip; rewrite (values_of_length cs vs Hv); lia).
  assert (map fst l = vs) as Ef by (apply fst_zip; rewrite (values_of_length cs vs Hv); lia).
  exists (map snd l'), (map fst l'). split; [reflexivity|].
  split; [rewrite P, Es; reflexivity|]. split.
  - apply values_of_Forall2. apply Forall2_fmap, Forall_Forall2_diag. rewrite P.
    apply Forall_forall. intros [v c] Hvc. apply list_elem_of_lookup in Hvc as [i Hi].
    apply lookup_zip_Some in Hi as [H1 H2].
    apply values_of_Forall2 in Hv. exact (Forall2_lookup_lr _ _ _ _ _ _ Hv H2 H1).
  - split; [rewrite P, Ef; reflexivity|]. unfold descending.
    pose proof (sort_slice_sorted _ fst l) as S. fold l' in S. clearbody l'. clear P Es Ef.
    induction S as [|x l' S IH F]; simpl; constructor; [exact IH|].
    apply Forall_fmap. exact F.
Qed.

Lemma values_of_filter P `{!forall c, Decision (P c)} coins vs :
  values_of coins = Ok vs -> Forall is_u64 vs ->
  exists ws, values_of (filter P coins) = Ok ws /\ Forall is_u64 ws /\ sumZ ws <= sumZ vs /\
    (Forall (Z.lt 0) vs -> Forall (Z.lt 0) ws).
Proof using Type.
  revert vs. induction coins as [|c coins IH]; intros vs Hv U.
  { injection Hv as <-. exists []. repeat split; auto. reflexivity. }
  apply values_of_cons in Hv as (v & vs' & -> & Hc & Hv). apply Forall_cons in U as [[U0 U1] U].
  destruct (IH vs' Hv U) as (ws & Hw & UW & LE & PW). rewrite filter_cons.
  cbn [sumZ foldr]. fold (sumZ vs').
  destruct (decide (P c)).
  - exists (v :: ws). cbn [values_of sumZ foldr]. rewrite Hc. cbn [res_bind]. rewrite Hw. fold (sumZ ws).
    split; [reflexivity|]. split; [by repeat constructor|]. split; [lia|].
    intros PP. apply Forall_cons in PP as [? PP]. auto.
  - exists ws. split; [exact Hw|]. split; [exact UW|]. split; [lia|].
    intros PP. apply Forall_cons in PP as [_ PP]. auto.
Qed.

(** [divideCoins] on unspent coins with their indices: both versions in
    descending order, and every coin of version 2 with its own index. *)
Lemma divideCoins_spec coins idx vs :
  Forall2 has_index coins idx -> NoDup (PlainCoin_GetPublicKey <$> filter is_v2 coins) ->
  values_of coins = Ok vs -> Forall is_u64 vs ->
  exists v1 v2 ixs vs1 vs2, divideCoins coins (Some idx) true = Ok (v1, v2, ixs) /\
    v1 ≡ₚ filter (fun c => ~ is_v2 c) coins /\ values_of v1 = Ok vs1 /\ descending vs1 /\
    v2 ≡ₚ filter is_v2 coins /\ values_of v2 = Ok vs2 /\ descending vs2 /\
    Forall is_u64 vs2 /\ sumZ vs2 <= sumZ vs /\ (Forall (Z.lt 0) vs -> Forall (Z.lt 0) vs2) /\
    Forall2 (own_index coins idx) v2 ixs.
Proof using All.
  intros H ND Hv U. unfold divideCoins.
  rewrite (proj2 (Nat.eqb_eq _ _) (Forall2_length _ _ _ H)). cbn [negb].
  destruct (divide_loop_spec coins [] idx H) as [ixs0 E0]. cbn [length app] in E0. rewrite E0. cbn [res_bind].
  destruct (values_of_filter (fun c => ~ is_v2 c) coins vs Hv U) as (w1 & W1 & _).
  destruct (values_of_filter is_v2 coins vs Hv U) as (w2 & W2 & U2 & LE2 & PP2).
  destruct (sort_coins_spec _ _ W1) as (v1 & vs1 & -> & P1 & V1 & _ & D1).
  destruct (sort_coins_spec _ _ W2) as (v2 & vs2 & -> & P2 & V2 & PV2 & D2). cbn [res_bind].
  destruct (list_idx_spec coins idx v2 H ND) as (ixs & Hi & FI).
  { rewrite P2. apply Forall_forall. intros c Hc. apply list_elem_of_filter in Hc as [? ?]. split; assumption. }
  assert (getListIdx v2 coins (Some idx) = Ok ixs) as ->.
  { unfold getListIdx. destruct idx as [|o idx].
    - inversion FI as [|? ? ? ? (i & _ & G)]; [reflexivity|]. discriminate.
    - rewrite Hi. cbn [res_bind]. by rewrite (Forall2_length _ _ _ FI), Nat.eqb_refl. }
  cbn [res_bind]. exists v1, v2, ixs, vs1, vs2.
  repeat split; try assumption; [by rewrite PV2| |intros PP; rewrite PV2; auto].
  etransitivity; [|exact LE2]. clear -PV2. induction PV2; cbn [sumZ foldr] in *; unfold sumZ in *; lia.
Qed.

Lemma pick_indices_spec (R : PlainCoin -> Z -> Prop) coins ixs cs ns :
  Forall2 R coins ixs -> length cs = length ns -> zip cs ns `sublist_of` zip coins (seq 0 (length coins)) ->
  exists xs, pick_indices ns ixs = Ok xs /\ Forall2 R cs xs.
Proof using Type.
  intros F L S.
  assert (forall p, p ∈ zip cs ns -> coins !! snd p = Some (fst p)) as G.
  { intros [c n] Hp. apply (elem_of_submseteq _ _ _ Hp), list_elem_of_lookup in S || idtac.
    pose proof (elem_of_submseteq _ _ _ Hp (sublist_submseteq _ _ S)) as Hz.
    apply list_elem_of_lookup in Hz as [i Hi]. apply lookup_zip_Some in Hi as [H1 H2].
    apply lookup_seq in H2 as [-> _]. exact H1. }
  clear S. revert ns L G. induction cs as [|c cs IH]; intros [|n ns] L G; try discriminate.
  - exists []. split; [reflexivity|constructor].
  - injection L as L. destruct (IH ns L) as (xs & Hx & FX); [intros p Hp; apply G; by right|].
    pose proof (G (c, n) (list_elem_of_here _ _)) as Hc. cbn [fst snd] in Hc.
    destruct (Forall2_lookup_l _ _ _ _ _ F Hc) as (x & Hn & HR).
    exists (x :: xs). cbn [pick_indices]. rewrite (index_ok _ _ _ Hn). cbn [res_bind]. rewrite Hx.
    split; [reflexivity|]. by constructor.
Qed.

Lemma submseteq_of_zip {A B} (l k : list A) (a b : list B) :
  length l = length a -> length k = length b -> zip l a `sublist_of` zip k b -> l `sublist_of` k.
Proof using Type.
  intros L1 L2 S. rewrite <- (fst_zip l a), <- (fst_zip k b) by lia.
  clear -S. induction S; simpl; by constructor.
Qed.

Lemma select_coins_v2_spec coins idx vs required :
  Forall2 has_index coins idx -> NoDup (PlainCoin_GetPublicKey <$> filter is_v2 coins) ->
  values_of coins = Ok vs -> Forall is_u64 vs -> sumZ vs < 2 ^ 64 -> is_u64 required ->
  exists ws, values_of (filter is_v2 coins) = Ok ws /\
    if sumZ ws <? required
    then select_coins_v2 coins (Some idx) required = Err "total unspent amount is less than the required amount"
    else exists cs xs us, select_coins_v2 coins (Some idx) required = Ok (cs, xs) /\
      cs ⊆+ filter is_v2 coins /\ Forall2 (own_index coins idx) cs xs /\
      values_of cs = Ok us /\ required <= sumZ us /\ (Forall (Z.lt 0) vs -> irredundant required us).
Proof using All.
  intros H ND Hv U B R. unfold select_coins_v2.
  destruct (values_of_filter is_v2 coins vs Hv U) as (ws & W & _). exists ws. split; [exact W|].
  destruct (divideCoins_spec coins idx vs H ND Hv U)
    as (v1 & v2 & ixs & vs1 & vs2 & -> & _ & _ & _ & P2 & V2 & D2 & U2 & LE & PP & FI).
  cbn [res_wrap res_bind].
  assert (sumZ ws = sumZ vs2) as ->.
  { pose proof (values_of_perm _ _ _ _ P2 V2 W) as P. clear -P.
    induction P; cbn [sumZ foldr] in *; unfold sumZ in *; lia. }
  assert (sumZ vs2 < 2 ^ 64) as B2 by lia.
  pose proof (choose_spec v2 vs2 required V2 U2 R B2) as C.
  destruct (sumZ vs2 <? required); [rewrite C; reflexivity|].
  destruct C as ((cs & ns) & -> & L & S & us & Hu & GE & MIN). cbn [fst snd] in *. cbn [res_bind].
  destruct (pick_indices_spec _ v2 ixs cs ns FI L S) as (xs & -> & FX). cbn [res_bind].
  exists cs, xs, us. split; [reflexivity|]. split.
  { rewrite <- P2. apply sublist_submseteq. eapply submseteq_of_zip; [exact L| |exact S]. by rewrite length_seq. }
  repeat split; try assumption. auto.
Qed.

(** C16: selecting inputs of version 2 for a transaction.  From unspent coins
    with distinct public keys, listed with their indices, whose total fits 64
    bits, the selection fails exactly when the coins of version 2 do not reach
    the amount; otherwise it returns coins of version 2 out of the list, none
    twice, each with the index it was listed with although the coins have been
    sorted in between, that reach the amount, none superfluous when the values
    are positive. *)
Theorem select_coins_v2_correct coins idx vs required :
  Forall2 has_index coins idx -> NoDup (PlainCoin_GetPublicKey <$> filter is_v2 coins) ->
  values_of coins = Ok vs -> Forall is_u64 vs -> sumZ vs < 2 ^ 64 -> is_u64 required ->
  exists ws, values_of (filter is_v2 coins) = Ok ws /\
    if sumZ ws <? required
    then select_coins_v2 coins (Some idx) required = Err "total unspent amount is less than the required amount"
    else exists cs xs us, select_coins_v2 coins (Some idx) required = Ok (cs, xs) /\
      cs ⊆+ filter is_v2 coins /\ Forall2 (own_index coins idx) cs xs /\
      values_of cs = Ok us /\ required <= sumZ us /\ (Forall (Z.lt 0) vs -> irredundant required us).
Proof using All. apply select_coins_v2_spec. Qed.
End dividing.

(** ** Listing the unspent coins *)

(** The node answers the requests it accepts, of at most [batchSize] serial
    numbers, coin by coin. *)
Class NodeLaws `{Node} (spent : Z -> list Z -> list Z -> bool) : Prop :=
  HasSerialNumber_spec : forall shardID tokenID sns, (length sns <= batchSize)%nat ->
    HasSerialNumber shardID tokenID sns = Ok (map (spent shardID tokenID) sns).

Section listing.
Context `{ND : Node} (spent : Z -> list Z -> list Z -> bool) {NL : NodeLaws spent}.

Lemma CheckCoinsSpent_spec sh tok sns :
  (length sns <= batchSize)%nat -> CheckCoinsSpent sh tok sns = Ok (map (spent sh tok) sns).
Proof using All.
  intros L. unfold CheckCoinsSpent. rewrite (HasSerialNumber_spec sh tok sns L). cbn [res_bind].
  by rewrite length_map, Nat.eqb_refl.
Qed.

Lemma num_batches_spec n : (num_batches n * batchSize < n + batchSize /\ n <= num_batches n * batchSize)%nat.
Proof using Type.
  unfold num_batches, batchSize. pose proof (Nat.div_mod_eq n 100). pose proof (Nat.mod_upper_bound n 100).
  destruct (n mod 100 =? 0)%nat eqn:E; to_prop; cbn [negb]; lia.
Qed.

Lemma check_batches_from sh tok sns n : forall i,
  (length sns <= (i + n) * batchSize < length sns + batchSize)%nat \/ n = O /\ (length sns <= i * batchSize)%nat ->
  check_batches n i sh tok sns = Ok (map (spent sh tok) (drop (i * batchSize) sns)).
Proof using All.
  induction n as [|n IH]; intros i B; cbn [check_batches].
  { rewrite drop_ge by (unfold batchSize in *; lia). reflexivity. }
  assert (B' : (length sns <= (i + S n) * 100 < length sns + 100)%nat) by (unfold batchSize in B; lia).
  unfold batchSize. rewrite slice_ok by lia. cbn [res_bind].
  rewrite CheckCoinsSpent_spec by (rewrite length_take, length_drop; unfold batchSize; lia).
  cbn [res_wrap res_bind]. rewrite IH by (unfold batchSize; lia). cbn [res_bind].
  rewrite <- map_app. do 2 f_equal. change batchSize with 100%nat.
  rewrite <- (take_drop 100 (drop (i * 100) sns)) at 2. rewrite drop_drop. f_equal; [|f_equal; lia].
  destruct (Nat.le_ge_cases ((i + 1) * 100) (length sns)).
  - rewrite Nat.min_l by lia. f_equal. lia.
  - rewrite Nat.min_r by lia. rewrite !take_ge by (rewrite length_drop; lia). reflexivity.
Qed.

(** Asking in batches is asking coin by coin. *)
Lemma check_batches_spec sh tok sns :
  check_batches (num_batches (length sns)) 0 sh tok sns = Ok (map (spent sh tok) sns).
Proof using All.
  rewrite check_batches_from; [reflexivity|].
  pose proof (num_batches_spec (length sns)). destruct (num_batches (length sns)); [right|left]; lia.
Qed.

Context `{CO : CurveOps} `{DG : Digests}.

(** A decrypted coin with its value and its key image, and the index found at
    its position. *)
Abbreviation entry := ((PlainCoin * list Z) * Z * option Z)%type.
Definition kept (want : bool) (flag : list Z -> bool) (e : entry) : Prop :=
  flag (snd (fst (fst e))) = want /\ snd (fst e) <> 0.
#[export] Instance kept_dec want flag e : Decision (kept want flag e).
Proof using Type. unfold kept. apply _. Defined.

Lemma filter_coins_spec want flag ds : forall pre preI vs idx,
  length pre = length preI -> values_of (map fst ds) = Ok vs -> (length ds <= length idx)%nat ->
  let es := filter (kept want flag) (zip (zip ds vs) idx) in
  filter_coins want (map fst ds) (length pre) (pre ++ map flag (map snd ds)) (preI ++ idx) =
  Ok (map (fun e => fst (fst (fst e))) es, map snd es).
Proof using Type.
  induction ds as [|[c k] ds IH]; intros pre preI vs idx LP Hv LI es; [injection Hv as <-; reflexivity|].
  cbn [map fst] in Hv. apply values_of_cons in Hv as (v & vs' & -> & Hc & Hv).
  destruct idx as [|ix idx]; [simpl in LI; lia|]. subst es. cbn [map fst snd filter_coins].
  rewrite index_middle by reflexivity. cbn [res_bind].
  assert (forall b, filter_coins want (map fst ds) (S (length pre)) (pre ++ b :: map flag (map snd ds)) (preI ++ ix :: idx) =
    Ok (map (fun e => fst (fst (fst e))) (filter (kept want flag) (zip (zip ds vs') idx)),
        map snd (filter (kept want flag) (zip (zip ds vs') idx)))) as REST.
  { intros b. specialize (IH (pre ++ [b]) (preI ++ [ix]) vs' idx).
    rewrite !length_app, Nat.add_1_r, <- !app_assoc in IH. cbn [length] in IH. rewrite Nat.add_1_r in IH.
    cbn [app length] in IH, LI. apply IH; [by rewrite LP|exact Hv|lia]. }
  cbn [zip zip_with]. rewrite filter_cons.
  destruct (Bool.eqb (flag k) want) eqn:E.
  - apply Bool.eqb_prop in E. rewrite Hc. cbn [res_bind]. destruct (v =? 0) eqn:V; to_prop; cbn [negb].
    + rewrite decide_False by (unfold kept; cbn [fst snd]; tauto). apply REST.
    + rewrite decide_True by (unfold kept; cbn [fst snd]; tauto). rewrite index_middle by exact LP. cbn [res_bind]. rewrite REST. reflexivity.
  - apply Bool.eqb_false_iff in E. cbn [res_bind]. rewrite decide_False by (unfold kept; cbn [fst snd]; tauto). apply REST.
Qed.

Context `{LR : LRU} `{BC : BlockCipher} `{AL : Allocator} `{HD : HDWallet}.

(** A coin that decrypts for the key set: to the coin and key image [d]. *)
Definition decrypts (keySet : KeySet) (oc : ICoinInfo) (d : PlainCoin * list Z) : Prop :=
  exists s s', decrypt_coin keySet oc s = (s', Ok (Some d)).

Lemma decrypt_coins_from keySet l : forall s s' ds,
  decrypt_coins keySet l s = (s', Ok ds) ->
  (length ds <= length l)%nat /\ (length ds = length l -> Forall2 (decrypts keySet) l ds).
Proof using Type.
  induction l as [|oc l IH]; intros s s' ds H; cbn [decrypt_coins] in H.
  { injection H as <- <-. split; [reflexivity|constructor]. }
  unfold st_bind, st_ret in H. destruct (decrypt_coin keySet oc s) as [s1 [d| | |]] eqn:E; try discriminate.
  destruct (decrypt_coins keySet l s1) as [s2 [rest| | |]] eqn:E2; try discriminate.
  injection H as <- <-. destruct (IH _ _ _ E2) as [LE F].
  destruct d as [d|]; cbn [length]; (split; [lia|]); intros L.
  - constructor; [by exists s, s1|]. apply F. lia.
  - lia.
Qed.

(** A coin that is skipped does not show in the result. *)
Lemma decrypt_coins_skip keySet c c' m l1 l2 s s' ds :
  CoinV2_Decrypt (Some keySet) c = (c', Err m) ->
  decrypt_coins keySet (l1 ++ InfoV2 c :: l2) s = (s', Ok ds) ->
  (length ds <= length (l1 ++ l2))%nat /\ (length ds = length (l1 ++ l2) -> Forall2 (decrypts keySet) (l1 ++ l2) ds).
Proof using Type.
  intros D. revert s s' ds. induction l1 as [|oc l1 IH]; intros s s' ds H; cbn [app decrypt_coins decrypt_coin] in H.
  - rewrite D in H. unfold st_bind, st_ret, st_lift in H.
    destruct (deref (c2_publicKey c)) as [pk| | |]; try discriminate.
    destruct (Base58Check_Encode pk 0 s) as [s1 [r| | |]]; try discriminate.
    destruct (decrypt_coins keySet l2 s1) as [s2 [rest| | |]] eqn:E; try discriminate.
    injection H as <- <-. apply (decrypt_coins_from _ _ _ _ _ E).
  - unfold st_bind, st_ret in H. destruct (decrypt_coin keySet oc s) as [s1 [d| | |]] eqn:E1; try discriminate.
    destruct (decrypt_coins keySet (l1 ++ InfoV2 c :: l2) s1) as [s2 [rest| | |]] eqn:E; try discriminate.
    injection H as <- <-. destruct (IH _ _ _ E) as [LE F].
    destruct d as [d|]; cbn [app length] in *; (split; [lia|]); intros LD.
    + constructor; [by exists s, s1|]. apply F. lia.
    + lia.
Qed.

(** The coins of the answer, with the indices they are returned with. *)
Definition listed (want : bool) (flag : list Z -> bool) (ds : list (PlainCoin * list Z)) (vs : list Z)
    (idx : list (option Z)) : list entry := filter (kept want flag) (zip (zip ds vs) idx).

Lemma listed_own want flag ds vs idx e :
  e ∈ listed want flag ds vs idx ->
  kept want flag e /\ exists i, ds !! i = Some (fst (fst e)) /\ vs !! i = Some (snd (fst e)) /\ idx !! i = Some (snd e).
Proof using Type.
  intros He. apply list_elem_of_filter in He as [K He]. split; [exact K|].
  apply list_elem_of_lookup in He as [i Hi]. exists i. destruct e as [[d v] ix].
  apply lookup_zip_Some in Hi as [Hi H3]. apply lookup_zip_Some in Hi as [H1 H2]. auto.
Qed.

Section answers.
Context (privateKey tokenID : list Z) (kw : KeyWallet) (shard : Z)
  (HK : Base58CheckDeserialize privateKey = Ok kw)
  (HS : last_byte_shard (pa_Pk (ks_PaymentAddress (kw_KeySet kw))) = Ok shard).

Lemma unspent_spec l s s' ds vs idx :
  decrypt_coins (kw_KeySet kw) l s = (s', Ok ds) -> values_of (map fst ds) = Ok vs ->
  (length l <= length idx)%nat ->
  let es := listed false (spent shard tokenID) ds vs idx in
  unspent_output_coins privateKey tokenID l idx s =
  (s', Ok (map (fun e => fst (fst (fst e))) es, if (length ds =? 0)%nat then None else Some (map snd es))).
Proof using All.
  intros D V L es. destruct (decrypt_coins_from _ _ _ _ _ D) as [LE _].
  unfold unspent_output_coins. destruct (length l =? 0)%nat eqn:E; to_prop.
  { destruct l; [|discriminate]. injection D as <- <-. reflexivity. }
  unfold GetListDecryptedCoins, st_bind, st_lift, st_ret. rewrite HK, D, length_map.
  destruct (length ds =? 0)%nat eqn:E2; to_prop; [destruct ds; [reflexivity|discriminate]|].
  rewrite HS. rewrite <- (length_map snd ds), check_batches_spec.
  pose proof (filter_coins_spec false (spent shard tokenID) ds [] [] vs idx eq_refl V) as F.
  cbn [app length] in F. rewrite F by lia. reflexivity.
Qed.

Lemma spent_spec l s s' ds vs idx :
  decrypt_coins (kw_KeySet kw) l s = (s', Ok ds) -> values_of (map fst ds) = Ok vs ->
  (length l <= length idx)%nat -> (length ds <= batchSize)%nat -> l <> [] ->
  let es := listed true (spent shard tokenID) ds vs idx in
  spent_output_coins privateKey tokenID l idx s =
  (s', Ok (map (fun e => fst (fst (fst e))) es, Some (map snd es))).
Proof using All.
  intros D V L B N es. destruct (decrypt_coins_from _ _ _ _ _ D) as [LE _].
  unfold spent_output_coins. destruct (length l =? 0)%nat eqn:E; to_prop; [by destruct l|].
  unfold GetListDecryptedCoins, st_bind, st_lift, st_ret. rewrite HK, D, HS.
  rewrite CheckCoinsSpent_spec by (rewrite length_map; exact B).
  pose proof (filter_coins_spec true (spent shard tokenID) ds [] [] vs idx eq_refl V) as F.
  cbn [app length] in F. rewrite F by lia. reflexivity.
Qed.

(** C27: [GetUnspentOutputCoins] and [GetSpentOutputCoins] on the coins and
    indices of [GetOutputCoins], against a node that answers requests of at most
    [batchSize] serial numbers.  However many coins there are, the unspent coins
    are those whose own key image the node does not know as spent and whose value
    is not zero, in order; the spent ones likewise.  When every coin decrypts,
    every coin of the answer is one of the list and comes with the index listed
    for it. *)
Theorem output_coins_correct l s s' ds vs idx :
  decrypt_coins (kw_KeySet kw) l s = (s', Ok ds) -> values_of (map fst ds) = Ok vs ->
  (length l <= length idx)%nat -> l <> [] ->
  let unspent := listed false (spent shard tokenID) ds vs idx in
  let gone := listed true (spent shard tokenID) ds vs idx in
  unspent_output_coins privateKey tokenID l idx s =
    (s', Ok (map (fun e => fst (fst (fst e))) unspent,
             if (length ds =? 0)%nat then None else Some (map snd unspent))) /\
  ((length ds <= batchSize)%nat ->
   spent_output_coins privateKey tokenID l idx s =
    (s', Ok (map (fun e => fst (fst (fst e))) gone, Some (map snd gone)))) /\
  (length ds = length l ->
   forall want e, e ∈ listed want (spent shard tokenID) ds vs idx ->
     spent shard tokenID (snd (fst (fst e))) = want /\
     exists i oc, l !! i = Some oc /\ idx !! i = Some (snd e) /\ decrypts (kw_KeySet kw) oc (fst (fst e))).
Proof using All.
  intros D V L N unspent gone. split; [by apply unspent_spec|]. split; [by intros; apply spent_spec|].
  intros LD want e He. destruct (listed_own _ _ _ _ _ _ He) as ([K _] & i & Hd & _ & Hi).
  split; [exact K|]. destruct (decrypt_coins_from _ _ _ _ _ D) as [_ F].
  destruct (Forall2_lookup_r _ _ _ _ _ (F LD) Hd) as (oc & Hl & HDC). exists i, oc. auto.
Qed.

(** C39: a coin of version 2 that does not decrypt is skipped without its index:
    the coins of the answer are decrypted from the list without it, but come with
    the indices at the same positions of the whole list, so every coin after the
    skipped one comes with the index of the coin before it. *)
Theorem skipped_coin_shifts_indices l1 l2 c c' m s s' ds vs idx :
  CoinV2_Decrypt (Some (kw_KeySet kw)) c = (c', Err m) ->
  decrypt_coins (kw_KeySet kw) (l1 ++ InfoV2 c :: l2) s = (s', Ok ds) -> length ds = length (l1 ++ l2) ->
  values_of (map fst ds) = Ok vs -> (length (l1 ++ InfoV2 c :: l2) <= length idx)%nat ->
  let es := listed false (spent shard tokenID) ds vs idx in
  unspent_output_coins privateKey tokenID (l1 ++ InfoV2 c :: l2) idx s =
    (s', Ok (map (fun e => fst (fst (fst e))) es, if (length ds =? 0)%nat then None else Some (map snd es))) /\
  forall e, e ∈ es ->
    exists i oc, idx !! i = Some (snd e) /\ decrypts (kw_KeySet kw) oc (fst (fst e)) /\
      (l1 ++ InfoV2 c :: l2) !! (if (i <? length l1)%nat then i else S i) = Some oc.
Proof using All.
  intros C D LD V L es. split; [apply unspent_spec; assumption|].
  intros e He. destruct (listed_own _ _ _ _ _ _ He) as (_ & i & Hd & _ & Hi).
  pose proof (proj2 (decrypt_coins_skip _ _ _ _ _ _ _ _ _ C D) LD) as F.
  destruct (Forall2_lookup_r _ _ _ _ _ F Hd) as (oc & Hl & HDC).
  exists i, oc. split; [exact Hi|]. split; [exact HDC|].
  destruct (i <? length l1)%nat eqn:E; to_prop.
  - rewrite lookup_app_l in Hl |- * by lia. exact Hl.
  - rewrite lookup_app_r in Hl |- * by lia.
    replace (S i - length l1)%nat with (S (i - length l1)) by lia. exact Hl.
Qed.
End answers.
End listing.

(** ** Witnesses *)

#[local] Existing Instances toy_curve toy_curve_laws toy_digests toy_digest_laws keep_all exact_cap toy_hdwallet toy_cipher.

(** Sorting by merging. *)
#[local] Instance merge_slices : SliceSort := fun A less l =>
  merge_sort (fun x y => Is_true (negb (less y x))) l.
#[local] Instance merge_slices_laws : SliceSortLaws.
Proof.
  split; intros A f l; [apply merge_sort_Permutation|]. unfold sort_slice, merge_slices.
  assert (forall x y, Is_true (negb (f x <? f y)) <-> f y <= f x) as E.
  { intros x y. rewrite Is_true_true, negb_true_iff. apply Z.ltb_ge. }
  assert (StronglySorted (fun x y => Is_true (negb (f x <? f y)))
            (merge_sort (fun x y => Is_true (negb (f x <? f y))) l)) as S.
  { apply StronglySorted_merge_sort.
    - intros x y z. rewrite !E. lia.
    - intros x y. rewrite !E. lia. }
  induction S as [|x k S IH F]; constructor; [exact IH|].
  eapply Forall_impl; [exact F|]. intros y. apply E.
Qed.

Definition ok_or {A} (d : A) (r : res A) : A := match r with Ok a => a | _ => d end.
Lemma ok_or_spec {A} (d : A) r : is_ok r = true -> r = Ok (ok_or d r).
Proof. by destruct r. Qed.

Definition toy_key : list Z := ok_or [] (snd (Base58CheckSerialize PrivateKeyType toy_wallet ∅)).
Definition toy_kw : KeyWallet := ok_or emptyWallet (Base58CheckDeserialize toy_key).
Lemma toy_key_ok : Base58CheckDeserialize toy_key = Ok toy_kw.
Proof. apply ok_or_spec. vm_compute. reflexivity. Qed.
Lemma toy_key_shard : last_byte_shard (pa_Pk (ks_PaymentAddress (kw_KeySet toy_kw))) = Ok 7.
Proof. vm_compute. reflexivity. Qed.

(** Plain coins of version 1, told apart by their serial number derivators. *)
Definition toy_v1 (snd value : Z) : PlainCoinV1 :=
  mkPlainCoinV1 (Some (toy_write 5)) None (Some (key_of snd)) None (Some (key_of 3)) value [].
Definition toy_list : list ICoinInfo := map InfoPlainV1 [toy_v1 7 5; toy_v1 8 6; toy_v1 9 0].
#[local] Opaque decrypt_coins.
Definition toy_run : cache * res (list (PlainCoin * list Z)) := decrypt_coins (kw_KeySet toy_kw) toy_list ∅.
Definition toy_ds : list (PlainCoin * list Z) := ok_or [] (snd toy_run).
Lemma toy_decrypted : decrypt_coins (kw_KeySet toy_kw) toy_list ∅ = (fst toy_run, Ok toy_ds).
Proof.
  fold toy_run. unfold toy_ds. assert (is_ok (snd toy_run) = true) as E by (vm_compute; reflexivity).
  destruct toy_run as [s r]. cbn [fst snd] in *. by rewrite <- (ok_or_spec [] r E).
Qed.
Definition toy_second : PlainCoin := fst (nth 1 toy_ds (PlainV1 (toy_v1 0 0), [])).

Definition same_bytes (a b : list Z) : bool := bool_decide (a = b).
Definition toy_first : list Z := snd (nth 0 toy_ds (PlainV1 (toy_v1 0 0), [])).

(** A node that knows the first coin as spent. *)
Definition toy_spent (shardID : Z) (tokenID sn : list Z) : bool :=
  same_bytes sn toy_first.
#[local] Instance toy_node : Node := fun shardID tokenID sns =>
  if (length sns <=? batchSize)%nat then Ok (map (toy_spent shardID tokenID) sns)
  else Err "too many serial numbers".
#[local] Instance toy_node_laws : NodeLaws toy_spent.
Proof. intros sh tok sns L. unfold HasSerialNumber, toy_node. apply Nat.leb_le in L. by rewrite L. Qed.

Lemma output_coins_correct_witness :
  unspent_output_coins toy_key [] toy_list [Some 10; Some 11; Some 12] ∅ =
    (fst toy_run, Ok ([toy_second], Some [Some 11])) /\ PlainCoin_GetValue toy_second = Ok 6.
Proof.
  destruct (output_coins_correct toy_spent toy_key [] toy_kw 7 toy_key_ok toy_key_shard toy_list ∅
    (fst toy_run) toy_ds [5; 6; 0] [Some 10; Some 11; Some 12] toy_decrypted) as (E & _).
  - vm_compute. reflexivity.
  - reflexivity.
  - discriminate.
  - rewrite E. split; [|vm_compute; reflexivity]. apply f_equal2; [reflexivity|]. vm_compute. reflexivity.
Defined.

Definition toy_broken : CoinV2 := c2_SetPublicKey (Some (toy_write 5)) (c2_SetTxRandom (Some (replicate 68 0)) newCoinV2).
Definition toy_run' : cache * res (list (PlainCoin * list Z)) :=
  decrypt_coins (kw_KeySet toy_kw) (InfoV2 toy_broken :: toy_list) ∅.
Lemma toy_decrypted' :
  decrypt_coins (kw_KeySet toy_kw) (InfoV2 toy_broken :: toy_list) ∅ = (fst toy_run', Ok toy_ds).
Proof.
  fold toy_run'. assert (snd toy_run' = Ok toy_ds) as E by (vm_compute; reflexivity).
  destruct toy_run' as [s r]. cbn [fst snd] in *. by rewrite E.
Qed.

(** The coin with the index 11 is returned with the index 10. *)
Lemma skipped_coin_shifts_indices_witness :
  unspent_output_coins toy_key [] (InfoV2 toy_broken :: toy_list)
      [Some 9; Some 10; Some 11; Some 12] ∅ =
    (fst toy_run', Ok ([toy_second], Some [Some 10])) /\ PlainCoin_GetValue toy_second = Ok 6.
Proof.
  destruct (skipped_coin_shifts_indices toy_spent toy_key [] toy_kw 7 toy_key_ok toy_key_shard [] toy_list toy_broken
    toy_broken "cannot parse key image with privateKey CoinV2" ∅
    (fst toy_run') toy_ds [5; 6; 0] [Some 9; Some 10; Some 11; Some 12]) as (E & _).
  - vm_compute. reflexivity.
  - apply toy_decrypted'.
  - vm_compute. reflexivity.
  - vm_compute. reflexivity.
  - reflexivity.
  - cbn [app] in E. rewrite E. split; [|vm_compute; reflexivity]. apply f_equal2; [reflexivity|]. vm_compute. reflexivity.
Defined.

Lemma choose_correct_witness :
  (exists r, chooseBestCoinsByAmount (map (fun c => PlainV1 c) [toy_v1 7 5; toy_v1 8 3; toy_v1 9 2]) 4 = Ok r /\
     snd r = [0%nat]) /\
  chooseBestCoinsByAmount (map (fun c => PlainV1 c) [toy_v1 7 (2 ^ 63); toy_v1 8 (2 ^ 63)]) 1 =
    Err "total unspent amount is less than the required amount".
Proof.
  split.
  - destruct (choose_correct (map (fun c => PlainV1 c) [toy_v1 7 5; toy_v1 8 3; toy_v1 9 2]) [5; 3; 2] 4) as [H _].
    + reflexivity.
    + unfold is_u64. repeat constructor; lia.
    + unfold is_u64. lia.
    + destruct H as (r & E & _); [reflexivity|]. exists r. split; [exact E|].
      vm_compute in E. injection E as <-. reflexivity.
  - destruct (choose_correct (map (fun c => PlainV1 c) [toy_v1 7 (2 ^ 63); toy_v1 8 (2 ^ 63)]) [2 ^ 63; 2 ^ 63] 1) as (_ & H & _).
    + reflexivity.
    + unfold is_u64. repeat constructor; lia.
    + unfold is_u64. lia.
    + apply H. vm_compute. reflexivity.
Defined.

(** Coins of version 2 with an amount and the commitment that opens it. *)
Definition toy_v2 (pk value : Z) : CoinV2 :=
  let a := ok_or [] (Scalar_FromUint64 value) in
  mkCoinV2 2 [] (Some (toy_write pk))
    (match CommitAtIndex PedG a (key_of 3) PedersenValueIndex with Ok c => Some c | _ => None end)
    None None None None (Some (key_of 3)) (Some a) None None.

Definition toy_utxos : list PlainCoin := map (fun c => PlainV2 c) [toy_v2 5 2; toy_v2 6 9; toy_v2 7 4].

Lemma select_coins_v2_correct_witness :
  exists cs xs us, select_coins_v2 toy_utxos (Some [Some 20; Some 21; Some 22]) 8 = Ok (cs, xs) /\
    Forall2 (own_index toy_utxos [Some 20; Some 21; Some 22]) cs xs /\
    values_of cs = Ok us /\ 8 <= sumZ us /\ irredundant 8 us.
Proof.
  destruct (select_coins_v2_correct toy_utxos [Some 20; Some 21; Some 22] [2; 9; 4] 8) as (ws & W & H).
  - assert (forall pk v x, is_u64 x -> has_index (PlainV2 (toy_v2 pk v)) (Some x)) as G.
    { intros pk v x X _. split; [eexists; reflexivity|]. eexists. split; [reflexivity|exact X]. }
    unfold is_u64 in G. unfold toy_utxos. cbn [map].
    repeat (apply Forall2_cons_2; [apply G; lia|]). apply Forall2_nil_2.
  - apply (bool_decide_unpack _). vm_compute. exact I.
  - vm_compute. reflexivity.
  - unfold is_u64. repeat constructor; lia.
  - vm_compute. reflexivity.
  - unfold is_u64. lia.
  - assert (values_of (filter is_v2 toy_utxos) = Ok [2; 9; 4]) as V by (vm_compute; reflexivity).
    rewrite V in W. injection W as <-. destruct H as (cs & xs & us & E & _ & O & V' & S & M).
    exists cs, xs, us. split; [exact E|]. split; [exact O|]. split; [exact V'|]. split; [exact S|].
    apply M. repeat constructor; lia.
Defined.
