(* ===== verification/TxGeneric.v ===== *)
(** * TxGeneric.v: what the transactions of both versions share

    [src/transaction/tx_generic/common.go], [tx_base.go], the parameters of
    [tx_token_base.go] and [src/transaction/utils/utils.go].  A transaction is a
    record over a type of metadata, whose interface ([metadata/common/metadata.go])
    is the class [MetadataOps]; the base metadata of [metadatabase.go] are its
    instance.  [encoding/json] is the interface [TxCodec]: how a transaction is
    written as JSON does not matter to the code, only that it is read back.  The
    caches of the hash and of the size are never filled and are left out. *)

From stdpp Require Import base list gmap strings.
From Stdlib Require Import ZArith Lia.
From S2P Require Import Prelude Common Hashing Encoding Crypto Key Base58 Base58Check Wallet CoinV2 Hybrid CoinV1 Schnorr Bulletproof ProofV1 Payment ProofV2 Utxo.
Open Scope Z_scope.

Definition CurrentTxVersion : Z := 2.
Definition MaxSizeInfo : nat := 512.
Definition TxNormalType : string := "n".
Definition TxRewardType : string := "s".
Definition TxConversionType : string := "cv".
Definition TxTokenConversionType : string := "tcv".
Definition TxCustomTokenPrivacyType : string := "tp".
Definition MaxTxSize : Z := 500.

(** ** Coins and proofs as interfaces *)

(** [coin.Coin] *)
Inductive Coin :=
| CoinOf1 (c : CoinV1)
| CoinOf2 (c : CoinV2).

Definition Coin_GetPublicKey (c : Coin) : option (list Z) :=
  match c with CoinOf1 c => p1_publicKey (c1_CoinDetails c) | CoinOf2 c => c2_publicKey c end.
Definition Coin_GetCommitment (c : Coin) : option (list Z) :=
  match c with CoinOf1 c => p1_commitment (c1_CoinDetails c) | CoinOf2 c => c2_commitment c end.
Definition Coin_GetValue `{CurveOps} `{Digests} (c : Coin) : res Z :=
  match c with CoinOf1 c => Ok (p1_value (c1_CoinDetails c)) | CoinOf2 c => CoinV2_GetValue c end.

(** [privacy.Proof] *)
Inductive PaymentProof :=
| ProofOf1 (p : ProofV1)
| ProofOf2 (p : ProofV2)
| ProofOfConversion (p : ConversionProof).

(** The elements of the slices may be [nil]. *)
Definition Proof_GetInputCoins (p : PaymentProof) : list (option PlainCoin) :=
  match p with
  | ProofOf1 p => pv_inputCoins p
  | ProofOf2 p => q_inputCoins p
  | ProofOfConversion p => map (option_map PlainV1) (cv_inputCoins p)
  end.

Definition Proof_GetOutputCoins (p : PaymentProof) : list (option Coin) :=
  match p with
  | ProofOf1 p => map (option_map CoinOf1) (pv_outputCoins p)
  | ProofOf2 p => map (option_map CoinOf2) (q_outputCoins p)
  | ProofOfConversion p => map (option_map CoinOf2) (cv_outputCoins p)
  end.

(** ** Parameters *)

(** The values of [KvArgs]: [[]uint64], [[]*crypto.Point], or something else. *)
Inductive kv_value :=
| KvIndices (l : list Z)
| KvPoints (l : list (option (list Z)))
| KvOther.

Definition kv_args : Type := option (gmap string kv_value).

(** The lookup in a map that may be [nil]. *)
Definition kv_get (kv : kv_args) (k : string) : option kv_value :=
  match kv with Some m => m !! k | None => None end.

Record TxPrivacyInitParams (M : Type) := mkTxParams {
  tp_SenderSK : option (list Z);
  tp_PaymentInfo : list (option PaymentInfo);
  tp_InputCoins : list PlainCoin;
  tp_Fee : Z;
  tp_HasPrivacy : bool;
  tp_TokenID : option (list Z);
  tp_MetaData : option M;
  tp_Info : option (list Z);
  tp_KvArgs : kv_args }.
Arguments mkTxParams {M}. Arguments tp_SenderSK {M}. Arguments tp_PaymentInfo {M}. Arguments tp_InputCoins {M}.
Arguments tp_Fee {M}. Arguments tp_HasPrivacy {M}. Arguments tp_TokenID {M}. Arguments tp_MetaData {M}.
Arguments tp_Info {M}. Arguments tp_KvArgs {M}.

Definition tp_setTokenID {M} (v : option (list Z)) (p : TxPrivacyInitParams M) : TxPrivacyInitParams M :=
  mkTxParams (tp_SenderSK p) (tp_PaymentInfo p) (tp_InputCoins p) (tp_Fee p) (tp_HasPrivacy p) v (tp_MetaData p) (tp_Info p) (tp_KvArgs p).
Definition tp_setPaymentInfo {M} v (p : TxPrivacyInitParams M) : TxPrivacyInitParams M :=
  mkTxParams (tp_SenderSK p) v (tp_InputCoins p) (tp_Fee p) (tp_HasPrivacy p) (tp_TokenID p) (tp_MetaData p) (tp_Info p) (tp_KvArgs p).

(** A [nil] info becomes an empty one. *)
Definition NewTxPrivacyInitParams {M} (senderSK : option (list Z)) (paymentInfo : list (option PaymentInfo))
    (inputCoins : list PlainCoin) (fee : Z) (hasPrivacy : bool) (tokenID : option (list Z)) (metaData : option M)
    (info : option (list Z)) (kv : kv_args) : TxPrivacyInitParams M :=
  mkTxParams senderSK paymentInfo inputCoins fee hasPrivacy tokenID metaData (Some (default [] info)) kv.

(** The parameters of a token, as the estimate of the size needs them. *)
Record TokenParam := mkTokenParam {
  tk_PropertyID : list Z; tk_PropertyName : list Z; tk_PropertySymbol : list Z; tk_Amount : Z; tk_TokenTxType : Z;
  tk_Receiver : list (option PaymentInfo); tk_TokenInput : list PlainCoin; tk_Mintable : bool; tk_Fee : Z; tk_KvArgs : kv_args }.

(** ** Transactions *)

(** The interface of metadata: [Sign] gets the private key and, of the
    transaction, its [HashWithoutMetadataSig], the only method the
    implementations call; the first argument is the random scalar of the signature. *)
Class MetadataOps (M : Type) : Type := {
  md_GetType : M -> Z;
  md_Sign : list Z -> option (list Z) -> res (option (list Z)) -> M -> M * res unit;
  md_Hash : M -> list Z;
  md_HashWithoutSig : M -> option (list Z);
  md_CalculateSize : M -> Z }.

(** A signature, its key and the info may be [nil]. *)
Record TxBase (M : Type) := mkTxBase {
  tx_Version : Z;
  tx_Type : string;
  tx_LockTime : Z;
  tx_Fee : Z;
  tx_Info : option (list Z);
  tx_SigPubKey : option (list Z);
  tx_Sig : option (list Z);
  tx_Proof : option PaymentProof;
  tx_PubKeyLastByteSender : Z;
  tx_Metadata : option M;
  tx_sigPrivateKey : option (list Z) }.
Arguments mkTxBase {M}. Arguments tx_Version {M}. Arguments tx_Type {M}. Arguments tx_LockTime {M}. Arguments tx_Fee {M}.
Arguments tx_Info {M}. Arguments tx_SigPubKey {M}. Arguments tx_Sig {M}. Arguments tx_Proof {M}.
Arguments tx_PubKeyLastByteSender {M}. Arguments tx_Metadata {M}. Arguments tx_sigPrivateKey {M}.

(** [new(Tx)] *)
Definition TxBase_new {M} : TxBase M := mkTxBase 0 "" 0 0 None None None None 0 None None.

Section setters.
Context {M : Type}.
Implicit Type t : TxBase M.
Definition tx_SetVersion v t := mkTxBase v (tx_Type t) (tx_LockTime t) (tx_Fee t) (tx_Info t) (tx_SigPubKey t) (tx_Sig t)
  (tx_Proof t) (tx_PubKeyLastByteSender t) (tx_Metadata t) (tx_sigPrivateKey t).
Definition tx_SetType v t := mkTxBase (tx_Version t) v (tx_LockTime t) (tx_Fee t) (tx_Info t) (tx_SigPubKey t) (tx_Sig t)
  (tx_Proof t) (tx_PubKeyLastByteSender t) (tx_Metadata t) (tx_sigPrivateKey t).
Definition tx_SetLockTime v t := mkTxBase (tx_Version t) (tx_Type t) v (tx_Fee t) (tx_Info t) (tx_SigPubKey t) (tx_Sig t)
  (tx_Proof t) (tx_PubKeyLastByteSender t) (tx_Metadata t) (tx_sigPrivateKey t).
Definition tx_SetTxFee v t := mkTxBase (tx_Version t) (tx_Type t) (tx_LockTime t) v (tx_Info t) (tx_SigPubKey t) (tx_Sig t)
  (tx_Proof t) (tx_PubKeyLastByteSender t) (tx_Metadata t) (tx_sigPrivateKey t).
Definition tx_SetInfo v t := mkTxBase (tx_Version t) (tx_Type t) (tx_LockTime t) (tx_Fee t) v (tx_SigPubKey t) (tx_Sig t)
  (tx_Proof t) (tx_PubKeyLastByteSender t) (tx_Metadata t) (tx_sigPrivateKey t).
Definition tx_SetSigPubKey v t := mkTxBase (tx_Version t) (tx_Type t) (tx_LockTime t) (tx_Fee t) (tx_Info t) v (tx_Sig t)
  (tx_Proof t) (tx_PubKeyLastByteSender t) (tx_Metadata t) (tx_sigPrivateKey t).
Definition tx_SetSig v t := mkTxBase (tx_Version t) (tx_Type t) (tx_LockTime t) (tx_Fee t) (tx_Info t) (tx_SigPubKey t) v
  (tx_Proof t) (tx_PubKeyLastByteSender t) (tx_Metadata t) (tx_sigPrivateKey t).
Definition tx_SetProof v t := mkTxBase (tx_Version t) (tx_Type t) (tx_LockTime t) (tx_Fee t) (tx_Info t) (tx_SigPubKey t)
  (tx_Sig t) v (tx_PubKeyLastByteSender t) (tx_Metadata t) (tx_sigPrivateKey t).
Definition tx_SetSenderAddrLastByte v t := mkTxBase (tx_Version t) (tx_Type t) (tx_LockTime t) (tx_Fee t) (tx_Info t)
  (tx_SigPubKey t) (tx_Sig t) (tx_Proof t) v (tx_Metadata t) (tx_sigPrivateKey t).
Definition tx_SetMetadata (v : option M) t := mkTxBase (tx_Version t) (tx_Type t) (tx_LockTime t) (tx_Fee t) (tx_Info t) (tx_SigPubKey t)
  (tx_Sig t) (tx_Proof t) (tx_PubKeyLastByteSender t) v (tx_sigPrivateKey t).
Definition tx_SetPrivateKey v t := mkTxBase (tx_Version t) (tx_Type t) (tx_LockTime t) (tx_Fee t) (tx_Info t) (tx_SigPubKey t)
  (tx_Sig t) (tx_Proof t) (tx_PubKeyLastByteSender t) (tx_Metadata t) v.
End setters.

(** A transaction as JSON sees it: the proof is the base64 of its bytes, which
    [MarshalJSON] of all proofs gives. *)
Record tx_json (M : Type) := mkTxJson {
  js_Version : Z; js_Type : string; js_LockTime : Z; js_Fee : Z; js_Info : option (list Z);
  js_SigPubKey : option (list Z); js_Sig : option (list Z); js_Proof : option (list Z);
  js_PubKeyLastByteSender : Z; js_Metadata : option M }.
Arguments mkTxJson {M}. Arguments js_Version {M}. Arguments js_Type {M}. Arguments js_LockTime {M}. Arguments js_Fee {M}.
Arguments js_Info {M}. Arguments js_SigPubKey {M}. Arguments js_Sig {M}. Arguments js_Proof {M}.
Arguments js_PubKeyLastByteSender {M}. Arguments js_Metadata {M}.

(** [json.Marshal] and [json.Unmarshal] of these members ([ParseMetadata], a table
    of the types of metadata, included), and what is relied on. *)
Class TxCodec (M : Type) : Type := {
  json_marshal : tx_json M -> res (list Z);
  json_unmarshal : list Z -> res (tx_json M) }.

Class TxCodecLaws (M : Type) `{TxCodec M} : Prop := {
  json_codec : forall j, exists b, json_marshal j = Ok b /\ json_unmarshal b = Ok j;
  json_bytes : forall j b, json_marshal j = Ok b -> bytes_ok b }.

Section generic.
Context `{CO : CurveOps} `{DG : Digests} `{LR : LRU} `{AL : Allocator} `{HD : HDWallet} `{BC : BlockCipher}.

Definition Proof_Bytes (p : PaymentProof) : res (list Z) :=
  match p with ProofOf1 p => ProofV1_Bytes p | ProofOf2 p => ProofV2_Bytes p | ProofOfConversion p => ConversionProof_Bytes p end.

(** [spare] is the memory behind the slice. *)
Definition Proof_SetBytes (spare b : list Z) (p : PaymentProof) : PaymentProof * res unit :=
  match p with
  | ProofOf1 p => let '(p, r) := ProofV1_SetBytes spare b p in (ProofOf1 p, r)
  | ProofOf2 p => let '(p, r) := ProofV2_SetBytes b p in (ProofOf2 p, r)
  | ProofOfConversion p => let '(p, r) := ConversionProof_SetBytes b p in (ProofOfConversion p, r)
  end.

Definition Proof_IsPrivacy (p : PaymentProof) : res bool :=
  match p with
  | ProofOf1 p => Ok (ProofV1_IsPrivacy (Some p))
  | ProofOf2 p => ProofV2_IsPrivacy p
  | ProofOfConversion _ => Ok false
  end.

(** [UnmarshalJSON] of the proofs, from the text of the JSON string.  [DecodeString]
    returns a part of a slice of three bytes for each four letters. *)
Definition Proof_UnmarshalJSON (text : list Z) (p : PaymentProof) : res PaymentProof :=
  let* b := base64_decode text in
  let '(p, r) := Proof_SetBytes (replicate (length text / 4 * 3 - length b) 0) b p in
  let* _ := r in Ok p.

(** [ParseProof]; a [nil] proof stays [nil]. *)
Definition ParseProof (p : option (list Z)) (ver : Z) (txType : string) : res (option PaymentProof) :=
  match p with
  | None => Ok None
  | Some text =>
      let* fresh :=
        if (txType =? TxConversionType)%string then
          if ver =? 2 then Ok (ProofOfConversion (ConversionProof_Init ConversionProof_new))
          else Err "ParseProof: TxConversion version is incorrect"
        else if (ver =? 1) || (ver =? 0) then Ok (ProofOf1 ProofV1_new)
        else if ver =? 2 then Ok (ProofOf2 (ProofV2_Init ProofV2_new))
        else Err "ParseProof: Tx.Version is incorrect" in
      let* p := Proof_UnmarshalJSON text fresh in
      Ok (Some p)
  end.

(** ** common.go *)

Definition GetTxMintData (receivers : res (list (option Coin))) (proof : option PaymentProof) (tokenID : list Z)
    : res (bool * option Coin * list Z) :=
  let* outputCoins := receivers in
  if negb (length outputCoins =? 1)%nat then Err "tx mint has more than one receiver"
  else
    let* proof := deref proof in
    if (0 <? length (Proof_GetInputCoins proof))%nat then Err "this is not a tx mint"
    else let* c := index outputCoins 0 in Ok (true, c, tokenID).

Fixpoint find_burnt (outputCoins : list (option Coin)) : res (option Coin) :=
  match outputCoins with
  | [] => Ok None
  | o :: outputCoins =>
      let* c := deref o in
      let* pk := deref (Coin_GetPublicKey c) in
      let* burning := IsPublicKeyBurningAddress pk in
      if burning then Ok (Some c) else find_burnt outputCoins
  end.

Definition GetTxBurnData (receivers : res (list (option Coin))) : res (bool * option Coin * option (list Z)) :=
  let* outputCoins := receivers in
  let* found := find_burnt outputCoins in
  match found with Some c => Ok (true, Some c, Some PRVCoinID) | None => Ok (false, None, None) end.

(** The sum of the commitments. *)
Fixpoint sum_commitments (sum : list Z) (coins : list Coin) : res (list Z) :=
  match coins with
  | [] => Ok sum
  | c :: coins => let* com := deref (Coin_GetCommitment c) in sum_commitments (Point_Add sum com) coins
  end.

Definition CalculateSumOutputsWithFee (outputCoins : list Coin) (fee : Z) : res (list Z) :=
  let* sum := sum_commitments Identity outputCoins in
  let* g := index PedG PedersenValueIndex in
  let* f := Scalar_FromUint64 fee in
  Ok (Point_Add sum (Point_ScalarMult g f)).

Definition ValidateTxParams {M} (params : TxPrivacyInitParams M) : res (TxPrivacyInitParams M) :=
  if (255 <? length (tp_InputCoins params))%nat then Err "number of inputs is too large"
  else if (254 <? length (tp_PaymentInfo params))%nat then Err "number of outputs is too large"
  else match tp_TokenID params with
       | None => Ok (tp_setTokenID (Some PRVCoinID) params)
       | Some _ => Ok params
       end.

(** [s] is the random scalar of the signature. *)
Definition SignNoPrivacy (s : list Z) (privateKey : option (list Z)) (hashedMessage : list Z) : res (list Z * list Z) :=
  let* privateKey := deref privateKey in
  let sk := Scalar_FromBytesS privateKey in
  let* r := Scalar_FromUint64 0 in
  let* sigKey := SchnorrPrivateKey_Set sk r in
  let* signature := SchnorrPrivateKey_Sign s s hashedMessage sigKey in
  let* pk := deref (sp_publicKey (ss_publicKey sigKey)) in
  Ok (SchnSignature_Bytes signature, pk).

(** *** Estimates, in [uint64] *)

Definition toB64Len (numOfBytes : Z) : Z :=
  let l := u64 (numOfBytes * 4 + 2) / 3 in
  u64 (u64 (l + 3) / 4 * 4).

(** [uint64(math.Log2(float64(n)))]; of 0 it is the conversion of minus infinity,
    which on amd64 gives 2^63. *)
Definition log2_uint64 (n : Z) : Z := if n =? 0 then 2 ^ 63 else Z.log2 n.

Definition EstimateProofSizeV2 (numIn numOut : Z) : Z :=
  let coinSizeBound := 257 + (Z.of_nat Ed25519KeySize + 1) * 7 + Z.of_nat TxRandomGroupSize + 1 in
  let ipProofLRLen := u64 (log2_uint64 numOut + 1) in
  let aggProofSizeBound := u64 (4 + 1 + Z.of_nat Ed25519KeySize * u64 (7 + numOut) + 1 +
                                u64 (2 * ipProofLRLen + 3) * Z.of_nat Ed25519KeySize) in
  toB64Len (u64 (1 + (coinSizeBound + 1) * u64 (numIn + numOut) + 2 + aggProofSizeBound + 10)).

Record EstimateTxSizeParam (M : Type) := mkEstimate {
  es_numInputCoins : Z; es_numPayments : Z; es_metadata : option M; es_token : option TokenParam }.

(** The sizes of the signature and of its key for [numIn] inputs. *)
Definition sig_pub_key_size (numIn : Z) : Z := toB64Len (u64 (u64 (numIn * Z.of_nat RingSize * 9) + 2)).
Definition sig_size (numIn : Z) : Z := u64 (u64 (1 + numIn + u64 (numIn + 2) * Z.of_nat RingSize) * 33 + 3).

Definition EstimateTxSizeV2 {M} `{MetadataOps M} (p : EstimateTxSizeParam M) : Z :=
  let numIn := u64 (es_numInputCoins M p) in
  let numOut := u64 (es_numPayments M p) in
  let sizeMetadata := match es_metadata M p with Some m => md_CalculateSize m | None => 0 end in
  let sizeTx := u64 (202 + 1 + 5 + 24 + 24 + toB64Len 512 + sig_pub_key_size numIn + sig_size numIn +
                     EstimateProofSizeV2 numIn numOut + 3 + sizeMetadata) in
  match es_token M p with
  | None => sizeTx
  | Some t =>
      let tokenSize := u64 (toB64Len (Z.of_nat (length (tk_PropertyID t))) + Z.of_nat (length (tk_PropertySymbol t)) +
                            Z.of_nat (length (tk_PropertyName t)) + 2) in
      let numIn := Z.of_nat (length (tk_TokenInput t)) in
      let numOut := Z.of_nat (length (tk_Receiver t)) in
      u64 (sizeTx + u64 (tokenSize + 162 + sig_pub_key_size numIn + sig_size numIn + EstimateProofSizeV2 numIn numOut))
  end.

(** ** tx_base.go *)

Definition GetSenderShard {M} (param : TxPrivacyInitParams M) : res Z :=
  let* sk := deref (tp_SenderSK param) in
  let pubKey := Point_ScalarMultBase (Scalar_FromBytesS sk) in
  let* b := last_byte pubKey in
  Ok (GetShardIDFromLastByte b).

Definition GetTxInfo (paramInfo : option (list Z)) : res (option (list Z)) :=
  if (MaxSizeInfo <? length (default [] paramInfo))%nat then Err "length info exceeds max size" else Ok paramInfo.

(** The sums wrap around. *)
Fixpoint sum_amounts (sum : Z) (l : list (option PaymentInfo)) : res Z :=
  match l with
  | [] => Ok sum
  | o :: l => let* p := deref o in sum_amounts (u64 (sum + pi_Amount p)) l
  end.

Fixpoint sum_inputs (sum : Z) (l : list PlainCoin) : res Z :=
  match l with
  | [] => Ok sum
  | c :: l => let* v := PlainCoin_GetValue c in sum_inputs (u64 (sum + v)) l
  end.

(** The text of the error has the token's identifier, a pointer. *)
Definition CalculateSentBackInfo {M} (params : TxPrivacyInitParams M) (senderPaymentAddress : PaymentAddress)
    : res (TxPrivacyInitParams M) :=
  let* sumOutputValue := sum_amounts 0 (tp_PaymentInfo params) in
  let* sumInputValue := sum_inputs 0 (tp_InputCoins params) in
  let overBalance := i64 (u64 (u64 (sumInputValue - sumOutputValue) - tp_Fee params)) in
  if overBalance <? 0 then let* _ := deref (tp_TokenID params) in Err "sum of inputs less than outputs"
  else if 0 <? overBalance
  then Ok (tp_setPaymentInfo (tp_PaymentInfo params ++ [Some (mkPaymentInfo senderPaymentAddress (u64 overBalance) [])]) params)
  else Ok params.

Definition has_version (v : Z) (inputCoins : list PlainCoin) : bool :=
  existsb (fun c => PlainCoin_GetVersion c =? v) inputCoins.

Definition GetTxVersionFromCoins (inputCoins : list PlainCoin) : res Z :=
  if (length inputCoins =? 0)%nat then Ok CurrentTxVersion
  else if has_version 1 inputCoins && has_version 2 inputCoins
  then Err "cannot get tx version because there are 2 versions of input coins"
  else if negb (has_version 1 inputCoins) && negb (has_version 2 inputCoins)
  then Err "cannot get tx version, something is wrong with coins.version, it should be 1 or 2 only"
  else if has_version 2 inputCoins then Ok 2 else Ok 1.

(** [now] is [time.Now().Unix()] and [rnd] is [RandInt64()]. *)
Definition InitializeTxAndParams {M} (now rnd : Z) (params : TxPrivacyInitParams M) : st (TxBase M) (TxPrivacyInitParams M) :=
  let! senderKeySet := st_lift (res_wrap "cannot parse Private Key" (KeySet_InitFromPrivateKey (tp_SenderSK params))) in
  let! sk := st_lift (deref (tp_SenderSK params)) in
  let! _ := st_put (tx_SetPrivateKey (Some sk)) in
  let! _ := st_put (fun t => if tx_LockTime t =? 0 then tx_SetLockTime (i64 (now - (1 + Z.rem rnd 100))) t else t) in
  let! _ := st_put (fun t => tx_SetMetadata (tp_MetaData params) (tx_SetType TxNormalType (tx_SetTxFee (tp_Fee params) t))) in
  let! b := st_lift (last_byte (pa_Pk (ks_PaymentAddress senderKeySet))) in
  let! _ := st_put (tx_SetSenderAddrLastByte (GetShardIDFromLastByte b)) in
  let! _ := (fun t => match GetTxVersionFromCoins (tp_InputCoins params) with
                      | Err m => (tx_SetVersion 0 t, Err m)
                      | Ok v => (tx_SetVersion v t, Ok tt)
                      | Panic => (t, Panic) | OutOfFuel => (t, OutOfFuel)
                      end) in
  let! _ := (fun t => match GetTxInfo (tp_Info params) with
                      | Err m => (tx_SetInfo (Some []) t, Err m)
                      | Ok v => (tx_SetInfo v t, Ok tt)
                      | Panic => (t, Panic) | OutOfFuel => (t, OutOfFuel)
                      end) in
  st_lift (CalculateSentBackInfo params (ks_PaymentAddress senderKeySet)).

Section metadata.
Context {M : Type} `{MO : MetadataOps M} `{TC : TxCodec M}.
Implicit Type t : TxBase M.

(** *** JSON *)

Definition tx_MarshalJSON t : res (list Z) :=
  let* proof := match tx_Proof t with
                | None => Ok None
                | Some p => let* b := Proof_Bytes p in Ok (Some (base64_encode b))
                end in
  json_marshal (mkTxJson (tx_Version t) (tx_Type t) (tx_LockTime t) (tx_Fee t) (tx_Info t) (tx_SigPubKey t) (tx_Sig t)
                  proof (tx_PubKeyLastByteSender t) (tx_Metadata t)).

(** All members are present in what [Marshal] wrote; the private key is not exported. *)
Definition TxBase_UnmarshalJSON (data : list Z) t : res (TxBase M) :=
  let* j := json_unmarshal data in
  let proofType := if (js_Type j =? TxTokenConversionType)%string then TxNormalType else js_Type j in
  let* proof := ParseProof (js_Proof j) (js_Version j) proofType in
  Ok (mkTxBase (js_Version j) (js_Type j) (js_LockTime j) (js_Fee j) (js_Info j) (js_SigPubKey j) (js_Sig j) proof
        (js_PubKeyLastByteSender j) (js_Metadata j) (tx_sigPrivateKey t)).

(** [uint64(math.Ceil(float64(n) / 1024))], exact for the lengths of slices. *)
Definition kilobytes (n : Z) : Z := (n + 1023) / 1024.

Definition InvalidMeta : Z := 1.

Definition GetMetadataType t : Z := match tx_Metadata t with Some m => md_GetType m | None => InvalidMeta end.

Definition TxBase_GetTxActualSize t : res Z :=
  let* proof := match tx_Proof t with Some p => let* b := Proof_Bytes p in Ok (Z.of_nat (length b)) | None => Ok 0 end in
  let sizeTx := u64 (1 + (Z.of_nat (String.length (tx_Type t)) + 1) + 8 + 8 + Z.of_nat (length (default [] (tx_SigPubKey t))) +
                     Z.of_nat (length (default [] (tx_Sig t))) + proof + 1 + Z.of_nat (length (default [] (tx_Info t))) +
                     match tx_Metadata t with Some m => md_CalculateSize m | None => 0 end) in
  Ok (kilobytes sizeTx).

(** *** Receivers *)

Fixpoint add_receiver (pk : list Z) (v : Z) (l : list (list Z * Z)) : list (list Z * Z) :=
  match l with
  | [] => [(pk, v)]
  | (k, a) :: l => if bool_decide (pk = k) then (k, u64 (a + v)) :: l else (k, a) :: add_receiver pk v l
  end.

Fixpoint receivers (acc : list (list Z * Z)) (outs : list (option Coin)) : res (list (list Z * Z)) :=
  match outs with
  | [] => Ok acc
  | o :: outs =>
      let* c := deref o in
      let* pk := deref (Coin_GetPublicKey c) in
      let* v := Coin_GetValue c in
      receivers (add_receiver pk v acc) outs
  end.

(** The public keys with their amounts. *)
Definition GetReceivers t : res (list (list Z * Z)) :=
  match tx_Proof t with Some p => receivers [] (Proof_GetOutputCoins p) | None => Ok [] end.

Definition GetTransferData t : res (bool * option (list Z) * Z * list Z) :=
  let* l := GetReceivers t in
  match l with [(pk, v)] => Ok (true, Some pk, v, PRVCoinID) | _ => Ok (false, None, 0, PRVCoinID) end.

(** *** Hashes *)

(** Go compares strings by their bytes. *)
Fixpoint bytes_lt (a b : list Z) : bool :=
  match a, b with
  | _, [] => false
  | [], _ :: _ => true
  | x :: a, y :: b => (x <? y) || ((x =? y) && bytes_lt a b)
  end.

(** [sort.SliceStable] by the strings of the hashes: an element goes behind those
    that are not greater, so insertion from the right keeps the order of equals. *)
Fixpoint insert_hash (h : list Z) (l : list (list Z)) : list (list Z) :=
  match l with
  | [] => [h]
  | k :: l' => if bytes_lt (Hash_String k) (Hash_String h) then k :: insert_hash h l' else h :: l
  end.

Definition sort_hashes (l : list (list Z)) : list (list Z) := fold_right insert_hash [] l.

Definition key_image_hash (o : option PlainCoin) : res (list Z) :=
  let* c := deref o in let* ki := deref (PlainCoin_GetKeyImage c) in Ok (HashH ki).

Definition ListSerialNumbersHashH t : res (list (list Z)) :=
  match tx_Proof t with
  | None => Ok []
  | Some p => let* l := res_map key_image_hash (Proof_GetInputCoins p) in Ok (sort_hashes l)
  end.

Definition TxBase_String t : res (list Z) :=
  let* proof := match tx_Proof t with
                | Some p => let* b := Proof_Bytes p in Ok (base64_encode b)
                | None => Ok []
                end in
  let md := match tx_Metadata t with Some m => Hash_String (md_Hash m) | None => [] end in
  Ok (format_int (tx_Version t) ++ format_int (tx_LockTime t) ++ decimal (tx_Fee t) ++ proof ++ md).

Definition TxBase_Hash t : res (list Z) := let* s := TxBase_String t in Ok (HashH s).

(** *** Values and kinds *)

Fixpoint sum_coins (skip : option (list Z)) (acc : Z) (outs : list (option Coin)) : res Z :=
  match outs with
  | [] => Ok acc
  | o :: outs =>
      let* c := deref o in
      let* mine := match skip with
                   | None => Ok false
                   | Some pk => let* k := deref (Coin_GetPublicKey c) in Ok (bool_decide (pk = k))
                   end in
      if mine then sum_coins skip acc outs
      else let* v := Coin_GetValue c in sum_coins skip (u64 (acc + v)) outs
  end.

Definition CalculateTxValue t : res Z :=
  match tx_Proof t with
  | None => Ok 0
  | Some p =>
      match Proof_GetOutputCoins p, Proof_GetInputCoins p with
      | [], _ => Ok 0
      | outs, [] => sum_coins None 0 outs
      | outs, o :: _ => let* c := deref o in let* pk := deref (PlainCoin_GetPublicKey c) in sum_coins (Some pk) 0 outs
      end
  end.

(** The pair of the flag and the error: an error comes with [true]. *)
Definition IsNonPrivacyNonInput (s : list Z) (params : TxPrivacyInitParams M) : st (TxBase M) bool :=
  if (length (tp_InputCoins params) =? 0)%nat && (tp_Fee params =? 0) && negb (tp_HasPrivacy params) then
    let! sk := st_lift (deref (tp_SenderSK params)) in
    let! _ := st_put (tx_SetPrivateKey (Some sk)) in
    fun t =>
      match (let* h := TxBase_Hash t in SignNoPrivacy s (Some sk) h) with
      | Ok (sig, pk) => (tx_SetSigPubKey (Some pk) (tx_SetSig (Some sig) t), Ok true)
      | Err m => (tx_SetSigPubKey None (tx_SetSig None t), Err m)
      | Panic => (t, Panic)
      | OutOfFuel => (t, OutOfFuel)
      end
  else st_ret false.

Definition IsSalaryTx t : res bool :=
  if negb (tx_Type t =? TxRewardType)%string then Ok false
  else let* p := deref (tx_Proof t) in Ok (length (Proof_GetInputCoins p) =? 0)%nat.

Definition TxBase_IsPrivacy t : res bool := match tx_Proof t with None => Ok false | Some p => Proof_IsPrivacy p end.
End metadata.

(** ** metadatabase.go *)

(** [MetadataBase], and [MetadataBaseWithSignature] with its signature. *)
Inductive MetadataBase :=
| MetaBase (ty : Z)
| MetaSigned (ty : Z) (sig : list Z).

Definition MetadataBase_GetType (m : MetadataBase) : Z := match m with MetaBase ty | MetaSigned ty _ => ty end.
Definition MetadataBase_Hash (m : MetadataBase) : list Z := HashH (format_int (MetadataBase_GetType m)).

Definition MetadataBase_Sign (s : list Z) (privateKey : option (list Z)) (hash : res (option (list Z))) (m : MetadataBase)
    : MetadataBase * res unit :=
  match m with
  | MetaBase _ => (m, Ok tt)
  | MetaSigned ty sig =>
      match hash with
      | Ok None => (m, Ok tt)
      | Ok (Some h) =>
          if (0 <? length sig)%nat then (m, Err "cannot overwrite metadata signature")
          else
            match (let* (sig, _) := SignNoPrivacy s privateKey h in Ok sig) with
            | Ok sig => (MetaSigned ty sig, Ok tt)
            | Err e => (m, Err e)
            | Panic => (m, Panic)
            | OutOfFuel => (m, OutOfFuel)
            end
      | Err e => (m, Err e)
      | Panic => (m, Panic)
      | OutOfFuel => (m, OutOfFuel)
      end
  end.

#[export] Instance MetadataBase_ops : MetadataOps MetadataBase := {
  md_GetType := MetadataBase_GetType;
  md_Sign := MetadataBase_Sign;
  md_Hash := MetadataBase_Hash;
  md_HashWithoutSig m := Some (MetadataBase_Hash m);
  md_CalculateSize _ := 0 }.
End generic.

(** ** Properties *)

Section sent_back.
Context `{CO : CurveOps} `{DG : Digests}.

Lemma sum_amounts_ok infos : forall s, sum_amounts (u64 s) (map Some infos) = Ok (u64 (s + zsum (map pi_Amount infos))).
Proof using Type.
  induction infos as [|i infos IH]; intros s; cbn [map sum_amounts]; [unfold zsum; cbn [foldr]; by rewrite Z.add_0_r|].
  cbn [deref res_bind]. rewrite u64_add, IH. do 2 f_equal. unfold zsum. cbn [foldr]. lia.
Qed.

Lemma sum_inputs_ok ins vs : Forall2 (fun c v => PlainCoin_GetValue c = Ok v) ins vs ->
  forall s, sum_inputs (u64 s) ins = Ok (u64 (s + zsum vs)).
Proof using Type.
  induction 1 as [|c v ins vs Hc Hi IH]; intros s; cbn [sum_inputs]; [unfold zsum; cbn [foldr]; by rewrite Z.add_0_r|].
  rewrite Hc. cbn [res_bind]. rewrite u64_add, IH. do 2 f_equal. unfold zsum. cbn [foldr]. lia.
Qed.

Lemma zsum_app l1 l2 : zsum (l1 ++ l2) = zsum l1 + zsum l2.
Proof. induction l1 as [|x l1 IH]; unfold zsum in *; cbn [app foldr]; [done|]. rewrite IH. lia. Qed.

(** What is left over for the sender. *)
Definition change_of {M} (params : TxPrivacyInitParams M) (infos : list PaymentInfo) (vs : list Z) : Z :=
  zsum vs - zsum (map pi_Amount infos) - tp_Fee params.

Lemma CalculateSentBackInfo_eq {M} (params : TxPrivacyInitParams M) addr infos vs :
  tp_PaymentInfo params = map Some infos -> Forall2 (fun c v => PlainCoin_GetValue c = Ok v) (tp_InputCoins params) vs ->
  let over := i64 (change_of params infos vs) in
  CalculateSentBackInfo params addr =
    if over <? 0 then match tp_TokenID params with Some _ => Err "sum of inputs less than outputs" | None => Panic end
    else Ok (tp_setPaymentInfo (map Some (infos ++ if 0 <? over then [mkPaymentInfo addr over []] else [])) params).
Proof using Type.
  intros Hp Hi over. unfold CalculateSentBackInfo. rewrite Hp. change 0 with (u64 0) at 1 2.
  rewrite sum_amounts_ok, (sum_inputs_ok _ vs Hi). cbn [res_bind].
  rewrite (u64_sub_l (0 + _)), u64_sub_r, u64_sub_l, i64_u64, !Z.add_0_l. fold (change_of params infos vs). fold over.
  destruct (Z.ltb_spec over 0) as [Hn|Hn]; [by destruct (tp_TokenID params)|]. destruct (Z.ltb_spec 0 over) as [Hpos|Hz].
  - rewrite map_app. cbn [map]. unfold u64. rewrite Z.mod_small; [done|]. pose proof (i64_bounds (change_of params infos vs)). fold over in H. lia.
  - rewrite app_nil_r, <- Hp. by destruct params.
Qed.

(** C18: the change of a transaction.  When the difference of the inputs and the
    outputs with the fee fits in [int64], a negative one is an error (whose text needs
    the identifier of the token: without one the call panics), and otherwise
    the difference goes back to the sender as one more payment, if there is any, so
    that the inputs are exactly the payments and the fee.  The sums are [uint64]:
    whatever the amounts, what is accepted balances modulo 2^64 only. *)
Theorem sent_back_change {M} (params : TxPrivacyInitParams M) addr infos vs :
  tp_PaymentInfo params = map Some infos -> Forall2 (fun c v => PlainCoin_GetValue c = Ok v) (tp_InputCoins params) vs ->
  let change := change_of params infos vs in
  let r := CalculateSentBackInfo params addr in
  (- 2 ^ 63 <= change < 0 ->
     r = match tp_TokenID params with Some _ => Err "sum of inputs less than outputs" | None => Panic end) /\
  (0 <= change < 2 ^ 63 -> exists infos', r = Ok (tp_setPaymentInfo (map Some infos') params) /\
     infos' = infos ++ (if 0 <? change then [mkPaymentInfo addr change []] else []) /\
     zsum vs = zsum (map pi_Amount infos') + tp_Fee params) /\
  (forall params', r = Ok params' -> exists infos', tp_PaymentInfo params' = map Some infos' /\
     u64 (zsum vs) = u64 (zsum (map pi_Amount infos') + tp_Fee params)).
Proof using Type.
  intros Hp Hi change r. unfold r. rewrite (CalculateSentBackInfo_eq params addr infos vs Hp Hi). fold change. split; [|split].
  - intros Hc. rewrite i64_small by lia. by destruct (Z.ltb_spec change 0); [|lia].
  - intros Hc. rewrite i64_small by lia. destruct (Z.ltb_spec change 0); [lia|]. eexists. split; [reflexivity|]. split; [reflexivity|].
    rewrite map_app, zsum_app. unfold change, change_of in *. destruct (Z.ltb_spec 0 (zsum vs - zsum (map pi_Amount infos) - tp_Fee params));
      unfold zsum in *; cbn [map foldr pi_Amount]; lia.
  - intros params'. destruct (Z.ltb_spec (i64 change) 0) as [|Hpos]; [by destruct (tp_TokenID params)|]. intros E. injection E as <-. eexists. split; [reflexivity|].
    rewrite map_app, zsum_app. assert (u64 (i64 change) = u64 change) as Ec.
    { unfold i64, u64. rewrite Zminus_mod_idemp_l. f_equal. lia. }
    replace (zsum (map pi_Amount (if 0 <? i64 change then [mkPaymentInfo addr (i64 change) []] else []))) with (i64 change)
      by (destruct (Z.ltb_spec 0 (i64 change)); unfold zsum; cbn [map foldr pi_Amount]; lia).
    replace (zsum (map pi_Amount infos) + i64 change + tp_Fee params) with (i64 change + (zsum (map pi_Amount infos) + tp_Fee params)) by lia.
    rewrite <- u64_add, Ec, u64_add. f_equal. unfold change, change_of. lia.
Qed.
End sent_back.

#[local] Existing Instances toy_curve toy_curve_laws toy_digests toy_digest_laws toy_cipher toy_cipher_laws.

Definition toy_params (infos : list PaymentInfo) (fee : Z) : TxPrivacyInitParams unit :=
  NewTxPrivacyInitParams None (map Some infos) [PlainV1 (p1_SetValue 10 newPlainCoinV1)] fee true None None None None.

Definition toy_address : PaymentAddress := mkPaymentAddress [] [] [].

(** 10 pays 3 and a fee of 5, and 2 go back; and 10 pay 2^64 - 1 and 6, with a fee of 5. *)
Lemma sent_back_change_witness :
  CalculateSentBackInfo (toy_params [mkPaymentInfo toy_address 6 []] 5) toy_address = Panic /\
  (exists infos', CalculateSentBackInfo (toy_params [mkPaymentInfo toy_address 3 []] 5) toy_address =
     Ok (tp_setPaymentInfo (map Some infos') (toy_params [mkPaymentInfo toy_address 3 []] 5)) /\ length infos' = 2%nat) /\
  let big := toy_params [mkPaymentInfo toy_address (2 ^ 64 - 1) []; mkPaymentInfo toy_address 6 []] 5 in
  CalculateSentBackInfo big toy_address = Ok big /\
  (exists infos', tp_PaymentInfo big = map Some infos' /\ u64 10 = u64 (zsum (map pi_Amount infos') + 5)).
Proof.
  split; [|split].
  - destruct (sent_back_change (toy_params [mkPaymentInfo toy_address 6 []] 5) toy_address [mkPaymentInfo toy_address 6 []] [10] eq_refl)
      as (H & _); [by repeat constructor|]. apply H. vm_compute. split; [discriminate|reflexivity].
  - destruct (sent_back_change (toy_params [mkPaymentInfo toy_address 3 []] 5) toy_address [mkPaymentInfo toy_address 3 []] [10] eq_refl)
      as (_ & H & _); [by repeat constructor|]. destruct H as (infos' & E & -> & _); [vm_compute; split; [discriminate|reflexivity]|].
    exists [mkPaymentInfo toy_address 3 []; mkPaymentInfo toy_address 2 []]. split; [exact E|reflexivity].
  - intros big. assert (CalculateSentBackInfo big toy_address = Ok big) as E by reflexivity. split; [exact E|].
    destruct (sent_back_change big toy_address [mkPaymentInfo toy_address (2 ^ 64 - 1) []; mkPaymentInfo toy_address 6 []] [10] eq_refl)
      as (_ & _ & H); [by repeat constructor|]. exact (H big E).
Defined.
