(* ===== verification/TxV2.v ===== *)
(** * TxV2.v: transactions of version 2

    [src/transaction/tx_ver2/tx_ver2.go] and the first part of [tx_token_ver2.go]
    ([provePRV]): a transfer hides its inputs in a ring of [RingSize] rows, one
    of them ([pi], drawn at random) with the coins of the sender, and signs it
    with MLSAG; the last column of the ring holds the sum of the commitments of
    the row minus those of the outputs and the fee, which commits to zero
    exactly when nothing is created.  The results of the random generators are
    the record [TxRandomness]. *)

From stdpp Require Import base list gmap strings.
From Stdlib Require Import ZArith Lia.
From S2P Require Import Prelude Cursor Common Hashing Encoding Crypto Key Base58 Base58Check Wallet CoinV2 Hybrid CoinV1 Schnorr Mlsag Linear Bulletproof Sigma OneOutOfMany ProofV1 Payment ProofV2 Utxo TxGeneric.
Open Scope Z_scope.

(** What the code draws: the time and [RandInt64], the scalars of the Schnorr
    signatures (of the transaction and of its metadata), the three scalars of
    each output coin, those of the range proof, the row of the sender, and the
    scalars of the ring signature. *)
Record TxRandomness := mkTxRandomness {
  tr_now : Z; tr_int64 : Z;
  tr_schnorr : list Z; tr_metadata : list Z;
  tr_mask : nat -> list Z; tr_shared : nat -> list Z; tr_conceal : nat -> list Z;
  tr_range : nat -> list Z;
  tr_pi : res nat;
  tr_alpha : nat -> list Z; tr_r : nat -> nat -> list Z }.

(** The keys of [KvArgs]. *)
Definition kv_CommitmentIndices : string := "indices".
Definition kv_Commitments : string := "commitments".
Definition kv_MyIndices : string := "myCommitmentIndices".
Definition kv_PublicKeys : string := "publicKeys".
Definition kv_AssetTags : string := "assetTags".

(** ** SigPubKey *)

(** The indices are natural numbers of any size. *)
Definition index_bytes (x : Z) : res (list Z) :=
  let b := bigint_bytes x in
  if (MaxSizeByte <? length b)%nat then Err "TxSigPublicKeyVer2.ToBytes: IndexesByte is too large"
  else Ok (u8 (Z.of_nat (length b)) :: b).

Definition SigPubKey_Bytes (Indexes : list (list Z)) : res (list Z) :=
  match Indexes with
  | [] => Err "TxSigPublicKeyVer2.ToBytes: Indexes is empty"
  | row :: _ =>
      let n := length Indexes in
      let m := length row in
      if (MaxSizeByte <? n)%nat then Err "TxSigPublicKeyVer2.ToBytes: Indexes is too large, too many rows"
      else if (MaxSizeByte <? m)%nat then Err "TxSigPublicKeyVer2.ToBytes: Indexes is too large, too many columns"
      else if negb (rectangular Indexes) then Err "TxSigPublicKeyVer2.ToBytes: Indexes is not a rectangle array"
      else
        let* bs := res_map index_bytes (concat Indexes) in
        Ok (u8 (Z.of_nat n) :: u8 (Z.of_nat m) :: concat bs)
  end.

Fixpoint parse_row (b : list Z) (m offset : nat) : res (list Z * nat) :=
  match m with
  | O => Ok ([], offset)
  | S m =>
      if (length b <=? offset)%nat then Err "txSigPubKeyFromBytes: cannot parse byte length of index[i][j]"
      else
        let* l := index b offset in
        let n := Z.to_nat l in
        if (length b <? offset + 1 + n)%nat then Err "txSigPubKeyFromBytes: cannot parse big int index[i][j]"
        else
          let* x := slice b (offset + 1) (offset + 1 + n) in
          let* (row, off) := parse_row b m (offset + 1 + n) in
          Ok (bigint_set_bytes x :: row, off)
  end.

Fixpoint parse_matrix (b : list Z) (n m offset : nat) : res (list (list Z)) :=
  match n with
  | O => Ok []
  | S n =>
      let* (row, off) := parse_row b m offset in
      let* rows := parse_matrix b n m off in
      Ok (row :: rows)
  end.

Definition SigPubKey_SetBytes (b : list Z) : res (list (list Z)) :=
  if (length b <? 2)%nat then Err "txSigPubKeyFromBytes: cannot parse length of Indexes"
  else
    let* n := index b 0 in
    let* m := index b 1 in
    parse_matrix b (Z.to_nat n) (Z.to_nat m) 2.

Section tx.
Context `{CO : CurveOps} `{DG : Digests} `{LR : LRU} `{AL : Allocator} `{HD : HDWallet} `{BC : BlockCipher}.

(** ** The ring *)

Definition kv_indices (kv : kv_args) (key : string) : res (list Z) :=
  match kv_get kv key with
  | None => Err "not found"
  | Some (KvIndices l) => Ok l
  | Some _ => Err "cannot parse"
  end.

Definition kv_points (kv : kv_args) (key : string) : res (list (option (list Z))) :=
  match kv_get kv key with
  | None => Err "not found"
  | Some (KvPoints l) => Ok l
  | Some _ => Err "cannot parse"
  end.

Definition enough {A} (n : nat) (l : list A) : res (list A) :=
  if (length l <? n)%nat then Err "not enough" else Ok l.

Record ring_params := mkRingParams {
  rg_cmtIndices : list Z; rg_myIndices : list Z;
  rg_commitments : list (option (list Z)); rg_publicKeys : list (option (list Z)); rg_assetTags : list (option (list Z)) }.

Definition parseParamsForRing (kv : kv_args) (lenInput ringSize : nat) : res ring_params :=
  match kv with
  | None => Err "kvArgs is nil: need more params to proceed"
  | Some _ =>
      let decoys := (lenInput * (ringSize - 1))%nat in
      let* l := kv_indices kv kv_CommitmentIndices in
      let* cmtIndices := enough decoys l in
      let* l := kv_points kv kv_Commitments in
      let* commitments := enough decoys l in
      let* l := kv_points kv kv_PublicKeys in
      let* publicKeys := enough decoys l in
      let* assetTags := kv_points kv kv_AssetTags in
      let* myIndices := kv_indices kv kv_MyIndices in
      if negb (length myIndices =? lenInput)%nat then Err "not enough indices for input coins"
      else Ok (mkRingParams cmtIndices myIndices commitments publicKeys assetTags)
  end.

Definition PlainCoin_GetCommitment (c : PlainCoin) : option (list Z) :=
  match c with PlainV1 c => p1_commitment c | PlainV2 c => c2_commitment c end.

(** A row of the ring with its indices and the sum of its commitments, which starts
    from [sum].  The keys may be [nil]; the commitments are dereferenced. *)
Fixpoint own_row (ins : list PlainCoin) (myIndices : list Z) (j : nat) (sum : list Z)
    : res (list (option (list Z)) * list Z * list Z) :=
  match ins with
  | [] => Ok ([], [], sum)
  | c :: ins =>
      let* ix := index myIndices j in
      let* com := deref (PlainCoin_GetCommitment c) in
      let* (row, ixs, sum) := own_row ins myIndices (S j) (Point_Add sum com) in
      Ok (PlainCoin_GetPublicKey c :: row, ix :: ixs, sum)
  end.

Fixpoint decoy_row (rp : ring_params) (m currentIndex : nat) (sum : list Z) : res (list (option (list Z)) * list Z * list Z) :=
  match m with
  | O => Ok ([], [], sum)
  | S m =>
      let* ix := index (rg_cmtIndices rp) currentIndex in
      let* pk := index (rg_publicKeys rp) currentIndex in
      let* o := index (rg_commitments rp) currentIndex in
      let* com := deref o in
      let* (row, ixs, sum) := decoy_row rp m (S currentIndex) (Point_Add sum com) in
      Ok (pk :: row, ix :: ixs, sum)
  end.

(** The rows from [i] on, [k] of them; the third component is the commitment of the
    row [pi], if it is among them. *)
Fixpoint ring_rows (rp : ring_params) (ins : list PlainCoin) (start : list Z) (pi k i currentIndex : nat)
    : res (list (list (option (list Z))) * list (list Z) * option (list Z)) :=
  match k with
  | O => Ok ([], [], None)
  | S k =>
      let own := (i =? pi)%nat in
      let* (row, ixs, sum) := if own then own_row ins (rg_myIndices rp) 0 start
                              else decoy_row rp (length ins) currentIndex start in
      let* (rows, ixss, zero) := ring_rows rp ins start pi k (S i) (if own then currentIndex else currentIndex + length ins)%nat in
      Ok ((row ++ [Some sum]) :: rows, ixs :: ixss, if own then Some sum else zero)
  end.

Definition generateMLSAGRingWithIndexes (inputCoins : list PlainCoin) (outputCoins : list CoinV2) (fee : Z) (kv : kv_args)
    (pi ringSize : nat) : res (list (list (option (list Z))) * list (list Z) * option (list Z)) :=
  let* rp := parseParamsForRing kv (length inputCoins) ringSize in
  let* sumOutputsWithFee := CalculateSumOutputsWithFee (map CoinOf2 outputCoins) fee in
  ring_rows rp inputCoins (Point_Sub Identity sumOutputsWithFee) pi ringSize 0 0.

(** ** The private keys *)

Definition PlainCoin_ParsePrivateKeyOfCoin (privateKey : list Z) (c : PlainCoin) : res (list Z) :=
  match c with
  | PlainV1 _ => Ok (PlainCoinV1_ParsePrivateKeyOfCoin privateKey)
  | PlainV2 c => CoinV2_ParsePrivateKeyOfCoin privateKey c
  end.

Fixpoint sum_scalars (op : list Z -> list Z -> list Z) (acc : list Z) (l : list (option (list Z))) : res (list Z) :=
  match l with
  | [] => Ok acc
  | o :: l => let* r := deref o in sum_scalars op (op acc r) l
  end.

Definition createPrivateKeyMlsag (inputCoins : list PlainCoin) (outputCoins : list CoinV2) (senderSK : option (list Z))
    (commitmentToZero : option (list Z)) : res (list (list Z)) :=
  let* zero := Scalar_FromUint64 0 in
  let* sumRand := sum_scalars Scalar_Add zero (map PlainCoin_GetRandomness inputCoins) in
  let* sumRand := sum_scalars Scalar_Sub sumRand (map c2_mask outputCoins) in
  let* keys := res_map (fun c => let* sk := deref senderSK in PlainCoin_ParsePrivateKeyOfCoin sk c) inputCoins in
  let* h := index PedG PedersenRandomnessIndex in
  let* commitmentToZero := deref commitmentToZero in
  if negb (IsPointEqual (Point_ScalarMult h sumRand) commitmentToZero)
  then Err "asset tag sum or commitment sum mismatch"
  else Ok (keys ++ [sumRand]).

(** [privacy.ArrayScalarToBytes] *)
Definition ArrayScalarToBytes (arr : list (list Z)) : res (list Z) :=
  if (255 <? length arr)%nat then Err "ArrayScalarToBytes: length of scalar array is too big"
  else Ok (u8 (Z.of_nat (length arr)) :: concat arr).

(** The points of the ring are dereferenced when the challenges are computed. *)
Definition ring_points (rows : list (list (option (list Z)))) : res Ring := res_map (res_map deref) rows.

(** The scalars that [createRandomChallenges] draws for a ring of [n] rows of [m] keys. *)
Definition drawn_alpha (R : TxRandomness) (m : nat) : list (list Z) := map (tr_alpha R) (seq 0 m).
Definition drawn_r (R : TxRandomness) (n m : nat) : list (list (list Z)) := map (fun i => map (tr_r R i) (seq 0 m)) (seq 0 n).

Section metadata.
Context {M : Type} `{MO : MetadataOps M} `{TC : TxCodec M}.

(** ** Signing *)

Definition signOnMessage (R : TxRandomness) (inp : list PlainCoin) (out : list CoinV2) (params : TxPrivacyInitParams M)
    (hashedMessage : list Z) : st (TxBase M) unit := fun t =>
  match tx_Sig t with
  | Some _ => (t, Err "input transaction must be an unsigned one")
  | None =>
      (let! pi := st_lift (tr_pi R) in
       let! ring := st_lift (generateMLSAGRingWithIndexes inp out (tp_Fee params) (tp_KvArgs params) pi RingSize) in
       let '(rows, indexes, commitmentToZero) := ring in
       let! _ := st_field tx_SetSigPubKey (SigPubKey_Bytes indexes) in
       let! keys := st_lift (createPrivateKeyMlsag inp out (tp_SenderSK params) commitmentToZero) in
       let! sag := st_lift (NewMlsag keys [] pi) in
       let! sk := st_lift (ArrayScalarToBytes keys) in
       let! _ := st_put (tx_SetPrivateKey (Some sk)) in
       let! points := st_lift (ring_points rows) in
       let m := length keys in
       let sag := mkMlsag points pi (ml_keyImages sag) keys in
       let! sig := st_lift (Mlsag_Sign (drawn_alpha R m) (drawn_r R RingSize m) hashedMessage sag) in
       st_field tx_SetSig (Sig_ToBytes (mkSig (sig_c sig) [] (sig_r sig)))) t
  end.

(** ** Hashes *)

(** The receiver is a value: signature and key are left out of the hash. *)
Definition Tx_Hash (t : TxBase M) : res (option (list Z)) :=
  match tx_MarshalJSON (tx_SetSigPubKey (Some []) (tx_SetSig (Some []) t)) with
  | Ok b => Ok (Some (HashH b))
  | Err _ => Ok None
  | Panic => Panic
  | OutOfFuel => OutOfFuel
  end.

Definition Tx_HashWithoutMetadataSig (t : TxBase M) : res (option (list Z)) :=
  let* md := deref (tx_Metadata t) in
  let mdHash := md_HashWithoutSig md in
  let* txHash := Tx_Hash (tx_SetMetadata None t) in
  match mdHash, txHash with
  | Some h1, Some h2 => Ok (Some (HashH (h1 ++ h2)))
  | _, _ => Ok None
  end.

(** [tx.Hash()[:]], which panics on [nil]. *)
Definition Tx_HashBytes (t : TxBase M) : res (list Z) := let* h := Tx_Hash t in deref h.

(** ** Proving *)

Section prove.
Context (fuel : nat) (aggParam : bulletproofParams) (R : TxRandomness).

(** The output coin of the payment number [i]. *)
Definition new_output (params : TxPrivacyInitParams M) (i : nat) (o : option PaymentInfo) : res CoinV2 :=
  let* shard := GetSenderShard params in
  let* info := deref o in
  let* p := NewTransferCoinParams info [shard] in
  NewCoinFromPaymentInfo fuel (tr_mask R i) (tr_shared R i) (tr_conceal R i) p.

Fixpoint new_outputs (params : TxPrivacyInitParams M) (i : nat) (infos : list (option PaymentInfo)) : res (list CoinV2) :=
  match infos with
  | [] => Ok []
  | o :: infos =>
      let* c := new_output params i o in
      let* cs := new_outputs params (S i) infos in
      Ok (c :: cs)
  end.

(** [provePRV]: the proof, and the signature of the metadata.  Without confidential
    assets the global commitment scheme is not used. *)
Definition provePRV (params : TxPrivacyInitParams M) : st (TxBase M) (list PlainCoin * list CoinV2) :=
  let! outputCoins := st_lift (new_outputs params 0 (tp_PaymentInfo params)) in
  let inputCoins := tp_InputCoins params in
  let! proof := st_lift (snd (ProveV2 (tr_range R) aggParam inputCoins outputCoins [] false (tp_PaymentInfo params) [])) in
  let! _ := st_put (tx_SetProof (Some (ProofOf2 proof))) in
  let! _ := (fun t => match tx_Metadata t with
                      | None => (t, Ok tt)
                      | Some md =>
                          let '(md, r) := md_Sign (tr_metadata R) (tp_SenderSK params) (Tx_HashWithoutMetadataSig t) md in
                          (tx_SetMetadata (Some md) t, r)
                      end) in
  st_ret (inputCoins, outputCoins).

(** [prove] is the same followed by the signature. *)
Definition Tx_prove (params : TxPrivacyInitParams M) : st (TxBase M) unit :=
  let! coins := provePRV params in
  let '(inputCoins, outputCoins) := coins in
  let! h := (fun t => (t, Tx_HashBytes t)) in
  signOnMessage R inputCoins outputCoins params h.

(** ** Init *)

Definition Tx_GetTxActualSize (t : TxBase M) : res Z :=
  match tx_MarshalJSON t with
  | Ok b => Ok (kilobytes (Z.of_nat (length b)))
  | Err _ => Ok 0
  | Panic => Panic
  | OutOfFuel => OutOfFuel
  end.

(** The transaction is written as JSON, read back, and has to have the same hash. *)
Definition check_json (t : TxBase M) : res unit :=
  let* jsb := res_wrap "marshal tx error" (tx_MarshalJSON t) in
  let* tx1 := TxBase_UnmarshalJSON jsb TxBase_new in
  let* h1 := Tx_HashBytes tx1 in
  let* h := Tx_HashBytes t in
  if bool_decide (Hash_String h1 = Hash_String h) then Ok tt else Err "txHash changes after unmarshalling".

Definition Tx_Init (params : TxPrivacyInitParams M) : st (TxBase M) unit :=
  let! params := st_lift (ValidateTxParams params) in
  let! params := InitializeTxAndParams (tr_now R) (tr_int64 R) params in
  let! check := IsNonPrivacyNonInput (tr_schnorr R) params in
  if check then st_ret tt
  else
    let! _ := Tx_prove params in
    fun t =>
      (t, let* _ := check_json t in
          let* txSize := Tx_GetTxActualSize t in
          if MaxTxSize <? txSize then Err "Can not exceed tx size" else Ok tt).
End prove.

(** ** The other methods *)

Definition Tx_GetReceiverData (t : TxBase M) : res (list (option Coin)) :=
  match tx_Proof t with Some p => Ok (Proof_GetOutputCoins p) | None => Ok [] end.

Definition Tx_GetTxMintData (t : TxBase M) := GetTxMintData (Tx_GetReceiverData t) (tx_Proof t) PRVCoinID.
Definition Tx_GetTxBurnData (t : TxBase M) := GetTxBurnData (Tx_GetReceiverData t).

(** The hashes of the public keys that are not burnt. *)
Fixpoint ota_hashes (outs : list (option Coin)) : res (list (list Z)) :=
  match outs with
  | [] => Ok []
  | o :: outs =>
      let* c := deref o in
      let* pk := deref (Coin_GetPublicKey c) in
      let* burning := IsPublicKeyBurningAddress pk in
      let* l := ota_hashes outs in
      Ok (if burning then l else HashH pk :: l)
  end.

Definition Tx_ListOTAHashH (t : TxBase M) : res (list (list Z)) :=
  match tx_Proof t with
  | None => Ok []
  | Some p => let* l := ota_hashes (Proof_GetOutputCoins p) in Ok (sort_hashes l)
  end.

(** A salary transaction: one output, signed without privacy.  [now] is the time. *)
Definition InitTxSalary (s : list Z) (now : Z) (otaCoin : CoinV2) (privateKey : option (list Z)) (metaData : option M)
    : st (TxBase M) unit :=
  let! _ := st_put (fun t => let t := tx_SetType TxRewardType (tx_SetVersion 2 t) in
                             if tx_LockTime t =? 0 then tx_SetLockTime now t else t) in
  let '(proof, r) := SetOutputCoinsV2 [otaCoin] (ProofV2_Init ProofV2_new) in
  let! _ := st_lift r in
  let! _ := st_put (tx_SetProof (Some (ProofOf2 proof))) in
  let! pk := st_lift (deref (c2_publicKey otaCoin)) in
  let! b := st_lift (last_byte pk) in
  let! sk := st_lift (deref privateKey) in
  let! _ := st_put (fun t => tx_SetMetadata metaData (tx_SetPrivateKey (Some sk) (tx_SetSenderAddrLastByte (GetShardIDFromLastByte b) t))) in
  fun t => match (let* h := Tx_HashBytes t in SignNoPrivacy s privateKey h) with
           | Ok (sig, pk) => (tx_SetSigPubKey (Some pk) (tx_SetSig (Some sig) t), Ok tt)
           | Err m => (tx_SetSigPubKey None (tx_SetSig None t), Err m)
           | Panic => (t, Panic)
           | OutOfFuel => (t, OutOfFuel)
           end.
End metadata.
End tx.

(** ** SigPubKey: reading back *)

Lemma bigint_inverse x : 0 <= x -> bigint_set_bytes (bigint_bytes x) = x.
Proof. intros Hx. unfold bigint_bytes, bigint_set_bytes. rewrite Z.abs_eq by done. by apply (to_digits_spec 256). Qed.

Definition index_fits (x : Z) : Prop := 0 <= x < 256 ^ Z.of_nat MaxSizeByte.

Lemma index_bytes_ok x : index_fits x ->
  index_bytes x = Ok (Z.of_nat (length (bigint_bytes x)) :: bigint_bytes x) /\ (length (bigint_bytes x) <= 255)%nat.
Proof.
  intros Hx. assert (length (bigint_bytes x) <= MaxSizeByte)%nat as Hl.
  { unfold bigint_bytes. destruct Hx as [H0 H1]. rewrite Z.abs_eq by done. by apply (to_digits_length 256). }
  unfold index_bytes. rewrite (proj2 (Nat.ltb_ge _ _) Hl). unfold MaxSizeByte in Hl. rewrite u8_small by done. done.
Qed.

Definition row_bytes (row : list Z) : list Z := concat (map (fun x => Z.of_nat (length (bigint_bytes x)) :: bigint_bytes x) row).

Lemma parse_row_run mem row : Forall index_fits row -> forall off post, rest mem off (row_bytes row ++ post) ->
  parse_row mem (length row) off = Ok (row, (off + length (row_bytes row))%nat) /\
  rest mem (off + length (row_bytes row)) post.
Proof.
  induction 1 as [|x row Hx Hrow IH]; intros off post R.
  - cbn [length parse_row row_bytes map concat app] in *. by rewrite Nat.add_0_r.
  - unfold row_bytes in *. cbn [map concat length parse_row] in *. rewrite <- app_assoc in R.
    rewrite (rest_more _ _ _ _ R), (index_rest _ _ _ _ R). cbn [res_bind]. rewrite Nat2Z.id.
    apply rest_move_one in R. rewrite (rest_room _ _ _ _ _ R) by lia.
    rewrite (slice_rest _ _ _ _ _ R eq_refl). cbn [res_bind]. rewrite bigint_inverse by apply Hx.
    destruct (IH _ _ (rest_move _ _ _ _ _ R eq_refl)) as [-> R']. cbn [res_bind]. rewrite length_app. cbn [length] in *.
    rewrite <- (Nat.add_assoc off 1), <- (Nat.add_assoc off) in *. by split.
Qed.

Lemma parse_matrix_run mem m rows : Forall (fun row => length row = m /\ Forall index_fits row) rows ->
  forall off post, rest mem off (concat (map row_bytes rows) ++ post) ->
  parse_matrix mem (length rows) m off = Ok rows.
Proof.
  induction 1 as [|row rows [Hm Hrow] Hrows IH]; intros off post R; [done|].
  cbn [map concat length parse_matrix] in *. rewrite <- app_assoc in R.
  destruct (parse_row_run mem row Hrow _ _ R) as [E R']. rewrite Hm in E. rewrite E. cbn [res_bind].
  by rewrite (IH _ _ R').
Qed.

Lemma parse_row_safe b m : forall off, res_safe (parse_row b m off).
Proof.
  induction m as [|m IH]; intros off; cbn [parse_row]; [done|].
  destruct (Nat.leb_spec (length b) off); [done|]. destruct (index_safe b off) as (l & -> & _); [lia|]. cbn [res_bind].
  destruct (Nat.ltb_spec (length b) (off + 1 + Z.to_nat l)); [done|].
  destruct (slice_safe b (off + 1) (off + 1 + Z.to_nat l)) as (d & -> & _); [lia|]. cbn [res_bind].
  specialize (IH (off + 1 + Z.to_nat l)%nat). by destruct (parse_row _ _ _) as [[]| | |].
Qed.

Lemma parse_matrix_safe b m n : forall off, res_safe (parse_matrix b n m off).
Proof.
  induction n as [|n IH]; intros off; cbn [parse_matrix]; [done|].
  pose proof (parse_row_safe b m off) as Hr. destruct (parse_row _ _ _) as [[row o]| | |]; try done. cbn [res_bind].
  specialize (IH o). by destruct (parse_matrix _ _ _ _).
Qed.

Lemma concat_row_bytes rows : concat (map row_bytes rows) = row_bytes (concat rows).
Proof. induction rows as [|row rows IH]; [done|]. cbn [map concat]. unfold row_bytes in *. by rewrite map_app, concat_app, IH. Qed.

(** What a matrix of indices that is accepted looks like. *)
Definition indexes_ok (m : nat) (rows : list (list Z)) : Prop :=
  rows <> [] /\ (length rows <= MaxSizeByte)%nat /\ (m <= MaxSizeByte)%nat /\
  Forall (fun row => length row = m /\ Forall index_fits row) rows.

Lemma SigPubKey_run m rows : indexes_ok m rows ->
  exists b, SigPubKey_Bytes rows = Ok b /\ SigPubKey_SetBytes b = Ok rows.
Proof.
  intros (Hne & Hn & Hm & Hrows). set (b := Z.of_nat (length rows) :: Z.of_nat m :: concat (map row_bytes rows)).
  exists b. split.
  - destruct rows as [|row rows'] eqn:E; [done|]. rewrite <- E in *.
    assert (length row = m) as Hrow by (rewrite E in Hrows; by inversion Hrows as [|? ? []]).
    unfold SigPubKey_Bytes. rewrite E. rewrite <- E. cbv zeta.
    rewrite Hrow, (proj2 (Nat.ltb_ge _ _) Hn), (proj2 (Nat.ltb_ge _ _) Hm).
    rewrite (rectangular_spec rows m (Forall_row_length _ m rows Hrows)). cbn [negb].
    rewrite (res_map_ok index_bytes (fun x => Z.of_nat (length (bigint_bytes x)) :: bigint_bytes x)).
    2: { eapply Forall_impl; [exact (Forall_concat_rows _ m rows Hrows)|]. intros x Hx. apply index_bytes_ok, Hx. }
    cbn [res_bind]. rewrite !u8_small by done. unfold b. rewrite concat_row_bytes, <- E. reflexivity.
  - unfold SigPubKey_SetBytes. change (length b <? 2)%nat with false. cbv iota.
    change (index b 0) with (Ok (Z.of_nat (length rows))). change (index b 1) with (Ok (Z.of_nat m)). cbn [res_bind].
    rewrite !Nat2Z.id. apply (parse_matrix_run b m rows Hrows 2 []). rewrite app_nil_r.
    exact (rest_move b 0 2 [_; _] _ (rest_start b) eq_refl).
Qed.

(** The indices of the ring, which take the place of the public key: [Bytes]
    accepts every rectangle of up to 255 rows and columns whose indices take at
    most 255 bytes, and [SetBytes] reads it back; on arbitrary bytes [SetBytes]
    returns, with a matrix or with an error. *)
Theorem SigPubKey_roundtrip m rows b : indexes_ok m rows ->
  (exists b, SigPubKey_Bytes rows = Ok b /\ SigPubKey_SetBytes b = Ok rows) /\ res_safe (SigPubKey_SetBytes b).
Proof.
  intros Hok. split; [by apply (SigPubKey_run m)|]. unfold SigPubKey_SetBytes.
  destruct (Nat.ltb_spec (length b) 2); [done|].
  destruct (index_safe b 0) as (n & -> & _); [lia|]. destruct (index_safe b 1) as (k & -> & _); [lia|].
  cbn [res_bind]. apply parse_matrix_safe.
Qed.

Lemma SigPubKey_roundtrip_witness :
  (exists b, SigPubKey_Bytes [[7; 0]; [2 ^ 70; 65536]] = Ok b /\ SigPubKey_SetBytes b = Ok [[7; 0]; [2 ^ 70; 65536]]) /\
  res_safe (SigPubKey_SetBytes [2; 9; 1]).
Proof.
  apply (SigPubKey_roundtrip 2). split; [done|]. split; [apply Nat.leb_le; reflexivity|]. split; [apply Nat.leb_le; reflexivity|].
  repeat (apply Forall_cons; split; [split; [reflexivity|]|]); try apply Forall_nil; try done.
  all: repeat (apply Forall_cons; split; [split; [apply Z.leb_le; vm_compute; reflexivity|apply Z.ltb_lt; vm_compute; reflexivity]|]); by apply Forall_nil.
Defined.
