(* ===== verification/Transfer.v ===== *)
(** * Transfer.v: a transfer of version 2 goes through

    The composition of the parts: one-time addresses ([CoinV2]), the payment proof
    ([ProofV2], [Bulletproof]) and the ring signature ([Mlsag]) in [Init] of
    [src/transaction/tx_ver2/tx_ver2.go]. *)

From stdpp Require Import base list gmap strings.
From Stdlib Require Import ZArith Lia.
From S2P Require Import Prelude Cursor Common Hashing Encoding Crypto Key Base58 Base58Check Wallet Burning CoinV2 Hybrid CoinV1 Schnorr Mlsag Linear Bulletproof Sigma OneOutOfMany ProofV1 Payment ProofV2 Utxo TxGeneric TxV2.
Open Scope Z_scope.

(** ** Output coins *)

Section transfer.
Context `{CL : CurveLaws} `{DL : DigestLaws} `{LL : LRULaws} `{AA : AllocatorLaws} `{HD : HDWallet} `{BL : BlockCipherLaws}.
Context (g h : list Z) (Eg : index PedG PedersenValueIndex = Ok g) (Eh : index PedG PedersenRandomnessIndex = Ok h)
  (Hg : pt_ok g) (Hh : pt_ok h).

(** A payment that can be made.  A coin to the burning address keeps the empty random
    part, whose first half has to be a point to be read back. *)
Definition payable_info (info : PaymentInfo) : Prop :=
  is_u64 (pi_Amount info) /\ bytes_ok (pi_Message info) /\ (length (pi_Message info) <= 255)%nat /\
  pt_ok (pa_Pk (pi_PaymentAddress info)) /\ pt_ok (pa_OTAPublic (pi_PaymentAddress info)) /\
  (exists rk, pa_Tk (pi_PaymentAddress info) = ScalarMultKey GBASE (sc rk)) /\
  (IsPublicKeyBurningAddress (pa_Pk (pi_PaymentAddress info)) = Ok false \/ ge_frombytes (replicate 32 0) = true).

(** No index up to [fuel] gives a key for the payment. *)
Definition still_searching (fuel : nat) (sender : Z) (shared : list Z) (info : PaymentInfo) : Prop :=
  let addr := pi_PaymentAddress info in
  exists b, last_byte (pa_Pk addr) = Ok b /\
  forall j, 0 < j <= Z.of_nat fuel ->
    accept_params (GetShardIDFromLastByte b) (mkCoinParams info sender PrivacyTypeTransfer)
      (ota_key (ScalarMultKey (pa_OTAPublic addr) shared) (pa_Pk addr) j) = Ok false.

(** The owner of the address, who has the private key, computes the key of the coin. *)
Definition payee_key (info : PaymentInfo) (c : CoinV2) : Prop := forall sk ks, sc_ok sk -> KeySet_InitFromPrivateKey (Some sk) = Ok ks ->
  pi_PaymentAddress info = ks_PaymentAddress ks -> IsPublicKeyBurningAddress (pa_Pk (pi_PaymentAddress info)) = Ok false ->
  exists x, CoinV2_ParsePrivateKeyOfCoin sk c = Ok x /\ sc_ok x /\ c2_publicKey c = Some (ScalarMultKey GBASE x).

(** What the new coin holds. *)
Definition output_for (info : PaymentInfo) (mask : list Z) (c : CoinV2) : Prop :=
  sendable g h c (Some info) /\ coin_value c = pi_Amount info /\ coin_rand c = key_val mask /\ c2_info c = pi_Message info /\
  payee_key info c.

Lemma NewTxRandom_ok : ge_frombytes (replicate 32 0) = true -> txRandom_ok NewTxRandom.
Proof using CL.
  intros Hz. split; [reflexivity|]. split; [apply (bool_decide_unpack _); vm_compute; exact I|]. split; [exact Hz|].
  apply (proj2 (pt_key Identity pt_identity)).
Qed.

(** A fresh coin: its fields. *)
Definition fresh_coin (msg pk com rc rs t m : list Z) (v : Z) : CoinV2 :=
  mkCoinV2 2 msg (Some pk) (Some com) (Some Identity) (Some rc) (Some rs) (Some t) (Some m) (Some (key_of v)) None None.

Lemma fresh_opened msg pk com rc rs t m v : is_u64 v -> sc_ok m -> sc_ok rc -> sc_ok rs -> pt_ok pk -> txRandom_ok t ->
  bytes_ok msg -> (length msg <= 255)%nat -> CommitAtIndex PedG (key_of v) m PedersenValueIndex = Ok com ->
  let c := fresh_coin msg pk com rc rs t m v in
  opened g h c /\ coin_value c = v /\ coin_rand c = key_val m.
Proof using CL DL Eg Eh Hg Hh.
  intros Hv Hm Hc Hs Hpk Ht Hb Hl Ecom c. assert (0 <= v < order) as Ho.
  { unfold is_u64 in Hv. assert (2 ^ 64 < order) by by vm_compute. lia. }
  assert (coin_value c = v /\ coin_rand c = key_val m) as [Ev Er].
  { split; [|reflexivity]. unfold coin_value. cbn [c fresh_coin c2_amount]. rewrite sc_small, sc_u64 by done. reflexivity. }
  assert (com = com2 g h v (key_val m)) as Ecom2.
  { rewrite sc_small, (sc_repr m Hm) in Ecom by done. rewrite (CommitAtIndex_sc PedG g h) in Ecom by assumption.
    by injection Ecom as <-. }
  split; [|by split]. constructor; rewrite ?Ev, ?Er.
  - split; [|split; [exact Hl|split; reflexivity]]. split; [exact Hb|]. unfold opt_point, opt_scalar. cbn [c fresh_coin c2_publicKey c2_commitment c2_keyImage
      c2_sharedConcealRandom c2_sharedRandom c2_txRandom c2_mask c2_amount c2_assetTag].
    split; [by apply pt_key|]. split; [rewrite Ecom2; apply pt_key, com2_pt; assumption|]. split; [apply pt_key, pt_identity|].
    split; [apply Hc|]. split; [apply Hs|]. split; [by exists t|]. split; [apply Hm|]. split; [|exact I].
    rewrite sc_small by done. apply sc_ok_sc.
  - reflexivity.
  - exact Hv.
  - cbn [c fresh_coin c2_amount]. f_equal. by apply sc_small.
  - cbn [c fresh_coin c2_mask]. f_equal. by apply sc_repr.
  - cbn [c fresh_coin c2_commitment]. by f_equal.
Qed.

(** The coin to a one-time address can be sent. *)
Lemma paid_coin_output info m s c i com : payable_info info -> sc_ok m -> sc_ok s -> sc_ok c -> is_u32 i ->
  CommitAtIndex PedG (key_of (pi_Amount info)) m PedersenValueIndex = Ok com ->
  let addr := pi_PaymentAddress info in
  output_for info m (paid_coin m s c (pi_Message info) (key_of (pi_Amount info)) com
    (ota_key (ScalarMultKey (pa_OTAPublic addr) s) (pa_Pk addr) i) i).
Proof using All.
  intros (Hv & Hb & Hl & Hpk & Hota & (rk & Etk) & _) Hm Hs Hc Hi Ecom addr.
  assert (bytes_ok (ScalarMultKey (pa_OTAPublic addr) s)) as HrK by (apply (pt_key (ScalarMultKey (pa_OTAPublic addr) s)); by apply pt_mult).
  pose proof (ota_key_ok _ _ i HrK Hpk) as Hkey. set (pk := ota_key _ _ i) in *.
  destruct (pt_key (ScalarMultKey GBASE c)) as [K1 V1]; [apply pt_mult; [apply pt_base|done]|].
  destruct (pt_key (ScalarMultKey GBASE s)) as [K2 V2]; [apply pt_mult; [apply pt_base|done]|].
  destruct (make_TxRandom_ok _ _ i K1 V1 K2 V2) as (Ht & Econ & _ & _).
  destruct (fresh_opened (pi_Message info) pk com c s _ m (pi_Amount info) Hv Hm Hc Hs Hkey Ht Hb Hl Ecom) as (Ho & Ev & Er).
  split; [|split; [exact Ev|split; [exact Er|split; [reflexivity|]]]].
  2: { intros sk ks Hsk Eks Ea _. unfold pk, addr. rewrite Ea. by apply paid_coin_owner. }
  split; [exact Ho|]. exists pk. split; [reflexivity|].
  destruct (burning_total pk) as [[] Ebu]; [by left|]. right. split; [exact Ebu|].
  exists info, (key_val c), (make_TxRandom (ScalarMultKey GBASE c) (ScalarMultKey GBASE s) i), rk.
  rewrite <- (sc_repr c Hc). by repeat split.
Qed.

Lemma new_coin_spec fuel sender m s c info : payable_info info -> sc_ok m -> sc_ok s -> sc_ok c -> Z.of_nat fuel < 2 ^ 32 ->
  let r := NewCoinFromPaymentInfo fuel m s c (mkCoinParams info sender PrivacyTypeTransfer) in
  (r = OutOfFuel /\ still_searching fuel sender s info) \/ (exists coin, r = Ok coin /\ output_for info m coin).
Proof using All.
  intros Hinfo Hm Hs Hc Hfuel r. pose proof Hinfo as (Hv & Hb & Hl & Hpk & Hota & (rk & Etk) & Hzero).
  set (addr := pi_PaymentAddress info) in *. set (p := mkCoinParams info sender PrivacyTypeTransfer) in *.
  destruct (last_byte_key _ (proj1 (pt_key _ Hpk))) as (b & Eb & _).
  assert (bytes_ok (ScalarMultKey (pa_OTAPublic addr) s)) as HrK by (apply (pt_key (ScalarMultKey (pa_OTAPublic addr) s)); by apply pt_mult).
  destruct (burning_total (pa_Pk addr)) as [[] Ebu].
  - right. destruct Hzero as [Hz|Hz]; [congruence|]. destruct (FromUint64_ok _ Hv) as [Ev Hsv].
    destruct (CommitAtIndex_value _ m Hsv Hm) as (com & Ecom & _).
    destruct (fresh_opened (pi_Message info) (pa_Pk addr) com c s NewTxRandom m (pi_Amount info) Hv Hm Hc Hs Hpk (NewTxRandom_ok Hz) Hb Hl Ecom)
      as (Ho & Eval & Er).
    eexists. split.
    + unfold r, NewCoinFromPaymentInfo. cbn [p cp_PaymentInfo]. fold addr. rewrite (FromBytesS_pt _ Hpk). cbn [res_wrap res_bind].
      rewrite Eb. cbn [res_bind]. rewrite Ev. cbn [res_bind]. rewrite Ecom. cbn [res_bind]. rewrite Ebu. cbn [res_bind]. reflexivity.
    + split; [|split; [exact Eval|split; [exact Er|split; [reflexivity|]]]].
      2: { intros sk ks _ _ _ E. fold addr in E. congruence. }
      split; [exact Ho|]. exists (pa_Pk addr). split; [reflexivity|]. by left.
  - destruct (NewCoin_eq fuel m s c p b Hm Hs Hc Hv Hpk Hota Eb Ebu) as (com & Ecom & Enew).
    cbn [p cp_PaymentInfo] in Enew, Ecom. fold addr in Enew. fold p in Enew. fold r in Enew.
    destruct (ota_loop_spec (accept_params (GetShardIDFromLastByte b) p) _ (pa_Pk addr) HrK
                (fun i => accept_params_total _ p _ _ i HrK Hpk) fuel 0 ltac:(lia) Hfuel) as [(i & Hi & El & _)|[El Hrej]];
      rewrite El in Enew; cbn [res_bind] in Enew.
    + right. eexists. split; [exact Enew|]. apply paid_coin_output; try assumption. unfold is_u32. lia.
    + left. split; [exact Enew|]. exists b. split; [exact Eb|exact Hrej].
Qed.

(** ** The ring *)

(** The parameters that [KvArgs] has to hold for [n] inputs: seven decoys each. *)
Record ring_kv (n : nat) (kv : kv_args) (my : list Z) (rp : ring_params) (cs pks : list (list Z)) : Prop := mkRingKv {
  rk_map : exists m, kv = Some m /\ m !! kv_CommitmentIndices = Some (KvIndices (rg_cmtIndices rp)) /\
    m !! kv_Commitments = Some (KvPoints (map Some cs)) /\ m !! kv_PublicKeys = Some (KvPoints (map Some pks)) /\
    m !! kv_AssetTags = Some (KvPoints (rg_assetTags rp)) /\ m !! kv_MyIndices = Some (KvIndices my);
  rk_rp : rp = mkRingParams (rg_cmtIndices rp) my (map Some cs) (map Some pks) (rg_assetTags rp);
  rk_len : (n * 7 <= length (rg_cmtIndices rp) /\ n * 7 <= length cs /\ n * 7 <= length pks /\ length my = n)%nat;
  rk_pts : Forall pt_ok cs /\ Forall pt_ok pks;
  rk_fits : Forall index_fits (rg_cmtIndices rp) /\ Forall index_fits my }.

Lemma parse_ring_kv n kv my rp cs pks : ring_kv n kv my rp cs pks -> parseParamsForRing kv n RingSize = Ok rp.
Proof using Type.
  intros [(m & -> & E1 & E2 & E3 & E4 & E5) Erp (L1 & L2 & L3 & L4) _ _]. unfold parseParamsForRing, kv_indices, kv_points, kv_get.
  rewrite E1, E2, E3, E4, E5. cbn [res_bind]. unfold enough, RingSize. rewrite !length_map. cbn [Nat.sub].
  rewrite !(proj2 (Nat.ltb_ge _ _)) by lia. cbn [res_bind]. rewrite L4, Nat.eqb_refl. cbn [negb]. f_equal. symmetry. exact Erp.
Qed.

Lemma take_drop_S {A} (l : list A) j x m : l !! j = Some x -> take (S m) (drop j l) = x :: take m (drop (S j) l).
Proof using Type. intros E. by rewrite (drop_S l x j E). Qed.

Lemma own_row_ok my ins pks coms : Forall2 (fun c pk => c2_publicKey c = Some pk) ins pks ->
  Forall2 (fun c com => c2_commitment c = Some com) ins coms -> forall j sum, (j + length ins <= length my)%nat ->
  own_row (map PlainV2 ins) my j sum = Ok (map Some pks, take (length ins) (drop j my), fold_left AddKeys coms sum).
Proof using Type.
  intros Hp. revert coms. induction Hp as [|c pk ins pks Hc Hp IH]; intros coms Hcom j sum Hj.
  - by inversion Hcom; subst.
  - destruct coms as [|com coms]; [by inversion Hcom|]. apply Forall2_cons in Hcom as [Ec Hcom]. cbn [map length] in *.
    destruct (lookup_lt_is_Some_2 my j) as [x Ex]; [lia|]. cbn [own_row PlainCoin_GetCommitment PlainCoin_GetPublicKey].
    rewrite (Prelude.index_ok my j x Ex), Ec. cbn [res_bind deref]. rewrite (IH coms Hcom) by lia. cbn [res_bind fold_left].
    unfold Point_Add. by rewrite Hc, (take_drop_S my j x).
Qed.

Lemma decoy_row_ok rp cs pks m : rg_commitments rp = map Some cs -> rg_publicKeys rp = map Some pks ->
  forall cur sum, (cur + m <= length (rg_cmtIndices rp))%nat -> (cur + m <= length cs)%nat -> (cur + m <= length pks)%nat ->
  decoy_row rp m cur sum = Ok (map Some (take m (drop cur pks)), take m (drop cur (rg_cmtIndices rp)), fold_left AddKeys (take m (drop cur cs)) sum).
Proof using Type.
  intros Ec Ep. induction m as [|m IH]; intros cur sum L1 L2 L3; [by rewrite !take_0|].
  destruct (lookup_lt_is_Some_2 (rg_cmtIndices rp) cur) as [x Ex]; [lia|]. destruct (lookup_lt_is_Some_2 cs cur) as [c Ecs]; [lia|].
  destruct (lookup_lt_is_Some_2 pks cur) as [p Epk]; [lia|]. cbn [decoy_row]. rewrite (Prelude.index_ok _ _ _ Ex), Ec, Ep.
  rewrite (Prelude.index_ok (map Some pks) cur (Some p)), (Prelude.index_ok (map Some cs) cur (Some c)) by (rewrite list_lookup_fmap; by (rewrite Ecs || rewrite Epk)).
  cbn [res_bind deref]. rewrite IH by lia. cbn [res_bind].
  by rewrite (take_drop_S _ _ x), (take_drop_S pks cur p), (take_drop_S cs cur c).
Qed.

Lemma fold_add_pt l : Forall pt_ok l -> forall s, pt_ok s -> pt_ok (fold_left AddKeys l s).
Proof using CL. induction 1 as [|p l Hp Hl IH]; intros s Hs; [exact Hs|]. apply IH. by apply pt_add. Qed.

Lemma Forall_segment {A} (P : A -> Prop) (l : list A) m cur : Forall P l -> Forall P (take m (drop cur l)).
Proof using Type. intros. by apply Forall_take, Forall_drop. Qed.

(** The rows: all of the right shape, that of the sender in its place. *)
Definition rows_ok (n pi i k : nat) (own : list (list Z)) (zero : list Z) (my : list Z)
    (res : list (list (option (list Z))) * list (list Z) * option (list Z)) (R : Ring) (ixs : list (list Z)) : Prop :=
  (exists z, res = (map (map Some) R, ixs, z) /\ ((i <= pi < i + k)%nat -> z = Some zero)) /\
  length R = k /\ length ixs = k /\
  Forall (fun row => length row = S n /\ Forall pt_ok row) R /\ Forall (fun row => length row = n /\ Forall index_fits row) ixs /\
  ((i <= pi < i + k)%nat -> R !! (pi - i)%nat = Some (own ++ [zero]) /\ ixs !! (pi - i)%nat = Some my).

Lemma ring_rows_ok n kv my rp cs pks ins own coms start pi : ring_kv n kv my rp cs pks -> n = length ins ->
  Forall2 (fun c pk => c2_publicKey c = Some pk) ins own -> Forall2 (fun c com => c2_commitment c = Some com) ins coms ->
  Forall pt_ok own -> Forall pt_ok coms -> pt_ok start ->
  forall k i cur, (cur + n * (if (i <=? pi) && (pi <? i + k) then k - 1 else k) <= n * 7)%nat ->
  exists r R ixs, ring_rows rp (map PlainV2 ins) start pi k i cur = Ok r /\
    rows_ok n pi i k own (fold_left AddKeys coms start) my r R ixs.
Proof using CL.
  intros Hkv -> Hown Hcoms Pown Pcoms Pstart. destruct (rk_len _ _ _ _ _ _ Hkv) as (L1 & L2 & L3 & L4).
  destruct (rk_pts _ _ _ _ _ _ Hkv) as [P1 P2]. destruct (rk_fits _ _ _ _ _ _ Hkv) as [F1 F2].
  pose proof (rk_rp _ _ _ _ _ _ Hkv) as Erp. pose proof (fold_add_pt coms Pcoms start Pstart) as Pzero.
  assert (rg_commitments rp = map Some cs /\ rg_publicKeys rp = map Some pks /\ rg_myIndices rp = my) as (Ec & Ep & Em) by by rewrite Erp.
  pose proof (Forall2_length _ _ _ Hown) as Lo.
  induction k as [|k IH]; intros i cur Hcur.
  { exists ([], [], None), [], []. split; [reflexivity|]. split; [exists None; split; [done|intros; lia]|]. split; [done|]. split; [done|].
    split; [constructor|]. split; [constructor|]. intros; lia. }
  cbn [ring_rows]. destruct (Nat.eqb_spec i pi) as [->|Hne].
  - rewrite Em, (own_row_ok my ins own coms Hown Hcoms) by lia. cbn [res_bind]. rewrite drop_0, take_ge by lia.
    rewrite (proj2 (Nat.leb_le pi pi)), (proj2 (Nat.ltb_lt pi (pi + S k))) in Hcur by lia. cbn [andb] in Hcur.
    destruct (IH (S pi) cur) as (r & R & ixs & Er & (z & -> & _) & HR & Hi & H1' & H2' & _).
    { rewrite (proj2 (Nat.leb_gt (S pi) pi)) by lia. cbn [andb]. replace (S k - 1)%nat with k in Hcur by lia. exact Hcur. }
    rewrite Er. cbn [res_bind]. eexists _, ((own ++ [fold_left AddKeys coms start]) :: R), (my :: ixs). split; [reflexivity|].
    split; [eexists; split; [cbn [map]; by rewrite map_app|done]|]. split; [cbn; by f_equal|]. split; [cbn; by f_equal|].
    split; [constructor; [split; [rewrite length_app; cbn; lia|apply Forall_app; split; [done|by repeat constructor]]|done]|].
    split; [by constructor|]. intros _. by rewrite Nat.sub_diag.
  - assert (((i <=? pi) && (pi <? i + S k))%nat = ((S i <=? pi) && (pi <? S i + k))%nat) as Einside.
    { destruct (Nat.leb_spec i pi), (Nat.leb_spec (S i) pi), (Nat.ltb_spec pi (i + S k)), (Nat.ltb_spec pi (S i + k)); cbn; lia || done. }
    rewrite Einside in Hcur.
    assert (cur + length ins <= length ins * 7 /\ cur + length ins + length ins *
      (if (S i <=? pi) && (pi <? S i + k) then k - 1 else k) <= length ins * 7)%nat as [Hc1 Hc2].
    { destruct (((S i <=? pi) && (pi <? S i + k))%nat) eqn:Eb.
      - apply andb_true_iff in Eb as [E1%Nat.leb_le E2%Nat.ltb_lt]. destruct k as [|k]; [lia|].
        replace (S (S k) - 1)%nat with (S k) in Hcur by lia. replace (S k - 1)%nat with k by lia. lia.
      - lia. }
    rewrite length_map. rewrite (decoy_row_ok rp cs pks (length ins) Ec Ep) by lia. cbn [res_bind].
    destruct (IH (S i) (cur + length ins)%nat Hc2) as (r & R & ixs & Er & (z & -> & Hz) & HR & Hi & H1' & H2' & H3').
    rewrite Er. cbn [res_bind].
    eexists _, ((take (length ins) (drop cur pks) ++ [fold_left AddKeys (take (length ins) (drop cur cs)) start]) :: R), (_ :: ixs).
    split; [reflexivity|]. split; [eexists; split; [cbn [map]; by rewrite map_app|intros; apply Hz; lia]|].
    split; [cbn; by f_equal|]. split; [cbn; by f_equal|]. split.
    { constructor; [|done]. split; [rewrite length_app, length_take, length_drop; cbn; lia|]. apply Forall_app. split; [by apply Forall_segment|].
      apply Forall_singleton, fold_add_pt; [by apply Forall_segment|done]. }
    split; [constructor; [|done]; split; [rewrite length_take, length_drop; lia|by apply Forall_segment]|].
    intros Hin. replace (pi - i)%nat with (S (pi - S i)) by lia. cbn. apply H3'. lia.
Qed.

(** ** The balance *)

Lemma com2_add a b c d : AddKeys (com2 g h a b) (com2 g h c d) = com2 g h (a + c) (b + d).
Proof using CL Hg Hh. unfold com2. module. Qed.

Lemma com2_zero : com2 g h 0 0 = Identity.
Proof using CL Hg Hh. unfold com2. rewrite !pmul_0 by assumption. apply add_identity, pt_identity. Qed.

Lemma com2_rand r : com2 g h 0 r = pmul h r.
Proof using CL Hg Hh. unfold com2. rewrite pmul_0 by assumption. apply identity_add. auto using pmul_pt. Qed.

Definition coin_com (c : CoinV2) : list Z := com2 g h (coin_value c) (coin_rand c).
Definition values (cs : list CoinV2) : Z := zsum (map coin_value cs).
Definition rands (cs : list CoinV2) : Z := zsum (map coin_rand cs).

Lemma fold_coms cs : forall a b, fold_left AddKeys (map coin_com cs) (com2 g h a b) = com2 g h (a + values cs) (b + rands cs).
Proof using CL Hg Hh.
  induction cs as [|c cs IH]; intros a b; unfold values, rands in *; cbn [map fold_left zsum foldr].
  - by rewrite !Z.add_0_r.
  - unfold coin_com at 2. rewrite com2_add, IH. f_equal; rewrite <- Z.add_assoc; reflexivity.
Qed.

Lemma sum_commitments_ok cs : Forall (opened g h) cs -> forall s,
  sum_commitments s (map CoinOf2 cs) = Ok (fold_left AddKeys (map coin_com cs) s).
Proof using Type.
  induction 1 as [|c cs Hc Hcs IH]; intros s; cbn [map sum_commitments fold_left Coin_GetCommitment]; [done|].
  rewrite (op_com _ _ c Hc). cbn [deref res_bind]. by rewrite IH.
Qed.

Lemma sum_with_fee outs fee : Forall (opened g h) outs -> is_u64 fee ->
  CalculateSumOutputsWithFee (map CoinOf2 outs) fee = Ok (com2 g h (values outs + fee) (rands outs)).
Proof using CL Eg Hg Hh.
  intros Ho Hf. unfold CalculateSumOutputsWithFee. rewrite (sum_commitments_ok outs Ho), <- com2_zero, fold_coms. cbn [res_bind].
  rewrite Eg. cbn [res_bind]. rewrite (FromUint64_sc fee Hf). cbn [res_bind]. f_equal. unfold Point_Add, Point_ScalarMult, com2.
  change (ScalarMultKey g (sc fee)) with (pmul g fee). module.
Qed.

Lemma start_ok v r : Point_Sub Identity (com2 g h v r) = com2 g h (- v) (- r).
Proof using CL Hg Hh.
  unfold Point_Sub. rewrite sub_pmul by (apply pt_identity || by apply com2_pt). rewrite identity_add by (apply pmul_pt; by apply com2_pt).
  unfold com2. module.
Qed.

(** ** The keys *)

(** A coin that the sender can spend with the key [x]. *)
Record owned (sk : list Z) (c : CoinV2) (x : list Z) : Prop := mkOwned {
  ow_opened : opened g h c;
  ow_parse : CoinV2_ParsePrivateKeyOfCoin sk c = Ok x;
  ow_sc : sc_ok x;
  ow_pk : c2_publicKey c = Some (ScalarMultKey GBASE x);
  ow_image : c2_keyImage c = Some (key_image x) }.

Lemma owned_opened sk ins xs : Forall2 (owned sk) ins xs -> Forall (opened g h) ins /\ Forall sc_ok xs.
Proof using Type. induction 1 as [|c x ins xs Hc Hi [I1 I2]]; split; constructor; try done; apply Hc. Qed.

Lemma sum_scalars_ok (op : list Z -> list Z -> list Z) (f : Z -> Z -> Z) cs (get : CoinV2 -> option (list Z)) :
  (forall a b, op (sc a) (sc b) = sc (f a b)) -> Forall (fun c => get c = Some (sc (coin_rand c))) cs ->
  forall a, sum_scalars op (sc a) (map get cs) = Ok (sc (fold_left f (map coin_rand cs) a)).
Proof using Type.
  intros Hop. induction 1 as [|c cs Hc Hcs IH]; intros a; cbn [map sum_scalars fold_left]; [done|].
  rewrite Hc. cbn [deref res_bind]. by rewrite Hop, IH.
Qed.

Lemma fold_plus l : forall a, fold_left Z.add l a = a + zsum l.
Proof using Type. induction l as [|x l IH]; intros a; unfold zsum in *; cbn [fold_left foldr]; [lia|]. rewrite IH. lia. Qed.

Lemma fold_minus l : forall a, fold_left Z.sub l a = a - zsum l.
Proof using Type. induction l as [|x l IH]; intros a; unfold zsum in *; cbn [fold_left foldr]; [lia|]. rewrite IH. lia. Qed.

Lemma private_keys sk ins xs outs : Forall2 (owned sk) ins xs -> Forall (opened g h) outs ->
  createPrivateKeyMlsag (map PlainV2 ins) outs (Some sk) (Some (pmul h (rands ins - rands outs))) =
  Ok (xs ++ [sc (rands ins - rands outs)]).
Proof using CL Eh.
  intros Hown Ho. destruct (owned_opened sk ins xs Hown) as [Hi Hxs]. unfold createPrivateKeyMlsag.
  rewrite (FromUint64_sc 0) by (unfold is_u64; lia). cbn [res_bind]. rewrite map_map. cbn [PlainCoin_GetRandomness].
  rewrite (sum_scalars_ok Scalar_Add Z.add) by (apply ScAdd_sc || (eapply Forall_impl; [exact Hi|]; intros c Hc; apply (op_mask _ _ c Hc))).
  cbn [res_bind].
  rewrite (sum_scalars_ok Scalar_Sub Z.sub) by (apply ScSub_sc || (eapply Forall_impl; [exact Ho|]; intros c Hc; apply (op_mask _ _ c Hc))).
  cbn [res_bind]. rewrite fold_minus, fold_plus, Z.add_0_l. fold (rands ins) (rands outs).
  assert (res_map (fun c => let* sk := deref (Some sk) in PlainCoin_ParsePrivateKeyOfCoin sk c) (map PlainV2 ins) = Ok xs) as ->.
  { clear -Hown. induction Hown as [|c x ins xs Hc Hi IH]; [done|]. cbn [map res_map PlainCoin_ParsePrivateKeyOfCoin deref res_bind] in *.
    rewrite (ow_parse sk c x Hc). cbn [res_bind]. by rewrite IH. }
  cbn [res_bind]. rewrite Eh. cbn [res_bind deref]. unfold IsPointEqual, Point_ScalarMult.
  change (ScalarMultKey h (sc (rands ins - rands outs))) with (pmul h (rands ins - rands outs)). by rewrite bool_decide_true.
Qed.

Lemma own_ring_row sk ins xs r : Forall2 (owned sk) ins xs ->
  map (ScalarMultKey GBASE) xs ++ [pmul h r] = ring_keys 1 h (xs ++ [sc r]).
Proof using Type.
  intros _. unfold ring_keys. rewrite length_app. cbn [length]. rewrite Nat.add_sub, take_app_length, drop_app_length. reflexivity.
Qed.

(** The ring of a transaction: [RingSize] rows, the row [pi] with the keys of the
    inputs and, as the last key, the commitment to what the transaction leaves over. *)
Lemma generated_ring sk kv my rp cs pks ins xs outs fee pi : ring_kv (length ins) kv my rp cs pks ->
  Forall2 (owned sk) ins xs -> Forall (opened g h) outs -> is_u64 fee -> (1 <= length ins <= 255)%nat -> (pi < RingSize)%nat ->
  exists R ixs,
    generateMLSAGRingWithIndexes (map PlainV2 ins) outs fee kv pi RingSize =
      Ok (map (map Some) R, ixs, Some (com2 g h (values ins - values outs - fee) (rands ins - rands outs))) /\
    length R = RingSize /\ Forall (fun row => length row = S (length ins) /\ Forall pt_ok row) R /\ indexes_ok (length ins) ixs /\
    R !! pi = Some (map (ScalarMultKey GBASE) xs ++ [com2 g h (values ins - values outs - fee) (rands ins - rands outs)]) /\
    ixs !! pi = Some my.
Proof using CL Eg Hg Hh.
  intros Hkv Hown Houts Hfee Hn Hpi. destruct (owned_opened sk ins xs Hown) as [Hi Hxs].
  assert (Forall2 (fun c pk => c2_publicKey c = Some pk) ins (map (ScalarMultKey GBASE) xs)) as Hpks.
  { clear -Hown. induction Hown as [|c x ins xs Hc Hown IH]; constructor; [apply Hc|exact IH]. }
  assert (Forall2 (fun c com => c2_commitment c = Some com) ins (map coin_com ins)) as Hcoms.
  { clear -Hi. induction Hi as [|c ins Hc Hi IH]; constructor; [apply (op_com _ _ c Hc)|exact IH]. }
  assert (Forall pt_ok (map (ScalarMultKey GBASE) xs)) as Pown.
  { apply Forall_map. eapply Forall_impl; [exact Hxs|]. intros x Hx. by apply pt_mult; [apply pt_base|]. }
  assert (Forall pt_ok (map coin_com ins)) as Pcoms by (apply Forall_map, Forall_true; intros c; unfold coin_com; apply com2_pt; assumption).
  unfold generateMLSAGRingWithIndexes. rewrite length_map, (parse_ring_kv _ _ _ _ _ _ Hkv), (sum_with_fee outs fee Houts Hfee).
  cbn [res_bind]. rewrite start_ok.
  destruct (ring_rows_ok (length ins) kv my rp cs pks ins _ _ (com2 g h (- (values outs + fee)) (- rands outs)) pi
    Hkv eq_refl Hpks Hcoms Pown Pcoms ltac:(apply com2_pt; assumption) RingSize 0 0) as (r & R & ixs & Er & (z & -> & Hz) & HR & Hix & HRf & Hif & Hat).
  { rewrite (proj2 (Nat.leb_le 0 pi)), (proj2 (Nat.ltb_lt pi (0 + RingSize))) by lia. cbn [andb]. unfold RingSize. lia. }
  destruct (Hat ltac:(lia)) as [Hrow Hmy]. rewrite (Hz ltac:(lia)) in Er. rewrite Nat.sub_0_r in *.
  rewrite fold_coms in *. replace (- (values outs + fee) + values ins) with (values ins - values outs - fee) in * by lia.
  replace (- rands outs + rands ins) with (rands ins - rands outs) in * by lia.
  exists R, ixs. repeat (split; [assumption|]). split; [|by split].
  split; [intros ->; discriminate|]. unfold MaxSizeByte. rewrite Hix. unfold RingSize. split; [lia|]. split; [lia|exact Hif].
Qed.

(** ** The signature *)

(** The challenges use every key image but the last. *)
Lemma NextC_images msg r c K k1 k2 : length k1 = length k2 -> take (length K - 1) k1 = take (length K - 1) k2 ->
  calculateNextC msg r c K k1 = calculateNextC msg r c K k2.
Proof using Type. intros L E. unfold calculateNextC. by rewrite L, E. Qed.

Lemma chain_ext (f1 f2 : list (list Z) -> option (list Z) -> list (list Z) -> res (option (list Z))) rows :
  Forall (fun rK => forall c, f1 (fst rK) c (snd rK) = f2 (fst rK) c (snd rK)) rows -> forall c, chain f1 rows c = chain f2 rows c.
Proof using Type.
  induction 1 as [|[r K] rows Hr Hrows IH]; intros c; cbn [chain fst snd] in *; [done|]. rewrite Hr.
  destruct (f2 r c K); cbn [res_bind]; by rewrite ?IH.
Qed.

Lemma verifies_images n R c r k1 k2 message : Forall (fun row => length row = S n /\ Forall pt_ok row) R ->
  length k1 = length k2 -> take n k1 = take n k2 ->
  ring_verifies R (mkSig c k1 r) message -> ring_verifies R (mkSig c k2 r) message.
Proof using Type.
  intros HR L E. unfold ring_verifies. cbn [sig_c sig_keyImages sig_r]. intros <-. apply chain_ext. clear -HR L E.
  revert r. induction HR as [|row R [Hl _] HR IH]; intros [|r0 r]; cbn [zip zip_with]; constructor; [|apply IH].
  intros c0. cbn [fst snd]. symmetry. apply NextC_images; [done|]. rewrite Hl. cbn. by rewrite Nat.sub_0_r.
Qed.

Lemma ring_points_ok R : ring_points (map (map Some) R) = Ok R.
Proof using Type.
  unfold ring_points. rewrite (res_map_ok _ (map (default []))).
  - f_equal. rewrite map_map. rewrite <- (map_id R) at 2. apply map_ext. intros row. rewrite map_map. apply map_id.
  - apply Forall_map, Forall_true. intros row. apply (res_map_ok deref (default [])). by apply Forall_map, Forall_true.
Qed.

Lemma drawn_ok R n m : (forall i, sc_ok (tr_alpha R i)) -> (forall i j, sc_ok (tr_r R i j)) ->
  length (drawn_alpha R m) = m /\ Forall sc_ok (drawn_alpha R m) /\ length (drawn_r R n m) = n /\
  Forall (fun row => length row = m /\ Forall sc_ok row) (drawn_r R n m).
Proof using Type.
  intros Ha Hr. unfold drawn_alpha, drawn_r. rewrite !length_map, !length_seq. split; [done|].
  split; [by apply Forall_map, Forall_true|]. split; [done|]. apply Forall_map, Forall_true. intros i.
  split; [by rewrite length_map, length_seq|by apply Forall_map, Forall_true].
Qed.

Lemma ArrayScalarToBytes_ok keys : (length keys <= 255)%nat -> ArrayScalarToBytes keys = Ok (u8 (Z.of_nat (length keys)) :: concat keys).
Proof using Type. intros Hl. unfold ArrayScalarToBytes. by rewrite (proj2 (Nat.ltb_ge _ _)) by done. Qed.

Section sign.
Context {M : Type} `{MO : MetadataOps M} `{TC : TxCodec M}.
Context (R : TxRandomness) (HRa : forall i, sc_ok (tr_alpha R i)) (HRr : forall i j, sc_ok (tr_r R i j)).

(** A transaction signed for the inputs [ins] with the keys [xs]: the key holds the
    indices of the ring, the row [pi] of the ring the keys of the inputs, and the
    signature verifies for the message with the key images of the inputs, in front of
    any key image for the last column. *)
Definition signed (ins : list CoinV2) (my : list Z) (pi : nat) (message : list Z) (t : TxBase M) : Prop :=
  exists ring ixs pk sig c r own zero,
    tx_SigPubKey t = Some pk /\ SigPubKey_SetBytes pk = Ok ixs /\ ixs !! pi = Some my /\
    tx_Sig t = Some sig /\ Sig_FromBytes sig = Ok (mkSig (Some c) [] r) /\
    length ring = RingSize /\ ring !! pi = Some (own ++ [zero]) /\ Forall2 (fun c pk => c2_publicKey c = Some pk) ins own /\
    exists images, Forall2 (fun c ki => c2_keyImage c = Some ki) ins images /\
      forall any, ring_verifies ring (mkSig (Some c) (images ++ [any]) r) message.

Lemma signOnMessage_ok sk kv my rp cs pks ins xs outs fee pi message params t :
  ring_kv (length ins) kv my rp cs pks -> Forall2 (owned sk) ins xs -> Forall (opened g h) outs ->
  is_u64 fee -> values ins = values outs + fee -> (1 <= length ins < 255)%nat -> (pi < RingSize)%nat ->
  tr_pi R = Ok pi -> tp_KvArgs params = kv -> tp_Fee params = fee -> tp_SenderSK params = Some sk ->
  tx_Sig t = None -> length message = 32%nat -> bytes_ok message ->
  exists pk ks sig, let t' := tx_SetSig (Some sig) (tx_SetPrivateKey (Some ks) (tx_SetSigPubKey (Some pk) t)) in
    signOnMessage R (map PlainV2 ins) outs params message t = (t', Ok tt) /\ signed ins my pi message t'.
Proof using All.
  intros Hkv Hown Houts Hfee Hbal Hn Hpi Epi <- <- Esk Es Lm Hm.
  destruct (owned_opened sk ins xs Hown) as [Hi Hxs]. pose proof (Forall2_length _ _ _ Hown) as Lx.
  destruct (generated_ring sk _ my rp cs pks ins xs outs _ pi Hkv Hown Houts Hfee ltac:(lia) Hpi)
    as (ring & ixs & Egen & LR & HR & Hix & Hrow & Hmy).
  replace (values ins - values outs - tp_Fee params) with 0 in * by lia. rewrite com2_rand in *.
  destruct (SigPubKey_run _ ixs Hix) as (pk & Epk & Eback). set (zr := rands ins - rands outs) in *.
  pose proof (private_keys sk ins xs outs Hown Houts) as Ekeys. fold zr in Ekeys.
  set (keys := xs ++ [sc zr]) in *. assert (length keys = S (length ins)) as Lk by (unfold keys; rewrite length_app; cbn; lia).
  assert (Forall sc_ok keys) as Hkeys by (apply Forall_app; split; [done|apply Forall_singleton, sc_ok_sc]).
  destruct (drawn_ok R RingSize (length keys) HRa HRr) as (La & Ha & Lr & Hr).
  rewrite (own_ring_row sk ins xs zr Hown) in Hrow. fold keys in Hrow.
  assert (ring_input (length keys) pi ring keys (drawn_alpha R (length keys)) (drawn_r R RingSize (length keys))) as Hin.
  { rewrite <- Lk in HR. split; [done|]. split; [exact La|]. split; [exact Hkeys|]. split; [exact Ha|]. split; [by rewrite Lr|]. by split. }
  destruct (sign_verifies (length keys) pi h ring keys _ _ message ltac:(lia) Hin Eh Hrow Hm) as (ml & Eml & _ & _ & Hsig).
  destruct (Hsig Lm) as (sig & Esig & Hok & Lsr & Eki & Hver).
  destruct (NewMlsag_ok keys ring pi Hkeys) as (kis & Eml' & Ekis & Lki & _ & Hkis).
  rewrite Eml' in Eml. injection Eml as <-. rewrite Ekis in Eki. injection Eki as Eki.
  destruct sig as [[c|] ki r]; [|by destruct Hok as [[] _]]. cbn [sig_keyImages sig_r] in *. subst ki.
  destruct (Sig_roundtrip (length keys) (mkSig (Some c) [] r)) as (b & Eb & Ebb).
  { destruct Hok as (H1' & _ & H3'). split; [exact H1'|]. split; [constructor|exact H3']. }
  1-3: cbn [sig_r sig_keyImages length]; unfold RingSize in *; lia.
  exists pk, (u8 (Z.of_nat (length keys)) :: concat keys), b. cbv zeta. split.
  - unfold signOnMessage. rewrite Es. unfold st_lift, st_field, st_put, st_bind. rewrite Epi, Egen, Epk, Esk, Ekeys.
    rewrite ArrayScalarToBytes_ok by lia. unfold NewMlsag. rewrite Ekis. cbn [res_bind]. rewrite ring_points_ok.
    cbn [ml_keyImages]. rewrite Esig. cbn [sig_c sig_r]. by rewrite Eb.
  - exists ring, ixs, pk, b, c, r, (map (ScalarMultKey GBASE) xs), (pmul h zr).
    split; [done|]. split; [exact Eback|]. split; [exact Hmy|]. split; [done|]. split; [exact Ebb|]. split; [exact LR|].
    split; [by rewrite Hrow, (own_ring_row sk ins xs zr Hown)|]. split.
    { clear -Hown. induction Hown as [|c x ins xs Hc Hown IH]; constructor; [apply Hc|exact IH]. }
    exists (map key_image xs). split.
    { clear -Hown. induction Hown as [|c x ins xs Hc Hown IH]; constructor; [apply Hc|exact IH]. }
    intros any. apply (verifies_images (length ins) ring (Some c) r kis); [exact HR|rewrite length_app, length_map; cbn; lia| |exact Hver].
    rewrite Lx, Hkis by lia. unfold keys. by rewrite take_app_length, take_app_le, take_ge by (rewrite length_map; lia).
Qed.
End sign.

(** ** Init *)

Section init.
Context {M : Type} `{MO : MetadataOps M} `{JL : TxCodecLaws M}.
Implicit Type t : TxBase M.
Context (fuel : nat) (aggParam : bulletproofParams) (R : TxRandomness).

(** The random scalars of the output coins. *)
Definition coin_randomness_ok : Prop :=
  forall i, sc_ok (tr_mask R i) /\ sc_ok (tr_shared R i) /\ sc_ok (tr_conceal R i).

Definition delivered (info : PaymentInfo) (c : CoinV2) : Prop := exists mask, sc_ok mask /\ output_for info mask c.

Lemma new_outputs_spec (params : TxPrivacyInitParams M) shard infos : coin_randomness_ok -> Z.of_nat fuel < 2 ^ 32 ->
  GetSenderShard params = Ok shard -> Forall payable_info infos -> forall i,
  let r := new_outputs fuel R params i (map Some infos) in
  (r = OutOfFuel /\ exists j info, infos !! j = Some info /\ still_searching fuel shard (tr_shared R (i + j)) info) \/
  (exists coins, r = Ok coins /\ Forall2 delivered infos coins).
Proof using CL DL LL AA HD BL Eg Eh Hg Hh.
  intros Hr Hf Esh Hinfos. induction Hinfos as [|info infos Hi Hinfos IH]; intros i.
  { right. exists []. split; [reflexivity|constructor]. }
  destruct (Hr i) as (Hm & Hs & Hc). cbn [map new_outputs]. cbv zeta. unfold new_output. rewrite Esh. cbn [res_bind deref NewTransferCoinParams].
  destruct (new_coin_spec fuel shard _ _ _ info Hi Hm Hs Hc Hf) as [[E Hst]|(c & E & Ho)]; rewrite E; cbn [res_bind].
  { left. split; [reflexivity|]. exists 0%nat, info. split; [reflexivity|]. by rewrite Nat.add_0_r. }
  destruct (IH (S i)) as [(E2 & j & info' & Ej & Hst)|(coins & E2 & Hcs)]; rewrite E2; cbn [res_bind].
  - left. split; [reflexivity|]. exists (S j), info'. split; [exact Ej|]. by rewrite Nat.add_succ_r.
  - right. exists (c :: coins). split; [reflexivity|]. constructor; [|exact Hcs]. by exists (tr_mask R i).
Qed.

Lemma delivered_coins infos coins : Forall2 delivered infos coins ->
  Forall2 (sendable g h) coins (map Some infos) /\ Forall (opened g h) coins /\ values coins = zsum (map pi_Amount infos).
Proof using Type.
  induction 1 as [|info c infos coins (m & _ & (Hs & Ev & _)) Hi (IH1 & IH2 & IH3)]; [by repeat split|].
  cbn [map]. split; [by constructor|]. split; [constructor; [apply Hs|done]|].
  unfold values in *. cbn [map zsum foldr] in *. unfold zsum in *. lia.
Qed.

(** A payment proof without secrets for the outputs, as [provePRV] makes it. *)
Definition proved (ins outs : list CoinV2) (infos : list (option PaymentInfo)) (p : ProofV2) : Prop :=
  exists d hidden, p = proof2_of 2 None (mkPayment2 (Some d) (map (fun c => PlainV2 (shown c)) ins) hidden) /\
    range_ok d /\ Forall2 (fun co out => sent_coin (fst co) (snd co) out) (zip outs infos) hidden /\
    pd_cms d = map coin_com outs /\
    (forall ag, setAggregateParams aggParam (MaxExp * Z.to_nat (roundUpPowTwo (Z.of_nat (length outs))))%nat = Ok ag ->
      range_invertible (bp_cs ag) 2 d -> range_check ag g h 2 d = Ok true).

(** The proof of at most [MaxOutputCoin] values has few rounds. *)
Lemma small_range d n : data_ok d -> length (pd_cms d) = n -> (n <= MaxOutputCoin)%nat ->
  (MaxExp * Z.to_nat (roundUpPowTwo (Z.of_nat n)))%nat = (2 ^ length (pd_l d))%nat -> range_ok d.
Proof using Type.
  intros Hd Hl Hmax HN. destruct (roundUpPowTwo_ok n Hmax) as (j & Ej & Hj). rewrite Ej in HN. split; [exact Hd|].
  split; [rewrite Hl; unfold MaxOutputCoin in *; lia|]. destruct (Nat.le_gt_cases (length (pd_l d)) 255) as [|Hgt]; [done|]. exfalso.
  pose proof (Nat.pow_le_mono_r 2 12 (length (pd_l d)) ltac:(lia) ltac:(lia)) as Hp. rewrite <- HN in Hp.
  unfold MaxExp, MaxOutputCoin in *. change (2 ^ 12)%nat with (64 * 64)%nat in Hp. nia.
Qed.

(** The coins of a proof can be written. *)
Lemma sent_payment d ins outs infos hidden : range_ok d -> Forall stored2 ins -> (length ins < 255)%nat -> (length outs <= MaxOutputCoin)%nat ->
  Forall2 (fun co out => sent_coin (fst co) (snd co) out) (zip outs infos) hidden ->
  let d2 := mkPayment2 (Some d) (map (fun c => PlainV2 (shown c)) ins) hidden in
  payment2_ok d2.
Proof using CL.
  intros Hr Hins Hi Ho Hhid d2. pose proof (Forall2_length _ _ _ Hhid) as Lh. rewrite length_zip_with in Lh.
  split; [|split; [|split]]; cbn [d2 p2_in p2_out p2_range].
  - rewrite length_map. unfold MaxOutputCoin in *. lia.
  - intros r E. injection E as <-. exact Hr.
  - apply Forall_map. eapply Forall_impl; [exact Hins|]. intros c Hc. exact (shown_stored c Hc).
  - clear -Hhid. induction Hhid as [|co out l hidden Hc Hl IH]; constructor; [apply Hc|exact IH].
Qed.

Lemma prove_ok ins outs infos G : Forall stored2 ins -> Forall2 (sendable g h) outs infos ->
  (length outs <= MaxOutputCoin)%nat -> params_ok aggParam -> (forall i, sc_ok (tr_range R i)) ->
  (MaxExp * MaxOutputCoin <= length (bp_g aggParam))%nat -> (MaxExp * MaxOutputCoin <= length (bp_h aggParam))%nat ->
  exists p, ProveV2 (tr_range R) aggParam (map PlainV2 ins) outs [] false infos G = (G, Ok p) /\ proved ins outs infos p.
Proof using CL DL BL Eg Eh Hg Hh.
  intros Hins Hs Hmax Hagg Hrnd LG LH.
  destruct (roundUpPowTwo_ok (length outs) Hmax) as (j & Ej & Hj).
  assert (MaxExp * Z.to_nat (roundUpPowTwo (Z.of_nat (length outs))) <= MaxExp * MaxOutputCoin)%nat as HN by (rewrite Ej; nia).
  destruct (ProveV2_ok g h Eg Eh Hg Hh (tr_range R) aggParam ins outs infos G Hins Hs Hmax Hagg Hrnd) as
    (ag & d & hidden & Eag & E & Ecms & Hd & HNd & Hv & Hhid); [lia|lia|].
  eexists. split; [exact E|]. exists d, hidden. split; [reflexivity|]. split; [|split; [exact Hhid|split; [exact Ecms|]]].
  - apply (small_range d (length outs)); try done. by rewrite Ecms, length_map.
  - intros ag' Eag'. rewrite Eag in Eag'. injection Eag' as <-. exact Hv.
Qed.
End init.

Section json.
Context {M : Type} `{MO : MetadataOps M} `{JL : TxCodecLaws M}.
Implicit Type t : TxBase M.

(** A transaction of version 2 that carries the payment proof [d]. *)
Definition carries (d : payment2) t : Prop :=
  tx_Version t = 2 /\ tx_Type t = TxNormalType /\ tx_Proof t = Some (ProofOf2 (proof2_of 2 None d)) /\
  (exists r, p2_range d = Some r) /\ payment2_ok d.

Lemma payment_marshal d t : tx_Proof t = Some (ProofOf2 (proof2_of 2 None d)) -> (exists r, p2_range d = Some r) -> payment2_ok d ->
  exists b, tx_MarshalJSON t = Ok b /\
  json_unmarshal b = Ok (mkTxJson (tx_Version t) (tx_Type t) (tx_LockTime t) (tx_Fee t) (tx_Info t) (tx_SigPubKey t) (tx_Sig t)
    (Some (base64_encode (payment2_enc d))) (tx_PubKeyLastByteSender t) (tx_Metadata t)).
Proof using CL JL.
  intros Ep (r & Er) Hd. unfold tx_MarshalJSON. rewrite Ep. cbn [Proof_Bytes].
  replace (proof2_of 2 None d) with (proof2_of 2 (Some RangeProof_new) d) by (unfold proof2_of; by rewrite Er).
  rewrite payment2_bytes by done. cbn [res_bind]. apply json_codec.
Qed.

Lemma carries_marshal d t : carries d t -> exists b, tx_MarshalJSON t = Ok b /\
  json_unmarshal b = Ok (mkTxJson (tx_Version t) (tx_Type t) (tx_LockTime t) (tx_Fee t) (tx_Info t) (tx_SigPubKey t) (tx_Sig t)
    (Some (base64_encode (payment2_enc d))) (tx_PubKeyLastByteSender t) (tx_Metadata t)).
Proof using CL JL. intros (_ & _ & Ep & Hr & Hd). by apply payment_marshal. Qed.

(** The hash of a transaction with a payment proof. *)
Lemma payment_hash d t : tx_Proof t = Some (ProofOf2 (proof2_of 2 None d)) -> (exists r, p2_range d = Some r) -> payment2_ok d ->
  exists hb, Tx_HashBytes t = Ok hb /\ length hb = 32%nat /\ bytes_ok hb.
Proof using CL DL JL.
  intros Ep Hr Hd. unfold Tx_HashBytes, Tx_Hash.
  destruct (payment_marshal d (tx_SetSigPubKey (Some []) (tx_SetSig (Some []) t)) Ep Hr Hd) as (b & Eb & _). rewrite Eb.
  exists (HashH b). split; [reflexivity|]. destruct (sha3_ok b) as [Hl Hb]. by split.
Qed.

Lemma read_payment d : (exists r, p2_range d = Some r) -> payment2_ok d ->
  Proof_UnmarshalJSON (base64_encode (payment2_enc d)) (ProofOf2 (ProofV2_Init ProofV2_new)) = Ok (ProofOf2 (proof2_of 2 None d)).
Proof using CL.
  intros (r & Er) Hd. unfold Proof_UnmarshalJSON. rewrite base64_roundtrip by (by apply payment2_bytes_ok). cbn [res_bind Proof_SetBytes].
  destruct (ProofV2_read 2 RangeProof_new d (ProofV2_Init ProofV2_new) Hd eq_refl) as (b & Eb & E).
  rewrite payment2_bytes in Eb by done. injection Eb as <-. rewrite E. cbn [res_bind]. do 2 f_equal. unfold proof2_of. by rewrite Er.
Qed.

Lemma carries_parse ty d : (ty =? TxConversionType)%string = false -> (exists r, p2_range d = Some r) -> payment2_ok d ->
  ParseProof (Some (base64_encode (payment2_enc d))) 2 ty = Ok (Some (ProofOf2 (proof2_of 2 None d))).
Proof using CL.
  intros Ety Hr Hd. unfold ParseProof. rewrite Ety. cbn [Z.eqb Pos.eqb orb res_bind]. by rewrite read_payment.
Qed.

Lemma carries_json d t : carries d t ->
  exists b, tx_MarshalJSON t = Ok b /\ TxBase_UnmarshalJSON b TxBase_new = Ok (tx_SetPrivateKey None t).
Proof using CL JL.
  intros Ht. destruct (carries_marshal d t Ht) as (b & Eb & E). exists b. split; [exact Eb|].
  destruct Ht as (Ev & Ety & Ep & Hr & Hd). unfold TxBase_UnmarshalJSON. rewrite E.
  cbn [res_bind js_Type js_Proof js_Version]. rewrite Ety, Ev. change (TxNormalType =? TxTokenConversionType)%string with false. cbv iota.
  rewrite (carries_parse TxNormalType d eq_refl Hr Hd). cbn [res_bind]. unfold tx_SetPrivateKey. rewrite Ep, Ev, Ety. reflexivity.
Qed.

Lemma carries_hash d t : carries d t -> exists hb, Tx_HashBytes t = Ok hb /\ length hb = 32%nat /\ bytes_ok hb.
Proof using CL DL JL. intros (_ & _ & Ep & Hr & Hd). by apply (payment_hash d). Qed.

(** The check of the JSON never fails for what [Init] builds. *)
Lemma check_json_ok d t : carries d t -> check_json t = Ok tt.
Proof using CL DL JL.
  intros Ht. unfold check_json. destruct (carries_json d t Ht) as (b & Eb & E). rewrite Eb. cbn [res_wrap res_bind]. rewrite E.
  cbn [res_bind]. destruct (carries_hash d t Ht) as (hb & Eh' & _).
  assert (Tx_HashBytes (tx_SetPrivateKey None t) = Ok hb) as -> by (rewrite <- Eh'; reflexivity). rewrite Eh'. cbn [res_bind].
  by rewrite bool_decide_true.
Qed.

(** ** The parameters *)

(** The change goes back to the sender. *)
Definition with_change (ks : KeySet) (infos : list PaymentInfo) (change : Z) : list PaymentInfo :=
  infos ++ (if 0 <? change then [mkPaymentInfo (ks_PaymentAddress ks) change []] else []).

Lemma opened_values ins : Forall (opened g h) ins ->
  Forall2 (fun c v => PlainCoin_GetValue c = Ok v) (map PlainV2 ins) (map coin_value ins).
Proof using CL DL Eg Eh Hg Hh.
  induction 1 as [|c ins Hc Hi IH]; constructor; [exact (opened_value g h Eg Eh Hg Hh c Hc)|exact IH].
Qed.

Lemma version_of_coins ins : ins <> [] -> GetTxVersionFromCoins (map PlainV2 ins) = Ok 2.
Proof using Type.
  intros Hne. destruct ins as [|c ins]; [done|]. unfold GetTxVersionFromCoins, has_version. rewrite length_map. cbn [length Nat.eqb].
  replace (existsb (fun c => PlainCoin_GetVersion c =? 1) (map PlainV2 (c :: ins))) with false; [done|].
  symmetry. clear Hne. generalize (c :: ins). intros l. induction l as [|x l IH]; [done|exact IH].
Qed.

(** A transaction with its proof, signature and keys. *)
Definition finished (p : ProofV2) (pk ks sig : list Z) t : TxBase M :=
  tx_SetSig (Some sig) (tx_SetPrivateKey (Some ks) (tx_SetSigPubKey (Some pk) (tx_SetProof (Some (ProofOf2 p)) t))).

Lemma finished_hash p pk ks sig t : Tx_HashBytes (finished p pk ks sig t) = Tx_HashBytes (tx_SetProof (Some (ProofOf2 p)) t).
Proof using Type. reflexivity. Qed.

(** A transaction with the parameters written into it; the sender's shard is that of
    the byte [b]. *)
Definition initialized (R : TxRandomness) (params : TxPrivacyInitParams M) (sk : list Z) (b : Z) t : TxBase M :=
  mkTxBase 2 TxNormalType (if tx_LockTime t =? 0 then i64 (tr_now R - (1 + Z.rem (tr_int64 R) 100)) else tx_LockTime t) (tp_Fee params) (tp_Info params)
    (tx_SigPubKey t) (tx_Sig t) (tx_Proof t) (GetShardIDFromLastByte b) (tp_MetaData params) (Some sk).

Lemma InitializeTxAndParams_ok R (params : TxPrivacyInitParams M) sk ins infos ks b t : tp_SenderSK params = Some sk ->
  KeySet_InitFromPrivateKey (Some sk) = Ok ks -> last_byte (pa_Pk (ks_PaymentAddress ks)) = Ok b ->
  tp_InputCoins params = map PlainV2 ins -> ins <> [] -> Forall2 (fun c v => PlainCoin_GetValue c = Ok v) (map PlainV2 ins) (map coin_value ins) ->
  tp_PaymentInfo params = map Some infos -> (length (default [] (tp_Info params)) <= MaxSizeInfo)%nat ->
  let change := values ins - zsum (map pi_Amount infos) - tp_Fee params in 0 <= change < 2 ^ 63 ->
  InitializeTxAndParams (tr_now R) (tr_int64 R) params t =
    (initialized R params sk b t, Ok (tp_setPaymentInfo (map Some (with_change ks infos change)) params)).
Proof using Type.
  intros Esk Eks Eb Eins Hne Hvals Einfos Hlen change Hch. unfold InitializeTxAndParams. rewrite Esk, Eks.
  unfold st_bind, st_lift, st_put, deref. cbn [res_wrap]. rewrite Eb, Eins, (version_of_coins ins Hne). unfold GetTxInfo.
  rewrite (proj2 (Nat.ltb_ge _ _) Hlen), (CalculateSentBackInfo_eq params _ infos (map coin_value ins) Einfos) by (by rewrite Eins).
  unfold change_of. fold (values ins) change. rewrite (i64_small change) by lia. destruct (Z.ltb_spec change 0); [lia|].
  unfold initialized. cbn [tx_SetPrivateKey tx_LockTime]. by destruct (tx_LockTime t =? 0).
Qed.

(** The account of a private key. *)
Lemma sender_account sk : sc_ok sk -> exists ks b, KeySet_InitFromPrivateKey (Some sk) = Ok ks /\
  last_byte (pa_Pk (ks_PaymentAddress ks)) = Ok b /\ (exists rk, pa_Tk (ks_PaymentAddress ks) = ScalarMultKey GBASE (sc rk)) /\
  pt_ok (pa_Pk (ks_PaymentAddress ks)) /\ pt_ok (pa_OTAPublic (ks_PaymentAddress ks)) /\
  forall params : TxPrivacyInitParams M, tp_SenderSK params = Some sk -> GetSenderShard params = Ok (GetShardIDFromLastByte b).
Proof using CL DL.
  intros Hsk. destruct (keyset_of_ok sk (proj2 (proj1 Hsk))) as (Hvk & Hota & E).
  assert (KeySet_InitFromPrivateKey (Some sk) = keyset_of sk) as Eks.
  { unfold KeySet_InitFromPrivateKey, PrivateKeySize. rewrite (proj1 (proj1 Hsk)). reflexivity. }
  rewrite E in Eks. destruct (account_points sk _ Hsk Eks) as [Hpk Hop].
  destruct (last_byte_key _ (proj1 (pt_key _ Hpk))) as (b & Eb & _). eexists _, b. split; [exact Eks|]. split; [exact Eb|].
  split; [exists (key_val (key_HashToScalar sk)); cbn [ks_PaymentAddress pa_Tk]; f_equal; by apply sc_repr|].
  split; [exact Hpk|]. split; [exact Hop|].
  intros params Ep. unfold GetSenderShard. rewrite Ep. cbn [deref res_bind]. cbn [ks_PaymentAddress pa_Pk] in Eb. by rewrite Eb.
Qed.
End json.

Section whole.
Context {M : Type} `{MO : MetadataOps M} `{JL : TxCodecLaws M}.
Context (fuel : nat) (aggParam : bulletproofParams) (R : TxRandomness).

(** What is drawn is well formed, and the generators are enough. *)
Record drawn : Prop := mkDrawn {
  dr_fuel : Z.of_nat fuel < 2 ^ 32;
  dr_coins : coin_randomness_ok R;
  dr_range : forall i, sc_ok (tr_range R i);
  dr_ring : (forall i, sc_ok (tr_alpha R i)) /\ (forall i j, sc_ok (tr_r R i j));
  dr_params : params_ok aggParam;
  dr_generators : (MaxExp * MaxOutputCoin <= length (bp_g aggParam))%nat /\ (MaxExp * MaxOutputCoin <= length (bp_h aggParam))%nat }.

(** The parameters of a transfer: coins that the sender owns, payments that they cover
    with the fee, and decoys for the ring. *)
Record transfer (params : TxPrivacyInitParams M) (sk : list Z) (ins : list CoinV2) (xs : list (list Z)) (infos : list PaymentInfo)
    (my : list Z) (pi : nat) : Prop := mkTransfer {
  tf_sk : sc_ok sk;
  tf_sender : tp_SenderSK params = Some sk;
  tf_change : forall ks, KeySet_InitFromPrivateKey (Some sk) = Ok ks ->
    IsPublicKeyBurningAddress (pa_Pk (ks_PaymentAddress ks)) = Ok false \/ ge_frombytes (replicate 32 0) = true;
  tf_infos : tp_PaymentInfo params = map Some infos;
  tf_payable : Forall payable_info infos;
  tf_count : (length infos < MaxOutputCoin)%nat;
  tf_ins : tp_InputCoins params = map PlainV2 ins;
  tf_owned : Forall2 (owned sk) ins xs;
  tf_in_count : (1 <= length ins < 255)%nat;
  tf_ring : exists rp cs pks, ring_kv (length ins) (tp_KvArgs params) my rp cs pks;
  tf_pi : tr_pi R = Ok pi /\ (pi < RingSize)%nat;
  tf_fee : is_u64 (tp_Fee params);
  tf_balance : zsum (map pi_Amount infos) + tp_Fee params <= values ins < 2 ^ 63;
  tf_plain : tp_MetaData params = None;
  tf_info : (length (default [] (tp_Info params)) <= MaxSizeInfo)%nat }.

(** The transaction before the proof. *)
Definition start_tx (params : TxPrivacyInitParams M) (sk : list Z) (b : Z) : TxBase M :=
  mkTxBase 2 TxNormalType (i64 (tr_now R - (1 + Z.rem (tr_int64 R) 100))) (tp_Fee params) (tp_Info params) None None None
    (GetShardIDFromLastByte b) None (Some sk).

Lemma zsum_nonneg l : Forall (fun v => 0 <= v) l -> 0 <= zsum l.
Proof using Type. induction 1; unfold zsum in *; cbn [foldr]; lia. Qed.

Lemma payable_sum infos : Forall payable_info infos -> 0 <= zsum (map pi_Amount infos).
Proof using Type. intros Hi. apply zsum_nonneg, Forall_map. eapply Forall_impl; [exact Hi|]. intros i (Hv & _). apply Hv. Qed.

Lemma start_ok' params sk ins xs infos my pi ks b : transfer params sk ins xs infos my pi ->
  KeySet_InitFromPrivateKey (Some sk) = Ok ks -> last_byte (pa_Pk (ks_PaymentAddress ks)) = Ok b ->
  let change := values ins - zsum (map pi_Amount infos) - tp_Fee params in
  InitializeTxAndParams (tr_now R) (tr_int64 R) params TxBase_new =
    (start_tx params sk b, Ok (tp_setPaymentInfo (map Some (with_change ks infos change)) params)).
Proof using CL DL Eg Eh Hg Hh.
  intros Ht Eks Eb change. pose proof (tf_balance _ _ _ _ _ _ _ Ht) as Hbal. pose proof (tf_fee _ _ _ _ _ _ _ Ht) as Hfee.
  pose proof (payable_sum infos (tf_payable _ _ _ _ _ _ _ Ht)) as Hpos. unfold is_u64 in Hfee.
  destruct (owned_opened sk ins xs (tf_owned _ _ _ _ _ _ _ Ht)) as [Hop _].
  assert (ins <> []) as Hne by (intros ->; pose proof (tf_in_count _ _ _ _ _ _ _ Ht); cbn in *; lia).
  rewrite (InitializeTxAndParams_ok R params sk ins infos ks b TxBase_new (tf_sender _ _ _ _ _ _ _ Ht) Eks Eb (tf_ins _ _ _ _ _ _ _ Ht) Hne
    (opened_values ins Hop) (tf_infos _ _ _ _ _ _ _ Ht) (tf_info _ _ _ _ _ _ _ Ht)) by (fold change; unfold change; lia).
  unfold initialized, start_tx. by rewrite (tf_plain _ _ _ _ _ _ _ Ht).
Qed.

Lemma with_change_payable params sk ins xs infos my pi ks : transfer params sk ins xs infos my pi ->
  KeySet_InitFromPrivateKey (Some sk) = Ok ks -> (exists rk, pa_Tk (ks_PaymentAddress ks) = ScalarMultKey GBASE (sc rk)) ->
  pt_ok (pa_Pk (ks_PaymentAddress ks)) -> pt_ok (pa_OTAPublic (ks_PaymentAddress ks)) ->
  let infos' := with_change ks infos (values ins - zsum (map pi_Amount infos) - tp_Fee params) in
  Forall payable_info infos' /\ (length infos' <= MaxOutputCoin)%nat /\ values ins = zsum (map pi_Amount infos') + tp_Fee params.
Proof using Type.
  intros Ht Eks Htk Hpk Hota infos'. pose proof (tf_balance _ _ _ _ _ _ _ Ht) as Hbal. pose proof (tf_fee _ _ _ _ _ _ _ Ht) as Hfee.
  pose proof (payable_sum infos (tf_payable _ _ _ _ _ _ _ Ht)) as Hpos. pose proof (tf_count _ _ _ _ _ _ _ Ht) as Hc.
  unfold infos', with_change. set (change := values ins - _ - _) in *. unfold is_u64 in Hfee.
  rewrite length_app, map_app, zsum_app, Forall_app. destruct (Z.ltb_spec 0 change).
  - split; [split; [apply (tf_payable _ _ _ _ _ _ _ Ht)|]|].
    + apply Forall_singleton. unfold payable_info. cbn [pi_Amount pi_Message pi_PaymentAddress].
      split; [unfold is_u64, change; lia|]. split; [constructor|]. split; [cbn; lia|]. split; [done|]. split; [done|]. split; [exact Htk|].
      by apply (tf_change _ _ _ _ _ _ _ Ht).
    + unfold zsum in *. cbn [map foldr length pi_Amount]. split; [lia|unfold change; lia].
  - split; [split; [apply (tf_payable _ _ _ _ _ _ _ Ht)|constructor]|]. unfold zsum in *. cbn [map foldr length].
    split; [lia|unfold change in *; lia].
Qed.

(** A finished transfer. *)
Definition transferred (params : TxPrivacyInitParams M) (ins outs : list CoinV2) (infos : list PaymentInfo) (my : list Z) (pi : nat)
    (t : TxBase M) : Prop :=
  Forall2 delivered infos outs /\ values ins = values outs + tp_Fee params /\
  (exists p, tx_Proof t = Some (ProofOf2 p) /\ proved aggParam ins outs (map Some infos) p) /\
  exists message, Tx_HashBytes t = Ok message /\ signed ins my pi message t.

Lemma provePRV_ok params sk ins xs infos my pi infos' outs t : drawn -> transfer params sk ins xs infos my pi ->
  (length infos' <= MaxOutputCoin)%nat -> tx_Metadata t = None -> let params' := tp_setPaymentInfo (map Some infos') params in
  new_outputs fuel R params' 0 (map Some infos') = Ok outs -> Forall2 delivered infos' outs ->
  exists p d, provePRV fuel aggParam R params' t = (tx_SetProof (Some (ProofOf2 p)) t, Ok (map PlainV2 ins, outs)) /\
    proved aggParam ins outs (map Some infos') p /\ p = proof2_of 2 None d /\ (exists r, p2_range d = Some r) /\ payment2_ok d.
Proof using All.
  intros Hd Ht Hcount Hplain params' Eouts Hdel. destruct (delivered_coins infos' outs Hdel) as (Hsend & _ & _).
  destruct (owned_opened sk ins xs (tf_owned _ _ _ _ _ _ _ Ht)) as [Hip _]. pose proof (Forall2_length _ _ _ Hdel) as Ldel.
  assert (Forall stored2 ins) as Hins by (eapply Forall_impl; [exact Hip|]; intros c Hc; apply Hc).
  destruct (prove_ok aggParam R ins outs (map Some infos') [] Hins Hsend ltac:(lia) (dr_params Hd) (dr_range Hd)
    (proj1 (dr_generators Hd)) (proj2 (dr_generators Hd))) as (p & Ep & Hp).
  pose proof Hp as (d & hidden & Epd & Hr & Hhid & _ & _).
  pose proof (sent_payment d ins outs (map Some infos') hidden Hr Hins (proj2 (tf_in_count _ _ _ _ _ _ _ Ht)) ltac:(lia) Hhid) as Hd2.
  exists p. eexists. split; [|split; [exact Hp|split; [exact Epd|split; [by eexists|exact Hd2]]]].
  unfold provePRV, st_bind, st_lift, st_put. change (tp_PaymentInfo params') with (map Some infos'). rewrite Eouts.
  change (tp_InputCoins params') with (tp_InputCoins params). rewrite (tf_ins _ _ _ _ _ _ _ Ht), Ep. cbn [snd tx_SetProof tx_Metadata].
  rewrite Hplain. reflexivity.
Qed.

(** The search of the one-time addresses, and the proof. *)
Lemma provePRV_spec params sk ins xs infos my pi infos' shard t : drawn -> transfer params sk ins xs infos my pi ->
  Forall payable_info infos' -> (length infos' <= MaxOutputCoin)%nat -> tx_Metadata t = None ->
  let params' := tp_setPaymentInfo (map Some infos') params in GetSenderShard params' = Ok shard ->
  let r := provePRV fuel aggParam R params' t in
  (snd r = OutOfFuel /\ exists j info, infos' !! j = Some info /\ still_searching fuel shard (tr_shared R j) info) \/
  (exists outs p d, r = (tx_SetProof (Some (ProofOf2 p)) t, Ok (map PlainV2 ins, outs)) /\ Forall2 delivered infos' outs /\
     proved aggParam ins outs (map Some infos') p /\ p = proof2_of 2 None d /\ (exists r, p2_range d = Some r) /\ payment2_ok d).
Proof using All.
  intros Hd Ht Hpay Hcount Hplain params' Esh r.
  destruct (new_outputs_spec fuel R params' shard infos' (dr_coins Hd) (dr_fuel Hd) Esh Hpay 0) as [[E Hs]|(outs & E & Hdel)].
  - left. split; [|exact Hs]. unfold r, provePRV, st_bind, st_lift. change (tp_PaymentInfo params') with (map Some infos'). by rewrite E.
  - right. destruct (provePRV_ok params sk ins xs infos my pi infos' outs t Hd Ht Hcount Hplain E Hdel) as (p & d & Ep & Hp & Epd & Hr & Hd2).
    exists outs, p, d. split; [exact Ep|]. by repeat (split; [assumption|]).
Qed.

Lemma sign_transfer params sk ins xs infos my pi infos' outs message t : drawn -> transfer params sk ins xs infos my pi ->
  Forall2 delivered infos' outs -> values ins = zsum (map pi_Amount infos') + tp_Fee params -> tx_Sig t = None ->
  length message = 32%nat -> bytes_ok message ->
  exists pk ks sig, let t' := tx_SetSig (Some sig) (tx_SetPrivateKey (Some ks) (tx_SetSigPubKey (Some pk) t)) in
    signOnMessage R (map PlainV2 ins) outs (tp_setPaymentInfo (map Some infos') params) message t = (t', Ok tt) /\ signed ins my pi message t'.
Proof using All.
  intros Hd Ht Hdel Hval Es Lm Hm. destruct (delivered_coins infos' outs Hdel) as (_ & Hop & Hov).
  destruct (tf_ring _ _ _ _ _ _ _ Ht) as (rp & cs & pks & Hkv). destruct (tf_pi _ _ _ _ _ _ _ Ht) as [Epi Hpi]. destruct (dr_ring Hd) as [Ha Hrr].
  apply (signOnMessage_ok R Ha Hrr sk (tp_KvArgs params) my rp cs pks ins xs outs (tp_Fee params)); try done.
  - exact (tf_owned _ _ _ _ _ _ _ Ht).
  - exact (tf_fee _ _ _ _ _ _ _ Ht).
  - lia.
  - apply (tf_in_count _ _ _ _ _ _ _ Ht).
  - exact (tf_sender _ _ _ _ _ _ _ Ht).
Qed.

Lemma Tx_prove_ok params sk ins xs infos my pi infos' outs b : drawn -> transfer params sk ins xs infos my pi ->
  (length infos' <= MaxOutputCoin)%nat -> values ins = zsum (map pi_Amount infos') + tp_Fee params ->
  let params' := tp_setPaymentInfo (map Some infos') params in
  new_outputs fuel R params' 0 (map Some infos') = Ok outs -> Forall2 delivered infos' outs ->
  exists t, Tx_prove fuel aggParam R params' (start_tx params sk b) = (t, Ok tt) /\ transferred params ins outs infos' my pi t /\
    exists d, carries d t.
Proof using All.
  intros Hd Ht Hcount Hval params' Eouts Hdel. destruct (delivered_coins infos' outs Hdel) as (_ & _ & Hov).
  destruct (provePRV_ok params sk ins xs infos my pi infos' outs (start_tx params sk b) Hd Ht Hcount eq_refl Eouts Hdel) as
    (p & d & Ep & Hp & Epd & Hpay). fold params' in Ep. set (t1 := tx_SetProof _ _) in Ep.
  assert (forall pk ks sig, carries d (tx_SetSig sig (tx_SetPrivateKey ks (tx_SetSigPubKey pk t1)))) as Hcar.
  { intros pk ks sig. split; [done|]. split; [done|]. split; [|done]. cbn [tx_SetSig tx_SetPrivateKey tx_SetSigPubKey t1 tx_SetProof tx_Proof]. by rewrite Epd. }
  destruct (carries_hash d t1 (Hcar None (Some sk) None)) as (message & Em & Lm & Hm).
  destruct (sign_transfer params sk ins xs infos my pi infos' outs message t1 Hd Ht Hdel Hval eq_refl Lm Hm) as (pk & ks & sig & Es & Hs).
  exists (tx_SetSig (Some sig) (tx_SetPrivateKey (Some ks) (tx_SetSigPubKey (Some pk) t1))). split; [|split; [|by exists d]].
  - unfold Tx_prove, st_bind. rewrite Ep. cbv iota beta. rewrite Em. exact Es.
  - split; [exact Hdel|]. split; [lia|]. split; [exists p; by split|]. exists message. split; [exact Em|exact Hs].
Qed.
End whole.

Section goes_through.
Context {M : Type} `{MO : MetadataOps M} `{JL : TxCodecLaws M}.
Context (fuel : nat) (aggParam : bulletproofParams) (R : TxRandomness).

Lemma transfer_token v (params : TxPrivacyInitParams M) sk ins xs infos my pi :
  transfer R params sk ins xs infos my pi -> transfer R (tp_setTokenID v params) sk ins xs infos my pi.
Proof using Type. intros [? ? ? ? ? ? ? ? ? ? ? ? ? ? ?]. by constructor. Qed.

Lemma validated (params : TxPrivacyInitParams M) sk ins xs infos my pi : transfer R params sk ins xs infos my pi ->
  exists v, ValidateTxParams params = Ok (tp_setTokenID v params).
Proof using Type.
  intros Ht. unfold ValidateTxParams. rewrite (tf_ins _ _ _ _ _ _ _ _ Ht), (tf_infos _ _ _ _ _ _ _ _ Ht), !length_map.
  pose proof (tf_in_count _ _ _ _ _ _ _ _ Ht). pose proof (tf_count _ _ _ _ _ _ _ _ Ht).
  rewrite !(proj2 (Nat.ltb_ge _ _)) by (unfold MaxOutputCoin in *; lia). destruct (tp_TokenID params) as [v|] eqn:E.
  - exists (Some v). rewrite <- E. by destruct params.
  - by exists (Some PRVCoinID).
Qed.

(** The size of a transaction can always be taken. *)
Lemma carries_size d (t : TxBase M) : carries d t -> exists size, Tx_GetTxActualSize t = Ok size.
Proof using CL JL. intros Ht. destruct (carries_marshal d t Ht) as (b & E & _). unfold Tx_GetTxActualSize. rewrite E. by eexists. Qed.

(** What [Init] does; the transaction can be written. *)
Lemma Tx_Init_spec (params : TxPrivacyInitParams M) sk ins xs infos my pi : drawn fuel aggParam R ->
  transfer R params sk ins xs infos my pi ->
  exists ks shard, KeySet_InitFromPrivateKey (Some sk) = Ok ks /\ GetSenderShard params = Ok shard /\
  let infos' := with_change ks infos (values ins - zsum (map pi_Amount infos) - tp_Fee params) in
  let r := Tx_Init fuel aggParam R params TxBase_new in
  (snd r = OutOfFuel /\ exists j info, infos' !! j = Some info /\ still_searching fuel shard (tr_shared R j) info) \/
  (exists t outs size, r = (t, if MaxTxSize <? size then Err "Can not exceed tx size" else Ok tt) /\
     Tx_GetTxActualSize t = Ok size /\ transferred aggParam params ins outs infos' my pi t /\ exists d, carries d t).
Proof using All.
  intros Hd Ht. destruct (sender_account (M := M) sk (tf_sk _ _ _ _ _ _ _ _ Ht)) as (ks & b & Eks & Eb & Htk & Hpk & Hota & Hshard).
  exists ks, (GetShardIDFromLastByte b). split; [exact Eks|]. split; [apply Hshard, (tf_sender _ _ _ _ _ _ _ _ Ht)|]. cbv zeta.
  destruct (validated params sk ins xs infos my pi Ht) as (v & Ev). apply (transfer_token v) in Ht. set (params1 := tp_setTokenID v params) in *.
  change (tp_Fee params) with (tp_Fee params1). set (change := values ins - _ - _). set (infos' := with_change ks infos change).
  destruct (with_change_payable R params1 sk ins xs infos my pi ks Ht Eks Htk Hpk Hota) as (Hpay & Hcount & Hval).
  fold change infos' in Hpay, Hcount, Hval. set (params2 := tp_setPaymentInfo (map Some infos') params1) in *.
  assert (Tx_Init fuel aggParam R params TxBase_new =
    (let! _ := Tx_prove fuel aggParam R params2 in fun t => (t, let* _ := check_json t in let* txSize := Tx_GetTxActualSize t in
       if MaxTxSize <? txSize then Err "Can not exceed tx size" else Ok tt)) (start_tx R params1 sk b)) as Einit.
  { unfold Tx_Init. rewrite (st_bind_lift _ _ _ _ Ev). unfold st_bind at 1.
    rewrite (start_ok' R params1 sk ins xs infos my pi ks b Ht Eks Eb). fold change infos' params2. unfold st_bind at 1, IsNonPrivacyNonInput.
    change (tp_InputCoins params2) with (tp_InputCoins params1). rewrite (tf_ins _ _ _ _ _ _ _ _ Ht), length_map.
    pose proof (tf_in_count _ _ _ _ _ _ _ _ Ht). rewrite (proj2 (Nat.eqb_neq _ _)) by lia. reflexivity. }
  rewrite Einit.
  destruct (new_outputs_spec fuel R params2 (GetShardIDFromLastByte b) infos' (dr_coins _ _ _ Hd) (dr_fuel _ _ _ Hd)
    (Hshard params2 (tf_sender _ _ _ _ _ _ _ _ Ht)) Hpay 0) as [[E Hs]|(outs & E & Hdel)].
  - left. split; [|exact Hs]. unfold Tx_prove, provePRV, st_bind, st_lift. change (tp_PaymentInfo params2) with (map Some infos').
    by rewrite E.
  - right. destruct (Tx_prove_ok fuel aggParam R params1 sk ins xs infos my pi infos' outs b Hd Ht Hcount Hval E Hdel) as (t & Ep & Htr & d & Hc).
    destruct (carries_size d t Hc) as (size & Es). exists t, outs, size. split; [|split; [exact Es|split; [exact Htr|by exists d]]].
    unfold st_bind. fold params2 in Ep. rewrite Ep. by rewrite (check_json_ok d t Hc), Es.
Qed.

(** C1: a transfer goes through.  For coins that the sender owns, payments that they
    cover together with the fee, and decoys for the ring, [Init] either is still
    searching a one-time address for one of the payments (of which the change is the
    last), or it builds a transaction, and fails only when this is too large: its
    outputs hold the amounts of the payments and are hidden for their receivers, who
    can decrypt them; the inputs are exactly the outputs and the fee; the range
    proof is over the commitments of the outputs and is accepted; the indices of the
    sender's coins are in the row [pi] of the signature's key, and the signature of
    the hash of the transaction verifies with the key images of the inputs. *)
Theorem transfer_goes_through (params : TxPrivacyInitParams M) sk ins xs infos my pi : drawn fuel aggParam R ->
  transfer R params sk ins xs infos my pi ->
  exists ks shard, KeySet_InitFromPrivateKey (Some sk) = Ok ks /\ GetSenderShard params = Ok shard /\
  let infos' := with_change ks infos (values ins - zsum (map pi_Amount infos) - tp_Fee params) in
  let r := Tx_Init fuel aggParam R params TxBase_new in
  (snd r = OutOfFuel /\ exists j info, infos' !! j = Some info /\ still_searching fuel shard (tr_shared R j) info) \/
  (exists t outs size, r = (t, if MaxTxSize <? size then Err "Can not exceed tx size" else Ok tt) /\
     Tx_GetTxActualSize t = Ok size /\ transferred aggParam params ins outs infos' my pi t).
Proof using All.
  intros Hd Ht. destruct (Tx_Init_spec params sk ins xs infos my pi Hd Ht) as (ks & shard & Eks & Esh & Hr). exists ks, shard.
  split; [exact Eks|]. split; [exact Esh|]. destruct Hr as [Hs|(t & outs & size & E & Es & Htr & _)]; [by left|right]. by exists t, outs, size.
Qed.
End goes_through.

(** ** Spending what was received *)

(** The key set without its private key. *)
Definition viewer (ks : KeySet) : KeySet := mkKeySet [] (ks_PaymentAddress ks) (ks_ReadonlyKey ks) (ks_OTAKey ks).

Lemma Decrypt_with_image ks k c d : ks_PrivateKey ks = [] -> CoinV2_Decrypt (Some ks) c = (d, Ok tt) ->
  CoinV2_Decrypt (Some ks) (c2_SetKeyImage k c) = (c2_SetKeyImage k d, Ok tt).
Proof using Type.
  intros Hk. unfold CoinV2_Decrypt. rewrite Hk. cbn [length Nat.ltb Nat.leb]. unfold st_bind, st_ret.
  replace (CoinV2_IsEncrypted (c2_SetKeyImage k c)) with (CoinV2_IsEncrypted c) by reflexivity.
  destruct (CoinV2_IsEncrypted c) as [[]| | |]; [| |done..].
  - destruct (_ && _); [done|]. unfold decrypt_amount. cbn [c2_SetKeyImage c2_txRandom c2_mask c2_amount c2_commitment].
    match goal with |- match ?r with _ => _ end = _ -> _ => destruct r as [[rnd v]| | |]; [|done..] end.
    intros E. apply pair_equal_spec in E as [<- Er]. apply pair_equal_spec. split; [reflexivity|exact Er].
  - intros E. by injection E as <-.
Qed.

(** With the private key, the key image is computed first. *)
Lemma Decrypt_spender ks ki c d : (0 < length (ks_PrivateKey ks))%nat -> (0 < length (vk_Rk (ks_ReadonlyKey ks)))%nat ->
  CoinV2_ParseKeyImageWithPrivateKey (ks_PrivateKey ks) c = Ok ki -> CoinV2_Decrypt (Some (viewer ks)) c = (d, Ok tt) ->
  CoinV2_Decrypt (Some ks) c = (c2_SetKeyImage (Some ki) d, Ok tt).
Proof using Type.
  intros Hp Hr Eki Ed. apply (Decrypt_with_image (viewer ks) (Some ki) c d eq_refl) in Ed. rewrite <- Ed.
  unfold CoinV2_Decrypt, viewer. cbn [ks_PrivateKey ks_ReadonlyKey]. rewrite (proj2 (Nat.ltb_lt _ _) Hp). cbn [length Nat.ltb Nat.leb].
  unfold st_bind, st_ret. rewrite Eki. destruct (CoinV2_IsEncrypted _) as [[]| | |]; try reflexivity.
  rewrite (proj2 (Nat.eqb_neq (length (ks_PrivateKey ks)) 0)) by lia.
  rewrite (proj2 (Nat.eqb_neq (length (vk_Rk (ks_ReadonlyKey ks))) 0)) by lia. reflexivity.
Qed.

Lemma key_image_parsed sk c x : CoinV2_ParsePrivateKeyOfCoin sk c = Ok x -> c2_publicKey c = Some (ScalarMultKey GBASE x) -> sc_ok x ->
  CoinV2_ParseKeyImageWithPrivateKey sk c = Ok (key_image x) /\ pt_ok (key_image x).
Proof using CL DL.
  intros Ex Epk Hx. unfold CoinV2_ParseKeyImageWithPrivateKey, key_image. rewrite Ex, Epk. cbn [deref res_bind].
  destruct (hash_point_ok (ScalarMultKey GBASE x)) as [-> Hp]. split; [reflexivity|]. by apply pt_mult.
Qed.

Lemma with_image_opened c k : opened g h c -> pt_ok k -> opened g h (c2_SetKeyImage (Some k) c) /\ opened g h (c2_SetKeyImage (Some k) (bare c)).
Proof using CL.
  intros [((Hi & Hpk & Hcom & Hki & Hsc & Hsr & Ht & Hm & Ha & Hat) & Hl & Hv & Hr) ? ? ? ? ?] Hk.
  assert (opt_point (Some k)) as Hk' by (by apply pt_key).
  split; constructor; try done; (split; [|by split]); unfold coinV2_ok, bare;
    cbn [c2_SetKeyImage c2_SetSharedRandom c2_SetSharedConcealRandom c2_info c2_publicKey c2_commitment c2_keyImage
      c2_sharedConcealRandom c2_sharedRandom c2_txRandom c2_mask c2_amount c2_assetTag];
    repeat (split; [first [assumption|exact I]|]); assumption.
Qed.

(** What the receiver decrypts. *)
Lemma received_spec sk ks info c out : sc_ok sk -> KeySet_InitFromPrivateKey (Some sk) = Ok ks ->
  pi_PaymentAddress info = ks_PaymentAddress ks -> IsPublicKeyBurningAddress (pa_Pk (pi_PaymentAddress info)) = Ok false ->
  delivered info c -> sent_coin c (Some info) out -> out = c \/ CoinV2_IsEncrypted out = Ok true ->
  exists d x, CoinV2_Decrypt (Some ks) out = (d, Ok tt) /\ owned sk d x /\ coin_value d = pi_Amount info /\ c2_info d = c2_info c.
Proof using CL DL Eg Eh Hg Hh.
  intros Hsk Eks Ea Eb (m & Hm & (Ho & _) & Ev & _ & _ & Hkey) (_ & Epk & _ & Etx & Hout) Henc.
  destruct (Hkey sk ks Hsk Eks Ea Eb) as (x & Ex & Hx & Hpk). rewrite <- Epk in Hpk.
  destruct (keyset_of_ok sk (proj2 (proj1 Hsk))) as (Hvk & _ & E). pose proof (proj1 (proj1 Hsk)) as Hl. unfold Ed25519KeySize in Hl.
  pose proof Eks as Eks2. unfold KeySet_InitFromPrivateKey, PrivateKeySize in Eks2. rewrite Hl in Eks2. cbn [Nat.eqb negb] in Eks2.
  rewrite E in Eks2. injection Eks2 as <-. cbn [ks_PaymentAddress] in *.
  set (ks := mkKeySet sk _ _ _) in *.
  assert (forall o, c2_txRandom o = c2_txRandom c -> CoinV2_ParsePrivateKeyOfCoin sk o = Ok x) as Hparse.
  { intros o Eo. rewrite <- Ex. unfold CoinV2_ParsePrivateKeyOfCoin, GetTxRandomDetail. by rewrite Eo. }
  destruct (key_image_parsed sk out x (Hparse out Etx) Hpk Hx) as [Eki Hki].
  destruct (with_image_opened c _ Ho Hki) as [Ho1 Ho2].
  assert (forall d, opened g h d -> c2_publicKey d = c2_publicKey out -> c2_txRandom d = c2_txRandom c -> c2_keyImage d = Some (key_image x) -> owned sk d x) as Hown.
  { intros d Hd E1 E2 E3. constructor; [exact Hd|by apply Hparse|exact Hx|congruence|exact E3]. }
  assert (forall d, CoinV2_Decrypt (Some (viewer ks)) out = (d, Ok tt) ->
    CoinV2_Decrypt (Some ks) out = (c2_SetKeyImage (Some (key_image x)) d, Ok tt)) as Hdec.
  { intros d Ed. apply Decrypt_spender; [cbn [ks ks_PrivateKey]; lia| |exact Eki|exact Ed].
    cbn [ks ks_ReadonlyKey vk_Rk]. rewrite (proj1 (proj1 Hvk)). unfold Ed25519KeySize. lia. }
  assert (out = c \/ CoinV2_Decrypt (Some (viewer ks)) out = (bare c, Ok tt)) as [->|Ed].
  { destruct Hout as [->|(_ & _ & _ & Hdecr)]; [by left|]. destruct Henc as [->|Henc]; [by left|]. right.
    apply (Hdecr info (key_val (key_HashToScalar sk)) (viewer ks)); [done| | |exact Henc]; rewrite <- (sc_repr _ Hvk).
    - split; [reflexivity|]. split; [reflexivity|exact Hvk].
    - rewrite Ea. reflexivity. }
  - eexists _, x. split; [apply Hdec|].
    + unfold CoinV2_Decrypt, viewer. cbn [ks_PrivateKey length Nat.ltb Nat.leb]. unfold st_bind, st_ret.
      rewrite (IsEncrypted_eq c _ _ _ (op_amount _ _ c Ho) (op_mask _ _ c Ho) (op_com _ _ c Ho)).
      rewrite (opened_commitment g h Eg Eh Hg Hh c Ho). cbn [res_bind]. rewrite bool_decide_true by done. reflexivity.
    + split; [by apply Hown|]. by split.
  - eexists _, x. split; [apply Hdec, Ed|]. split; [by apply Hown|]. by split.
Qed.

(** The coins that are made, one by one. *)
Lemma new_outputs_lookup {M : Type} fuel R (params : TxPrivacyInitParams M) infos :
  coin_randomness_ok R -> Z.of_nat fuel < 2 ^ 32 -> Forall payable_info infos -> forall i outs,
  new_outputs fuel R params i (map Some infos) = Ok outs -> Forall2 delivered infos outs.
Proof using CL DL LL AA HD BL Eg Eh Hg Hh.
  intros Hr Hf Hinfos. induction Hinfos as [|info infos Hi Hinfos IH]; intros i outs E.
  { injection E as <-. constructor. }
  destruct (Hr i) as (Hm & Hs & Hc). cbn [map new_outputs] in E. unfold new_output in E.
  destruct (GetSenderShard params) as [shard| | |]; try discriminate E. cbn [res_bind deref NewTransferCoinParams] in E.
  destruct (new_coin_spec fuel shard _ _ _ info Hi Hm Hs Hc Hf) as [[E1 _]|(c & E1 & Ho)]; rewrite E1 in E; [discriminate E|].
  cbn [res_bind] in E. destruct (new_outputs fuel R params (S i) (map Some infos)) as [cs| | |] eqn:E2; try discriminate E.
  injection E as <-. constructor; [|exact (IH (S i) cs E2)]. exists (tr_mask R i). split; [exact Hm|exact Ho].
Qed.

Lemma hide_outputs2_lookup outs : forall infos hidden, hide_outputs2 outs infos = Ok hidden ->
  forall j c, outs !! j = Some (Some c) ->
  exists out, hide_output2 c (infos !! j) = Ok out /\ hidden !! j = Some (Some out).
Proof using Type.
  induction outs as [|o outs IH]; intros infos hidden E j c Ej; [discriminate Ej|]. cbn [hide_outputs2] in E.
  destruct o as [c0|]; [|discriminate E]. cbn [deref res_bind] in E.
  destruct (hide_output2 c0 (head infos)) as [out| | |] eqn:E1; try discriminate E. cbn [res_bind] in E.
  destruct (hide_outputs2 outs (tail infos)) as [rest| | |] eqn:E2; try discriminate E. injection E as <-.
  destruct j as [|j].
  - injection Ej as ->. exists out. split; [|reflexivity]. rewrite <- E1. by destruct infos.
  - destruct (IH _ _ E2 j c Ej) as (out' & E3 & E4). exists out'. split; [|exact E4]. rewrite <- E3. by destruct infos.
Qed.

(** C5: what was sent can be spent.  [new_outputs] makes the coins of the payments, and
    [ProveV2] hides them.  The coin of a payment is shown as it is when its one-time key
    happens to be the burning address; any other is without the sender's secrets and has
    its mask and amount changed by the hashes of the secret shared with the view key.
    The receiver, whose account is that of the private key [sk], decrypts the coin of the
    proof with the whole key set, and holds a coin of the amount and with the message
    that was paid, with its one-time key and key image: an input of the next transfer.
    A hidden coin has to be seen to be encrypted, which it is not when the changed mask
    and amount open the same commitment. *)
Theorem received_spendable {M : Type} fuel R (params : TxPrivacyInitParams M) aggParam ins infos outs G G' p j info sk ks :
  coin_randomness_ok R -> Z.of_nat fuel < 2 ^ 32 -> Forall payable_info infos ->
  new_outputs fuel R params 0 (map Some infos) = Ok outs -> Forall stored2 ins ->
  ProveV2 (tr_range R) aggParam (map PlainV2 ins) outs [] false (map Some infos) G = (G', Ok p) ->
  infos !! j = Some info -> sc_ok sk -> KeySet_InitFromPrivateKey (Some sk) = Ok ks ->
  pi_PaymentAddress info = ks_PaymentAddress ks -> IsPublicKeyBurningAddress (pa_Pk (pi_PaymentAddress info)) = Ok false ->
  exists c pk out, outs !! j = Some c /\ c2_publicKey c = Some pk /\ q_outputCoins p !! j = Some (Some out) /\
    ((IsPublicKeyBurningAddress pk = Ok true /\ out = c) \/
     (IsPublicKeyBurningAddress pk = Ok false /\ hidden_coin info c out)) /\
    (IsPublicKeyBurningAddress pk = Ok true \/ CoinV2_IsEncrypted out = Ok true ->
     exists d x, CoinV2_Decrypt (Some ks) out = (d, Ok tt) /\ owned sk d x /\
       coin_value d = pi_Amount info /\ c2_info d = pi_Message info).
Proof using CL DL LL AA HD BL Eg Eh Hg Hh.
  intros Hr Hf Hinfos Eouts Hins Ep Ej Hsk Eks Ea Eb.
  pose proof (new_outputs_lookup fuel R params infos Hr Hf Hinfos 0%nat outs Eouts) as Hdel.
  destruct (delivered_coins infos outs Hdel) as (Hsend & _ & _).
  pose proof (sendable_to_send g h Eg Eh Hg Hh outs (map Some infos) Hsend) as Hto.
  pose proof (ProveV2_hides _ aggParam ins outs [] false (map Some infos) G G' p Hins (to_send_opens _ _ Hto) Ep) as Ehid.
  destruct (Forall2_lookup_l _ _ _ _ _ Hdel Ej) as (c & Ec & Hc).
  assert (to_send c (Some info)) as Hs.
  { apply (Forall2_lookup_lr _ _ _ j c (Some info) Hto Ec). by rewrite list_lookup_fmap, Ej. }
  destruct (hide_outputs2_lookup _ _ _ Ehid j c) as (out & Eo & Eoj); [by rewrite list_lookup_fmap, Ec|].
  rewrite list_lookup_fmap, Ej in Eo. destruct (hide_output2_shape c info out Hs Eo) as (pk & Epk & Hshape).
  exists c, pk, out. split; [exact Ec|]. split; [exact Epk|]. split; [exact Eoj|]. split; [exact Hshape|]. intros Henc.
  destruct (hide_output2_ok c (Some info) Hs) as (out' & Eo' & Hsent). assert (out' = out) as -> by (assert (Ok out' = Ok out) as E by exact (eq_trans (eq_sym Eo') Eo); congruence).
  pose proof Hc as (mask & _ & _ & _ & _ & Emsg & _). rewrite <- Emsg.
  apply (received_spec sk ks info c out Hsk Eks Ea Eb Hc Hsent).
  destruct Henc as [Ebu|Henc]; [left|by right]. destruct Hshape as [[_ E]|[E _]]; [exact E|congruence].
Qed.
End transfer.

(** ** A transfer over the toy curve *)

#[local] Existing Instances keep_all keep_all_laws toy_curve toy_curve_laws toy_digests toy_digest_laws exact_cap exact_cap_laws
  toy_hdwallet toy_cipher toy_cipher_laws.

(** JSON as the code of the members. *)
Definition tx_members : Type :=
  Z * string * Z * Z * option (list Z) * option (list Z) * option (list Z) * option (list Z) * Z * option (Z * option (list Z)).

Definition members_of (j : tx_json MetadataBase) : tx_members :=
  (js_Version j, js_Type j, js_LockTime j, js_Fee j, js_Info j, js_SigPubKey j, js_Sig j, js_Proof j, js_PubKeyLastByteSender j,
   (fun m => match m with MetaBase ty => (ty, None) | MetaSigned ty s => (ty, Some s) end) <$> js_Metadata j).

Definition of_members (m : tx_members) : tx_json MetadataBase :=
  let '(v, ty, lock, fee, info, pk, sig, proof, last, md) := m in
  mkTxJson v ty lock fee info pk sig proof last
    ((fun m : Z * option (list Z) => match m with (ty, None) => MetaBase ty | (ty, Some s) => MetaSigned ty s end) <$> md).

(** Data as bytes. *)
Definition write_code {A} `{Countable A} (x : A) : list Z := bigint_bytes (Zpos (countable.encode x)).
Definition read_code {A} `{Countable A} (b : list Z) : res A :=
  match bigint_set_bytes b with
  | Zpos p => match countable.decode p with Some m => Ok m | None => Err "json" end
  | _ => Err "json"
  end.

Lemma read_write {A} `{Countable A} (x : A) : read_code (write_code x) = Ok x.
Proof. unfold read_code, write_code. rewrite bigint_inverse by lia. by rewrite countable.decode_encode. Qed.

Lemma write_bytes {A} `{Countable A} (x : A) : bytes_ok (write_code x).
Proof. apply bigint_bytes_ok. Qed.

#[local] Instance toy_codec : TxCodec MetadataBase := {
  json_marshal j := Ok (write_code (members_of j));
  json_unmarshal b := let* m := read_code b in Ok (of_members m) }.

#[local] Instance toy_codec_laws : TxCodecLaws MetadataBase.
Proof.
  constructor.
  - intros j. eexists. split; [reflexivity|]. cbn [json_unmarshal toy_codec]. rewrite read_write. cbn [res_bind]. f_equal.
    destruct j as [v ty lock fee info pk sig proof last [[]|]]; reflexivity.
  - intros j b E. injection E as <-. apply write_bytes.
Qed.

Definition toy_randomness : TxRandomness :=
  mkTxRandomness 1700000000 77 (key_of 5) (key_of 6) (fun i => sc (20 + Z.of_nat i)) (fun i => key_of 9) (fun i => sc (60 + Z.of_nat i))
    toy_rnd (Ok 3%nat) (fun i => sc (100 + Z.of_nat i)) (fun i j => sc (200 + 10 * Z.of_nat i + Z.of_nat j)).

Lemma toy_drawn : exists ag, drawn 8 ag toy_randomness.
Proof.
  destruct (newBulletproofParams_ok MaxOutputCoin) as (ag & _ & Hag & L1 & L2). exists ag.
  constructor; [lia| | | |exact Hag|lia]; cbn [toy_randomness tr_mask tr_shared tr_conceal tr_range tr_alpha tr_r].
  - intros i. split; [apply sc_ok_sc|]. split; [apply toy_scalar; lia|apply sc_ok_sc].
  - exact toy_rnd_ok.
  - split; intros; apply sc_ok_sc.
Qed.

(** The account of the private key 4, which pays itself. *)
Definition toy_sender : KeySet :=
  match KeySet_InitFromPrivateKey (Some (key_of 4)) with Ok ks => ks | _ => emptyKeySet end.

Definition toy_payment (v : Z) : PaymentInfo := mkPaymentInfo (ks_PaymentAddress toy_sender) v [1; 2].

Lemma toy_account : KeySet_InitFromPrivateKey (Some (key_of 4)) = Ok toy_sender.
Proof. vm_compute. reflexivity. Qed.

Lemma toy_sk : sc_ok (key_of 4).
Proof. apply toy_scalar. lia. Qed.

Lemma Ok_inj {A} (a b : A) : Ok a = Ok b -> a = b.
Proof. intros E. by injection E. Qed.

Lemma toy_payable v : is_u64 v -> payable_info (toy_payment v).
Proof.
  intros Hv. destruct (account_points (key_of 4) toy_sender toy_sk toy_account) as [P1 P2].
  split; [exact Hv|]. split; [repeat constructor; unfold is_byte; lia|]. split; [cbn; lia|]. split; [exact P1|]. split; [exact P2|].
  split; [|left; apply toy_burning].
  destruct (sender_account (M := MetadataBase) (key_of 4) toy_sk) as (ks & b & E & _ & H & _). rewrite toy_account in E.
  change (exists rk, pa_Tk (ks_PaymentAddress toy_sender) = ScalarMultKey GBASE (sc rk)). rewrite (Ok_inj _ _ E). exact H.
Qed.

(** The first index gives a coin to any payment to the account. *)
Lemma toy_found fuel v msg : (0 < fuel)%nat -> ~ still_searching fuel 1 (key_of 9) (mkPaymentInfo (ks_PaymentAddress toy_sender) v msg).
Proof.
  intros Hf (b & Eb & Hrej). assert (Ok b = Ok 9) as E by (rewrite <- Eb; vm_compute; reflexivity). apply Ok_inj in E. subst b.
  specialize (Hrej 1 ltac:(lia)). revert Hrej.
  match goal with |- ?t = _ -> _ => replace t with (Ok true) by (vm_compute; reflexivity) end. discriminate.
Qed.

#[local] Opaque toy_sender.

(** An input coin of the value 100. *)
Lemma toy_input_coin g h : index PedG PedersenValueIndex = Ok g -> index PedG PedersenRandomnessIndex = Ok h -> pt_ok g -> pt_ok h ->
  exists c, delivered g h (toy_payment 100) c.
Proof.
  intros Eg Eh Hg Hh.
  destruct (new_coin_spec g h Eg Eh Hg Hh 8 1 (key_of 20) (key_of 9) (key_of 60) (toy_payment 100)) as [[_ Hs]|(c & _ & Hc)];
    [exact (toy_payable 100 ltac:(unfold is_u64; lia))|exact (toy_scalar 20 ltac:(lia))|exact (toy_scalar 9 ltac:(lia))|
     exact (toy_scalar 60 ltac:(lia))|reflexivity|exact (False_ind _ (toy_found 8 100 [1; 2] ltac:(lia) Hs))|].
  exists c, (key_of 20). split; [apply toy_scalar; lia|exact Hc].
Qed.

Lemma toy_owned_coin g h : index PedG PedersenValueIndex = Ok g -> index PedG PedersenRandomnessIndex = Ok h -> pt_ok g -> pt_ok h ->
  exists c x, owned g h (key_of 4) c x /\ coin_value c = 100.
Proof.
  intros Eg Eh Hg Hh. destruct (toy_input_coin g h Eg Eh Hg Hh) as (c & m & Hm & (Ho & _) & Ev & _ & _ & Hkey).
  destruct (Hkey (key_of 4) toy_sender toy_sk toy_account eq_refl (toy_burning _)) as (x & Ex & Hx & Epk).
  destruct (key_image_parsed (key_of 4) c x Ex Epk Hx) as [_ Hki]. destruct (with_image_opened g h c _ Ho Hki) as [Ho' _].
  exists (c2_SetKeyImage (Some (key_image x)) c), x. split; [|exact Ev]. constructor; [exact Ho'| |exact Hx|exact Epk|reflexivity].
  rewrite <- Ex. reflexivity.
Qed.

(** Seven decoys. *)
Definition toy_points (k : Z) : list (list Z) := map toy_write [k; k + 1; k + 2; k + 3; k + 4; k + 5; k + 6].

Definition toy_kv : kv_args :=
  Some (<[kv_CommitmentIndices := KvIndices [31; 32; 33; 34; 35; 36; 37]]>
       (<[kv_Commitments := KvPoints (map Some (toy_points 300))]>
       (<[kv_PublicKeys := KvPoints (map Some (toy_points 400))]>
       (<[kv_AssetTags := KvPoints []]> (<[kv_MyIndices := KvIndices [30]]> ∅))))).

Lemma toy_ring_kv : ring_kv 1 toy_kv [30]
  (mkRingParams [31; 32; 33; 34; 35; 36; 37] [30] (map Some (toy_points 300)) (map Some (toy_points 400)) [])
  (toy_points 300) (toy_points 400).
Proof.
  constructor.
  - eexists. split; [reflexivity|]. by vm_compute.
  - reflexivity.
  - cbn. lia.
  - split; apply Forall_map, Forall_true; intros; by eexists.
  - split; repeat constructor; try lia; apply Z.ltb_lt; vm_compute; reflexivity.
Qed.

Definition toy_transfer (ins : list CoinV2) : TxPrivacyInitParams MetadataBase :=
  NewTxPrivacyInitParams (Some (key_of 4)) [Some (toy_payment 40)] (map PlainV2 ins) 5 true None None None toy_kv.

Lemma toy_transfer_ok g h c x : owned g h (key_of 4) c x -> coin_value c = 100 ->
  transfer g h toy_randomness (toy_transfer [c]) (key_of 4) [c] [x] [toy_payment 40] [30] 3.
Proof.
  intros Hc Ev. constructor; try reflexivity.
  - exact toy_sk.
  - intros ks _. left. apply toy_burning.
  - apply Forall_singleton, toy_payable. unfold is_u64. lia.
  - cbn. unfold MaxOutputCoin. lia.
  - apply Forall2_cons_2; [exact Hc|apply Forall2_nil_2].
  - cbn. lia.
  - eexists _, _, _. exact toy_ring_kv.
  - split; [reflexivity|unfold RingSize; lia].
  - unfold is_u64. cbn [toy_transfer tp_Fee NewTxPrivacyInitParams]. lia.
  - unfold values. cbn [map zsum foldr]. rewrite Ev. unfold zsum. cbn. lia.
  - cbn. unfold MaxSizeInfo. lia.
Qed.

(** 100 pay 40 with a fee of 5, and 55 go back. *)
Lemma transfer_goes_through_witness : exists g h c ag t outs size,
  Tx_Init 8 ag toy_randomness (toy_transfer [c]) TxBase_new = (t, if MaxTxSize <? size then Err "Can not exceed tx size" else Ok tt) /\
  transferred g h ag (toy_transfer [c]) [c] outs [toy_payment 40; mkPaymentInfo (ks_PaymentAddress toy_sender) 55 []] [30] 3 t.
Proof.
  destruct (PedG_index PedersenValueIndex) as (g & Eg & Hg); [unfold PedersenValueIndex; lia|].
  destruct (PedG_index PedersenRandomnessIndex) as (h & Eh & Hh); [unfold PedersenRandomnessIndex; lia|].
  destruct (toy_owned_coin g h Eg Eh Hg Hh) as (c & x & Hc & Ev). destruct toy_drawn as [ag Hd].
  destruct (transfer_goes_through g h Eg Eh Hg Hh 8 ag toy_randomness (toy_transfer [c]) (key_of 4) [c] [x] [toy_payment 40] [30] 3 Hd
    (toy_transfer_ok g h c x Hc Ev)) as (ks & shard & Eks & Esh & Hr).
  rewrite toy_account in Eks. apply Ok_inj in Eks. subst ks.
  assert (shard = 1) as -> by (apply Ok_inj; rewrite <- Esh; vm_compute; reflexivity).
  replace (with_change _ _ _) with [toy_payment 40; mkPaymentInfo (ks_PaymentAddress toy_sender) 55 []] in Hr
    by (unfold values; cbn [map zsum foldr]; rewrite Ev; reflexivity).
  destruct Hr as [[_ ([|[|j]] & info & Ej & Hs)]|(t & outs & size & E & _ & Ht)].
  - injection Ej as <-. exact (False_ind _ (toy_found 8 _ _ ltac:(lia) Hs)).
  - injection Ej as <-. exact (False_ind _ (toy_found 8 _ _ ltac:(lia) Hs)).
  - change (([] : list PaymentInfo) !! j = Some info) in Ej. rewrite lookup_nil in Ej. discriminate Ej.
  - exists g, h, c, ag, t, outs, size. split; [exact E|exact Ht].
Defined.

(** A payment of 40 to the account, from its input of 100: the coin is encrypted in the
    proof. *)
Definition toy_outputs : list CoinV2 :=
  ok_or [] (new_outputs 8 toy_randomness (toy_transfer []) 0 (map Some [toy_payment 40])).

Lemma toy_outputs_ok : new_outputs 8 toy_randomness (toy_transfer []) 0 (map Some [toy_payment 40]) = Ok toy_outputs.
Proof. apply ok_or_spec. vm_compute. reflexivity. Qed.

Lemma toy_hidden : exists out, hide_outputs2 (map Some toy_outputs) (map Some [toy_payment 40]) = Ok [Some out] /\
  CoinV2_IsEncrypted out = Ok true.
Proof.
  assert (match hide_outputs2 (map Some toy_outputs) (map Some [toy_payment 40]) with
          | Ok [Some out] => match CoinV2_IsEncrypted out with Ok true => true | _ => false end
          | _ => false end = true) as E by (vm_compute; reflexivity).
  destruct (hide_outputs2 _ _) as [[|[out|] [|]]| | |]; try discriminate E. exists out. split; [reflexivity|].
  destruct (CoinV2_IsEncrypted out) as [[]| | |]; try discriminate E. reflexivity.
Qed.

Lemma received_spendable_witness : exists g h c out p d x,
  toy_outputs = [c] /\ q_outputCoins p = [Some out] /\ CoinV2_IsEncrypted out = Ok true /\
  CoinV2_Decrypt (Some toy_sender) out = (d, Ok tt) /\ owned g h (key_of 4) d x /\ coin_value d = 40.
Proof.
  destruct (PedG_index PedersenValueIndex) as (g & Eg & Hg); [unfold PedersenValueIndex; lia|].
  destruct (PedG_index PedersenRandomnessIndex) as (h & Eh & Hh); [unfold PedersenRandomnessIndex; lia|].
  destruct toy_drawn as (ag & Hd).
  assert (Forall payable_info [toy_payment 40]) as Hpay by (apply Forall_singleton, toy_payable; unfold is_u64; lia).
  pose proof (dr_coins _ _ _ Hd) as Hr.
  assert (Z.of_nat 8 < 2 ^ 32) as Hf by lia.
  pose proof (new_outputs_lookup g h Eg Eh Hg Hh 8 toy_randomness (toy_transfer []) _ Hr Hf Hpay 0%nat _ toy_outputs_ok) as Hdel.
  destruct (delivered_coins g h _ _ Hdel) as (Hsend & _ & _).
  destruct (toy_owned_coin g h Eg Eh Hg Hh) as (cin & x0 & Hcin & _).
  assert (Forall stored2 [cin]) as Hins by (apply Forall_singleton, (op_stored g h cin), (ow_opened _ _ _ _ _ Hcin)).
  destruct (prove_ok g h Eg Eh Hg Hh ag toy_randomness [cin] toy_outputs (map Some [toy_payment 40]) [] Hins Hsend) as (p & Ep & _);
    [rewrite <- (Forall2_length _ _ _ Hdel); cbn; unfold MaxOutputCoin; lia|apply (dr_params _ _ _ Hd)|apply (dr_range _ _ _ Hd)|
     apply (dr_generators _ _ _ Hd)|apply (dr_generators _ _ _ Hd)|].
  destruct (received_spendable g h Eg Eh Hg Hh 8 toy_randomness (toy_transfer []) ag [cin] [toy_payment 40] toy_outputs [] [] p 0
    (toy_payment 40) (key_of 4) toy_sender Hr Hf Hpay toy_outputs_ok Hins Ep eq_refl toy_sk toy_account eq_refl (toy_burning _))
    as (c & pk & out & Ec & _ & Eo & _ & Hdec).
  destruct toy_hidden as (out0 & Ehid & Henc).
  pose proof (to_send_opens _ _ (sendable_to_send g h Eg Eh Hg Hh _ _ Hsend)) as Hop.
  rewrite (ProveV2_hides _ _ _ _ _ _ _ _ _ _ Hins Hop Ep) in Ehid. apply Ok_inj in Ehid.
  rewrite Ehid in Eo. assert (out0 = out) as -> by (by injection Eo).
  destruct (Hdec (or_intror Henc)) as (d & x & Ed & Hown & Ev & _).
  exists g, h, c, out, p, d, x. split; [|split; [exact Ehid|split; [exact Henc|split; [exact Ed|split; [exact Hown|exact Ev]]]]].
  pose proof (Forall2_length _ _ _ Hdel) as L. destruct toy_outputs as [|c0 [|]]; try discriminate L. injection Ec as ->. reflexivity.
Defined.
