(* ===== verification/TxCA.v ===== *)
(** * TxCA.v: the ring signature of a token transfer

    [src/transaction/tx_ver2/tx_ver2_ca.go]: the coins of a token carry an asset
    tag, which is the point of the token plus a blinder times the random base, and
    commit to their value over that tag.  The ring of a transfer has two more
    columns than inputs: the difference of the asset tags, each multiplied by the
    number of coins on the other side, and the difference of the commitments.
    Both are multiples of the random base when inputs and outputs are of the same
    token and of the same value. *)

From stdpp Require Import base list gmap strings.
From Stdlib Require Import ZArith Lia.
From S2P Require Import Prelude Cursor Common Hashing Encoding Crypto Key Base58 Base58Check Wallet Burning CoinV2 Hybrid CoinV1 Schnorr Mlsag Linear Bulletproof Sigma OneOutOfMany ProofV1 Payment ProofV2 Utxo TxGeneric TxV2 Transfer.
Open Scope Z_scope.

Section tx.
Context `{CO : CurveOps} `{DG : Digests} `{LR : LRU} `{AL : Allocator} `{HD : HDWallet} `{BC : BlockCipher}.

(** Without a token the coins are of PRV; the shared secret is [nil] for a coin to the
    burning address. *)
Definition createUniqueOTACoinCA (rMask rShared rConceal : list Z) (p : CoinParams) (tokenID : option (list Z))
    : res (CoinV2 * option (list Z)) :=
  NewCoinCA rMask rShared rConceal p (Some (default PRVCoinID tokenID)).

(** ** The private keys *)

(** The sums of the asset tag blinders and of the effective randomness over the
    inputs.  A tag that is the point of the token is not blinded. *)
Definition coin_blinder (rehashed tag : list Z) (secret : res (option (list Z))) : res (list Z) :=
  if IsPointEqual rehashed tag then Scalar_FromUint64 0
  else let* s := secret in ComputeAssetTagBlinder s.

Definition effective_randomness (bl : list Z) (c : CoinV2) : res (list Z) :=
  let* v := deref (c2_amount c) in
  let* r := deref (c2_mask c) in
  Ok (Scalar_Add (Scalar_Mul bl v) r).

Fixpoint sum_inputs_CA (rehashed sk : list Z) (ins : list PlainCoin) (keys : list (list Z)) (sumTags sumRand : list Z)
    : res (list (list Z) * list Z * list Z) :=
  match ins with
  | [] => Ok (keys, sumTags, sumRand)
  | p :: ins =>
      let* x := PlainCoin_ParsePrivateKeyOfCoin sk p in
      match p with
      | PlainV1 _ => Err "cannot cast a coin as v2-CA"
      | PlainV2 c =>
          match c2_assetTag c with
          | None => Err "cannot cast a coin as v2-CA"
          | Some tag =>
              let* bl := coin_blinder rehashed tag (let* s := RecomputeSharedSecret sk c in Ok (Some s)) in
              let* r := effective_randomness bl c in
              sum_inputs_CA rehashed sk ins (keys ++ [x]) (Scalar_Add sumTags bl) (Scalar_Add sumRand r)
          end
      end
  end.

Fixpoint sum_outputs_CA (rehashed : list Z) (outs : list CoinV2) (secrets : list (option (list Z))) (i : nat) (sumTags sumRand : list Z)
    : res (list Z * list Z) :=
  match outs with
  | [] => Ok (sumTags, sumRand)
  | c :: outs =>
      match c2_assetTag c with
      | None => Err "cannot cast a coin as v2-CA"
      | Some tag =>
          let* bl := coin_blinder rehashed tag (index secrets i) in
          let* r := effective_randomness bl c in
          sum_outputs_CA rehashed outs secrets (S i) (Scalar_Add sumTags bl) (Scalar_Sub sumRand r)
      end
  end.

Definition createPrivateKeyMlsagCA (inputCoins : list PlainCoin) (outputCoins : list CoinV2) (outputSharedSecrets : list (option (list Z)))
    (senderSK tokenID : option (list Z)) (commitmentsToZero : option (list Z * list Z)) : res (list (list Z)) :=
  let* rehashed := deref (HashToPoint (default PRVCoinID tokenID)) in
  let* zero := Scalar_FromUint64 0 in
  let* numOfInputs := Scalar_FromUint64 (Z.of_nat (length inputCoins)) in
  let* numOfOutputs := Scalar_FromUint64 (Z.of_nat (length outputCoins)) in
  let* sk := deref senderSK in
  let* (keys, sumIn, sumRand) := sum_inputs_CA rehashed sk inputCoins [] zero zero in
  let sumIn := Scalar_Mul sumIn numOfOutputs in
  let* (sumOut, sumRand) := sum_outputs_CA rehashed outputCoins outputSharedSecrets 0 zero sumRand in
  let sumOut := Scalar_Mul sumOut numOfInputs in
  let assetSum := Scalar_Sub sumIn sumOut in
  let* h := index PedG PedersenRandomnessIndex in
  match commitmentsToZero with
  | None => Err "need exactly 2 points for MLSAG double-checking"
  | Some (first, second) =>
      if IsPointEqual (Point_ScalarMult h assetSum) first && IsPointEqual (Point_ScalarMult h sumRand) second
      then Ok (keys ++ [assetSum; sumRand])
      else Err "asset tag sum or commitment sum mismatch"
  end.

(** ** The ring *)

Fixpoint sum_tags (sum : list Z) (outs : list CoinV2) : res (list Z) :=
  match outs with
  | [] => Ok sum
  | c :: outs =>
      match c2_assetTag c with
      | None => Err "cannot sign CA token : an output coin does not have asset tag"
      | Some tag => sum_tags (Point_Add sum tag) outs
      end
  end.

(** A row with its indices, the sum of its commitments and that of its asset tags. *)
Fixpoint own_row_CA (ins : list PlainCoin) (myIndices : list Z) (j : nat) (sum tags : list Z)
    : res (list (option (list Z)) * list Z * list Z * list Z) :=
  match ins with
  | [] => Ok ([], [], sum, tags)
  | p :: ins =>
      let* ix := index myIndices j in
      let* com := deref (PlainCoin_GetCommitment p) in
      match p with
      | PlainV1 _ => Err "cannot cast a coin as v2"
      | PlainV2 c =>
          match c2_assetTag c with
          | None => Err "cannot sign CA token : an input coin does not have asset tag"
          | Some tag =>
              let* (row, ixs, sum, tags) := own_row_CA ins myIndices (S j) (Point_Add sum com) (Point_Add tags tag) in
              Ok (c2_publicKey c :: row, ix :: ixs, sum, tags)
          end
      end
  end.

Fixpoint decoy_row_CA (rp : ring_params) (m currentIndex : nat) (sum tags : list Z)
    : res (list (option (list Z)) * list Z * list Z * list Z) :=
  match m with
  | O => Ok ([], [], sum, tags)
  | S m =>
      let* ix := index (rg_cmtIndices rp) currentIndex in
      let* pk := index (rg_publicKeys rp) currentIndex in
      let* o := index (rg_commitments rp) currentIndex in
      let* com := deref o in
      let* tag := index (rg_assetTags rp) currentIndex in
      match tag with
      | None => Err "cannot sign CA token : a CA coin in DB does not have asset tag"
      | Some tag =>
          let* (row, ixs, sum, tags) := decoy_row_CA rp m (S currentIndex) (Point_Add sum com) (Point_Add tags tag) in
          Ok (pk :: row, ix :: ixs, sum, tags)
      end
  end.

(** The rows from [i] on, [k] of them, and the two commitments to zero of the row [pi]. *)
Fixpoint ring_rows_CA (rp : ring_params) (ins : list PlainCoin) (start outCount sumOutputAssetTags : list Z) (pi k i currentIndex : nat)
    : res (list (list (option (list Z))) * list (list Z) * option (list Z * list Z)) :=
  match k with
  | O => Ok ([], [], None)
  | S k =>
      let own := (i =? pi)%nat in
      let* (row, ixs, sum, tags) := if own then own_row_CA ins (rg_myIndices rp) 0 start Identity
                                    else decoy_row_CA rp (length ins) currentIndex start Identity in
      let assetSum := Point_Sub (Point_ScalarMult tags outCount) sumOutputAssetTags in
      let* (rows, ixss, zero) := ring_rows_CA rp ins start outCount sumOutputAssetTags pi k (S i)
                                   (if own then currentIndex else currentIndex + length ins)%nat in
      Ok ((row ++ [Some assetSum; Some sum]) :: rows, ixs :: ixss, if own then Some (assetSum, sum) else zero)
  end.

Definition generateMlsagRingWithIndexesCA (inputCoins : list PlainCoin) (outputCoins : list CoinV2) (fee : Z) (kv : kv_args)
    (pi ringSize : nat) : res (list (list (option (list Z))) * list (list Z) * option (list Z * list Z)) :=
  let* rp := res_wrap "parseParamsForRing error" (parseParamsForRing kv (length inputCoins) ringSize) in
  let* _ := enough (length inputCoins * (ringSize - 1)) (rg_assetTags rp) in
  let* sumOutputsWithFee := CalculateSumOutputsWithFee (map CoinOf2 outputCoins) fee in
  let* inCount := Scalar_FromUint64 (Z.of_nat (length inputCoins)) in
  let* outCount := Scalar_FromUint64 (Z.of_nat (length outputCoins)) in
  let* tags := sum_tags Identity outputCoins in
  ring_rows_CA rp inputCoins (Point_Sub Identity sumOutputsWithFee) outCount (Point_ScalarMult tags inCount) pi ringSize 0 0.

Section metadata.
Context {M : Type} `{MO : MetadataOps M} `{TC : TxCodec M}.

(** ** Signing *)

Definition signCA (R : TxRandomness) (inp : list PlainCoin) (out : list CoinV2) (outputSharedSecrets : list (option (list Z)))
    (params : TxPrivacyInitParams M) (hashedMessage : list Z) : st (TxBase M) unit := fun t =>
  match tx_Sig t with
  | Some _ => (t, Err "input transaction must be an unsigned one")
  | None =>
      (let! pi := st_lift (tr_pi R) in
       let! ring := st_lift (generateMlsagRingWithIndexesCA inp out (tp_Fee params) (tp_KvArgs params) pi RingSize) in
       let '(rows, indexes, commitmentsToZero) := ring in
       let! _ := st_field tx_SetSigPubKey (SigPubKey_Bytes indexes) in
       let! keys := st_lift (createPrivateKeyMlsagCA inp out outputSharedSecrets (tp_SenderSK params) (tp_TokenID params) commitmentsToZero) in
       let! sag := st_lift (NewMlsag keys [] pi) in
       let! sk := st_lift (ArrayScalarToBytes keys) in
       let! _ := st_put (tx_SetPrivateKey (Some sk)) in
       let! points := st_lift (ring_points rows) in
       let m := length keys in
       let sag := mkMlsag points pi (ml_keyImages sag) keys in
       let! sig := st_lift (SignConfidentialAsset (drawn_alpha R m) (drawn_r R RingSize m) hashedMessage sag) in
       st_field tx_SetSig (Sig_ToBytes (mkSig (sig_c sig) [] (sig_r sig)))) t
  end.

(** ** Proving *)

(** The output coins and their shared secrets. *)
Fixpoint new_outputs_CA (R : TxRandomness) (params : TxPrivacyInitParams M) (i : nat) (infos : list (option PaymentInfo))
    : res (list CoinV2 * list (option (list Z))) :=
  match infos with
  | [] => Ok ([], [])
  | o :: infos =>
      let* shard := GetSenderShard params in
      let* info := deref o in
      let* p := NewTransferCoinParams info [shard] in
      let* (c, ss) := createUniqueOTACoinCA (tr_mask R i) (tr_shared R i) (tr_conceal R i) p (tp_TokenID params) in
      let* (cs, sss) := new_outputs_CA R params (S i) infos in
      Ok (c :: cs, ss :: sss)
  end.

Definition burnt_count (secrets : list (option (list Z))) : nat := length (filter (fun s => s = None) secrets).

(** [proveCA]: the state is the global commitment scheme, which the range proof
    changes, and the transaction.  The result says whether a coin is burnt. *)
Definition proveCA (aggParam : bulletproofParams) (R : TxRandomness) (params : TxPrivacyInitParams M)
    : st (list (list Z) * TxBase M) bool := fun '(G, t) =>
  match new_outputs_CA R params 0 (tp_PaymentInfo params) with
  | Ok (outputCoins, sharedSecrets) =>
      let burnt := burnt_count sharedSecrets in
      if (1 <? burnt)%nat then ((G, t), Err "output must not have more than 1 burned coin")
      else
        let '(G, proof) := ProveV2 (tr_range R) aggParam (tp_InputCoins params) outputCoins sharedSecrets true (tp_PaymentInfo params) G in
        let '(t, r) := (let! _ := st_field tx_SetProof (let* p := proof in Ok (ProofOf2 p)) in
                        let! h := (fun t => (t, Tx_HashBytes t)) in
                        signCA R (tp_InputCoins params) outputCoins sharedSecrets params h) t in
        ((G, t), let* _ := r in Ok (0 <? burnt)%nat)
  | Err m => ((G, t), Err m)
  | Panic => ((G, t), Panic)
  | OutOfFuel => ((G, t), OutOfFuel)
  end.
End metadata.
End tx.

(** ** Coins of a token *)

Section token.
Context `{CL : CurveLaws} `{DL : DigestLaws} `{LL : LRULaws} `{AA : AllocatorLaws} `{HD : HDWallet} `{BL : BlockCipherLaws}.
Context (a h : list Z) (Eh : index PedG PedersenRandomnessIndex = Ok h) (Ha : pt_ok a) (Hh : pt_ok h).
(** The value generator takes part with the fee, which is zero. *)
Context (g : list Z) (Eg : index PedG PedersenValueIndex = Ok g) (Hg : pt_ok g).

(** A coin of the token [a], with the blinder [b] and the commitment of its value over
    its asset tag. *)
Record tagged (c : CoinV2) (b : Z) : Prop := mkTagged {
  tg_tag : c2_assetTag c = Some (com2 a h 1 b);
  tg_amount : c2_amount c = Some (sc (coin_value c));
  tg_mask : c2_mask c = Some (sc (coin_rand c));
  tg_com : c2_commitment c = Some (com2 a h (coin_value c) (coin_value c * b + coin_rand c)) }.

(** The effective randomness: that of the commitment over the point of the token. *)
Definition eff (c : CoinV2) (b : Z) : Z := coin_value c * b + coin_rand c.
Definition effs (cbs : list (CoinV2 * Z)) : Z := zsum (map (fun cb => eff (fst cb) (snd cb)) cbs).
Definition blinders (cbs : list (CoinV2 * Z)) : Z := zsum (map snd cbs).
Definition values_of (cbs : list (CoinV2 * Z)) : Z := zsum (map (fun cb => coin_value (fst cb)) cbs).
Definition tagged_all (cbs : list (CoinV2 * Z)) : Prop := Forall (fun cb => tagged (fst cb) (snd cb)) cbs.

Definition com_of (cb : CoinV2 * Z) : list Z := com2 a h (coin_value (fst cb)) (eff (fst cb) (snd cb)).
Definition tag_of (cb : CoinV2 * Z) : list Z := com2 a h 1 (snd cb).

Lemma zsum_cons x l : zsum (x :: l) = x + zsum l.
Proof using Type. reflexivity. Qed.

Lemma fold_com_of cbs : forall x y, fold_left AddKeys (map com_of cbs) (com2 a h x y) = com2 a h (x + values_of cbs) (y + effs cbs).
Proof using CL Ha Hh.
  induction cbs as [|cb cbs IH]; intros x y; unfold values_of, effs in *; cbn [map fold_left].
  - by rewrite !Z.add_0_r.
  - unfold com_of at 2. rewrite (com2_add a h Ha Hh), IH, !zsum_cons. by rewrite <- !Z.add_assoc.
Qed.

Lemma fold_tag_of cbs : forall x y, fold_left AddKeys (map tag_of cbs) (com2 a h x y) =
  com2 a h (x + Z.of_nat (length cbs)) (y + blinders cbs).
Proof using CL Ha Hh.
  induction cbs as [|cb cbs IH]; intros x y; unfold blinders in *; cbn [map fold_left length].
  - by rewrite !Z.add_0_r.
  - unfold tag_of at 2. rewrite (com2_add a h Ha Hh), IH, zsum_cons. f_equal; lia.
Qed.

Lemma com2_scale x y k : pmul (com2 a h x y) k = com2 a h (x * k) (y * k).
Proof using CL Ha Hh. unfold com2. module. Qed.

Lemma com2_sub x y x' y' : SubKeys (com2 a h x y) (com2 a h x' y') = com2 a h (x - x') (y - y').
Proof using CL Ha Hh. rewrite sub_pmul by (by apply com2_pt). unfold com2. module. Qed.

(** ** Blinders *)

(** The code takes the blinder of a tag that is the point of the token to be zero. *)
Lemma blinder_of s bl : ComputeAssetTagBlinder s = Ok bl -> sc_ok bl ->
  exists b, AddKeys a (pmul h (key_val bl)) = com2 a h 1 b /\ coin_blinder a (com2 a h 1 b) (Ok s) = Ok (sc b).
Proof using CL Ha Hh.
  intros E Hbl. unfold coin_blinder, IsPointEqual.
  assert (AddKeys a (pmul h (key_val bl)) = com2 a h 1 (key_val bl)) as Et by (unfold com2; by rewrite pmul_1).
  destruct (decide (com2 a h 1 (key_val bl) = a)) as [Ea|Hne].
  - exists 0. assert (com2 a h 1 0 = a) as E0 by (unfold com2; module). rewrite E0, Et, Ea. split; [done|].
    rewrite bool_decide_true by done. apply FromUint64_sc. unfold is_u64. lia.
  - exists (key_val bl). split; [exact Et|]. rewrite bool_decide_false by congruence. cbn [res_bind]. rewrite E. f_equal. by apply sc_repr.
Qed.

(** A tag that is not blinded: the coin is burnt. *)
Lemma no_blinder s : com2 a h 1 0 = a /\ coin_blinder a (com2 a h 1 0) s = Ok (sc 0).
Proof using CL Ha Hh.
  assert (com2 a h 1 0 = a) as E0 by (unfold com2; module). split; [exact E0|]. rewrite E0. unfold coin_blinder, IsPointEqual.
  rewrite bool_decide_true by done. apply FromUint64_sc. unfold is_u64. lia.
Qed.

(** ** Sums *)

(** An input of the sender with its key and its blinder. *)
Record owned_CA (sk : list Z) (cb : CoinV2 * Z) (x : list Z) : Prop := mkOwnedCA {
  oc_tagged : tagged (fst cb) (snd cb);
  oc_parse : CoinV2_ParsePrivateKeyOfCoin sk (fst cb) = Ok x;
  oc_sc : sc_ok x;
  oc_pk : c2_publicKey (fst cb) = Some (ScalarMultKey GBASE x);
  oc_image : c2_keyImage (fst cb) = Some (key_image x);
  oc_blinder : coin_blinder a (com2 a h 1 (snd cb)) (let* s := RecomputeSharedSecret sk (fst cb) in Ok (Some s)) = Ok (sc (snd cb)) }.

(** An output with its shared secret. *)
Definition output_CA (cb : CoinV2 * Z) (secret : option (list Z)) : Prop :=
  tagged (fst cb) (snd cb) /\ coin_blinder a (com2 a h 1 (snd cb)) (Ok secret) = Ok (sc (snd cb)).

Lemma effective_ok c b : tagged c b -> effective_randomness (sc b) c = Ok (sc (eff c b)).
Proof using CL.
  intros Hc. unfold effective_randomness. rewrite (tg_amount c b Hc), (tg_mask c b Hc). cbn [deref res_bind]. unfold Scalar_Add, Scalar_Mul, eff.
  rewrite ScMul_sc, ScAdd_sc. do 3 f_equal. lia.
Qed.

Lemma sum_inputs_CA_ok sk ins xs : Forall2 (owned_CA sk) ins xs -> forall keys t r,
  sum_inputs_CA a sk (map PlainV2 (map fst ins)) keys (sc t) (sc r) = Ok (keys ++ xs, sc (t + blinders ins), sc (r + effs ins)).
Proof using CL.
  induction 1 as [|cb x ins xs Hc Hi IH]; intros keys t r; cbn [map sum_inputs_CA].
  { unfold blinders, effs. cbn [map zsum foldr]. by rewrite app_nil_r, !Z.add_0_r. }
  cbn [PlainCoin_ParsePrivateKeyOfCoin]. rewrite (oc_parse _ _ _ Hc). cbn [res_bind]. rewrite (tg_tag _ _ (oc_tagged _ _ _ Hc)).
  rewrite (oc_blinder _ _ _ Hc). cbn [res_bind]. rewrite (effective_ok _ _ (oc_tagged _ _ _ Hc)). cbn [res_bind].
  unfold Scalar_Add. rewrite !ScAdd_sc, IH, <- app_assoc. unfold blinders, effs. cbn [map]. rewrite !zsum_cons, <- !Z.add_assoc. reflexivity.
Qed.

Lemma sum_outputs_CA_ok secrets outs ss : Forall2 output_CA outs ss -> forall i t r,
  (forall j s, ss !! j = Some s -> secrets !! (i + j)%nat = Some s) ->
  sum_outputs_CA a (map fst outs) secrets i (sc t) (sc r) = Ok (sc (t + blinders outs), sc (r - effs outs)).
Proof using CL.
  induction 1 as [|cb s outs ss [Hc Hb] Ho IH]; intros i t r Hs; cbn [map sum_outputs_CA].
  { unfold blinders, effs. cbn [map zsum foldr]. by rewrite Z.add_0_r, Z.sub_0_r. }
  rewrite (tg_tag _ _ Hc). rewrite (Prelude.index_ok secrets i s) by (rewrite <- (Nat.add_0_r i); by apply Hs). rewrite Hb. cbn [res_bind].
  rewrite (effective_ok _ _ Hc). cbn [res_bind]. unfold Scalar_Add, Scalar_Sub. rewrite ScAdd_sc, ScSub_sc, IH.
  - unfold blinders, effs. cbn [map]. rewrite !zsum_cons. do 2 f_equal; f_equal; lia.
  - intros j s' Hj. rewrite Nat.add_succ_comm. by apply Hs.
Qed.

(** ** The keys of the ring *)

(** The numbers behind the two commitments to zero. *)
Definition asset_zero (ins outs : list (CoinV2 * Z)) : Z :=
  blinders ins * Z.of_nat (length outs) - blinders outs * Z.of_nat (length ins).
Definition rand_zero (ins outs : list (CoinV2 * Z)) : Z := effs ins - effs outs.

Lemma private_keys_CA token sk ins xs outs secrets : HashToPoint token = Some a -> Forall2 (owned_CA sk) ins xs -> Forall2 output_CA outs secrets ->
  (length ins < 256)%nat -> (length outs < 256)%nat ->
  createPrivateKeyMlsagCA (map PlainV2 (map fst ins)) (map fst outs) secrets (Some sk) (Some token)
    (Some (pmul h (asset_zero ins outs), pmul h (rand_zero ins outs))) =
  Ok (xs ++ [sc (asset_zero ins outs); sc (rand_zero ins outs)]).
Proof using CL Eh.
  intros Et Hin Hout Li Lo. unfold createPrivateKeyMlsagCA. change (default PRVCoinID (Some token)) with token. rewrite Et, !length_map. cbn [deref res_bind].
  rewrite !FromUint64_sc by (unfold is_u64; lia). cbn [res_bind]. rewrite (sum_inputs_CA_ok sk ins xs Hin). cbn [res_bind app].
  rewrite (sum_outputs_CA_ok secrets outs secrets Hout) by done. cbn [res_bind]. rewrite Eh. cbn [res_bind].
  unfold Scalar_Mul, Scalar_Sub. rewrite !ScMul_sc, ScSub_sc, !Z.add_0_l. fold (asset_zero ins outs) (rand_zero ins outs).
  unfold IsPointEqual, Point_ScalarMult, pmul. by rewrite !bool_decide_true.
Qed.

(** ** The ring *)

Lemma own_row_CA_ok my sk ins xs : Forall2 (owned_CA sk) ins xs -> forall j sum tags, (j + length ins <= length my)%nat ->
  own_row_CA (map PlainV2 (map fst ins)) my j sum tags =
    Ok (map Some (map (ScalarMultKey GBASE) xs), take (length ins) (drop j my),
        fold_left AddKeys (map com_of ins) sum, fold_left AddKeys (map tag_of ins) tags).
Proof using Type.
  induction 1 as [|cb x ins xs Hc Hi IH]; intros j sum tags Hj; [reflexivity|]. cbn [map length] in *.
  destruct (lookup_lt_is_Some_2 my j) as [ix Ex]; [lia|]. cbn [own_row_CA PlainCoin_GetCommitment].
  rewrite (Prelude.index_ok my j ix Ex), (tg_com _ _ (oc_tagged _ _ _ Hc)). cbn [res_bind deref].
  rewrite (tg_tag _ _ (oc_tagged _ _ _ Hc)), IH by lia. cbn [res_bind fold_left]. rewrite (oc_pk _ _ _ Hc), (take_drop_S my j ix) by done. reflexivity.
Qed.

Lemma decoy_row_CA_ok rp cs pks ts m : rg_commitments rp = map Some cs -> rg_publicKeys rp = map Some pks -> rg_assetTags rp = map Some ts ->
  forall cur sum tags, (cur + m <= length (rg_cmtIndices rp))%nat -> (cur + m <= length cs)%nat -> (cur + m <= length pks)%nat ->
  (cur + m <= length ts)%nat ->
  decoy_row_CA rp m cur sum tags =
    Ok (map Some (take m (drop cur pks)), take m (drop cur (rg_cmtIndices rp)),
        fold_left AddKeys (take m (drop cur cs)) sum, fold_left AddKeys (take m (drop cur ts)) tags).
Proof using Type.
  intros Ec Ep Et. induction m as [|m IH]; intros cur sum tags L1 L2 L3 L4; [by rewrite !take_0|].
  destruct (lookup_lt_is_Some_2 (rg_cmtIndices rp) cur) as [x Ex]; [lia|]. destruct (lookup_lt_is_Some_2 cs cur) as [c Ecs]; [lia|].
  destruct (lookup_lt_is_Some_2 pks cur) as [p Epk]; [lia|]. destruct (lookup_lt_is_Some_2 ts cur) as [t Ets]; [lia|].
  cbn [decoy_row_CA]. rewrite (Prelude.index_ok _ _ _ Ex), Ec, Ep, Et.
  rewrite (Prelude.index_ok (map Some pks) cur (Some p)), (Prelude.index_ok (map Some cs) cur (Some c)), (Prelude.index_ok (map Some ts) cur (Some t))
    by (rewrite list_lookup_fmap; by (rewrite Ecs || rewrite Epk || rewrite Ets)).
  cbn [res_bind deref]. rewrite IH by lia. cbn [res_bind].
  by rewrite (take_drop_S _ _ x), (take_drop_S pks cur p), (take_drop_S cs cur c), (take_drop_S ts cur t).
Qed.

(** The parameters of the ring, with the asset tags of the decoys. *)
Definition ring_kv_CA (n : nat) (kv : kv_args) (my : list Z) (rp : ring_params) (cs pks ts : list (list Z)) : Prop :=
  ring_kv n kv my rp cs pks /\ rg_assetTags rp = map Some ts /\ (n * 7 <= length ts)%nat /\ Forall pt_ok ts.

(** The rows: all of the right shape, that of the sender in its place. *)
Definition rows_ok_CA (n pi i k : nat) (own : list (list Z)) (zt zc : list Z) (my : list Z)
    (res : list (list (option (list Z))) * list (list Z) * option (list Z * list Z)) (R : Ring) (ixs : list (list Z)) : Prop :=
  (exists z, res = (map (map Some) R, ixs, z) /\ ((i <= pi < i + k)%nat -> z = Some (zt, zc))) /\
  length R = k /\ length ixs = k /\
  Forall (fun row => length row = S (S n) /\ Forall pt_ok row) R /\ Forall (fun row => length row = n /\ Forall index_fits row) ixs /\
  ((i <= pi < i + k)%nat -> R !! (pi - i)%nat = Some (own ++ [zt; zc]) /\ ixs !! (pi - i)%nat = Some my).

Lemma rows_nil n pi i own zt zc my : rows_ok_CA n pi i 0 own zt zc my ([], [], None) [] [].
Proof using Type.
  split; [exists None; split; [done|intros; lia]|]. split; [done|]. split; [done|]. split; [constructor|]. split; [constructor|]. intros; lia.
Qed.

(** A row is put in front of the others. *)
Lemma rows_cons n pi i k own zt zc my row ix t s rows ixss z R ixs : length row = n -> Forall pt_ok row -> pt_ok t -> pt_ok s ->
  length ix = n -> Forall index_fits ix -> (i = pi -> row = own /\ t = zt /\ s = zc /\ ix = my) ->
  rows_ok_CA n pi (S i) k own zt zc my (rows, ixss, z) R ixs ->
  rows_ok_CA n pi i (S k) own zt zc my
    ((map Some row ++ [Some t; Some s]) :: rows, ix :: ixss, if (i =? pi)%nat then Some (t, s) else z) ((row ++ [t; s]) :: R) (ix :: ixs).
Proof using Type.
  intros Lr Hr Ht Hs Lx Hx Hown ((z' & E & Hz) & HR & Hi & HRf & Hif & Hat). apply pair_equal_spec in E as [E ->].
  apply pair_equal_spec in E as [-> ->]. split; [|split; [|split; [|split; [|split]]]].
  - eexists. split; [cbn [map]; by rewrite map_app|]. intros Hpi. destruct (Nat.eqb_spec i pi) as [E|Hne].
    + destruct (Hown E) as (_ & -> & -> & _). reflexivity.
    + apply Hz. lia.
  - cbn. by f_equal.
  - cbn. by f_equal.
  - constructor; [|done]. split; [rewrite length_app, Lr; cbn; lia|]. apply Forall_app. split; [done|by repeat constructor].
  - by constructor.
  - intros Hpi. destruct (Nat.eq_dec i pi) as [E|Hne].
    + destruct (Hown E) as (-> & -> & -> & ->). subst i. by rewrite Nat.sub_diag.
    + replace (pi - i)%nat with (S (pi - S i)) by lia. cbn. apply Hat. lia.
Qed.

(** How many decoy rows are left, and that a decoy row can still be taken. *)
Definition decoys_left (pi i k : nat) : nat := if (i <=? pi)%nat && (pi <? i + k)%nat then k - 1 else k.

Lemma decoys_own pi k : decoys_left pi (S pi) k = k /\ decoys_left pi pi (S k) = k.
Proof using Type.
  unfold decoys_left. rewrite (proj2 (Nat.leb_gt (S pi) pi)), (proj2 (Nat.leb_le pi pi)), (proj2 (Nat.ltb_lt pi (pi + S k))) by lia.
  cbn [andb]. split; [done|lia].
Qed.

Lemma decoys_other pi i k : i <> pi -> decoys_left pi i (S k) = S (decoys_left pi (S i) k).
Proof using Type.
  intros Hne. unfold decoys_left. destruct (Nat.leb_spec i pi), (Nat.leb_spec (S i) pi), (Nat.ltb_spec pi (i + S k)), (Nat.ltb_spec pi (S i + k));
    cbn [andb]; lia.
Qed.

Lemma ring_rows_CA_ok n kv my rp cs pks ts sk ins xs start outCount sumOut pi zt zc : ring_kv_CA n kv my rp cs pks ts -> n = length ins ->
  Forall2 (owned_CA sk) ins xs -> pt_ok start -> sc_ok outCount -> pt_ok sumOut ->
  SubKeys (ScalarMultKey (fold_left AddKeys (map tag_of ins) Identity) outCount) sumOut = zt ->
  fold_left AddKeys (map com_of ins) start = zc ->
  forall k i cur, (cur + n * decoys_left pi i k <= n * 7)%nat ->
  exists r R ixs, ring_rows_CA rp (map PlainV2 (map fst ins)) start outCount sumOut pi k i cur = Ok r /\
    rows_ok_CA n pi i k (map (ScalarMultKey GBASE) xs) zt zc my r R ixs.
Proof using CL Ha Hh.
  intros (Hkv & Et & Lt & Pt) -> Hown Pstart Hsc Pout Ezt Ezc. destruct (rk_len _ _ _ _ _ _ Hkv) as (L1 & L2 & L3 & L4).
  destruct (rk_pts _ _ _ _ _ _ Hkv) as [P1 P2]. destruct (rk_fits _ _ _ _ _ _ Hkv) as [F1 F2].
  assert (rg_commitments rp = map Some cs /\ rg_publicKeys rp = map Some pks /\ rg_myIndices rp = my) as (Ec & Ep & Em)
    by by rewrite (rk_rp _ _ _ _ _ _ Hkv).
  pose proof (Forall2_length _ _ _ Hown) as Lo.
  assert (forall l, Forall pt_ok l -> pt_ok (SubKeys (ScalarMultKey (fold_left AddKeys l Identity) outCount) sumOut)) as Psub.
  { intros l Hl. apply sub_pt; [|done]. apply pt_mult; [|done]. by apply fold_add_pt, pt_identity. }
  assert (Forall pt_ok (map tag_of ins) /\ Forall pt_ok (map com_of ins)) as [Ptag Pcom].
  { split; apply Forall_map, Forall_true; intros cb; unfold tag_of, com_of; by apply com2_pt. }
  induction k as [|k IH]; intros i cur Hcur; [eexists _, [], []; split; [reflexivity|apply rows_nil]|].
  cbn [ring_rows_CA]. destruct (Nat.eqb_spec i pi) as [->|Hne].
  - rewrite Em, (own_row_CA_ok my sk ins xs Hown) by lia. cbn [res_bind]. rewrite drop_0, take_ge by lia.
    destruct (decoys_own pi k) as [D1 D2]. rewrite D2 in Hcur. destruct (IH (S pi) cur ltac:(by rewrite D1)) as ([[rows ixss] z] & R & ixs & Er & Hrows).
    rewrite Er. cbn [res_bind]. unfold Point_Sub, Point_ScalarMult. rewrite Ezt, Ezc. eexists _, _, _. split; [reflexivity|].
    pose proof (rows_cons (length ins) pi pi k (map (ScalarMultKey GBASE) xs) zt zc my (map (ScalarMultKey GBASE) xs) my zt zc rows ixss z R ixs) as Hcons. rewrite Nat.eqb_refl in Hcons. apply Hcons.
    + by rewrite length_map.
    + apply Forall_map. clear -Hown CL. induction Hown as [|cb x ins xs Hc Hi IH]; constructor; [|exact IH]. apply pt_mult; [apply pt_base|apply Hc].
    + rewrite <- Ezt. by apply Psub.
    + rewrite <- Ezc. by apply fold_add_pt.
    + done.
    + done.
    + done.
    + exact Hrows.
  - rewrite (decoys_other pi i k Hne) in Hcur. rewrite !length_map. rewrite (decoy_row_CA_ok rp cs pks ts (length ins) Ec Ep Et) by lia. cbn [res_bind].
    destruct (IH (S i) (cur + length ins)%nat ltac:(lia)) as ([[rows ixss] z] & R & ixs & Er & Hrows). rewrite Er. cbn [res_bind].
    eexists _, _, _. split; [reflexivity|].
    pose proof (rows_cons (length ins) pi i k (map (ScalarMultKey GBASE) xs) zt zc my (take (length ins) (drop cur pks)) (take (length ins) (drop cur (rg_cmtIndices rp)))) as Hcons.
    rewrite (proj2 (Nat.eqb_neq i pi) Hne) in Hcons. unfold Point_Sub, Point_ScalarMult. apply Hcons.
    + rewrite length_take, length_drop. lia.
    + by apply Forall_segment.
    + by apply Psub, Forall_segment.
    + apply fold_add_pt; [by apply Forall_segment|done].
    + rewrite length_take, length_drop. lia.
    + by apply Forall_segment.
    + done.
    + exact Hrows.
Qed.

Lemma com2_zero_CA : com2 a h 0 0 = Identity.
Proof using CL Ha Hh. exact (com2_zero a h Ha Hh). Qed.

Lemma sum_commitments_CA outs secrets : Forall2 output_CA outs secrets -> forall s,
  sum_commitments s (map CoinOf2 (map fst outs)) = Ok (fold_left AddKeys (map com_of outs) s).
Proof using Type.
  induction 1 as [|cb ss outs secrets [Hc _] Ho IH]; intros s; cbn [map sum_commitments fold_left Coin_GetCommitment]; [done|].
  rewrite (tg_com _ _ Hc). cbn [deref res_bind]. by rewrite IH.
Qed.

Lemma sum_with_no_fee outs secrets : Forall2 output_CA outs secrets ->
  CalculateSumOutputsWithFee (map CoinOf2 (map fst outs)) 0 = Ok (com2 a h (values_of outs) (effs outs)).
Proof using CL Ha Hh Eg Hg.
  intros Ho. unfold CalculateSumOutputsWithFee. rewrite (sum_commitments_CA outs secrets Ho), <- com2_zero_CA, fold_com_of, !Z.add_0_l.
  cbn [res_bind]. rewrite Eg. cbn [res_bind]. rewrite FromUint64_sc by (unfold is_u64; lia). cbn [res_bind]. f_equal.
  unfold Point_Add, Point_ScalarMult. change (ScalarMultKey g (sc 0)) with (pmul g 0). rewrite pmul_0 by done.
  apply add_identity. by apply com2_pt.
Qed.

Lemma sum_tags_ok outs secrets : Forall2 output_CA outs secrets -> forall s, sum_tags s (map fst outs) = Ok (fold_left AddKeys (map tag_of outs) s).
Proof using Type.
  induction 1 as [|cb ss outs secrets [Hc _] Ho IH]; intros s; cbn [map sum_tags fold_left]; [done|]. rewrite (tg_tag _ _ Hc). apply IH.
Qed.

(** The ring of a token transfer: the row [pi] ends with multiples of the random base. *)
Lemma generated_ring_CA kv my rp cs pks ts sk ins xs outs secrets pi : ring_kv_CA (length ins) kv my rp cs pks ts ->
  Forall2 (owned_CA sk) ins xs -> Forall2 output_CA outs secrets -> values_of ins = values_of outs ->
  (1 <= length ins <= 255)%nat -> (length outs < 256)%nat -> (pi < RingSize)%nat ->
  let zt := pmul h (asset_zero ins outs) in let zc := pmul h (rand_zero ins outs) in
  exists R ixs,
    generateMlsagRingWithIndexesCA (map PlainV2 (map fst ins)) (map fst outs) 0 kv pi RingSize = Ok (map (map Some) R, ixs, Some (zt, zc)) /\
    length R = RingSize /\ Forall (fun row => length row = S (S (length ins)) /\ Forall pt_ok row) R /\ indexes_ok (length ins) ixs /\
    R !! pi = Some (map (ScalarMultKey GBASE) xs ++ [zt; zc]) /\ ixs !! pi = Some my.
Proof using CL Ha Hh Eg Hg.
  intros Hkv Hin Hout Hval Hn Hm Hpi zt zc. pose proof Hkv as (Hk & Et & Lt & _). unfold generateMlsagRingWithIndexesCA.
  rewrite !length_map, (parse_ring_kv _ _ _ _ _ _ Hk). cbn [res_wrap res_bind]. unfold enough. rewrite Et, length_map.
  rewrite (proj2 (Nat.ltb_ge (length ts) _)) by (unfold RingSize; lia). cbn [res_bind]. rewrite (sum_with_no_fee outs secrets Hout). cbn [res_bind].
  rewrite !FromUint64_sc by (unfold is_u64; lia). cbn [res_bind]. rewrite (sum_tags_ok outs secrets Hout). cbn [res_bind].
  rewrite (start_ok a h Ha Hh), <- com2_zero_CA, fold_tag_of, !Z.add_0_l. unfold Point_ScalarMult.
  change (ScalarMultKey ?p (sc ?k)) with (pmul p k). rewrite com2_scale.
  destruct (ring_rows_CA_ok (length ins) kv my rp cs pks ts sk ins xs (com2 a h (- values_of outs) (- effs outs)) (sc (Z.of_nat (length outs)))
    (com2 a h (Z.of_nat (length outs) * Z.of_nat (length ins)) (blinders outs * Z.of_nat (length ins))) pi zt zc Hkv eq_refl Hin) with (k := RingSize) (i := 0%nat) (cur := 0%nat)
    as ([[rows ixss] z] & R & ixs & Er & (z' & E & Hz) & HR & Hix & HRf & Hif & Hat).
  - by apply com2_pt.
  - apply sc_ok_sc.
  - by apply com2_pt.
  - rewrite <- com2_zero_CA, fold_tag_of, !Z.add_0_l. change (ScalarMultKey ?p (sc ?k)) with (pmul p k). rewrite com2_scale, com2_sub.
    unfold zt, asset_zero. replace (Z.of_nat (length ins) * _ - _) with 0 by lia. by apply com2_rand.
  - rewrite fold_com_of. unfold zc, rand_zero. replace (- values_of outs + values_of ins) with 0 by lia. rewrite (com2_rand a h Ha Hh). f_equal. lia.
  - unfold decoys_left. rewrite (proj2 (Nat.leb_le 0 pi)), (proj2 (Nat.ltb_lt pi (0 + RingSize))) by lia. cbn [andb]. unfold RingSize. lia.
  - apply pair_equal_spec in E as [E ->]. apply pair_equal_spec in E as [-> ->]. rewrite (Hz ltac:(lia)) in Er.
    destruct (Hat ltac:(lia)) as [Hrow Hmy]. rewrite Nat.sub_0_r in *. exists R, ixs. split; [exact Er|]. repeat (split; [assumption|]).
    split; [|by split]. split; [intros ->; discriminate|]. unfold MaxSizeByte. rewrite Hix. unfold RingSize. split; [lia|]. split; [lia|exact Hif].
Qed.

(** ** The signature *)

Lemma NextCCA_images msg r c K k1 k2 : length k1 = length k2 -> take (length K - 2) k1 = take (length K - 2) k2 ->
  calculateNextCCA msg r c K k1 = calculateNextCCA msg r c K k2.
Proof using Type. intros L E. unfold calculateNextCCA. by rewrite L, E. Qed.

Lemma verifies_images_CA n R c r k1 k2 message : Forall (fun row => length row = S (S n) /\ Forall pt_ok row) R ->
  length k1 = length k2 -> take n k1 = take n k2 ->
  ring_verifies_CA R (mkSig c k1 r) message -> ring_verifies_CA R (mkSig c k2 r) message.
Proof using Type.
  intros HR L E. unfold ring_verifies_CA. cbn [sig_c sig_keyImages sig_r]. intros <-. apply chain_ext. clear -HR L E.
  revert r. induction HR as [|row R [Hl _] HR IH]; intros [|r0 r]; cbn [zip zip_with]; constructor; [|apply IH].
  intros c0. cbn [fst snd]. symmetry. apply NextCCA_images; [done|]. rewrite Hl. cbn [Nat.sub]. by rewrite Nat.sub_0_r.
Qed.

Lemma own_ring_row_CA xs x y : map (ScalarMultKey GBASE) xs ++ [pmul h x; pmul h y] = ring_keys 2 h (xs ++ [sc x; sc y]).
Proof using Type.
  unfold ring_keys. rewrite length_app. cbn [length]. rewrite Nat.add_sub, take_app_length, drop_app_length. reflexivity.
Qed.

(** The last two columns of the sender's row: the difference of the asset tags of
    inputs and outputs, each side as often as the other has coins, and that of the
    commitments, both of them multiples of the random base alone. *)
Definition zero_columns (ins outs : list (CoinV2 * Z)) (zt zc : list Z) : Prop :=
  exists tins touts cins couts,
    Forall2 (fun cb t => c2_assetTag (fst cb) = Some t) ins tins /\ Forall2 (fun cb t => c2_assetTag (fst cb) = Some t) outs touts /\
    Forall2 (fun cb p => c2_commitment (fst cb) = Some p) ins cins /\ Forall2 (fun cb p => c2_commitment (fst cb) = Some p) outs couts /\
    zt = SubKeys (pmul (fold_left AddKeys tins Identity) (Z.of_nat (length outs))) (pmul (fold_left AddKeys touts Identity) (Z.of_nat (length ins))) /\
    zc = SubKeys (fold_left AddKeys cins Identity) (fold_left AddKeys couts Identity) /\
    zt = pmul h (asset_zero ins outs) /\ zc = pmul h (rand_zero ins outs).

Lemma tagged_points cbs : Forall (fun cb => tagged (fst cb) (snd cb)) cbs ->
  Forall2 (fun cb t => c2_assetTag (fst cb) = Some t) cbs (map tag_of cbs) /\
  Forall2 (fun cb p => c2_commitment (fst cb) = Some p) cbs (map com_of cbs).
Proof using Type.
  induction 1 as [|cb cbs Hc Hcbs [IH1 IH2]]; split; constructor; try assumption; [exact (tg_tag _ _ Hc)|exact (tg_com _ _ Hc)].
Qed.

Lemma columns_vanish ins outs : Forall (fun cb => tagged (fst cb) (snd cb)) ins -> Forall (fun cb => tagged (fst cb) (snd cb)) outs ->
  values_of ins = values_of outs -> zero_columns ins outs (pmul h (asset_zero ins outs)) (pmul h (rand_zero ins outs)).
Proof using CL Ha Hh.
  intros Hin Hout Hval. destruct (tagged_points ins Hin) as [T1 C1]. destruct (tagged_points outs Hout) as [T2 C2].
  exists (map tag_of ins), (map tag_of outs), (map com_of ins), (map com_of outs). repeat (split; [assumption|]).
  rewrite <- com2_zero_CA, !fold_tag_of, !fold_com_of, !Z.add_0_l, !com2_scale, !com2_sub, Hval, Z.sub_diag.
  rewrite (Z.mul_comm (Z.of_nat (length ins))), Z.sub_diag, !(com2_rand a h Ha Hh). repeat (split; [reflexivity|]). reflexivity.
Qed.

Section sign.
Context {M : Type} `{MO : MetadataOps M} `{TC : TxCodec M}.

(** A token transfer that is signed for the inputs [ins]: as for PRV, with two columns
    that have no key images. *)
Definition signed_CA (ins outs : list (CoinV2 * Z)) (my : list Z) (pi : nat) (message : list Z) (t : TxBase M) : Prop :=
  exists ring ixs pk sig c r own zt zc,
    tx_SigPubKey t = Some pk /\ SigPubKey_SetBytes pk = Ok ixs /\ ixs !! pi = Some my /\
    tx_Sig t = Some sig /\ Sig_FromBytes sig = Ok (mkSig (Some c) [] r) /\
    length ring = RingSize /\ ring !! pi = Some (own ++ [zt; zc]) /\ Forall2 (fun cb pk => c2_publicKey (fst cb) = Some pk) ins own /\
    zero_columns ins outs zt zc /\
    exists images, Forall2 (fun cb ki => c2_keyImage (fst cb) = Some ki) ins images /\
      forall any1 any2, ring_verifies_CA ring (mkSig (Some c) (images ++ [any1; any2]) r) message.

Lemma signCA_ok R token sk my rp cs pks ts ins xs outs secrets pi message params t :
  (forall i, sc_ok (tr_alpha R i)) -> (forall i j, sc_ok (tr_r R i j)) -> HashToPoint token = Some a ->
  ring_kv_CA (length ins) (tp_KvArgs params) my rp cs pks ts -> Forall2 (owned_CA sk) ins xs -> Forall2 output_CA outs secrets ->
  values_of ins = values_of outs -> (1 <= length ins < 254)%nat -> (length outs < 256)%nat -> tr_pi R = Ok pi -> (pi < RingSize)%nat ->
  tp_Fee params = 0 -> tp_SenderSK params = Some sk -> tp_TokenID params = Some token ->
  tx_Sig t = None -> length message = 32%nat -> bytes_ok message ->
  exists pk ks sig, let t' := tx_SetSig (Some sig) (tx_SetPrivateKey (Some ks) (tx_SetSigPubKey (Some pk) t)) in
    signCA R (map PlainV2 (map fst ins)) (map fst outs) secrets params message t = (t', Ok tt) /\ signed_CA ins outs my pi message t'.
Proof using All.
  intros HRa HRr Et Hkv Hin Hout Hval Hn Hm Epi Hpi Efee Esk Etok Es Lm Hmb. pose proof (Forall2_length _ _ _ Hin) as Lx.
  destruct (generated_ring_CA _ my rp cs pks ts sk ins xs outs secrets pi Hkv Hin Hout Hval ltac:(lia) Hm Hpi)
    as (ring & ixs & Egen & Lring & HR & Hix & Hrow & Hmy).
  destruct (SigPubKey_run _ ixs Hix) as (pk & Epk & Eback).
  pose proof (private_keys_CA token sk ins xs outs secrets Et Hin Hout ltac:(lia) Hm) as Ekeys. rewrite own_ring_row_CA in Hrow.
  set (keys := xs ++ [sc (asset_zero ins outs); sc (rand_zero ins outs)]) in *.
  assert (length keys = S (S (length ins))) as Lk by (unfold keys; rewrite length_app; cbn; lia).
  assert (Forall sc_ok keys) as Hkeys.
  { apply Forall_app. split; [|apply Forall_cons; split; [apply sc_ok_sc|apply Forall_singleton, sc_ok_sc]]. clear -Hin. induction Hin as [|cb x ins xs Hc Hi IH]; constructor; [apply Hc|exact IH]. }
  destruct (drawn_ok R RingSize (length keys) HRa HRr) as (La & Hal & Lr & Hr).
  assert (ring_input (length keys) pi ring keys (drawn_alpha R (length keys)) (drawn_r R RingSize (length keys))) as Hri.
  { rewrite <- Lk in HR. split; [done|]. split; [exact La|]. split; [exact Hkeys|]. split; [exact Hal|]. split; [by rewrite Lr|]. by split. }
  destruct (sign_verifies_CA (length keys) pi h ring keys _ _ message Hri Eh Hrow Hmb Lm) as (ml & Eml & _ & Hsig).
  destruct (Hsig ltac:(lia)) as (sig & Esig & Hok & Lsr & Eki & Hver).
  destruct (NewMlsag_ok keys ring pi Hkeys) as (kis & Eml' & Ekis & Lki & _ & Hkis).
  rewrite Eml' in Eml. injection Eml as <-. rewrite Ekis in Eki. injection Eki as Eki.
  destruct sig as [[c|] ki r]; [|by destruct Hok as [[] _]]. cbn [sig_keyImages sig_r] in *. subst ki.
  destruct (Sig_roundtrip (length keys) (mkSig (Some c) [] r)) as (b & Eb & Ebb).
  { destruct Hok as (H1' & _ & H3'). split; [exact H1'|]. split; [constructor|exact H3']. }
  1-3: cbn [sig_r sig_keyImages length]; unfold RingSize in *; lia.
  exists pk, (u8 (Z.of_nat (length keys)) :: concat keys), b. cbv zeta. split.
  - unfold signCA. rewrite Es. unfold st_lift, st_field, st_put, st_bind. rewrite Epi, Efee, Egen, Epk, Esk, Etok, Ekeys.
    rewrite ArrayScalarToBytes_ok by lia. unfold NewMlsag. rewrite Ekis. cbn [res_bind]. rewrite ring_points_ok.
    cbn [ml_keyImages]. rewrite Esig. cbn [sig_c sig_r]. by rewrite Eb.
  - exists ring, ixs, pk, b, c, r, (map (ScalarMultKey GBASE) xs), (pmul h (asset_zero ins outs)), (pmul h (rand_zero ins outs)).
    split; [done|]. split; [exact Eback|]. split; [exact Hmy|]. split; [done|]. split; [exact Ebb|]. split; [exact Lring|].
    split; [by rewrite Hrow, own_ring_row_CA|]. split.
    { clear -Hin. induction Hin as [|cb x ins xs Hc Hi IH]; constructor; [apply Hc|exact IH]. }
    split.
    { apply columns_vanish; [|eapply Forall2_Forall_l; [exact Hout|]; apply Forall_true; intros ss cb Hc; apply Hc|exact Hval].
      eapply Forall2_Forall_l; [exact Hin|]. apply Forall_true. intros x cb Hc. apply Hc. }
    exists (map key_image xs). split.
    { clear -Hin. induction Hin as [|cb x ins xs Hc Hi IH]; constructor; [apply Hc|exact IH]. }
    intros any1 any2. apply (verifies_images_CA (length ins) ring (Some c) r kis); [exact HR|rewrite length_app, length_map; cbn; lia| |exact Hver].
    rewrite Lx, Hkis by lia. unfold keys. by rewrite take_app_length, take_app_le, take_ge by (rewrite length_map; lia).
Qed.
End sign.

(** ** The output coins *)

Lemma asset_hash s : bytes_ok s -> exists bl, ComputeAssetTagBlinder (Some s) = Ok bl /\ sc_ok bl.
Proof using CL DL.
  intros Hs. destruct (HashToScalar_ok (s ++ AssetTagString)) as (bl & E & _ & Hbl).
  { apply Forall_app. split; [exact Hs|]. apply (bool_decide_unpack _). vm_compute. exact I. }
  exists bl. unfold ComputeAssetTagBlinder. by rewrite E.
Qed.

(** A fresh coin of a token: its fields. *)
Definition fresh_CA (msg pk rc rs t m tag : list Z) (v : Z) : CoinV2 :=
  c2_SetCommitment (Some (Point_Add (Point_ScalarMult tag (key_of v)) (Point_ScalarMult h m)))
    (c2_SetAssetTag (Some tag) (fresh_coin msg pk Identity rc rs t m v)).

Lemma fresh_opens msg pk rc rs t m v b : is_u64 v -> sc_ok m -> sc_ok rc -> sc_ok rs -> pt_ok pk -> txRandom_ok t ->
  bytes_ok msg -> (length msg <= 255)%nat ->
  let c := fresh_CA msg pk rc rs t m (com2 a h 1 b) v in
  opens c /\ tagged c b /\ coin_value c = v /\ coin_rand c = key_val m.
Proof using CL DL Eh Ha Hh.
  intros Hv Hm Hc Hs Hpk Ht Hb Hl c. assert (0 <= v < order) as Ho.
  { unfold is_u64 in Hv. assert (2 ^ 64 < order) by by vm_compute. lia. }
  assert (coin_value c = v /\ coin_rand c = key_val m) as [Ev Er].
  { split; [|reflexivity]. unfold coin_value. cbn [c fresh_CA fresh_coin c2_SetCommitment c2_SetAssetTag c2_amount].
    rewrite sc_small, sc_u64 by done. reflexivity. }
  assert (pt_ok (com2 a h 1 b)) as Htag by by apply com2_pt.
  assert (Point_Add (Point_ScalarMult (com2 a h 1 b) (key_of v)) (Point_ScalarMult h m) = com2 a h v (v * b + key_val m)) as Ecom.
  { unfold Point_Add, Point_ScalarMult. rewrite (sc_small v Ho), (sc_repr m Hm) at 1. change (ScalarMultKey ?p (sc ?z)) with (pmul p z).
    unfold com2. module. }
  split; [|split; [|by split]]; constructor; rewrite ?Ev, ?Er; try reflexivity.
  - split; [|split; [exact Hl|split; reflexivity]]. split; [exact Hb|]. unfold opt_point, opt_scalar.
    cbn [c fresh_CA fresh_coin c2_SetCommitment c2_SetAssetTag c2_publicKey c2_commitment c2_keyImage c2_sharedConcealRandom c2_sharedRandom
      c2_txRandom c2_mask c2_amount c2_assetTag].
    split; [by apply pt_key|]. split; [rewrite Ecom; apply pt_key; by apply com2_pt|]. split; [apply pt_key, pt_identity|].
    split; [apply Hc|]. split; [apply Hs|]. split; [by exists t|]. split; [apply Hm|]. split; [|by apply pt_key].
    rewrite sc_small by done. apply sc_ok_sc.
  - exact Hv.
  - cbn [c fresh_CA fresh_coin c2_SetCommitment c2_SetAssetTag c2_amount]. f_equal. by apply sc_small.
  - cbn [c fresh_CA fresh_coin c2_SetCommitment c2_SetAssetTag c2_mask]. f_equal. by apply sc_repr.
  - eexists. split; [reflexivity|]. unfold commitment_of. cbn [c fresh_CA fresh_coin c2_SetCommitment c2_SetAssetTag c2_assetTag].
    unfold ComputeCommitmentCA. rewrite Eh. cbn [res_bind res_wrap]. by rewrite (sc_small v Ho), <- (sc_repr m Hm).
  - cbn [c fresh_CA fresh_coin c2_SetCommitment c2_SetAssetTag c2_amount]. f_equal. by apply sc_small.
  - cbn [c fresh_CA fresh_coin c2_SetCommitment c2_SetAssetTag c2_mask]. f_equal. by apply sc_repr.
  - cbn [c fresh_CA c2_SetCommitment c2_commitment]. by rewrite Ecom.
Qed.

(** The owner of the address computes the key of the coin and the shared secret. *)
Definition payee_secret (info : PaymentInfo) (c : CoinV2) (secret : option (list Z)) : Prop := forall sk ks, sc_ok sk ->
  KeySet_InitFromPrivateKey (Some sk) = Ok ks -> pi_PaymentAddress info = ks_PaymentAddress ks ->
  IsPublicKeyBurningAddress (pa_Pk (pi_PaymentAddress info)) = Ok false ->
  exists s, secret = Some s /\ RecomputeSharedSecret sk c = Ok s.

(** The output coin of a payment with its blinder and its shared secret. *)
Definition output_for_CA (info : PaymentInfo) (cb : CoinV2 * Z) (secret : option (list Z)) : Prop :=
  to_send (fst cb) (Some info) /\ output_CA cb secret /\ coin_value (fst cb) = pi_Amount info /\ c2_info (fst cb) = pi_Message info /\
  (exists bl, asset_blinder secret = Ok bl /\ sc_ok bl /\ c2_assetTag (fst cb) = Some (Point_Add a (Point_ScalarMult h bl))) /\
  payee_key info (fst cb) /\ payee_secret info (fst cb) secret /\
  (secret = None <-> IsPublicKeyBurningAddress (pa_Pk (pi_PaymentAddress info)) = Ok true).

(** No index up to [MaxTriesOTA] gives a key for the payment. *)
Definition no_address (sender : Z) (shared : list Z) (info : PaymentInfo) : Prop :=
  still_searching (Z.to_nat MaxTriesOTA) sender shared info.

Lemma secret_recomputed sk ks c s t i conceal : sc_ok sk -> sc_ok s -> KeySet_InitFromPrivateKey (Some sk) = Ok ks ->
  c2_txRandom c = Some t -> t = make_TxRandom conceal (ScalarMultKey GBASE s) i -> key_ok conceal -> ge_frombytes conceal = true -> is_u32 i ->
  RecomputeSharedSecret sk c = Ok (ScalarMultKey (pa_OTAPublic (ks_PaymentAddress ks)) s).
Proof using CL DL.
  intros Hsk Hs Eks Ec -> Hk Hv Hi. pose proof (proj1 (proj1 Hsk)) as Hlsk. unfold Ed25519KeySize in Hlsk.
  destruct (keyset_of_ok sk (proj2 (proj1 Hsk))) as (Hvk & Hota & E). unfold KeySet_InitFromPrivateKey, PrivateKeySize in Eks.
  rewrite Hlsk in Eks. cbn [Nat.eqb negb] in Eks. rewrite E in Eks. injection Eks as <-. cbn [ks_PaymentAddress pa_OTAPublic].
  destruct (pt_key (ScalarMultKey GBASE s)) as [K V]; [apply pt_mult; [apply pt_base|done]|].
  destruct (make_TxRandom_ok conceal _ i Hk Hv K V) as (_ & _ & Eo & _).
  unfold RecomputeSharedSecret, GeneratePrivateOTAKey. destruct (hash_scalar_bytes_ok (sk ++ CStringOTA)) as [-> _].
  { apply Forall_app. split; [apply Hsk|apply CStringOTA_ok]. }
  cbn [res_bind]. rewrite Ec. cbn [deref res_bind]. rewrite Eo. cbn [res_wrap res_bind].
  rewrite (FromBytesS_exact _ (proj1 Hota)). f_equal. unfold Point_ScalarMult. symmetry. by apply mult_swap; [apply pt_base|..].
Qed.

Lemma ota_fuel : exists fuel, fuel = Z.to_nat MaxTriesOTA /\ Z.of_nat fuel = 50000.
Proof using Type. exists (Z.to_nat MaxTriesOTA). split; [reflexivity|]. rewrite Z2Nat.id; [reflexivity|unfold MaxTriesOTA; lia]. Qed.

(** What [NewCoinCA] does, for a payment to the burning address and to another. *)
Lemma NewCoinCA_burnt m s c p token lb : is_u64 (pi_Amount (cp_PaymentInfo p)) -> HashToPoint token = Some a ->
  let addr := pi_PaymentAddress (cp_PaymentInfo p) in
  pt_ok (pa_Pk addr) -> last_byte (pa_Pk addr) = Ok lb -> IsPublicKeyBurningAddress (pa_Pk addr) = Ok true ->
  NewCoinCA m s c p (Some token) =
    Ok (fresh_CA (pi_Message (cp_PaymentInfo p)) (pa_Pk addr) c s NewTxRandom m a (pi_Amount (cp_PaymentInfo p)), None).
Proof using CL Eh.
  intros Hv Et addr Hpk Elb Ebu. destruct (FromUint64_ok _ Hv) as [Ev _]. unfold NewCoinCA. fold addr.
  rewrite (FromBytesS_pt _ Hpk). cbn [res_wrap res_bind]. rewrite Elb. cbn [res_bind]. rewrite Ev. cbn [res_bind]. rewrite Ebu. cbn [res_bind deref].
  unfold SetPlainTokenID, CoinV2_ComputeCommitmentCA. rewrite Et.
  match goal with |- context [c2_mask ?x] => change (c2_mask x) with (Some m); change (c2_amount x) with (Some (key_of (pi_Amount (cp_PaymentInfo p))));
    change (c2_assetTag x) with (Some a) end.
  cbv iota. rewrite Eh. cbn [res_bind deref]. reflexivity.
Qed.

Lemma NewCoinCA_search fuel m s c p token lb bl : fuel = Z.to_nat MaxTriesOTA -> sc_ok s -> sc_ok c ->
  is_u64 (pi_Amount (cp_PaymentInfo p)) -> HashToPoint token = Some a ->
  let addr := pi_PaymentAddress (cp_PaymentInfo p) in
  let rK := ScalarMultKey (pa_OTAPublic addr) s in
  pt_ok (pa_Pk addr) -> pt_ok (pa_OTAPublic addr) -> last_byte (pa_Pk addr) = Ok lb -> IsPublicKeyBurningAddress (pa_Pk addr) = Ok false ->
  ComputeAssetTagBlinder (Some rK) = Ok bl ->
  NewCoinCA m s c p (Some token) =
    let* found := ota_loop fuel 0 rK (pa_Pk addr) (accept_params (GetShardIDFromLastByte lb) p) in
    match found with
    | None => Err "cannot create OTA"
    | Some (i, k) => Ok (fresh_CA (pi_Message (cp_PaymentInfo p)) k c s (make_TxRandom (ScalarMultKey GBASE c) (ScalarMultKey GBASE s) i) m
                          (Point_Add a (Point_ScalarMult h bl)) (pi_Amount (cp_PaymentInfo p)), Some rK)
    end.
Proof using CL Eh.
  intros Ef Hs Hc Hv Et addr rK Hpk Hota Elb Ebu Ebl. destruct (FromUint64_ok _ Hv) as [Ev _]. unfold NewCoinCA. rewrite <- Ef. fold addr.
  rewrite (FromBytesS_pt _ Hpk). cbn [res_wrap res_bind]. rewrite Elb. cbn [res_bind]. rewrite Ev. cbn [res_bind]. rewrite Ebu. cbn [res_bind].
  unfold PaymentAddress_GetOTAPublicKey, PaymentAddress_GetPublicSpend.
  rewrite (FromBytesS_pt _ Hpk), (FromBytesS_pt _ Hota). destruct (pt_key _ Hota) as [[Hlo _] _]. rewrite Hlo.
  cbn [Nat.eqb Ed25519KeySize point_or_nil deref res_bind]. unfold Point_ScalarMult. fold rK.
  destruct (ota_loop fuel 0 rK (pa_Pk addr) _) as [[[i k]|]| | |]; cbn [res_bind]; try reflexivity.
  rewrite (ScalarmultBase_sc s Hs), (ScalarmultBase_sc c Hc). fold rK. rewrite Ebl. cbn [res_bind]. rewrite Et. cbn [deref res_bind].
  rewrite Eh. cbn [res_bind]. unfold CoinV2_ComputeCommitmentCA.
  match goal with |- context [c2_mask ?x] => change (c2_mask x) with (Some m); change (c2_amount x) with (Some (key_of (pi_Amount (cp_PaymentInfo p))));
    change (c2_assetTag x) with (Some (Point_Add a (ScalarMultKey h bl))) end.
  cbv iota. rewrite Eh. cbn [res_bind deref res_wrap]. reflexivity.
Qed.

(** The two outcomes of the search for a one-time address. *)
Lemma new_coin_CA token sender m s c info : HashToPoint token = Some a -> payable_info info -> sc_ok m -> sc_ok s -> sc_ok c ->
  let r := createUniqueOTACoinCA m s c (mkCoinParams info sender PrivacyTypeTransfer) (Some token) in
  (r = Err "cannot create OTA" /\ no_address sender s info) \/
  (exists coin b secret, r = Ok (coin, secret) /\ output_for_CA info (coin, b) secret).
Proof using All.
  intros Et Hinfo Hm Hs Hc r. pose proof Hinfo as (Hv & Hb & Hl & Hpk & Hota & (rk & Etk) & Hzero).
  set (addr := pi_PaymentAddress info) in *. set (p := mkCoinParams info sender PrivacyTypeTransfer) in *.
  destruct (last_byte_key _ (proj1 (pt_key _ Hpk))) as (lb & Elb & _). destruct (FromUint64_ok _ Hv) as [Ev Hsv].
  set (rK := ScalarMultKey (pa_OTAPublic addr) s). assert (pt_ok rK) as PrK by by apply pt_mult.
  assert (bytes_ok rK) as HrK by apply (pt_key rK PrK).
  assert (r = NewCoinCA m s c p (Some token)) as Er by reflexivity. clearbody r.
  destruct ota_fuel as (fuel & Ef & Hfuel). unfold no_address. rewrite <- Ef. destruct (burning_total (pa_Pk addr)) as [[] Ebu].
  - right. destruct Hzero as [Hz|Hz]; [congruence|].
    destruct (fresh_opens (pi_Message info) (pa_Pk addr) c s NewTxRandom m (pi_Amount info) 0 Hv Hm Hc Hs Hpk (NewTxRandom_ok Hz) Hb Hl)
      as (Ho & Htg & Eval & _). destruct (no_blinder (Ok None)) as [Ea Eb].
    exists (fresh_CA (pi_Message info) (pa_Pk addr) c s NewTxRandom m (com2 a h 1 0) (pi_Amount info)), 0, None. split.
    + rewrite Er, (NewCoinCA_burnt m s c p token lb Hv Et Hpk Elb Ebu), Ea. reflexivity.
    + split; [split; [exact Ho|exists (pa_Pk addr); split; [reflexivity|by left]]|]. split; [split; [exact Htg|exact Eb]|].
      split; [exact Eval|]. split; [reflexivity|]. split.
      { exists (sc 0). split; [apply FromUint64_sc; unfold is_u64; lia|]. split; [apply sc_ok_sc|].
        change (Some (com2 a h 1 0) = Some (AddKeys a (pmul h 0))). f_equal. unfold com2. by rewrite pmul_1. }
      split; [|split; [|by split]]; intros sk ks _ _ _ E; fold addr in E; rewrite Ebu in E; discriminate E.
  - destruct (asset_hash rK HrK) as (bl & Ebl & Hbl).
    rewrite (NewCoinCA_search fuel m s c p token lb bl Ef Hs Hc Hv Et Hpk Hota Elb Ebu Ebl) in Er. cbn [p cp_PaymentInfo] in Er. fold addr rK in Er.
    destruct (ota_loop_spec (accept_params (GetShardIDFromLastByte lb) p) rK (pa_Pk addr) HrK
                (fun i => accept_params_total _ p _ _ i HrK Hpk) fuel 0 ltac:(lia) ltac:(lia)) as [(i & Hi & El & _)|[El Hrej]];
      rewrite El in Er; cbn [res_bind] in Er.
    + right. destruct (blinder_of (Some rK) bl Ebl Hbl) as (b & Etag & Ecb).
      assert (Point_Add a (Point_ScalarMult h bl) = com2 a h 1 b) as Etag'.
      { rewrite <- Etag. unfold Point_Add, Point_ScalarMult. by rewrite (pmul_key h bl Hbl). }
      assert (is_u32 i) as Hi32 by (unfold is_u32; lia).
      destruct (pt_key (ScalarMultKey GBASE c)) as [K1 V1]; [apply pt_mult; [apply pt_base|done]|].
      destruct (pt_key (ScalarMultKey GBASE s)) as [K2 V2]; [apply pt_mult; [apply pt_base|done]|].
      destruct (make_TxRandom_ok _ _ i K1 V1 K2 V2) as (Ht & Econ & _ & _).
      pose proof (ota_key_ok rK (pa_Pk addr) i HrK Hpk) as Hkey.
      destruct (fresh_opens (pi_Message info) (ota_key rK (pa_Pk addr) i) c s _ m (pi_Amount info) b Hv Hm Hc Hs Hkey Ht Hb Hl) as (Ho & Htg & Eval & _).
      exists (fresh_CA (pi_Message info) (ota_key rK (pa_Pk addr) i) c s (make_TxRandom (ScalarMultKey GBASE c) (ScalarMultKey GBASE s) i) m (com2 a h 1 b) (pi_Amount info)), b, (Some rK).
      split.
      * rewrite Er, Etag'. reflexivity.
      * split; [split; [exact Ho|]|].
        { exists (ota_key rK (pa_Pk addr) i). split; [reflexivity|]. destruct (burning_total (ota_key rK (pa_Pk addr) i)) as [[] Ebk]; [by left|]. right.
          split; [exact Ebk|]. exists info, (key_val c), (make_TxRandom (ScalarMultKey GBASE c) (ScalarMultKey GBASE s) i), rk.
          rewrite <- (sc_repr c Hc). by repeat split. }
        split; [split; [exact Htg|exact Ecb]|]. split; [exact Eval|]. split; [reflexivity|]. split.
        { exists bl. split; [exact Ebl|]. split; [exact Hbl|]. rewrite Etag'. reflexivity. }
        split; [|split; [|split; [discriminate|intros E; fold addr in E; rewrite Ebu in E; discriminate E]]].
        { intros sk ks Hsk Eks Ea _. fold addr in Ea. unfold rK. rewrite Ea.
          destruct (paid_coin_owner sk ks m s c (pi_Message info) (key_of (pi_Amount info)) Identity i Hsk Hs Hc Hi32 Eks) as (_ & x & Ex & Hx & Epk).
          exists x. split; [exact Ex|]. split; [exact Hx|exact Epk]. }
        intros sk ks Hsk Eks Ea _. fold addr in Ea. exists rK. split; [reflexivity|]. unfold rK. rewrite Ea.
        by apply (secret_recomputed sk ks _ s (make_TxRandom (ScalarMultKey GBASE c) (ScalarMultKey GBASE s) i) i (ScalarMultKey GBASE c)).
    + left. split; [rewrite Er; reflexivity|]. exists lb. split; [exact Elb|exact Hrej].
Qed.

(** ** The range proof *)

Lemma com_pedersen c b bl : opens c -> tagged c b -> sc_ok bl -> c2_assetTag c = Some (Point_Add a (Point_ScalarMult h bl)) ->
  CoinV2_ComputeCommitmentCA c = Ok (com_of (c, b)) /\
  Point_AddPedersen (key_of (coin_value c)) (Point_Add a (Point_ScalarMult h bl)) (sc (coin_rand c)) h = com_of (c, b).
Proof using CL Eh Ha Hh.
  intros Ho Hc Hbl Et. pose proof (tg_tag c b Hc) as Et'. rewrite Et in Et'. injection Et' as Etag.
  assert (ScalarMultKey (com2 a h 1 b) (sc (coin_value c)) = pmul (com2 a h 1 b) (coin_value c)) as Ep by reflexivity.
  assert (AddKeys (pmul (com2 a h 1 b) (coin_value c)) (pmul h (coin_rand c)) = com_of (c, b)) as Ecom.
  { unfold com_of, eff, com2. cbn [fst snd]. module. }
  split.
  - unfold CoinV2_ComputeCommitmentCA. rewrite (tg_mask c b Hc), (tg_amount c b Hc), Eh, (tg_tag c b Hc). cbn [res_bind deref].
    unfold Point_Add, Point_ScalarMult. rewrite Ep. f_equal. exact Ecom.
  - rewrite Etag, sc_small by (pose proof (on_value c Ho) as Hv; unfold is_u64 in Hv; assert (2 ^ 64 < order) by (by vm_compute); lia).
    rewrite add_pedersen_sc by (done || by apply com2_pt). exact Ecom.
Qed.

(** The output coins with their blinders and shared secrets. *)
Definition outputs_CA (infos : list PaymentInfo) (l : list (CoinV2 * Z * option (list Z))) : Prop :=
  Forall2 (fun info x => output_for_CA info (fst x) (snd x)) infos l.

Definition coins_of (l : list (CoinV2 * Z * option (list Z))) : list CoinV2 := map fst (map fst l).

Lemma outputs_CA_coins infos l : outputs_CA infos l ->
  Forall2 to_send (coins_of l) (map Some infos) /\ Forall2 output_CA (map fst l) (map snd l) /\
  values_of (map fst l) = zsum (map pi_Amount infos).
Proof using Type.
  unfold coins_of. induction 1 as [|info [cb s] infos l (Hs & Hc & Ev & _) Hl (IH1 & IH2 & IH3)]; [by repeat split|].
  cbn [map fst snd] in *. split; [by constructor|]. split; [by constructor|]. unfold values_of in *. cbn [map fst]. rewrite !zsum_cons. by rewrite Ev, IH3.
Qed.

(** Their blinders, as the range proof computes them. *)
Lemma outputs_CA_blinders infos l : outputs_CA infos l ->
  exists bls, res_map asset_blinder (map snd l) = Ok bls /\ Forall sc_ok bls /\ length bls = length l /\
    map c2_assetTag (coins_of l) = map (fun bl => Some (Point_Add a (Point_ScalarMult h bl))) bls /\
    res_map CoinV2_ComputeCommitmentCA (coins_of l) = Ok (map com_of (map fst l)) /\
    zip_with (fun v tr => Point_AddPedersen (key_of v) (fst tr) (snd tr) h) (map coin_value (coins_of l))
      (zip (map (fun bl => Point_Add a (Point_ScalarMult h bl)) bls) (map (fun c => sc (coin_rand c)) (coins_of l))) = map com_of (map fst l).
Proof using CL Eh Ha Hh.
  unfold coins_of. induction 1 as [|info [[c b] s] infos l (Hs & [Hc _] & _ & _ & (bl & Ebl & Hbl & Et) & _) Hl (bls & E1 & E2 & E3 & E4 & E5 & E6)]; [by exists []|].
  cbn [fst snd] in *. destruct (com_pedersen c b bl (proj1 Hs) Hc Hbl Et) as [Ecom Eped]. exists (bl :: bls).
  cbn [map fst snd res_map zip zip_with length]. rewrite Ebl, Ecom. cbn [res_bind]. rewrite E1, E5, Eped. cbn [res_bind].
  split; [done|]. split; [by constructor|]. split; [by rewrite E3|]. split; [f_equal; [exact Et|exact E4]|]. split; [done|]. f_equal. exact E6.
Qed.

(** The proof of a token transfer is over the first asset tag and carries the
    commitments of the outputs over their own tags. *)
Lemma prove_range_CA_ok rnd aggParam infos l G : outputs_CA infos l -> l <> [] -> (length l <= MaxOutputCoin)%nat ->
  params_ok aggParam -> (forall i, sc_ok (rnd i)) -> index G PedersenRandomnessIndex = Ok h ->
  let N := (MaxExp * Z.to_nat (roundUpPowTwo (Z.of_nat (length l))))%nat in
  (N <= length (bp_g aggParam))%nat -> (N <= length (bp_h aggParam))%nat ->
  let wit := mkWitness (map coin_value (coins_of l)) (map (fun c => sc (coin_rand c)) (coins_of l)) in
  exists base ag d, head (coins_of l) ≫= c2_assetTag = Some base /\ setAggregateParams aggParam N = Ok ag /\
    prove_range_CA rnd aggParam wit (coins_of l) (map snd l) G = (<[PedersenValueIndex := base]> G, Ok (proof_of 2 d)) /\
    pd_cms d = map com_of (map fst l) /\ range_ok d /\ (range_invertible (bp_cs ag) 2 d -> range_check ag base h 2 d = Ok true).
Proof using All.
  intros Hl Hne Hmax Hagg Hrnd HG N LG LH wit. destruct (outputs_CA_coins infos l Hl) as (Hs & _ & _).
  destruct (outputs_CA_blinders infos l Hl) as (bls & E1 & Hbls & Lb & Etags & Ecoms & Eped).
  destruct (outputs_witness (coins_of l) (to_send_opens _ _ Hs)) as (_ & _ & Hw).
  assert (length (coins_of l) = length l) as Lc by (unfold coins_of; by rewrite !length_map).
  assert (length (wt_values wit) = length l) as Lw by (cbn [wit wt_values]; by rewrite length_map).
  destruct (asset_proof rnd aggParam wit bls a h G Hagg Hrnd (Hw ltac:(lia)) Hbls Ha Eh HG) as [Hok _]; [by rewrite Lw..|].
  destruct Hok as (wit' & ag & d & Ew & Eag & Ep & Ed & Hv & Hd & HN); [by rewrite Lw|intros ->; destruct l; [done|discriminate Lb]|].
  rewrite Lw in Eag, HN. fold N in Eag, HN. cbn [wit wt_values wt_rands] in Ed. rewrite Eped in Ed.
  set (base := Point_Add a (Point_ScalarMult h (hd [] bls))) in *. exists base, ag, d.
  assert (head (coins_of l) ≫= c2_assetTag = Some base) as Ebase.
  { destruct (coins_of l) as [|c cs]; [destruct l; [done|discriminate Lc]|]. destruct bls as [|bl bls]; [discriminate Etags|]. injection Etags as E _. exact E. }
  split; [exact Ebase|]. split; [exact Eag|]. split; [|split; [exact Ed|split; [|exact Hv]]].
  - unfold prove_range_CA, st_bind, st_lift. rewrite E1, Ew.
    assert (GetFirstAssetTag (coins_of l) = Ok base) as ->.
    { destruct (coins_of l) as [|c cs]; [discriminate Ebase|]. cbn [head mbind option_bind] in Ebase. unfold GetFirstAssetTag. by rewrite Ebase. }
    rewrite Ep, Ecoms. cbn [res_bind]. unfold proof_of, set_rp_cms. by rewrite Ed.
  - apply (small_range d (length l)); try done. by rewrite Ed, !length_map.
Qed.

(** ** Proving *)

Section prove.
Context {M : Type} `{MO : MetadataOps M} `{JL : TxCodecLaws M}.
Implicit Type t : TxBase M.
Context (aggParam : bulletproofParams) (R : TxRandomness).

Lemma new_outputs_CA_spec token (params : TxPrivacyInitParams M) shard infos : HashToPoint token = Some a -> coin_randomness_ok R ->
  tp_TokenID params = Some token -> GetSenderShard params = Ok shard -> Forall payable_info infos -> forall i,
  let r := new_outputs_CA R params i (map Some infos) in
  (r = Err "cannot create OTA" /\ exists j info, infos !! j = Some info /\ no_address shard (tr_shared R (i + j)) info) \/
  (exists l, r = Ok (coins_of l, map snd l) /\ outputs_CA infos l).
Proof using CL DL LL AA HD BL Eg Eh Ha Hg Hh.
  intros Et Hr Etok Esh Hinfos. induction Hinfos as [|info infos Hi Hinfos IH]; intros i.
  { right. exists []. split; [reflexivity|constructor]. }
  destruct (Hr i) as (Hm & Hs & Hc). cbn [map new_outputs_CA]. cbv zeta. rewrite Esh, Etok. cbn [res_bind deref NewTransferCoinParams].
  destruct (new_coin_CA token shard _ _ _ info Et Hi Hm Hs Hc) as [[E Hst]|(c & b & s & E & Ho)]; rewrite E; cbn [res_bind].
  { left. split; [reflexivity|]. exists 0%nat, info. split; [reflexivity|]. by rewrite Nat.add_0_r. }
  destruct (IH (S i)) as [(E2 & j & info' & Ej & Hst)|(l & E2 & Hl)]; rewrite E2; cbn [res_bind].
  - left. split; [reflexivity|]. exists (S j), info'. split; [exact Ej|]. by rewrite Nat.add_succ_r.
  - right. exists ((c, b, s) :: l). split; [reflexivity|]. by constructor.
Qed.

(** A payment proof of a token, over the asset tag [base] of the first output. *)
Definition proved_CA (ins : list CoinV2) (l : list (CoinV2 * Z * option (list Z))) (infos : list PaymentInfo) (base : list Z) (p : ProofV2) : Prop :=
  exists d hidden, p = proof2_of 2 None (mkPayment2 (Some d) (map (fun c => PlainV2 (shown c)) ins) hidden) /\
    range_ok d /\ Forall2 (fun co out => sent_coin (fst co) (snd co) out) (zip (coins_of l) (map Some infos)) hidden /\
    pd_cms d = map com_of (map fst l) /\
    (forall ag, setAggregateParams aggParam (MaxExp * Z.to_nat (roundUpPowTwo (Z.of_nat (length l))))%nat = Ok ag ->
      range_invertible (bp_cs ag) 2 d -> range_check ag base h 2 d = Ok true).

(** A finished token transfer. *)
Definition transferred_CA (ins : list (CoinV2 * Z)) (l : list (CoinV2 * Z * option (list Z))) (infos : list PaymentInfo) (my : list Z) (pi : nat)
    (base : list Z) t : Prop :=
  outputs_CA infos l /\ values_of ins = values_of (map fst l) /\ head (coins_of l) ≫= c2_assetTag = Some base /\
  (exists p, tx_Proof t = Some (ProofOf2 p) /\ proved_CA (map fst ins) l infos base p) /\
  exists message, Tx_HashBytes t = Ok message /\ signed_CA ins (map fst l) my pi message t.

(** The inputs of a token transfer: coins of the token that the sender owns. *)
Definition spendable_CA (sk : list Z) (ins : list (CoinV2 * Z)) (xs : list (list Z)) : Prop :=
  Forall2 (owned_CA sk) ins xs /\ Forall opens (map fst ins).

Record token_transfer (params : TxPrivacyInitParams M) (token sk : list Z) (ins : list (CoinV2 * Z)) (xs : list (list Z))
    (infos : list PaymentInfo) (my : list Z) (pi : nat) : Prop := mkTokenTransfer {
  tt_token : HashToPoint token = Some a /\ tp_TokenID params = Some token;
  tt_sender : tp_SenderSK params = Some sk;
  tt_infos : tp_PaymentInfo params = map Some infos;
  tt_payable : Forall payable_info infos;
  tt_count : (1 <= length infos <= MaxOutputCoin)%nat;
  tt_ins : tp_InputCoins params = map PlainV2 (map fst ins);
  tt_owned : spendable_CA sk ins xs;
  tt_in_count : (1 <= length ins < 254)%nat;
  tt_ring : exists rp cs pks ts, ring_kv_CA (length ins) (tp_KvArgs params) my rp cs pks ts;
  tt_pi : tr_pi R = Ok pi /\ (pi < RingSize)%nat;
  tt_fee : tp_Fee params = 0;
  tt_balance : values_of ins = zsum (map pi_Amount infos) }.

(** The signature of a transfer whose proof is made. *)
Lemma proveCA_made fuel params token sk ins xs infos my pi l G t : drawn fuel aggParam R ->
  token_transfer params token sk ins xs infos my pi -> outputs_CA infos l -> tx_Sig t = None -> index G PedersenRandomnessIndex = Ok h ->
  exists base p pk ks sig, let t' := finished p pk ks sig t in
    ProveV2 (tr_range R) aggParam (map PlainV2 (map fst ins)) (coins_of l) (map snd l) true (map Some infos) G =
      (<[PedersenValueIndex := base]> G, Ok p) /\
    (let! h := (fun t => (t, Tx_HashBytes t)) in signCA R (map PlainV2 (map fst ins)) (coins_of l) (map snd l) params h) (tx_SetProof (Some (ProofOf2 p)) t) =
      (t', Ok tt) /\
    transferred_CA ins l infos my pi base t'.
Proof using All.
  intros Hd Ht Hl Es HG. destruct (outputs_CA_coins infos l Hl) as (Hs & Hout & Hval). destruct (tt_owned _ _ _ _ _ _ _ _ Ht) as [Hown Hop].
  pose proof (tt_count _ _ _ _ _ _ _ _ Ht) as Hcount. pose proof (tt_in_count _ _ _ _ _ _ _ _ Ht) as Hin. pose proof (Forall2_length _ _ _ Hl) as Ll.
  assert (l <> []) as Hne by (intros ->; cbn in *; lia).
  assert (Forall stored2 (map fst ins)) as Hins by (eapply Forall_impl; [exact Hop|]; intros c Hc; apply (on_stored c Hc)).
  assert (length (coins_of l) = length l) as Lc by (unfold coins_of; by rewrite !length_map).
  assert (MaxExp * Z.to_nat (roundUpPowTwo (Z.of_nat (length l))) <= MaxExp * MaxOutputCoin)%nat as HN.
  { destruct (roundUpPowTwo_ok (length l)) as (j & Ej & Hj); [lia|]. rewrite Ej. nia. }
  destruct (dr_generators _ _ _ Hd) as [LG LH].
  destruct (prove_range_CA_ok (tr_range R) aggParam infos l G Hl Hne ltac:(lia) (dr_params _ _ _ Hd) (dr_range _ _ _ Hd) HG) as
    (base & ag & d & Ebase & Eag & Erange & Ecms & Hr & Hv); [lia|lia|].
  destruct (ProveV2_around (tr_range R) aggParam (map fst ins) (coins_of l) (map snd l) true (map Some infos) G _ (proof_of 2 d) Hins Hs Erange)
    as (hidden & Ep & Hhid).
  pose proof (sent_payment d (map fst ins) (coins_of l) (map Some infos) hidden Hr Hins ltac:(rewrite length_map; lia) ltac:(lia) Hhid) as Hd2.
  set (p := mkProofV2 2 _ _ _) in Ep. assert (p = proof2_of 2 None (mkPayment2 (Some d) (map (fun c => PlainV2 (shown c)) (map fst ins)) hidden)) as Epd by reflexivity.
  set (d2 := mkPayment2 _ _ _) in *. set (t1 := tx_SetProof (Some (ProofOf2 p)) t).
  destruct (payment_hash d2 t1) as (message & Em & Lm & Hm); [cbn [t1 tx_SetProof tx_Proof]; by rewrite Epd|by eexists|exact Hd2|].
  destruct (tt_ring _ _ _ _ _ _ _ _ Ht) as (rp & cs & pks & ts & Hkv). destruct (tt_pi _ _ _ _ _ _ _ _ Ht) as [Epi Hpi].
  destruct (tt_token _ _ _ _ _ _ _ _ Ht) as [Et Etok]. destruct (dr_ring _ _ _ Hd) as [Hra Hrr].
  destruct (signCA_ok R token sk my rp cs pks ts ins xs (map fst l) (map snd l) pi message params t1 Hra Hrr Et Hkv Hown Hout) as (pk & ks & sig & Esig & Hsig); try assumption.
  - rewrite (tt_balance _ _ _ _ _ _ _ _ Ht), <- Hval. reflexivity.
  - rewrite length_map. unfold MaxOutputCoin in *. lia.
  - exact (tt_fee _ _ _ _ _ _ _ _ Ht).
  - exact (tt_sender _ _ _ _ _ _ _ _ Ht).
  - exists base, p, pk, ks, sig. split; [exact Ep|]. split.
    + unfold st_bind. fold t1. rewrite Em. exact Esig.
    + split; [exact Hl|]. split; [by rewrite (tt_balance _ _ _ _ _ _ _ _ Ht)|]. split; [exact Ebase|]. split.
      * exists p. split; [reflexivity|]. exists d, hidden. split; [exact Epd|]. split; [exact Hr|]. split; [exact Hhid|]. split; [exact Ecms|].
        intros ag' Eag'. rewrite Eag in Eag'. injection Eag' as <-. exact Hv.
      * exists message. split; [exact Em|exact Hsig].
Qed.

(** With the output coins at hand, [proveCA] succeeds unless two coins are burnt. *)
Lemma proveCA_run fuel params token sk ins xs infos my pi l G t : drawn fuel aggParam R ->
  token_transfer params token sk ins xs infos my pi -> new_outputs_CA R params 0 (map Some infos) = Ok (coins_of l, map snd l) ->
  outputs_CA infos l -> tx_Sig t = None -> index G PedersenRandomnessIndex = Ok h ->
  let r := proveCA aggParam R params (G, t) in
  ((2 <= burnt_count (map snd l))%nat /\ r = ((G, t), Err "output must not have more than 1 burned coin")) \/
  (exists base p pk ks sig, let t' := finished p pk ks sig t in
    r = ((<[PedersenValueIndex := base]> G, t'), Ok (burnt_count (map snd l) =? 1)%nat) /\ transferred_CA ins l infos my pi base t').
Proof using All.
  intros Hd Ht E Hl Es HG. cbv zeta. unfold proveCA. rewrite (tt_infos _ _ _ _ _ _ _ _ Ht), (tt_ins _ _ _ _ _ _ _ _ Ht), E.
  destruct (Nat.ltb_spec 1 (burnt_count (map snd l))); [by left|]. right.
  destruct (proveCA_made fuel params token sk ins xs infos my pi l G t Hd Ht Hl Es HG) as (base & p & pk & ks & sig & Ep & Esig & Htr).
  exists base, p, pk, ks, sig. rewrite Ep. cbn [res_bind]. unfold st_bind at 1, st_field. rewrite Esig. cbn [res_bind]. split; [|exact Htr].
  do 2 f_equal. destruct (burnt_count (map snd l)) as [|[|n]]; [done|done|lia].
Qed.

(** C4: a token transfer goes through.  For coins of a token that the sender owns,
    blinded or not, payments of the same total, and decoys with asset tags, [proveCA]
    finds no one-time address for a payment in [MaxTriesOTA] tries, or refuses to
    burn two coins, or builds the transaction: every payment gets a coin of the token
    whose blinder comes from a secret shared with its receiver, who can recompute it
    with the key of the coin (a coin to the burning address is not blinded); the range
    proof is over the commitments of the outputs and is accepted over the asset tag of
    the first; and the ring signature of the hash verifies with the key images of the
    inputs.  The last two columns of the sender's row are the differences of the asset
    tags and of the commitments of inputs and outputs, and are multiples of the
    random base.  The result says whether a coin is burnt, and the global commitment
    scheme is left with the first asset tag as its value generator. *)
Theorem token_transfer_goes_through fuel (params : TxPrivacyInitParams M) token sk shard ins xs infos my pi G t : drawn fuel aggParam R ->
  token_transfer params token sk ins xs infos my pi -> GetSenderShard params = Ok shard -> tx_Sig t = None ->
  index G PedersenRandomnessIndex = Ok h ->
  let r := proveCA aggParam R params (G, t) in
  (r = ((G, t), Err "cannot create OTA") /\ exists j info, infos !! j = Some info /\ no_address shard (tr_shared R j) info) \/
  (exists l, outputs_CA infos l /\
    ((2 <= burnt_count (map snd l))%nat /\ r = ((G, t), Err "output must not have more than 1 burned coin") \/
     exists base t', r = ((<[PedersenValueIndex := base]> G, t'), Ok (burnt_count (map snd l) =? 1)%nat) /\
       transferred_CA ins l infos my pi base t')).
Proof using All.
  intros Hd Ht Esh Es HG. cbv zeta. destruct (tt_token _ _ _ _ _ _ _ _ Ht) as [Et Etok].
  destruct (new_outputs_CA_spec token params shard infos Et (dr_coins _ _ _ Hd) Etok Esh (tt_payable _ _ _ _ _ _ _ _ Ht) 0) as [[E Hs]|(l & E & Hl)].
  - left. split; [|exact Hs]. unfold proveCA. by rewrite (tt_infos _ _ _ _ _ _ _ _ Ht), E.
  - right. exists l. split; [exact Hl|]. destruct (proveCA_run fuel params token sk ins xs infos my pi l G t Hd Ht E Hl Es HG)
      as [|(base & p & pk & ks & sig & Hrun)]; [by left|]. right. exists base, (finished p pk ks sig t). exact Hrun.
Qed.
End prove.
End token.

(** ** Spending what was received *)

Section received.
Context `{CL : CurveLaws} `{DL : DigestLaws} `{LL : LRULaws} `{AA : AllocatorLaws} `{HD : HDWallet} `{BL : BlockCipherLaws}.
Context (a h : list Z) (Ha : pt_ok a) (Hh : pt_ok h).

Lemma opens_image c k : opens c -> pt_ok k -> opens (c2_SetKeyImage (Some k) c).
Proof using CL.
  intros [((Hi & Hpk & Hcom & _ & Hrest) & Hl) ? ? ? ?] Hk. constructor; try assumption. split; [|exact Hl].
  split; [exact Hi|]. split; [exact Hpk|]. split; [exact Hcom|]. split; [by apply pt_key|exact Hrest].
Qed.

(** The coin of a payment, once its receiver has decrypted it and computed its key image,
    is an input of the next token transfer. *)
Lemma received_CA sk ks info c b secret : sc_ok sk -> KeySet_InitFromPrivateKey (Some sk) = Ok ks ->
  pi_PaymentAddress info = ks_PaymentAddress ks -> IsPublicKeyBurningAddress (pa_Pk (pi_PaymentAddress info)) = Ok false ->
  output_for_CA a h info (c, b) secret ->
  exists x, let d := c2_SetKeyImage (Some (key_image x)) c in
    CoinV2_ParseKeyImageWithPrivateKey sk c = Ok (key_image x) /\ owned_CA a h sk (d, b) x /\ opens d /\ coin_value d = pi_Amount info.
Proof using CL DL.
  intros Hsk Eks Ea Ebu (Hs & (Ht & Hb) & Ev & _ & _ & Hkey & Hsec & _). cbn [fst snd] in *.
  destruct (Hkey sk ks Hsk Eks Ea Ebu) as (x & Ex & Hx & Epk). destruct (Hsec sk ks Hsk Eks Ea Ebu) as (s & -> & Er).
  destruct (key_image_parsed sk c x Ex Epk Hx) as [Eki Hki]. exists x. split; [exact Eki|]. split; [|split; [apply opens_image; [apply Hs|done]|exact Ev]].
  constructor; cbn [fst snd].
  - destruct Ht. by constructor.
  - exact Ex.
  - exact Hx.
  - exact Epk.
  - reflexivity.
  - replace (RecomputeSharedSecret sk (c2_SetKeyImage (Some (key_image x)) c)) with (RecomputeSharedSecret sk c) by reflexivity. rewrite Er. exact Hb.
Qed.
End received.

(** ** A token transfer over the toy curve *)

#[local] Existing Instances keep_all keep_all_laws toy_curve toy_curve_laws toy_digests toy_digest_laws exact_cap exact_cap_laws
  toy_hdwallet toy_cipher toy_cipher_laws toy_codec toy_codec_laws.

Definition toy_token : list Z := replicate 32 5.

#[local] Opaque toy_sender.

(** A coin of 100 of the token, owned by the account that pays. *)
Lemma toy_token_coin a h g : index PedG PedersenRandomnessIndex = Ok h -> pt_ok h -> index PedG PedersenValueIndex = Ok g -> pt_ok g ->
  HashToPoint toy_token = Some a -> pt_ok a ->
  exists cb x, owned_CA a h (key_of 4) cb x /\ opens (fst cb) /\ coin_value (fst cb) = 100.
Proof.
  intros Eh Hh Eg Hg Et Ha.
  destruct (new_coin_CA a h Eh Ha Hh g Eg Hg toy_token 1 (key_of 20) (key_of 9) (key_of 60) (toy_payment 100) Et
    (toy_payable 100 ltac:(unfold is_u64; lia)) (toy_scalar 20 ltac:(lia)) (toy_scalar 9 ltac:(lia)) (toy_scalar 60 ltac:(lia)))
    as [[_ Hs]|(c & b & s & _ & Hc)].
  - destruct ota_fuel as (fuel & Ef & Hf). unfold no_address in Hs. rewrite <- Ef in Hs.
    exact (False_ind _ (toy_found fuel 100 [1; 2] ltac:(lia) Hs)).
  - destruct (received_CA a h (key_of 4) toy_sender (toy_payment 100) c b s toy_sk toy_account eq_refl (toy_burning _) Hc)
      as (x & _ & Hown & Hop & Ev). exists (c2_SetKeyImage (Some (key_image x)) c, b), x.
    split; [exact Hown|split; [exact Hop|exact Ev]].
Qed.

Definition toy_kv_CA : kv_args :=
  Some (<[kv_CommitmentIndices := KvIndices [31; 32; 33; 34; 35; 36; 37]]>
       (<[kv_Commitments := KvPoints (map Some (toy_points 300))]>
       (<[kv_PublicKeys := KvPoints (map Some (toy_points 400))]>
       (<[kv_AssetTags := KvPoints (map Some (toy_points 500))]> (<[kv_MyIndices := KvIndices [30]]> ∅))))).

Lemma toy_ring_kv_CA : ring_kv_CA 1 toy_kv_CA [30]
  (mkRingParams [31; 32; 33; 34; 35; 36; 37] [30] (map Some (toy_points 300)) (map Some (toy_points 400)) (map Some (toy_points 500)))
  (toy_points 300) (toy_points 400) (toy_points 500).
Proof.
  split; [|split; [reflexivity|split; [cbn; lia|apply Forall_map, Forall_true; intros; by eexists]]]. constructor.
  - eexists. split; [reflexivity|]. by vm_compute.
  - reflexivity.
  - cbn. lia.
  - split; apply Forall_map, Forall_true; intros; by eexists.
  - split; repeat constructor; try lia; apply Z.ltb_lt; vm_compute; reflexivity.
Qed.

Definition toy_token_transfer (c : CoinV2) : TxPrivacyInitParams MetadataBase :=
  NewTxPrivacyInitParams (Some (key_of 4)) [Some (toy_payment 60); Some (toy_payment 40)] [PlainV2 c] 0 true (Some toy_token) None None toy_kv_CA.

Lemma toy_shard (params : TxPrivacyInitParams MetadataBase) : tp_SenderSK params = Some (key_of 4) -> GetSenderShard params = Ok 1.
Proof. intros E. unfold GetSenderShard. rewrite E. vm_compute. reflexivity. Qed.

(** Its payments find their addresses, and burn nothing. *)
Lemma toy_no_search j info : [toy_payment 60; toy_payment 40] !! j = Some info -> ~ no_address 1 (key_of 9) info.
Proof.
  intros Ej Hs. destruct ota_fuel as (fuel & Ef & Hf). unfold no_address in Hs. rewrite <- Ef in Hs.
  destruct j as [|[|j]]; [injection Ej as <-..|change (([] : list PaymentInfo) !! j = Some info) in Ej; rewrite lookup_nil in Ej; discriminate Ej].
  - exact (False_ind _ (toy_found fuel 60 [1; 2] ltac:(lia) Hs)).
  - exact (False_ind _ (toy_found fuel 40 [1; 2] ltac:(lia) Hs)).
Qed.

Lemma toy_no_burn a h l : outputs_CA a h [toy_payment 60; toy_payment 40] l -> ~ (2 <= burnt_count (map snd l))%nat.
Proof.
  intros Hl Hb. inversion Hl as [|i1 [[c1 b1] s1] ? l1 H1 Hl1]; subst. inversion Hl1 as [|i2 [[c2 b2] s2] ? l2 H2 Hl2]; subst. inversion Hl2; subst.
  destruct H1 as (_ & _ & _ & _ & _ & _ & _ & H1). destruct H2 as (_ & _ & _ & _ & _ & _ & _ & H2).
  assert (forall s : option (list Z), (s = None <-> IsPublicKeyBurningAddress (pa_Pk (ks_PaymentAddress toy_sender)) = Ok true) -> s <> None) as Hne.
  { intros s [Hb1 _] E. apply Hb1 in E. pose proof (toy_burning (pa_Pk (ks_PaymentAddress toy_sender))) as E2. rewrite E2 in E. discriminate E. }
  cbn [snd map] in Hb. unfold burnt_count in Hb. rewrite !filter_cons_False in Hb; [cbn in Hb; lia|by apply Hne..].
Qed.

(** 100 of the token pay 60 and 40. *)
Lemma token_transfer_goes_through_witness : exists a h cb ag l base t,
  proveCA ag toy_randomness (toy_token_transfer (fst cb)) (PedG, TxBase_new) =
    ((<[PedersenValueIndex := base]> PedG, t), Ok (burnt_count (map snd l) =? 1)%nat) /\
  transferred_CA a h ag [cb] l [toy_payment 60; toy_payment 40] [30] 3 base t.
Proof.
  destruct (PedG_index PedersenValueIndex) as (g & Eg & Hg); [unfold PedersenValueIndex; lia|].
  destruct (PedG_index PedersenRandomnessIndex) as (h & Eh & Hh); [unfold PedersenRandomnessIndex; lia|].
  destruct (HashToPoint_ok toy_token) as (a & Et & Ha). destruct (toy_token_coin a h g Eh Hh Eg Hg Et Ha) as (cb & x & Hown & Hop & Ev).
  destruct toy_drawn as [ag Hd].
  destruct (token_transfer_goes_through a h Eh Ha Hh g Eg Hg ag toy_randomness 8 (toy_token_transfer (fst cb)) toy_token (key_of 4) 1 [cb] [x]
    [toy_payment 60; toy_payment 40] [30] 3 PedG TxBase_new Hd) as [[_ (j & info & Ej & Hs)]|(l & Hl & [[Hb _]|(base & t & E & Htr)])].
  - constructor; try reflexivity.
    + split; [exact Et|reflexivity].
    + repeat (apply Forall_cons; split; [apply toy_payable; unfold is_u64; lia|]). apply Forall_nil_2.
    + cbn. unfold MaxOutputCoin. lia.
    + split; [apply Forall2_cons_2; [exact Hown|apply Forall2_nil_2]|apply Forall_singleton; exact Hop].
    + cbn. lia.
    + eexists _, _, _, _. exact toy_ring_kv_CA.
    + split; [reflexivity|unfold RingSize; lia].
    + unfold values_of. cbn [map zsum foldr]. rewrite Ev. reflexivity.
  - apply toy_shard. reflexivity.
  - reflexivity.
  - exact Eh.
  - exact (False_ind _ (toy_no_search j info Ej Hs)).
  - exact (False_ind _ (toy_no_burn a h l Hl Hb)).
  - exists a, h, cb, ag, l, base, t. split; [exact E|exact Htr].
Defined.
