(* ===== verification/TokenV2.v ===== *)
(** * TokenV2.v: token transactions of version 2

    [src/transaction/tx_ver2/tx_token_ver2.go], and the token data of
    [src/transaction/tx_generic/tx_token_data.go]: a transaction that pays its fee
    in PRV ([TxV2.v]) and carries a transfer of a token ([TxCA.v]).  The fee part is
    proved first, then the token part is built from it, proved and signed on its own
    hash; last the fee part is signed on the hash of the whole.  [encoding/json] of
    the token data is the interface [TokenCodec]. *)

From stdpp Require Import base list gmap strings.
From Stdlib Require Import ZArith Lia.
From S2P Require Import Prelude Cursor Common Hashing Encoding Crypto Key Base58 Base58Check Wallet Burning CoinV2 Hybrid CoinV1 Schnorr Mlsag Linear Bulletproof Sigma OneOutOfMany ProofV1 Payment ProofV2 Utxo TxGeneric TxV2 Transfer TxCA.
Open Scope Z_scope.

Definition CustomTokenInit : Z := 0.
Definition CustomTokenTransfer : Z := 1.

(** ** Token data *)

(** Names are byte strings; a signature and its key may be [nil]. *)
Record TxTokenDataVersion2 := mkTokenData2 {
  td_PropertyID : list Z; td_PropertyName : list Z; td_PropertySymbol : list Z;
  td_SigPubKey : option (list Z); td_Sig : option (list Z); td_Proof : option PaymentProof;
  td_Type : Z; td_Mintable : bool }.

Definition TokenData2_new : TxTokenDataVersion2 := mkTokenData2 zero_hash [] [] None None None 0 false.

Definition td_setPropertyID (v : list Z) (d : TxTokenDataVersion2) : TxTokenDataVersion2 :=
  mkTokenData2 v (td_PropertyName d) (td_PropertySymbol d) (td_SigPubKey d) (td_Sig d) (td_Proof d) (td_Type d) (td_Mintable d).
Definition td_setSigned (pk sig : option (list Z)) (proof : option PaymentProof) (d : TxTokenDataVersion2) : TxTokenDataVersion2 :=
  mkTokenData2 (td_PropertyID d) (td_PropertyName d) (td_PropertySymbol d) pk sig proof (td_Type d) (td_Mintable d).

(** The members of the JSON object; those tagged [omitempty] are absent when they are
    empty, and a [nil] proof is written as [null]. *)
Record td_json := mkTdJson {
  dj_PropertyID : list Z; dj_PropertyName : list Z; dj_PropertySymbol : list Z;
  dj_SigPubKey : option (list Z); dj_Sig : option (list Z); dj_Proof : option (list Z); dj_Type : Z; dj_Mintable : bool }.

(** [json.Marshal] and [json.Unmarshal] of these members, and of the object of a token
    transaction, whose two members are kept as raw messages.  Go replaces what is not
    UTF-8 in a string, so names are read back when they are ASCII. *)
Class TokenCodec : Type := {
  td_marshal : td_json -> res (list Z);
  td_unmarshal : list Z -> res td_json;
  holder_marshal : list Z * list Z -> res (list Z);
  holder_unmarshal : list Z -> res (list Z * list Z) }.

Definition ascii (s : list Z) : Prop := Forall (fun b => 0 <= b < 128) s.

Class TokenCodecLaws `{TokenCodec} : Prop := {
  td_total : forall j, exists b, td_marshal j = Ok b;
  td_codec : forall j b, ascii (dj_PropertyName j) -> ascii (dj_PropertySymbol j) -> td_marshal j = Ok b -> td_unmarshal b = Ok j;
  holder_codec : forall p, exists b, holder_marshal p = Ok b /\ holder_unmarshal b = Ok p;
  holder_bytes : forall p b, holder_marshal p = Ok b -> bytes_ok b }.

(** [omitempty] *)
Definition omit (b : option (list Z)) : option (list Z) := match b with Some [] => None | _ => b end.

Section token.
Context `{CO : CurveOps} `{DG : Digests} `{LR : LRU} `{AL : Allocator} `{HD : HDWallet} `{BC : BlockCipher}.
Context {M : Type} `{MO : MetadataOps M} `{TC : TxCodec M} `{KC : TokenCodec}.

Definition proof_text (p : PaymentProof) : res (list Z) := let* b := Proof_Bytes p in Ok (base64_encode b).
Definition optional_text (p : option PaymentProof) : res (option (list Z)) :=
  match p with None => Ok None | Some p => let* s := proof_text p in Ok (Some s) end.

Definition TokenData2_MarshalJSON (d : TxTokenDataVersion2) : res (list Z) :=
  let* proof := optional_text (td_Proof d) in
  td_marshal (mkTdJson (td_PropertyID d) (td_PropertyName d) (td_PropertySymbol d) (omit (td_SigPubKey d)) (omit (td_Sig d)) proof
                (td_Type d) (td_Mintable d)).

(** The receiver is a value: signature and key are left out of the hash. *)
Definition TokenData2_Hash (d : TxTokenDataVersion2) : res (list Z) :=
  let* b := TokenData2_MarshalJSON (td_setSigned (Some []) (Some []) (td_Proof d) d) in Ok (HashH b).

(** *** The token data that both versions share *)

(** [metadata.Transaction]: a pointer to a transaction of version 1 or 2. *)
Inductive Transaction :=
| TransactionOf1 (t : TxBase M)
| TransactionOf2 (t : TxBase M).

Definition Transaction_base (v : Transaction) : TxBase M := match v with TransactionOf1 t | TransactionOf2 t => t end.

Record TxTokenData := mkTokenData {
  tkd_TxNormal : Transaction; tkd_PropertyID : list Z; tkd_PropertyName : list Z; tkd_PropertySymbol : list Z;
  tkd_Type : Z; tkd_Mintable : bool; tkd_Amount : Z }.

(** What [String] appends for an output and for an input. *)
Definition output_text (o : option Coin) : res (list Z) :=
  let* c := deref o in
  let* v := Coin_GetValue c in
  Ok (default [] (Coin_GetPublicKey c) ++ decimal v).
Definition input_text (o : option PlainCoin) : res (list Z) :=
  let* c := deref o in
  let* v := PlainCoin_GetValue c in
  Ok (default [] (PlainCoin_GetPublicKey c) ++ if 0 <? v then decimal v else []).

Definition TxTokenData_String (d : TxTokenData) : res (list Z) :=
  let record := tkd_PropertyName d ++ tkd_PropertySymbol d ++ decimal (tkd_Amount d) in
  match tx_Proof (Transaction_base (tkd_TxNormal d)) with
  | None => Ok record
  | Some p =>
      let* outs := res_map output_text (Proof_GetOutputCoins p) in
      let* ins := res_map input_text (Proof_GetInputCoins p) in
      Ok (record ++ concat outs ++ concat ins)
  end.

Definition TxTokenData_Hash (d : TxTokenData) : res (list Z) :=
  let* s := TxTokenData_String d in
  let* point := deref (HashToPoint s) in
  Hash_NewHash zero_hash point.

Definition ToCompatTokenData (ttx : Transaction) (d : TxTokenDataVersion2) : TxTokenData :=
  mkTokenData ttx (td_PropertyID d) (td_PropertyName d) (td_PropertySymbol d) (td_Type d) (td_Mintable d) 0.

Definition decomposeTokenData (d : TxTokenData) : res (TxTokenDataVersion2 * TxBase M) :=
  match tkd_TxNormal d with
  | TransactionOf2 t => Ok (mkTokenData2 (tkd_PropertyID d) (tkd_PropertyName d) (tkd_PropertySymbol d) None None None (tkd_Type d) (tkd_Mintable d), t)
  | TransactionOf1 _ => Err "error while casting a transaction to v2"
  end.

(** ** Token transactions *)

Record TxToken := mkTxToken {
  tok_Tx : TxBase M;
  tok_TokenData : TxTokenDataVersion2;
  tok_cachedTxNormal : option (TxBase M) }.

Definition TxToken_new : TxToken := mkTxToken TxBase_new TokenData2_new None.

Definition tok_setTx (v : TxBase M) (k : TxToken) : TxToken := mkTxToken v (tok_TokenData k) (tok_cachedTxNormal k).
Definition tok_setData (f : TxTokenDataVersion2 -> TxTokenDataVersion2) (k : TxToken) : TxToken :=
  mkTxToken (tok_Tx k) (f (tok_TokenData k)) (tok_cachedTxNormal k).

(** [makeTxToken]: the token part; [nil] when the proof cannot be cloned, which is done
    by writing it as JSON and parsing that. *)
Definition makeTxToken (txPRV : TxBase M) (pubKey sig : option (list Z)) (proof : option PaymentProof) : res (option (TxBase M)) :=
  let proofType := if (tx_Type txPRV =? TxTokenConversionType)%string then TxConversionType else tx_Type txPRV in
  match (let* text := optional_text proof in ParseProof text (tx_Version txPRV) proofType) with
  | Ok cloned => Ok (Some (mkTxBase (tx_Version txPRV) (tx_Type txPRV) (tx_LockTime txPRV) 0 (tx_Info txPRV) pubKey sig cloned
                             (GetShardIDFromLastByte (tx_PubKeyLastByteSender txPRV)) None None))
  | Err _ => Ok None
  | Panic => Panic
  | OutOfFuel => OutOfFuel
  end.

(** The methods of the result panic when it is [nil]. *)
Definition GetTxNormal (k : TxToken) : res (TxBase M) :=
  match tok_cachedTxNormal k with
  | Some t => Ok t
  | None =>
      let d := tok_TokenData k in
      let* o := makeTxToken (tok_Tx k) (td_SigPubKey d) (td_Sig d) (td_Proof d) in
      deref o
  end.

Definition TxToken_SetTxBase (v : Transaction) (k : TxToken) : TxToken * res unit :=
  match v with
  | TransactionOf2 t => (tok_setTx t k, Ok tt)
  | TransactionOf1 _ => (k, Err "cannot set TxBase: wrong type")
  end.

Definition TxToken_SetTxNormal (v : Transaction) (k : TxToken) : TxToken * res unit :=
  match v with
  | TransactionOf2 t =>
      (mkTxToken (tok_Tx k) (td_setSigned (tx_SigPubKey t) (tx_Sig t) (tx_Proof t) (tok_TokenData k)) (Some t), Ok tt)
  | TransactionOf1 _ => (k, Err "cannot set TxNormal: wrong type")
  end.

Definition TxToken_SetTxTokenData (v : TxTokenData) : st TxToken unit :=
  let! dt := st_lift (decomposeTokenData v) in
  let '(d, t) := dt in
  let! _ := st_put (tok_setData (fun _ => d)) in
  TxToken_SetTxNormal (TransactionOf2 t).

(** *** Hashes and JSON *)

Definition TxToken_Hash (k : TxToken) : res (option (list Z)) :=
  let* firstHash := Tx_Hash (tok_Tx k) in
  match TokenData2_Hash (tok_TokenData k) with
  | Ok secondHash => let* h := deref firstHash in Ok (Some (HashH (h ++ secondHash)))
  | Err _ => Ok None
  | Panic => Panic
  | OutOfFuel => OutOfFuel
  end.

Definition TxToken_HashWithoutMetadataSig (k : TxToken) : res (option (list Z)) := Tx_HashWithoutMetadataSig (tok_Tx k).

Definition TxToken_MarshalJSON (k : TxToken) : res (list Z) :=
  let* tx := tx_MarshalJSON (tok_Tx k) in
  let* d := TokenData2_MarshalJSON (tok_TokenData k) in
  holder_marshal (tx, d).

Definition TxToken_GetTxActualSize (k : TxToken) : res Z :=
  match TxToken_MarshalJSON k with
  | Ok b => Ok (kilobytes (Z.of_nat (length b)))
  | Err _ => Ok 0
  | Panic => Panic
  | OutOfFuel => OutOfFuel
  end.

(** Which proof the token data hold, by the type of the fee part, which is a part
    of version 2. *)
Definition fresh_token_proof (t : TxBase M) : res PaymentProof :=
  if (tx_Type t =? TxTokenConversionType)%string then
    if tx_Version t =? 2 then Ok (ProofOfConversion (ConversionProof_Init ConversionProof_new)) else Err "wrong proof version"
  else if (tx_Type t =? TxCustomTokenPrivacyType)%string then
    if tx_Version t =? 2 then Ok (ProofOf2 (ProofV2_Init ProofV2_new)) else Err "wrong proof version"
  else Err "wrong proof type".

(** [json.Unmarshal] of the token data: absent members stay as they are, and the proof
    is read into [fresh]. *)
Definition TokenData2_UnmarshalJSON (data : list Z) (fresh : PaymentProof) (d : TxTokenDataVersion2) : res TxTokenDataVersion2 :=
  let* j := td_unmarshal data in
  let* proof := match dj_Proof j with None => Ok None | Some text => let* p := Proof_UnmarshalJSON text fresh in Ok (Some p) end in
  Ok (mkTokenData2 (dj_PropertyID j) (dj_PropertyName j) (dj_PropertySymbol j)
        (match dj_SigPubKey j with Some b => Some b | None => td_SigPubKey d end)
        (match dj_Sig j with Some b => Some b | None => td_Sig d end) proof (dj_Type j) (dj_Mintable j)).

(** What a transaction whose parsing failed holds is not described. *)
Definition TxToken_UnmarshalJSON (data : list Z) (k : TxToken) : res TxToken :=
  let* (rawTx, rawData) := holder_unmarshal data in
  let* t := TxBase_UnmarshalJSON rawTx (tok_Tx k) in
  let* fresh := fresh_token_proof t in
  let* d := TokenData2_UnmarshalJSON rawData fresh (tok_TokenData k) in
  let* normal := makeTxToken t (td_SigPubKey d) (td_Sig d) (td_Proof d) in
  Ok (mkTxToken t d normal).

(** *** Receivers, burning and minting *)

Definition TxToken_GetReceiverData (k : TxToken) : list (option Coin) :=
  match tx_Proof (tok_Tx k) with Some p => Proof_GetOutputCoins p | None => [] end.

Definition TxToken_GetTransferData (k : TxToken) : res (bool * option (list Z) * Z * list Z) :=
  let* t := GetTxNormal k in
  let* l := GetReceivers t in
  let id := td_PropertyID (tok_TokenData k) in
  match l with [(pk, v)] => Ok (true, Some pk, v, id) | _ => Ok (false, None, 0, id) end.

Definition TxToken_GetTxTokenData (k : TxToken) : res TxTokenData :=
  let* t := GetTxNormal k in Ok (ToCompatTokenData (TransactionOf2 t) (tok_TokenData k)).

Definition TxToken_GetTxMintData (k : TxToken) : res (bool * option Coin * list Z) :=
  let* t := GetTxNormal k in
  GetTxMintData (Tx_GetReceiverData t) (tx_Proof t) (td_PropertyID (tok_TokenData k)).

Definition TxToken_GetTxBurnData (k : TxToken) : res (bool * option Coin * list Z) :=
  let* t := GetTxNormal k in
  let* (isBurn, burnCoin, _) := Tx_GetTxBurnData t in
  Ok (isBurn, burnCoin, td_PropertyID (tok_TokenData k)).

(** The error of one part is dropped when the other has none: that part then counts as
    one that burns nothing. *)
Definition TxToken_GetTxFullBurnData (k : TxToken) : res (bool * option Coin * option Coin * option (list Z)) :=
  let token := TxToken_GetTxBurnData k in
  let prv := Tx_GetTxBurnData (tok_Tx k) in
  match token, prv with
  | Ok (isBurnToken, burnToken, id), Ok (isBurnPrv, burnPrv, _) => Ok (isBurnPrv || isBurnToken, burnPrv, burnToken, Some id)
  | Ok (isBurnToken, burnToken, id), Err _ => Ok (isBurnToken, None, burnToken, Some id)
  | Err _, Ok (isBurnPrv, burnPrv, _) => Ok (isBurnPrv, burnPrv, None, Some (td_PropertyID (tok_TokenData k)))
  | Err m, Err _ => Err m
  | Panic, _ => Panic
  | OutOfFuel, _ => OutOfFuel
  | _, Panic => Panic
  | _, OutOfFuel => OutOfFuel
  end.

(** *** Values, kinds, lists of hashes *)

Definition TxToken_CheckTxVersion (maxTxVersion : Z) (k : TxToken) : bool := negb (maxTxVersion <? tx_Version (tok_Tx k)).

Definition TxToken_IsSalaryTx (k : TxToken) : res bool :=
  if negb (tx_Type (tok_Tx k) =? TxRewardType)%string then Ok false
  else let* p := deref (td_Proof (tok_TokenData k)) in Ok (length (Proof_GetInputCoins p) =? 0)%nat.

Definition TxToken_IsPrivacy (k : TxToken) : res bool := TxBase_IsPrivacy (tok_Tx k).

Definition TxToken_CalculateTxValue (k : TxToken) : res Z :=
  let* t := GetTxNormal k in
  match tx_Proof t with
  | None => Ok 0
  | Some p =>
      match Proof_GetOutputCoins p, Proof_GetInputCoins p with
      | [], _ => Ok 0
      | outs, [] => sum_coins None 0 outs
      | outs, _ => let* b := TxBase_IsPrivacy t in if b then Ok 0 else sum_coins None 0 outs
      end
  end.

Definition proof_hashes (hashes : PaymentProof -> res (list (list Z))) (p : option PaymentProof) : res (list (list Z)) :=
  match p with None => Ok [] | Some p => hashes p end.

(** The hashes of both parts, sorted. *)
Definition both_hashes (hashes : PaymentProof -> res (list (list Z))) (k : TxToken) : res (list (list Z)) :=
  let* l1 := proof_hashes hashes (tx_Proof (tok_Tx k)) in
  let* t := GetTxNormal k in
  let* l2 := proof_hashes hashes (tx_Proof t) in
  Ok (sort_hashes (l1 ++ l2)).

Definition TxToken_ListSerialNumbersHashH (k : TxToken) : res (list (list Z)) :=
  both_hashes (fun p => res_map key_image_hash (Proof_GetInputCoins p)) k.
Definition TxToken_ListOTAHashH (k : TxToken) : res (list (list Z)) :=
  both_hashes (fun p => ota_hashes (Proof_GetOutputCoins p)) k.

(** ** Init *)

(** [TxTokenParams], whose shard is never read. *)
Record TxTokenParams := mkTxTokenParams {
  ttp_SenderKey : option (list Z); ttp_PaymentInfo : list (option PaymentInfo); ttp_InputCoin : list PlainCoin;
  ttp_FeeNativeCoin : Z; ttp_TokenParams : option TokenParam; ttp_MetaData : option M;
  ttp_HasPrivacyCoin : bool; ttp_HasPrivacyToken : bool; ttp_Info : option (list Z); ttp_KvArgs : kv_args }.

(** The parameters of the fee part and of the token part. *)
Definition fee_params (p : TxTokenParams) : TxPrivacyInitParams M :=
  NewTxPrivacyInitParams (ttp_SenderKey p) (ttp_PaymentInfo p) (ttp_InputCoin p) (ttp_FeeNativeCoin p) (ttp_HasPrivacyCoin p) None
    (ttp_MetaData p) (ttp_Info p) (ttp_KvArgs p).
Definition token_params (p : TxTokenParams) (tp : TokenParam) (propertyID : list Z) : TxPrivacyInitParams M :=
  NewTxPrivacyInitParams (ttp_SenderKey p) (tk_Receiver tp) (tk_TokenInput tp) 0 (ttp_HasPrivacyToken p) (Some propertyID) None None (tk_KvArgs tp).

Section init.
Context (fuel : nat) (aggParam : bulletproofParams).

(** [proveToken]: the state is the global commitment scheme of the range proof over
    asset tags, and the token part.  The result says whether a coin is burnt. *)
Definition proveToken (R : TxRandomness) (params : TxPrivacyInitParams M) : st (list (list Z) * TxBase M) bool := fun '(G, t) =>
  match (let! params := st_lift (ValidateTxParams params) in
         let! params := InitializeTxAndParams (tr_now R) (tr_int64 R) params in
         let! _ := st_put (tx_SetType TxCustomTokenPrivacyType) in
         st_ret params) t with
  | (t, Ok params) => proveCA aggParam R params (G, t)
  | (t, Err m) => ((G, t), Err m)
  | (t, Panic) => ((G, t), Panic)
  | (t, OutOfFuel) => ((G, t), OutOfFuel)
  end.

Definition set_token_names (tp : TokenParam) (d : TxTokenDataVersion2) : TxTokenDataVersion2 :=
  mkTokenData2 (td_PropertyID d) (tk_PropertyName tp) (tk_PropertySymbol tp) (td_SigPubKey d) (td_Sig d) (td_Proof d)
    (tk_TokenTxType tp) (tk_Mintable tp).

Definition initToken (R : TxRandomness) (txNormal : option (TxBase M)) (params : TxTokenParams) (tp : TokenParam)
    : st (list (list Z) * TxToken) unit := fun '(G, k) =>
  let k := tok_setData (set_token_names tp) k in
  if tk_TokenTxType tp =? CustomTokenInit then ((G, k), Err "wrong method for initializing a token, use metadata instead")
  else if tk_TokenTxType tp =? CustomTokenTransfer then
    match (let* id := Hash_NewHashFromStr zero_hash (tk_PropertyID tp) in
           let* t := deref txNormal in Ok (id, t)) with
    | Ok (propertyID, t) =>
        match proveToken R (token_params params tp propertyID) (G, t) with
        | ((G, t), Ok isBurning) =>
            let id := if isBurning then propertyID else ConfidentialAssetID in
            let '(k, r) := TxToken_SetTxNormal (TransactionOf2 t) (tok_setData (td_setPropertyID id) k) in
            ((G, k), r)
        | ((G, _), Err m) => ((G, k), Err m)
        | ((G, _), Panic) => ((G, k), Panic)
        | ((G, _), OutOfFuel) => ((G, k), OutOfFuel)
        end
    | Err m => ((G, k), Err m)
    | Panic => ((G, k), Panic)
    | OutOfFuel => ((G, k), OutOfFuel)
    end
  else ((G, k), Err "can't handle this TokenTxType").

(** [initPRV] *)
Definition initPRV (R : TxRandomness) (params : TxPrivacyInitParams M) : st (TxBase M) (list PlainCoin * list CoinV2) :=
  let! _ := st_put (tx_SetType TxCustomTokenPrivacyType) in
  provePRV fuel aggParam R params.

(** The fee part up to its proof; [None] when it has neither inputs nor a fee. *)
Definition fee_part (R : TxRandomness) (params : TxPrivacyInitParams M)
    : st (TxBase M) (option (TxPrivacyInitParams M * (list PlainCoin * list CoinV2))) :=
  let! params := st_lift (ValidateTxParams params) in
  let! params := InitializeTxAndParams (tr_now R) (tr_int64 R) params in
  let! check := IsNonPrivacyNonInput (tr_schnorr R) params in
  if check then st_ret None
  else let! coins := initPRV R params in st_ret (Some (params, coins)).

(** The signature of the fee part on the hash of both, the last step. *)
Definition sign_both (R : TxRandomness) (tx : TxBase M) (params : TxPrivacyInitParams M) (ins : list PlainCoin) (outs : list CoinV2)
    : st TxToken unit := fun k =>
  match (let* tdh := TokenData2_Hash (tok_TokenData k) in
         let* h := Tx_HashBytes tx in
         Ok (HashH (h ++ tdh))) with
  | Ok message =>
      match signOnMessage R ins outs params message tx with
      | (tx, Ok _) =>
          (let! _ := TxToken_SetTxBase (TransactionOf2 tx) in
           fun k => (k, let* txSize := TxToken_GetTxActualSize k in
                        if MaxTxSize <? txSize then Err "Can not exceed tx size" else Ok tt)) k
      | (_, Err m) => (k, Err m)
      | (_, Panic) => (k, Panic)
      | (_, OutOfFuel) => (k, OutOfFuel)
      end
  | Err m => (k, Err m)
  | Panic => (k, Panic)
  | OutOfFuel => (k, OutOfFuel)
  end.

(** [RP] is what is drawn for the fee part and [RT] for the token part.  The state is
    the global commitment scheme and the transaction. *)
Definition TxToken_Init (RP RT : TxRandomness) (params : TxTokenParams) : st (list (list Z) * TxToken) unit := fun '(G, k) =>
  match ttp_TokenParams params with
  | None => ((G, k), Panic)
  | Some tp =>
      if (0 <? tk_Fee tp) || (ttp_FeeNativeCoin params =? 0) then ((G, k), Err "only accept tx fee in PRV")
      else
        match fee_part RP (fee_params params) TxBase_new with
        | (tx, Ok (Some (feeParams, (ins, outs)))) =>
            match makeTxToken tx None None None with
            | Ok txn =>
                match initToken RT txn params tp (G, k) with
                | ((G, k), Ok _) => let '(k, r) := sign_both RP tx feeParams ins outs k in ((G, k), r)
                | r => r
                end
            | Err m => ((G, k), Err m)
            | Panic => ((G, k), Panic)
            | OutOfFuel => ((G, k), OutOfFuel)
            end
        | (_, Ok None) => ((G, k), Ok tt)
        | (_, Err m) => ((G, k), Err m)
        | (_, Panic) => ((G, k), Panic)
        | (_, OutOfFuel) => ((G, k), OutOfFuel)
        end
  end.
End init.
End token.
Arguments TxToken : clear implicits. Arguments TxTokenParams : clear implicits. Arguments Transaction : clear implicits.
Arguments TxTokenData : clear implicits.

(** ** A token transaction goes through *)

Section proofs.
Context `{CL : CurveLaws} `{DL : DigestLaws} `{LL : LRULaws} `{AA : AllocatorLaws} `{HD : HDWallet} `{BL : BlockCipherLaws}.
Context (a h : list Z) (Eh : index PedG PedersenRandomnessIndex = Ok h) (Ha : pt_ok a) (Hh : pt_ok h).
Context (g : list Z) (Eg : index PedG PedersenValueIndex = Ok g) (Hg : pt_ok g).
Context {M : Type} `{MO : MetadataOps M} `{JL : TxCodecLaws M} `{KL : TokenCodecLaws}.
Implicit Type t : TxBase M.
Context (fuel : nat) (aggParam : bulletproofParams) (RP RT : TxRandomness).

(** What the token part is given: coins of the token that the sender owns, payments that
    they cover, and decoys with asset tags. *)
Record token_inputs (tp : TokenParam) (id sk : list Z) (ins : list (CoinV2 * Z)) (xs : list (list Z)) (infos : list PaymentInfo)
    (my : list Z) (pi : nat) : Prop := mkTokenInputs {
  ti_kind : tk_TokenTxType tp = CustomTokenTransfer /\ tk_Fee tp = 0;
  ti_id : Hash_NewHashFromStr zero_hash (tk_PropertyID tp) = Ok id /\ HashToPoint id = Some a;
  ti_infos : tk_Receiver tp = map Some infos;
  ti_payable : Forall payable_info infos;
  ti_count : (1 <= length infos < MaxOutputCoin)%nat;
  ti_ins : tk_TokenInput tp = map PlainV2 (map fst ins);
  ti_owned : spendable_CA a h sk ins xs;
  ti_in_count : (1 <= length ins < 254)%nat;
  ti_ring : exists rp cs pks ts, ring_kv_CA (length ins) (tk_KvArgs tp) my rp cs pks ts;
  ti_pi : tr_pi RT = Ok pi /\ (pi < RingSize)%nat;
  ti_balance : zsum (map pi_Amount infos) <= values_of ins < 2 ^ 63 }.

Lemma opens_values ins : Forall opens ins ->
  Forall2 (fun c v => PlainCoin_GetValue c = Ok v) (map PlainV2 ins) (map coin_value ins).
Proof using CL DL.
  induction 1 as [|c ins Hc Hi IH]; constructor; [|exact IH]. exact (opens_value c Hc).
Qed.

Lemma values_coins (ins : list (CoinV2 * Z)) : values (map fst ins) = values_of ins.
Proof using Type. unfold values, values_of. by rewrite map_map. Qed.

(** The change of the token part goes back to the sender, too. *)
Lemma token_change_ok tp id sk ins xs infos my pi ks : token_inputs tp id sk ins xs infos my pi ->
  payable_info (mkPaymentInfo (ks_PaymentAddress ks) (values_of ins - zsum (map pi_Amount infos)) []) ->
  let infos' := with_change ks infos (values_of ins - zsum (map pi_Amount infos)) in
  Forall payable_info infos' /\ (1 <= length infos' <= MaxOutputCoin)%nat /\ values_of ins = zsum (map pi_Amount infos').
Proof using Type.
  intros Ht Hch infos'. pose proof (ti_balance _ _ _ _ _ _ _ _ Ht) as Hbal. pose proof (ti_count _ _ _ _ _ _ _ _ Ht) as Hc.
  unfold infos', with_change. set (change := values_of ins - _) in *. rewrite length_app, map_app, zsum_app, Forall_app.
  destruct (Z.ltb_spec 0 change).
  - split; [split; [apply (ti_payable _ _ _ _ _ _ _ _ Ht)|by apply Forall_singleton]|]. unfold zsum in *. cbn [map foldr length pi_Amount].
    split; [lia|unfold change; lia].
  - split; [split; [apply (ti_payable _ _ _ _ _ _ _ _ Ht)|constructor]|]. unfold zsum in *. cbn [map foldr length]. split; [lia|unfold change in *; lia].
Qed.

(** *** The token part *)

(** The parameters of the token part once the change is added. *)
Definition token_final (params : TxTokenParams M) (tp : TokenParam) (id : list Z) (infos : list PaymentInfo) : TxPrivacyInitParams M :=
  tp_setPaymentInfo (map Some infos) (token_params params tp id).

(** The token part before its proof, from the fee part [t]. *)
Definition token_start (params : TxTokenParams M) (tp : TokenParam) (id sk : list Z) (b : Z) t : TxBase M :=
  tx_SetType TxCustomTokenPrivacyType (initialized RT (token_params params tp id) sk b t).

Lemma proveToken_start params tp id sk ins xs infos my pi ks b G t : token_inputs tp id sk ins xs infos my pi ->
  ttp_SenderKey params = Some sk -> KeySet_InitFromPrivateKey (Some sk) = Ok ks -> last_byte (pa_Pk (ks_PaymentAddress ks)) = Ok b ->
  proveToken aggParam RT (token_params params tp id) (G, t) =
    proveCA aggParam RT (token_final params tp id (with_change ks infos (values_of ins - zsum (map pi_Amount infos))))
      (G, token_start params tp id sk b t).
Proof using CL DL.
  intros Ht Esk Eks Eb. pose proof (ti_balance _ _ _ _ _ _ _ _ Ht) as Hbal. pose proof (ti_count _ _ _ _ _ _ _ _ Ht) as Hc.
  pose proof (ti_in_count _ _ _ _ _ _ _ _ Ht) as Hi. pose proof (payable_sum infos (ti_payable _ _ _ _ _ _ _ _ Ht)) as Hpos.
  unfold proveToken, st_bind, st_lift, st_put, st_ret.
  assert (ValidateTxParams (token_params params tp id) = Ok (token_params params tp id)) as ->.
  { unfold ValidateTxParams. cbn [token_params NewTxPrivacyInitParams tp_InputCoins tp_PaymentInfo tp_TokenID].
    rewrite (ti_ins _ _ _ _ _ _ _ _ Ht), (ti_infos _ _ _ _ _ _ _ _ Ht), !length_map.
    by rewrite !(proj2 (Nat.ltb_ge _ _)) by (unfold MaxOutputCoin in *; lia). }
  rewrite (InitializeTxAndParams_ok RT (token_params params tp id) sk (map fst ins) infos ks b t); try assumption.
  - rewrite values_coins. cbn [token_params NewTxPrivacyInitParams tp_Fee]. rewrite Z.sub_0_r. reflexivity.
  - exact (ti_ins _ _ _ _ _ _ _ _ Ht).
  - destruct ins; [cbn in Hi; lia|discriminate].
  - apply opens_values, (ti_owned _ _ _ _ _ _ _ _ Ht).
  - exact (ti_infos _ _ _ _ _ _ _ _ Ht).
  - cbn. unfold MaxSizeInfo. lia.
  - rewrite values_coins. cbn [token_params NewTxPrivacyInitParams tp_Fee]. lia.
Qed.

Lemma token_final_ok params tp id sk ins xs infos my pi infos' : token_inputs tp id sk ins xs infos my pi ->
  ttp_SenderKey params = Some sk -> Forall payable_info infos' -> (1 <= length infos' <= MaxOutputCoin)%nat ->
  values_of ins = zsum (map pi_Amount infos') ->
  token_transfer a h RT (token_final params tp id infos') id sk ins xs infos' my pi.
Proof using Type.
  intros [? [? ?] ? ? ? ? ? ? ? ? ?] Esk Hp Hl Hv. by constructor.
Qed.

Lemma token_text d : (exists r, p2_range d = Some r) -> payment2_ok d ->
  optional_text (Some (ProofOf2 (proof2_of 2 None d))) = Ok (Some (base64_encode (payment2_enc d))).
Proof using CL.
  intros (r & Er) Hd. unfold optional_text, proof_text. cbn [Proof_Bytes].
  replace (proof2_of 2 None d) with (proof2_of 2 (Some RangeProof_new) d) by (unfold proof2_of; by rewrite Er).
  by rewrite payment2_bytes.
Qed.

(** Token data whose proof can be written can be written and hashed. *)
Lemma token_data_marshal text (td : TxTokenDataVersion2) : optional_text (td_Proof td) = Ok text -> exists b, TokenData2_MarshalJSON td = Ok b /\
    (ascii (td_PropertyName td) -> ascii (td_PropertySymbol td) -> td_unmarshal b =
      Ok (mkTdJson (td_PropertyID td) (td_PropertyName td) (td_PropertySymbol td) (omit (td_SigPubKey td)) (omit (td_Sig td))
            text (td_Type td) (td_Mintable td))).
Proof using KL.
  intros Et. unfold TokenData2_MarshalJSON. rewrite Et. cbn [res_bind].
  set (j := mkTdJson _ _ _ _ _ _ _ _). destruct (td_total j) as [b Eb]. exists b. split; [exact Eb|]. intros Hn Hs. by apply td_codec.
Qed.

Lemma token_data_hash text (td : TxTokenDataVersion2) : optional_text (td_Proof td) = Ok text ->
  exists b, TokenData2_Hash td = Ok b /\ length b = 32%nat /\ bytes_ok b.
Proof using DL KL.
  intros Et. unfold TokenData2_Hash.
  destruct (token_data_marshal text (td_setSigned (Some []) (Some []) (td_Proof td) td) Et) as (b & Eb & _). rewrite Eb.
  exists (HashH b). split; [reflexivity|]. destruct (sha3_ok b) as [Hl Hb]. by split.
Qed.

(** *** The fee part *)

Definition fee_start (params : TxTokenParams M) (sk : list Z) (b : Z) : TxBase M :=
  tx_SetType TxCustomTokenPrivacyType (start_tx RP (fee_params params) sk b).

Definition fee_final (params : TxTokenParams M) (infos : list PaymentInfo) : TxPrivacyInitParams M :=
  tp_setPaymentInfo (map Some infos) (tp_setTokenID (Some PRVCoinID) (fee_params params)).

Lemma fee_part_ok params sk ins xs infos my pi ks b : drawn fuel aggParam RP -> transfer g h RP (fee_params params) sk ins xs infos my pi ->
  KeySet_InitFromPrivateKey (Some sk) = Ok ks -> last_byte (pa_Pk (ks_PaymentAddress ks)) = Ok b ->
  GetSenderShard (fee_params params) = Ok (GetShardIDFromLastByte b) ->
  let infos' := with_change ks infos (values ins - zsum (map pi_Amount infos) - ttp_FeeNativeCoin params) in
  Forall payable_info infos' -> (length infos' <= MaxOutputCoin)%nat ->
  let r := fee_part fuel aggParam RP (fee_params params) TxBase_new in
  (snd r = OutOfFuel /\ exists j info, infos' !! j = Some info /\ still_searching fuel (GetShardIDFromLastByte b) (tr_shared RP j) info) \/
  (exists outs p d, r = (tx_SetProof (Some (ProofOf2 p)) (fee_start params sk b), Ok (Some (fee_final params infos', (map PlainV2 ins, outs)))) /\
     Forall2 (delivered g h) infos' outs /\ proved g h aggParam ins outs (map Some infos') p /\
     p = proof2_of 2 None d /\ (exists r, p2_range d = Some r) /\ payment2_ok d).
Proof using CL DL LL AA HD BL JL Eg Eh Hg Hh.
  intros Hd Ht Eks Eb Esh infos' Hpay Hlen. cbv zeta. apply (transfer_token g h RP (Some PRVCoinID)) in Ht as Ht1.
  assert (ValidateTxParams (fee_params params) = Ok (tp_setTokenID (Some PRVCoinID) (fee_params params))) as Ev.
  { destruct (validated g h RP (fee_params params) sk ins xs infos my pi Ht) as (v & E). unfold ValidateTxParams in *.
    destruct (255 <? length _)%nat; [discriminate|]. by destruct (254 <? length _)%nat. }
  assert (fee_part fuel aggParam RP (fee_params params) TxBase_new =
    (let! coins := provePRV fuel aggParam RP (fee_final params infos') in st_ret (Some (fee_final params infos', coins))) (fee_start params sk b)) as ->.
  { unfold fee_part. rewrite (st_bind_lift _ _ _ _ Ev). unfold st_bind at 1.
    rewrite (start_ok' g h Eg Eh Hg Hh RP _ sk ins xs infos my pi ks b Ht1 Eks Eb). change (tp_Fee (tp_setTokenID _ _)) with (ttp_FeeNativeCoin params).
    fold infos' (fee_final params infos'). unfold st_bind at 1, IsNonPrivacyNonInput.
    change (tp_InputCoins (fee_final params infos')) with (tp_InputCoins (fee_params params)). rewrite (tf_ins _ _ _ _ _ _ _ _ _ _ Ht), length_map.
    pose proof (tf_in_count _ _ _ _ _ _ _ _ _ _ Ht). rewrite (proj2 (Nat.eqb_neq _ _)) by lia. reflexivity. }
  destruct (provePRV_spec g h Eg Eh Hg Hh fuel aggParam RP _ sk ins xs infos my pi infos' _ (fee_start params sk b) Hd Ht1 Hpay Hlen eq_refl Esh)
    as [[E Hs]|(outs & p & d & E & Hrest)]; fold (fee_final params infos') in E; unfold st_bind.
  - left. split; [|exact Hs]. by destruct (provePRV _ _ _ _ _) as [? []].
  - right. exists outs, p, d. rewrite E. split; [reflexivity|exact Hrest].
Qed.

(** *** Both parts *)

(** The token part that a reader builds from a transaction. *)
Definition rebuilt (k : TxToken M) : res (option (TxBase M)) :=
  makeTxToken (tok_Tx k) (td_SigPubKey (tok_TokenData k)) (td_Sig (tok_TokenData k)) (td_Proof (tok_TokenData k)).

(** The fee part of a finished token transaction, signed on [message]. *)
Definition fee_transferred (fee : Z) (ins outs : list CoinV2) (infos : list PaymentInfo) (my : list Z) (pi : nat)
    (message : list Z) t : Prop :=
  Forall2 (delivered g h) infos outs /\ values ins = values outs + fee /\
  (exists p, tx_Proof t = Some (ProofOf2 p) /\ proved g h aggParam ins outs (map Some infos) p) /\ signed ins my pi message t.

(** The token part: a finished token transfer, whose signature and proof the token data
    hold, under the identifier of the token if it is burnt.  What a reader builds has
    the hash that was signed when the transaction has no info. *)
Definition token_transferred (params : TxTokenParams M) (id : list Z) (ins : list (CoinV2 * Z)) (l : list (CoinV2 * Z * option (list Z)))
    (infos : list PaymentInfo) (my : list Z) (pi : nat) (base : list Z) (k : TxToken M) : Prop :=
  exists n, tok_cachedTxNormal k = Some n /\ transferred_CA a h aggParam ins l infos my pi base n /\
    td_PropertyID (tok_TokenData k) = (if (burnt_count (map snd l) =? 1)%nat then id else ConfidentialAssetID) /\
    td_SigPubKey (tok_TokenData k) = tx_SigPubKey n /\ td_Sig (tok_TokenData k) = tx_Sig n /\ td_Proof (tok_TokenData k) = tx_Proof n /\
    exists n', rebuilt k = Ok (Some n') /\ (default [] (ttp_Info params) = [] -> Tx_HashBytes n' = Tx_HashBytes n).

(** The token data when the token part is done. *)
Definition data_final (tp : TokenParam) (id : list Z) (burnt : bool) (n : TxBase M) (d : TxTokenDataVersion2) : TxTokenDataVersion2 :=
  td_setSigned (tx_SigPubKey n) (tx_Sig n) (tx_Proof n)
    (td_setPropertyID (if burnt then id else ConfidentialAssetID) (set_token_names tp d)).

Lemma initToken_ok params tp id sk ins xs infos my pi ks b G k t : drawn fuel aggParam RT -> token_inputs tp id sk ins xs infos my pi ->
  ttp_SenderKey params = Some sk -> KeySet_InitFromPrivateKey (Some sk) = Ok ks -> last_byte (pa_Pk (ks_PaymentAddress ks)) = Ok b ->
  index G PedersenRandomnessIndex = Ok h -> tx_Sig t = None ->
  let infos' := with_change ks infos (values_of ins - zsum (map pi_Amount infos)) in
  Forall payable_info infos' -> (1 <= length infos' <= MaxOutputCoin)%nat -> values_of ins = zsum (map pi_Amount infos') ->
  let shard := GetShardIDFromLastByte b in
  GetSenderShard (token_final params tp id infos') = Ok shard ->
  let r := initToken aggParam RT (Some t) params tp (G, k) in
  (snd r = Err "cannot create OTA" /\ exists j info, infos' !! j = Some info /\ no_address shard (tr_shared RT j) info) \/
  (exists l, outputs_CA a h infos' l /\
    ((2 <= burnt_count (map snd l))%nat /\ snd r = Err "output must not have more than 1 burned coin" \/
     exists base p pk ks' sig, let n := finished p pk ks' sig (token_start params tp id sk b t) in
       r = ((<[PedersenValueIndex := base]> G, mkTxToken (tok_Tx k) (data_final tp id (burnt_count (map snd l) =? 1)%nat n (tok_TokenData k)) (Some n)), Ok tt) /\
       transferred_CA a h aggParam ins l infos' my pi base n)).
Proof using All.
  intros Hd Ht Esk Eks Eb HG Es infos' Hpay Hlen Hval shard Esh. cbv zeta. unfold initToken. destruct (ti_kind _ _ _ _ _ _ _ _ Ht) as [Ekind _].
  destruct (ti_id _ _ _ _ _ _ _ _ Ht) as [Eid Epoint]. rewrite Ekind, Eid. cbn [res_bind deref Z.eqb CustomTokenTransfer CustomTokenInit Pos.eqb].
  rewrite (proveToken_start params tp id sk ins xs infos my pi ks b G t Ht Esk Eks Eb). fold infos'.
  pose proof (token_final_ok params tp id sk ins xs infos my pi infos' Ht Esk Hpay Hlen Hval) as Htr.
  destruct (new_outputs_CA_spec a h Eh Ha Hh g Eg Hg RT id (token_final params tp id infos') shard infos' Epoint (dr_coins _ _ _ Hd) eq_refl Esh Hpay 0)
    as [[E Hs]|(l & E & Hl)].
  - left. split; [|exact Hs]. unfold proveCA. change (tp_PaymentInfo (token_final params tp id infos')) with (map Some infos'). by rewrite E.
  - right. exists l. split; [exact Hl|].
    destruct (proveCA_run a h Eh Ha Hh g Eg Hg aggParam RT fuel _ id sk ins xs infos' my pi l G (token_start params tp id sk b t) Hd Htr E Hl Es HG)
      as [[Hb ->]|(base & p & pk & ks' & sig & -> & Hdone)]; [by left|]. right. exists base, p, pk, ks', sig. split; [reflexivity|exact Hdone].
Qed.

(** A transaction whose fee part carries the payment [d] and whose token data can be
    written. *)
Definition both_carry (d : payment2) (text : option (list Z)) (k : TxToken M) : Prop :=
  (tx_Proof (tok_Tx k) = Some (ProofOf2 (proof2_of 2 None d)) /\ (exists r, p2_range d = Some r) /\ payment2_ok d) /\
  optional_text (td_Proof (tok_TokenData k)) = Ok text.

Lemma token_size d text k : both_carry d text k -> exists size, TxToken_GetTxActualSize k = Ok size.
Proof using CL JL KL.
  intros [(Ep & Hr & Hd) EpT]. unfold TxToken_GetTxActualSize, TxToken_MarshalJSON.
  destruct (payment_marshal d (tok_Tx k) Ep Hr Hd) as (b & -> & _). destruct (token_data_marshal text (tok_TokenData k) EpT) as (bT & -> & _).
  cbn [res_bind]. destruct (holder_codec (b, bT)) as (bb & -> & _). by eexists.
Qed.

(** The message that the fee part signs is the hash of the whole. *)
Lemma token_message d text k : both_carry d text k -> exists hb tdh, Tx_HashBytes (tok_Tx k) = Ok hb /\ TokenData2_Hash (tok_TokenData k) = Ok tdh /\
  TxToken_Hash k = Ok (Some (HashH (hb ++ tdh))) /\ length (HashH (hb ++ tdh)) = 32%nat /\ bytes_ok (HashH (hb ++ tdh)).
Proof using CL DL JL KL.
  intros [(Ep & Hr & Hd) EpT]. destruct (payment_hash d (tok_Tx k) Ep Hr Hd) as (hb & Eb & _).
  destruct (token_data_hash text (tok_TokenData k) EpT) as (tdh & Et & _). exists hb, tdh. split; [exact Eb|]. split; [exact Et|].
  split; [|destruct (sha3_ok (hb ++ tdh)) as [Hl Hb]; by split].
  unfold TxToken_Hash. unfold Tx_HashBytes in Eb. destruct (Tx_Hash (tok_Tx k)) as [[hb'|]| | |]; try discriminate Eb. injection Eb as ->.
  cbn [res_bind]. by rewrite Et.
Qed.

Lemma sign_both_ok (fp : TxPrivacyInitParams M) sk ins xs infos my pi infos' outs p d text t k : drawn fuel aggParam RP ->
  transfer g h RP fp sk ins xs infos my pi -> Forall2 (delivered g h) infos' outs ->
  values ins = zsum (map pi_Amount infos') + tp_Fee fp -> p = proof2_of 2 None d -> tx_Sig t = None ->
  both_carry d text (tok_setTx (tx_SetProof (Some (ProofOf2 p)) t) k) ->
  exists pk ks sig size message, let k' := tok_setTx (finished p pk ks sig t) k in
    sign_both RP (tx_SetProof (Some (ProofOf2 p)) t) (tp_setPaymentInfo (map Some infos') fp) (map PlainV2 ins) outs k =
      (k', if MaxTxSize <? size then Err "Can not exceed tx size" else Ok tt) /\
    TxToken_GetTxActualSize k' = Ok size /\ TxToken_Hash k' = Ok (Some message) /\ signed ins my pi message (tok_Tx k').
Proof using All.
  intros Hd Ht Hdel Hval Epd Esig Hboth. destruct (token_message d text _ Hboth) as (hb & tdh & Eb & Et & Eh' & Lm & Hm). set (message := HashH (hb ++ tdh)) in *.
  set (t1 := tx_SetProof _ _) in *. cbn [tok_setTx tok_Tx tok_TokenData] in Eb, Et.
  destruct (sign_transfer g h Eg Eh Hg Hh fuel aggParam RP _ sk ins xs infos my pi infos' outs message t1 Hd Ht Hdel Hval Esig Lm Hm) as (pk & ks & sig & Es & Hs).
  change (tx_SetSig _ _) with (finished p pk ks sig t) in Es, Hs. set (t2 := finished p pk ks sig _) in *.
  assert (both_carry d text (tok_setTx t2 k)) as Hboth2 by exact Hboth.
  destruct (token_size d text _ Hboth2) as [size Esize]. exists pk, ks, sig, size, message. split; [|split; [exact Esize|split; [exact Eh'|exact Hs]]].
  unfold sign_both. rewrite Et. cbn [res_bind]. rewrite Eb. cbn [res_bind]. fold message. rewrite Es.
  unfold st_bind, TxToken_SetTxBase. by rewrite Esize.
Qed.

Lemma shard_twice b : is_byte b -> GetShardIDFromLastByte (GetShardIDFromLastByte b) = GetShardIDFromLastByte b.
Proof using Type.
  intros Hb. unfold is_byte in Hb. unfold GetShardIDFromLastByte. pose proof (Z.rem_bound_pos b MaxShardNumber ltac:(lia) ltac:(done)) as Hr.
  assert (u8 (Z.rem b MaxShardNumber) = Z.rem b MaxShardNumber) as E by (unfold u8; apply Z.mod_small; unfold MaxShardNumber in *; lia).
  by rewrite E, Z.rem_small by exact Hr.
Qed.

(** What a reader builds from a finished transaction. *)
Lemma rebuilt_ok params tp id sk b p pk ks sig pT pkT ksT sigT dT (burnt : bool) k0 : is_byte b ->
  pT = proof2_of 2 None dT -> (exists r, p2_range dT = Some r) -> payment2_ok dT ->
  tx_LockTime (fee_start params sk b) <> 0 ->
  let t1 := fee_start params sk b in
  let start := mkTxBase 2 TxCustomTokenPrivacyType (tx_LockTime t1) 0 (tx_Info t1) None None None (GetShardIDFromLastByte b) None None in
  let n := finished pT pkT ksT sigT (token_start params tp id sk b start) in
  let k := mkTxToken (finished p pk ks sig t1) (data_final tp id burnt n k0) (Some n) in
  exists n', rebuilt k = Ok (Some n') /\ (default [] (ttp_Info params) = [] -> Tx_HashBytes n' = Tx_HashBytes n).
Proof using CL.
  intros Hb -> HrT HdT Hlock t1 start n k. unfold rebuilt, makeTxToken.
  change (tx_Type (tok_Tx k)) with TxCustomTokenPrivacyType. change (TxCustomTokenPrivacyType =? TxTokenConversionType)%string with false. cbv iota.
  change (td_Proof (tok_TokenData k)) with (Some (ProofOf2 (proof2_of 2 None dT))). rewrite token_text by done. cbn [res_bind].
  change (tx_Version (tok_Tx k)) with 2. rewrite (carries_parse TxCustomTokenPrivacyType dT eq_refl HrT HdT).
  eexists. split; [reflexivity|]. intros Hinfo. change (tx_PubKeyLastByteSender (tok_Tx k)) with (GetShardIDFromLastByte b). rewrite shard_twice by done.
  unfold n. rewrite finished_hash. unfold token_start, initialized. cbn [start tx_LockTime]. rewrite (proj2 (Z.eqb_neq (tx_LockTime t1) 0) Hlock).
  change (tx_Info (tok_Tx k)) with (Some (default [] (ttp_Info params))). rewrite Hinfo. reflexivity.
Qed.

(** A finished token transaction is written as JSON and read back. *)
Definition writable (d dT : payment2) (k : TxToken M) : Prop :=
  both_carry d (Some (base64_encode (payment2_enc dT))) k /\
  td_Proof (tok_TokenData k) = Some (ProofOf2 (proof2_of 2 None dT)) /\ (exists r, p2_range dT = Some r) /\ payment2_ok dT /\
  tx_Version (tok_Tx k) = 2 /\ tx_Type (tok_Tx k) = TxCustomTokenPrivacyType /\
  ascii (td_PropertyName (tok_TokenData k)) /\ ascii (td_PropertySymbol (tok_TokenData k)) /\
  td_SigPubKey (tok_TokenData k) <> Some [] /\ td_Sig (tok_TokenData k) <> Some [].

(** C19: the JSON of a token transaction.  A transaction of which both parts carry a payment
    proof of version 2, with names in ASCII and with non-empty signatures, is read back
    from what is written of it, but for the private key, which is not written; the token
    part that is built while reading is the one that a reader of the original builds, and
    the hash of the whole is the same. *)
Theorem token_json d dT k : writable d dT k ->
  exists b k' n, TxToken_MarshalJSON k = Ok b /\ TxToken_UnmarshalJSON b TxToken_new = Ok k' /\
    k' = mkTxToken (tx_SetPrivateKey None (tok_Tx k)) (tok_TokenData k) (Some n) /\
    rebuilt k = Ok (Some n) /\ TxToken_Hash k' = TxToken_Hash k.
Proof using CL JL KL.
  intros ([(Ep & Hr & Hd) Etext] & EpT & HrT & HdT & Ever & Ety & Hname & Hsym & Hpk & Hsig).
  destruct (payment_marshal d (tok_Tx k) Ep Hr Hd) as (b1 & E1 & U1). destruct (token_data_marshal _ (tok_TokenData k) Etext) as (b2 & E2 & U2).
  specialize (U2 Hname Hsym). destruct (holder_codec (b1, b2)) as (b & E & U).
  assert (forall o : option (list Z), o <> Some [] -> omit o = o) as Homit by (intros [[|x o]|] Ho; done).
  rewrite (Homit _ Hpk), (Homit _ Hsig) in U2.
  assert (exists n, rebuilt k = Ok (Some n) /\
    makeTxToken (tx_SetPrivateKey None (tok_Tx k)) (td_SigPubKey (tok_TokenData k)) (td_Sig (tok_TokenData k)) (td_Proof (tok_TokenData k)) = Ok (Some n))
    as (n & En & En').
  { unfold rebuilt, makeTxToken. cbn [tx_SetPrivateKey tx_Type tx_Version]. rewrite Ety, Ever, EpT, token_text by done. cbn [res_bind].
    change (TxCustomTokenPrivacyType =? TxTokenConversionType)%string with false. cbv iota.
    rewrite (carries_parse TxCustomTokenPrivacyType dT eq_refl HrT HdT). eexists. by split. }
  exists b. eexists. exists n. split; [|split; [|split; [reflexivity|split; [exact En|reflexivity]]]].
  - unfold TxToken_MarshalJSON. by rewrite E1, E2.
  - unfold TxToken_UnmarshalJSON. rewrite U. cbn [res_bind]. unfold TxBase_UnmarshalJSON. rewrite U1. cbn [res_bind js_Type js_Proof js_Version].
    rewrite Ety, Ever. change (TxCustomTokenPrivacyType =? TxTokenConversionType)%string with false. cbv iota.
    rewrite (carries_parse TxCustomTokenPrivacyType d eq_refl Hr Hd). cbn [res_bind].
    unfold fresh_token_proof. cbn [tx_Type tx_Version js_LockTime js_Fee js_Info js_SigPubKey js_Sig js_PubKeyLastByteSender js_Metadata].
    change (TxCustomTokenPrivacyType =? TxTokenConversionType)%string with false. change (TxCustomTokenPrivacyType =? TxCustomTokenPrivacyType)%string with true.
    cbv iota. cbn [Z.eqb Pos.eqb res_bind]. unfold TokenData2_UnmarshalJSON. rewrite U2. cbn [res_bind dj_Proof]. rewrite read_payment by done.
    cbn [res_bind dj_PropertyID dj_PropertyName dj_PropertySymbol dj_SigPubKey dj_Sig dj_Type dj_Mintable tok_TokenData tok_Tx TxToken_new TokenData2_new td_SigPubKey td_Sig td_Proof].
    replace (mkTxBase _ _ _ _ _ _ _ _ _ _ _) with (tx_SetPrivateKey None (tok_Tx k)) by (unfold tx_SetPrivateKey; by rewrite Ever, Ety, Ep).
    replace (mkTokenData2 _ _ _ _ _ _ _ _) with (tok_TokenData k).
    2: { destruct (tok_TokenData k) as [id nm sy [pk|] [sg|] pr ty mi]; cbn in *; by subst pr. }
    cbn [td_SigPubKey td_Sig td_Proof].
    assert (forall x : option (list Z), match x with Some b => Some b | None => None end = x) as Hx by by intros [].
    rewrite !Hx, <- EpT, En'. reflexivity.
Qed.

(** Everything after the fee part. *)
Lemma token_rest params tp id sk pins pxs pinfos pmy ppi tins txs tinfos tmy tpi b infos outs p d G k :
  drawn fuel aggParam RP -> drawn fuel aggParam RT -> transfer g h RP (fee_params params) sk pins pxs pinfos pmy ppi ->
  token_inputs tp id sk tins txs tinfos tmy tpi -> index G PedersenRandomnessIndex = Ok h -> is_byte b ->
  tx_LockTime (fee_start params sk b) <> 0 -> Forall2 (delivered g h) infos outs ->
  values pins = zsum (map pi_Amount infos) + ttp_FeeNativeCoin params -> proved g h aggParam pins outs (map Some infos) p ->
  p = proof2_of 2 None d -> (exists r, p2_range d = Some r) -> payment2_ok d ->
  let tx1 := tx_SetProof (Some (ProofOf2 p)) (fee_start params sk b) in
  let start := mkTxBase 2 TxCustomTokenPrivacyType (tx_LockTime tx1) 0 (tx_Info tx1) None None None (GetShardIDFromLastByte b) None None in
  forall l base pT pkT ksT sigT tinfos', let n := finished pT pkT ksT sigT (token_start params tp id sk b start) in
  (length tinfos' <= MaxOutputCoin)%nat -> transferred_CA a h aggParam tins l tinfos' tmy tpi base n ->
  let k1 := mkTxToken (tok_Tx k) (data_final tp id (burnt_count (map snd l) =? 1)%nat n (tok_TokenData k)) (Some n) in
  exists k' size message, sign_both RP tx1 (fee_final params infos) (map PlainV2 pins) outs k1 =
      (k', if MaxTxSize <? size then Err "Can not exceed tx size" else Ok tt) /\
    TxToken_GetTxActualSize k' = Ok size /\ TxToken_Hash k' = Ok (Some message) /\
    fee_transferred (ttp_FeeNativeCoin params) pins outs infos pmy ppi message (tok_Tx k') /\
    token_transferred params id tins l tinfos' tmy tpi base k'.
Proof using All.
  intros HdP HdT Ht Hti HG Hb Hlock Hdel Hval Hp Epd Hr Hd2 tx1 start l base pT pkT ksT sigT tinfos' n Hlen Hn k1.
  pose proof Hn as (Hout & _ & _ & (p' & Ep' & dr & hidden & EpT & Hrange & Hhid & _) & _). assert (p' = pT) as -> by (by injection Ep').
  set (dT := mkPayment2 (Some dr) _ hidden) in EpT. destruct (ti_owned _ _ _ _ _ _ _ _ Hti) as [_ Hop].
  assert (length (coins_of l) = length tinfos') as Lc by (unfold coins_of; rewrite !length_map; symmetry; exact (Forall2_length _ _ _ Hout)).
  assert (payment2_ok dT) as HdTok.
  { apply (sent_payment dr (map fst tins) (coins_of l) (map Some tinfos') hidden Hrange); [| |lia|exact Hhid].
    - eapply Forall_impl; [exact Hop|]. intros c Hc. apply (on_stored c Hc).
    - rewrite length_map. pose proof (ti_in_count _ _ _ _ _ _ _ _ Hti). lia. }
  destruct (sign_both_ok _ sk pins pxs pinfos pmy ppi infos outs p d (Some (base64_encode (payment2_enc dT))) (fee_start params sk b) k1 HdP
    (transfer_token g h RP (Some PRVCoinID) _ _ _ _ _ _ _ Ht) Hdel Hval Epd eq_refl) as (pk & ks' & sig & size & message & Esign & Esize & Ehash & Hs).
  { split; [split; [cbn [tok_setTx tok_Tx tx_SetProof tx_Proof]; by rewrite Epd|by split]|].
    cbn [tok_setTx tok_TokenData k1 data_final td_setSigned td_Proof]. rewrite Ep', EpT. apply token_text; [by eexists|exact HdTok]. }
  exists (tok_setTx (finished p pk ks' sig (fee_start params sk b)) k1), size, message. split; [exact Esign|]. split; [exact Esize|]. split; [exact Ehash|].
  destruct (delivered_coins g h infos outs Hdel) as (_ & _ & Hov). split.
  - split; [exact Hdel|]. split; [lia|]. split; [by exists p|exact Hs].
  - exists n. split; [reflexivity|]. split; [exact Hn|]. do 4 (split; [reflexivity|]).
    exact (rebuilt_ok params tp id sk b p pk ks' sig pT pkT ksT sigT dT _ _ Hb EpT ltac:(by eexists) HdTok Hlock).
Qed.

(** The two parts of [Init]. *)
Lemma Init_parts params tp G k tx fp ins outs : ttp_TokenParams params = Some tp -> tk_Fee tp = 0 -> 0 < ttp_FeeNativeCoin params ->
  fee_part fuel aggParam RP (fee_params params) TxBase_new = (tx, Ok (Some (fp, (ins, outs)))) ->
  TxToken_Init fuel aggParam RP RT params (G, k) =
    match initToken aggParam RT (Some (mkTxBase (tx_Version tx) (tx_Type tx) (tx_LockTime tx) 0 (tx_Info tx) None None None
            (GetShardIDFromLastByte (tx_PubKeyLastByteSender tx)) None None)) params tp (G, k) with
    | ((G, k), Ok _) => let '(k, r) := sign_both RP tx fp ins outs k in ((G, k), r)
    | r => r
    end.
Proof using Type.
  intros Etp Efee Hfee E. unfold TxToken_Init. rewrite Etp, Efee, (proj2 (Z.eqb_neq _ _)) by lia. cbn [Z.ltb Z.compare orb]. rewrite E.
  unfold makeTxToken, optional_text, ParseProof. cbn [res_bind]. by destruct (initToken _ _ _ _ _ _) as [[? ?] []].
Qed.

(** C3: a token transaction goes through.  For PRV coins and coins of a token that the
    sender owns, payments that they cover (in PRV with the fee), and decoys for both
    rings, [Init] is still searching a one-time address for a payment in PRV, or finds
    none for a payment of the token in [MaxTriesOTA] tries, or refuses to burn two
    coins, or builds the transaction, and then fails only when it is too large.  Its
    parts are finished transfers; the token data hold the signature and the proof of the
    token part, and the identifier of the token if a coin of it is burnt and the common
    one of confidential assets otherwise; the message that the ring signature of the fee
    part signs is the hash of the whole transaction; and the token part that a reader
    builds from it has the hash that was signed, provided there is no info: the info
    is copied into it but was left out of what was signed. *)
Theorem token_transaction_goes_through params tp id sk pins pxs pinfos pmy ppi tins txs tinfos tmy tpi G k :
  drawn fuel aggParam RP -> drawn fuel aggParam RT -> ttp_TokenParams params = Some tp -> 0 < ttp_FeeNativeCoin params ->
  transfer g h RP (fee_params params) sk pins pxs pinfos pmy ppi -> token_inputs tp id sk tins txs tinfos tmy tpi ->
  index G PedersenRandomnessIndex = Ok h -> i64 (tr_now RP - (1 + Z.rem (tr_int64 RP) 100)) <> 0 ->
  exists ks shard, KeySet_InitFromPrivateKey (Some sk) = Ok ks /\ GetSenderShard (fee_params params) = Ok shard /\
  let infos := with_change ks pinfos (values pins - zsum (map pi_Amount pinfos) - ttp_FeeNativeCoin params) in
  let infosT := with_change ks tinfos (values_of tins - zsum (map pi_Amount tinfos)) in
  let r := TxToken_Init fuel aggParam RP RT params (G, k) in
  (snd r = OutOfFuel /\ exists j info, infos !! j = Some info /\ still_searching fuel shard (tr_shared RP j) info) \/
  (snd r = Err "cannot create OTA" /\ exists j info, infosT !! j = Some info /\ no_address shard (tr_shared RT j) info) \/
  (exists l, outputs_CA a h infosT l /\
    ((2 <= burnt_count (map snd l))%nat /\ snd r = Err "output must not have more than 1 burned coin" \/
     exists outs base k' size message,
       r = ((<[PedersenValueIndex := base]> G, k'), if MaxTxSize <? size then Err "Can not exceed tx size" else Ok tt) /\
       TxToken_GetTxActualSize k' = Ok size /\ TxToken_Hash k' = Ok (Some message) /\
       fee_transferred (ttp_FeeNativeCoin params) pins outs infos pmy ppi message (tok_Tx k') /\
       token_transferred params id tins l infosT tmy tpi base k')).
Proof using All.
  intros HdP HdT Etp Hfee Ht Hti HG Hlock.
  destruct (sender_account (M := M) sk (tf_sk _ _ _ _ _ _ _ _ _ _ Ht)) as (ks & b & Eks & Eb & Htk & Hpk & Hota & Hshard).
  pose proof (tf_sender _ _ _ _ _ _ _ _ _ _ Ht) as Esk. exists ks, (GetShardIDFromLastByte b). split; [exact Eks|]. split; [by apply Hshard|]. cbv zeta.
  destruct (with_change_payable g h RP _ sk pins pxs pinfos pmy ppi ks Ht Eks Htk Hpk Hota) as (Hpay & Hcount & Hval).
  change (tp_Fee (fee_params params)) with (ttp_FeeNativeCoin params) in *. set (infos := with_change ks pinfos _) in *.
  pose proof (ti_balance _ _ _ _ _ _ _ _ Hti) as Hbal. pose proof (payable_sum tinfos (ti_payable _ _ _ _ _ _ _ _ Hti)) as Hpos.
  destruct (token_change_ok tp id sk tins txs tinfos tmy tpi ks Hti) as (HpayT & HcountT & HvalT).
  { unfold payable_info. cbn [pi_Amount pi_Message pi_PaymentAddress]. split; [unfold is_u64; lia|]. split; [constructor|]. split; [cbn; lia|].
    do 3 (split; [done|]). by apply (tf_change _ _ _ _ _ _ _ _ _ _ Ht). }
  set (infosT := with_change ks tinfos _) in *.
  destruct (fee_part_ok params sk pins pxs pinfos pmy ppi ks b HdP Ht Eks Eb (Hshard _ Esk) Hpay Hcount) as [[E Hs]|(outs & p & d & E & Hdel & Hp & Epd & Hr & Hd2)].
  - left. split; [|exact Hs]. unfold TxToken_Init. rewrite Etp, (proj2 (ti_kind _ _ _ _ _ _ _ _ Hti)), (proj2 (Z.eqb_neq _ _)) by lia. cbn [Z.ltb Z.compare orb].
    by destruct (fee_part _ _ _ _ _) as [tx [| | |]]; cbn [snd] in E; try discriminate E.
  - right. rewrite (Init_parts params tp G k _ _ _ _ Etp (proj2 (ti_kind _ _ _ _ _ _ _ _ Hti)) Hfee E). set (tx1 := tx_SetProof _ _).
    change (tx_PubKeyLastByteSender tx1) with (GetShardIDFromLastByte b). destruct (last_byte_key _ (proj1 (pt_key _ Hpk))) as (b' & Eb' & Hb & _).
    rewrite Eb in Eb'. injection Eb' as <-. rewrite shard_twice by exact Hb. change (tx_Version tx1) with 2. change (tx_Type tx1) with TxCustomTokenPrivacyType.
    set (start := mkTxBase 2 _ _ _ _ _ _ _ _ _ _).
    destruct (initToken_ok params tp id sk tins txs tinfos tmy tpi ks b G k start HdT Hti Esk Eks Eb HG eq_refl HpayT HcountT HvalT (Hshard _ Esk))
      as [[Ei Hs]|(l & Hl & [[Hbu Ei]|(base & pT & pkT & ksT & sigT & Ei & Hn)])].
    + left. split; [|exact Hs]. by destruct (initToken _ _ _ _ _ _) as [[] []].
    + right. exists l. split; [exact Hl|]. left. split; [exact Hbu|]. by destruct (initToken _ _ _ _ _ _) as [[] []].
    + right. exists l. split; [exact Hl|]. right. rewrite Ei.
      destruct (token_rest params tp id sk pins pxs pinfos pmy ppi tins txs tinfos tmy tpi b infos outs p d G k HdP HdT Ht Hti HG Hb Hlock Hdel Hval
        Hp Epd Hr Hd2 l base pT pkT ksT sigT infosT (proj2 HcountT) Hn) as (k' & size & message & Esign & Hrest).
      exists outs, base, k', size, message. fold tx1 in Esign. fold start in Esign. cbv iota beta. fold infos. rewrite Esign. split; [reflexivity|exact Hrest].
Qed.
End proofs.

(** ** A token transaction over the toy curve *)

#[local] Existing Instances keep_all keep_all_laws toy_curve toy_curve_laws toy_digests toy_digest_laws exact_cap exact_cap_laws
  toy_hdwallet toy_cipher toy_cipher_laws toy_codec toy_codec_laws.

(** JSON as the code of the members. *)
Definition td_members : Type := list Z * list Z * list Z * option (list Z) * option (list Z) * option (list Z) * Z * bool.

Definition td_members_of (j : td_json) : td_members :=
  (dj_PropertyID j, dj_PropertyName j, dj_PropertySymbol j, dj_SigPubKey j, dj_Sig j, dj_Proof j, dj_Type j, dj_Mintable j).
Definition of_td_members (m : td_members) : td_json :=
  let '(id, name, symbol, pk, sig, proof, ty, mintable) := m in mkTdJson id name symbol pk sig proof ty mintable.

#[local] Instance toy_token_codec : TokenCodec := {
  td_marshal j := Ok (write_code (td_members_of j));
  td_unmarshal b := let* m := read_code b in Ok (of_td_members m);
  holder_marshal p := Ok (write_code p);
  holder_unmarshal b := read_code b }.

#[local] Instance toy_token_codec_laws : TokenCodecLaws.
Proof.
  constructor.
  - intros j. by eexists.
  - intros j b _ _ E. injection E as <-. cbn [td_unmarshal toy_token_codec]. rewrite read_write. by destruct j.
  - intros p. eexists. split; [reflexivity|]. cbn [holder_unmarshal toy_token_codec]. apply read_write.
  - intros p b E. injection E as <-. apply write_bytes.
Qed.

#[local] Opaque toy_sender.

Definition toy_token_param (c : CoinV2) : TokenParam :=
  mkTokenParam (Hash_String toy_token) [116; 111; 107] [84] 100 CustomTokenTransfer [Some (toy_payment 60); Some (toy_payment 40)] [PlainV2 c] false 0 toy_kv_CA.

Definition toy_token_tx (cp ct : CoinV2) : TxTokenParams MetadataBase :=
  mkTxTokenParams (Some (key_of 4)) [] [PlainV2 cp] 5 (Some (toy_token_param ct)) None true true None toy_kv.

Lemma toy_fee_part g h cp x : owned g h (key_of 4) cp x -> coin_value cp = 100 -> forall ct,
  transfer g h toy_randomness (fee_params (toy_token_tx cp ct)) (key_of 4) [cp] [x] [] [30] 3.
Proof.
  intros Hc Ev ct. constructor; try reflexivity.
  - exact toy_sk.
  - intros ks _. left. apply toy_burning.
  - apply Forall_nil_2.
  - cbn. unfold MaxOutputCoin. lia.
  - apply Forall2_cons_2; [exact Hc|apply Forall2_nil_2].
  - cbn. lia.
  - eexists _, _, _. exact toy_ring_kv.
  - split; [reflexivity|unfold RingSize; lia].
  - unfold is_u64. cbn [toy_token_tx fee_params ttp_FeeNativeCoin tp_Fee NewTxPrivacyInitParams]. lia.
  - unfold values. cbn [map zsum foldr]. rewrite Ev. unfold zsum. cbn. lia.
  - cbn. unfold MaxSizeInfo. lia.
Qed.

Lemma toy_token_inputs a h cb x : HashToPoint toy_token = Some a -> owned_CA a h (key_of 4) cb x -> opens (fst cb) -> coin_value (fst cb) = 100 ->
  token_inputs a h toy_randomness (toy_token_param (fst cb)) toy_token (key_of 4) [cb] [x] [toy_payment 60; toy_payment 40] [30] 3.
Proof.
  intros Et Hown Hop Ev. constructor; try reflexivity.
  - split; reflexivity.
  - split; [vm_compute; reflexivity|exact Et].
  - repeat (apply Forall_cons; split; [apply toy_payable; unfold is_u64; lia|]). apply Forall_nil_2.
  - cbn. unfold MaxOutputCoin. lia.
  - split; [apply Forall2_cons_2; [exact Hown|apply Forall2_nil_2]|apply Forall_singleton; exact Hop].
  - cbn. lia.
  - eexists _, _, _, _. exact toy_ring_kv_CA.
  - split; [reflexivity|unfold RingSize; lia].
  - unfold values_of. cbn [map zsum foldr]. rewrite Ev. unfold zsum. cbn. lia.
Qed.

(** 100 of the token pay 60 and 40, and 95 of 100 in PRV go back. *)
Lemma token_transaction_goes_through_witness : exists a g h cp cb ag l outs base k size message,
  let params := toy_token_tx cp (fst cb) in
  TxToken_Init 8 ag toy_randomness toy_randomness params (PedG, TxToken_new) =
    ((<[PedersenValueIndex := base]> PedG, k), if MaxTxSize <? size then Err "Can not exceed tx size" else Ok tt) /\
  TxToken_Hash k = Ok (Some message) /\
  fee_transferred h g ag (ttp_FeeNativeCoin params) [cp] outs [mkPaymentInfo (ks_PaymentAddress toy_sender) 95 []] [30] 3 message (tok_Tx k) /\
  token_transferred a h ag params toy_token [cb] l [toy_payment 60; toy_payment 40] [30] 3 base k.
Proof.
  destruct (PedG_index PedersenValueIndex) as (g & Eg & Hg); [unfold PedersenValueIndex; lia|].
  destruct (PedG_index PedersenRandomnessIndex) as (h & Eh & Hh); [unfold PedersenRandomnessIndex; lia|].
  destruct (HashToPoint_ok toy_token) as (a & Et & Ha). destruct (toy_token_coin a h g Eh Hh Eg Hg Et Ha) as (cb & x & Hown & Hop & Ev).
  destruct (toy_owned_coin g h Eg Eh Hg Hh) as (cp & xp & Hcp & Evp). destruct toy_drawn as [ag Hd].
  destruct (token_transaction_goes_through a h Eh Ha Hh g Eg Hg 8 ag toy_randomness toy_randomness (toy_token_tx cp (fst cb)) (toy_token_param (fst cb))
    toy_token (key_of 4) [cp] [xp] [] [30] 3 [cb] [x] [toy_payment 60; toy_payment 40] [30] 3 PedG TxToken_new Hd Hd eq_refl ltac:(cbn; lia)
    (toy_fee_part g h cp xp Hcp Evp (fst cb)) (toy_token_inputs a h cb x Et Hown Hop Ev) Eh ltac:(vm_compute; discriminate))
    as (ks & shard & Eks & Esh & Hr).
  rewrite toy_account in Eks. apply Ok_inj in Eks. subst ks.
  assert (shard = 1) as -> by (apply Ok_inj; rewrite <- Esh; vm_compute; reflexivity). cbv zeta in Hr.
  assert (with_change toy_sender [] (values [cp] - zsum (map pi_Amount []) - ttp_FeeNativeCoin (toy_token_tx cp (fst cb))) =
    [mkPaymentInfo (ks_PaymentAddress toy_sender) 95 []]) as E1 by (unfold values; cbn [map zsum foldr]; rewrite Evp; reflexivity).
  assert (with_change toy_sender [toy_payment 60; toy_payment 40] (values_of [cb] - zsum (map pi_Amount [toy_payment 60; toy_payment 40])) =
    [toy_payment 60; toy_payment 40]) as E2 by (unfold values_of; cbn [map zsum foldr]; rewrite Ev; reflexivity).
  rewrite E1, E2 in Hr.
  destruct Hr as [[_ ([|j] & info & Ej & Hs)]|[[_ (j & info & Ej & Hs)]|(l & Hl & [[Hb _]|(outs & base & k & size & message & E & _ & Em & Hfee & Htok)])]].
  - injection Ej as <-. exact (False_ind _ (toy_found 8 _ _ ltac:(lia) Hs)).
  - change (([] : list PaymentInfo) !! j = Some info) in Ej. rewrite lookup_nil in Ej. discriminate Ej.
  - exact (False_ind _ (toy_no_search j info Ej Hs)).
  - exact (False_ind _ (toy_no_burn a h l Hl Hb)).
  - exists a, g, h, cp, cb, ag, l, outs, base, k, size, message. split; [exact E|]. split; [exact Em|]. split; [exact Hfee|exact Htok].
Defined.

(** A token transaction whose parts both carry the toy payment proof. *)
Definition toy_written : TxToken MetadataBase :=
  mkTxToken (mkTxBase 2 TxCustomTokenPrivacyType 1700000000 5 (Some []) (Some [1; 2]) (Some [3]) (Some (ProofOf2 (proof2_of 2 None toy_payment2))) 1 None None)
    (mkTokenData2 ConfidentialAssetID [116; 111; 107] [84] (Some [1; 2]) (Some [3]) (Some (ProofOf2 (proof2_of 2 None toy_payment2))) 1 false) None.

Lemma token_json_witness : exists b k n, TxToken_MarshalJSON toy_written = Ok b /\ TxToken_UnmarshalJSON b TxToken_new = Ok k /\
  k = mkTxToken (tok_Tx toy_written) (tok_TokenData toy_written) (Some n) /\ rebuilt toy_written = Ok (Some n) /\
  TxToken_Hash k = TxToken_Hash toy_written.
Proof.
  apply (token_json toy_payment2 toy_payment2 toy_written).
  split; [split; [split; [reflexivity|split; [by eexists|exact toy_payment2_ok]]|apply token_text; [by eexists|exact toy_payment2_ok]]|].
  split; [reflexivity|]. split; [by eexists|]. split; [exact toy_payment2_ok|].
  do 2 (split; [reflexivity|]).
  split; [repeat constructor; lia|]. split; [repeat constructor; lia|]. split; discriminate.
Defined.
