(* ===== verification/TxConvert.v ===== *)
(** * TxConvert.v: conversions of coins of version 1

    [src/transaction/tx_ver2/tx_convert.go]: a conversion spends coins of version 1 in
    the open (a serial-number proof for each, a Schnorr signature under the key of the
    sender) and creates coins of version 2.  In PRV it is a transaction of its own
    ([InitConversion]); for a token it is the token part of a token transaction whose
    fee part is a transfer of version 2 ([InitTokenConversion]).

    After an error the proof of the transaction, which its caller drops, is a [nil]
    pointer in Go and absent here. *)

From stdpp Require Import base list gmap strings.
From Stdlib Require Import ZArith Lia.
From S2P Require Import Prelude Cursor Common Hashing Encoding Crypto Key Base58 Base58Check Wallet Burning CoinV2 Hybrid CoinV1 Schnorr Mlsag Linear Bulletproof Sigma OneOutOfMany ProofV1 Payment ProofV2 Utxo TxGeneric TxV2 Transfer TxCA TokenV2.
Open Scope Z_scope.

Section convert.
Context `{CO : CurveOps} `{DG : Digests} `{LR : LRU} `{AL : Allocator} `{HD : HDWallet} `{BC : BlockCipher}.
Context {M : Type} `{MO : MetadataOps M} `{TC : TxCodec M} `{KC : TokenCodec}.

Record TxConvertVer1ToVer2InitParams := mkConvertParams {
  cvp_senderSK : option (list Z); cvp_paymentInfo : list (option PaymentInfo); cvp_inputCoins : list PlainCoin; cvp_fee : Z;
  cvp_tokenID : option (list Z); cvp_metaData : option M; cvp_info : option (list Z); cvp_kvArgs : kv_args }.

Definition NewTxConvertVer1ToVer2InitParams (senderSK : option (list Z)) (paymentInfo : list (option PaymentInfo)) (inputCoins : list PlainCoin)
    (fee : Z) (tokenID : option (list Z)) (metaData : option M) (info : option (list Z)) (kvArgs : kv_args) : TxConvertVer1ToVer2InitParams :=
  mkConvertParams senderSK paymentInfo inputCoins fee tokenID metaData (Some (default [] info)) kvArgs.

Definition cvp_setTokenID (v : option (list Z)) (p : TxConvertVer1ToVer2InitParams) : TxConvertVer1ToVer2InitParams :=
  mkConvertParams (cvp_senderSK p) (cvp_paymentInfo p) (cvp_inputCoins p) (cvp_fee p) v (cvp_metaData p) (cvp_info p) (cvp_kvArgs p).

(** *** PRV *)

(** The inputs are open coins of version 1; the sum wraps around. *)
Definition concealed_input (c : PlainCoin) : bool :=
  match PlainCoin_GetRandomness c, PlainCoin_GetSNDerivator c, PlainCoin_GetPublicKey c, PlainCoin_GetCommitment c with
  | Some _, Some _, Some _, Some _ => false
  | _, _, _, _ => true
  end.

Fixpoint sum_converted (sum : Z) (ins : list PlainCoin) : res Z :=
  match ins with
  | [] => Ok sum
  | c :: ins =>
      if negb (PlainCoin_GetVersion c =? 1) then Err "TxConversion should only have inputCoins version 1"
      else if concealed_input c then Err "input coins should not be concealed"
      else let* v := PlainCoin_GetValue c in sum_converted (u64 (sum + v)) ins
  end.

Definition validateTxConvertVer1ToVer2Params (params : TxConvertVer1ToVer2InitParams) : res TxConvertVer1ToVer2InitParams :=
  if (255 <? length (cvp_inputCoins params))%nat then Err "input coin is very large"
  else if (254 <? length (cvp_paymentInfo params))%nat then Err "payment info is very large"
  else
    let* sumInput := sum_converted 0 (cvp_inputCoins params) in
    let* sumOutput := sum_amounts 0 (cvp_paymentInfo params) in
    if negb (sumInput =? u64 (sumOutput + cvp_fee params)) then Err "TxConversion's sum input coin and output coin (with fee) is not the same"
    else match cvp_tokenID params with
         | None => Ok (cvp_setTokenID (Some PRVCoinID) params)
         | Some _ => Ok params
         end.

(** [now] is the time. *)
Definition initializeTxConversion (now : Z) (params : TxConvertVer1ToVer2InitParams) : st (TxBase M) unit :=
  let! senderKeySet := st_lift (KeySet_InitFromPrivateKey (cvp_senderSK params)) in
  let! _ := st_put (fun t => tx_SetMetadata (cvp_metaData params) (tx_SetType TxConversionType (tx_SetVersion 2 (tx_SetTxFee (cvp_fee params) t)))) in
  let! b := st_lift (last_byte (pa_Pk (ks_PaymentAddress senderKeySet))) in
  let! _ := st_put (tx_SetSenderAddrLastByte (GetShardIDFromLastByte b)) in
  let! _ := st_put (fun t => if tx_LockTime t =? 0 then tx_SetLockTime now t else t) in
  fun t => match GetTxInfo (cvp_info params) with
           | Err m => (tx_SetInfo (Some []) t, Err m)
           | Ok v => (tx_SetInfo v t, Ok tt)
           | Panic => (t, Panic) | OutOfFuel => (t, OutOfFuel)
           end.

Section prove.
Context (fuel : nat) (R : TxRandomness) (nn_rnd : nat -> list Z).

(** A coin of a token is shown: [SetPlainTokenID] takes its blinder away. *)
Definition convert_output (tokenID : option (list Z)) (i : nat) (o : option PaymentInfo) : res CoinV2 :=
  let* info := deref o in
  let* p := NewTransferCoinParams info [] in
  if bool_decide (default PRVCoinID tokenID = PRVCoinID)
  then NewCoinFromPaymentInfo fuel (tr_mask R i) (tr_shared R i) (tr_conceal R i) p
  else
    let* (c, _) := createUniqueOTACoinCA (tr_mask R i) (tr_shared R i) (tr_conceal R i) p tokenID in
    let* id := deref tokenID in
    let '(c, r) := SetPlainTokenID id c in
    let* _ := r in Ok c.

Fixpoint createOutputCoins (tokenID : option (list Z)) (i : nat) (infos : list (option PaymentInfo)) : res (list CoinV2) :=
  match infos with
  | [] => Ok []
  | o :: infos =>
      let* c := convert_output tokenID i o in
      let* cs := createOutputCoins tokenID (S i) infos in
      Ok (c :: cs)
  end.

Definition sn_witness (sk : list Z) (c : PlainCoin) : SNNoPrivacyWitness :=
  SNNoPrivacyWitness_Set (PlainCoin_GetKeyImage c) (PlainCoin_GetPublicKey c) (PlainCoin_GetSNDerivator c) (Some (Scalar_FromBytesS sk)).

Definition sign_conversion (senderSK : option (list Z)) : st (TxBase M) unit := fun t =>
  match (let* h := Tx_HashBytes t in SignNoPrivacy (tr_schnorr R) senderSK h) with
  | Ok (sig, pk) => (tx_SetSigPubKey (Some pk) (tx_SetSig (Some sig) t), Ok tt)
  | Err m => (tx_SetSigPubKey None (tx_SetSig None t), Err m)
  | Panic => (t, Panic)
  | OutOfFuel => (t, OutOfFuel)
  end.

Definition proveConversion (params : TxConvertVer1ToVer2InitParams) : st (TxBase M) unit :=
  let! outputCoins := st_lift (createOutputCoins (cvp_tokenID params) 0 (cvp_paymentInfo params)) in
  let! snWitness := st_lift (res_map (fun c => let* sk := deref (cvp_senderSK params) in Ok (sn_witness sk c)) (cvp_inputCoins params)) in
  let! _ := st_field tx_SetProof (let* p := ProveConversion nn_rnd (cvp_inputCoins params) outputCoins snWitness in Ok (ProofOfConversion p)) in
  sign_conversion (cvp_senderSK params).

Definition InitConversion (params : TxConvertVer1ToVer2InitParams) : st (TxBase M) unit :=
  let! params := st_lift (validateTxConvertVer1ToVer2Params params) in
  let! _ := initializeTxConversion (tr_now R) params in
  let! _ := proveConversion params in
  fun t => (t, let* txSize := Tx_GetTxActualSize t in if MaxTxSize <? txSize then Err "Can not exceed tx size" else Ok tt).
End prove.

(** *** Tokens *)

Record TxTokenConvertVer1ToVer2InitParams := mkTokenConvertParams {
  tcp_senderSK : option (list Z); tcp_feeInputs : list PlainCoin; tcp_feePayments : list (option PaymentInfo); tcp_fee : Z;
  tcp_tokenID : option (list Z); tcp_tokenInputs : list PlainCoin; tcp_tokenPayments : list (option PaymentInfo);
  tcp_metaData : option M; tcp_info : option (list Z); tcp_kvArgs : kv_args }.

Definition NewTxTokenConvertVer1ToVer2InitParams (senderSK : option (list Z)) (feeInputs : list PlainCoin) (feePayments : list (option PaymentInfo))
    (tokenInputs : list PlainCoin) (tokenPayments : list (option PaymentInfo)) (fee : Z) (tokenID : option (list Z)) (metaData : option M)
    (info : option (list Z)) (kvArgs : kv_args) : TxTokenConvertVer1ToVer2InitParams :=
  mkTokenConvertParams senderSK feeInputs feePayments fee tokenID tokenInputs tokenPayments metaData (Some (default [] info)) kvArgs.

(** Only the first payment is compared, and there has to be one. *)
Definition validateTxTokenConvertVer1ToVer2Params (params : TxTokenConvertVer1ToVer2InitParams) : res unit :=
  if (255 <? length (tcp_feeInputs params))%nat then Err "FeeInput is too large"
  else if (255 <? length (tcp_feePayments params))%nat then Err "FeePayment is too large"
  else if (255 <? length (tcp_tokenPayments params))%nat then Err "tokenPayments is too large"
  else if (255 <? length (tcp_tokenInputs params))%nat then Err "tokenInputs is too large"
  else if negb (forallb (fun c => PlainCoin_GetVersion c =? 2) (tcp_feeInputs params)) then Err "TxConversion should only have fee input coins version 2"
  else match tcp_tokenID params with
       | None => Err "TxTokenConversion should have its tokenID not null"
       | Some _ =>
           let* sumInput := sum_inputs 0 (tcp_tokenInputs params) in
           let* o := index (tcp_tokenPayments params) 0 in
           let* info := deref o in
           if negb (sumInput =? pi_Amount info) then Err "sumInput and sum TokenPayment amount is not equal" else Ok tt
       end.

(** The parameters of the fee part and of the token part. *)
Definition convert_fee_params (p : TxTokenConvertVer1ToVer2InitParams) : TxPrivacyInitParams M :=
  NewTxPrivacyInitParams (tcp_senderSK p) (tcp_feePayments p) (tcp_feeInputs p) (tcp_fee p) false None (tcp_metaData p) (tcp_info p) (tcp_kvArgs p).
Definition convert_token_params (p : TxTokenConvertVer1ToVer2InitParams) : TxConvertVer1ToVer2InitParams :=
  NewTxConvertVer1ToVer2InitParams (tcp_senderSK p) (tcp_tokenPayments p) (tcp_tokenInputs p) 0 (tcp_tokenID p) None (tcp_info p) (tcp_kvArgs p).

Section prove_token.
Context (fuel : nat) (aggParam : bulletproofParams).

Definition initPRVFeeConversion (R : TxRandomness) (params : TxPrivacyInitParams M) : st (TxBase M) (list PlainCoin * list CoinV2) :=
  let! _ := st_put (tx_SetVersion 2) in
  let! _ := st_put (tx_SetType TxTokenConversionType) in
  provePRV fuel aggParam R params.

(** The token part; the metadata of a fee part stay with it. *)
Definition initTokenConversion (R : TxRandomness) (nn_rnd : nat -> list Z) (txNormal : option (TxBase M)) (params : TxTokenConvertVer1ToVer2InitParams)
    : st (TxToken M) unit := fun k =>
  match tcp_tokenID params with
  | None => (k, Panic)
  | Some id =>
      let k := tok_setData (fun d => mkTokenData2 id [] [] (td_SigPubKey d) (td_Sig d) (td_Proof d) CustomTokenTransfer false) k in
      match (let* p := validateTxConvertVer1ToVer2Params (convert_token_params params) in
             let* t := deref txNormal in Ok (p, t)) with
      | Ok (p, t) =>
          match (let! _ := initializeTxConversion (tr_now R) p in
                 let! _ := st_put (tx_SetType TxTokenConversionType) in
                 proveConversion fuel R nn_rnd p) t with
          | (t, Ok _) => TxToken_SetTxNormal (TransactionOf2 t) k
          | (_, Err m) => (k, Err m)
          | (_, Panic) => (k, Panic)
          | (_, OutOfFuel) => (k, OutOfFuel)
          end
      | Err m => (k, Err m)
      | Panic => (k, Panic)
      | OutOfFuel => (k, OutOfFuel)
      end
  end.

(** The fee part, up to its proof. *)
Definition fee_part_conversion (R : TxRandomness) (params : TxPrivacyInitParams M)
    : st (TxBase M) (TxPrivacyInitParams M * (list PlainCoin * list CoinV2)) :=
  let! params := st_lift (ValidateTxParams params) in
  let! params := InitializeTxAndParams (tr_now R) (tr_int64 R) params in
  let! coins := initPRVFeeConversion R params in
  st_ret (params, coins).

Definition InitTokenConversion (RP RT : TxRandomness) (nn_rnd : nat -> list Z) (params : TxTokenConvertVer1ToVer2InitParams) : st (TxToken M) unit :=
  let! _ := st_lift (validateTxTokenConvertVer1ToVer2Params params) in
  fun k =>
    match fee_part_conversion RP (convert_fee_params params) TxBase_new with
    | (tx, Ok (feeParams, (ins, outs))) =>
        (let! txn := st_lift (makeTxToken tx None None None) in
         let! _ := initTokenConversion RT nn_rnd txn params in
         sign_both RP tx feeParams ins outs) k
    | (_, Err m) => (k, Err m)
    | (_, Panic) => (k, Panic)
    | (_, OutOfFuel) => (k, OutOfFuel)
    end.
End prove_token.
End convert.
Arguments TxConvertVer1ToVer2InitParams : clear implicits. Arguments TxTokenConvertVer1ToVer2InitParams : clear implicits.

(** ** Properties *)

Section properties.
Context `{CL : CurveLaws} `{DL : DigestLaws} `{LL : LRULaws} `{AA : AllocatorLaws} `{HD : HDWallet} `{BL : BlockCipherLaws}.
Context (g h : list Z) (Eg : index PedG PedersenValueIndex = Ok g) (Eh : index PedG PedersenRandomnessIndex = Ok h)
  (Hg : pt_ok g) (Hh : pt_ok h).
Context {M : Type} `{MO : MetadataOps M} `{JL : TxCodecLaws M}.
Context (fuel : nat) (R : TxRandomness) (nn_rnd : nat -> list Z).
Implicit Type t : TxBase M.

(** *** Inputs and outputs *)

(** A coin of version 1 in the open that the private key [sk] spends: the serial number
    is derived from the key and the derivator. *)
Definition convertible_coin (sk : list Z) (c : PlainCoinV1) : Prop :=
  input_ok c /\ p1_commitment c <> None /\ p1_randomness c <> None /\
  exists g0 snd sn, index PedG PedersenPrivateKeyIndex = Ok g0 /\ p1_publicKey c = Some (ScalarMultKey g0 sk) /\
    p1_snDerivator c = Some snd /\ sc_ok snd /\ p1_serialNumber c = Some sn /\ Point_Derive g0 sk snd = Ok sn.

Definition face_value (ins : list PlainCoinV1) : Z := zsum (map p1_value ins).

Lemma sum_converted_ok sk ins : Forall (convertible_coin sk) ins -> forall s,
  sum_converted (u64 s) (map PlainV1 ins) = Ok (u64 (s + face_value ins)).
Proof using Type.
  unfold face_value. induction 1 as [|c ins (_ & Hcom & Hr & g0 & snd & sn & _ & Epk & Esnd & _) Hi IH]; intros s; cbn [map sum_converted].
  { unfold zsum. cbn [foldr]. by rewrite Z.add_0_r. }
  cbn [PlainCoin_GetVersion Z.eqb Pos.eqb negb]. unfold concealed_input.
  cbn [PlainCoin_GetRandomness PlainCoin_GetSNDerivator PlainCoin_GetPublicKey PlainCoin_GetCommitment PlainCoin_GetValue].
  rewrite Epk, Esnd. destruct (p1_randomness c); [|done]. destruct (p1_commitment c); [|done]. cbn [res_bind].
  rewrite u64_add, IH. do 2 f_equal. unfold zsum. cbn [foldr]. lia.
Qed.

(** The parameters of the proof of version 1 that has the same sub-proofs. *)
Definition key_param (sk : list Z) : PaymentWitnessParam := mkPaymentWitnessParam false (Some sk) [] [] 0 [] [] [].

Definition opened_serial (c : PlainCoinV1) (q : SNNoPrivacyProof) : Prop :=
  np_stmt q = mkSNNoPrivacyStatement (p1_serialNumber c) (p1_publicKey c) (p1_snDerivator c) /\ snnp_ok q.

(** The proof of the serial number is accepted, when the inverse it rests on exists. *)
Definition serial_accepted (sk : list Z) (c : PlainCoinV1) (q : SNNoPrivacyProof) : Prop :=
  opened_serial c q /\ (forall snd, p1_snDerivator c = Some snd -> Z.gcd (key_val (Scalar_Add sk snd)) order = 1 -> snnp_verify None q = Ok true).

Lemma serial_proofs_ok sk ins : sc_ok sk -> (forall i, sc_ok (nn_rnd i)) -> Forall (convertible_coin sk) ins ->
  exists qs, prove_noPrivacy nn_rnd 0 (map PlainV1 ins) (map (sn_witness sk) (map PlainV1 ins)) = Ok qs /\ Forall2 (serial_accepted sk) ins qs.
Proof using CL DL BL.
  intros Hsk Hn Hins. destruct (prove_noPrivacy_ok (key_param sk) nn_rnd Hn ins 0) as (qs & E & Hq).
  { eapply Forall_impl; [exact Hins|]. intros c (_ & _ & _ & g0 & snd & sn & Eg0 & Epk & Esnd & Hsnd & Esn & Ed).
    exists sk, g0, snd, sn. by repeat (split; [done|]). }
  exists qs. split.
  - rewrite <- E. f_equal. apply map_ext. intros c. unfold sn_witness, noPrivacyWitness. cbn [key_param pp_PrivateKey].
    by rewrite (FromBytesS_exact sk (proj1 Hsk)).
  - eapply Forall2_impl; [exact Hq|]. intros c q (E1 & E2 & E3). split; [by split|]. intros snd Esnd. by apply E3.
Qed.

(** No index up to the bound gives a key; the sender is taken to be in the shard of the receiver. *)
Definition searching (shared : list Z) (info : PaymentInfo) : Prop :=
  exists b, last_byte (pa_Pk (pi_PaymentAddress info)) = Ok b /\ still_searching fuel (GetShardIDFromLastByte b) shared info.

Lemma createOutputCoins_spec infos : coin_randomness_ok R -> Z.of_nat fuel < 2 ^ 32 -> Forall payable_info infos -> forall i,
  let r := createOutputCoins fuel R (Some PRVCoinID) i (map Some infos) in
  (r = OutOfFuel /\ exists j info, infos !! j = Some info /\ searching (tr_shared R (i + j)) info) \/
  (exists coins, r = Ok coins /\ Forall2 (delivered g h) infos coins).
Proof using CL DL LL AA HD BL Eg Eh Hg Hh.
  intros Hr Hf Hinfos. induction Hinfos as [|info infos Hi Hinfos IH]; intros i.
  { right. exists []. split; [reflexivity|constructor]. }
  destruct (Hr i) as (Hm & Hs & Hc). pose proof Hi as (_ & _ & _ & Hpk & _).
  destruct (last_byte_key _ (proj1 (pt_key _ Hpk))) as (b & Eb & _).
  cbn [map createOutputCoins]. cbv zeta. unfold convert_output. cbn [deref res_bind]. unfold NewTransferCoinParams. rewrite Eb. cbn [res_bind].
  rewrite bool_decide_true by done.
  destruct (new_coin_spec g h Eg Eh Hg Hh fuel (GetShardIDFromLastByte b) _ _ _ info Hi Hm Hs Hc Hf) as [[E Hst]|(c & E & Ho)]; rewrite E; cbn [res_bind].
  { left. split; [reflexivity|]. exists 0%nat, info. split; [reflexivity|]. rewrite Nat.add_0_r. by exists b. }
  destruct (IH (S i)) as [(E2 & j & info' & Ej & Hst)|(coins & E2 & Hcs)]; rewrite E2; cbn [res_bind].
  - left. split; [reflexivity|]. exists (S j), info'. split; [exact Ej|]. by rewrite Nat.add_succ_r.
  - right. exists (c :: coins). split; [reflexivity|]. constructor; [|exact Hcs]. by exists (tr_mask R i).
Qed.

(** *** The proof and the signature *)

(** A transaction that carries the proof of a conversion. *)
Lemma conversion_bytes_ok d : conversion_ok d -> bytes_ok (conversion_enc d).
Proof using CL DL BL.
  intros ((L1 & L2 & L3) & Hin & Hout & Hsn).
  apply Forall_cons_2; [unfold is_byte, ProofVersion; lia|]. apply Forall_app. split; [|apply Forall_app; split]; apply array_bytes; try assumption.
  - eapply Forall_impl; [exact Hin|]. intros c (Hc & Hl & _). apply Forall_cons_2; [unfold is_byte; lia|by apply PlainCoinV1_bytes_ok].
  - eapply Forall_impl; [exact Hout|]. intros c Hc. exact (plain_bytes_ok (PlainV2 c) Hc).
  - eapply Forall_impl; [exact Hsn|]. intros q (pk & sn & snd & ts & to & z & Eq & P1 & P2 & P3 & P4 & P5 & P6).
    apply Forall_cons_2; [unfold is_byte; lia|]. rewrite Eq.
    assert (forall p, pt_ok p -> bytes_ok p) as Hp by (intros p Hp; apply (pt_key p Hp)).
    assert (forall s, sc_ok s -> bytes_ok s) as Hs by (intros s Hs; apply (proj1 Hs)).
    cbn. unfold bytes_ok. rewrite !Forall_app. repeat split; first [by apply Hp|by apply Hs].
Qed.

(** The members of the JSON of a transaction that carries the conversion [d]. *)
Definition conversion_json (d : conversion) t : tx_json M :=
  mkTxJson (tx_Version t) (tx_Type t) (tx_LockTime t) (tx_Fee t) (tx_Info t) (tx_SigPubKey t) (tx_Sig t)
    (Some (base64_encode (conversion_enc d))) (tx_PubKeyLastByteSender t) (tx_Metadata t).

Lemma conversion_marshal d t : tx_Proof t = Some (ProofOfConversion (conversion_of ProofVersion d)) -> conversion_ok d ->
  exists b, tx_MarshalJSON t = Ok b /\ json_unmarshal b = Ok (conversion_json d t).
Proof using CL DL BL JL.
  intros Ep Hd. unfold tx_MarshalJSON. rewrite Ep. cbn [Proof_Bytes]. rewrite conversion_bytes by done. cbn [res_bind]. apply json_codec.
Qed.

Lemma conversion_hash d t : tx_Proof t = Some (ProofOfConversion (conversion_of ProofVersion d)) -> conversion_ok d ->
  exists hb, Tx_HashBytes t = Ok hb /\ length hb = 32%nat /\ bytes_ok hb.
Proof using CL DL BL JL.
  intros Ep Hd. unfold Tx_HashBytes, Tx_Hash.
  destruct (conversion_marshal d (tx_SetSigPubKey (Some []) (tx_SetSig (Some []) t)) Ep Hd) as (b & Eb & _). rewrite Eb.
  exists (HashH b). split; [reflexivity|]. destruct (sha3_ok b) as [Hl Hb]. by split.
Qed.

Lemma conversion_size d t : tx_Proof t = Some (ProofOfConversion (conversion_of ProofVersion d)) -> conversion_ok d ->
  exists size, Tx_GetTxActualSize t = Ok size.
Proof using CL DL BL JL.
  intros Ep Hd. destruct (conversion_marshal d t Ep Hd) as (b & E & _). unfold Tx_GetTxActualSize. rewrite E. by eexists.
Qed.

(** A node reads the transaction back; the private key is not sent. *)
Lemma conversion_json_read d t : tx_Proof t = Some (ProofOfConversion (conversion_of ProofVersion d)) -> conversion_ok d ->
  tx_Version t = 2 -> tx_Type t = TxConversionType ->
  exists b, tx_MarshalJSON t = Ok b /\ TxBase_UnmarshalJSON b TxBase_new = Ok (tx_SetPrivateKey None t).
Proof using CL DL BL JL.
  intros Ep Hd Ev Ety. destruct (conversion_marshal d t Ep Hd) as (b & Eb & E). exists b. split; [exact Eb|].
  unfold TxBase_UnmarshalJSON. rewrite E. cbn [res_bind conversion_json js_Type js_Proof js_Version js_LockTime js_Fee js_Info js_SigPubKey js_Sig
    js_PubKeyLastByteSender js_Metadata].
  rewrite Ety, Ev. change (TxConversionType =? TxTokenConversionType)%string with false. cbv iota. unfold ParseProof.
  change (TxConversionType =? TxConversionType)%string with true. cbn [Z.eqb Pos.eqb res_bind]. unfold Proof_UnmarshalJSON.
  rewrite base64_roundtrip by (by apply conversion_bytes_ok). cbn [res_bind Proof_SetBytes].
  destruct (ConversionProof_read ProofVersion d (ConversionProof_Init ConversionProof_new) Hd) as (b' & Eb' & Er).
  rewrite conversion_bytes in Eb' by done. injection Eb' as <-. rewrite Er. cbn [res_bind]. unfold tx_SetPrivateKey. rewrite Ep, Ev, Ety. reflexivity.
Qed.

(** What [ProveConversion] and the signature write into the transaction. *)
Definition converted_by (sk : list Z) (ins : list PlainCoinV1) (outs : list CoinV2) t : Prop :=
  exists g0 h0 qs hb sig, index PedG PedersenPrivateKeyIndex = Ok g0 /\ index PedG PedersenRandomnessIndex = Ok h0 /\
    let d := mkConversion ins (map (c2_SetKeyImage None) outs) qs in
    conversion_ok d /\ tx_Proof t = Some (ProofOfConversion (conversion_of ProofVersion d)) /\ Forall2 (serial_accepted sk) ins qs /\
    tx_SigPubKey t = Some (ScalarMultKey g0 sk) /\ Tx_HashBytes t = Ok hb /\ length hb = 32%nat /\ bytes_ok hb /\
    tx_Sig t = Some (SchnSignature_Bytes sig) /\ signature_ok sig /\ verifies g0 h0 (ScalarMultKey g0 sk) hb sig.

Lemma sign_conversion_ok sk d t : sc_ok sk -> sc_ok (tr_schnorr R) ->
  tx_Proof t = Some (ProofOfConversion (conversion_of ProofVersion d)) -> conversion_ok d ->
  exists g0 h0 hb sig, index PedG PedersenPrivateKeyIndex = Ok g0 /\ index PedG PedersenRandomnessIndex = Ok h0 /\
    sign_conversion R (Some sk) t = (tx_SetSigPubKey (Some (ScalarMultKey g0 sk)) (tx_SetSig (Some (SchnSignature_Bytes sig)) t), Ok tt) /\
    Tx_HashBytes t = Ok hb /\ length hb = 32%nat /\ bytes_ok hb /\ signature_ok sig /\ verifies g0 h0 (ScalarMultKey g0 sk) hb sig.
Proof using CL DL BL JL.
  intros Hsk Hs Ep Hd. destruct (conversion_hash d t Ep Hd) as (hb & Eh' & Hl & Hb).
  destruct (FromUint64_ok 0 ltac:(unfold is_u64; lia)) as [Ez Hz].
  destruct (Set_ok sk (key_of 0) Hsk Hz) as (g0 & h0 & E0 & Er & Hg0 & Hh0 & _ & Eset & _).
  assert (AddKeys (ScalarMultKey g0 sk) (ScalarMultKey h0 (key_of 0)) = ScalarMultKey g0 sk) as Epk.
  { rewrite mult_zero by done. apply add_identity. by apply pt_mult. }
  destruct (Sign_ok g0 h0 sk (key_of 0) _ _ hb Hg0 Hh0 Hsk Hz Hs Hs Hb Hl) as (sig & Esig & Hsig & _ & Hv).
  cbv zeta in Eset. rewrite Epk in Eset, Esig, Hv.
  exists g0, h0, hb, sig. split; [exact E0|]. split; [exact Er|]. split; [|by repeat (split; [done|])].
  unfold sign_conversion. rewrite Eh'. cbn [res_bind]. unfold SignNoPrivacy. cbn [deref res_bind].
  rewrite (FromBytesS_exact sk (proj1 Hsk)), Ez. cbn [res_bind]. rewrite Eset. cbn [res_bind]. rewrite Esig. reflexivity.
Qed.

(** *** Conversions of PRV *)

(** What is drawn is well formed. *)
Record conversion_drawn : Prop := mkConversionDrawn {
  vd_fuel : Z.of_nat fuel < 2 ^ 32;
  vd_coins : coin_randomness_ok R;
  vd_schnorr : sc_ok (tr_schnorr R);
  vd_serial : forall i, sc_ok (nn_rnd i) }.

(** The parameters of a conversion: coins of version 1 of the sender, and payments that
    with the fee take all of them (there is no change). *)
Record convertible (params : TxConvertVer1ToVer2InitParams M) (sk : list Z) (ins : list PlainCoinV1) (infos : list PaymentInfo) : Prop := mkConvertible {
  cf_sk : sc_ok sk;
  cf_sender : cvp_senderSK params = Some sk;
  cf_infos : cvp_paymentInfo params = map Some infos;
  cf_payable : Forall payable_info infos;
  cf_count : (length infos <= 254)%nat;
  cf_ins : cvp_inputCoins params = map PlainV1 ins;
  cf_owned : Forall (convertible_coin sk) ins;
  cf_in_count : (length ins <= 255)%nat;
  cf_balance : face_value ins = zsum (map pi_Amount infos) + cvp_fee params;
  cf_info : (length (default [] (cvp_info params)) <= MaxSizeInfo)%nat }.

Lemma validate_conversion params sk ins infos : convertible params sk ins infos ->
  validateTxConvertVer1ToVer2Params params = Ok (cvp_setTokenID (Some (default PRVCoinID (cvp_tokenID params))) params).
Proof using Type.
  intros Hc. unfold validateTxConvertVer1ToVer2Params. rewrite (cf_ins _ _ _ _ Hc), (cf_infos _ _ _ _ Hc), !length_map.
  pose proof (cf_count _ _ _ _ Hc). pose proof (cf_in_count _ _ _ _ Hc). bounds.
  change (sum_converted 0) with (sum_converted (u64 0)). change (sum_amounts 0) with (sum_amounts (u64 0)).
  rewrite (sum_converted_ok sk ins (cf_owned _ _ _ _ Hc)). cbn [res_bind]. rewrite sum_amounts_ok. cbn [res_bind].
  rewrite u64_add, !Z.add_0_l, (cf_balance _ _ _ _ Hc), Z.eqb_refl. cbn [negb].
  destruct params as [sk' infos' ins' fee [id|] md info kv]; reflexivity.
Qed.

(** The transaction before the proof. *)
Definition start_conversion (params : TxConvertVer1ToVer2InitParams M) (b : Z) t : TxBase M :=
  mkTxBase 2 TxConversionType (if tx_LockTime t =? 0 then tr_now R else tx_LockTime t) (cvp_fee params) (cvp_info params)
    (tx_SigPubKey t) (tx_Sig t) (tx_Proof t) (GetShardIDFromLastByte b) (cvp_metaData params) (tx_sigPrivateKey t).

Lemma initialize_conversion params sk ks b t : cvp_senderSK params = Some sk -> KeySet_InitFromPrivateKey (Some sk) = Ok ks ->
  last_byte (pa_Pk (ks_PaymentAddress ks)) = Ok b -> (length (default [] (cvp_info params)) <= MaxSizeInfo)%nat ->
  initializeTxConversion (tr_now R) params t = (start_conversion params b t, Ok tt).
Proof using Type.
  intros Esk Eks Eb Hl. unfold initializeTxConversion. rewrite Esk, Eks. unfold st_bind, st_lift, st_put. rewrite Eb. unfold GetTxInfo.
  rewrite (proj2 (Nat.ltb_ge _ _) Hl). unfold start_conversion.
  cbn [tx_LockTime tx_SetSenderAddrLastByte tx_SetMetadata tx_SetType tx_SetVersion tx_SetTxFee]. by destruct (tx_LockTime t =? 0).
Qed.

(** The proof and the signature, whatever the output coins. *)
Lemma proveConversion_ok params sk ins infos outs t : conversion_drawn -> convertible params sk ins infos ->
  createOutputCoins fuel R (cvp_tokenID params) 0 (cvp_paymentInfo params) = Ok outs -> (length outs <= 255)%nat ->
  Forall (fun c => stored2 (c2_SetKeyImage None c)) outs ->
  exists t', proveConversion fuel R nn_rnd params t = (t', Ok tt) /\ converted_by sk ins outs t' /\
    tx_SetSigPubKey (tx_SigPubKey t) (tx_SetSig (tx_Sig t) (tx_SetProof (tx_Proof t) t')) = t.
Proof using All.
  intros Hd Hc Eouts Hlen Hst. pose proof (cf_sk _ _ _ _ Hc) as Hsk. unfold proveConversion, st_field, st_assign.
  rewrite (st_bind_lift _ _ _ _ Eouts), (cf_ins _ _ _ _ Hc), (cf_sender _ _ _ _ Hc).
  rewrite (st_bind_lift _ (map (sn_witness sk) (map PlainV1 ins))).
  2: { by apply res_map_ok, Forall_true. }
  destruct (serial_proofs_ok sk ins Hsk (vd_serial Hd) (cf_owned _ _ _ _ Hc)) as (qs & Eq & Hq).
  set (d := mkConversion ins (map (c2_SetKeyImage None) outs) qs).
  assert (ProveConversion nn_rnd (map PlainV1 ins) outs (map (sn_witness sk) (map PlainV1 ins)) = Ok (conversion_of ProofVersion d)) as Ep.
  { unfold ProveConversion. assert (res_map as_V1 (map PlainV1 ins) = Ok (map Some ins)) as ->.
    { clear. induction ins as [|c ins IH]; [done|]. cbn [map res_map as_V1 res_bind]. by rewrite IH. }
    cbn [res_bind]. rewrite Eq. cbn [res_bind]. unfold conversion_of, d. cbn [cn_in cn_out cn_sn]. by rewrite map_map. }
  rewrite Ep. cbn [res_bind].
  assert (conversion_ok d) as Hcd.
  { split; [unfold d; cbn [cn_in cn_out cn_sn]; rewrite length_map, <- (Forall2_length _ _ _ Hq);
      pose proof (cf_in_count _ _ _ _ Hc); lia|]. unfold d. cbn [cn_in cn_out cn_sn]. split; [|split].
    - eapply Forall_impl; [exact (cf_owned _ _ _ _ Hc)|]. intros c Hcc. apply Hcc.
    - by apply Forall_map.
    - clear -Hq. induction Hq as [|c q ins qs [[_ H'] _] _ IH]; constructor; assumption. }
  destruct (sign_conversion_ok sk d (tx_SetProof (Some (ProofOfConversion (conversion_of ProofVersion d))) t) Hsk (vd_schnorr Hd) eq_refl Hcd)
    as (g0 & h0 & hb & sig & E0 & E4 & Es & Eh' & Hl & Hb & Hsig & Hv).
  eexists. split; [unfold st_bind; exact Es|]. split; [|by destruct t].
  exists g0, h0, qs, hb, sig. cbv zeta. fold d. repeat (split; [first [assumption|reflexivity]|]). exact Hv.
Qed.

Lemma delivered_stored infos outs : Forall2 (delivered g h) infos outs -> Forall (fun c => stored2 (c2_SetKeyImage None c)) outs /\
  values outs = zsum (map pi_Amount infos).
Proof using CL DL AA HD BL Eg Eh Hg Hh.
  intros Hdel. destruct (delivered_coins g h infos outs Hdel) as (_ & Ho & Ev). split; [|exact Ev].
  eapply Forall_impl; [exact Ho|]. intros c Hc. apply without_image_stored, (op_stored _ _ c Hc).
Qed.

(** C6: a conversion of PRV goes through.  For coins of version 1 of the sender and payments
    that with the fee take all their value, [InitConversion] either is still searching a
    one-time address for one of the payments, or builds a transaction of version 2 of the
    type [cv], and fails only when this is too large: each payment gets a coin of
    version 2 of its amount that its receiver can spend, and the coins and the fee are
    worth what the inputs were; the proof of every serial number is about the key, the
    derivator and the serial number of its coin, and is accepted; the signature of the hash of the
    transaction verifies under the public key of the sender; and a node that reads
    the JSON of the transaction gets the transaction. *)
Theorem conversion_goes_through (params : TxConvertVer1ToVer2InitParams M) sk ins infos : conversion_drawn -> convertible params sk ins infos ->
  cvp_tokenID params = None ->
  let r := InitConversion fuel R nn_rnd params TxBase_new in
  (snd r = OutOfFuel /\ exists j info, infos !! j = Some info /\ searching (tr_shared R j) info) \/
  (exists t outs size b, r = (t, if MaxTxSize <? size then Err "Can not exceed tx size" else Ok tt) /\ Tx_GetTxActualSize t = Ok size /\
     Forall2 (delivered g h) infos outs /\ face_value ins = values outs + cvp_fee params /\ converted_by sk ins outs t /\
     tx_Version t = 2 /\ tx_Type t = TxConversionType /\ tx_Fee t = cvp_fee params /\ tx_Metadata t = cvp_metaData params /\ tx_LockTime t = tr_now R /\
     tx_MarshalJSON t = Ok b /\ TxBase_UnmarshalJSON b TxBase_new = Ok t).
Proof using All.
  intros Hd Hc Eid r. set (params1 := cvp_setTokenID (Some PRVCoinID) params).
  assert (convertible params1 sk ins infos) as Hc1 by (destruct Hc; by constructor). pose proof (cf_sk _ _ _ _ Hc) as Hsk.
  destruct (sender_account (M := M) sk Hsk) as (ks & lb & Eks & Eb & _).
  assert (r = (let! _ := proveConversion fuel R nn_rnd params1 in
    fun t => (t, let* txSize := Tx_GetTxActualSize t in if MaxTxSize <? txSize then Err "Can not exceed tx size" else Ok tt))
      (start_conversion params1 lb TxBase_new)) as Er.
  { unfold r, InitConversion. rewrite (st_bind_lift _ _ _ _ (validate_conversion params sk ins infos Hc)), Eid. cbn [from_option id].
    fold params1. unfold st_bind at 1. by rewrite (initialize_conversion params1 sk ks lb _ (cf_sender _ _ _ _ Hc1) Eks Eb (cf_info _ _ _ _ Hc1)). }
  rewrite Er. clear r Er.
  destruct (createOutputCoins_spec infos (vd_coins Hd) (vd_fuel Hd) (cf_payable _ _ _ _ Hc) 0) as [[E Hs]|(outs & E & Hdel)].
  - left. split; [|exact Hs]. unfold proveConversion, st_bind, st_lift. rewrite (cf_infos _ _ _ _ Hc1). cbn [params1 cvp_setTokenID cvp_tokenID].
    by rewrite E.
  - right. rewrite <- (cf_infos _ _ _ _ Hc1) in E. destruct (delivered_stored infos outs Hdel) as [Hst Hval].
    destruct (proveConversion_ok params1 sk ins infos outs (start_conversion params1 lb TxBase_new) Hd Hc1 E) as (t & Ep & Hconv & Et).
    { pose proof (cf_count _ _ _ _ Hc). rewrite <- (Forall2_length _ _ _ Hdel). lia. }
    { exact Hst. }
    pose proof Hconv as (g0 & h0 & qs & hb & sig & _ & _ & Hcd & Epr & _).
    destruct (conversion_size _ t Epr Hcd) as (size & Es).
    assert (tx_Version t = 2 /\ tx_Type t = TxConversionType /\ tx_Fee t = cvp_fee params /\ tx_Metadata t = cvp_metaData params /\
      tx_LockTime t = tr_now R /\ tx_sigPrivateKey t = None) as (Ev & Ety & Ef & Em & El & Ek) by (by destruct t; injection Et as -> -> -> -> -> -> -> ->).
    destruct (conversion_json_read _ t Epr Hcd Ev Ety) as (b & Eb' & Er).
    exists t, outs, size, b. split; [unfold st_bind; by rewrite Ep, Es|]. split; [exact Es|]. split; [exact Hdel|].
    split; [rewrite Hval; apply (cf_balance _ _ _ _ Hc)|]. split; [exact Hconv|]. repeat (split; [assumption|]).
    rewrite Er. f_equal. destruct t. cbn in Ek. by subst.
Qed.

(** *** Conversions of a token *)

Section tokens.
Context (a : list Z) (Ha : pt_ok a).

(** The coin of a payment that shows its token: the tag is the point of the token, and the
    commitment opens to the amount over it. *)
Definition shown_output (info : PaymentInfo) (c : CoinV2) : Prop :=
  stored2 c /\ coin_value c = pi_Amount info /\ c2_info c = pi_Message info /\ c2_amount c = Some (sc (coin_value c)) /\
  c2_mask c = Some (sc (coin_rand c)) /\ c2_assetTag c = Some a /\ c2_commitment c = Some (com2 a h (coin_value c) (coin_rand c)) /\ payee_key info c.

Lemma plain_token_ok id info c b secret : HashToPoint id = Some a -> output_for_CA a h info (c, b) secret ->
  exists c', SetPlainTokenID id c = (c', Ok tt) /\ shown_output info c'.
Proof using CL DL LL AA HD BL Eh Ha Hh.
  intros Eid ([Ho _] & _ & Ev & Einfo & _ & Hkey & _). cbn [fst] in *. pose proof (on_stored c Ho) as ((Hi & Hpk & _ & Hki & Hsc & Hsr & Ht & Hm & Hav & _) & Hl & Hver & Hraw).
  exists (c2_SetCommitment (Some (com2 a h (coin_value c) (coin_rand c))) (c2_SetAssetTag (Some a) c)). split.
  - unfold SetPlainTokenID. rewrite Eid. unfold CoinV2_ComputeCommitmentCA. cbn [c2_SetAssetTag c2_mask c2_amount c2_assetTag].
    rewrite (on_mask c Ho), (on_amount c Ho), Eh. reflexivity.
  - split; [|split; [exact Ev|split; [exact Einfo|split; [exact (on_amount c Ho)|split; [exact (on_mask c Ho)|by split]]]]].
    split; [|by repeat split]. split; [exact Hi|]. split; [exact Hpk|]. split; [apply (pt_key (com2 a h _ _)); by apply com2_pt|].
    split; [exact Hki|]. split; [exact Hsc|]. split; [exact Hsr|]. split; [exact Ht|]. split; [exact Hm|]. split; [exact Hav|]. by apply (pt_key a).
Qed.

(** No index up to [MaxTriesOTA] gives a key, the sender being in the shard of the receiver. *)
Definition no_own_address (shared : list Z) (info : PaymentInfo) : Prop :=
  exists b, last_byte (pa_Pk (pi_PaymentAddress info)) = Ok b /\ no_address (GetShardIDFromLastByte b) shared info.

Lemma createOutputCoins_token id infos : HashToPoint id = Some a -> id <> PRVCoinID -> coin_randomness_ok R -> Forall payable_info infos -> forall i,
  let r := createOutputCoins fuel R (Some id) i (map Some infos) in
  (r = Err "cannot create OTA" /\ exists j info, infos !! j = Some info /\ no_own_address (tr_shared R (i + j)) info) \/
  (exists coins, r = Ok coins /\ Forall2 shown_output infos coins).
Proof using CL DL LL AA HD BL Eg Eh Ha Hg Hh.
  intros Eid Hid Hr Hinfos. induction Hinfos as [|info infos Hi Hinfos IH]; intros i.
  { right. exists []. split; [reflexivity|constructor]. }
  destruct (Hr i) as (Hm & Hs & Hc). pose proof Hi as (_ & _ & _ & Hpk & _).
  destruct (last_byte_key _ (proj1 (pt_key _ Hpk))) as (b & Eb & _).
  cbn [map createOutputCoins]. cbv zeta. unfold convert_output. cbn [deref res_bind]. unfold NewTransferCoinParams. rewrite Eb. cbn [res_bind].
  rewrite bool_decide_false by done.
  destruct (new_coin_CA a h Eh Ha Hh g Eg Hg id (GetShardIDFromLastByte b) _ _ _ info Eid Hi Hm Hs Hc) as [[E Hst]|(c & bl & secret & E & Ho)];
    rewrite E; cbn [res_bind deref].
  { left. split; [reflexivity|]. exists 0%nat, info. split; [reflexivity|]. rewrite Nat.add_0_r. by exists b. }
  destruct (plain_token_ok id info c bl secret Eid Ho) as (c' & Es & Hc'). rewrite Es. cbn [res_bind].
  destruct (IH (S i)) as [(E2 & j & info' & Ej & Hst)|(coins & E2 & Hcs)]; rewrite E2; cbn [res_bind].
  - left. split; [reflexivity|]. exists (S j), info'. split; [exact Ej|]. by rewrite Nat.add_succ_r.
  - right. exists (c' :: coins). split; [reflexivity|]. by constructor.
Qed.

Lemma shown_outputs infos outs : Forall2 shown_output infos outs -> Forall (fun c => stored2 (c2_SetKeyImage None c)) outs /\
  values outs = zsum (map pi_Amount infos).
Proof using Type.
  induction 1 as [|info c infos outs (Hs & Ev & _) _ (IH1 & IH2)]; [by split|]. split; [constructor; [by apply without_image_stored|done]|].
  unfold values in *. cbn [map zsum foldr]. unfold zsum in *. cbn [foldr]. lia.
Qed.
End tokens.

(** *** The fee part of a token conversion *)

Section token_conversion.
Context `{KL : TokenCodecLaws} (aggParam : bulletproofParams) (RP : TxRandomness) (a : list Z) (Ha : pt_ok a).

(** The parameters of the conversion of a token: a transfer that pays the fee, and coins of
    version 1 of the token with the payment that takes all their value, which has to be
    the first. *)
Record token_convertible (params : TxTokenConvertVer1ToVer2InitParams M) (id sk : list Z) (pins : list CoinV2) (pxs : list (list Z))
    (pinfos : list PaymentInfo) (my : list Z) (pi : nat) (ins : list PlainCoinV1) (infos : list PaymentInfo) : Prop := mkTokenConvertible {
  tv_fee : transfer g h RP (convert_fee_params params) sk pins pxs pinfos my pi;
  tv_id : tcp_tokenID params = Some id /\ id <> PRVCoinID /\ HashToPoint id = Some a;
  tv_payments : tcp_tokenPayments params = map Some infos;
  tv_payable : Forall payable_info infos;
  tv_count : (length infos <= 254)%nat;
  tv_inputs : tcp_tokenInputs params = map PlainV1 ins;
  tv_owned : Forall (convertible_coin sk) ins;
  tv_in_count : (length ins <= 255)%nat;
  tv_balance : face_value ins = zsum (map pi_Amount infos);
  tv_first : pi_Amount <$> head infos = Some (face_value ins) }.

Lemma token_part_convertible params id sk pins pxs pinfos my pi ins infos : token_convertible params id sk pins pxs pinfos my pi ins infos ->
  convertible (convert_token_params params) sk ins infos.
Proof using Type.
  intros [Ht (Eid & _) ? ? ? ? ? ? Hb _]. pose proof (tf_sk _ _ _ _ _ _ _ _ _ _ Ht). pose proof (tf_sender _ _ _ _ _ _ _ _ _ _ Ht).
  pose proof (tf_info _ _ _ _ _ _ _ _ _ _ Ht) as Hinfo. constructor; try assumption; cbn [convert_token_params NewTxConvertVer1ToVer2InitParams cvp_fee]; lia.
Qed.

Lemma validate_token_conversion params id sk pins pxs pinfos my pi ins infos : token_convertible params id sk pins pxs pinfos my pi ins infos ->
  validateTxTokenConvertVer1ToVer2Params params = Ok tt.
Proof using Type.
  intros Hc. pose proof (tv_fee _ _ _ _ _ _ _ _ _ _ Hc) as Ht. unfold validateTxTokenConvertVer1ToVer2Params.
  pose proof (tf_ins _ _ _ _ _ _ _ _ _ _ Ht) as Eins. pose proof (tf_infos _ _ _ _ _ _ _ _ _ _ Ht) as Einfos. cbn in Eins, Einfos.
  rewrite Eins, Einfos, (tv_payments _ _ _ _ _ _ _ _ _ _ Hc), (tv_inputs _ _ _ _ _ _ _ _ _ _ Hc), !length_map.
  pose proof (tf_in_count _ _ _ _ _ _ _ _ _ _ Ht). pose proof (tf_count _ _ _ _ _ _ _ _ _ _ Ht) as Hm. unfold MaxOutputCoin in Hm.
  pose proof (tv_count _ _ _ _ _ _ _ _ _ _ Hc). pose proof (tv_in_count _ _ _ _ _ _ _ _ _ _ Hc). bounds.
  assert (forallb (fun c => PlainCoin_GetVersion c =? 2) (map PlainV2 pins) = true) as -> by (clear; by induction pins).
  cbn [negb]. rewrite (proj1 (tv_id _ _ _ _ _ _ _ _ _ _ Hc)). change (sum_inputs 0) with (sum_inputs (u64 0)).
  rewrite (sum_inputs_ok _ (map p1_value ins)) by (clear; induction ins; by constructor). cbn [res_bind].
  pose proof (tv_first _ _ _ _ _ _ _ _ _ _ Hc) as Hf. destruct infos as [|info infos]; [discriminate|]. injection Hf as Hf.
  pose proof (tv_payable _ _ _ _ _ _ _ _ _ _ Hc) as Hp. apply Forall_cons in Hp as [[Hv _] _].
  change (index (map Some (info :: infos)) 0) with (Ok (Some info)). cbn [res_bind deref].
  unfold face_value in Hf. rewrite Z.add_0_l, <- Hf. unfold u64. rewrite (Z.mod_small (pi_Amount info)) by exact Hv. by rewrite Z.eqb_refl.
Qed.

Definition conversion_fee_start (params : TxTokenConvertVer1ToVer2InitParams M) (sk : list Z) (b : Z) : TxBase M :=
  tx_SetType TxTokenConversionType (start_tx RP (convert_fee_params params) sk b).

Definition conversion_fee_final (params : TxTokenConvertVer1ToVer2InitParams M) (infos : list PaymentInfo) : TxPrivacyInitParams M :=
  tp_setPaymentInfo (map Some infos) (tp_setTokenID (Some PRVCoinID) (convert_fee_params params)).

Lemma fee_part_conversion_ok params sk pins pxs pinfos my pi ks b : drawn fuel aggParam RP ->
  transfer g h RP (convert_fee_params params) sk pins pxs pinfos my pi ->
  KeySet_InitFromPrivateKey (Some sk) = Ok ks -> last_byte (pa_Pk (ks_PaymentAddress ks)) = Ok b ->
  GetSenderShard (convert_fee_params params) = Ok (GetShardIDFromLastByte b) ->
  let infos := with_change ks pinfos (values pins - zsum (map pi_Amount pinfos) - tcp_fee params) in
  Forall payable_info infos -> (length infos <= MaxOutputCoin)%nat ->
  let r := fee_part_conversion fuel aggParam RP (convert_fee_params params) TxBase_new in
  (snd r = OutOfFuel /\ exists j info, infos !! j = Some info /\ still_searching fuel (GetShardIDFromLastByte b) (tr_shared RP j) info) \/
  (exists outs p d, r = (tx_SetProof (Some (ProofOf2 p)) (conversion_fee_start params sk b), Ok (conversion_fee_final params infos, (map PlainV2 pins, outs))) /\
     Forall2 (delivered g h) infos outs /\ proved g h aggParam pins outs (map Some infos) p /\
     p = proof2_of 2 None d /\ (exists r, p2_range d = Some r) /\ payment2_ok d).
Proof using CL DL LL AA HD BL JL Eg Eh Hg Hh.
  intros Hd Ht Eks Eb Esh infos Hpay Hlen. cbv zeta. apply (transfer_token g h RP (Some PRVCoinID)) in Ht as Ht1.
  assert (ValidateTxParams (convert_fee_params params) = Ok (tp_setTokenID (Some PRVCoinID) (convert_fee_params params))) as Ev.
  { destruct (validated g h RP (convert_fee_params params) sk pins pxs pinfos my pi Ht) as (v & E). unfold ValidateTxParams in *.
    destruct (255 <? length _)%nat; [discriminate|]. by destruct (254 <? length _)%nat. }
  assert (fee_part_conversion fuel aggParam RP (convert_fee_params params) TxBase_new =
    (let! coins := provePRV fuel aggParam RP (conversion_fee_final params infos) in st_ret (conversion_fee_final params infos, coins))
      (conversion_fee_start params sk b)) as ->.
  { unfold fee_part_conversion. rewrite (st_bind_lift _ _ _ _ Ev). unfold st_bind at 1.
    rewrite (start_ok' g h Eg Eh Hg Hh RP _ sk pins pxs pinfos my pi ks b Ht1 Eks Eb). change (tp_Fee (tp_setTokenID _ _)) with (tcp_fee params).
    reflexivity. }
  destruct (provePRV_spec g h Eg Eh Hg Hh fuel aggParam RP _ sk pins pxs pinfos my pi infos _ (conversion_fee_start params sk b) Hd Ht1 Hpay Hlen eq_refl Esh)
    as [[E Hs]|(outs & p & d & E & Hrest)]; fold (conversion_fee_final params infos) in E; unfold st_bind.
  - left. split; [|exact Hs]. by destruct (provePRV _ _ _ _ _) as [? []].
  - right. exists outs, p, d. rewrite E. split; [reflexivity|exact Hrest].
Qed.

(** *** The token part *)

Definition conversion_data (id : list Z) (n : TxBase M) (d : TxTokenDataVersion2) : TxTokenDataVersion2 :=
  td_setSigned (tx_SigPubKey n) (tx_Sig n) (tx_Proof n) (mkTokenData2 id [] [] (td_SigPubKey d) (td_Sig d) (td_Proof d) CustomTokenTransfer false).

Lemma initTokenConversion_ok params id sk pins pxs pinfos my pi ins infos b t k : conversion_drawn ->
  token_convertible params id sk pins pxs pinfos my pi ins infos ->
  (exists ks, KeySet_InitFromPrivateKey (Some sk) = Ok ks /\ last_byte (pa_Pk (ks_PaymentAddress ks)) = Ok b) ->
  let r := initTokenConversion fuel R nn_rnd (Some t) params k in
  (snd r = Err "cannot create OTA" /\ exists j info, infos !! j = Some info /\ no_own_address (tr_shared R j) info) \/
  (exists outs n, r = (mkTxToken (tok_Tx k) (conversion_data id n (tok_TokenData k)) (Some n), Ok tt) /\
     Forall2 (shown_output a) infos outs /\ face_value ins = values outs /\ converted_by sk ins outs n /\
     tx_SetSigPubKey (tx_SigPubKey t) (tx_SetSig (tx_Sig t) (tx_SetProof (tx_Proof t) n)) =
       tx_SetType TxTokenConversionType (start_conversion (convert_token_params params) b t)).
Proof using All.
  intros Hd Hc (ks & Eks & Eb) r. pose proof (token_part_convertible _ _ _ _ _ _ _ _ _ _ Hc) as Hcv. destruct (tv_id _ _ _ _ _ _ _ _ _ _ Hc) as (Eid & Hid & Ea).
  set (p1 := cvp_setTokenID (Some id) (convert_token_params params)).
  assert (convertible p1 sk ins infos) as Hc1 by (destruct Hcv; by constructor).
  set (k1 := tok_setData (fun d => mkTokenData2 id [] [] (td_SigPubKey d) (td_Sig d) (td_Proof d) CustomTokenTransfer false) k).
  assert (r = match (let! _ := st_put (tx_SetType TxTokenConversionType) in proveConversion fuel R nn_rnd p1) (start_conversion p1 b t) with
              | (t, Ok _) => TxToken_SetTxNormal (TransactionOf2 t) k1
              | (_, Err m) => (k1, Err m)
              | (_, Panic) => (k1, Panic)
              | (_, OutOfFuel) => (k1, OutOfFuel)
              end) as Er.
  { unfold r, initTokenConversion. rewrite Eid, (validate_conversion _ sk ins infos Hcv). cbn [res_bind deref].
    change (cvp_tokenID (convert_token_params params)) with (tcp_tokenID params). rewrite Eid. cbn [from_option Datatypes.id]. fold p1. unfold st_bind at 1.
    by rewrite (initialize_conversion p1 sk ks b t (cf_sender _ _ _ _ Hc1) Eks Eb (cf_info _ _ _ _ Hc1)). }
  rewrite Er. clear r Er. rewrite st_bind_put.
  destruct (createOutputCoins_token a Ha id infos Ea Hid (vd_coins Hd) (cf_payable _ _ _ _ Hc1) 0) as [[E Hs]|(outs & E & Hdel)].
  - left. split; [|exact Hs]. unfold proveConversion, st_bind, st_lift. rewrite (cf_infos _ _ _ _ Hc1). cbn [p1 cvp_setTokenID cvp_tokenID].
    by rewrite E.
  - right. rewrite <- (cf_infos _ _ _ _ Hc1) in E. destruct (shown_outputs a infos outs Hdel) as [Hst Hval].
    destruct (proveConversion_ok p1 sk ins infos outs (tx_SetType TxTokenConversionType (start_conversion p1 b t)) Hd Hc1 E) as (n & Ep & Hconv & En).
    { pose proof (cf_count _ _ _ _ Hc1). rewrite <- (Forall2_length _ _ _ Hdel). lia. }
    { exact Hst. }
    exists outs, n. rewrite Ep. split; [reflexivity|]. split; [exact Hdel|]. split; [rewrite Hval; apply (tv_balance _ _ _ _ _ _ _ _ _ _ Hc)|].
    split; [exact Hconv|exact En].
Qed.

Lemma conversion_text d : conversion_ok d ->
  optional_text (Some (ProofOfConversion (conversion_of ProofVersion d))) = Ok (Some (base64_encode (conversion_enc d))).
Proof using CL BL. intros Hd. unfold optional_text, proof_text. cbn [Proof_Bytes]. by rewrite conversion_bytes. Qed.

Lemma conversion_parse d : conversion_ok d ->
  ParseProof (Some (base64_encode (conversion_enc d))) 2 TxConversionType = Ok (Some (ProofOfConversion (conversion_of ProofVersion d))).
Proof using CL DL BL.
  intros Hd. unfold ParseProof. change (TxConversionType =? TxConversionType)%string with true. cbn [Z.eqb Pos.eqb res_bind].
  unfold Proof_UnmarshalJSON. rewrite base64_roundtrip by (by apply conversion_bytes_ok). cbn [res_bind Proof_SetBytes].
  destruct (ConversionProof_read ProofVersion d (ConversionProof_Init ConversionProof_new) Hd) as (b' & Eb' & Er).
  rewrite conversion_bytes in Eb' by done. injection Eb' as <-. by rewrite Er.
Qed.

(** What [makeTxToken] starts the token part from, the fee part being proved. *)
Definition token_start (params : TxTokenConvertVer1ToVer2InitParams M) (sk : list Z) (b : Z) : TxBase M :=
  let t := conversion_fee_start params sk b in
  mkTxBase 2 TxTokenConversionType (tx_LockTime t) 0 (tx_Info t) None None None (GetShardIDFromLastByte b) None None.

(** A reader of the transaction builds the token part that was signed. *)
Lemma rebuilt_conversion params id sk ins outs b n k0 p pk ks sig : is_byte b -> converted_by sk ins outs n ->
  tx_LockTime (conversion_fee_start params sk b) <> 0 ->
  let t := token_start params sk b in
  tx_SetSigPubKey (tx_SigPubKey t) (tx_SetSig (tx_Sig t) (tx_SetProof (tx_Proof t) n)) =
    tx_SetType TxTokenConversionType (start_conversion (convert_token_params params) b t) ->
  rebuilt (mkTxToken (finished p pk ks sig (conversion_fee_start params sk b)) (conversion_data id n k0) (Some n)) = Ok (Some n).
Proof using CL DL BL.
  intros Hb (g0 & h0 & qs & hb & sg & _ & _ & Hd & Ep & _) Hlock t En. unfold rebuilt, makeTxToken.
  cbn [tok_Tx tok_TokenData conversion_data td_setSigned td_SigPubKey td_Sig td_Proof].
  change (tx_Type (finished p pk ks sig (conversion_fee_start params sk b))) with TxTokenConversionType.
  change (TxTokenConversionType =? TxTokenConversionType)%string with true. cbv iota. rewrite Ep, conversion_text by done. cbn [res_bind].
  change (tx_Version (finished p pk ks sig (conversion_fee_start params sk b))) with 2. rewrite conversion_parse by done.
  change (tx_PubKeyLastByteSender (finished p pk ks sig (conversion_fee_start params sk b))) with (GetShardIDFromLastByte b). rewrite shard_twice by done.
  assert (tx_SetType TxTokenConversionType (start_conversion (convert_token_params params) b t) =
    mkTxBase 2 TxTokenConversionType (tx_LockTime (conversion_fee_start params sk b)) 0 (tx_Info (conversion_fee_start params sk b)) None None None
      (GetShardIDFromLastByte b) None None) as E.
  { unfold start_conversion. change (tx_LockTime t) with (tx_LockTime (conversion_fee_start params sk b)). by rewrite (proj2 (Z.eqb_neq _ _) Hlock). }
  rewrite E in En. do 2 f_equal. destruct n as [v ty lock fee info spk sg' pr last md key]. cbn in Ep. subst pr.
  injection En as -> -> -> -> -> -> -> ->. reflexivity.
Qed.

(** The two parts of [InitTokenConversion]. *)
Lemma InitTokenConversion_parts params sk b p fp pins outs k : validateTxTokenConvertVer1ToVer2Params params = Ok tt -> is_byte b ->
  let tx1 := tx_SetProof (Some (ProofOf2 p)) (conversion_fee_start params sk b) in
  fee_part_conversion fuel aggParam RP (convert_fee_params params) TxBase_new = (tx1, Ok (fp, (pins, outs))) ->
  InitTokenConversion fuel aggParam RP R nn_rnd params k =
    (let! _ := initTokenConversion fuel R nn_rnd (Some (token_start params sk b)) params in sign_both RP tx1 fp pins outs) k.
Proof using Type.
  intros Ev Hb tx1 E. unfold InitTokenConversion. rewrite (st_bind_lift _ _ _ _ Ev), E. unfold makeTxToken, optional_text, ParseProof. cbn [res_bind].
  unfold st_bind at 1, st_lift. change (tx_PubKeyLastByteSender tx1) with (GetShardIDFromLastByte b). by rewrite shard_twice.
Qed.

(** The token part of a finished conversion. *)
Definition token_converted (id sk : list Z) (ins : list PlainCoinV1) (infos : list PaymentInfo) (k : TxToken M) : Prop :=
  exists n outs, tok_cachedTxNormal k = Some n /\ Forall2 (shown_output a) infos outs /\ face_value ins = values outs /\ converted_by sk ins outs n /\
    tx_Type n = TxTokenConversionType /\ tx_Fee n = 0 /\
    tok_TokenData k = mkTokenData2 id [] [] (tx_SigPubKey n) (tx_Sig n) (tx_Proof n) CustomTokenTransfer false /\ rebuilt k = Ok (Some n).

(** C7: the conversion of a token goes through.  For PRV coins that pay the fee as in a
    transfer, and coins of version 1 of the token with a payment that takes all their
    value, [InitTokenConversion] is still searching a one-time address for a payment in
    PRV, or finds none for a payment of the token in [MaxTriesOTA] tries, or builds the
    transaction, and then fails only when it is too large.  The fee part is a finished
    transfer, whose ring signature is on the hash of the whole; each payment of the token
    gets a coin of version 2 that shows its amount and its token and that its receiver can
    spend; the serial-number proofs and the signature of the token part are accepted; and
    a reader of the transaction builds exactly the token part that was signed. *)
Theorem token_conversion_goes_through (params : TxTokenConvertVer1ToVer2InitParams M) id sk pins pxs pinfos my pi ins infos k :
  drawn fuel aggParam RP -> conversion_drawn -> token_convertible params id sk pins pxs pinfos my pi ins infos ->
  i64 (tr_now RP - (1 + Z.rem (tr_int64 RP) 100)) <> 0 ->
  exists ks shard, KeySet_InitFromPrivateKey (Some sk) = Ok ks /\ GetSenderShard (convert_fee_params params) = Ok shard /\
  let pinfos' := with_change ks pinfos (values pins - zsum (map pi_Amount pinfos) - tcp_fee params) in
  let r := InitTokenConversion fuel aggParam RP R nn_rnd params k in
  (snd r = OutOfFuel /\ exists j info, pinfos' !! j = Some info /\ still_searching fuel shard (tr_shared RP j) info) \/
  (snd r = Err "cannot create OTA" /\ exists j info, infos !! j = Some info /\ no_own_address (tr_shared R j) info) \/
  (exists outs k' size message, r = (k', if MaxTxSize <? size then Err "Can not exceed tx size" else Ok tt) /\
     TxToken_GetTxActualSize k' = Ok size /\ TxToken_Hash k' = Ok (Some message) /\
     fee_transferred h g aggParam (tcp_fee params) pins outs pinfos' my pi message (tok_Tx k') /\ token_converted id sk ins infos k').
Proof using All.
  intros HdP Hd Hc Hlock. pose proof (tv_fee _ _ _ _ _ _ _ _ _ _ Hc) as Ht. pose proof (tf_sender _ _ _ _ _ _ _ _ _ _ Ht) as Esk.
  destruct (sender_account (M := M) sk (tf_sk _ _ _ _ _ _ _ _ _ _ Ht)) as (ks & b & Eks & Eb & Htk & Hpk & Hota & Hshard).
  exists ks, (GetShardIDFromLastByte b). split; [exact Eks|]. split; [by apply Hshard|]. cbv zeta.
  destruct (with_change_payable g h RP _ sk pins pxs pinfos my pi ks Ht Eks Htk Hpk Hota) as (Hpay & Hcount & Hval).
  change (tp_Fee (convert_fee_params params)) with (tcp_fee params) in *. set (pinfos' := with_change ks pinfos _) in *.
  destruct (last_byte_key _ (proj1 (pt_key _ Hpk))) as (b' & Eb' & Hb & _). rewrite Eb in Eb'. injection Eb' as <-.
  pose proof (validate_token_conversion _ _ _ _ _ _ _ _ _ _ Hc) as Ev.
  destruct (fee_part_conversion_ok params sk pins pxs pinfos my pi ks b HdP Ht Eks Eb (Hshard _ Esk) Hpay Hcount)
    as [[E Hs]|(outs & p & d & E & Hdel & Hp & Epd & Hr & Hd2)]; fold pinfos' in E.
  - left. split; [|exact Hs]. unfold InitTokenConversion. rewrite (st_bind_lift _ _ _ _ Ev).
    by destruct (fee_part_conversion _ _ _ _ _) as [tx [| | |]]; cbn [snd] in E; try discriminate E.
  - right. rewrite (InitTokenConversion_parts params sk b p _ _ _ k Ev Hb E). unfold st_bind.
    destruct (initTokenConversion_ok params id sk pins pxs pinfos my pi ins infos b (token_start params sk b) k Hd Hc) as [[Ei Hs]|(outsT & n & Ei & Hout & Hv & Hn & En)].
    { exists ks. by split. }
    { left. split; [|exact Hs]. by destruct (initTokenConversion _ _ _ _ _ _) as [? []]. }
    right. rewrite Ei. set (k1 := mkTxToken _ _ _). pose proof Hn as (g0 & h0 & qs & hb & sg & _ & _ & Hcd & Epr & _). set (dT := mkConversion _ _ qs) in *.
    destruct (sign_both_ok a h Eh Ha Hh g Eg Hg fuel aggParam RP R _ sk pins pxs pinfos my pi pinfos' outs p d (Some (base64_encode (conversion_enc dT)))
      (conversion_fee_start params sk b) k1 HdP (transfer_token g h RP (Some PRVCoinID) _ _ _ _ _ _ _ Ht) Hdel Hval Epd eq_refl)
      as (pk & kk & sig & size & message & Esign & Esize & Ehash & Hsig).
    { split; [split; [cbn [tok_setTx tok_Tx tx_SetProof tx_Proof]; by rewrite Epd|by split]|].
      cbn [k1 tok_setTx tok_TokenData conversion_data td_setSigned td_Proof]. rewrite Epr. by apply conversion_text. }
    exists outs, (tok_setTx (finished p pk kk sig (conversion_fee_start params sk b)) k1), size, message.
    split; [exact Esign|]. split; [exact Esize|]. split; [exact Ehash|]. destruct (delivered_coins g h pinfos' outs Hdel) as (_ & _ & Hov). split.
    + split; [exact Hdel|]. split; [rewrite Hov; exact Hval|]. split; [by exists p|exact Hsig].
    + exists n, outsT. split; [reflexivity|]. split; [exact Hout|]. split; [exact Hv|]. split; [exact Hn|].
      assert (tx_Type n = TxTokenConversionType /\ tx_Fee n = 0) as [Ety Ef] by (by destruct n; injection En as _ -> _ -> _ _ _ _).
      split; [exact Ety|]. split; [exact Ef|]. split; [reflexivity|].
      apply (rebuilt_conversion params id sk ins outsT b n (tok_TokenData k) p pk kk sig Hb Hn); [exact Hlock|exact En].
Qed.
End token_conversion.
End properties.

(** ** Conversions over the toy curve *)

#[local] Existing Instances keep_all keep_all_laws toy_curve toy_curve_laws toy_digests toy_digest_laws exact_cap exact_cap_laws
  toy_hdwallet toy_cipher toy_cipher_laws toy_codec toy_codec_laws toy_token_codec toy_token_codec_laws.

#[local] Opaque toy_sender.

(** A coin of 100 of the key 4. *)
Lemma toy_convertible : exists c, convertible_coin (key_of 4) c /\ p1_value c = 100.
Proof.
  destruct PedG_gens as (g0 & _ & _ & _ & _ & E0 & _ & _ & _ & _ & P0 & _). destruct (Point_Derive_sc g0 4 7) as (i & Ei & _).
  assert (pt_ok (pmul g0 4) /\ pt_ok (pmul g0 i)) as [P1 P2] by (split; by apply pmul_pt).
  exists (mkPlainCoinV1 (Some (pmul g0 4)) (Some (pmul g0 4)) (Some (sc 7)) (Some (pmul g0 i)) (Some (sc 9)) 100 []).
  split; [|reflexivity]. split; [|split; [discriminate|split; [discriminate|]]].
  - split; [|split; [|cbn; lia]].
    + split; [by apply (pt_key (pmul g0 4))|]. split; [by apply (pt_key (pmul g0 4))|]. split; [apply sc_ok_sc|].
      split; [by apply (pt_key (pmul g0 i))|]. split; [apply sc_ok_sc|]. split; [unfold is_u64; cbn; lia|apply Forall_nil_2].
    + unfold PlainCoinV1_Bytes. cbn [p1_publicKey p1_commitment p1_snDerivator p1_serialNumber p1_randomness p1_value p1_info opt_field].
      rewrite !length_app. cbn [length]. rewrite (pt_length _ P1), (pt_length _ P2).
      rewrite (sc_length _ (sc_ok_sc 7)), (sc_length _ (sc_ok_sc 9)). change (length (value_field 100)) with 2%nat. change (length (info_bytes [])) with 1%nat. lia.
  - exists g0, (sc 7), (pmul g0 i). split; [exact E0|]. split; [reflexivity|]. split; [reflexivity|]. split; [apply sc_ok_sc|]. split; [reflexivity|].
    exact Ei.
Qed.

Lemma toy_conversion_drawn : conversion_drawn 8 toy_randomness (fun i => key_of 11).
Proof.
  constructor; [lia| | |].
  - intros i. cbn [toy_randomness tr_mask tr_shared tr_conceal]. split; [apply sc_ok_sc|]. split; [apply toy_scalar; lia|apply sc_ok_sc].
  - apply toy_scalar. lia.
  - intros i. apply toy_scalar. lia.
Qed.

(** The payments find their addresses. *)
Lemma toy_own_search fuel shared info v : (0 < fuel)%nat -> shared = key_of 9 -> info = toy_payment v -> ~ searching fuel shared info.
Proof.
  intros Hf -> -> (b & Eb & Hs). assert (Ok b = Ok 9) as E by (rewrite <- Eb; vm_compute; reflexivity). apply Ok_inj in E. subst b.
  exact (toy_found fuel v [1; 2] Hf Hs).
Qed.

Definition toy_conversion_params (c : PlainCoinV1) : TxConvertVer1ToVer2InitParams MetadataBase :=
  NewTxConvertVer1ToVer2InitParams (Some (key_of 4)) [Some (toy_payment 60); Some (toy_payment 35)] [PlainV1 c] 5 None None None None.

(** 100 give 60 and 35, with a fee of 5. *)
Lemma conversion_goes_through_witness : exists g h c t outs size,
  InitConversion 8 toy_randomness (fun i => key_of 11) (toy_conversion_params c) TxBase_new =
    (t, if MaxTxSize <? size then Err "Can not exceed tx size" else Ok tt) /\
  Forall2 (delivered g h) [toy_payment 60; toy_payment 35] outs /\ converted_by (key_of 4) [c] outs t.
Proof.
  destruct (PedG_index PedersenValueIndex) as (g & Eg & Hg); [unfold PedersenValueIndex; lia|].
  destruct (PedG_index PedersenRandomnessIndex) as (h & Eh & Hh); [unfold PedersenRandomnessIndex; lia|].
  destruct toy_convertible as (c & Hc & Ev).
  destruct (conversion_goes_through g h Eg Eh Hg Hh 8 toy_randomness (fun i => key_of 11) (toy_conversion_params c) (key_of 4) [c] [toy_payment 60; toy_payment 35]
    toy_conversion_drawn) as [[_ (j & info & Ej & Hs)]|(t & outs & size & b & E & _ & Hdel & _ & Hconv & _)].
  - constructor; try reflexivity.
    + exact toy_sk.
    + repeat (apply Forall_cons; split; [apply toy_payable; unfold is_u64; lia|]). apply Forall_nil_2.
    + cbn. lia.
    + apply Forall_singleton, Hc.
    + cbn. lia.
    + unfold face_value. cbn [map zsum foldr]. rewrite Ev. reflexivity.
    + cbn. unfold MaxSizeInfo. lia.
  - reflexivity.
  - destruct j as [|[|j]]; [injection Ej as <-..|change (([] : list PaymentInfo) !! j = Some info) in Ej; rewrite lookup_nil in Ej; discriminate Ej].
    + exact (False_ind _ (toy_own_search 8 _ _ 60 ltac:(lia) eq_refl eq_refl Hs)).
    + exact (False_ind _ (toy_own_search 8 _ _ 35 ltac:(lia) eq_refl eq_refl Hs)).
  - exists g, h, c, t, outs, size. split; [exact E|]. split; [exact Hdel|exact Hconv].
Defined.

Definition toy_token_conversion (cp : CoinV2) (c : PlainCoinV1) : TxTokenConvertVer1ToVer2InitParams MetadataBase :=
  NewTxTokenConvertVer1ToVer2InitParams (Some (key_of 4)) [PlainV2 cp] [] [PlainV1 c] [Some (toy_payment 100)] 5 (Some toy_token) None None toy_kv.

Lemma toy_conversion_fee g h cp x c : owned g h (key_of 4) cp x -> coin_value cp = 100 ->
  transfer g h toy_randomness (convert_fee_params (toy_token_conversion cp c)) (key_of 4) [cp] [x] [] [30] 3.
Proof.
  intros Hc Ev. constructor; try reflexivity.
  - exact toy_sk.
  - intros ks _. left. apply toy_burning.
  - apply Forall_nil_2.
  - cbn. unfold MaxOutputCoin. lia.
  - apply Forall2_cons_2; [exact Hc|apply Forall2_nil_2].
  - cbn. lia.
  - eexists _, _, _. exact toy_ring_kv.
  - split; [reflexivity|unfold RingSize; lia].
  - unfold is_u64. cbn [toy_token_conversion convert_fee_params tp_Fee NewTxPrivacyInitParams NewTxTokenConvertVer1ToVer2InitParams tcp_fee]. lia.
  - unfold values. cbn [map zsum foldr]. rewrite Ev. unfold zsum. cbn. lia.
  - cbn. unfold MaxSizeInfo. lia.
Qed.

(** 100 of the token are converted, and 95 of 100 in PRV go back. *)
Lemma token_conversion_goes_through_witness : exists a g h cp c ag outs k size message,
  let params := toy_token_conversion cp c in
  InitTokenConversion 8 ag toy_randomness toy_randomness (fun i => key_of 11) params TxToken_new =
    (k, if MaxTxSize <? size then Err "Can not exceed tx size" else Ok tt) /\
  TxToken_Hash k = Ok (Some message) /\
  fee_transferred h g ag 5 [cp] outs [mkPaymentInfo (ks_PaymentAddress toy_sender) 95 []] [30] 3 message (tok_Tx k) /\
  token_converted h a toy_token (key_of 4) [c] [toy_payment 100] k.
Proof.
  destruct (PedG_index PedersenValueIndex) as (g & Eg & Hg); [unfold PedersenValueIndex; lia|].
  destruct (PedG_index PedersenRandomnessIndex) as (h & Eh & Hh); [unfold PedersenRandomnessIndex; lia|].
  destruct (HashToPoint_ok toy_token) as (a & Et & Ha). destruct toy_convertible as (c & Hc & Ev).
  destruct (toy_owned_coin g h Eg Eh Hg Hh) as (cp & xp & Hcp & Evp). destruct toy_drawn as [ag Hd].
  destruct (token_conversion_goes_through g h Eg Eh Hg Hh 8 toy_randomness (fun i => key_of 11) ag toy_randomness a Ha (toy_token_conversion cp c)
    toy_token (key_of 4) [cp] [xp] [] [30] 3 [c] [toy_payment 100] TxToken_new Hd toy_conversion_drawn) as (ks & shard & Eks & Esh & Hr).
  - constructor; try reflexivity.
    + exact (toy_conversion_fee g h cp xp c Hcp Evp).
    + split; [reflexivity|]. split; [by vm_compute|exact Et].
    + apply Forall_singleton, toy_payable. unfold is_u64. lia.
    + cbn. lia.
    + apply Forall_singleton, Hc.
    + cbn. lia.
    + unfold face_value. cbn [map zsum foldr]. rewrite Ev. reflexivity.
    + unfold face_value. cbn [map zsum foldr]. rewrite Ev. reflexivity.
  - vm_compute. discriminate.
  - rewrite toy_account in Eks. apply Ok_inj in Eks. subst ks.
    assert (shard = 1) as -> by (apply Ok_inj; rewrite <- Esh; vm_compute; reflexivity). cbv zeta in Hr.
    assert (with_change toy_sender [] (values [cp] - zsum (map pi_Amount []) - tcp_fee (toy_token_conversion cp c)) =
      [mkPaymentInfo (ks_PaymentAddress toy_sender) 95 []]) as E1 by (unfold values; cbn [map zsum foldr]; rewrite Evp; reflexivity).
    rewrite E1 in Hr.
    destruct Hr as [[_ ([|j] & info & Ej & Hs)]|[[_ ([|j] & info & Ej & b & Eb & Hs)]|(outs & k & size & message & E & _ & Em & Hfee & Htok)]].
    + injection Ej as <-. exact (False_ind _ (toy_found 8 _ _ ltac:(lia) Hs)).
    + change (([] : list PaymentInfo) !! j = Some info) in Ej. rewrite lookup_nil in Ej. discriminate Ej.
    + injection Ej as <-. destruct ota_fuel as (fuel & Ef & Hf). unfold no_address in Hs. rewrite <- Ef in Hs.
      assert (searching fuel (key_of 9) (toy_payment 100)) as Hs' by exact (ex_intro _ b (conj Eb Hs)).
      exact (False_ind _ (toy_own_search fuel _ _ 100 ltac:(lia) eq_refl eq_refl Hs')).
    + change (([] : list PaymentInfo) !! j = Some info) in Ej. rewrite lookup_nil in Ej. discriminate Ej.
    + exists a, g, h, cp, c, ag, outs, k, size, message. split; [exact E|]. split; [exact Em|]. split; [exact Hfee|exact Htok].
Defined.
