(* ===== verification/Account.v ===== *)
(** * Account.v: the strings of an account (package incclient)

    [common.go] and [coin.go]: from the string of a private key to the other
    strings of its account, its shard, and the key under which its coins are asked
    for. *)

From stdpp Require Import base list gmap strings.
From Stdlib Require Import ZArith Lia.
From S2P Require Import Prelude Common Hashing Crypto Key Base58 Base58Check Wallet CoinV2 Hybrid CoinV1 Utxo.
Open Scope Z_scope.

(** The key that names an account: an [rpc.OutCoinKey]. *)
Record OutCoinKey := mkOutCoinKey {
  ok_paymentAddress : list Z; ok_otaKey : list Z; ok_readonlyKey : list Z }.

Definition NewOutCoinKey (paymentAddress otaKey readonlyKey : list Z) : OutCoinKey :=
  mkOutCoinKey paymentAddress otaKey readonlyKey.
Definition ok_SetOTAKey (v : list Z) (k : OutCoinKey) : OutCoinKey :=
  mkOutCoinKey (ok_paymentAddress k) v (ok_readonlyKey k).
Definition ok_SetPaymentAddress (v : list Z) (k : OutCoinKey) : OutCoinKey :=
  mkOutCoinKey v (ok_otaKey k) (ok_readonlyKey k).
Definition ok_SetReadonlyKey (v : list Z) (k : OutCoinKey) : OutCoinKey :=
  mkOutCoinKey (ok_paymentAddress k) (ok_otaKey k) v.

(** What [AssertPaymentAddressAndTxVersion] takes: an [interface{}]. *)
Inductive AddressArg :=
| AddrStruct (a : PaymentAddress)
| AddrPointer (a : PaymentAddress)
| AddrString (s : list Z)
| AddrOther.

Section account.
Context `{CO : CurveOps} `{DG : Digests} `{LR : LRU} `{AL : Allocator} `{HD : HDWallet}.

(** [err := keyWallet.KeySet.InitFromPrivateKey(&keyWallet.KeySet.PrivateKey)]:
    the key set is written only when there is no error. *)
Definition init_wallet (w : KeyWallet) : res KeyWallet :=
  let* ks := KeySet_InitFromPrivateKey (Some (ks_PrivateKey (kw_KeySet w))) in Ok (kw_setKeySet ks w).

(** An error of the call is dropped: the empty string is returned with it. *)
Definition drop_err (m : st cache (list Z)) : st cache (list Z) := fun c =>
  match m c with (c, Err _) => (c, Ok []) | r => r end.

(** The error of [Base58CheckDeserialize] is dropped; the [nil] wallet that comes
    with it is dereferenced. *)
Definition PrivateKeyToPaymentAddress (privateKey : list Z) (keyType : Z) : st cache (list Z) :=
  match Base58CheckDeserialize privateKey with
  | Ok keyWallet =>
      match init_wallet keyWallet with
      | Ok keyWallet =>
          let! paymentAddStr := Base58CheckSerialize PaymentAddressType keyWallet in
          if keyType =? 0 then drop_err (GetPaymentAddressV1 paymentAddStr false)
          else if keyType =? 1 then drop_err (GetPaymentAddressV1 paymentAddStr true)
          else st_ret paymentAddStr
      | Err _ => st_ret []
      | Panic => st_lift Panic
      | OutOfFuel => st_lift OutOfFuel
      end
  | Err _ | Panic => st_lift Panic
  | OutOfFuel => st_lift OutOfFuel
  end.

(** [None] is [nil]. *)
Definition PrivateKeyToPublicKey (privateKey : list Z) : res (option (list Z)) :=
  on_err None
    (let* keyWallet := Base58CheckDeserialize privateKey in
     let* keyWallet := init_wallet keyWallet in
     Ok (Some (pa_Pk (ks_PaymentAddress (kw_KeySet keyWallet))))).

Definition PrivateKeyToPrivateOTAKey (privateKey : list Z) : st cache (list Z) :=
  match Base58CheckDeserialize privateKey with
  | Ok keyWallet =>
      if (length (ks_PrivateKey (kw_KeySet keyWallet)) =? 0)%nat then st_ret []
      else Base58CheckSerialize OTAKeyType keyWallet
  | Err _ => st_ret []
  | Panic => st_lift Panic
  | OutOfFuel => st_lift OutOfFuel
  end.

(** The error of [InitFromPrivateKey] is not tested. *)
Definition PrivateKeyToReadonlyKey (privateKey : list Z) : st cache (list Z) :=
  match Base58CheckDeserialize privateKey with
  | Ok keyWallet =>
      if (length (ks_PrivateKey (kw_KeySet keyWallet)) =? 0)%nat then st_ret []
      else
        let! keyWallet := st_lift (on_err keyWallet (init_wallet keyWallet)) in
        Base58CheckSerialize ReadonlyKeyType keyWallet
  | Err _ => st_ret []
  | Panic => st_lift Panic
  | OutOfFuel => st_lift OutOfFuel
  end.

Definition PrivateKeyToMiningKey (privateKey : list Z) : st cache (list Z) :=
  match Base58CheckDeserialize privateKey with
  | Ok keyWallet =>
      if (length (ks_PrivateKey (kw_KeySet keyWallet)) =? 0)%nat then st_ret []
      else Base58Check_Encode (HashB (HashB (ks_PrivateKey (kw_KeySet keyWallet)))) 0
  | Err _ => st_ret []
  | Panic => st_lift Panic
  | OutOfFuel => st_lift OutOfFuel
  end.

Definition GetShardIDFromPrivateKey (privateKey : list Z) : res Z :=
  let* pubKey := PrivateKeyToPublicKey privateKey in
  match pubKey with
  | None => Ok 0
  | Some pubKey => last_byte_shard pubKey
  end.

(** The public key of the address is [nil] when the string is the one of a
    read-only or of an OTA key. *)
Definition address_is_nil (addrStr : list Z) : res bool :=
  let* (b, _) := Base58Check_Decode addrStr in
  let* keyType := index b 0 in
  Ok (negb (keyType =? PrivateKeyType) && negb (keyType =? PaymentAddressType)).

(** The 255 that is returned with an error is not modelled. *)
Definition GetShardIDFromPaymentAddress (addrStr : list Z) : res Z :=
  let* keyWallet := Base58CheckDeserialize addrStr in
  let* isNil := address_is_nil addrStr in
  if isNil then Err "publicKey is nil"
  else last_byte_shard (pa_Pk (ks_PaymentAddress (kw_KeySet keyWallet))).

Definition AssertPaymentAddressAndTxVersion (paymentAddress : AddressArg) (version : Z) : res PaymentAddress :=
  let* addr := match paymentAddress with
               | AddrStruct a | AddrPointer a => Ok a
               | AddrString s =>
                   let* keyWallet := Base58CheckDeserialize s in Ok (ks_PaymentAddress (kw_KeySet keyWallet))
               | AddrOther => Err "cannot parse payment address"
               end in
  if bool_decide (PaymentAddress_GetPublicSpend addr = None) || bool_decide (PaymentAddress_GetPublicView addr = None)
  then Err "PublicSpend or PublicView not found"
  else if (version =? 1) && negb (bool_decide (PaymentAddress_GetOTAPublicKey addr = None))
  then Err "PublicOTAKey must be nil"
  else if (version =? 2) && bool_decide (PaymentAddress_GetOTAPublicKey addr = None)
  then Err "PublicOTAKey not found"
  else Ok addr.

Definition NewOutCoinKeyFromPrivateKey (privateKey : list Z) : st cache OutCoinKey :=
  let! keyWallet := st_lift (Base58CheckDeserialize privateKey) in
  let! keyWallet := st_lift (init_wallet keyWallet) in
  let! paymentAddStr := Base58CheckSerialize PaymentAddressType keyWallet in
  let! otaSecretKey := Base58CheckSerialize OTAKeyType keyWallet in
  let! viewingKeyStr := Base58CheckSerialize ReadonlyKeyType keyWallet in
  st_ret (NewOutCoinKey paymentAddStr otaSecretKey viewingKeyStr).
End account.

(** ** Properties *)

(** The call of a hypothesis that returned normally, one step at a time. *)
Ltac peel K :=
  repeat match type of K with
  | (if ?b then _ else _) = Ok _ => destruct b; [discriminate|]
  | res_bind (if ?b then Err _ else _) _ = Ok _ => destruct b; [discriminate|]
  | res_bind ?m _ = Ok _ => destruct m eqn:?; try discriminate; cbn [res_bind] in K
  | (let '(_, _) := ?p in _) = Ok _ => destruct p
  end.

Section properties.
Context `{CL : CurveLaws} `{DL : DigestLaws} `{LL : LRULaws} `{AA : AllocatorLaws} `{HD : HDWallet}.

Lemma keyset_of_private sk ks : keyset_of sk = Ok ks -> ks_PrivateKey ks = sk.
Proof using Type.
  unfold keyset_of. destruct (GeneratePaymentAddress sk); try discriminate. cbn [res_bind].
  destruct (GenerateViewingKey sk); try discriminate. cbn [res_bind].
  destruct (GenerateOTAKey sk); try discriminate. cbn [res_bind]. by intros [= <-].
Qed.

Lemma init_private sk ks : KeySet_InitFromPrivateKey (Some sk) = Ok ks -> ks_PrivateKey ks = sk.
Proof using Type.
  unfold KeySet_InitFromPrivateKey. case_test; [discriminate|apply keyset_of_private].
Qed.

(** A string that holds a private key holds its whole key set. *)
Lemma deserialize_private_keyset s w :
  Base58CheckDeserialize s = Ok w -> ks_PrivateKey (kw_KeySet w) <> [] ->
  KeySet_InitFromPrivateKey (Some (ks_PrivateKey (kw_KeySet w))) = Ok (kw_KeySet w).
Proof using Type.
  unfold Base58CheckDeserialize, deserialize. intros D N.
  destruct (Base58Check_Decode s) as [[b v]| | |]; try discriminate. cbn [res_bind] in D.
  destruct (length b <? 2)%nat; [discriminate|].
  destruct (index b 0) as [t| | |]; try discriminate. cbn [res_bind] in D.
  match type of D with context [res_bind ?k _] => destruct k as [k0| | |] eqn:K end; try discriminate.
  cbn [res_bind] in D.
  destruct (slice_cap _ b 0 _) as [body| | |]; try discriminate. cbn [res_bind] in D.
  destruct (slice b _ _) as [cs2| | |]; try discriminate. cbn [res_bind] in D.
  destruct (negb _ && negb _); [discriminate|]. injection D as ->.
  destruct (t =? PrivateKeyType).
  - unfold deserialize_private in K. peel K.
    injection K as <-. cbn [kw_KeySet] in *. by erewrite init_private.
  - exfalso. apply N. unfold deserialize_address in K.
    destruct (t =? PaymentAddressType); [|destruct (t =? ReadonlyKeyType); [|destruct (t =? OTAKeyType); [|discriminate]]];
      peel K; injection K as <-; reflexivity.
Qed.

Lemma address_eta a : mkPaymentAddress (pa_Pk a) (pa_Tk a) (pa_OTAPublic a) = a.
Proof using Type. destruct a. reflexivity. Qed.

Lemma address_not_nil s w :
  Base58CheckDeserialize s = Ok w -> pa_Pk (ks_PaymentAddress (kw_KeySet w)) <> [] -> address_is_nil s = Ok false.
Proof using Type.
  unfold Base58CheckDeserialize, deserialize, address_is_nil. intros D N.
  destruct (Base58Check_Decode s) as [[b v]| | |]; try discriminate. cbn [res_bind] in *.
  destruct (length b <? 2)%nat; [discriminate|].
  destruct (index b 0) as [t| | |]; try discriminate. cbn [res_bind] in *.
  destruct (t =? PrivateKeyType); [reflexivity|]. destruct (t =? PaymentAddressType); [reflexivity|].
  exfalso. apply N. match type of D with res_bind ?k _ = _ => destruct k as [k0| | |] eqn:K end; try discriminate.
  cbn [res_bind] in D. peel D. injection D as ->.
  destruct (t =? ReadonlyKeyType); [|destruct (t =? OTAKeyType); [|discriminate]]; peel K; injection K as <-; reflexivity.
Qed.

Lemma init_wallet_private s w :
  Base58CheckDeserialize s = Ok w -> ks_PrivateKey (kw_KeySet w) <> [] -> init_wallet w = Ok w.
Proof using Type.
  intros D N. unfold init_wallet. rewrite (deserialize_private_keyset s w D N). cbn [res_bind].
  by destruct w.
Qed.

(** The strings of the other keys of an account are read back, whatever was
    encoded before. *)
Lemma account_string w t c :
  sc_ok (ks_PrivateKey (kw_KeySet w)) ->
  KeySet_InitFromPrivateKey (Some (ks_PrivateKey (kw_KeySet w))) = Ok (kw_KeySet w) -> cache_ok c ->
  In t [PaymentAddressType; ReadonlyKeyType; OTAKeyType] ->
  exists c' s w', Base58CheckSerialize t w c = (c', Ok s) /\ cache_ok c' /\
    Base58CheckDeserialize s = Ok w' /\ serialized_part t true w = Ok w'.
Proof using CL DL LL AA.
  intros Hs E Hc Ht. set (sk := ks_PrivateKey (kw_KeySet w)) in *.
  set (w0 := mkKeyWallet 0 [0; 0; 0; 0] (replicate 32 0) None (kw_KeySet w)).
  assert (wallet_ok w0) as W0.
  { destruct (keyset_of_ok sk (proj2 (proj1 Hs))) as (Hvk & Hota & E').
    unfold KeySet_InitFromPrivateKey in E. destruct (length sk =? PrivateKeySize)%nat; [|discriminate].
    cbn [negb] in E. rewrite E' in E. injection E as E. rewrite (FromBytesS_exact sk (proj1 Hs)), (ScalarMultBase_sc sk Hs) in E.
    assert (forall x, sc_ok x -> key_ok (ScalarMultKey GBASE x)) as K by (intros x Hx; apply pt_key, pt_mult; [apply pt_base|exact Hx]).
    assert (is_byte 0) as B0 by (unfold is_byte; lia).
    unfold wallet_ok, w0. cbn [kw_Depth kw_ChildNumber kw_ChainCode kw_KeySet]. rewrite <- E.
    cbn [ks_PrivateKey ks_PaymentAddress ks_ReadonlyKey ks_OTAKey pa_Pk pa_Tk pa_OTAPublic vk_Pk vk_Rk ota_pk ota_otaSecret].
    split; [exact B0|]. split; [split; [reflexivity|repeat constructor; lia]|].
    split; [split; [reflexivity|by apply Forall_replicate]|]. split; [apply Hs|].
    split; [split; [|split; [|right]]; by apply K|]. split; [split; [by apply K|apply Hvk]|].
    split; [apply pt_mult; [apply pt_base|exact Hs]|exact Hota]. }
  destruct (wallet_string w0 t c W0 Hc) as (c' & s & w' & ES & Hc' & D & P); [by right|].
  exists c', s, w'. split; [|split; [exact Hc'|split; [exact D|]]];
    destruct Ht as [<-|[<-|[<-|[]]]]; assumption.
Qed.

(** The key under which the coins of an account are asked for. *)
Lemma out_coin_key s w c : Base58CheckDeserialize s = Ok w -> sc_ok (ks_PrivateKey (kw_KeySet w)) -> cache_ok c ->
  let ks := kw_KeySet w in
  exists c' k wa wo wr, NewOutCoinKeyFromPrivateKey s c = (c', Ok k) /\ cache_ok c' /\
    Base58CheckDeserialize (ok_paymentAddress k) = Ok wa /\ ks_PaymentAddress (kw_KeySet wa) = ks_PaymentAddress ks /\
    Base58CheckDeserialize (ok_otaKey k) = Ok wo /\ ks_OTAKey (kw_KeySet wo) = ks_OTAKey ks /\
    Base58CheckDeserialize (ok_readonlyKey k) = Ok wr /\ ks_ReadonlyKey (kw_KeySet wr) = ks_ReadonlyKey ks.
Proof using CL DL LL AA.
  intros D Hs Hc ks. destruct (proj1 Hs) as [L _]. unfold Ed25519KeySize in L.
  assert (ks_PrivateKey (kw_KeySet w) <> []) as N by (intros E; rewrite E in L; discriminate).
  pose proof (deserialize_private_keyset s w D N) as EK. pose proof (init_wallet_private s w D N) as EI.
  assert (forall t c, cache_ok c -> In t [PaymentAddressType; ReadonlyKeyType; OTAKeyType] ->
            exists c' s w', Base58CheckSerialize t w c = (c', Ok s) /\ cache_ok c' /\
              Base58CheckDeserialize s = Ok w' /\ serialized_part t true w = Ok w') as STR
    by (intros t c0 Hc0 Ht; by apply account_string).
  destruct (STR PaymentAddressType c Hc) as (c1 & a & wa & E1 & Hc1 & D1 & P1); [by left|].
  destruct (STR OTAKeyType c1 Hc1) as (c4 & o' & wo' & E4 & Hc4 & D4 & P4); [by right; right; left|].
  destruct (STR ReadonlyKeyType c4 Hc4) as (c5 & r' & wr' & E5 & Hc5 & D5 & P5); [by right; left|].
  injection P1 as <-. injection P4 as <-. injection P5 as <-.
  exists c5, (mkOutCoinKey a o' r'). do 3 eexists. unfold NewOutCoinKeyFromPrivateKey, st_bind, st_lift.
  rewrite D, EI, E1, E4, E5. split; [reflexivity|]. split; [exact Hc5|]. cbn [ok_paymentAddress ok_otaKey ok_readonlyKey].
  split; [exact D1|]. split; [apply address_eta|].
  split; [exact D4|]. split; [reflexivity|]. split; [exact D5|reflexivity].
Qed.

(** The public and the transmission key of an account. *)
Lemma account_keys sk ks : sc_ok sk -> KeySet_InitFromPrivateKey (Some sk) = Ok ks ->
  key_ok (pa_Pk (ks_PaymentAddress ks)) /\ key_ok (pa_Tk (ks_PaymentAddress ks)).
Proof using CL DL.
  intros Hsk Eks. pose proof (proj1 (proj1 Hsk)) as Hl. unfold Ed25519KeySize in Hl.
  destruct (keyset_of_ok sk (proj2 (proj1 Hsk))) as (Hvk & Hota & E).
  unfold KeySet_InitFromPrivateKey, PrivateKeySize in Eks. rewrite Hl in Eks. cbn [Nat.eqb negb] in Eks. rewrite E in Eks. injection Eks as <-.
  cbn [ks_PaymentAddress pa_Pk pa_Tk]. rewrite (FromBytesS_exact sk (proj1 Hsk)), (ScalarMultBase_sc sk Hsk).
  split; apply pt_key, pt_mult; (apply pt_base || done).
Qed.

(** The addresses of version 1 of an account, in both encodings. *)
Lemma account_v1_address s w keyType c : Base58CheckDeserialize s = Ok w -> sc_ok (ks_PrivateKey (kw_KeySet w)) -> cache_ok c ->
  keyType = 0 \/ keyType = 1 -> let addr := ks_PaymentAddress (kw_KeySet w) in
  exists c' a w' b v, PrivateKeyToPaymentAddress s keyType c = (c', Ok a) /\ cache_ok c' /\
    Base58CheckDeserialize a = Ok w' /\ ks_PaymentAddress (kw_KeySet w') = mkPaymentAddress (pa_Pk addr) (pa_Tk addr) [] /\
    Serialize PaymentAddressType (keyType =? 1) (drop_ota w) = Ok b /\ Base58Check_Decode a = Ok (b, v).
Proof using CL DL LL AA.
  intros D Hs Hc Ht addr. destruct (proj1 Hs) as [L _]. unfold Ed25519KeySize in L.
  assert (ks_PrivateKey (kw_KeySet w) <> []) as N by (intros E; rewrite E in L; discriminate).
  pose proof (deserialize_private_keyset s w D N) as EK. pose proof (init_wallet_private s w D N) as EI.
  destruct (account_keys _ _ Hs EK) as [Kpk Ktk].
  destruct (account_string w PaymentAddressType c Hs EK Hc) as (c1 & a & wa & E1 & Hc1 & D1 & P1); [by left|].
  injection P1 as <-. destruct (payment_address_v1 a _ (keyType =? 1) c1 Hc1 D1 Kpk Ktk) as (c2 & a2 & w2 & E2 & Hc2 & D2 & A2 & (b & v & Sb & Db) & _).
  exists c2, a2, w2, b, v. split; [|split; [exact Hc2|split; [exact D2|split; [exact A2|split; [exact Sb|exact Db]]]]].
  unfold PrivateKeyToPaymentAddress. rewrite D, EI. unfold st_bind. rewrite E1. unfold drop_err.
  destruct Ht as [-> | ->]; cbn [Z.eqb Pos.eqb] in *; by rewrite E2.
Qed.

(** C36: from the string of a private key, whatever was encoded before:
    [PrivateKeyToPaymentAddress], [PrivateKeyToPrivateOTAKey],
    [PrivateKeyToReadonlyKey] and [NewOutCoinKeyFromPrivateKey] give the strings of
    the address, OTA key and read-only key of the same key set, as reading them
    back shows.  For the key types 0 and 1 the address is the one of version 1, with
    the same two keys and no OTA key, serialized with the old checksum for 0 and the
    new one for 1; for any other key type it is the whole address.
    [PrivateKeyToMiningKey] gives the string of the hash of the hash of the private
    key, [PrivateKeyToPublicKey] the public key, and both ways of computing the shard,
    from the private key and from any of the addresses, agree. *)
Theorem account_strings s w c :
  Base58CheckDeserialize s = Ok w -> sc_ok (ks_PrivateKey (kw_KeySet w)) -> cache_ok c ->
  let ks := kw_KeySet w in
  (forall keyType, exists c' a w', PrivateKeyToPaymentAddress s keyType c = (c', Ok a) /\ cache_ok c' /\
     Base58CheckDeserialize a = Ok w' /\ GetShardIDFromPaymentAddress a = GetShardIDFromPrivateKey s /\
     if (keyType =? 0) || (keyType =? 1)
     then ks_PaymentAddress (kw_KeySet w') = mkPaymentAddress (pa_Pk (ks_PaymentAddress ks)) (pa_Tk (ks_PaymentAddress ks)) [] /\
          exists b v, Serialize PaymentAddressType (keyType =? 1) (drop_ota w) = Ok b /\ Base58Check_Decode a = Ok (b, v)
     else ks_PaymentAddress (kw_KeySet w') = ks_PaymentAddress ks) /\
  (exists c' a w', PrivateKeyToPrivateOTAKey s c = (c', Ok a) /\ cache_ok c' /\
     Base58CheckDeserialize a = Ok w' /\ ks_OTAKey (kw_KeySet w') = ks_OTAKey ks) /\
  (exists c' a w', PrivateKeyToReadonlyKey s c = (c', Ok a) /\ cache_ok c' /\
     Base58CheckDeserialize a = Ok w' /\ ks_ReadonlyKey (kw_KeySet w') = ks_ReadonlyKey ks) /\
  (exists c' k wa wo wr, NewOutCoinKeyFromPrivateKey s c = (c', Ok k) /\ cache_ok c' /\
     Base58CheckDeserialize (ok_paymentAddress k) = Ok wa /\ ks_PaymentAddress (kw_KeySet wa) = ks_PaymentAddress ks /\
     Base58CheckDeserialize (ok_otaKey k) = Ok wo /\ ks_OTAKey (kw_KeySet wo) = ks_OTAKey ks /\
     Base58CheckDeserialize (ok_readonlyKey k) = Ok wr /\ ks_ReadonlyKey (kw_KeySet wr) = ks_ReadonlyKey ks) /\
  (exists c' a v, PrivateKeyToMiningKey s c = (c', Ok a) /\ cache_ok c' /\
     Base58Check_Decode a = Ok (HashB (HashB (ks_PrivateKey ks)), v)) /\
  PrivateKeyToPublicKey s = Ok (Some (pa_Pk (ks_PaymentAddress ks))) /\
  exists shard, GetShardIDFromPrivateKey s = Ok shard /\ 0 <= shard < 8.
Proof using CL DL LL AA.
  intros D Hs Hc ks. destruct (proj1 Hs) as [L _]. unfold Ed25519KeySize in L.
  assert (ks_PrivateKey (kw_KeySet w) <> []) as N by (intros E; rewrite E in L; discriminate).
  pose proof (deserialize_private_keyset s w D N) as EK. pose proof (init_wallet_private s w D N) as EI.
  destruct (account_keys _ _ Hs EK) as [[LPk BPk] _]. fold ks in LPk, BPk. unfold Ed25519KeySize in LPk.
  assert (PrivateKeyToPublicKey s = Ok (Some (pa_Pk (ks_PaymentAddress ks)))) as EPub.
  { unfold PrivateKeyToPublicKey. rewrite D. cbn [res_bind]. rewrite EI. reflexivity. }
  assert (forall a w', Base58CheckDeserialize a = Ok w' -> pa_Pk (ks_PaymentAddress (kw_KeySet w')) = pa_Pk (ks_PaymentAddress ks) ->
    GetShardIDFromPaymentAddress a = GetShardIDFromPrivateKey s) as Hshard.
  { intros a w' Da Epk. unfold GetShardIDFromPaymentAddress, GetShardIDFromPrivateKey. rewrite Da, EPub. cbn [res_bind].
    rewrite (address_not_nil a w' Da), Epk; [reflexivity|]. rewrite Epk. intros E. rewrite E in LPk. discriminate. }
  destruct (account_string w PaymentAddressType c Hs EK Hc) as (c1 & a & wa & E1 & Hc1 & D1 & P1); [by left|].
  destruct (account_string w OTAKeyType c Hs EK Hc) as (c2 & o & wo & E2 & Hc2 & D2 & P2); [by right; right; left|].
  destruct (account_string w ReadonlyKeyType c Hs EK Hc) as (c3 & r & wr & E3 & Hc3 & D3 & P3); [by right; left|].
  injection P1 as <-. injection P2 as <-. injection P3 as <-.
  assert ((length (ks_PrivateKey (kw_KeySet w)) =? 0)%nat = false) as L0 by (rewrite L; reflexivity).
  split; [|split; [|split; [|split; [by apply out_coin_key|split; [|split; [exact EPub|]]]]]].
  - intros keyType. destruct ((keyType =? 0) || (keyType =? 1)) eqn:Et.
    + destruct (account_v1_address s w keyType c D Hs Hc) as (c' & a' & w' & b & v & E & Hc' & D' & A' & Sb & Db).
      { apply orb_true_iff in Et as [Et%Z.eqb_eq|Et%Z.eqb_eq]; [by left|by right]. }
      exists c', a', w'. split; [exact E|]. split; [exact Hc'|]. split; [exact D'|].
      split; [apply (Hshard a' w' D'); by rewrite A'|]. split; [exact A'|by exists b, v].
    + apply orb_false_iff in Et as [Et0 Et1]. exists c1, a. eexists. unfold PrivateKeyToPaymentAddress. rewrite D, EI. unfold st_bind.
      rewrite E1, Et0, Et1. cbn [st_ret]. split; [reflexivity|]. split; [exact Hc1|]. split; [exact D1|].
      split; [by apply (Hshard a _ D1)|apply address_eta].
  - exists c2, o. eexists. unfold PrivateKeyToPrivateOTAKey. rewrite D, L0. split; [exact E2|]. split; [exact Hc2|].
    split; [exact D2|reflexivity].
  - exists c3, r. eexists. unfold PrivateKeyToReadonlyKey. rewrite D, L0, EI. split; [exact E3|]. split; [exact Hc3|].
    split; [exact D3|reflexivity].
  - destruct (cached_encode_decode c (HashB (HashB (ks_PrivateKey ks))) 0 false Hc) as (c' & e & v & E & Hc' & De & _);
      [apply sha3_ok|unfold is_byte; lia|].
    exists c', e, v. unfold PrivateKeyToMiningKey. rewrite D, L0. split; [exact E|]. split; [exact Hc'|exact De].
  - unfold GetShardIDFromPrivateKey. rewrite EPub. cbn [res_bind]. unfold last_byte_shard.
    destruct (index_safe (pa_Pk (ks_PaymentAddress ks)) (length (pa_Pk (ks_PaymentAddress ks)) - 1)) as (b & -> & Hb); [lia|].
    cbn [res_bind]. eexists. split; [reflexivity|].
    pose proof (Forall_lookup_1 _ _ _ _ BPk Hb) as Bb. unfold is_byte in Bb.
    unfold GetShardIDFromLastByte, u8, MaxShardNumber. pose proof (Z.rem_bound_pos b 8).
    rewrite Z.mod_small; lia.
Qed.
End properties.

Section errors.
Context `{CO : CurveOps} `{DG : Digests} `{LR : LRU} `{AL : Allocator} `{HD : HDWallet}.

(** Strings that do not hold a private key.  For one that cannot be read,
    [PrivateKeyToPublicKey] returns [nil], the functions of the other strings the
    empty string, but [PrivateKeyToPaymentAddress] panics, and the shard of the
    key is reported to be 0 (not 255), whereas the one of an address is an error.
    For the string of another key there is no panic, and again the shard 0. *)
Theorem account_errors s c keyType :
  (forall m, Base58CheckDeserialize s = Err m ->
     PrivateKeyToPaymentAddress s keyType c = (c, Panic) /\
     PrivateKeyToPublicKey s = Ok None /\ GetShardIDFromPrivateKey s = Ok 0 /\
     GetShardIDFromPaymentAddress s = Err m /\
     PrivateKeyToPrivateOTAKey s c = (c, Ok []) /\ PrivateKeyToReadonlyKey s c = (c, Ok []) /\
     PrivateKeyToMiningKey s c = (c, Ok []) /\ NewOutCoinKeyFromPrivateKey s c = (c, Err m)) /\
  (forall w, Base58CheckDeserialize s = Ok w -> ks_PrivateKey (kw_KeySet w) = [] ->
     PrivateKeyToPaymentAddress s keyType c = (c, Ok []) /\
     PrivateKeyToPublicKey s = Ok None /\ GetShardIDFromPrivateKey s = Ok 0 /\
     PrivateKeyToPrivateOTAKey s c = (c, Ok []) /\ PrivateKeyToReadonlyKey s c = (c, Ok []) /\
     PrivateKeyToMiningKey s c = (c, Ok [])).
Proof using Type.
  split.
  - intros m D. unfold PrivateKeyToPaymentAddress, GetShardIDFromPrivateKey, PrivateKeyToPublicKey,
      GetShardIDFromPaymentAddress, PrivateKeyToPrivateOTAKey, PrivateKeyToReadonlyKey, PrivateKeyToMiningKey,
      NewOutCoinKeyFromPrivateKey, st_bind, st_lift. rewrite D. repeat split.
  - intros w D E. unfold PrivateKeyToPaymentAddress, GetShardIDFromPrivateKey, PrivateKeyToPublicKey,
      PrivateKeyToPrivateOTAKey, PrivateKeyToReadonlyKey, PrivateKeyToMiningKey.
    rewrite D. cbn [res_bind]. unfold init_wallet. rewrite E. repeat split.
Qed.
End errors.

(** ** Witnesses *)

#[local] Existing Instances toy_curve toy_curve_laws toy_digests toy_digest_laws keep_all keep_all_laws exact_cap exact_cap_laws toy_hdwallet.

Lemma account_strings_witness :
  PrivateKeyToPublicKey toy_key = Ok (Some (ScalarMultKey GBASE (key_of 5))) /\
  (exists c a w, PrivateKeyToPaymentAddress toy_key (-1) ∅ = (c, Ok a) /\ Base58CheckDeserialize a = Ok w /\
    ks_PaymentAddress (kw_KeySet w) = ks_PaymentAddress (kw_KeySet toy_kw) /\
    GetShardIDFromPaymentAddress a = GetShardIDFromPrivateKey toy_key) /\
  (exists c a w, PrivateKeyToPaymentAddress toy_key 0 ∅ = (c, Ok a) /\ Base58CheckDeserialize a = Ok w /\
    pa_OTAPublic (ks_PaymentAddress (kw_KeySet w)) = []) /\
  exists c a v, PrivateKeyToMiningKey toy_key ∅ = (c, Ok a) /\ Base58Check_Decode a = Ok (HashB (HashB (key_of 5)), v).
Proof.
  assert (ks_PrivateKey (kw_KeySet toy_kw) = key_of 5) as K by (vm_compute; reflexivity).
  destruct (account_strings toy_key toy_kw ∅) as (A & _ & _ & _ & (cm & m & v & Em & _ & Dm) & P & _).
  - apply toy_key_ok.
  - rewrite K. apply toy_scalar. lia.
  - apply empty_cache_ok.
  - split; [|split; [|split]].
    + rewrite P. assert (pa_Pk (ks_PaymentAddress (kw_KeySet toy_kw)) = ScalarMultKey GBASE (key_of 5)) as ->
        by (vm_compute; reflexivity). reflexivity.
    + destruct (A (-1)) as (c & a & w & E & _ & D & S & E2). exists c, a, w. split; [exact E|]. split; [exact D|]. split; [exact E2|exact S].
    + destruct (A 0) as (c & a & w & E & _ & D & _ & E2 & _). exists c, a, w. split; [exact E|]. split; [exact D|]. by rewrite E2.
    + exists cm, m, v. split; [exact Em|]. rewrite <- K. exact Dm.
Defined.

Lemma account_errors_witness :
  PrivateKeyToPaymentAddress [] (-1) ∅ = (∅, Panic) /\ GetShardIDFromPrivateKey [] = Ok 0.
Proof.
  destruct (account_errors [] ∅ (-1)) as [H _].
  assert (exists m, Base58Check_Decode [] = Err m) as [m E] by (eexists; vm_compute; reflexivity).
  destruct (H m) as (P & _ & S & _); [unfold Base58CheckDeserialize; rewrite E; reflexivity|].
  split; [exact P|exact S].
Defined.
