(* ===== verification/Cache.v ===== *)
(** * Cache.v: the cache of output coins (package incclient)

    [coin_cache.go] and [coin_cache_utils.go].  The cache of an account holds, for
    each token, the coins of the account among the coins [0 .. LatestIndex] of its
    shard, by index.  [syncOutCoinV2] brings it up to date: a scheduler starts
    goroutines that each ask the node for a batch of coins and keep those of the
    account ([getCoinsByIndices]), collects what they send over a channel, and
    merges it into the cache ([update], [updateAllTokens]).  The scheduler and its
    goroutines are a step relation, the rest are functions.  What the node answers
    is the class [CoinNode], the order in which a Go map is ranged over the class
    [MapRange], and what the file of an account holds the class [CacheFiles] (the
    file system and [encoding/json]). *)

From stdpp Require Import base list gmap strings.
From Stdlib Require Import ZArith Lia.
From S2P Require Import Prelude Common Hashing Crypto Key Base58 Base58Check Wallet CoinV2 Hybrid CoinV1 Utxo Account.
Open Scope Z_scope.

Definition PRVIDStr : list Z :=
  str "0000000000000000000000000000000000000000000000000000000000000004".
Definition CAStr : list Z := Hash_String ConfidentialAssetID.

(** ** Data *)

(** [map[uint64]jsonresult.ICoinInfo] *)
Abbreviation coin_map := (gmap Z ICoinInfo).

Record tokenCache := mkTokenCache { tc_LatestIndex : Z; tc_OutCoins : coin_map }.
Record accountCache := mkAccountCache {
  ac_OtaKey : list Z; ac_CachedTokens : gmap (list Z) tokenCache }.
Record utxoCache := mkUtxoCache {
  uc_isRunning : bool; uc_cachedData : gmap (list Z) accountCache }.

Definition newTokenCache : tokenCache := mkTokenCache 0 ∅.
Definition newAccountCache (otaKey : list Z) : accountCache := mkAccountCache otaKey ∅.
Definition uc_start (uc : utxoCache) : utxoCache := mkUtxoCache true (uc_cachedData uc).

Definition set_cached (otaKey : list Z) (ac : accountCache) (uc : utxoCache) : utxoCache :=
  mkUtxoCache (uc_isRunning uc) (<[otaKey := ac]> (uc_cachedData uc)).
Definition set_token (tok : list Z) (tc : tokenCache) (ac : accountCache) : accountCache :=
  mkAccountCache (ac_OtaKey ac) (<[tok := tc]> (ac_CachedTokens ac)).

(** ** Interfaces *)

(** The node: how many coins a shard has, the coins at given indices, the tags of
    all tokens, and the output coins of an account's keys by the first of its two
    requests. *)
Class CoinNode : Type := {
  GetOTACoinLengthByShard : Z -> list Z -> res Z;
  GetOTACoinsByIndices : Z -> list Z -> list Z -> res coin_map;
  GetAllAssetTags : res (gmap (list Z) (list Z));
  GetOutputCoinsV1 : OutCoinKey -> list Z -> res (list (ICoinInfo * option Z))
}.

(** The order in which a map is ranged over. *)
Class MapRange : Type := map_range : coin_map -> list (Z * ICoinInfo).
Class MapRangeLaws `{MapRange} : Prop := map_range_perm : forall m, map_range m ≡ₚ map_to_list m.

(** The directory of the cache: the accounts with a file, and what reading it
    gives.  Whether a file can be written. *)
Class CacheFiles : Type := {
  read_account : list Z -> option (res accountCache);
  store_account : accountCache -> bool
}.

Section cache.
Context `{CO : CurveOps} `{DG : Digests} `{LR : LRU} `{BC : BlockCipher} `{AL : Allocator} `{HD : HDWallet}.
Context `{CN : CoinNode} `{MR : MapRange} `{CF : CacheFiles}.

(** ** Methods of the interface [jsonresult.ICoinInfo] *)

Definition ICoinInfo_Bytes (c : ICoinInfo) : list Z :=
  match c with
  | InfoV1 c => CoinV1_Bytes c
  | InfoPlainV1 c => PlainCoinV1_Bytes c
  | InfoV2 c => CoinV2_Bytes c
  end.

Definition ICoinInfo_GetVersion (c : ICoinInfo) : Z :=
  match c with InfoV2 _ => 2 | _ => 1 end.

(** The coin is a pointer, in which the raw asset tag may be set. *)
Definition ICoinInfo_DoesCoinBelongToKeySet (keySet : KeySet) (c : ICoinInfo) : res (ICoinInfo * bool) :=
  match c with
  | InfoV1 c' => let* b := CoinV1_DoesCoinBelongToKeySet keySet c' in Ok (c, b)
  | InfoPlainV1 c' => let* b := PlainCoinV1_DoesCoinBelongToKeySet keySet c' in Ok (c, b)
  | InfoV2 c' => let* (c', b, _) := DoesCoinBelongToKeySet keySet c' in Ok (InfoV2 c', b)
  end.

(** ** getCoinsByIndices *)

(** The coins of the key set, out of those the node returned. *)
Fixpoint keep_owned (keySet : KeySet) (burningPubKey : list Z) (l : list (Z * ICoinInfo)) : res (list (Z * ICoinInfo)) :=
  match l with
  | [] => Ok []
  | (idx, outCoin) :: l =>
      if bool_decide (ICoinInfo_Bytes outCoin = burningPubKey) then keep_owned keySet burningPubKey l
      else
        let* (outCoin, belongs) := ICoinInfo_DoesCoinBelongToKeySet keySet outCoin in
        let* rest := keep_owned keySet burningPubKey l in
        Ok (if belongs then (idx, outCoin) :: rest else rest)
  end.

(** The indices [fromIndex .. toIndex]. *)
Definition index_list (fromIndex toIndex : Z) : list Z :=
  map (fun k => fromIndex + Z.of_nat k) (seq 0 (Z.to_nat (toIndex + 1 - fromIndex))).

Definition getCoinsByIndices (keySet : KeySet) (shardID : Z) (tokenIDStr : list Z) (fromIndex toIndex : Z) : res coin_map :=
  let* tmpOutCoins := GetOTACoinsByIndices shardID tokenIDStr (index_list fromIndex toIndex) in
  let* burningPubKey := GetBurningPublicKey in
  let* owned := keep_owned keySet burningPubKey (map_range tmpOutCoins) in
  Ok (list_to_map owned).

(** ** Merging into the cache *)

(** [update]: the updated records are returned. *)
Definition update (tokenIDStr : list Z) (latestIndex : Z) (outCoins : coin_map) (ac : accountCache) : accountCache * coin_map :=
  let '(data, updatedRecords) :=
    match ac_CachedTokens ac !! tokenIDStr with
    | None => (outCoins, outCoins)
    | Some tc => (tc_OutCoins tc ∪ outCoins, outCoins ∖ tc_OutCoins tc)
    end in
  (set_token tokenIDStr (mkTokenCache latestIndex data) ac, updatedRecords).

(** One round of the loop of [updateAllTokens]: the coin goes to its token. *)
Definition add_to_token (tok : list Z) (latestIndex idx : Z) (c : ICoinInfo) (ac : accountCache) : accountCache :=
  let tc := match ac_CachedTokens ac !! tok with
            | None => mkTokenCache latestIndex ∅
            | Some tc => tc
            end in
  let tc := match tc_OutCoins tc !! idx with
            | None => mkTokenCache latestIndex (<[idx := c]> (tc_OutCoins tc))
            | Some _ => tc
            end in
  set_token tok tc ac.

Fixpoint add_records (keySet : KeySet) (rawAssetTags : gmap (list Z) (list Z)) (latestIndex : Z)
    (l : list (Z * ICoinInfo)) : st accountCache unit :=
  match l with
  | [] => st_ret tt
  | (idx, coinData) :: l =>
      match coinData with
      | InfoV2 c =>
          match GetTokenId keySet rawAssetTags c with
          | Ok (c, tokenId) =>
              let! _ := st_put (add_to_token (Hash_String tokenId) latestIndex idx (InfoV2 c)) in
              add_records keySet rawAssetTags latestIndex l
          | Err _ => add_records keySet rawAssetTags latestIndex l
          | Panic => st_lift Panic
          | OutOfFuel => st_lift OutOfFuel
          end
      | _ => st_fail "cannot parse coin as a CoinV2"
      end
  end.

Definition updateAllTokens (latestIndex : Z) (data : coin_map) (rawAssetTags : gmap (list Z) (list Z)) : st accountCache unit :=
  fun ac =>
    let '(ac, updateRecords) := update CAStr latestIndex data ac in
    (let! w := st_lift (Base58CheckDeserialize (ac_OtaKey ac)) in
     add_records (kw_KeySet w) rawAssetTags latestIndex (map_range updateRecords)) ac.

(** ** The cache of the client *)

(** [load] for one account: it replaces the whole map when the account is not in
    it. *)
Definition uc_load (otaKeyStr : list Z) : st utxoCache unit := fun uc =>
  if (length otaKeyStr =? 0)%nat then (uc, Err "invalid OTAKey")
  else match uc_cachedData uc !! otaKeyStr with
       | Some _ => (uc, Ok tt)
       | None =>
           match read_account otaKeyStr with
           | None => (mkUtxoCache (uc_isRunning uc) ∅, Ok tt)
           | Some (Ok ac) => (mkUtxoCache (uc_isRunning uc) {[otaKeyStr := ac]}, Ok tt)
           | Some (Err m) => (uc, Err m)
           | Some Panic => (uc, Panic)
           | Some OutOfFuel => (uc, OutOfFuel)
           end
       end.

Definition addAccount (otaKey : list Z) (cachedAccount : accountCache) (save : bool) (uc : utxoCache) : utxoCache :=
  let uc := set_cached otaKey cachedAccount uc in
  if save && negb (store_account cachedAccount)
  then mkUtxoCache (uc_isRunning uc) (delete otaKey (uc_cachedData uc))
  else uc.

(** ** The scheduler of syncOutCoinV2 *)

Definition coinBatchSize : Z := 5000.

(** The state of the loop: the next index to ask for, the counters, the
    goroutines that have not sent their status yet, the channel, and the coins
    collected.  [ss_result] is what the loop ended with. *)
Record sync_state := mkSync {
  ss_currentIndex : Z; ss_doneCount : nat; ss_numWorking : nat;
  ss_running : list (Z * Z); ss_statusChan : list (Z * Z * res coin_map);
  ss_data : coin_map; ss_result : option (res unit) }.

(** The number of batches, computed on [float64]s: exact below 2^52 coins. *)
Definition num_threads (currentIndex coinLength : Z) : nat :=
  Z.to_nat ((coinLength - currentIndex + (coinBatchSize - 1)) / coinBatchSize).

Definition sync_init (currentIndex : Z) : sync_state := mkSync currentIndex 0 0 [] [] ∅ None.

Section scheduler.
Context (getCoins : Z -> Z -> res coin_map) (MaxGetCoinThreads : nat) (firstIndex coinLength : Z).

Abbreviation numThreads := (num_threads firstIndex coinLength).

Definition next_index (currentIndex : Z) : Z :=
  let nextIndex := u64 (currentIndex + coinBatchSize) in
  if coinLength <? nextIndex then coinLength else nextIndex.

(** One step of the loop or of a goroutine.  The [default] case of the [select]
    is taken only when nothing is in the channel; a goroutine can send only when
    the channel, of capacity [MaxGetCoinThreads], is not full. *)
Inductive sync_step : sync_state -> sync_state -> Prop :=
| step_start cur dn wk run data :
    dn <> numThreads -> (wk < MaxGetCoinThreads)%nat -> cur < coinLength ->
    sync_step (mkSync cur dn wk run [] data None)
              (mkSync (next_index cur) dn (S wk) (run ++ [(cur, next_index cur - 1)]) [] data None)
| step_sleep cur dn wk run data :
    dn <> numThreads -> ~ ((wk < MaxGetCoinThreads)%nat /\ cur < coinLength) ->
    sync_step (mkSync cur dn wk run [] data None) (mkSync cur dn wk run [] data None)
| step_break cur wk run data :
    sync_step (mkSync cur numThreads wk run [] data None)
              (mkSync cur numThreads wk run [] data (Some (Ok tt)))
| step_send cur dn wk run1 f t run2 q data result m :
    (length q < MaxGetCoinThreads)%nat -> getCoins f t = m -> res_safe m ->
    sync_step (mkSync cur dn wk (run1 ++ (f, t) :: run2) q data result)
              (mkSync cur dn wk (run1 ++ run2) (q ++ [(f, t, m)]) data result)
| step_panic cur dn wk run1 f t run2 q data :
    getCoins f t = Panic ->
    sync_step (mkSync cur dn wk (run1 ++ (f, t) :: run2) q data None)
              (mkSync cur dn wk (run1 ++ run2) q data (Some Panic))
| step_receive cur dn wk run f t m q data :
    sync_step (mkSync cur dn wk run ((f, t, Ok m) :: q) data None)
              (mkSync cur (S dn) (wk - 1) run q (m ∪ data)
                 (if (S dn =? numThreads)%nat then Some (Ok tt) else None))
| step_failed cur dn wk run f t m q data :
    sync_step (mkSync cur dn wk run ((f, t, Err m) :: q) data None)
              (mkSync cur dn wk run q data (Some (Err m))).

(** What the loop can end with. *)
Definition sync_ends (r : res coin_map) : Prop :=
  exists s, rtc sync_step (sync_init firstIndex) s /\
    match ss_result s with
    | Some (Ok _) => r = Ok (ss_data s)
    | Some (Err m) => r = Err m
    | Some Panic => r = Panic
    | _ => False
    end.
End scheduler.

(** ** syncOutCoinV2 *)

(** The index the synchronisation starts at. *)
Definition sync_from (tc : tokenCache) : Z :=
  let currentIndex := u64 (tc_LatestIndex tc + 1) in
  if currentIndex =? 1 then 0 else currentIndex.

(** The account is a pointer, which the cache shares when it holds the account:
    what is written before an error stays. *)
Definition write_back (otaKey : list Z) (cached : bool) (ac : accountCache) (uc : utxoCache) : utxoCache :=
  if cached then set_cached otaKey ac uc else uc.

(** Everything but the scheduler: [fetch] is what its loop ends with, from the
    first index to the length. *)
Definition syncOutCoinV2 (fetch : KeySet -> Z -> list Z -> Z -> Z -> res coin_map)
    (outCoinKey : OutCoinKey) (tokenIDStr : list Z) : st utxoCache unit :=
  let tokenIDStr := if bool_decide (tokenIDStr = PRVIDStr) then PRVIDStr else CAStr in
  let otaKey := ok_otaKey outCoinKey in
  let! _ := uc_load otaKey in
  let! shardID := st_lift (res_wrap "GetShardIDPaymentAddressKey failed" (GetShardIDFromPaymentAddress (ok_paymentAddress outCoinKey))) in
  if shardID =? 255 then st_fail "GetShardIDPaymentAddressKey failed" else
  let! w := st_lift (Base58CheckDeserialize otaKey) in
  let keySet := kw_KeySet w in
  if bool_decide (OTAKey_GetOTASecretKey (ks_OTAKey keySet) = None) ||
     bool_decide (OTAKey_GetPublicSpend (ks_OTAKey keySet) = None)
  then st_fail "invalid OTAKey" else
  let! coinLength := st_lift (GetOTACoinLengthByShard shardID tokenIDStr) in
  fun uc =>
    let cached := bool_decide (is_Some (uc_cachedData uc !! otaKey)) in
    let cachedAccount := default (newAccountCache otaKey) (uc_cachedData uc !! otaKey) in
    let cachedToken := default newTokenCache (ac_CachedTokens cachedAccount !! tokenIDStr) in
    let currentIndex := sync_from cachedToken in
    if negb (currentIndex <? coinLength) then (uc, Ok tt)
    else
      (let! data := st_lift (fetch keySet shardID tokenIDStr currentIndex coinLength) in
       let latestIndex := coinLength - 1 in
       if bool_decide (tokenIDStr = PRVIDStr) then
         st_put (addAccount otaKey (fst (update PRVIDStr latestIndex data cachedAccount)) true)
       else
         let! rawAssetTags := st_lift (if bool_decide (data = ∅) then Ok ∅ else GetAllAssetTags) in
         fun uc =>
           match updateAllTokens latestIndex data rawAssetTags cachedAccount with
           | (ac, Ok _) => (addAccount otaKey ac true (write_back otaKey cached ac uc), Ok tt)
           | (ac, Err m) => (write_back otaKey cached ac uc, Err m)
           | (ac, Panic) => (write_back otaKey cached ac uc, Panic)
           | (ac, OutOfFuel) => (write_back otaKey cached ac uc, OutOfFuel)
           end) uc.

(** ** GetAndCacheOutCoins *)

(** The coins of version 2 of the cache, with their indices, and those of version
    1 of the node, with the index -1.  The keys are a pointer: their OTA key is
    emptied for the request of the coins of version 1 and put back behind it, which
    a request that fails does not come to. *)
Definition GetAndCacheOutCoins (fetch : KeySet -> Z -> list Z -> Z -> Z -> res coin_map)
    (tokenID : list Z) : st (utxoCache * OutCoinKey) (list (ICoinInfo * Z)) :=
  fun '(uc, outCoinKey) =>
    if negb (uc_isRunning uc) then ((uc, outCoinKey), Err "utxoCache is not running")
    else
      match syncOutCoinV2 fetch outCoinKey tokenID uc with
      | (uc, Err m) => ((uc, outCoinKey), Err m)
      | (uc, Panic) => ((uc, outCoinKey), Panic)
      | (uc, OutOfFuel) => ((uc, outCoinKey), OutOfFuel)
      | (uc, Ok _) =>
          match uc_cachedData uc !! ok_otaKey outCoinKey with
          | None => ((uc, outCoinKey), Err "otaKey has not been cached")
          | Some cachedAccount =>
              let v2 := match ac_CachedTokens cachedAccount !! tokenID with
                        | Some cached => map (fun p => (snd p, fst p)) (map_range (tc_OutCoins cached))
                        | None => []
                        end in
              let otaKey := ok_otaKey outCoinKey in
              let outCoinKey := ok_SetOTAKey [] outCoinKey in
              match GetOutputCoinsV1 outCoinKey tokenID with
              | Ok v1OutCoins =>
                  let v1 := map (fun p => (fst p, -1))
                              (filter (fun p => ICoinInfo_GetVersion (fst p) = 1) v1OutCoins) in
                  ((uc, ok_SetOTAKey otaKey outCoinKey), Ok (v2 ++ v1))
              | Err m => ((uc, outCoinKey), Err m)
              | Panic => ((uc, outCoinKey), Panic)
              | OutOfFuel => ((uc, outCoinKey), OutOfFuel)
              end
          end
      end.
End cache.

(** ** The scheduler is correct *)

Section scheduler_properties.
Context (getCoins : Z -> Z -> res coin_map) (MaxGetCoinThreads : nat) (firstIndex coinLength : Z).
Context (Hmax : (0 < MaxGetCoinThreads)%nat) (Hrange : 0 <= firstIndex < coinLength) (Hfit : coinLength < 2 ^ 52).

Abbreviation numThreads := (num_threads firstIndex coinLength).
Abbreviation step := (sync_step getCoins MaxGetCoinThreads firstIndex coinLength).

(** The first index of the batch number [k], and the batch. *)
Definition batch_start (k : nat) : Z := Z.min (firstIndex + coinBatchSize * Z.of_nat k) coinLength.
Definition batch (k : nat) : Z * Z := (batch_start k, batch_start (S k) - 1).
Definition in_batch (k : nat) (i : Z) : Prop := fst (batch k) <= i <= snd (batch k).
#[local] Instance in_batch_dec k i : Decision (in_batch k i).
Proof using Type. unfold in_batch. apply _. Defined.
Definition fetched (k : nat) : res coin_map := getCoins (fst (batch k)) (snd (batch k)).

Lemma num_threads_spec :
  firstIndex + coinBatchSize * (Z.of_nat numThreads - 1) < coinLength <= firstIndex + coinBatchSize * Z.of_nat numThreads.
Proof using All.
  unfold num_threads, coinBatchSize. set (a := coinLength - firstIndex + (5000 - 1)).
  pose proof (Z.div_mod a 5000). pose proof (Z.mod_pos_bound a 5000).
  assert (0 <= a / 5000) by (apply Z.div_pos; unfold a; lia).
  rewrite Z2Nat.id by assumption. unfold a in *. lia.
Qed.

Lemma next_index_batch n : next_index coinLength (batch_start n) = batch_start (S n).
Proof using All.
  unfold next_index, batch_start, coinBatchSize, u64.
  assert (0 <= Z.min (firstIndex + 5000 * Z.of_nat n) coinLength + 5000 < 2 ^ 64) as B.
  { split; [lia|]. apply Z.le_lt_trans with (coinLength + 5000); [lia|]. apply Z.lt_trans with (2 ^ 52 + 5000); lia. }
  rewrite Z.mod_small by exact B. destruct (coinLength <? _) eqn:E; to_prop; lia.
Qed.

(** The invariant: the batches [0 .. n) have been started; each is finished
    ([fin]), in the channel ([que]) or running ([run]), none twice, and none is
    lost while the loop runs; the coins collected are those of the finished
    batches. *)
Record sync_inv (s : sync_state) (n : nat) (fin que run : list nat) : Prop := {
  inv_current : ss_currentIndex s = batch_start n;
  inv_started : (n <= numThreads)%nat;
  inv_parts : fin ++ que ++ run ⊆+ seq 0 n;
  inv_running : ss_running s = map batch run;
  inv_chan : ss_statusChan s = map (fun k => (batch k, fetched k)) que;
  inv_bound : (length que + length run <= MaxGetCoinThreads)%nat;
  inv_data : forall k i, k ∈ fin -> in_batch k i -> exists m, fetched k = Ok m /\ ss_data s !! i = m !! i;
  inv_rest : forall i, (forall k, k ∈ fin -> ~ in_batch k i) -> ss_data s !! i = None;
  inv_live : ss_result s = None ->
    ss_doneCount s = length fin /\ ss_numWorking s = (length que + length run)%nat /\
    (length fin < numThreads)%nat /\ (length fin + length que + length run = n)%nat;
  inv_ok : ss_result s = Some (Ok tt) -> length fin = numThreads;
  inv_safe : Forall (fun k => res_safe (fetched k)) que
}.

(** Different batches have no index in common. *)
Lemma batch_disjoint k l i : in_batch k i -> in_batch l i -> k = l.
Proof using All.
  unfold in_batch, batch, batch_start, coinBatchSize. cbn [fst snd]. intros H1 H2. lia.
Qed.

Lemma sync_inv_init : sync_inv (sync_init firstIndex) 0 [] [] [].
Proof using All.
  pose proof num_threads_spec as N. unfold coinBatchSize in N.
  constructor; cbn [sync_init ss_currentIndex ss_running ss_statusChan ss_data ss_result ss_doneCount ss_numWorking length app map seq];
    intros; try first [reflexivity | discriminate | lia | exfalso; by eapply not_elem_of_nil | apply lookup_empty
                      | unfold batch_start; lia | repeat split; lia | by constructor].
Qed.

(** The node answers for the indices it is asked for. *)
Definition answers (f : Z -> Z -> res coin_map) : Prop :=
  forall a b m i, f a b = Ok m -> is_Some (m !! i) -> a <= i <= b.

Section answering.
Context (Hans : answers getCoins).

Lemma inv_receive_data data fin k m (P : forall j i, j ∈ fin -> in_batch j i -> exists m, fetched j = Ok m /\ data !! i = m !! i) :
  (forall i, (forall j, j ∈ fin -> ~ in_batch j i) -> data !! i = None) -> k ∉ fin -> fetched k = Ok m ->
  (forall j i, j ∈ k :: fin -> in_batch j i -> exists m', fetched j = Ok m' /\ (m ∪ data) !! i = m' !! i) /\
  (forall i, (forall j, j ∈ k :: fin -> ~ in_batch j i) -> (m ∪ data) !! i = None).
Proof using All.
  intros R NK F. split.
  - intros j i Hj Hi. apply elem_of_cons in Hj as [->|Hj].
    + exists m. split; [exact F|]. rewrite lookup_union. rewrite (R i); [destruct (m !! i); reflexivity|].
      intros j Hj Hji. rewrite (batch_disjoint j k i Hji Hi) in Hj. contradiction.
    + destruct (P j i Hj Hi) as (m' & Fm & E). exists m'. split; [exact Fm|].
      rewrite lookup_union, E. destruct (m !! i) as [c|] eqn:Em; [|by destruct (m' !! i)].
      assert (in_batch k i) as Hk by (apply (Hans _ _ m i F); by exists c).
      rewrite (batch_disjoint j k i Hi Hk) in Hj. contradiction.
  - intros i H. rewrite lookup_union, R by (intros j Hj; apply H; by right).
    destruct (m !! i) as [c|] eqn:Em; [|reflexivity]. exfalso.
    apply (H k (list_elem_of_here _ _)), (Hans _ _ m i F). by exists c.
Qed.

#[local] Arguments Nat.eqb : simpl never.
Lemma inv_step s s' n fin que run :
  sync_inv s n fin que run -> step s s' -> exists n fin que run, sync_inv s' n fin que run.
Proof using All.
  intros I Hs. destruct I as [IC IN IP IR IQ IB ID IE IL IO IS].
  inversion Hs as [cur dn wk rn data Hd Hw Hc|cur dn wk rn data Hd Hw|cur wk rn data
    |cur dn wk r1 f t r2 q data res m Hq Hg Hm|cur dn wk r1 f t r2 q data Hg
    |cur dn wk rn f t m q data|cur dn wk rn f t m q data]; subst; cbn in *; subst.
  - (* start *)
    destruct que; [|discriminate]. destruct (IL eq_refl) as (-> & -> & L & N). cbn in *.
    pose proof num_threads_spec as NT.
    exists (S n), fin, [], (run ++ [n]). constructor; cbn; rewrite ?length_app, ?map_app; cbn; try assumption.
    + apply next_index_batch.
    + unfold batch_start, coinBatchSize in *. lia.
    + change (0%nat :: seq 1 n) with (seq 0 (S n)). rewrite seq_S, app_assoc. by apply submseteq_app.
    + rewrite next_index_batch. reflexivity.
    + lia.
    + intros _. repeat split; lia.
  - (* sleep *) exists n, fin, que, run. by constructor.
  - (* break *) destruct (IL eq_refl) as (D & _ & L & _). lia.
  - (* send *)
    symmetry in IR. apply map_eq_app in IR as (k1 & k2' & -> & <- & E).
    apply map_eq_cons in E as (k & k2 & -> & E & <-).
    exists n, fin, (que ++ [k]), (k1 ++ k2). constructor; cbn; rewrite ?length_app, ?map_app in *; cbn in *; try assumption; try lia; try reflexivity.
    + rewrite <- IP. rewrite <- !app_assoc. cbn. by rewrite Permutation_middle.
    + unfold batch in E. injection E as <- <-. reflexivity.
    + intros R. destruct (IL R) as (? & ? & ? & ?). repeat split; lia.
    + apply Forall_snoc. split; [assumption|]. unfold batch in E. injection E as <- <-. assumption.
  - (* panic *)
    symmetry in IR. apply map_eq_app in IR as (k1 & k2' & -> & <- & E).
    apply map_eq_cons in E as (k & k2 & -> & E & <-).
    exists n, fin, que, (k1 ++ k2). constructor; cbn; rewrite ?length_app, ?map_app in *; cbn in *; try assumption; try lia; try discriminate; try reflexivity.
    + rewrite <- IP. do 2 apply submseteq_skips_l. apply submseteq_skips_l. by apply submseteq_cons.
  - (* receive *)
    symmetry in IQ. apply map_eq_cons in IQ as (k & q' & -> & E & <-). injection E as E F.
    destruct (IL eq_refl) as (-> & -> & L & N). cbn in *. apply Forall_cons in IS as [_ IS].
    assert (k ∉ fin) as NK.
    { intros Hk. apply submseteq_Permutation in IP as [r P]. pose proof (NoDup_seq 0 n) as ND. rewrite P, <- app_assoc in ND.
      apply NoDup_app in ND as (_ & ND & _).
      apply (ND k Hk). by left. }
    destruct (inv_receive_data data fin k m ID IE NK) as [D1 D2]; [assumption|].
    exists n, (k :: fin), q', run. constructor; cbn; try assumption; try lia; try reflexivity.
    + rewrite <- IP. cbn. by rewrite Permutation_middle.
    + destruct (Nat.eqb_spec (S (length fin)) numThreads); [discriminate|]. intros _. repeat split; lia.
    + destruct (Nat.eqb_spec (S (length fin)) numThreads); [|discriminate]. intros _. assumption.
  - (* failed *)
    symmetry in IQ. apply map_eq_cons in IQ as (k & q' & -> & E & <-).
    apply Forall_cons in IS as [_ IS]. exists n, fin, q', run. constructor; cbn in *; try assumption; try lia; try reflexivity; try discriminate.
    rewrite <- IP. apply submseteq_skips_l. by apply submseteq_cons.
Qed.

Lemma reachable_inv s : rtc step (sync_init firstIndex) s -> exists n fin que run, sync_inv s n fin que run.
Proof using All.
  intros R. apply (rtc_ind_r (fun s => exists n fin que run, sync_inv s n fin que run)) in R; [exact R| |].
  - exists 0%nat, [], [], []. apply sync_inv_init.
  - intros s1 s2 _ Hs (n & fin & que & run & I). by apply (inv_step s1 s2 n fin que run).
Qed.

Lemma batch_of i : firstIndex <= i < coinLength -> exists k, (k < numThreads)%nat /\ in_batch k i.
Proof using All.
  intros Hi. pose proof num_threads_spec as NT. exists (Z.to_nat ((i - firstIndex) / coinBatchSize)).
  unfold in_batch, batch, batch_start, coinBatchSize in *. cbn [fst snd].
  pose proof (Z.div_mod (i - firstIndex) 5000). pose proof (Z.mod_pos_bound (i - firstIndex) 5000).
  assert (0 <= (i - firstIndex) / 5000) by (apply Z.div_pos; lia).
  rewrite Nat2Z.inj_succ, Z2Nat.id by assumption. lia.
Qed.

(** Once all batches are finished, each of them is. *)
Lemma all_finished n fin que run k :
  fin ++ que ++ run ⊆+ seq 0 n -> (n <= numThreads)%nat -> length fin = numThreads -> (k < numThreads)%nat -> k ∈ fin.
Proof using All.
  intros P N L K.
  assert (fin ⊆+ seq 0 n) as P' by (etransitivity; [|exact P]; apply submseteq_inserts_r; reflexivity).
  pose proof (submseteq_length _ _ P') as L'. rewrite length_seq in L'.
  assert (fin ≡ₚ seq 0 n) as -> by (apply submseteq_length_Permutation; [exact P'|rewrite length_seq; lia]).
  apply elem_of_seq. lia.
Qed.

Lemma scheduler_safe_spec (owned : Z -> option ICoinInfo) s :
  (forall a b m i, getCoins a b = Ok m -> m !! i = if decide (a <= i <= b) then owned i else None) ->
  rtc step (sync_init firstIndex) s ->
  (forall i c, ss_data s !! i = Some c -> firstIndex <= i < coinLength /\ owned i = Some c) /\
  (ss_result s = Some (Ok tt) ->
   forall i, ss_data s !! i = if decide (firstIndex <= i < coinLength) then owned i else None).
Proof using All.
  intros HO R. destruct (reachable_inv s R) as (n & fin & que & run & I). destruct I as [IC IN IP IR IQ IB ID IE IL IO IS].
  assert (forall k i, k ∈ fin -> in_batch k i -> ss_data s !! i = owned i) as OWN.
  { intros k i Hk Hi. destruct (ID k i Hk Hi) as (m & F & ->). rewrite (HO _ _ m i F). by rewrite decide_True. }
  assert (forall k i, in_batch k i -> firstIndex <= i < coinLength) as RNG.
  { intros k i. unfold in_batch, batch, batch_start, coinBatchSize. cbn [fst snd]. lia. }
  split.
  - intros i c Hc. destruct (decide (Exists (fun k => in_batch k i) fin)) as [E|N].
    + apply Exists_exists in E as (k & Hk & Hi). rewrite (OWN k i Hk Hi) in Hc. split; [by apply (RNG k)|exact Hc].
    + rewrite IE in Hc; [discriminate|]. intros k Hk Hi. apply N, Exists_exists. by exists k.
  - intros Hr i. specialize (IO Hr). destruct (decide (firstIndex <= i < coinLength)) as [Hi|Hi].
    + destruct (batch_of i Hi) as (k & Hk & Hb). apply (OWN k); [|exact Hb].
      by apply (all_finished n fin que run).
    + apply IE. intros k Hk Hb. by apply Hi, (RNG k).
Qed.

End answering.

(** C23: the scheduler of [syncOutCoinV2] is safe, in every interleaving of its
    loop and its goroutines: at most [MaxGetCoinThreads] of them are at work, none
    of them ever blocks on the channel, what has been collected are coins of the
    account, and when the loop ends without an error, the account's coins among
    [firstIndex .. coinLength) have been collected, each with its index, and
    nothing else. *)
Theorem scheduler_safe (owned : Z -> option ICoinInfo) s :
  (forall a b m i, getCoins a b = Ok m -> m !! i = if decide (a <= i <= b) then owned i else None) ->
  rtc step (sync_init firstIndex) s ->
  (length (ss_running s) + length (ss_statusChan s) <= MaxGetCoinThreads)%nat /\
  (ss_running s <> [] -> (length (ss_statusChan s) < MaxGetCoinThreads)%nat) /\
  (forall i c, ss_data s !! i = Some c -> firstIndex <= i < coinLength /\ owned i = Some c) /\
  (ss_result s = Some (Ok tt) ->
   forall i, ss_data s !! i = if decide (firstIndex <= i < coinLength) then owned i else None).
Proof using All.
  intros HO R.
  assert (answers getCoins) as Hans.
  { intros a b m i F [c Hc]. rewrite (HO a b m i F) in Hc. by destruct (decide (a <= i <= b)). }
  destruct (reachable_inv Hans s R) as (n & fin & que & run & I).
  pose proof (inv_bound _ _ _ _ _ I) as B. rewrite (inv_running _ _ _ _ _ I), (inv_chan _ _ _ _ _ I), !length_map.
  split; [lia|]. split; [|by apply (scheduler_safe_spec Hans)].
  intros N. destruct run; [by destruct N|]. cbn in B. lia.
Qed.

(** The steps that are left: three for a batch that has not been started, two for
    one that is asked for, one for one in the channel, one to end. *)
Definition remaining_steps (s : sync_state) : nat :=
  (3 * num_threads (ss_currentIndex s) coinLength + 2 * length (ss_running s) + length (ss_statusChan s) +
   match ss_result s with None => 1 | Some _ => 0 end)%nat.

Lemma num_threads_left n : (n <= numThreads)%nat -> num_threads (batch_start n) coinLength = (numThreads - n)%nat.
Proof using All.
  intros N. pose proof num_threads_spec as NT. set (T := numThreads) in *. clearbody T.
  unfold num_threads, batch_start, coinBatchSize in *.
  destruct (Nat.eq_dec n T) as [->|NE].
  - rewrite Z.min_r by lia. rewrite Z.sub_diag, Nat.sub_diag. reflexivity.
  - rewrite Z.min_l by lia.
    assert ((coinLength - (firstIndex + 5000 * Z.of_nat n) + (5000 - 1)) / 5000 = Z.of_nat (T - n)) as ->; [|lia].
    symmetry. apply (Z.div_unique _ _ _ (coinLength - (firstIndex + 5000 * Z.of_nat n) + 4999 - 5000 * Z.of_nat (T - n))); lia.
Qed.

Lemma step_decreases s n fin que run : sync_inv s n fin que run ->
  forall s', step s s' -> s' = s \/ (remaining_steps s' < remaining_steps s)%nat.
Proof using All.
  intros I s' Hs. pose proof num_threads_spec as NT.
  inversion Hs as [cur dn wk rn data Hd Hw Hc|cur dn wk rn data Hd Hw|cur wk rn data
    |cur dn wk r1 f t r2 q data res m Hq Hg Hm|cur dn wk r1 f t r2 q data Hg
    |cur dn wk rn f t m q data|cur dn wk rn f t m q data]; subst; unfold remaining_steps;
    cbn [ss_currentIndex ss_running ss_statusChan ss_result]; rewrite ?length_app; cbn [length]; try (right; lia).
  - right. pose proof (inv_current _ _ _ _ _ I) as C. cbn in C. subst cur.
    assert (S n <= numThreads)%nat as L by (unfold batch_start, coinBatchSize in *; lia).
    rewrite next_index_batch, !num_threads_left by lia. lia.
  - by left.
  - right. destruct (S dn =? numThreads)%nat; lia.
Qed.

(** As long as the loop has not ended, something can happen. *)
Lemma step_enabled s n fin que run : sync_inv s n fin que run -> (forall a b, getCoins a b <> OutOfFuel) ->
  ss_result s = None -> exists s', step s s' /\ s' <> s.
Proof using All.
  intros [IC IN IP IR IQ IB ID IE IL IO IS] NF Hr. destruct s as [cur dn wk rn q data res]. cbn in *. subst.
  destruct (IL eq_refl) as (-> & -> & L & N). pose proof num_threads_spec as NT.
  destruct que as [|k que].
  - destruct run as [|k run].
    + cbn in *. assert (batch_start n < coinLength) as C by (unfold batch_start, coinBatchSize in *; lia).
      eexists. split; [apply step_start; [lia|lia|exact C]|]. intros [= E _].
    + cbn in *. destruct (getCoins (batch_start k) (batch_start (S k) - 1)) as [m|m| |] eqn:E;
        [| | |by apply NF in E];
        eexists; split.
      * exact (step_send _ _ _ _ _ _ _ [] _ _ _ [] _ _ _ Hmax E I).
      * discriminate.
      * exact (step_send _ _ _ _ _ _ _ [] _ _ _ [] _ _ _ Hmax E I).
      * discriminate.
      * exact (step_panic _ _ _ _ _ _ _ [] _ _ _ _ _ E).
      * discriminate.
  - cbn in *. destruct (fetched k) as [m|m| |] eqn:E.
    + eexists. split; [apply step_receive|]. intros [= _ F]. lia.
    + eexists. split; [apply step_failed|discriminate].
    + apply Forall_cons in IS as [IS _]. rewrite E in IS. contradiction.
    + by apply NF in E.
Qed.

(** C24: the scheduler makes progress: whatever the interleaving, each step either
    is a sleep, which changes nothing, or uses one of the [3 * numThreads + 1]
    steps there are in all; and as long as the loop has not ended some such step
    can be made. *)
Theorem scheduler_live s :
  answers getCoins -> (forall a b, getCoins a b <> OutOfFuel) -> rtc step (sync_init firstIndex) s ->
  remaining_steps (sync_init firstIndex) = (3 * numThreads + 1)%nat /\
  (forall s', step s s' -> s' = s \/ (remaining_steps s' < remaining_steps s)%nat) /\
  (ss_result s = None -> exists s', step s s' /\ (remaining_steps s' < remaining_steps s)%nat).
Proof using All.
  intros Hans NF R. destruct (reachable_inv Hans s R) as (n & fin & que & run & I).
  split; [unfold remaining_steps, sync_init; cbn; lia|]. split; [by apply (step_decreases s n fin que run)|].
  intros Hr. destruct (step_enabled s n fin que run I NF Hr) as (s' & Hs & N). exists s'. split; [exact Hs|].
  destruct (step_decreases s n fin que run I s' Hs) as [->|D]; [contradiction|exact D].
Qed.
End scheduler_properties.

(** ** What a goroutine collects *)

(** The coins of the chain: of a shard and a token, by index. *)
Class CoinNodeLaws `{CoinNode} (chain : Z -> list Z -> Z -> option ICoinInfo) : Prop :=
  GetOTACoinsByIndices_spec : forall shardID tok l m, GetOTACoinsByIndices shardID tok l = Ok m ->
    forall i, m !! i = if decide (i ∈ l) then chain shardID tok i else None.

Section collecting.
Context `{CO : CurveOps} `{DG : Digests} `{LR : LRU} `{BC : BlockCipher} `{AL : Allocator} `{HD : HDWallet}.
Context `{CN : CoinNode} (chain : Z -> list Z -> Z -> option ICoinInfo) {CNL : CoinNodeLaws chain}.
Context `{MR : MapRange} {MRL : MapRangeLaws}.

(** The coin as the account sees it: [None] when it is not the account's. *)
Definition as_owned (keySet : KeySet) (burning : list Z) (c : ICoinInfo) : option ICoinInfo :=
  if bool_decide (ICoinInfo_Bytes c = burning) then None
  else match ICoinInfo_DoesCoinBelongToKeySet keySet c with
       | Ok (c', true) => Some c'
       | _ => None
       end.

Lemma keep_owned_spec keySet burning l : forall r,
  keep_owned keySet burning l = Ok r -> NoDup (map fst l) ->
  NoDup (map fst r) /\ (forall i, i ∈ map fst r -> i ∈ map fst l) /\
  forall i c', (i, c') ∈ r <-> exists c, (i, c) ∈ l /\ as_owned keySet burning c = Some c'.
Proof using Type.
  induction l as [|[idx c] l IH]; intros r H ND; cbn [keep_owned map fst] in *.
  { injection H as <-. split; [constructor|]. split; [by intros i|]. intros i c'. split.
    - intros E. by apply not_elem_of_nil in E.
    - intros (? & E & _). by apply not_elem_of_nil in E. }
  apply NoDup_cons in ND as [NI ND]. unfold as_owned.
  assert (forall i c' (r : list (Z * ICoinInfo)),
            ((i, c') ∈ r <-> exists c, (i, c) ∈ l /\ as_owned keySet burning c = Some c') ->
            as_owned keySet burning c = None ->
            ((i, c') ∈ r <-> exists c0, (i, c0) ∈ (idx, c) :: l /\ as_owned keySet burning c0 = Some c')) as SKIP.
  { intros i c' r0 E N. rewrite E. split; intros (c0 & Hc & A); exists c0; (split; [|exact A]); [by right|].
    apply elem_of_cons in Hc as [[= -> ->]|Hc]; [congruence|exact Hc]. }
  destruct (bool_decide (ICoinInfo_Bytes c = burning)) eqn:EB.
  { destruct (IH r H ND) as (N & S & E). split; [exact N|]. split; [intros i Hi; right; by apply S|].
    intros i c'. apply SKIP; [apply E|]. unfold as_owned. by rewrite EB. }
  destruct (ICoinInfo_DoesCoinBelongToKeySet keySet c) as [[c1 b]| | |] eqn:D; try discriminate. cbn [res_bind] in H.
  destruct (keep_owned keySet burning l) as [rest| | |] eqn:K; try discriminate. cbn [res_bind] in H.
  injection H as <-. destruct (IH rest eq_refl ND) as (N & S & E). destruct b.
  - split; [cbn; apply NoDup_cons; split; [intros Hi; by apply NI, S|exact N]|].
    split; [intros i Hi; cbn in Hi; apply elem_of_cons in Hi as [->|Hi]; [left|right; by apply S]|].
    intros i c'. rewrite elem_of_cons, E. split.
    + intros [[= -> ->]|(c0 & Hc & A)]; [exists c; split; [left|by rewrite EB, D]|exists c0; split; [by right|exact A]].
    + intros (c0 & Hc & A). apply elem_of_cons in Hc as [[= -> ->]|Hc]; [left|right; by exists c0].
      rewrite EB, D in A. by injection A as ->.
  - split; [exact N|]. split; [intros i Hi; right; by apply S|]. intros i c'. apply SKIP; [apply E|].
    unfold as_owned. by rewrite EB, D.
Qed.

Lemma elem_of_index_list a b i : i ∈ index_list a b <-> a <= i <= b.
Proof using Type.
  unfold index_list. rewrite list_elem_of_fmap. split.
  - intros (k & -> & Hk). apply elem_of_seq in Hk. lia.
  - intros H. exists (Z.to_nat (i - a)). split; [lia|]. apply elem_of_seq. lia.
Qed.

(** The coins of the account, by index. *)
Definition owned_coin (keySet : KeySet) (burning : list Z) (shardID : Z) (tok : list Z) (i : Z) : option ICoinInfo :=
  c ← chain shardID tok i; as_owned keySet burning c.

Lemma getCoinsByIndices_spec keySet burning shardID tok a b m i :
  GetBurningPublicKey = Ok burning -> getCoinsByIndices keySet shardID tok a b = Ok m ->
  m !! i = if decide (a <= i <= b) then owned_coin keySet burning shardID tok i else None.
Proof using CNL MRL.
  intros HB H. unfold getCoinsByIndices in H. rewrite HB in H. clear HB.
  destruct (GetOTACoinsByIndices shardID tok (index_list a b)) as [tmp| | |] eqn:E; try discriminate. cbn [res_bind] in H.
  destruct (keep_owned keySet burning (map_range tmp)) as [r| | |] eqn:K; try discriminate. cbn [res_bind] in H.
  injection H as <-. pose proof (map_range_perm tmp) as P.
  destruct (keep_owned_spec keySet burning _ r K) as (N & _ & S).
  { rewrite P. apply NoDup_fst_map_to_list. }
  pose proof (GetOTACoinsByIndices_spec _ _ _ _ E i) as C.
  assert (forall c', (list_to_map r : coin_map) !! i = Some c' <-> (tmp !! i ≫= as_owned keySet burning) = Some c') as L.
  { intros c'. rewrite <- elem_of_list_to_map by exact N. rewrite S. split.
    - intros (c & Hc & A). rewrite P in Hc. apply elem_of_map_to_list in Hc. by rewrite Hc.
    - intros A. apply bind_Some in A as (c & Hc & A). exists c. split; [|exact A]. rewrite P. by apply elem_of_map_to_list. }
  apply option_eq. intros c'. rewrite L, C. unfold owned_coin.
  destruct (decide (i ∈ index_list a b)) as [D|D]; rewrite elem_of_index_list in D.
  - by rewrite decide_True.
  - by rewrite decide_False.
Qed.
End collecting.

(** ** What the cache holds *)

Section merging.
Context `{CO : CurveOps} `{DG : Digests} `{LR : LRU} `{BC : BlockCipher} `{AL : Allocator} `{HD : HDWallet}.
Context `{MR : MapRange} {MRL : MapRangeLaws}.

Definition cached_coins (ac : accountCache) (tok : list Z) : coin_map :=
  match ac_CachedTokens ac !! tok with Some tc => tc_OutCoins tc | None => ∅ end.

(** The coin, when it is one of the token. *)
Definition coin_of_token (keySet : KeySet) (tags : gmap (list Z) (list Z)) (tok : list Z) (c : ICoinInfo) : option ICoinInfo :=
  match c with
  | InfoV2 c => match GetTokenId keySet tags c with
                | Ok (c', t) => if decide (Hash_String t = tok) then Some (InfoV2 c') else None
                | _ => None
                end
  | _ => None
  end.

Lemma update_spec tok latest m ac ac' upd :
  update tok latest m ac = (ac', upd) ->
  ac_OtaKey ac' = ac_OtaKey ac /\
  ac_CachedTokens ac' = <[tok := mkTokenCache latest (cached_coins ac tok ∪ m)]> (ac_CachedTokens ac) /\
  upd = m ∖ cached_coins ac tok.
Proof using Type.
  unfold update, cached_coins. destruct (ac_CachedTokens ac !! tok) as [tc|]; intros [= <- <-].
  - split; [reflexivity|split; reflexivity].
  - split; [reflexivity|]. rewrite (left_id_L ∅ (∪)), map_difference_empty. split; reflexivity.
Qed.

Lemma add_to_token_coins t latest idx c ac tok :
  ac_OtaKey (add_to_token t latest idx c ac) = ac_OtaKey ac /\
  (tok <> t -> ac_CachedTokens (add_to_token t latest idx c ac) !! tok = ac_CachedTokens ac !! tok) /\
  cached_coins (add_to_token t latest idx c ac) tok =
    if decide (tok = t) then cached_coins ac tok ∪ {[idx := c]} else cached_coins ac tok.
Proof using Type.
  unfold add_to_token, cached_coins, set_token. cbn [ac_OtaKey ac_CachedTokens]. split; [reflexivity|].
  split; [intros N; by rewrite lookup_insert_ne|].
  destruct (decide (tok = t)) as [->|N]; [|by rewrite lookup_insert_ne].
  rewrite lookup_insert_eq. destruct (ac_CachedTokens ac !! t) as [tc|]; cbn [tc_OutCoins].
  - destruct (tc_OutCoins tc !! idx) as [c'|] eqn:E; cbn [tc_OutCoins].
    + apply map_eq. intros i. rewrite lookup_union. destruct (decide (i = idx)) as [->|N].
      * by rewrite E, lookup_singleton_eq.
      * rewrite lookup_singleton_ne by done. by destruct (tc_OutCoins tc !! i).
    + apply map_eq. intros i. rewrite lookup_union. destruct (decide (i = idx)) as [->|N].
      * by rewrite E, lookup_singleton_eq, lookup_insert_eq.
      * rewrite lookup_singleton_ne, lookup_insert_ne by done. by destruct (tc_OutCoins tc !! i).
  - rewrite lookup_empty. cbn [tc_OutCoins]. apply map_eq. intros i. rewrite lookup_union, lookup_empty.
    unfold singletonM, map_singleton. by destruct (_ !! i).
Qed.

(** The records go to their tokens and to no other. *)
Lemma add_records_spec keySet tags latest l : forall ac ac',
  add_records keySet tags latest l ac = (ac', Ok tt) -> NoDup (map fst l) ->
  ac_OtaKey ac' = ac_OtaKey ac /\
  (forall tok, (forall i c, (i, c) ∈ l -> coin_of_token keySet tags tok c = None) ->
     ac_CachedTokens ac' !! tok = ac_CachedTokens ac !! tok) /\
  forall tok i, cached_coins ac' tok !! i =
    match cached_coins ac tok !! i with
    | Some c => Some c
    | None => (list_to_map l : coin_map) !! i ≫= coin_of_token keySet tags tok
    end.
Proof using Type.
  induction l as [|[idx c] l IH]; intros ac ac' H ND; cbn [add_records] in H.
  { injection H as <-. repeat split. intros tok i. by destruct (cached_coins ac tok !! i). }
  cbn [map fst] in ND. apply NoDup_cons in ND as [NI ND].
  destruct c as [| |c]; try discriminate H.
  assert (forall tok i, cached_coins ac tok !! i = None -> coin_of_token keySet tags tok (InfoV2 c) = None ->
    (list_to_map l : coin_map) !! i ≫= coin_of_token keySet tags tok =
    (list_to_map ((idx, InfoV2 c) :: l) : coin_map) !! i ≫= coin_of_token keySet tags tok) as SKIP.
  { intros tok i _ N. cbn [list_to_map foldr fst snd]. unfold uncurry. cbn. destruct (decide (i = idx)) as [->|NE].
    - rewrite lookup_insert_eq, (not_elem_of_list_to_map_1 l idx) by exact NI.
      change (None = coin_of_token keySet tags tok (InfoV2 c)). by rewrite N.
    - by rewrite lookup_insert_ne. }
  destruct (GetTokenId keySet tags c) as [[c' t]|m| |] eqn:G; try discriminate H.
  - unfold st_bind, st_put in H. destruct (IH _ _ H ND) as (K & U & S).
    pose proof (add_to_token_coins (Hash_String t) latest idx (InfoV2 c') ac) as A.
    split; [rewrite K; apply (A [])|]. split.
    + intros tok HN. rewrite U by (intros i c0 Hc; apply (HN i c0); by right). apply A.
      intros ->. specialize (HN idx (InfoV2 c) (list_elem_of_here _ _)). unfold coin_of_token in HN.
      rewrite G, decide_True in HN by reflexivity. discriminate.
    + intros tok i. rewrite S. destruct (A tok) as (_ & _ & ->).
      destruct (decide (tok = Hash_String t)) as [->|NT].
      * rewrite lookup_union. destruct (cached_coins ac (Hash_String t) !! i) as [c0|] eqn:E.
        { destruct (decide (i = idx)) as [->|NE]; [by rewrite lookup_singleton_eq|by rewrite lookup_singleton_ne]. }
        cbn [list_to_map foldr fst snd]. unfold uncurry. cbn. destruct (decide (i = idx)) as [->|NE].
        { rewrite lookup_singleton_eq, lookup_insert_eq. cbn. by rewrite G, decide_True. }
        by rewrite lookup_singleton_ne, lookup_insert_ne.
      * destruct (cached_coins ac tok !! i) eqn:E; [reflexivity|]. apply SKIP; [exact E|].
        unfold coin_of_token. rewrite G. by rewrite decide_False.
  - destruct (IH _ _ H ND) as (K & U & S). split; [exact K|]. split.
    + intros tok HN. apply U. intros i c0 Hc. apply (HN i c0). by right.
    + intros tok i. rewrite S. destruct (cached_coins ac tok !! i) eqn:E; [reflexivity|]. apply SKIP; [exact E|].
      unfold coin_of_token. by rewrite G.
Qed.

(** A coin that a goroutine returned keeps its form when its token is found. *)
Lemma GetTokenId_same keySet tags c0 c rK c' t :
  DoesCoinBelongToKeySet keySet c0 = Ok (c, true, rK) -> GetTokenId keySet tags c = Ok (c', t) -> c' = c.
Proof using Type.
  intros B G.
  assert (c2_assetTag c = None \/ is_Some (c2_rawAssetTag c)) as R.
  { unfold DoesCoinBelongToKeySet in B.
    destruct (GetTxRandomDetail c0) as [[[? ?] ?]| | |]; try discriminate B.
    repeat match type of B with
    | res_bind ?m _ = _ => destruct m; try discriminate B; cbn [res_bind] in B
    | (if ?b then _ else _) = _ => destruct b; try discriminate B
    end.
    destruct (c2_assetTag c0) as [tag|] eqn:ET; [destruct (c2_rawAssetTag c0) as [raw|] eqn:ER|].
    - injection B as <- _. right. rewrite ER. by eexists.
    - repeat match type of B with res_bind ?m _ = _ => destruct m; try discriminate B; cbn [res_bind] in B end.
      injection B as <- _. right. cbn. by eexists.
    - injection B as <- _. by left. }
  unfold GetTokenId in G.
  destruct (match c2_rawAssetTag c with Some raw => tags !! hex_encode raw | None => None end); [by injection G as ->|].
  destruct (c2_assetTag c) as [tag|] eqn:ET; [|by injection G as ->].
  destruct (tags !! hex_encode tag); [by injection G as ->|].
  destruct (DoesCoinBelongToKeySet keySet c) as [[[c1 b] k1]| | |] eqn:D; try discriminate G. cbn [res_bind] in G.
  destruct b; [|discriminate G]. cbn [negb] in G.
  assert (c1 = c) as ->.
  { destruct R as [R|[raw ER]]; [congruence|]. unfold DoesCoinBelongToKeySet in D.
    destruct (GetTxRandomDetail c) as [[[? ?] ?]| | |]; try discriminate D.
    repeat match type of D with
    | res_bind ?m _ = _ => destruct m; try discriminate D; cbn [res_bind] in D
    | (if ?b then _ else _) = _ => destruct b; try discriminate D
    end. rewrite ET, ER in D. by injection D as -> _. }
  destruct (c2_rawAssetTag c); [|discriminate G]. destruct (tags !! hex_encode _); [by injection G as ->|discriminate G].
Qed.
End merging.

(** ** The synchronisation keeps the cache exact *)

Section refinement.
Context `{CO : CurveOps} `{DG : Digests} `{LR : LRU} `{BC : BlockCipher} `{AL : Allocator} `{HD : HDWallet}.
Context `{CN : CoinNode} (chain : Z -> list Z -> Z -> option ICoinInfo) {CNL : CoinNodeLaws chain}.
Context `{MR : MapRange} {MRL : MapRangeLaws} `{CF : CacheFiles}.

(** The account: its strings, key set and shard, and what the node says of the
    tokens. *)
Context (outCoinKey : OutCoinKey) (w : KeyWallet) (shardID : Z) (burning : list Z) (tags : gmap (list Z) (list Z)).
Abbreviation otaKey := (ok_otaKey outCoinKey).
Abbreviation keySet := (kw_KeySet w).
Context (Hshard : GetShardIDFromPaymentAddress (ok_paymentAddress outCoinKey) = Ok shardID).
Context (Hwallet : Base58CheckDeserialize otaKey = Ok w).
Context (Htags : GetAllAssetTags = Ok tags).
Context (Hstore : forall ac, store_account ac = true).

(** Abstractly, the cache of an account is a set of coins: those of the account
    among the first [n] of the chain of PRV, and of the one of all tokens, where
    each is found again under its own token. *)
Definition account_coin (tok : list Z) (i : Z) : option ICoinInfo := owned_coin chain keySet burning shardID tok i.
Definition token_coin (tok : list Z) (i : Z) : option ICoinInfo :=
  account_coin CAStr i ≫= coin_of_token keySet tags tok.

Definition below (f : Z -> option ICoinInfo) (n : Z) (m : coin_map) : Prop :=
  forall i, m !! i = if decide (0 <= i < n) then f i else None.

Definition synced (ac : accountCache) (tok : list Z) : Z :=
  match ac_CachedTokens ac !! tok with Some tc => tc_LatestIndex tc + 1 | None => 0 end.

Record account_ok (ac : accountCache) : Prop := {
  ok_key : ac_OtaKey ac = otaKey;
  ok_range : forall tok, tok = PRVIDStr \/ tok = CAStr -> 0 <= synced ac tok < 2 ^ 52;
  ok_chains : forall tok, tok = PRVIDStr \/ tok = CAStr -> below (account_coin tok) (synced ac tok) (cached_coins ac tok);
  ok_latest : forall tok tc, tok = PRVIDStr \/ tok = CAStr -> ac_CachedTokens ac !! tok = Some tc -> 0 <= tc_LatestIndex tc;
  ok_tokens : forall tok, tok <> PRVIDStr -> tok <> CAStr -> below (token_coin tok) (synced ac CAStr) (cached_coins ac tok)
}.

(** The coins of the chain of all tokens are of neither of the two names. *)
Context (Hnames : forall i, token_coin PRVIDStr i = None /\ token_coin CAStr i = None).

Lemma PRV_not_CA : PRVIDStr <> CAStr.
Proof using Type. apply (bool_decide_unpack (PRVIDStr <> CAStr)). vm_compute. exact I. Qed.

Lemma account_ok_new : account_ok (newAccountCache otaKey).
Proof using Type.
  constructor.
  - reflexivity.
  - intros tok _. unfold synced, newAccountCache. cbn [ac_CachedTokens]. rewrite lookup_empty. lia.
  - intros tok _ i. unfold synced, cached_coins, newAccountCache. cbn [ac_CachedTokens]. rewrite !lookup_empty.
    destruct (decide (0 <= i < 0)); [lia|reflexivity].
  - intros tok tc _ H. unfold newAccountCache in H. cbn [ac_CachedTokens] in H. rewrite lookup_empty in H. discriminate H.
  - intros tok _ _ i. unfold synced, cached_coins, newAccountCache. cbn [ac_CachedTokens]. rewrite !lookup_empty.
    destruct (decide (0 <= i < 0)); [lia|reflexivity].
Qed.

(** The scheduler between two indices collects the coins in between. *)
Definition fetches (f : coin_map) (tok : list Z) (a n : Z) : Prop :=
  forall i, f !! i = if decide (a <= i < n) then account_coin tok i else None.

Lemma below_union (f : Z -> option ICoinInfo) m m' a n n' :
  below f n m -> 0 <= a <= n -> n <= n' ->
  (forall i, m' !! i = if decide (a <= i < n') then f i else None) -> below f n' (m ∪ m').
Proof using Type.
  intros B A L F i. rewrite lookup_union, B, F.
  destruct (decide (0 <= i < n)), (decide (a <= i < n')), (decide (0 <= i < n')); try lia; try reflexivity;
    by destruct (f i).
Qed.

(** Where the synchronisation starts: where the cache ends, or one before. *)
Lemma sync_from_synced ac tok :
  account_ok ac -> tok = PRVIDStr \/ tok = CAStr ->
  let a := sync_from (default newTokenCache (ac_CachedTokens ac !! tok)) in
  0 <= a <= synced ac tok /\ (synced ac tok <= a \/ (a = 0 /\ synced ac tok = 1)).
Proof using Type.
  intros OK Ht. pose proof (ok_range ac OK tok Ht) as R. pose proof (ok_latest ac OK tok) as L. unfold synced in *.
  destruct (ac_CachedTokens ac !! tok) as [tc|]; cbn [default from_option id].
  - specialize (L tc Ht eq_refl). unfold sync_from, u64.
    rewrite Z.mod_small by (split; [lia|]; apply Z.lt_trans with (2 ^ 52); lia).
    cbv zeta. destruct (tc_LatestIndex tc + 1 =? 1) eqn:E; to_prop; lia.
  - assert (sync_from newTokenCache = 0) as E by reflexivity. rewrite E. lia.
Qed.

(** A merge of what was fetched for PRV. *)
Lemma account_ok_prv ac m n ac' upd :
  account_ok ac -> 0 < n < 2 ^ 52 -> synced ac PRVIDStr <= n ->
  fetches m PRVIDStr (sync_from (default newTokenCache (ac_CachedTokens ac !! PRVIDStr))) n ->
  update PRVIDStr (n - 1) m ac = (ac', upd) -> account_ok ac' /\ synced ac' PRVIDStr = n.
Proof using All.
  intros OK N L F U. destruct (update_spec _ _ _ _ _ _ U) as (K & C & _).
  destruct (sync_from_synced ac PRVIDStr OK (or_introl eq_refl)) as [S _].
  assert (synced ac' PRVIDStr = n) as SN by (unfold synced; rewrite C, lookup_insert_eq; cbn; lia).
  assert (forall tok, tok <> PRVIDStr -> ac_CachedTokens ac' !! tok = ac_CachedTokens ac !! tok) as NE
    by (intros tok Ht; by rewrite C, lookup_insert_ne).
  pose proof PRV_not_CA as PC.
  split; [|exact SN]. constructor.
  - by rewrite K, (ok_key ac OK).
  - intros tok [->| ->]; [lia|]. unfold synced. rewrite NE by done. apply (ok_range ac OK). by right.
  - intros tok [->| ->].
    + rewrite SN. unfold cached_coins. rewrite C, lookup_insert_eq. cbn [tc_OutCoins]. fold (cached_coins ac PRVIDStr).
      apply (below_union _ _ _ _ _ _ (ok_chains ac OK PRVIDStr (or_introl eq_refl)) S L F).
    + unfold synced, cached_coins. rewrite NE by done. apply (ok_chains ac OK). by right.
  - intros tok tc [->| ->].
    + rewrite C, lookup_insert_eq. intros [= <-]. cbn. lia.
    + rewrite NE by done. apply (ok_latest ac OK). by right.
  - intros tok H1 H2. unfold synced, cached_coins. rewrite !NE by done. by apply (ok_tokens ac OK).
Qed.

(** A merge of what was fetched for all tokens. *)
Lemma account_ok_tokens ac m n ac' tags' :
  account_ok ac -> 0 < n < 2 ^ 52 -> synced ac CAStr <= n ->
  fetches m CAStr (sync_from (default newTokenCache (ac_CachedTokens ac !! CAStr))) n ->
  tags' = tags \/ m = ∅ ->
  updateAllTokens (n - 1) m tags' ac = (ac', Ok tt) -> account_ok ac' /\ synced ac' CAStr = n.
Proof using All.
  intros OK N L F HT U. unfold updateAllTokens in U.
  destruct (update CAStr (n - 1) m ac) as [ac1 upd] eqn:U1. destruct (update_spec _ _ _ _ _ _ U1) as (K & C & ->).
  unfold st_bind, st_lift in U. rewrite K, (ok_key ac OK), Hwallet in U.
  set (l := map_range (m ∖ cached_coins ac CAStr)) in U.
  assert (NoDup (map fst l)) as ND by (unfold l; rewrite (map_range_perm _); apply NoDup_fst_map_to_list).
  assert ((list_to_map l : coin_map) = m ∖ cached_coins ac CAStr) as EL.
  { rewrite <- (list_to_map_to_list (m ∖ cached_coins ac CAStr)). apply list_to_map_proper; [exact ND|apply map_range_perm]. }
  destruct (sync_from_synced ac CAStr OK (or_intror eq_refl)) as [S S'].
  pose proof (ok_chains ac OK CAStr (or_intror eq_refl)) as B.
  assert (forall i, (m ∖ cached_coins ac CAStr) !! i = if decide (synced ac CAStr <= i < n) then account_coin CAStr i else None) as NEW.
  { intros i. rewrite lookup_difference, F, B.
    destruct (decide (0 <= i < synced ac CAStr)), (decide (synced ac CAStr <= i < n)),
      (decide (sync_from (default newTokenCache (ac_CachedTokens ac !! CAStr)) <= i < n)); try lia; try reflexivity;
      destruct (account_coin CAStr i); reflexivity. }
  assert (forall tok i c, (i, c) ∈ l -> coin_of_token keySet tags' tok c = token_coin tok i) as TC.
  { intros tok i c Hc. apply elem_of_list_to_map_1 in Hc; [|exact ND]. rewrite EL, NEW in Hc.
    destruct (decide (synced ac CAStr <= i < n)) as [Hi|]; [|discriminate Hc]. unfold token_coin. rewrite Hc. cbn.
    destruct HT as [->| ->]; [reflexivity|]. specialize (F i). rewrite lookup_empty in F.
    rewrite decide_True in F by lia. congruence. }
  destruct (add_records_spec _ _ _ _ _ _ U ND) as (K2 & KEEP & COINS).
  assert (forall tok, tok = PRVIDStr \/ tok = CAStr -> ac_CachedTokens ac' !! tok = ac_CachedTokens ac1 !! tok) as CH.
  { intros tok Ht. apply KEEP. intros i c Hc. rewrite (TC tok i c Hc). by destruct Ht as [->| ->], (Hnames i). }
  pose proof PRV_not_CA as PC.
  assert (synced ac' CAStr = n) as SN by (unfold synced; rewrite CH, C, lookup_insert_eq by (by right); cbn; lia).
  assert (ac_CachedTokens ac' !! PRVIDStr = ac_CachedTokens ac !! PRVIDStr) as EP
    by (rewrite CH, C, lookup_insert_ne by (by left || done); reflexivity).
  split; [|exact SN]. constructor.
  - by rewrite K2, K, (ok_key ac OK).
  - intros tok [->| ->]; [|lia]. unfold synced. rewrite EP. apply (ok_range ac OK). by left.
  - intros tok [->| ->].
    + unfold synced, cached_coins. rewrite EP. apply (ok_chains ac OK). by left.
    + rewrite SN. unfold cached_coins. rewrite CH, C, lookup_insert_eq by (by right). cbn [tc_OutCoins].
      fold (cached_coins ac CAStr). apply (below_union _ _ _ _ _ _ B S L F).
  - intros tok tc [->| ->].
    + rewrite EP. apply (ok_latest ac OK). by left.
    + rewrite CH, C, lookup_insert_eq by (by right). intros [= <-]. cbn. lia.
  - intros tok H1 H2 i. rewrite SN, COINS.
    assert (cached_coins ac1 tok = cached_coins ac tok) as -> by (unfold cached_coins; by rewrite C, lookup_insert_ne).
    rewrite (ok_tokens ac OK tok H1 H2), EL, NEW.
    assert (forall i, synced ac CAStr <= i < n -> account_coin CAStr i ≫= coin_of_token keySet tags' tok = token_coin tok i) as TC'.
    { intros j Hj. destruct (account_coin CAStr j) as [c|] eqn:E; [|by unfold token_coin; rewrite E].
      cbn. apply (TC tok j). apply elem_of_list_to_map; [exact ND|]. by rewrite EL, NEW, decide_True. }
    destruct (decide (0 <= i < synced ac CAStr)).
    + rewrite (decide_True (P := 0 <= i < n)) by lia. rewrite decide_False by lia. by destruct (token_coin tok i).
    + destruct (decide (synced ac CAStr <= i < n)); [rewrite decide_True by lia; by apply TC'|].
      rewrite decide_False by lia. reflexivity.
Qed.

Context (Hburning : GetBurningPublicKey = Ok burning).

(** What the scheduler is expected to collect, for the loop that [fetch] stands
    for. *)
Lemma fetches_of_scheduler (MaxGetCoinThreads : nat) tok a n m :
  (0 < MaxGetCoinThreads)%nat -> 0 <= a < n -> n < 2 ^ 52 ->
  sync_ends (getCoinsByIndices keySet shardID tok) MaxGetCoinThreads a n (Ok m) -> fetches m tok a n.
Proof using All.
  intros HM HR HN (s & R & E).
  assert (ss_result s = Some (Ok tt) /\ ss_data s = m) as [ER <-].
  { destruct (ss_result s) as [[[]| | |]|]; try discriminate E; try contradiction. injection E as ->. split; reflexivity. }
  assert (forall x y m i, getCoinsByIndices keySet shardID tok x y = Ok m ->
            m !! i = if decide (x <= i <= y) then account_coin tok i else None) as HO
    by (intros x y m0 i Hm; exact (getCoinsByIndices_spec chain keySet burning shardID tok x y m0 i Hburning Hm)).
  assert (answers (getCoinsByIndices keySet shardID tok)) as HA.
  { intros x y m i Hm [c Hc]. rewrite (HO x y m i Hm) in Hc. destruct (decide (x <= i <= y)); [assumption|discriminate Hc]. }
  exact (proj2 (scheduler_safe_spec _ _ _ _ HM HR HN HA _ s HO R) ER).
Qed.
(** Loading keeps what is in memory, or takes what is in the file. *)
Lemma uc_load_ok uc uc1 :
  uc_load otaKey uc = (uc1, Ok tt) ->
  (forall ac, uc_cachedData uc !! otaKey = Some ac -> account_ok ac) ->
  (forall ac, read_account otaKey = Some (Ok ac) -> account_ok ac) ->
  uc_isRunning uc1 = uc_isRunning uc /\
  account_ok (default (newAccountCache otaKey) (uc_cachedData uc1 !! otaKey)).
Proof using Hnames.
  intros L M F. unfold uc_load in L. destruct (length otaKey =? 0)%nat; [discriminate L|].
  destruct (uc_cachedData uc !! otaKey) as [ac|] eqn:E.
  { injection L as <-. split; [reflexivity|]. rewrite E. apply M. reflexivity. }
  destruct (read_account otaKey) as [[ac| | |]|] eqn:R; try discriminate L; injection L as <-; (split; [reflexivity|]);
    cbn [uc_cachedData].
  - rewrite lookup_singleton_eq. apply F. reflexivity.
  - rewrite lookup_empty. apply account_ok_new.
Qed.

Context (fetch : KeySet -> Z -> list Z -> Z -> Z -> res coin_map) (MaxGetCoinThreads : nat).

Definition chain_name (tok : list Z) : list Z := if bool_decide (tok = PRVIDStr) then PRVIDStr else CAStr.

Lemma addAccount_lookup ac uc : uc_cachedData (addAccount otaKey ac true uc) !! otaKey = Some ac.
Proof using Hstore.
  unfold addAccount. rewrite Hstore. cbn [negb andb]. unfold set_cached. cbn [uc_cachedData]. apply lookup_insert_eq.
Qed.

Lemma sync_spec uc uc' tok n :
  (forall ac, uc_cachedData uc !! otaKey = Some ac -> account_ok ac) ->
  (forall ac, read_account otaKey = Some (Ok ac) -> account_ok ac) ->
  GetOTACoinLengthByShard shardID (chain_name tok) = Ok n -> 0 < n < 2 ^ 52 ->
  (forall a m, 0 <= a < n -> fetch keySet shardID (chain_name tok) a n = Ok m -> fetches m (chain_name tok) a n) ->
  syncOutCoinV2 fetch outCoinKey tok uc = (uc', Ok tt) ->
  exists ac, uc_cachedData uc' !! otaKey = Some ac /\ account_ok ac /\ n <= synced ac (chain_name tok).
Proof using All.
  intros M FL HL HN HF H. unfold syncOutCoinV2, st_bind, st_lift in H. fold (chain_name tok) in H.
  destruct (uc_load otaKey uc) as [uc1 [[]| | |]] eqn:L; try discriminate H.
  destruct (uc_load_ok uc uc1 L M FL) as [_ OK]. rewrite Hshard in H. cbn [res_wrap] in H.
  destruct (shardID =? 255); [discriminate H|]. rewrite Hwallet in H.
  destruct (_ || _); [discriminate H|]. rewrite HL in H.
  set (ac := default (newAccountCache otaKey) (uc_cachedData uc1 !! otaKey)) in *.
  assert (chain_name tok = PRVIDStr \/ chain_name tok = CAStr) as HT
    by (unfold chain_name; destruct (bool_decide (tok = PRVIDStr)); [left|right]; reflexivity).
  destruct (sync_from_synced ac (chain_name tok) OK HT) as [S S'].
  set (a := sync_from (default newTokenCache (ac_CachedTokens ac !! chain_name tok))) in *.
  destruct (a <? n) eqn:E; to_prop; cbn [negb] in H.
  - destruct (fetch keySet shardID (chain_name tok) a n) as [m| | |] eqn:EF; try discriminate H.
    assert (fetches m (chain_name tok) a n) as FM by (apply HF; [lia|exact EF]).
    assert (synced ac (chain_name tok) <= n) as SL by lia.
    subst a. destruct HT as [HT|HT]; rewrite HT in *.
    + rewrite bool_decide_true in H by reflexivity. unfold st_put in H. injection H as <-.
      destruct (update PRVIDStr (n - 1) m ac) as [ac' upd] eqn:U.
      destruct (account_ok_prv ac m n ac' upd OK HN SL FM U) as [OK' SN].
      exists ac'. split; [apply addAccount_lookup|]. split; [exact OK'|]. lia.
    + rewrite bool_decide_false in H by (intros C; exact (PRV_not_CA (eq_sym C))).
      destruct (if bool_decide (m = ∅) then Ok ∅ else GetAllAssetTags) as [tags'| | |] eqn:ET; try discriminate H.
      destruct (updateAllTokens (n - 1) m tags' ac) as [ac' [[]| | |]] eqn:U; try discriminate H. injection H as <-.
      destruct (account_ok_tokens ac m n ac' tags' OK HN SL FM) as [OK' SN]; [|exact U|].
      { destruct (bool_decide_reflect (m = ∅)) as [->|]; [right; reflexivity|left].
        rewrite Htags in ET. injection ET as <-. reflexivity. }
      exists ac'. split; [apply addAccount_lookup|]. split; [exact OK'|]. lia.
  - injection H as <-. exists ac. assert (0 < synced ac (chain_name tok)) as SP by lia.
    split; [|split; [exact OK|lia]]. unfold ac in *.
    destruct (uc_cachedData uc1 !! otaKey); [reflexivity|].
    unfold synced, newAccountCache in SP. cbn [default from_option ac_CachedTokens] in SP. rewrite lookup_empty in SP. lia.
Qed.

(** The coin of the account and the token at an index. *)
Definition listed_coin (tok : list Z) (i : Z) : option ICoinInfo :=
  if decide (tok = PRVIDStr \/ tok = CAStr) then account_coin tok i else token_coin tok i.

(** The coins of a token of an account that is exact, as they are listed. *)
Lemma cached_coins_listed (ac : accountCache) (tok : list Z) :
  account_ok ac ->
  exists v2 : list (ICoinInfo * Z),
    match ac_CachedTokens ac !! tok with
    | Some cached => map (fun p : Z * ICoinInfo => (snd p, fst p)) (map_range (tc_OutCoins cached))
    | None => []
    end = v2 /\
    (NoDup (map snd v2) /\
     (forall i c, 0 <= i < synced ac (chain_name tok) -> (c, i) ∈ v2 <-> listed_coin tok i = Some c)).
Proof using All.
  intros OK.
  assert (below (listed_coin tok) (synced ac (chain_name tok)) (cached_coins ac tok)) as B.
  { unfold listed_coin. destruct (decide (tok = PRVIDStr \/ tok = CAStr)) as [D|D].
    - assert (chain_name tok = tok) as ->; [|by apply (ok_chains ac OK)].
      unfold chain_name. destruct D as [->| ->]; [rewrite bool_decide_true; reflexivity|].
      rewrite bool_decide_false; [reflexivity|]. intros C. exact (PRV_not_CA (eq_sym C)).
    - assert (chain_name tok = CAStr) as -> by (unfold chain_name; rewrite bool_decide_false; [reflexivity|tauto]).
      apply (ok_tokens ac OK); tauto. }
  assert (exists q, q ≡ₚ map_to_list (cached_coins ac tok) /\
    match ac_CachedTokens ac !! tok with
    | Some cached => map (fun p : Z * ICoinInfo => (snd p, fst p)) (map_range (tc_OutCoins cached))
    | None => [] end = map (fun p => (snd p, fst p)) q) as (q & Q & ->).
  { unfold cached_coins. destruct (ac_CachedTokens ac !! tok) as [tc|].
    - exists (map_range (tc_OutCoins tc)). split; [apply map_range_perm|reflexivity].
    - exists []. rewrite map_to_list_empty. split; reflexivity. }
  eexists. split; [reflexivity|]. split.
  - rewrite map_map. change (NoDup (map fst q)). rewrite Q. apply NoDup_fst_map_to_list.
  - intros i c Hi. specialize (B i). rewrite decide_True in B by exact Hi. rewrite <- B, <- elem_of_map_to_list, <- Q.
    rewrite list_elem_of_fmap. split.
    + intros ([j d] & E2 & Hp). injection E2 as -> ->. exact Hp.
    + intros Hp. exists (i, c). split; [reflexivity|exact Hp].
Qed.

Lemma set_OTAKey_back (k : OutCoinKey) : ok_SetOTAKey (ok_otaKey k) (ok_SetOTAKey [] k) = k.
Proof using Type. destruct k; reflexivity. Qed.

Lemma versions_1 (vs : list (ICoinInfo * option Z)) :
  map fst (map (fun p => (fst p, -1)) (filter (fun p => ICoinInfo_GetVersion (fst p) = 1) vs)) =
  filter (fun c => ICoinInfo_GetVersion c = 1) (map fst vs).
Proof using Type.
  induction vs as [|[c o] vs IH]; [reflexivity|]. cbn [map fst]. rewrite !filter_cons. cbn [fst].
  destruct (decide (ICoinInfo_GetVersion c = 1)); cbn [map fst]; [by rewrite IH|exact IH].
Qed.

(** C15: the cache refines the chain.  [GetAndCacheOutCoins], from a cache (and a
    file) that is exact for the account, synchronises it by any run of its
    scheduler, and then returns the coins of the account and the token among all
    the coins there are, each exactly once with its own index, followed by coins
    of version 1 with the index -1, which are those the node answers to the keys
    with their OTA key emptied; the cache stays exact, also for the tokens that
    were not asked for, and the caller's keys are as they were.  When the node
    fails to answer that last request, the caller's OTA key stays empty. *)
Theorem cache_refines_chain uc uc' tok n r k' :
  (forall ac, uc_cachedData uc !! otaKey = Some ac -> account_ok ac) ->
  (forall ac, read_account otaKey = Some (Ok ac) -> account_ok ac) ->
  GetOTACoinLengthByShard shardID (chain_name tok) = Ok n -> 0 < n < 2 ^ 52 -> (0 < MaxGetCoinThreads)%nat ->
  (forall a m, 0 <= a < n -> fetch keySet shardID (chain_name tok) a n = Ok m ->
     sync_ends (getCoinsByIndices keySet shardID (chain_name tok)) MaxGetCoinThreads a n (Ok m)) ->
  GetAndCacheOutCoins fetch tok (uc, outCoinKey) = ((uc', k'), r) ->
  (forall l, r = Ok l ->
   exists v2 v1, l = v2 ++ v1 /\ NoDup (map snd v2) /\
    (forall i c, 0 <= i < n -> (c, i) ∈ v2 <-> listed_coin tok i = Some c) /\
    Forall (fun p => ICoinInfo_GetVersion (fst p) = 1 /\ snd p = -1) v1 /\
    (exists vs, GetOutputCoinsV1 (ok_SetOTAKey [] outCoinKey) tok = Ok vs /\
       map fst v1 = filter (fun c => ICoinInfo_GetVersion c = 1) (map fst vs)) /\
    (forall ac, uc_cachedData uc' !! otaKey = Some ac -> account_ok ac) /\ k' = outCoinKey) /\
  (forall m, uc_isRunning uc = true -> snd (syncOutCoinV2 fetch outCoinKey tok uc) = Ok tt ->
     GetOutputCoinsV1 (ok_SetOTAKey [] outCoinKey) tok = Err m -> r = Err m /\ k' = ok_SetOTAKey [] outCoinKey).
Proof using All.
  intros M FL HL HN HM HF H. unfold GetAndCacheOutCoins in H.
  destruct (uc_isRunning uc); [cbn [negb] in H|injection H as <- <- <-; split; [discriminate|intros ? [=]]].
  destruct (syncOutCoinV2 fetch outCoinKey tok uc) as [uc1 [[]| | |]] eqn:S;
    try (injection H as <- <- <-; split; [discriminate|intros ? _ [=]]).
  destruct (sync_spec uc uc1 tok n M FL HL HN) as (ac & E & OK & SN); [|exact S|].
  { intros a m Ha Hm. apply (fetches_of_scheduler MaxGetCoinThreads _ _ _ _ HM Ha (proj2 HN)), HF; assumption. }
  rewrite E in H. destruct (GetOutputCoinsV1 _ _) as [vs|e| |] eqn:EV; apply pair_equal_spec in H as [H <-];
    apply pair_equal_spec in H as [<- <-].
  2: split; [intros l C; discriminate C|intros m _ _ Hm; injection Hm as ->; split; reflexivity].
  2,3: split; [intros l C; discriminate C|intros m _ _ Hm; discriminate Hm].
  split; [|intros m _ _ Hm; discriminate Hm].
  intros l [= <-]. rewrite (set_OTAKey_back outCoinKey).
  destruct (cached_coins_listed ac tok OK) as (v2 & -> & ND & IFF).
  eexists v2, _. split; [reflexivity|]. split; [exact ND|]. split; [intros i c Hi; apply IFF; lia|]. split; [|split; [|split]].
  - apply Forall_fmap, Forall_forall. intros [c o] Hp. apply list_elem_of_filter in Hp as [V _]. split; [exact V|reflexivity].
  - exists vs. split; [reflexivity|]. apply versions_1.
  - intros ac' E'. rewrite E in E'. injection E' as <-. exact OK.
  - reflexivity.
Qed.
End refinement.

(** ** Witnesses *)

#[local] Existing Instances toy_curve toy_curve_laws toy_digests toy_digest_laws keep_all exact_cap toy_hdwallet toy_cipher.

(** A scheduler with a single batch. *)
Lemma single_batch getCoins a n m :
  0 <= a < n -> n <= a + coinBatchSize -> n < 2 ^ 52 -> getCoins a (n - 1) = Ok m -> sync_ends getCoins 1 a n (Ok m).
Proof.
  intros HA HN HF E. unfold coinBatchSize in HN.
  assert (num_threads a n = 1%nat) as NT.
  { unfold num_threads, coinBatchSize. assert ((n - a + (5000 - 1)) / 5000 = 1) as ->; [|reflexivity].
    symmetry. apply (Z.div_unique _ _ _ (n - a - 1)); lia. }
  assert (next_index n a = n) as NI.
  { unfold next_index, coinBatchSize, u64. rewrite Z.mod_small by (split; [lia|]; apply Z.lt_trans with (2 ^ 52 + 5000); lia).
    destruct (n <? a + 5000) eqn:L; to_prop; lia. }
  exists (mkSync n 1 0 [] [] (m ∪ ∅) (Some (Ok tt))). split.
  - eapply rtc_l; [apply step_start; [rewrite NT; lia|lia|lia]|]. rewrite NI. cbn [app].
    eapply rtc_l; [apply (step_send getCoins 1 a n n 0 1 [] a (n - 1) [] [] ∅ None _ Nat.lt_0_1 E I)|]. cbn [app].
    eapply rtc_l; [apply step_receive|]. rewrite NT. cbn [Nat.eqb]. apply rtc_refl.
  - cbn [ss_result ss_data]. by rewrite (right_id_L ∅ (∪)).
Qed.

Definition toy_ota : list Z := ok_or [] (snd (Base58CheckSerialize OTAKeyType toy_kw ∅)).
Definition toy_ota_kw : KeyWallet := ok_or emptyWallet (Base58CheckDeserialize toy_ota).
Lemma toy_ota_ok : Base58CheckDeserialize toy_ota = Ok toy_ota_kw.
Proof. apply ok_or_spec. vm_compute. reflexivity. Qed.
Definition toy_outCoinKey : OutCoinKey := mkOutCoinKey toy_key toy_ota [].

(** Two coins of PRV: one to a one-time address of the account, with index 1, and
    one to somebody else. *)
Definition toy_mine : CoinV2 :=
  let R := ScalarMultKey GBASE (key_of 9) in
  let rK := ScalarMultKey R (ota_otaSecret (ks_OTAKey (kw_KeySet toy_ota_kw))) in
  c2_SetPublicKey (Some (ota_key rK (ota_pk (ks_OTAKey (kw_KeySet toy_ota_kw))) 1))
    (c2_SetTxRandom (Some (make_TxRandom GBASE R 1)) newCoinV2).
Definition toy_chain (shardID : Z) (tok : list Z) (i : Z) : option ICoinInfo :=
  if bool_decide (tok = PRVIDStr) then
    if i =? 0 then Some (InfoV2 toy_broken) else if i =? 1 then Some (InfoV2 toy_mine) else None
  else None.

#[local] Instance toy_coin_node : CoinNode := {
  GetOTACoinLengthByShard _ _ := Ok 2;
  GetOTACoinsByIndices sh tok l := Ok (list_to_map (omap (fun i => (fun c => (i, c)) <$> toy_chain sh tok i) (remove_dups l)));
  GetAllAssetTags := Ok ∅;
  GetOutputCoinsV1 _ _ := Ok []
}.
#[local] Instance toy_coin_node_laws : CoinNodeLaws toy_chain.
Proof.
  intros sh tok l m E i. injection E as <-. apply option_eq. intros c. rewrite <- elem_of_list_to_map.
  - rewrite list_elem_of_omap. split.
    + intros (j & Hj & E). apply fmap_Some in E as (c' & E & [= -> ->]). rewrite elem_of_remove_dups in Hj.
      rewrite decide_True by exact Hj. exact E.
    + destruct (decide (i ∈ l)) as [Hi|]; [|discriminate]. intros E. exists i. split; [rewrite elem_of_remove_dups; exact Hi|]. rewrite E. reflexivity.
  - pose proof (NoDup_remove_dups l) as ND. induction ND as [|j k NI ND IH]; [constructor|]. cbn [omap list_omap].
    destruct (toy_chain sh tok j) as [c'|]; cbn; [|exact IH]. apply NoDup_cons. split; [|exact IH].
    intros Hj. apply list_elem_of_fmap in Hj as ([j' c0] & -> & Hj). apply list_elem_of_omap in Hj as (j'' & Hj & E).
    apply fmap_Some in E as (? & _ & [= -> _]). by apply NI.
Qed.
#[local] Instance toy_range : MapRange := map_to_list.
#[local] Instance toy_range_laws : MapRangeLaws.
Proof. intros m. reflexivity. Qed.
#[local] Instance no_files : CacheFiles := {| read_account _ := None; store_account _ := true |}.

Definition toy_fetch (ks : KeySet) (sh : Z) (tok : list Z) (a n : Z) : res coin_map :=
  if n <=? a + coinBatchSize then getCoinsByIndices ks sh tok a (n - 1) else Err "not this many coins".
Definition toy_cache : utxoCache := mkUtxoCache true ∅.
Definition toy_answer : (utxoCache * OutCoinKey) * res (list (ICoinInfo * Z)) :=
  GetAndCacheOutCoins toy_fetch PRVIDStr (toy_cache, toy_outCoinKey).

Lemma toy_answer_ok : is_ok (snd toy_answer) = true.
Proof. vm_compute. reflexivity. Qed.
Definition toy_burning : list Z := ok_or [] GetBurningPublicKey.

(** The account's coin is returned, with its index, and its keys are as before. *)
Lemma cache_refines_chain_witness :
  exists uc l c, GetAndCacheOutCoins toy_fetch PRVIDStr (toy_cache, toy_outCoinKey) = ((uc, toy_outCoinKey), Ok l) /\
    listed_coin toy_chain toy_ota_kw 7 toy_burning ∅ PRVIDStr 1 = Some c /\ (c, 1) ∈ l.
Proof.
  assert (toy_answer = ((fst (fst toy_answer), snd (fst toy_answer)), Ok (ok_or [] (snd toy_answer)))) as E.
  { pose proof toy_answer_ok as A. destruct toy_answer as [[s k] r]. cbn [fst snd] in *. by rewrite <- (ok_or_spec [] r A). }
  assert (is_ok (deref (listed_coin toy_chain toy_ota_kw 7 toy_burning ∅ PRVIDStr 1)) = true) as L by (vm_compute; reflexivity).
  destruct (listed_coin toy_chain toy_ota_kw 7 toy_burning ∅ PRVIDStr 1) as [c|] eqn:EL; [|discriminate L].
  destruct (cache_refines_chain toy_chain toy_outCoinKey toy_ota_kw 7 toy_burning ∅) with
    (fetch := toy_fetch) (MaxGetCoinThreads := 1%nat) (uc := toy_cache) (uc' := fst (fst toy_answer)) (tok := PRVIDStr) (n := 2)
    (k' := snd (fst toy_answer)) (r := Ok (ok_or [] (snd toy_answer))) as [ANS _].
  - unfold GetShardIDFromPaymentAddress. cbn [toy_outCoinKey ok_paymentAddress].
    rewrite toy_key_ok. cbn [res_bind]. rewrite toy_key_shard. vm_compute. reflexivity.
  - apply toy_ota_ok.
  - reflexivity.
  - reflexivity.
  - intros i. split; reflexivity.
  - apply ok_or_spec. vm_compute. reflexivity.
  - intros ac H. discriminate H.
  - intros ac H. discriminate H.
  - reflexivity.
  - lia.
  - lia.
  - intros a m Ha Hm. unfold toy_fetch in Hm. destruct (2 <=? a + coinBatchSize) eqn:B; [|discriminate Hm].
    to_prop. apply single_batch; [exact Ha|exact B|lia|exact Hm].
  - exact E.
  - destruct (ANS _ eq_refl) as (v2 & v1 & EV & _ & IFF & _ & _ & _ & EK).
    exists (fst (fst toy_answer)), (ok_or [] (snd toy_answer)), c. split.
    { exact (eq_trans E (f_equal (fun k => ((fst (fst toy_answer), k), Ok (ok_or [] (snd toy_answer)))) EK)). }
    split; [reflexivity|]. rewrite EV. apply elem_of_app. left. apply IFF; [lia|exact EL].
Defined.


(** Coins of which the second is the account's. *)
Definition toy_get (a b : Z) : res coin_map :=
  Ok (if decide (a <= 1 <= b) then {[1 := InfoV2 toy_mine]} else ∅).

Lemma toy_get_run : exists s, rtc (sync_step toy_get 4 0 3) (sync_init 0) s /\ ss_result s = Some (Ok tt).
Proof.
  exists (mkSync 3 1 0 [] [] ({[1 := InfoV2 toy_mine]} ∪ ∅) (Some (Ok tt))). split; [|reflexivity].
  eapply rtc_l; [apply step_start; [discriminate|lia|lia]|]. cbn [app].
  eapply rtc_l; [apply (step_send toy_get 4 0 3 3 0 1 [] 0 2 [] [] ∅ None _ ltac:(simpl; lia) eq_refl I)|].
  eapply rtc_l; [apply step_receive|]. apply rtc_refl.
Qed.

Lemma scheduler_safe_witness :
  exists s, rtc (sync_step toy_get 4 0 3) (sync_init 0) s /\ ss_data s !! 1 = Some (InfoV2 toy_mine) /\ ss_data s !! 2 = None.
Proof.
  destruct toy_get_run as (s & R & E). exists s.
  destruct (scheduler_safe toy_get 4 0 3) with (owned := fun i => if decide (i = 1) then Some (InfoV2 toy_mine) else None) (s := s)
    as (_ & _ & _ & D); [lia|lia|lia| |exact R|].
  - intros a b m i [= <-]. destruct (decide (a <= 1 <= b)).
    + destruct (decide (i = 1)) as [->|N]; [by rewrite lookup_singleton_eq, decide_True|].
      rewrite lookup_singleton_ne by done. by destruct (decide (a <= i <= b)).
    + rewrite lookup_empty. destruct (decide (i = 1)) as [->|]; [by rewrite decide_False|]. by destruct (decide (a <= i <= b)).
  - split; [exact R|]. rewrite !(D E). split; reflexivity.
Defined.

Lemma scheduler_live_witness :
  remaining_steps 12000 (sync_init 0) = 10%nat /\
  exists s', sync_step toy_get 4 0 12000 (sync_init 0) s' /\ (remaining_steps 12000 s' < 10)%nat.
Proof.
  destruct (scheduler_live toy_get 4 0 12000) with (s := sync_init 0) as (E & _ & P); [lia|lia|lia| | |apply rtc_refl|].
  - intros a b m i [= <-] [c Hc]. destruct (decide (a <= 1 <= b)); [|discriminate Hc].
    destruct (decide (i = 1)) as [->|N]; [assumption|]. rewrite lookup_singleton_ne in Hc by done. discriminate Hc.
  - discriminate.
  - destruct (P eq_refl) as (s' & S & L). split; [exact E|]. exists s'. split; [exact S|]. rewrite E in L. exact L.
Defined.
