(* ===== verification/Client.v ===== *)
(** * Client.v: creating transactions (package incclient)

    [tx_utils.go], [tx.go], [txtoken.go] and the types of [common.go]: from the strings
    of a private key and of addresses to the bytes of a transaction.  The client lists
    and chooses coins ([Utxo.v]), asks the node for decoys, fills the parameters of
    [Init] ([TxV2.v], [TokenV2.v]), and writes the result as JSON in base58.  What the
    node answers is the class [Network]; the client's cache of output coins ([Cache.v])
    is not running. *)

From stdpp Require Import base list gmap strings.
From Stdlib Require Import ZArith Lia.
From S2P Require Import Prelude Cursor Common Hashing Encoding Crypto Key Base58 Base58Check Wallet Burning CoinV2 Hybrid CoinV1 Schnorr Mlsag Linear Bulletproof Sigma OneOutOfMany ProofV1 Payment ProofV2 Utxo TxGeneric TxV2 Transfer TxCA TokenV2 Account Cache.
Open Scope Z_scope.

Definition DefaultPRVFee : Z := 100000000.
Definition InscMinFeePerKB : Z := 1000000000.
Definition InscMinFeePerTx : Z := 10000000000.
Definition InscribeRequestMeta : Z := 363.
Definition prvInCoinKey : string := "PRVInputCoins".
Definition tokenInCoinKey : string := "TokenInputCoins".

(** ** Parameters *)

(** Coins with their indices, which may be [nil]. *)
Record coinParams := mkCoinParams' { cp_coinList : list PlainCoin; cp_idxList : list Z }.

(** The values of [kArgs]: [coinParams] or something else. *)
Inductive kArg :=
| ArgCoins (cp : coinParams)
| ArgOther.
Definition kArgs : Type := option (gmap string kArg).

Record TxTokenParam := mkTxTokenParam {
  tt_tokenID : list Z; tt_tokenType : Z; tt_receiverList : list (list Z); tt_amountList : list Z;
  tt_hasTokenFee : bool; tt_tokenFee : Z; tt_kArgs : kArgs }.

Record TxParam (M : Type) := mkTxParam {
  xp_senderPrivateKey : list Z; xp_receiverList : list (list Z); xp_amountList : list Z; xp_fee : Z;
  xp_txTokenParam : option TxTokenParam; xp_md : option M; xp_kArgs : kArgs }.
Arguments mkTxParam {M}. Arguments xp_senderPrivateKey {M}. Arguments xp_receiverList {M}. Arguments xp_amountList {M}. Arguments xp_fee {M}.
Arguments xp_txTokenParam {M}. Arguments xp_md {M}. Arguments xp_kArgs {M}.

Definition NewTxParam {M} (privateKey : list Z) (receiverList : list (list Z)) (amountList : list Z) (prvFee : Z) (tokenParam : option TxTokenParam)
    (md : option M) (kArgs : kArgs) : TxParam M := mkTxParam privateKey receiverList amountList prvFee tokenParam md kArgs.

Definition xp_setFee {M} (v : Z) (p : TxParam M) : TxParam M :=
  mkTxParam (xp_senderPrivateKey p) (xp_receiverList p) (xp_amountList p) v (xp_txTokenParam p) (xp_md p) (xp_kArgs p).

(** What a call changes: the cache of base58 strings, the generators [PedCom.G], and
    the parameters, which are passed by reference. *)
Record call (M : Type) := mkCall { ca_cache : cache; ca_G : list (list Z); ca_param : TxParam M }.
Arguments mkCall {M}. Arguments ca_cache {M}. Arguments ca_G {M}. Arguments ca_param {M}.

Definition on_cache {M A} (m : st cache A) : st (call M) A := fun s =>
  let '(c, r) := m (ca_cache s) in (mkCall c (ca_G s) (ca_param s), r).
Definition on_param {M} (f : TxParam M -> TxParam M) : st (call M) unit := st_put (fun s => mkCall (ca_cache s) (ca_G s) (f (ca_param s))).
Definition the_param {M} : st (call M) (TxParam M) := fun s => (s, Ok (ca_param s)).

(** ** The node *)

Record RandomCommitmentAndPublicKeyResult := mkRandomResult {
  rr_CommitmentIndices : list Z; rr_PublicKeys : list (list Z); rr_Commitments : list (list Z); rr_AssetTags : list (list Z) }.

(** The requests, with what is parsed of the answers: the output coins of a key, and
    random coins of a shard. *)
Class Network : Type := {
  GetListOutputCoins : OutCoinKey -> list Z -> Z -> res (list ICoinInfo * list (option Z));
  RandomCommitmentsAndPublicKeys : Z -> list Z -> nat -> res RandomCommitmentAndPublicKeyResult }.

Section client.
Context `{CO : CurveOps} `{DG : Digests} `{LR : LRU} `{AL : Allocator} `{HD : HDWallet} `{BC : BlockCipher} `{ND : Node} `{SS : SliceSort} `{NW : Network}.

Definition GetUnspentOutputCoins (privateKey tokenID : list Z) (height : Z) : st cache (list PlainCoin * option (list (option Z))) :=
  let! _ := st_lift (Base58CheckDeserialize privateKey) in
  let! outCoinKey := NewOutCoinKeyFromPrivateKey privateKey in
  let! (listOutputCoins, listIndices) := st_lift (GetListOutputCoins (ok_SetReadonlyKey [] outCoinKey) tokenID height) in
  unspent_output_coins privateKey tokenID listOutputCoins listIndices.

(** ** Payments *)

Fixpoint payment_infos (addrList : list (list Z)) (amountList : list Z) : res (list (option PaymentInfo)) :=
  match addrList with
  | [] => Ok []
  | addr :: addrList =>
      let* receiverWallet := res_wrap "cannot deserialize key" (Base58CheckDeserialize addr) in
      match amountList with
      | [] => Panic
      | amount :: amountList =>
          let* infos := payment_infos addrList amountList in
          Ok (Some (mkPaymentInfo (ks_PaymentAddress (kw_KeySet receiverWallet)) amount []) :: infos)
      end
  end.

Definition createPaymentInfos (addrList : list (list Z)) (amountList : list Z) : res (list (option PaymentInfo)) :=
  if negb (length addrList =? length amountList)%nat then Err "length of payment address and length amount mismatch"
  else payment_infos addrList amountList.

(** ** Decoys *)

Definition decode_point (m1 m2 : string) (s : list Z) : res (option (list Z)) :=
  let* (b, _) := res_wrap m1 (Base58Check_Decode s) in
  let* p := res_wrap m2 (Point_FromBytesS b) in
  Ok (Some p).

Definition getRandomCommitmentV2 (shardID : Z) (tokenID : list Z) (lenDecoy : nat) : res (gmap string kv_value) :=
  if (lenDecoy =? 0)%nat then Err "no input coin to retrieve random commitments"
  else
    let* r := RandomCommitmentsAndPublicKeys shardID tokenID lenDecoy in
    let* commitmentList := res_map (decode_point "cannot decode commitment" "cannot parse commitment") (rr_Commitments r) in
    let* pkList := res_map (decode_point "cannot decode public key" "cannot parse public key") (rr_PublicKeys r) in
    let* assetTagList := res_map (decode_point "cannot decode assetTag" "cannot parse assetTag") (rr_AssetTags r) in
    Ok (<[kv_CommitmentIndices := KvIndices (rr_CommitmentIndices r)]>
       (<[kv_Commitments := KvPoints commitmentList]>
       (<[kv_PublicKeys := KvPoints pkList]>
       (<[kv_AssetTags := KvPoints assetTagList]> ∅)))).

(** ** Coins and parameters *)

(** The coins that the caller provides, of the version [v]. *)
Definition given_coins {M} (v : Z) (txParam : TxParam M) (tokenIDStr : list Z) : option coinParams :=
  match xp_kArgs txParam with
  | None => None
  | Some m =>
      match m !! (if bool_decide (tokenIDStr = PRVIDStr) then prvInCoinKey else tokenInCoinKey) with
      | Some (ArgCoins cp) =>
          match getVersionFromInputCoins (cp_coinList cp) with Ok v' => if v' =? v then Some cp else None | _ => None end
      | _ => None
      end
  end.

(** The shard of the sender. *)
Definition sender_shard (w : KeyWallet) : res Z :=
  let* b := last_byte (pa_Pk (ks_PaymentAddress (kw_KeySet w))) in Ok (GetShardIDFromLastByte b).

Definition coins_v2 (privateKey tokenIDStr : list Z) (totalAmount : Z) : st cache (list PlainCoin * list Z) :=
  let! (utxoList, idxList) := GetUnspentOutputCoins privateKey tokenIDStr 0 in
  st_lift (select_coins_v2 utxoList idxList totalAmount).

Definition initParamsV2 {M} (txParam : TxParam M) (tokenIDStr : list Z) (totalAmount : Z) : st cache (list PlainCoin * kv_args) :=
  let! _ := st_lift (Hash_NewHashFromStr zero_hash tokenIDStr) in
  let! senderWallet := st_lift (res_wrap "cannot init private key" (Base58CheckDeserialize (xp_senderPrivateKey txParam))) in
  let! shardID := st_lift (sender_shard senderWallet) in
  let! (coinsToSpend, myIndices) :=
    match given_coins 2 txParam tokenIDStr with
    | Some cp => st_ret (cp_coinList cp, cp_idxList cp)
    | None => coins_v2 (xp_senderPrivateKey txParam) tokenIDStr totalAmount
    end in
  let! kv := st_lift (getRandomCommitmentV2 shardID tokenIDStr (lenDecoy coinsToSpend)) in
  st_ret (coinsToSpend, Some (<[kv_MyIndices := KvIndices myIndices]> kv)).

(** ** Transactions *)

Context {M : Type} `{MO : MetadataOps M} `{TC : TxCodec M} `{KC : TokenCodec}.

Definition is_inscribe (p : TxParam M) : bool := match xp_md p with Some m => md_GetType m =? InscribeRequestMeta | None => false end.

(** The amounts and the fee, modulo 2^64. *)
Definition total_amount (fee : Z) (amountList : list Z) : Z := fold_left (fun t a => u64 (t + a)) amountList fee.

(** The fee of an inscription by its size in kilobytes: the division is of [uint64]. *)
Definition inscribe_fee (numIn numOut : nat) (md : option M) : Z :=
  let txSize := EstimateTxSizeV2 (mkEstimate M (Z.of_nat numIn) (Z.of_nat numOut) md None) / 1024 in
  let estTxFee := u64 (txSize * InscMinFeePerKB) in
  if estTxFee <? InscMinFeePerTx then InscMinFeePerTx else estTxFee.

(** The bytes, the hash as a string. *)
Definition finish_tx (t : TxBase M) : st cache (list Z * list Z) :=
  let! txBytes := st_lift (res_wrap "cannot marshal txver2" (tx_MarshalJSON t)) in
  let! base58CheckData := Base58Check_Encode txBytes 0 in
  let! h := st_lift (Tx_HashBytes t) in
  st_ret (base58CheckData, Hash_String h).

Definition run_Init (fuel : nat) (aggParam : bulletproofParams) (R : TxRandomness) (params : TxPrivacyInitParams M) : res (TxBase M) :=
  match Tx_Init fuel aggParam R params TxBase_new with
  | (t, Ok _) => Ok t
  | (_, Err _) => Err "init txver2 error"
  | (_, Panic) => Panic
  | (_, OutOfFuel) => OutOfFuel
  end.

Definition CreateRawTransactionVer2 (fuel : nat) (aggParam : bulletproofParams) (R : TxRandomness) : st (call M) (list Z * list Z) :=
  let! param := the_param in
  let! senderWallet := st_lift (res_wrap "cannot init private key" (Base58CheckDeserialize (xp_senderPrivateKey param))) in
  let! paymentInfos := st_lift (createPaymentInfos (xp_receiverList param) (xp_amountList param)) in
  let txFee := if is_inscribe param then InscMinFeePerTx else if xp_fee param =? 0 then DefaultPRVFee else xp_fee param in
  let totalAmount := total_amount txFee (xp_amountList param) in
  let hasPrivacy := match xp_md param with Some _ => false | None => true end in
  let new fee coins kv := NewTxPrivacyInitParams (Some (ks_PrivateKey (kw_KeySet senderWallet))) paymentInfos coins fee hasPrivacy (Some PRVCoinID) (xp_md param) None kv in
  let! (coinsToSpend, kArgs) := on_cache (initParamsV2 param PRVIDStr totalAmount) in
  let! txParam :=
    (if is_inscribe param then
       let estTxFee := inscribe_fee (length coinsToSpend) (length paymentInfos) (xp_md param) in
       let! _ := on_param (xp_setFee estTxFee) in
       let! (coinsToSpend, kArgs) := on_cache (initParamsV2 (xp_setFee estTxFee param) PRVIDStr (u64 (u64 (totalAmount - txFee) + estTxFee))) in
       st_ret (new estTxFee coinsToSpend kArgs)
     else st_ret (new txFee coinsToSpend kArgs)) in
  let! t := st_lift (run_Init fuel aggParam R txParam) in
  on_cache (finish_tx t).

(** *** Token transactions *)

Definition finish_token_tx (k : TxToken M) : st cache (list Z * list Z) :=
  let! txBytes := st_lift (res_wrap "cannot marshal txtokenver2" (TxToken_MarshalJSON k)) in
  let! base58CheckData := Base58Check_Encode txBytes 0 in
  let! h := st_lift (let* h := TxToken_Hash k in deref h) in
  st_ret (base58CheckData, Hash_String h).

Definition run_token_Init (fuel : nat) (aggParam : bulletproofParams) (RP RT : TxRandomness) (params : TxTokenParams M) : st (call M) (TxToken M) := fun s =>
  match TxToken_Init fuel aggParam RP RT params (ca_G s, TxToken_new) with
  | ((G, k), r) => (mkCall (ca_cache s) G (ca_param s), res_wrap "init txtokenver2 error" (let* _ := r in Ok k))
  end.

Definition CreateRawTokenTransactionVer2 (fuel : nat) (aggParam : bulletproofParams) (RP RT : TxRandomness) : st (call M) (list Z * list Z) :=
  let! param := the_param in
  match xp_txTokenParam param with
  | None => st_fail "TxTokenParam must not be nil"
  | Some tkp =>
      let tokenIDStr := tt_tokenID tkp in
      let! _ := st_lift (Hash_NewHashFromStr zero_hash tokenIDStr) in
      let! senderWallet := st_lift (res_wrap "cannot init private key" (Base58CheckDeserialize (xp_senderPrivateKey param))) in
      let! _ := st_lift (sender_shard senderWallet) in
      let totalAmount := total_amount 0 (tt_amountList tkp) in
      let! tokenReceivers := st_lift (createPaymentInfos (tt_receiverList tkp) (tt_amountList tkp)) in
      let prvFee := if xp_fee param =? 0 then DefaultPRVFee else xp_fee param in
      let totalPRVAmount := total_amount prvFee (xp_amountList param) in
      let! (coinsToSpendPRV, kvArgsPRV) := on_cache (initParamsV2 param PRVIDStr totalPRVAmount) in
      let! (coinsTokenToSpend, kvArgsToken) := on_cache (initParamsV2 param tokenIDStr totalAmount) in
      let tokenParam := mkTokenParam tokenIDStr [] [] totalAmount (tt_tokenType tkp) tokenReceivers coinsTokenToSpend false 0 kvArgsToken in
      let! prvReceivers := st_lift (if (0 <? length (xp_receiverList param))%nat then createPaymentInfos (xp_receiverList param) (xp_amountList param) else Ok []) in
      let txTokenParam := mkTxTokenParams (Some (ks_PrivateKey (kw_KeySet senderWallet))) prvReceivers coinsToSpendPRV prvFee (Some tokenParam) (xp_md param)
                            true true None kvArgsPRV in
      let! k := run_token_Init fuel aggParam RP RT txTokenParam in
      on_cache (finish_token_tx k)
  end.
End client.

(** ** Properties *)

Section properties.
Context `{CL : CurveLaws} `{DL : DigestLaws} `{LL : LRULaws} `{AA : AllocatorLaws} `{HD : HDWallet} `{BL : BlockCipherLaws}.
Context `{ND : Node} (spent : Z -> list Z -> list Z -> bool) {NL : NodeLaws spent} `{SL : SliceSortLaws} `{NW : Network}.
Context (g h : list Z) (Eg : index PedG PedersenValueIndex = Ok g) (Eh : index PedG PedersenRandomnessIndex = Ok h)
  (Hg : pt_ok g) (Hh : pt_ok h).

(** *** Listing the coins of an account *)

(** A string that holds a key. *)
Definition encodes (s k : list Z) : Prop := exists v, Base58Check_Decode s = Ok (k, v).

Lemma encode_key k s : cache_ok s -> bytes_ok k -> exists s' e, Base58Check_Encode k 0 s = (s', Ok e) /\ cache_ok s' /\ encodes e k.
Proof using LL DL.
  intros Hs Hk. destruct (cached_encode_decode s k 0 false Hs Hk) as (s' & e & v & E & Hs' & D & _); [unfold is_byte; lia|].
  exists s', e. split; [exact E|]. split; [exact Hs'|by exists v].
Qed.

Definition decrypted (ks : KeySet) (c d : CoinV2) : Prop :=
  CoinV2_Decrypt (Some ks) c = (d, Ok tt) /\ exists k, c2_keyImage d = Some k /\ bytes_ok k.

(** The coin of an entry, and its key image. *)
Definition entry_of (d : CoinV2) (e : PlainCoin * list Z) : Prop :=
  fst e = PlainV2 d /\ exists k, c2_keyImage d = Some k /\ encodes (snd e) k.

Lemma decrypt_coins_v2 ks cs ds : Forall2 (decrypted ks) cs ds -> forall s, cache_ok s ->
  exists s' es, decrypt_coins ks (map InfoV2 cs) s = (s', Ok es) /\ cache_ok s' /\ Forall2 entry_of ds es.
Proof using LL DL.
  induction 1 as [|c d cs ds (Hd & k & Ek & Hk) _ IH]; intros s Hs.
  { exists s, []. split; [reflexivity|]. split; [exact Hs|constructor]. }
  destruct (encode_key k s Hs Hk) as (s1 & e & E & Hs1 & De). destruct (IH s1 Hs1) as (s2 & es & E2 & Hs2 & F).
  exists s2, ((PlainV2 d, e) :: es). split; [|split; [exact Hs2|constructor; [|exact F]; split; [reflexivity|by exists k]]].
  cbn [map decrypt_coins decrypt_coin]. rewrite Hd. unfold st_bind, st_lift, st_ret. rewrite Ek. cbn [deref]. by rewrite E, E2.
Qed.

(** The coins of an account with their indices, in the order of the node; those that are
    not spent and not of the value 0, by the key images that are [gone]. *)
Definition unspent_coin (gone : list Z -> bool) (e : CoinV2 * Z) : bool :=
  match c2_keyImage (fst e) with Some k => negb (gone k) | None => false end && negb (coin_value (fst e) =? 0).
Definition unspent_coins (gone : list Z -> bool) (l : list (CoinV2 * Z)) : list (CoinV2 * Z) := filter (fun e => unspent_coin gone e = true) l.

Lemma listed_unspent gone flag ds es xs : (forall s k, encodes s k -> flag s = gone k) -> Forall2 entry_of ds es -> length ds = length xs ->
  let l := listed false flag es (map coin_value ds) (map Some xs) in
  map (fun e => fst (fst (fst e))) l = map (fun e => PlainV2 (fst e)) (unspent_coins gone (zip ds xs)) /\
  map snd l = map (fun e => Some (snd e)) (unspent_coins gone (zip ds xs)).
Proof using Type.
  intros Hflag. revert xs. unfold listed, unspent_coins. intros xs F. revert xs.
  induction F as [|d [c s] ds es (Hc & k & Ek & Hk) _ IH]; intros [|x xs] L; try discriminate L; [by split|].
  injection L as L. destruct (IH xs L) as [IH1 IH2]. cbn [fst snd] in Hc, Hk. subst c. cbn [map zip zip_with]. rewrite !filter_cons.
  assert (kept false flag (PlainV2 d, s, coin_value d, Some x) <-> unspent_coin gone (d, x) = true) as Hkept.
  { unfold kept, unspent_coin. cbn [fst snd]. rewrite Ek, (Hflag s k Hk), andb_true_iff, !negb_true_iff, Z.eqb_neq. reflexivity. }
  destruct (decide (unspent_coin gone (d, x) = true)) as [Hu|Hu].
  - rewrite decide_True by by apply Hkept. cbn [map fst snd]. by rewrite IH1, IH2.
  - rewrite decide_False by (intros K; by apply Hu, Hkept). by split.
Qed.

(** What the client is to know of its account: the string of the private key, and the
    output coins [chain] that the node lists for it, with their indices, which decrypt
    to the coins [ds]. *)
Record account (s : list Z) (w : KeyWallet) (chain : list (CoinV2 * Z)) (ds : list CoinV2) : Prop := mkAccount {
  at_string : Base58CheckDeserialize s = Ok w;
  at_key : sc_ok (ks_PrivateKey (kw_KeySet w));
  at_listed : forall k wo, Base58CheckDeserialize (ok_otaKey k) = Ok wo -> ks_OTAKey (kw_KeySet wo) = ks_OTAKey (kw_KeySet w) ->
    GetListOutputCoins k PRVIDStr 0 = Ok (map (fun e => InfoV2 (fst e)) chain, map (fun e => Some (snd e)) chain);
  at_decrypt : Forall2 (fun e d => CoinV2_Decrypt (Some (kw_KeySet w)) (fst e) = (d, Ok tt) /\ exists x, owned g h (ks_PrivateKey (kw_KeySet w)) d x) chain ds;
  at_distinct : NoDup (map c2_publicKey ds);
  at_indices : Forall (fun e => is_u64 (snd e)) chain;
  at_total : values ds < 2 ^ 63 }.

(** The unspent coins of an account. *)
Definition utxos (gone : list Z -> bool) (chain : list (CoinV2 * Z)) (ds : list CoinV2) : list (CoinV2 * Z) :=
  unspent_coins gone (zip ds (map snd chain)).

Context (gone : list Z -> bool) (Hgone : forall shard s k, encodes s k -> spent shard PRVIDStr s = gone k).

Lemma account_decrypted s w chain ds : account s w chain ds -> Forall2 (decrypted (kw_KeySet w)) (map fst chain) ds.
Proof using CL.
  intros Ha. pose proof (at_decrypt _ _ _ _ Ha) as F. clear -F CL. induction F as [|e d chain ds (E & x & Hx) _ IH]; constructor; [|exact IH].
  split; [exact E|]. exists (key_image x). split; [apply (ow_image _ _ _ _ _ Hx)|].
  pose proof (op_stored _ _ d (ow_opened _ _ _ _ _ Hx)) as ((_ & _ & _ & Hk & _) & _). rewrite (ow_image _ _ _ _ _ Hx) in Hk. apply Hk.
Qed.

Lemma account_owned s w chain ds : account s w chain ds -> Forall (fun d => exists x, owned g h (ks_PrivateKey (kw_KeySet w)) d x) ds.
Proof using Type.
  intros Ha. pose proof (at_decrypt _ _ _ _ Ha) as F. clear -F. induction F as [|e d chain ds (_ & Hx) _ IH]; by constructor.
Qed.

Lemma account_opened s w chain ds : account s w chain ds -> Forall (opened g h) ds.
Proof using Type. intros Ha. eapply Forall_impl; [exact (account_owned s w chain ds Ha)|]. intros d (x & Hx). apply (ow_opened _ _ _ _ _ Hx). Qed.

Lemma GetUnspentOutputCoins_ok s w chain ds c : account s w chain ds -> cache_ok c ->
  let us := utxos gone chain ds in
  exists c', cache_ok c' /\ GetUnspentOutputCoins s PRVIDStr 0 c =
    (c', Ok (map (fun e => PlainV2 (fst e)) us, if (length chain =? 0)%nat then None else Some (map (fun e => Some (snd e)) us))).
Proof using CL DL LL AA Eg Eh Hg Hh Hgone NL.
  intros Ha Hc us. pose proof (at_key _ _ _ _ Ha) as Hsk. pose proof (at_string _ _ _ _ Ha) as D.
  destruct (out_coin_key s w c D Hsk Hc) as (c1 & k & wa & wo & wr & Ek & Hc1 & _ & _ & Do & Eo & _).
  pose proof (account_decrypted s w chain ds Ha) as F. pose proof (Forall2_length _ _ _ F) as L. rewrite length_map in L.
  destruct (decrypt_coins_v2 (kw_KeySet w) (map fst chain) ds F c1 Hc1) as (c2 & es & Ed & Hc2 & Fe).
  exists c2. split; [exact Hc2|]. unfold GetUnspentOutputCoins. rewrite (st_bind_lift _ _ _ _ D). unfold st_bind at 1. rewrite Ek.
  rewrite (st_bind_lift _ _ _ _ (at_listed _ _ _ _ Ha (ok_SetReadonlyKey [] k) wo Do Eo)).
  assert (ks_PrivateKey (kw_KeySet w) <> []) as N by (intros E; destruct Hsk as [[Hl _] _]; rewrite E in Hl; discriminate).
  destruct (account_points _ _ Hsk (deserialize_private_keyset s w D N)) as [Hpk _].
  destruct (last_byte_key _ (proj1 (pt_key _ Hpk))) as (b & Eb & _).
  assert (last_byte_shard (pa_Pk (ks_PaymentAddress (kw_KeySet w))) = Ok (GetShardIDFromLastByte b)) as Es.
  { unfold last_byte_shard. unfold last_byte in Eb. destruct (length _ =? 0)%nat; [discriminate|]. by rewrite Eb. }
  pose proof (account_opened s w chain ds Ha) as Ho.
  assert (map fst es = map PlainV2 ds) as Efst by (clear -Fe; induction Fe as [|d e ds es [E _] _ IH]; [done|]; cbn [map]; by rewrite E, IH).
  rewrite <- (map_map fst InfoV2 chain).
  rewrite (unspent_spec spent s PRVIDStr w _ D Es (map InfoV2 (map fst chain)) c1 c2 es (map coin_value ds) (map (fun e => Some (snd e)) chain) Ed).
  2: { rewrite Efst. apply values_of_Forall2. by apply (opened_values g h Eg Eh Hg Hh). }
  2: { by rewrite !length_map. }
  rewrite <- (map_map snd Some chain).
  destruct (listed_unspent gone (spent (GetShardIDFromLastByte b) PRVIDStr) ds es (map snd chain) (fun s k Hk => Hgone _ s k Hk) Fe) as [E1 E2]; [by rewrite length_map|].
  cbv zeta in E1, E2. rewrite E1, E2. fold (utxos gone chain ds) us. rewrite <- (Forall2_length _ _ _ Fe), <- L. reflexivity.
Qed.

(** *** Choosing coins *)

Lemma sublist_map {A B} (f : A -> B) l k : l `sublist_of` k -> map f l `sublist_of` map f k.
Proof using Type. apply fmap_sublist. Qed.

Lemma submseteq_NoDup' {A} (l k : list A) : l ⊆+ k -> NoDup k -> NoDup l.
Proof using Type. intros [k' E]%submseteq_Permutation Hk. rewrite E in Hk. by apply NoDup_app in Hk as [Hl _]. Qed.

Lemma sublist_Forall {A} (P : A -> Prop) l k : l `sublist_of` k -> Forall P k -> Forall P l.
Proof using Type.
  intros Hs Hk. apply Forall_forall. intros x Hx. apply (proj1 (Forall_forall P k) Hk), (elem_of_submseteq l); [done|by apply sublist_submseteq].
Qed.

(** What is spent: unspent coins of the account, none twice, which reach the amount, and
    none superfluous. *)
Record chosen_coins (us sel : list (CoinV2 * Z)) (amount : Z) : Prop := mkChosen {
  ch_own : Forall (fun e => e ∈ us) sel;
  ch_once : NoDup (map (fun e => c2_publicKey (fst e)) sel);
  ch_enough : amount <= values (map fst sel);
  ch_needed : irredundant amount (map coin_value (map fst sel)) }.

Lemma own_pairs us cs xs :
  Forall2 (own_index (map (fun e : CoinV2 * Z => PlainV2 (fst e)) us) (map (fun e => Some (snd e)) us)) cs xs ->
  exists sel, cs = map (fun e => PlainV2 (fst e)) sel /\ xs = map snd sel /\ Forall (fun e => e ∈ us) sel.
Proof using Type.
  induction 1 as [|c x cs xs (i & Hi & Hx) _ (sel & -> & -> & Hs)]; [by exists []|].
  apply list_lookup_fmap_Some in Hi as (e & -> & Hi). apply list_lookup_fmap_Some in Hx as (e' & Ex & Hx).
  rewrite Hi in Hx. injection Hx as <-. injection Ex as ->. exists (e :: sel). split; [reflexivity|]. split; [reflexivity|].
  constructor; [by eapply list_elem_of_lookup_2|exact Hs].
Qed.

Lemma utxo_in s w chain ds e : account s w chain ds -> e ∈ utxos gone chain ds ->
  (exists x, owned g h (ks_PrivateKey (kw_KeySet w)) (fst e) x) /\ is_u64 (snd e) /\ coin_value (fst e) <> 0.
Proof using Type.
  intros Ha He. apply list_elem_of_filter in He as [Hu He]. apply list_elem_of_lookup in He as [i Hi]. destruct e as [d x].
  apply lookup_zip_Some in Hi as [Hd Hx]. split; [exact (Forall_lookup_1 _ _ _ _ (account_owned s w chain ds Ha) Hd)|]. split.
  - apply list_lookup_fmap_Some in Hx as (e & -> & He). exact (Forall_lookup_1 _ _ _ _ (at_indices _ _ _ _ Ha) He).
  - apply andb_true_iff in Hu as [_ Hu]. by apply negb_true_iff, Z.eqb_neq in Hu.
Qed.

Lemma utxo_sublist s w chain ds : account s w chain ds -> map fst (utxos gone chain ds) `sublist_of` ds.
Proof using Type.
  intros Ha. unfold utxos, unspent_coins. etransitivity; [apply sublist_map, sublist_filter|].
  pose proof (Forall2_length _ _ _ (at_decrypt _ _ _ _ Ha)) as L. rewrite fst_zip; [done|]. rewrite length_map. lia.
Qed.

Lemma values_nonneg cs : Forall (opened g h) cs -> 0 <= values cs.
Proof using Type. intros Ho. apply zsum_nonneg, Forall_map. eapply Forall_impl; [exact Ho|]. intros c Hc. apply (op_value _ _ c Hc). Qed.

Lemma values_sublist cs ds : Forall (opened g h) ds -> cs `sublist_of` ds -> values cs <= values ds.
Proof using Type.
  intros Ho Hs. unfold values. change zsum with sumZ. apply sumZ_sublist; [|by apply sublist_map].
  apply Forall_map. eapply Forall_impl; [exact Ho|]. intros c Hc. apply (op_value _ _ c Hc).
Qed.

Lemma coins_v2_ok s w chain ds amount c : account s w chain ds -> cache_ok c -> 0 < amount -> is_u64 amount ->
  let us := utxos gone chain ds in
  exists c', cache_ok c' /\
    (values (map fst us) < amount /\ coins_v2 s PRVIDStr amount c = (c', Err "total unspent amount is less than the required amount") \/
     exists sel, chosen_coins us sel amount /\ coins_v2 s PRVIDStr amount c = (c', Ok (map (fun e => PlainV2 (fst e)) sel, map snd sel))).
Proof using CL DL LL AA Eg Eh Hg Hh Hgone NL SL.
  intros Ha Hc Hpos Hamount us. destruct (GetUnspentOutputCoins_ok s w chain ds c Ha Hc) as (c' & Hc' & E). fold us in E.
  exists c'. split; [exact Hc'|]. unfold coins_v2, st_bind. rewrite E. pose proof (utxo_sublist s w chain ds Ha) as Hsub. fold us in Hsub.
  pose proof (account_opened s w chain ds Ha) as Hods.
  assert (Forall (opened g h) (map fst us)) as Hops by (by eapply sublist_Forall).
  destruct (length chain =? 0)%nat eqn:El; to_prop.
  { left. destruct chain; [|discriminate]. pose proof (Forall2_length _ _ _ (at_decrypt _ _ _ _ Ha)) as L. destruct ds; [|discriminate].
    split; [unfold values, us; cbn; unfold zsum; cbn; lia|]. unfold us, st_lift, select_coins_v2, divideCoins. cbn. unfold chooseBestCoinsByAmount. cbn.
    by rewrite (proj2 (Z.ltb_lt _ _)) by lia. }
  set (coins := map (fun e => PlainV2 (fst e)) us). set (idx := map (fun e => Some (snd e)) us).
  assert (Utxo.values_of coins = Ok (map coin_value (map fst us))) as Hv.
  { apply values_of_Forall2. unfold coins. rewrite <- (map_map fst PlainV2). by apply (opened_values g h Eg Eh Hg Hh). }
  assert (filter is_v2 coins = coins) as Ef.
  { clear. unfold coins. induction us as [|e us IH]; [done|]. cbn [map]. rewrite filter_cons_True by reflexivity. by rewrite IH. }
  destruct (select_coins_v2_spec coins idx (map coin_value (map fst us)) amount) as (ws & Ews & Hr); try assumption.
  - unfold coins, idx. apply Forall2_fmap, Forall_Forall2_diag, Forall_forall. intros e He _.
    destruct (utxo_in s w chain ds e Ha He) as ((x & Hx) & Hi & _). split; [|by exists (snd e)].
    cbn [PlainCoin_GetPublicKey]. rewrite (ow_pk _ _ _ _ _ Hx). by eexists.
  - rewrite Ef. unfold coins. rewrite <- (map_map fst PlainV2). change (NoDup (map PlainCoin_GetPublicKey (map PlainV2 (map fst us)))). rewrite map_map. apply (sublist_NoDup _ (map c2_publicKey ds)); [apply (at_distinct _ _ _ _ Ha)|].
    by apply sublist_map.
  - apply Forall_map. eapply Forall_impl; [exact Hops|]. intros d Hd. apply (op_value _ _ d Hd).
  - change sumZ with zsum. fold (values (map fst us)). pose proof (values_sublist _ _ Hods Hsub). pose proof (at_total _ _ _ _ Ha). lia.
  - rewrite Ef, Hv in Ews. injection Ews as <-. change sumZ with zsum in Hr. fold (values (map fst us)) in Hr.
    destruct (Z.ltb_spec (values (map fst us)) amount) as [Hlt|Hge].
    { left. split; [exact Hlt|]. unfold st_lift. by rewrite Hr. }
    right. destruct Hr as (cs & xs & vs & Esel & Hcs & Hown & Hvs & Hge' & Hirr). destruct (own_pairs us cs xs Hown) as (sel & -> & -> & Hin).
    exists sel. split; [|unfold st_lift; by rewrite Esel]. rewrite <- (map_map fst PlainV2) in Hvs, Hcs. rewrite Ef in Hcs.
    assert (Forall (opened g h) (map fst sel)) as Hosel.
    { apply Forall_map. eapply Forall_impl; [exact Hin|]. intros e He. destruct (utxo_in s w chain ds e Ha He) as ((x & Hx) & _). apply (ow_opened _ _ _ _ _ Hx). }
    assert (vs = map coin_value (map fst sel)) as ->.
    { pose proof (proj2 (values_of_Forall2 _ _) (opened_values g h Eg Eh Hg Hh _ Hosel)) as E2. rewrite Hvs in E2. by injection E2. }
    constructor; [exact Hin| |exact Hge'|].
    + rewrite <- (map_map fst c2_publicKey). unfold coins in Hcs. rewrite <- (map_map fst PlainV2) in Hcs.
      apply (fmap_submseteq PlainCoin_GetPublicKey) in Hcs. change (map PlainCoin_GetPublicKey (map PlainV2 (map fst sel)) ⊆+ map PlainCoin_GetPublicKey (map PlainV2 (map fst us))) in Hcs.
      rewrite !map_map in Hcs. rewrite map_map. eapply submseteq_NoDup'; [exact Hcs|].
      change (NoDup (map (fun e : CoinV2 * Z => c2_publicKey (fst e)) us)). rewrite <- (map_map fst c2_publicKey).
      apply (sublist_NoDup _ (map c2_publicKey ds)); [apply (at_distinct _ _ _ _ Ha)|]. by apply sublist_map.
    + apply Hirr, Forall_map, Forall_map, Forall_forall. intros e He. destruct (utxo_in s w chain ds e Ha He) as ((x & Hx) & _ & Hne).
      pose proof (op_value _ _ _ (ow_opened _ _ _ _ _ Hx)) as Hu. unfold is_u64 in Hu. lia.
Qed.

(** *** Decoys *)

(** A string that holds a point. *)
Definition point_string (s p : list Z) : Prop := encodes s p /\ pt_ok p.

(** The node answers [n] random coins of the shard. *)
Definition answers (n : nat) (r : RandomCommitmentAndPublicKeyResult) : Prop :=
  length (rr_CommitmentIndices r) = n /\ Forall is_u64 (rr_CommitmentIndices r) /\
  length (rr_Commitments r) = n /\ Forall (fun s => exists p, point_string s p) (rr_Commitments r) /\
  length (rr_PublicKeys r) = n /\ Forall (fun s => exists p, point_string s p) (rr_PublicKeys r) /\
  Forall (fun s => exists p, point_string s p) (rr_AssetTags r).

Class NetworkLaws : Prop :=
  random_coins : forall shardID n, (0 < n)%nat -> exists r, RandomCommitmentsAndPublicKeys shardID PRVIDStr n = Ok r /\ answers n r.

Lemma decode_points m1 m2 l : Forall (fun s => exists p, point_string s p) l ->
  exists ps, res_map (decode_point m1 m2) l = Ok (map Some ps) /\ length ps = length l /\ Forall pt_ok ps.
Proof using CL.
  induction 1 as [|s l (p & (v & D) & Hp) _ (ps & E & L & P)]; [by exists []|]. exists (p :: ps). split; [|split; [cbn; lia|by constructor]].
  cbn [res_map]. rewrite E. unfold decode_point. rewrite D. cbn [res_wrap res_bind]. by rewrite (FromBytesS_pt _ Hp).
Qed.

Lemma u64_fits x : is_u64 x -> index_fits x.
Proof using Type.
  unfold is_u64, index_fits, MaxSizeByte. intros [Hlo Hhi]. split; [exact Hlo|]. eapply Z.lt_le_trans; [exact Hhi|].
  change (Z.of_nat 255) with 255. change 256 with (2 ^ 8). rewrite <- Z.pow_mul_r by lia. apply Z.pow_le_mono_r; lia.
Qed.

Lemma getRandomCommitmentV2_ok {NWL : NetworkLaws} shard coins my : (0 < length coins)%nat -> length my = length coins -> Forall is_u64 my ->
  exists kv rp cs pks, getRandomCommitmentV2 shard PRVIDStr (lenDecoy coins) = Ok kv /\
    ring_kv (length coins) (Some (<[kv_MyIndices := KvIndices my]> kv)) my rp cs pks.
Proof using CL.
  intros Hpos Hmy Hfit. unfold getRandomCommitmentV2, lenDecoy, RingSize. set (n := (length coins * (8 - 1))%nat).
  rewrite (proj2 (Nat.eqb_neq n 0)) by lia. destruct (random_coins shard n ltac:(lia)) as (r & E & Li & Fi & Lc & Fc & Lp & Fp & Fa). rewrite E.
  destruct (decode_points "cannot decode commitment" "cannot parse commitment" _ Fc) as (cs & Ec & Lcs & Pcs).
  destruct (decode_points "cannot decode public key" "cannot parse public key" _ Fp) as (pks & Ep & Lps & Pps).
  destruct (decode_points "cannot decode assetTag" "cannot parse assetTag" _ Fa) as (tags & Ea & _ & _).
  cbn [res_bind]. rewrite Ec. cbn [res_bind]. rewrite Ep. cbn [res_bind]. rewrite Ea. cbn [res_bind].
  eexists _, (mkRingParams (rr_CommitmentIndices r) my (map Some cs) (map Some pks) (map Some tags)), cs, pks. split; [reflexivity|].
  constructor; cbn [rg_cmtIndices rg_assetTags].
  - eexists. split; [reflexivity|]. repeat split.
  - reflexivity.
  - lia.
  - by split.
  - split; (eapply Forall_impl; [eassumption|exact u64_fits]).
Qed.

(** *** Payments *)

(** What is to be paid: the payment [info] of an address and an amount. *)
Definition pays (p : list Z * Z) (info : PaymentInfo) : Prop :=
  exists w, Base58CheckDeserialize (fst p) = Ok w /\ info = mkPaymentInfo (ks_PaymentAddress (kw_KeySet w)) (snd p) [].

Lemma createPaymentInfos_ok addrs amounts infos : length addrs = length amounts -> Forall2 pays (zip addrs amounts) infos ->
  createPaymentInfos addrs amounts = Ok (map Some infos) /\ map pi_Amount infos = amounts /\ length infos = length amounts.
Proof using Type.
  intros L F. unfold createPaymentInfos. rewrite L, Nat.eqb_refl. cbn [negb]. revert amounts infos L F.
  induction addrs as [|a addrs IH]; intros [|v amounts] infos L F; try discriminate L.
  { apply Forall2_nil_inv_l in F. by subst infos. }
  injection L as L. apply Forall2_cons_inv_l in F as (info & infos' & (w & D & ->) & F & ->). destruct (IH amounts infos' L F) as (E & Ea & El).
  split; [|cbn [map length pi_Amount]; split; [by rewrite Ea|by rewrite El]]. cbn [payment_infos fst] in *. rewrite D. cbn [res_wrap res_bind snd].
  by rewrite E.
Qed.

Lemma total_amount_sum fee l : is_u64 fee -> Forall is_u64 l -> fee + zsum l < 2 ^ 64 -> total_amount fee l = fee + zsum l.
Proof using Type.
  unfold total_amount. intros Hf Hl. revert fee Hf. induction Hl as [|v l Hv Hl IH]; intros fee Hf Hs.
  { unfold zsum. cbn. lia. }
  assert (0 <= zsum l) as Hp by (apply zsum_nonneg; eapply Forall_impl; [exact Hl|]; intros z Hz; apply Hz).
  change (zsum (v :: l)) with (v + zsum l) in *. cbn [fold_left]. unfold is_u64 in *. replace (u64 (fee + v)) with (fee + v) by (unfold u64; symmetry; apply Z.mod_small; lia).
  rewrite IH by lia. lia.
Qed.

(** *** Transactions *)

Section prv.
Context {M : Type} `{MO : MetadataOps M} `{JL : TxCodecLaws M}.
Context {NWL : NetworkLaws} (fuel : nat) (aggParam : bulletproofParams) (R : TxRandomness).

(** The fee that is paid. *)
Definition fee_of (p : TxParam M) : Z := if xp_fee p =? 0 then DefaultPRVFee else xp_fee p.

(** A request of a transfer: receivers with amounts, a fee, and nothing else. *)
Record request (p : TxParam M) (w : KeyWallet) (infos : list PaymentInfo) : Prop := mkRequest {
  rq_lengths : length (xp_receiverList p) = length (xp_amountList p);
  rq_pays : Forall2 pays (zip (xp_receiverList p) (xp_amountList p)) infos;
  rq_payable : Forall payable_info infos;
  rq_count : (length infos < MaxOutputCoin)%nat;
  rq_fee : is_u64 (xp_fee p);
  rq_total : zsum (xp_amountList p) + fee_of p < 2 ^ 63;
  rq_plain : xp_md p = None;
  rq_coins : xp_kArgs p = None;
  rq_change : IsPublicKeyBurningAddress (pa_Pk (ks_PaymentAddress (kw_KeySet w))) = Ok false \/ ge_frombytes (replicate 32 0) = true }.

(** The amount needed, and the parameters of [Init]. *)
Definition required (p : TxParam M) : Z := zsum (xp_amountList p) + fee_of p.

Definition init_params (p : TxParam M) (w : KeyWallet) (infos : list PaymentInfo) (sel : list (CoinV2 * Z)) (kv : kv_args) : TxPrivacyInitParams M :=
  NewTxPrivacyInitParams (Some (ks_PrivateKey (kw_KeySet w))) (map Some infos) (map (fun e => PlainV2 (fst e)) sel) (fee_of p) true (Some PRVCoinID) None None kv.

Lemma fee_of_ok p : is_u64 (xp_fee p) -> is_u64 (fee_of p) /\ 0 < fee_of p.
Proof using Type. unfold fee_of, is_u64, DefaultPRVFee. intros Hf. destruct (Z.eqb_spec (xp_fee p) 0); lia. Qed.

Lemma request_amounts p w infos : request p w infos -> createPaymentInfos (xp_receiverList p) (xp_amountList p) = Ok (map Some infos) /\
  map pi_Amount infos = xp_amountList p /\ Forall is_u64 (xp_amountList p) /\ 0 <= zsum (xp_amountList p).
Proof using Type.
  intros Hr. destruct (createPaymentInfos_ok _ _ _ (rq_lengths _ _ _ Hr) (rq_pays _ _ _ Hr)) as (E & Ea & _). split; [exact E|]. split; [exact Ea|].
  rewrite <- Ea. split; [|apply payable_sum, (rq_payable _ _ _ Hr)].
  apply Forall_map. eapply Forall_impl; [exact (rq_payable _ _ _ Hr)|]. intros i Hi. apply Hi.
Qed.

Lemma initParamsV2_ok p w chain ds infos c : account (xp_senderPrivateKey p) w chain ds -> request p w infos -> cache_ok c ->
  let us := utxos gone chain ds in
  exists c', cache_ok c' /\
    (values (map fst us) < required p /\ initParamsV2 p PRVIDStr (required p) c = (c', Err "total unspent amount is less than the required amount") \/
     exists sel kv, chosen_coins us sel (required p) /\ initParamsV2 p PRVIDStr (required p) c = (c', Ok (map (fun e => PlainV2 (fst e)) sel, kv)) /\
       exists rp cs pks, ring_kv (length sel) kv (map snd sel) rp cs pks).
Proof using CL DL LL AA Eg Eh Hg Hh Hgone NL SL NWL.
  intros Ha Hr Hc us. destruct (request_amounts p w infos Hr) as (_ & _ & Hu & Hz). destruct (fee_of_ok p (rq_fee _ _ _ Hr)) as [Hfu Hf].
  pose proof (rq_total _ _ _ Hr) as Ht.
  destruct (coins_v2_ok _ w chain ds (required p) c Ha Hc ltac:(unfold required; lia) ltac:(unfold required, is_u64 in *; lia)) as (c' & Hc' & Hcoins).
  exists c'. split; [exact Hc'|]. fold us in Hcoins.
  assert (ks_PrivateKey (kw_KeySet w) <> []) as N by (intros E; destruct (at_key _ _ _ _ Ha) as [[Hl _] _]; rewrite E in Hl; discriminate).
  destruct (account_points _ _ (at_key _ _ _ _ Ha) (deserialize_private_keyset _ w (at_string _ _ _ _ Ha) N)) as [Hpk _].
  destruct (last_byte_key _ (proj1 (pt_key _ Hpk))) as (b & Eb & _).
  unfold initParamsV2. assert (exists hh, Hash_NewHashFromStr zero_hash PRVIDStr = Ok hh) as [hh Ehh] by (eexists; vm_compute; reflexivity).
  rewrite (st_bind_lift _ _ _ _ Ehh), (at_string _ _ _ _ Ha). cbn [res_wrap]. erewrite (st_bind_lift (Ok w)) by reflexivity.
  unfold sender_shard. rewrite Eb. cbn [res_bind]. erewrite (st_bind_lift (Ok _)) by reflexivity.
  unfold given_coins. rewrite (rq_coins _ _ _ Hr). destruct Hcoins as [[Hlt E]|(sel & Hsel & E)].
  { left. split; [exact Hlt|]. unfold st_bind. by rewrite E. }
  right. set (coins := map (fun e : CoinV2 * Z => PlainV2 (fst e)) sel) in *.
  assert (length coins = length sel) as Ls by (unfold coins; by rewrite length_map).
  destruct (getRandomCommitmentV2_ok (GetShardIDFromLastByte b) coins (map snd sel)) as (kv & rp & cs & pks & Ekv & Hkv).
  - rewrite Ls. destruct sel; [|cbn; lia]. exfalso. pose proof (ch_enough _ _ _ Hsel) as Hen. change (required p <= 0) in Hen. unfold required in Hen. lia.
  - by rewrite length_map.
  - apply Forall_map. eapply Forall_impl; [exact (ch_own _ _ _ Hsel)|]. intros e He. by destruct (utxo_in _ w chain ds e Ha He) as (_ & Hi & _).
  - exists sel, (Some (<[kv_MyIndices := KvIndices (map snd sel)]> kv)). split; [exact Hsel|]. split; [|rewrite <- Ls; by eauto].
    unfold st_bind at 1. rewrite E. unfold st_bind, st_lift. by rewrite Ekv.
Qed.

Lemma sumZ_submseteq l1 l2 : Forall (Z.le 0) l2 -> l1 ⊆+ l2 -> sumZ l1 <= sumZ l2.
Proof using Type.
  intros Hpos Hsub. induction Hsub as [|x l1 l2 Hs IH|x y l|x l1 l2 Hs IH|l1 l2 l3 H12 IH1 H23 IH2]; unfold sumZ in *; cbn [foldr].
  - reflexivity.
  - apply Forall_cons in Hpos as [_ Hpos]. specialize (IH Hpos). lia.
  - lia.
  - apply Forall_cons in Hpos as [Hx Hpos]. specialize (IH Hpos). lia.
  - assert (Forall (Z.le 0) l2) as Hpos2 by (apply Forall_forall; intros z Hz; apply (proj1 (Forall_forall _ _) Hpos); by eapply elem_of_submseteq).
    specialize (IH1 Hpos2). specialize (IH2 Hpos). lia.
Qed.

Lemma chosen_values us sel amount : Forall (fun e => opened g h (fst e)) us -> chosen_coins us sel amount -> values (map fst sel) <= values (map fst us).
Proof using Type.
  intros Ho Hsel. assert (sel ⊆+ us) as Hsub.
  { apply NoDup_submseteq; [|exact (proj1 (Forall_forall _ _) (ch_own _ _ _ Hsel))]. exact (NoDup_fmap_1 _ _ (ch_once _ _ _ Hsel)). }
  unfold values. change zsum with sumZ. apply sumZ_submseteq.
  - apply Forall_map, Forall_map. eapply Forall_impl; [exact Ho|]. intros e He. apply (op_value _ _ _ He).
  - rewrite !map_map. by apply fmap_submseteq.
Qed.

Lemma transfer_of p w chain ds infos sel kv pi : account (xp_senderPrivateKey p) w chain ds -> request p w infos ->
  let us := utxos gone chain ds in (length us < 255)%nat -> chosen_coins us sel (required p) ->
  (exists rp cs pks, ring_kv (length sel) kv (map snd sel) rp cs pks) -> tr_pi R = Ok pi -> (pi < RingSize)%nat ->
  exists xs, transfer g h R (init_params p w infos sel kv) (ks_PrivateKey (kw_KeySet w)) (map fst sel) xs infos (map snd sel) pi.
Proof using CL Eg Eh Hg Hh.
  intros Ha Hr us Hlen Hsel Hkv Epi Hpi. destruct (request_amounts p w infos Hr) as (_ & Ea & _ & Hz).
  assert (Forall (fun e => exists x, owned g h (ks_PrivateKey (kw_KeySet w)) (fst e) x) sel) as Hown.
  { eapply Forall_impl; [exact (ch_own _ _ _ Hsel)|]. intros e He. exact (proj1 (utxo_in _ w chain ds e Ha He)). }
  assert (exists xs, Forall2 (owned g h (ks_PrivateKey (kw_KeySet w))) (map fst sel) xs) as [xs Hxs].
  { clear -Hown. induction Hown as [|e sel (x & Hx) _ (xs & IH)]; [exists []; constructor|]. exists (x :: xs). by constructor. }
  exists xs. pose proof (ch_enough _ _ _ Hsel) as Hen. destruct (fee_of_ok p (rq_fee _ _ _ Hr)) as [Hfu Hf].
  assert (ks_PrivateKey (kw_KeySet w) <> []) as N by (intros E; destruct (at_key _ _ _ _ Ha) as [[Hl _] _]; rewrite E in Hl; discriminate).
  assert (Forall (fun e => opened g h (fst e)) us) as Hop.
  { apply Forall_forall. intros e He. destruct (proj1 (utxo_in _ w chain ds e Ha He)) as (x & Hx). apply (ow_opened _ _ _ _ _ Hx). }
  pose proof (chosen_values us sel _ Hop Hsel) as Hle.
  pose proof (values_sublist _ _ (account_opened _ w chain ds Ha) (utxo_sublist _ w chain ds Ha)) as Hle2. fold us in Hle2.
  constructor; cbn [init_params NewTxPrivacyInitParams tp_SenderSK tp_PaymentInfo tp_InputCoins tp_KvArgs tp_Fee tp_MetaData tp_Info]; try done.
  - apply (at_key _ _ _ _ Ha).
  - intros ks E. rewrite (deserialize_private_keyset _ w (at_string _ _ _ _ Ha) N) in E. apply Ok_inj in E. subst ks. exact (rq_change _ _ _ Hr).
  - exact (rq_payable _ _ _ Hr).
  - exact (rq_count _ _ _ Hr).
  - by rewrite map_map.
  - rewrite length_map. split.
    + destruct sel; [|cbn; lia]. exfalso. change (required p <= 0) in Hen. unfold required in Hen. lia.
    + assert (NoDup sel) as Hnd by exact (NoDup_fmap_1 _ _ (ch_once _ _ _ Hsel)).
      pose proof (submseteq_length _ _ (NoDup_submseteq _ _ Hnd (proj1 (Forall_forall _ _) (ch_own _ _ _ Hsel)))). lia.
  - by rewrite length_map.
  - rewrite Ea. pose proof (at_total _ _ _ _ Ha). unfold required in Hen. lia.
  - cbn. lia.
Qed.

(** The string of a transaction: from it, the transaction is read. *)
Definition written_as (t : TxBase M) (e hash : list Z) : Prop := exists b v message,
  Base58Check_Decode e = Ok (b, v) /\ TxBase_UnmarshalJSON b TxBase_new = Ok (tx_SetPrivateKey None t) /\
  Tx_HashBytes t = Ok message /\ hash = Hash_String message.

Lemma finish_tx_ok d t c : carries d t -> cache_ok c ->
  exists c' e hash, finish_tx t c = (c', Ok (e, hash)) /\ cache_ok c' /\ written_as t e hash.
Proof using CL DL LL JL.
  intros Hd Hc. destruct (carries_json d t Hd) as (b & Eb & Er). destruct (carries_hash d t Hd) as (m & Em & _ & _).
  assert (bytes_ok b) as Hb.
  { unfold tx_MarshalJSON in Eb. destruct (tx_Proof t) as [q|]; [destruct (Proof_Bytes q); try discriminate|]; cbn [res_bind] in Eb; by eapply json_bytes. }
  destruct (cached_encode_decode c b 0 false Hc Hb) as (c' & e & v & Ee & Hc' & De & _); [unfold is_byte; lia|].
  exists c', e, (Hash_String m). split; [|split; [exact Hc'|by exists b, v, m]].
  unfold finish_tx. rewrite Eb. cbn [res_wrap]. rewrite (st_bind_lift (Ok b) _ _ _ eq_refl). unfold st_bind at 1.
  unfold Base58Check_Encode. change (0 =? 1) with false. rewrite Ee. rewrite (st_bind_lift _ _ _ _ Em). reflexivity.
Qed.

(** What is left of a call once its coins and decoys are chosen. *)
Lemma create_with_coins p w infos r c c1 G : Base58CheckDeserialize (xp_senderPrivateKey p) = Ok w -> request p w infos ->
  initParamsV2 p PRVIDStr (required p) c = (c1, r) ->
  CreateRawTransactionVer2 fuel aggParam R (mkCall c G p) =
    (let! (ins, kv) := st_lift r in
     let! t := st_lift (run_Init fuel aggParam R (NewTxPrivacyInitParams (Some (ks_PrivateKey (kw_KeySet w))) (map Some infos) ins (fee_of p) true
                          (Some PRVCoinID) None None kv)) in
     on_cache (finish_tx t)) (mkCall c1 G p).
Proof using Type.
  intros D Hr E. destruct (request_amounts p w infos Hr) as (Ei & _ & Hu & Hz). destruct (fee_of_ok p (rq_fee _ _ _ Hr)) as [Hfu Hf].
  pose proof (rq_total _ _ _ Hr) as Ht.
  unfold CreateRawTransactionVer2, the_param. unfold st_bind at 1. cbn [ca_param]. rewrite D. cbn [res_wrap].
  rewrite (st_bind_lift (Ok w) _ _ _ eq_refl). rewrite (st_bind_lift _ _ _ _ Ei). unfold is_inscribe. rewrite (rq_plain _ _ _ Hr).
  fold (fee_of p). rewrite total_amount_sum by (try assumption; lia). rewrite (Z.add_comm (fee_of p)). fold (required p).
  unfold st_bind at 1. unfold on_cache at 1. cbn [ca_cache ca_G ca_param]. rewrite E. destruct r as [[ins kv]| | |]; reflexivity.
Qed.

(** C2: from strings to a transaction.  The account of a private key requests a transfer
    to the receivers with these addresses and amounts.  Then the client either reports
    that the unspent coins of the account do not reach the amounts and the fee, which is
    so, or it spends unspent coins of the account, none twice and none superfluous, which
    reach them.  With these it is either still searching a one-time address, or there is
    a transaction which spends these coins, pays the receivers and gives back the change;
    this is either too large, or the string that is returned holds it: it decodes to the
    bytes from which the transaction, less the private key, is read back, and the second
    string is its hash.  The caller's parameters and the generators do not change. *)
Theorem raw_transaction_goes_through p w chain ds infos pi c G : account (xp_senderPrivateKey p) w chain ds -> request p w infos ->
  (length (utxos gone chain ds) < 255)%nat -> drawn fuel aggParam R -> tr_pi R = Ok pi -> (pi < RingSize)%nat -> cache_ok c ->
  let us := utxos gone chain ds in
  exists c' r, CreateRawTransactionVer2 fuel aggParam R (mkCall c G p) = (mkCall c' G p, r) /\ cache_ok c' /\
  (values (map fst us) < required p /\ r = Err "total unspent amount is less than the required amount" \/
   exists sel kv, chosen_coins us sel (required p) /\
     let params := init_params p w infos sel kv in
     let infos' := with_change (kw_KeySet w) infos (values (map fst sel) - required p) in
     (r = OutOfFuel /\ exists shard j info, GetSenderShard params = Ok shard /\ infos' !! j = Some info /\
        still_searching fuel shard (tr_shared R j) info) \/
     (exists t outs size, transferred g h aggParam params (map fst sel) outs infos' (map snd sel) pi t /\ Tx_GetTxActualSize t = Ok size /\
        if MaxTxSize <? size then r = Err "init txver2 error" else exists e hash, r = Ok (e, hash) /\ written_as t e hash)).
Proof using All.
  intros Ha Hr Hlen Hd Epi Hpi Hc us. destruct (initParamsV2_ok p w chain ds infos c Ha Hr Hc) as (c1 & Hc1 & [[Hlt E]|(sel & kv & Hsel & E & Hkv)]).
  { exists c1. eexists. rewrite (create_with_coins p w infos _ c c1 G (at_string _ _ _ _ Ha) Hr E). split; [reflexivity|]. split; [exact Hc1|]. by left. }
  fold us in Hsel. destruct (transfer_of p w chain ds infos sel kv pi Ha Hr Hlen Hsel Hkv Epi Hpi) as [xs Htf].
  destruct (Tx_Init_spec g h Eg Eh Hg Hh fuel aggParam R _ _ _ _ _ _ _ Hd Htf) as (ks & shard & Eks & Esh & Hinit).
  assert (ks_PrivateKey (kw_KeySet w) <> []) as N by (intros En; destruct (at_key _ _ _ _ Ha) as [[Hl _] _]; rewrite En in Hl; discriminate).
  rewrite (deserialize_private_keyset _ w (at_string _ _ _ _ Ha) N) in Eks. apply Ok_inj in Eks. subst ks.
  rewrite (create_with_coins p w infos _ c c1 G (at_string _ _ _ _ Ha) Hr E). rewrite (st_bind_lift (Ok _) _ _ _ eq_refl). cbv iota beta.
  fold (init_params p w infos sel kv). set (params := init_params p w infos sel kv) in *.
  destruct (request_amounts p w infos Hr) as (_ & Ea & _). cbv zeta in Hinit. rewrite Ea in Hinit.
  replace (values (map fst sel) - zsum (xp_amountList p) - tp_Fee params) with (values (map fst sel) - required p) in Hinit
    by (unfold required; change (tp_Fee params) with (fee_of p); lia).
  destruct Hinit as [[Er (j & info & Ej & Hs)]|(t & outs & size & Ei & Es & Htr & d & Hcar)].
  { exists c1, OutOfFuel. split; [|split; [exact Hc1|right; exists sel, kv; split; [exact Hsel|left; split; [done|by exists shard, j, info]]]].
    unfold run_Init. destruct (Tx_Init fuel aggParam R params TxBase_new) as [t0 r0]. cbn [snd] in Er. by rewrite Er. }
  unfold run_Init. rewrite Ei. destruct (MaxTxSize <? size) eqn:Esz.
  { exists c1. eexists. split; [reflexivity|]. split; [exact Hc1|]. right. exists sel, kv. split; [exact Hsel|]. right. exists t, outs, size. by rewrite Esz. }
  destruct (finish_tx_ok d t c1 Hcar Hc1) as (c2 & e & hash & Ef & Hc2 & Hw). exists c2, (Ok (e, hash)).
  split; [|split; [exact Hc2|right; exists sel, kv; split; [exact Hsel|right; exists t, outs, size; rewrite Esz; eauto 6]]].
  rewrite (st_bind_lift (Ok t) _ _ _ eq_refl). unfold on_cache. cbn [ca_cache ca_G ca_param]. by rewrite Ef.
Qed.
End prv.
End properties.

(** ** A transaction over the toy curve *)

#[local] Existing Instances keep_all keep_all_laws toy_curve toy_curve_laws toy_digests toy_digest_laws exact_cap exact_cap_laws
  toy_hdwallet toy_cipher toy_cipher_laws merge_slices merge_slices_laws toy_codec toy_codec_laws.

(** The string of the private key 4, and the wallet that is read from it. *)
Definition toy_purse : list Z :=
  ok_or [] (snd (Base58CheckSerialize PrivateKeyType (mkKeyWallet 0 [0; 0; 0; 0] (key_of 9) None toy_sender) ∅)).
Definition toy_owner : KeyWallet := ok_or emptyWallet (Base58CheckDeserialize toy_purse).
Lemma toy_purse_ok : Base58CheckDeserialize toy_purse = Ok toy_owner.
Proof. apply ok_or_spec. vm_compute. reflexivity. Qed.
Lemma toy_owner_keys : kw_KeySet toy_owner = toy_sender.
Proof. vm_compute. reflexivity. Qed.

(** Its address. *)
Definition toy_address : list Z :=
  ok_or [] (snd (Base58CheckSerialize PaymentAddressType (mkKeyWallet 0 [0; 0; 0; 0] (key_of 9) None toy_sender) ∅)).
Definition toy_payee : KeyWallet := ok_or emptyWallet (Base58CheckDeserialize toy_address).
Lemma toy_address_ok : Base58CheckDeserialize toy_address = Ok toy_payee.
Proof. apply ok_or_spec. vm_compute. reflexivity. Qed.
Lemma toy_payee_address : ks_PaymentAddress (kw_KeySet toy_payee) = ks_PaymentAddress toy_sender.
Proof. vm_compute. reflexivity. Qed.

(** A node that lists one coin, of which none is spent, and answers one point many
    times. *)
Definition toy_point_string : list Z := ok_or [] (snd (Base58Check_Encode (toy_write 300) 0 ∅)).
Lemma toy_point_string_ok : point_string toy_point_string (toy_write 300).
Proof. split; [exists 0; vm_compute; reflexivity|]. by eexists. Qed.

#[local] Instance fresh_node : Node := fun shardID tokenID sns => Ok (map (fun _ => false) sns).
#[local] Instance fresh_node_laws : NodeLaws (fun _ _ _ => false).
Proof. intros shardID tokenID sns _. reflexivity. Qed.

Definition toy_network (c : CoinV2) : Network := {|
  GetListOutputCoins _ _ _ := Ok ([InfoV2 c], [Some 30]);
  RandomCommitmentsAndPublicKeys _ _ n :=
    Ok (mkRandomResult (replicate n 31) (replicate n toy_point_string) (replicate n toy_point_string) []) |}.

Lemma toy_network_laws c : NetworkLaws (NW := toy_network c).
Proof.
  intros shardID n Hn. eexists. split; [reflexivity|]. unfold answers. cbn [rr_CommitmentIndices rr_Commitments rr_PublicKeys rr_AssetTags].
  assert (Forall (fun s => exists p, point_string s p) (replicate n toy_point_string)) as F.
  { apply Forall_replicate. exists (toy_write 300). exact toy_point_string_ok. }
  rewrite !length_replicate. split; [reflexivity|]. split; [apply Forall_replicate; unfold is_u64; lia|]. by repeat (split; [done|]).
Qed.

Definition toy_request : TxParam MetadataBase := mkTxParam toy_purse [toy_address] [40] 5 None None None.

#[local] Opaque toy_sender.

Lemma toy_infos v msg : is_u64 v -> bytes_ok msg -> (length msg <= MaxSizeInfoCoin)%nat -> payable_info (mkPaymentInfo (ks_PaymentAddress toy_sender) v msg).
Proof.
  intros Hv Hb Hl. pose proof (toy_payable v Hv) as Hp. unfold payable_info in *.
  cbn [toy_payment pi_PaymentAddress pi_Amount pi_Message] in *. destruct Hp as (_ & _ & _ & Hp).
  split; [exact Hv|]. split; [exact Hb|]. split; [exact Hl|exact Hp].
Qed.

Lemma toy_request_ok : request toy_request toy_owner [mkPaymentInfo (ks_PaymentAddress toy_sender) 40 []].
Proof.
  constructor; cbn [toy_request xp_receiverList xp_amountList xp_fee xp_md xp_kArgs]; try reflexivity.
  - constructor; [|constructor]. exists toy_payee. split; [exact toy_address_ok|]. cbn [snd]. by rewrite toy_payee_address.
  - apply Forall_singleton, toy_infos; [unfold is_u64; lia|constructor|cbn; lia].
  - unfold MaxOutputCoin. cbn. lia.
  - unfold is_u64. lia.
  - left. rewrite toy_owner_keys. exact (CoinV2.toy_burning _).
Qed.

(** The account: one coin of the value 100, which the account received. *)
Lemma toy_account_of g h c d x : CoinV2_Decrypt (Some toy_sender) c = (d, Ok tt) -> owned g h (key_of 4) d x -> coin_value d = 100 ->
  account (NW := toy_network c) g h toy_purse toy_owner [(c, 30)] [d].
Proof.
  intros Ed Hd Ev. assert (ks_PrivateKey (kw_KeySet toy_owner) = key_of 4) as Ek by (vm_compute; reflexivity).
  constructor.
  - exact toy_purse_ok.
  - rewrite Ek. exact toy_sk.
  - reflexivity.
  - constructor; [|constructor]. rewrite toy_owner_keys. split; [exact Ed|]. exists x. rewrite <- toy_owner_keys, Ek. exact Hd.
  - cbn [map]. apply NoDup_singleton.
  - apply Forall_singleton. cbn [snd]. unfold is_u64. lia.
  - change (values [d]) with (coin_value d + 0). rewrite Ev. lia.
Qed.

Lemma toy_all_found fuel v w msg (j : nat) info : (0 < fuel)%nat ->
  with_change toy_sender [mkPaymentInfo (ks_PaymentAddress toy_sender) v msg] (Zpos w) !! j = Some info ->
  ~ still_searching fuel 1 (key_of 9) info.
Proof.
  intros Hf Ej. change (with_change _ _ _) with [mkPaymentInfo (ks_PaymentAddress toy_sender) v msg; mkPaymentInfo (ks_PaymentAddress toy_sender) (Zpos w) []] in Ej.
  destruct j as [|[|j]].
  - apply (f_equal (default info)) in Ej. change (mkPaymentInfo (ks_PaymentAddress toy_sender) v msg = info) in Ej. rewrite <- Ej. by apply toy_found.
  - apply (f_equal (default info)) in Ej. change (mkPaymentInfo (ks_PaymentAddress toy_sender) (Zpos w) [] = info) in Ej. rewrite <- Ej. by apply toy_found.
  - change (([] : list PaymentInfo) !! j = Some info) in Ej. rewrite lookup_nil in Ej. discriminate Ej.
Qed.

Lemma raw_transaction_goes_through_witness : exists g h ag c c' r e,
  CreateRawTransactionVer2 (NW := toy_network c) 8 ag toy_randomness (mkCall ∅ [] toy_request) = (mkCall c' [] toy_request, r) /\
  exists t outs size params, transferred g h ag params [e] outs (with_change toy_sender [mkPaymentInfo (ks_PaymentAddress toy_sender) 40 []] 55) [30] 3 t /\
    Tx_GetTxActualSize t = Ok size /\ coin_value e = 100 /\
    if MaxTxSize <? size then r = Err "init txver2 error" else exists s hash, r = Ok (s, hash) /\ written_as t s hash.
Proof.
  destruct (PedG_index PedersenValueIndex) as (g & Eg & Hg); [unfold PedersenValueIndex; lia|].
  destruct (PedG_index PedersenRandomnessIndex) as (h & Eh & Hh); [unfold PedersenRandomnessIndex; lia|].
  destruct (toy_input_coin g h Eg Eh Hg Hh) as (c & Hc). destruct toy_drawn as [ag Hd].
  destruct (received_spec g h Eg Eh Hg Hh (key_of 4) toy_sender (toy_payment 100) c c toy_sk toy_account eq_refl (CoinV2.toy_burning _) Hc)
    as (d & x & Ed & Hdx & Ev & _).
  { destruct Hc as (m & _ & (Ho & _) & _). split; [apply (op_stored g h c Ho)|]. repeat (split; [reflexivity|]). by left. }
  { by left. }
  change (coin_value d = 100) in Ev. pose proof (toy_account_of g h c d x Ed Hdx Ev) as Ha.
  assert (utxos (fun _ => false) [(c, 30)] [d] = [(d, 30)]) as Eus.
  { unfold utxos, unspent_coins, unspent_coin. cbn [map snd zip zip_with]. rewrite filter_cons_True; [reflexivity|].
    cbn [fst]. by rewrite (ow_image _ _ _ _ _ Hdx), Ev. }
  destruct (raw_transaction_goes_through (NW := toy_network c) (fun _ _ _ => false) g h Eg Eh Hg Hh (fun _ => false) (fun _ _ _ _ => eq_refl)
    (NWL := toy_network_laws c) 8 ag toy_randomness toy_request toy_owner [(c, 30)] [d] _ 3 ∅ [] Ha toy_request_ok ltac:(rewrite Eus; cbn; lia) Hd eq_refl ltac:(unfold RingSize; lia)
    empty_cache_ok) as (c' & r & E & _ & Hr).
  cbv zeta in Hr. rewrite Eus in Hr.
  assert (values (map fst [(d, 30)]) = 100) as Evs by (change (values (map fst [(d, 30)])) with (coin_value d + 0); rewrite Ev; lia).
  destruct Hr as [[Hlt _]|(sel & kv & Hsel & Hr)]; [rewrite Evs in Hlt; exfalso; revert Hlt; unfold required, fee_of; cbn; lia|].
  assert (sel = [(d, 30)]) as ->.
  { destruct sel as [|e1 [|e2 sel]].
    - exfalso. pose proof (ch_enough _ _ _ Hsel) as He. revert He. unfold required, fee_of. cbn. lia.
    - pose proof (Forall_inv (ch_own _ _ _ Hsel)) as Hi. apply list_elem_of_singleton in Hi. by subst.
    - exfalso. pose proof (ch_own _ _ _ Hsel) as Hi. inversion Hi as [|? ? H1 Hi2]; subst. inversion Hi2 as [|? ? H2 _]; subst.
      apply list_elem_of_singleton in H1, H2. subst. pose proof (ch_once _ _ _ Hsel) as Hn. cbn [map fst] in Hn.
      apply NoDup_cons in Hn as [Hn _]. apply Hn. by left. }
  rewrite Evs in Hr. rewrite toy_owner_keys in Hr. change (100 - required toy_request) with 55 in Hr.
  destruct Hr as [[_ (shard & j & info & Esh & Ej & Hs)]|(t & outs & size & Ht & Es & Hw)].
  - exfalso. assert (Ok shard = Ok 1) as E1 by (rewrite <- Esh; vm_compute; reflexivity). apply Ok_inj in E1. subst shard.
    exact (toy_all_found 8 40 55 [] j info ltac:(lia) Ej Hs).
  - exists g, h, ag, c, c', r, d. split; [exact E|]. exists t, outs, size. eexists. split; [exact Ht|]. split; [exact Es|]. split; [exact Ev|exact Hw].
Defined.
